(* ===== verification/_CoqProject ===== *)
-Q . S2P
Prelude.v
GoStd.v
GoText.v
GoTime.v
GoFormat.v
WardenTypes.v
WardenManager.v
WardenElection.v
WardenSpec.v
WardenCluster.v
WardenSafety.v
WardenMembership.v
WardenNode.v
WardenWatchdog.v
WardenWire.v
WardenConfig.v
WardenMain.v
CronSchedule.v
CronNext.v
CronDefinition.v
CronContract.v
CronStore.v
CronLease.v
CronService.v
CronKeeps.v
CronCycle.v
CronWorker.v
CronStatus.v
OsContract.v
OsTypes.v
OsReceipts.v
OsAgent.v
OsFence.v
OsFleet.v
OsStore.v
OsReconcile.v
OsRollout.v
OsTracking.v
OsApprovals.v
OsController.v
OsOperator.v
OsTurns.v
OsGate.v
OsFleetRecord.v
OsControl.v
OsDesk.v
OsSource.v
OsDigest.v
OsHarness.v
GotthProtocol.v
GotthBoundary.v
GotthWindow.v
GotthRender.v
GotthBitset.v
GotthFresh.v
GotthSession.v
GotthTrace.v
GotthDemo.v
GotthAudit.v
GotthUnion.v
GotthIngress.v
GotthPage.v
GotthLive.v
GotthRegistry.v
