(* ===== verification/Prelude.v ===== *)
(** * Candace: a verification development

    Candace is a monorepo of Go services and libraries.  This library models the parts
    that carry logic of their own and can be checked by the kernel, and proves what makes
    them correct.  Four systems are modelled: warden, a leader-elected watchdog cluster; cron,
    the schedules, the occurrence store and the service that every scheduled job of the
    repository runs on; gotth, a server-rendered live UI runtime; and CandaceOS, the control
    plane in which an operator's agent proposes deployments, a person approves them, and
    agents on the nodes carry them out.  They meet where the code has them meet: CandaceOS
    sees its nodes through warden's status ([OsFleet]), and decides what it may do from
    warden's leader.

    ** Reading the library

    A definition carries the name of the Go function it translates and follows its source
    order, guards and early returns included.  Structs are records (a field assignment is
    [r <| f := v |>]), Go maps are [gmap], slices are lists, [uint64] is [N] with
    [u64_add] where it may wrap, [int64] and [time.Duration] are [Z] with [i64_wrap] or
    the saturation the code has, [time.Time] is the number of nanoseconds since year 1
    (its zero is Go's zero time), fallible functions return [result] or [option] and an
    error value names what was refused rather than its text.  What a component reaches
    outside itself (clock, disk, random numbers, transport, goroutines) is kept beside its
    state or given as an argument, so that each turn of an event loop is a function and a
    run is a list of turns in any order.

    ** The files

    Shared: [Prelude] (record update, results, machine integers, [Time], list and map
    lemmas), [GoStd] (strings, strconv, net), [GoTime] (civil calendar and zones),
    [GoText] (regular expressions by derivatives, UTF-8), [GoFormat] (hexadecimal and
    RFC 3339 texts, and that they are injective).

    warden (src/services/warden, src/app/warden).  [WardenTypes] is types.go and wire.go;
    [WardenManager] the election Manager's state, helpers and views (manager.go, config.go,
    view.go); [WardenElection] every handler of election.go, heartbeat.go and membership.go
    and the loop's [step]; [WardenSpec] the abstract vote machine and the refinement of the
    loop to it; [WardenCluster] a network of such nodes with loss, duplication, crashes and
    failed saves, proved against the abstract machine only; [WardenSafety] the cluster-wide
    theorems; [WardenMembership] and [WardenNode] what one node keeps true;
    [WardenWatchdog] watchdog.go; [WardenWire] wireconv.go; [WardenConfig] config, YAML and
    environment overlays and [Validate]; [WardenMain] how main.go assembles these parts.

    cron (src/pkg/cron).  [CronSchedule] is schedule.go, [CronNext] what [Next] computes,
    [CronDefinition] the persisted form, [CronContract] the protobuf contract.  [CronStore]
    is store.go with every method of [MemoryStore]; [CronLease] describes a call as a step
    and proves what any sequence of calls keeps.  [CronService] is options.go and
    service.go, over the class [IStore] that the store implements; [CronKeeps] states, as
    the class [CursorStore], what the scheduler needs of its store, and proves it of
    [MemoryStore]; [CronCycle] proves the cycle against that class only; [CronWorker] is
    about what workers report, what [New] builds, and two services on one store.
    [CronStatus] is contract/runtime.go: the messages that report a store.

    gotth (src/pkg/gotth).  [GotthProtocol] is internal/protocol: messages, generated
    refinements, hand-checked invariants, [ParseInbound], [ValidateOutbound], the frame
    constructors; [GotthBoundary] what those let through.  [GotthWindow] is the rate bucket,
    limits and outbound window of internal/session; [GotthRender] the fragment registry and
    renderer of internal/render, [GotthBitset] and [GotthFresh] their theory.
    [GotthSession] is the session actor (actor.go, ingress.go, resync.go, effects.go, and
    the guarded emitter of live/app.go), over the interface [Views] that the renderer
    implements and the classes and records of functions an application fills in;
    [GotthTrace] proves that a turn writes nothing sequenced or exactly one frame,
    [GotthAudit] reads the run-level theorems off that, [GotthUnion] treats the provenance
    of deferred transitions, [GotthIngress] the way into the mailbox, [GotthPage] composes
    session, renderer and wire; [GotthDemo] is a counter the statements are tried on.
    [GotthLive] is the configuration that [New] accepts (live/config.go, app.go) and
    [GotthRegistry] the transport's admission and drain (internal/wsx/handler.go, conn.go).

    CandaceOS (src/services/candaceos, src/app/candaceos-agent, and the messages of
    src/proto/candace/candaceos/v1).  [OsContract] is the node-control and harness messages
    with their refinements; [OsTypes] desired state, revisions and placement; [OsReceipts]
    runs, approvals and the receipt log.  On a node: [OsAgent] the agent (reconciler.go,
    runner.go, store.go) and [OsFence] what any life of one keeps.  In Core: [OsFleet] the
    view of warden; [OsStore] the tables, queries and transactions; [OsReconcile] the
    reconciler, with [OsRollout] its operations interleaved with agents and restarts and
    [OsTracking] which nodes may run an app; [OsApprovals] the approval queue between its
    lock regions; [OsController] the controller's lock regions and [OsOperator] the calls
    that put them in order, with [OsTurns] the life of a run and [OsGate] what an approval
    lets through; [OsControl] and [OsFleetRecord] the durable hooks and the fleet record of
    control/runtime.go, with [OsDesk] the queue on those hooks.  [OsSource] is the digest of
    a source tree, its materialization and the agent's cache of revisions, [OsDigest] what a
    digest binds and a cache holds.  [OsHarness] is the lifecycle owner of a harness session
    on pkg/mailbox.

    ** What the theorems show

    - Elections: in static mode one leader per term and agreement on it, with durable votes
      and real majorities, in every interleaving of messages, faults and restarts; every
      turn of the loop refines the abstract machine; in discovery mode the same need not
      hold, and [discovery_split_brain] exhibits a run with two leaders.
    - One node: handlers on every branch, membership well-formed and changed one voter at a
      time, timers never lost, heartbeats durable when acknowledged.
    - Watchdog: when evaluations come in different seconds no incident is notified twice; an
      isolated leader is silent, failures are retried; which incidents and episodes an
      evaluation makes.
    - Wire, configuration, assembly: conversions lose nothing; [Validate] accepts exactly
      the stated rules; precedence of environment over file over default.
    - Schedules: [Next] is the first occurrence of the rule, where months end at midnight, and
      always terminates; persisted and protobuf forms restore the schedule.
    - Scheduled jobs: through any sequence of calls, from any number of services, the store
      stays well-formed, a lease taken over fences its former holder off, [OverlapSkip]
      leaves one live occurrence per job while calls come in the order of their times, and
      the cursor passes no instant that has no record.  A cycle of the only scheduler of a
      store that keeps its contract does not fail, and brings every cursor past the present
      or to its limit; the catch-up policy decides which occurrences run; what a worker
      reports is recorded.
    - Live sessions: the sequence on the wire has no hole and every frame is valid; the
      provenance stream is the wire's; resync ranges are disjoint; when changes are declared
      truthfully, each static region of the page a client builds from the wire is the
      rendering of the current state, unless it is marked or hashes coincide;
      the flush trigger counts the union it guards and a deferral leaves room for the next
      frame; what is owed is sent or kept; every event from the wire is queued, or answered
      as far as the transport takes the answer;
      effects leave only sendable messages; origins, error messages, inbound frames and rate
      limits at their boundaries.  The registry accounts for every connection under both
      limits, and a drain leaves nothing served.
    - Status of scheduled jobs: after any run of the store its snapshot has a valid message
      that says what the store holds.
    - Deployments, from end to end: every dispatch to the reconciler has an approval of its
      own, given by an operator in time for the revision and intent that were shown; every
      process an agent runs is for an operation begun with authority and recorded; what a
      node materializes has the files that were approved; while operations follow one
      another and each project has one app, no node on which an app may run is
      forgotten.  Each holds through lost requests, ambiguous commits and restarts.
    - One node: processes come in the order of their fences, one leader per term, and an
      answer of success survives a restart; the cache of revisions stays within its limits.
    - The operator: runs follow one another and take the states of a run in order, but for a
      call that fails after it has started its run; an aborted turn starts, sends and takes
      nothing, and what it still dispatches was taken before; a request for approval ends
      within three steps, an approval called approved was approved by an operator and has
      its row.
    - Core's records: startup recovery leaves nothing open, and writes receipts for exactly
      what was open; evidence is the recorded successes of the plan, but for a commit that is
      performed and reported as failed; receipt logs are append-only and restore to themselves,
      placement follows the policy, and the authority is that of warden's leader.
    - A harness session: [Close] waits for every operation and the one cleanup, always
      returns, and nothing happens after it; replay and early callbacks come first, once.

    Defects the proofs met are theorems too: [discovery_split_brain],
    [term_regresses_after_lost_save], [cooldown_does_not_space_notifications],
    [last_day_runs_early], [wedged_session_is_silent], [late_replica_stops],
    [overlapping_operations_lose_a_node], [renamed_app_runs_on],
    [second_path_is_misrecorded], [ended_run_is_recorded_failed],
    [closed_controller_takes_prompts], [title_is_cut_inside_a_character],
    [coalescing_leaves_other_rows], [same_second_same_incident] and
    [failed_projection_leaves_a_member_stale].

    ** Bounds and fuel

    [search] of [CronSchedule] recurses on [search_fuel], one more than the minutes between
    the first candidate and the five-year deadline, so the deadline ends it before the fuel
    does; [Next_total] shows that it ends at an occurrence.  [collectDue]
    recurses on the catch-up limit, [loop] on the list of its wake-ups, [to_valid] and
    [cut_to_valid] on a length that each step shortens.  The other recursions are
    structural.  Theorems about a run of a session bound its number of turns by 2^64 - 1, so
    that the counters do not wrap; wrap-around of election terms and membership versions
    is in the definitions, and the theorems that need it absent say so: [CronStatus] takes
    fewer than 2^32 operations of a store, CandaceOS's fences compare as the [uint64] they
    are.  [WalkDir] and the extraction of an archive recurse on the tree and on the list of
    entries.  Where SHA-256 matters the theorem's other case is a collision, two explicit
    texts with one hash.

    ** Not modelled

    Logging, metrics, spans and human-readable texts, except the provenance stream of gotth
    and error messages sent to its clients.  Go's map iteration order where the code sorts
    afterwards (the model iterates in key order; the renderer's [MarkID] and [publishIDs]
    do not depend on it).  Reading the clock twice in one turn: a turn has one time.
    Scheduling inside a handler: handlers are atomic, as the loops that own the state make
    them; for the session the three goroutines meet only in channels, the closing flag and
    the framer, and their turns interleave freely.  Float rounding in the rate buckets
    (rationals here) and [LatencyMS].  Protobuf encoding, YAML decoding, regular expressions
    given by users, the robfig/cron parser, duration texts and the zone database, which are
    parameters.  The renderer's hash is a parameter, of which nothing is assumed: the theorems
    name the coincidences that would mislead it.  SHA-256 in the identity of an occurrence is
    a parameter too, free of collisions where a theorem says so.  A worker of the
    cron service is the record of its start: its renewals and its completion are calls that
    others make to the store between two calls of the scheduler; timers are the list of
    reasons for which [loop] wakes up.  The Postgres store of cron (SQL behind the same
    interface) and its status page.  The draining of effects at shutdown, sockets, files, processes and
    HTTP.  The page of a fragment collection's children is not described (their parent's
    and their own updates overlap in the DOM); collections are modelled in the renderer and
    covered by every wire theorem.

    In CandaceOS, Git, the file system, Compose processes, HTTP and PostgreSQL are the
    outcomes of the calls that reach them, a commit that is reported as failed but was
    performed among them.  Left out: the adapters of the harnesses (opencode, Copilot), the
    tools they are given, the web UI and HTTP API, migrations and the queries of chats and
    settings, process configuration and bootstrap; a request delivered after its call has
    been given up.

    Not modelled of the rest of the repository: the agent host csf and the
    copilot-adapter, which are mostly generated queries and handlers over services outside
    the repository; the widget compiler, the liquidproto generator (its output is modelled
    where the modelled code calls it) and the SQL translator of pgmem, which are compilers
    that would be developments of their own; the small packages (bounded buffer, labels,
    redaction, patience, configuration, HTTP server, telemetry, migrations, work continuity);
    tools, examples and generated code. *)

From stdpp Require Export base tactics list strings gmap sorting.
From Stdlib Require Export ZArith NArith Lia.

(** [simplify_eq] and [naive_solver] clear what is already gone. *)
#[export] Set Warnings "-clear-no-such-hyp".

Declare Scope go_scope.
Delimit Scope go_scope with go.

(** ** Field assignment

    [m <| role := v |>] is the state after the Go assignment [m.role = v].  A
    record declares how it is rebuilt from its projections; the update of a
    field is derived from that. *)
Class Rebuild (R : Type) := rebuild : R -> R.
Class Update {R E : Type} (proj : R -> E) := update : (E -> E) -> R -> R.
Arguments update {R E} proj {_} f r /.

Ltac derive_update :=
  lazymatch goal with
  | |- @Update ?R ?E ?proj =>
      let inst := constr:(_ : Rebuild R) in
      refine (fun (f : E -> E) (r : R) => ltac:(
        let body := eval red in (inst r) in
        let body := eval pattern (proj r) in body in
        lazymatch body with
        | ?g _ => let new := eval cbv beta in (g (f (proj r))) in exact new
        end))
  end.
#[export] Hint Extern 1 (@Update _ _ _) => derive_update : typeclass_instances.

Notation "r <| proj := v |>" := (update proj (fun _ => v) r)
  (at level 1, left associativity, proj constr at level 0, v constr at level 99)
  : go_scope.
Notation "r <| proj ::= f |>" := (update proj f r)
  (at level 1, left associativity, proj constr at level 0, f constr at level 99)
  : go_scope.
Open Scope go_scope.

(** ** Results of fallible Go functions *)

(** The pair [(T, error)] of a Go function that returns either a value or an
    error. *)
Inductive result (E A : Type) : Type :=
| Ok (a : A)
| Err (e : E).
Arguments Ok {E A} a.
Arguments Err {E A} e.

Definition result_bind {E A B} (r : result E A) (f : A -> result E B)
  : result E B :=
  match r with
  | Ok a => f a
  | Err e => Err e
  end.

Notation "'let!' x ':=' r 'in' k" := (result_bind r (fun x => k))
  (at level 10, x name, r at level 100, k at level 200) : go_scope.
Notation "'guard!' b 'else' e 'in' k" := (if b then k else Err e)
  (at level 10, b at level 100, e at level 100, k at level 200) : go_scope.

Definition is_ok {E A} (r : result E A) : bool :=
  match r with Ok _ => true | Err _ => false end.

(** ** Machine integers *)

(** Go's [uint64] arithmetic on [N]. *)
Definition max_uint64 : N := 18446744073709551615%N.
Definition u64_add (a b : N) : N := ((a + b) mod 18446744073709551616)%N.

(** Go's [int64], the representation of [time.Duration], on [Z]. *)
Definition min_int64 : Z := (-9223372036854775808)%Z.
Definition max_int64 : Z := 9223372036854775807%Z.
Definition i64_wrap (z : Z) : Z :=
  ((z - min_int64) mod 18446744073709551616 + min_int64)%Z.
Definition i64_clamp (z : Z) : Z := Z.max min_int64 (Z.min max_int64 z).

(** ** Package time *)

(** An instant is a number of nanoseconds since January 1, year 1 UTC: Go's zero
    [time.Time] is [0].  A [Duration] is an [int64] number of nanoseconds;
    [Sub] saturates, exactly as [time.Time.Sub] documents. *)
Module Time.
Local Open Scope Z_scope.
Definition t := Z.
Definition Duration := Z.
Definition Microsecond : Duration := 1000.
Definition Millisecond : Duration := 1000000.
Definition Second : Duration := 1000000000.
Definition Minute : Duration := 60000000000.

Definition IsZero (a : t) : bool := a =? 0.
Definition Before (a b : t) : bool := a <? b.
Definition After (a b : t) : bool := b <? a.
Definition Add (a : t) (d : Duration) : t := a + d.
Definition Sub (a b : t) : Duration := i64_clamp (a - b).

(** Seconds between year 1 and the Unix epoch. *)
Definition unixToInternal : Z := 62135596800.
Definition Unix (a : t) : Z := a / Second - unixToInternal.
End Time.

(** ** Results *)

Lemma guard_ok {E A} (b : bool) (e : E) (k : result E A) (a : A) :
  (guard! b else e in k) = Ok a <-> b = true /\ k = Ok a.
Proof. destruct b; naive_solver. Qed.

Lemma bind_ok {E A B} (r : result E A) (f : A -> result E B) (b : B) :
  result_bind r f = Ok b <-> exists a, r = Ok a /\ f a = Ok b.
Proof. destruct r; simpl; naive_solver. Qed.

Lemma negb_decide (P : Prop) `{Decision P} : negb (bool_decide P) = true <-> ~ P.
Proof. by rewrite negb_true_iff, bool_decide_eq_false. Qed.

(** ** Sorting by a string key *)

(** [sort.Slice(s, func(i, j int) bool { return key(s[i]) < key(s[j]) })]. *)
Definition key_le {A} (key : A -> string) (x y : A) : Prop :=
  String.le (key x) (key y).
Definition sort_by {A} (key : A -> string) (l : list A) : list A :=
  merge_sort (key_le key) l.

(** Go's [<] on strings. *)
Definition string_lt (a b : string) : bool := String.ltb a b.

(** The first element of a list with the least key: the loop
    [if best == nil || key(x) < key(best) { best = x }]. *)
Fixpoint least_by {A} (key : A -> string) (best : option A) (l : list A)
  : option A :=
  match l with
  | [] => best
  | x :: l' =>
      match best with
      | None => least_by key (Some x) l'
      | Some b =>
          if string_lt (key x) (key b) then least_by key (Some x) l'
          else least_by key best l'
      end
  end.

(** ** Lemmas *)

(** *** Integers *)

Lemma u64_add_no_overflow a b :
  (a + b <= max_uint64)%N -> u64_add a b = (a + b)%N.
Proof. unfold u64_add, max_uint64. intros. apply N.mod_small. lia. Qed.

Lemma u64_succ_lt a : (a < max_uint64)%N -> (a < u64_add a 1)%N.
Proof. intros. rewrite u64_add_no_overflow; lia. Qed.

Lemma u64_add_bound a b : (u64_add a b <= max_uint64)%N.
Proof.
  unfold u64_add, max_uint64.
  pose proof (N.mod_upper_bound (a + b) 18446744073709551616). lia.
Qed.

Lemma i64_clamp_id z :
  (min_int64 <= z <= max_int64)%Z -> i64_clamp z = z.
Proof. unfold i64_clamp. lia. Qed.

Lemma i64_wrap_id z :
  (min_int64 <= z <= max_int64)%Z -> i64_wrap z = z.
Proof.
  unfold i64_wrap, min_int64, max_int64. intros H. rewrite Z.mod_small; lia.
Qed.

Lemma i64_clamp_bounds z : (min_int64 <= i64_clamp z <= max_int64)%Z.
Proof. unfold i64_clamp, min_int64, max_int64. lia. Qed.

Lemma i64_clamp_mono a b : (a <= b)%Z -> (i64_clamp a <= i64_clamp b)%Z.
Proof. unfold i64_clamp. lia. Qed.

(** *** Sorting *)

#[global] Instance key_le_dec {A} (key : A -> string) x y :
  Decision (key_le key x y).
Proof. unfold key_le. apply _. Defined.

#[global] Instance key_le_trans {A} (key : A -> string) :
  Transitive (key_le key).
Proof. intros x y z. unfold key_le. apply transitivity. Qed.

#[global] Instance key_le_total {A} (key : A -> string) : Total (key_le key).
Proof. intros x y. apply String.le_total. Qed.

Section sort_by.
Context {A : Type} (key : A -> string).
Implicit Types l : list A.

Lemma sort_by_perm l : sort_by key l ≡ₚ l.
Proof. apply merge_sort_Permutation. Qed.

Lemma sort_by_sorted l : StronglySorted (key_le key) (sort_by key l).
Proof. apply (StronglySorted_merge_sort _). Qed.

Lemma sort_by_elem l x : x ∈ sort_by key l <-> x ∈ l.
Proof. by rewrite sort_by_perm. Qed.

Lemma sort_by_length l : length (sort_by key l) = length l.
Proof. by rewrite sort_by_perm. Qed.

(** With distinct keys the unstable [sort.Slice] has only one outcome, so the
    iteration order of a Go map never shows in a sorted slice. *)
Lemma sort_by_unique l1 l2 :
  NoDup (key <$> l1) -> l1 ≡ₚ l2 ->
  StronglySorted (key_le key) l2 -> sort_by key l1 = l2.
Proof.
  intros Hnd Hp Hs.
  eapply (StronglySorted_unique_strong (key_le key)).
  - intros x1 x2 Hx1 Hx2 H12 H21.
    assert (key x1 = key x2) as Hk
      by (unfold key_le in *; by apply (anti_symm String.le)).
    rewrite sort_by_perm in Hx1. rewrite <- Hp in Hx2.
    apply list_elem_of_lookup in Hx1 as [i Hi], Hx2 as [j Hj].
    assert (i = j) as ->; [|congruence].
    apply (NoDup_lookup (key <$> l1) i j (key x1)); [done| |].
    + by rewrite list_lookup_fmap, Hi.
    + by rewrite list_lookup_fmap, Hj, Hk.
  - apply sort_by_sorted.
  - done.
  - by rewrite sort_by_perm.
Qed.

Lemma sort_by_sorted_id l :
  NoDup (key <$> l) -> StronglySorted (key_le key) l -> sort_by key l = l.
Proof. intros. by apply sort_by_unique. Qed.
End sort_by.

Lemma string_lt_irrefl a : string_lt a a = false.
Proof.
  unfold string_lt, String.ltb.
  destruct (a ?= a)%string eqn:E; try done.
  pose proof (String.compare_antisym a a) as H. rewrite E in H. done.
Qed.

Lemma string_lt_le a b : string_lt a b = false <-> String.le b a.
Proof.
  unfold string_lt, String.ltb, String.le, String.leb.
  rewrite (String.compare_antisym a b).
  destruct (b ?= a)%string; simpl; naive_solver.
Qed.

Lemma string_lt_true_le a b : string_lt a b = true -> String.le a b.
Proof.
  unfold string_lt, String.ltb, String.le, String.leb.
  destruct (a ?= b)%string; naive_solver.
Qed.

Lemma string_lt_antisym a b : string_lt a b = false -> string_lt b a = false -> a = b.
Proof. intros H1%string_lt_le H2%string_lt_le. by apply (anti_symm String.le). Qed.

Lemma string_lt_trans a b c : string_lt a b = true -> string_lt b c = true -> string_lt a c = true.
Proof.
  intros H1 H2. destruct (string_lt a c) eqn:H3; [done|].
  pose proof (string_lt_true_le _ _ H1) as L1. pose proof (string_lt_true_le _ _ H2) as L2.
  apply string_lt_le in H3. assert (b = c) as -> by
    (apply (anti_symm String.le); [done|by etrans]).
  by rewrite string_lt_irrefl in H2.
Qed.

Lemma string_lt_asym a b : string_lt a b = true -> string_lt b a = false.
Proof.
  intros H. destruct (string_lt b a) eqn:E; [|done].
  pose proof (string_lt_trans _ _ _ H E) as F. by rewrite string_lt_irrefl in F.
Qed.

Section least_by.
Context {A : Type} (key : A -> string).

Lemma least_by_spec l best :
  match least_by key best l with
  | Some y =>
      (best = Some y \/ y ∈ l) /\
      (forall b, best = Some b -> String.le (key y) (key b)) /\
      (forall x, x ∈ l -> String.le (key y) (key x))
  | None => best = None /\ l = []
  end.
Proof.
  revert best. induction l as [|x l IH]; intros best; simpl.
  { destruct best; [|done]. split; [by left|split].
    - by intros ? [= ->].
    - intros ? ?%elem_of_nil. done. }
  destruct best as [b|].
  - destruct (string_lt (key x) (key b)) eqn:E.
    + specialize (IH (Some x)).
      destruct (least_by key (Some x) l) as [y|]; [|naive_solver].
      destruct IH as (Hin & Hle & Hl).
      pose proof (Hle x eq_refl) as Hyx.
      split; [|split].
      * right. rewrite elem_of_cons. naive_solver.
      * intros ? [= <-]. etrans; [done|]. by apply string_lt_true_le.
      * intros z [->|Hz]%elem_of_cons; eauto.
    + specialize (IH (Some b)).
      destruct (least_by key (Some b) l) as [y|]; [|naive_solver].
      destruct IH as (Hin & Hle & Hl).
      pose proof (Hle b eq_refl) as Hyb.
      split; [|split]; [rewrite elem_of_cons; naive_solver|naive_solver|].
      intros z [->|Hz]%elem_of_cons; [|by eauto].
      etrans; [done|]. by apply string_lt_le.
  - specialize (IH (Some x)).
    destruct (least_by key (Some x) l) as [y|]; [|naive_solver].
    destruct IH as (Hin & Hle & Hl).
    split; [right; rewrite elem_of_cons; naive_solver|split; [done|]].
    intros z [->|Hz]%elem_of_cons; eauto.
Qed.

Lemma least_by_None l : least_by key None l = None <-> l = [].
Proof.
  pose proof (least_by_spec l None) as H.
  destruct (least_by key None l); [|naive_solver].
  destruct H as ([?|Hin] & _); [done|].
  split; [done|]. intros ->. by apply elem_of_nil in Hin.
Qed.

Lemma least_by_Some l y :
  least_by key None l = Some y ->
  y ∈ l /\ forall x, x ∈ l -> String.le (key y) (key x).
Proof.
  intros E. pose proof (least_by_spec l None) as H. rewrite E in H.
  naive_solver.
Qed.
End least_by.

(** *** Majorities *)

Section majority.
Context {K : Type} `{Countable K}.

Lemma size_list_to_set_le (l : list K) :
  size (list_to_set l : gset K) <= length l.
Proof.
  induction l as [|x l IH].
  - rewrite list_to_set_nil, size_empty. done.
  - rewrite list_to_set_cons, size_union_alt, size_singleton.
    assert (size (list_to_set l ∖ {[x]} : gset K)
            <= size (list_to_set l : gset K)) by (apply subseteq_size; set_solver).
    rewrite length_cons. lia.
Qed.

(** Two subsets of [U] that together outnumber it share a member. *)
Lemma sets_overlap (U X Y : gset K) :
  X ⊆ U -> Y ⊆ U -> size U < size X + size Y -> exists x, x ∈ X /\ x ∈ Y.
Proof.
  intros HX HY Hs.
  destruct (decide (X ∩ Y = ∅)) as [E|E].
  - assert (size (X ∪ Y) = size X + size Y) by (apply size_union; set_solver).
    assert (size (X ∪ Y) <= size U) by (apply subseteq_size; set_solver).
    lia.
  - apply set_choose_L in E as [x Hx]. exists x. set_solver.
Qed.
End majority.

(** *** Strings *)

Lemma str_append_assoc (a b c : string) : (a +:+ b) +:+ c = a +:+ (b +:+ c).
Proof.
  induction a as [|x a IH]; [done|].
  change (String x ((a +:+ b) +:+ c) = String x (a +:+ (b +:+ c))). by rewrite IH.
Qed.

Lemma substring_length s : forall n,
  String.length (String.substring 0 n s) = (n `min` String.length s)%nat.
Proof. induction s as [|c s IH]; intros [|n]; simpl; [done..|]. by rewrite IH. Qed.

(** A string of known length in front. *)
Lemma append_same_length (a b s t : string) :
  String.length a = String.length b -> a +:+ s = b +:+ t -> a = b /\ s = t.
Proof.
  revert b. induction a as [|x a IH]; intros [|y b] Hl H; cbn in *; try done.
  injection Hl as Hl. injection H as -> H. by destruct (IH b Hl H) as [-> ->].
Qed.

(** *** Automation *)

Create HintDb candace.
#[export] Hint Resolve u64_add_bound i64_clamp_bounds : candace.
#[export] Hint Resolve sort_by_sorted sort_by_perm : candace.

(** Split every [if], [match] and [let] of the goal, keeping the equations. *)
Ltac case_all :=
  repeat (case_match; simpl; try done).
