(* ===== verification/GoStd.v ===== *)
(** * The Go standard library functions the components call

    Strings are byte strings.  [strings.TrimSpace], [strings.Fields], [strings.Split] on one byte,
    [strings.Index] of one byte, [strconv.Atoi], [strconv.ParseBool] and
    [net.SplitHostPort] are modelled as they are implemented; an error is
    [None], since no caller looks into one. *)

From Stdlib Require Import Ascii.
From S2P Require Import Prelude.

(** ** Package strings *)

(** The UTF-8 encodings of the code points [unicode.IsSpace] accepts. *)
Definition white_space : list (list ascii) :=
  let b := ascii_of_nat in
  [[b 9]; [b 10]; [b 11]; [b 12]; [b 13]; [b 32]; [b 194; b 133]; [b 194; b 160];
   [b 225; b 154; b 128]]
  ++ ((fun k => [b 226; b 128; b k])
        <$> [128; 129; 130; 131; 132; 133; 134; 135; 136; 137; 138; 168; 169; 175])
  ++ [[b 226; b 129; b 159]; [b 227; b 128; b 128]].

(** [strip p l]: what follows the prefix [p] of [l]. *)
Fixpoint strip (p l : list ascii) : option (list ascii) :=
  match p, l with
  | [], _ => Some l
  | a :: p, b :: l => if decide (a = b) then strip p l else None
  | _ :: _, [] => None
  end.

(** The first pattern of [ps] that [l] starts with, stripped. *)
Fixpoint strip_any (ps : list (list ascii)) (l : list ascii) : option (list ascii) :=
  match ps with
  | [] => None
  | p :: ps => match strip p l with Some r => Some r | None => strip_any ps l end
  end.

Fixpoint trim_with (ps : list (list ascii)) (fuel : nat) (l : list ascii) : list ascii :=
  match fuel with
  | 0 => l
  | S fuel => match strip_any ps l with Some r => trim_with ps fuel r | None => l end
  end.

Definition trim_left (l : list ascii) : list ascii := trim_with white_space (length l) l.
Definition trim_right (l : list ascii) : list ascii :=
  reverse (trim_with (reverse <$> white_space) (length l) (reverse l)).

Definition TrimSpace (s : string) : string :=
  String.string_of_list_ascii (trim_right (trim_left (String.list_ascii_of_string s))).

(** [strings.Fields].  No encoding of white space starts inside that of another
    code point, so the scan may go byte by byte; [skip] counts the bytes left of
    a space just met, [cur] is the field being read. *)
Definition flush (cur : list ascii) : list (list ascii) :=
  match cur with [] => [] | _ => [cur] end.
Fixpoint fields (skip : nat) (cur l : list ascii) : list (list ascii) :=
  match l with
  | [] => flush cur
  | a :: l' =>
      match skip with
      | S skip => fields skip cur l'
      | 0 =>
          match strip_any white_space l with
          | Some r => flush cur ++ fields (length l' - length r) [] l'
          | None => fields 0 (cur ++ [a]) l'
          end
      end
  end.
Definition Fields (s : string) : list string :=
  String.string_of_list_ascii <$> fields 0 [] (String.list_ascii_of_string s).

(** [strings.Split(s, c)] for a one-byte separator. *)
Fixpoint Split (c : ascii) (s : string) : list string :=
  match s with
  | EmptyString => [""]
  | String a s =>
      if decide (a = c) then "" :: Split c s
      else match Split c s with
           | w :: ws => String a w :: ws
           | [] => [String a ""]
           end
  end.

(** [idx := strings.Index(s, c)] with [s[:idx]] and [s[idx+1:]]. *)
Fixpoint Cut (c : ascii) (s : string) : option (string * string) :=
  match s with
  | EmptyString => None
  | String a s =>
      if decide (a = c) then Some ("", s)
      else match Cut c s with
           | Some (before, after) => Some (String a before, after)
           | None => None
           end
  end.

(** The same at the last occurrence. *)
Fixpoint CutLast (c : ascii) (s : string) : option (string * string) :=
  match s with
  | EmptyString => None
  | String a s =>
      match CutLast c s with
      | Some (before, after) => Some (String a before, after)
      | None => if decide (a = c) then Some ("", s) else None
      end
  end.

Definition ContainsByte (c : ascii) (s : string) : bool :=
  match Cut c s with Some _ => true | None => false end.

(** [strings.Join]. *)
Fixpoint Join (sep : string) (ss : list string) : string :=
  match ss with
  | [] => ""
  | [s] => s
  | s :: ss => s +:+ sep +:+ Join sep ss
  end.

(** ** Package strconv *)

Definition digit (c : ascii) : option Z :=
  let n := Z.of_nat (nat_of_ascii c) in
  if (48 <=? n)%Z && (n <=? 57)%Z then Some (n - 48)%Z else None.

Fixpoint digits (acc : Z) (s : string) : option Z :=
  match s with
  | EmptyString => Some acc
  | String c s => match digit c with Some d => digits (10 * acc + d)%Z s | None => None end
  end.

(** An optional sign, at least one digit, in the range of [int]. *)
Definition Atoi (s : string) : option Z :=
  let unsigned s := match s with EmptyString => None | _ => digits 0 s end in
  let n := match s with
           | String "-" s => Z.opp <$> unsigned s
           | String "+" s => unsigned s
           | _ => unsigned s
           end in
  match n with
  | Some n => if (min_int64 <=? n)%Z && (n <=? max_int64)%Z then Some n else None
  | None => None
  end.

Definition ParseBool (s : string) : option bool :=
  if decide (s ∈ ["1"; "t"; "T"; "true"; "TRUE"; "True"]) then Some true
  else if decide (s ∈ ["0"; "f"; "F"; "false"; "FALSE"; "False"]) then Some false
  else None.

(** ** Package net *)

Definition SplitHostPort (hostport : string) : option (string * string) :=
  match CutLast ":" hostport with
  | None => None
  | Some (host, port) =>
      match host with
      | String "[" rest =>
          (** the first closing bracket must be the byte before the last colon *)
          match Cut "]" rest with
          | Some (inner, EmptyString) =>
              if ContainsByte "[" inner || ContainsByte "[" port || ContainsByte "]" port
              then None else Some (inner, port)
          | _ => None
          end
      | _ =>
          if ContainsByte ":" host || ContainsByte "[" hostport || ContainsByte "]" hostport
          then None else Some (host, port)
      end
  end.

(** ** Lemmas *)

Lemma Split_nonempty c s : Split c s <> [].
Proof. destruct s as [|a s]; simpl; [done|]. by repeat case_match. Qed.

(** A word without separator is one field. *)
Lemma Split_word c w s :
  ContainsByte c w = false -> Split c (w +:+ String c s) = w :: Split c s.
Proof.
  unfold ContainsByte. induction w as [|a w IH]; simpl.
  { intros _. by rewrite decide_True. }
  case_decide; [done|]. destruct (Cut c w) as [[]|]; [done|]. intros _.
  change (String.append w (String c s)) with (w +:+ String c s). by rewrite IH.
Qed.

Lemma Split_last c w : ContainsByte c w = false -> Split c w = [w].
Proof.
  unfold ContainsByte. induction w as [|a w IH]; simpl; [done|].
  case_decide; [done|]. destruct (Cut c w) as [[]|]; [done|]. intros _. by rewrite IH.
Qed.

Lemma Split_Join c ws :
  ws <> [] -> Forall (fun w => ContainsByte c w = false) ws ->
  Split c (Join (String c "") ws) = ws.
Proof.
  intros Hne Hws. induction Hws as [|w ws Hw Hws IH]; [done|].
  destruct ws as [|w' ws]; [by apply Split_last|].
  change (Join (String c "") (w :: w' :: ws))
    with (w +:+ String c (Join (String c "") (w' :: ws))).
  rewrite Split_word by done. by rewrite IH.
Qed.

Lemma Cut_word c w s :
  ContainsByte c w = false -> Cut c (w +:+ String c s) = Some (w, s).
Proof.
  unfold ContainsByte. induction w as [|a w IH]; simpl.
  { intros _. by rewrite decide_True. }
  case_decide; [done|]. destruct (Cut c w) as [[]|]; [done|]. intros _.
  change (String.append w (String c s)) with (w +:+ String c s). by rewrite IH.
Qed.

(** *** Trimming *)

(** No white space at either end. *)
Definition trimmed (s : string) : Prop :=
  strip_any white_space (String.list_ascii_of_string s) = None
  /\ strip_any (reverse <$> white_space) (reverse (String.list_ascii_of_string s)) = None.
#[global] Instance trimmed_dec s : Decision (trimmed s).
Proof. apply _. Defined.

Lemma trim_with_stop ps n l : strip_any ps l = None -> trim_with ps n l = l.
Proof. intros H. destruct n; simpl; [done|]. by rewrite H. Qed.

Lemma TrimSpace_trimmed s : trimmed s -> TrimSpace s = s.
Proof.
  intros [Hl Hr]. unfold TrimSpace, trim_left, trim_right.
  rewrite (trim_with_stop white_space) by done. rewrite trim_with_stop by done.
  rewrite reverse_involutive. apply String.string_of_list_ascii_of_string.
Qed.

(** *** Fields *)

(** A field: not empty, and white space nowhere in it. *)
Definition solid (f : list ascii) : Prop :=
  forall v u, f = v ++ u -> u <> [] -> strip_any white_space u = None.
Definition word (f : list ascii) : Prop := f <> [] /\ solid f.

Lemma strip_Some p l r : strip p l = Some r <-> l = p ++ r.
Proof.
  revert l. induction p as [|a p IH]; intros l; simpl; [naive_solver|].
  destruct l as [|b l]; [naive_solver|]. case_decide as E; [|naive_solver].
  rewrite IH. naive_solver.
Qed.

Lemma strip_any_None ps l :
  strip_any ps l = None <-> forall p r, p ∈ ps -> l <> p ++ r.
Proof.
  induction ps as [|p ps IH]; simpl; [split; [by intros _ p r ?%elem_of_nil|done]|].
  destruct (strip p l) as [r|] eqn:E.
  - apply strip_Some in E as ->. split; [done|]. intros H. by destruct (H p r); [left|].
  - rewrite IH. split; [|intros H q r Hq; apply H; by right].
    intros H q r [->|Hq]%elem_of_cons; [|by apply H]. intros Hl%strip_Some. congruence.
Qed.

Lemma strip_any_prefix ps u l : strip_any ps (u ++ l) = None -> strip_any ps u = None.
Proof.
  rewrite !strip_any_None. intros H p r Hp ->. apply (H p (r ++ l) Hp).
  by rewrite app_assoc.
Qed.

(** The blank is in no other encoding. *)
Lemma blank_alone p : p ∈ white_space -> p <> [] /\ (" "%char ∈ p -> p = [" "%char]).
Proof.
  revert p. apply Forall_forall.
  refine (bool_decide_eq_true_1 (Forall (fun p => p <> [] /\ (" "%char ∈ p -> p = [" "%char])) white_space) _).
  by vm_compute.
Qed.

Lemma strip_any_blank u rest : u <> [] -> strip_any white_space u = None ->
  strip_any white_space (u ++ " "%char :: rest) = None.
Proof.
  rewrite !strip_any_None. intros Hu H p r Hp E.
  destruct (blank_alone p Hp) as [_ Hb].
  apply app_eq_inv in E as [(k & -> & E)|(k & -> & E)].
  - by apply (H p k Hp).
  - destruct k as [|a k]; [by apply (H (u ++ []) [] Hp); rewrite !app_nil_r|].
    injection E as <- _. assert (u ++ " "%char :: k = [" "%char]) as Heq.
    { apply Hb. apply elem_of_app. right. left. }
    destruct u as [|x [|]]; simplify_eq/=.
Qed.

(** What the scan makes of one field, and of a list of them. *)
Lemma fields_word cur f rest :
  (forall v u, f = v ++ u -> u <> [] -> strip_any white_space (u ++ rest) = None) ->
  fields 0 cur (f ++ rest) = fields 0 (cur ++ f) rest.
Proof.
  revert cur. induction f as [|a f IH]; intros cur H; [by rewrite app_nil_r|].
  pose proof (H [] (a :: f) eq_refl ltac:(done)) as E. cbn [app fields] in *. rewrite E.
  rewrite IH; [by rewrite <-app_assoc|]. intros v u -> Hu. by apply (H (a :: v) u).
Qed.

Fixpoint joined (fs : list (list ascii)) : list ascii :=
  match fs with
  | [] => []
  | [f] => f
  | f :: fs => f ++ " "%char :: joined fs
  end.

Lemma fields_joined fs : Forall word fs -> fields 0 [] (joined fs) = fs.
Proof.
  induction 1 as [|f fs [Hne Hs] Hfs IH]; [done|].
  assert (forall f', f' <> [] -> flush f' = [f']) as Hfl by (by intros []).
  destruct fs as [|g fs].
  - cbn [joined]. rewrite <-(app_nil_r f) at 1. rewrite fields_word.
    + by apply Hfl.
    + intros v u -> Hu. rewrite app_nil_r. by apply (Hs v u).
  - change (joined (f :: g :: fs)) with (f ++ " "%char :: joined (g :: fs)).
    rewrite fields_word.
    + cbn [app fields]. 
      change (strip_any white_space (" "%char :: joined (g :: fs))) with (Some (joined (g :: fs))).
      cbn iota. rewrite Nat.sub_diag, Hfl, IH by done. done.
    + intros v u Hf Hu. apply strip_any_blank; [done|]. by apply (Hs v u).
Qed.

(** The scan only makes fields. *)
Lemma fields_words skip cur l :
  (forall v u, cur = v ++ u -> u <> [] -> strip_any white_space (u ++ l) = None) ->
  (skip = 0 \/ cur = []) ->
  Forall word (fields skip cur l).
Proof.
  assert (forall cur l, (forall v u, cur = v ++ u -> u <> [] ->
            strip_any white_space (u ++ l) = None) -> Forall word (flush cur)) as Hfl.
  { clear. intros cur l H. destruct cur as [|a cur]; [constructor|].
    apply Forall_singleton. split; [done|]. intros v u E Hu.
    eapply strip_any_prefix, (H v u E Hu). }
  revert skip cur. induction l as [|a l IH]; intros skip cur H Hsk; cbn [fields].
  { by apply (Hfl cur []). }
  destruct skip as [|skip].
  - destruct (strip_any white_space (a :: l)) as [r|] eqn:E.
    + apply Forall_app. split; [by apply (Hfl cur (a :: l))|].
      apply IH; [|by right]. intros [|] [|] ?; by try done.
    + apply IH; [|by left]. intros v u Hu Hne.
      destruct u as [|x u _] using rev_ind; [done|]. clear Hne.
      rewrite app_assoc in Hu. apply app_inj_tail in Hu as [-> <-].
      rewrite <-app_assoc. cbn [app]. destruct u as [|y u]; [done|]. by apply (H v (y :: u)).
  - destruct Hsk as [|Hc]; [done|]. subst cur. apply IH; [|by right]. intros [|] [|] ?; by try done.
Qed.

Lemma joined_nonempty f fs : word f -> joined (f :: fs) <> [].
Proof. intros [Hf _] H. destruct fs; simpl in H; [done|]. by destruct f. Qed.

(** No list of fields ends in white space. *)
Lemma joined_no_space_end fs x p : Forall word fs -> p ∈ white_space ->
  joined fs <> x ++ p.
Proof.
  intros Hfs Hp. destruct (blank_alone p Hp) as [Hne Hb]. revert x.
  induction Hfs as [|f fs [_ Hs] Hfs IH]; intros x E.
  { symmetry in E. by apply app_eq_nil in E as [_ ?]. }
  destruct fs as [|g fs].
  { specialize (Hs x p E Hne). rewrite strip_any_None in Hs.
    apply (Hs p [] Hp). by rewrite app_nil_r. }
  apply Forall_cons_1 in Hfs as [Hg _]. pose proof (joined_nonempty g fs Hg) as Hj.
  change (joined (f :: g :: fs)) with (f ++ " "%char :: joined (g :: fs)) in E.
  assert (forall k, p = k ++ " "%char :: joined (g :: fs) -> False) as Habs.
  { intros k Ek. assert (" "%char ∈ p) as Hin by (rewrite Ek; apply elem_of_app; right; left).
    apply Hb in Hin. rewrite Ek in Hin. destruct k as [|a [|]]; simplify_eq/=. }
  apply app_eq_inv in E as [(k & _ & E)|(k & _ & E)]; [by apply (Habs k)|].
  destruct k as [|a k]; [by apply (Habs [])|]. injection E as _ E. by apply (IH k).
Qed.

Lemma joined_trimmed fs : Forall word fs ->
  strip_any white_space (joined fs) = None
  /\ strip_any (reverse <$> white_space) (reverse (joined fs)) = None.
Proof.
  intros Hfs. split.
  - destruct Hfs as [|f fs [Hne Hs] Hfs]; [done|]. destruct fs as [|g fs].
    + by apply (Hs [] f).
    + apply strip_any_blank; [done|]. by apply (Hs [] f).
  - apply strip_any_None. intros p' r (p & -> & Hp)%list_elem_of_fmap E.
    apply (f_equal reverse) in E. rewrite reverse_involutive, reverse_app, reverse_involutive in E.
    by apply (joined_no_space_end fs (reverse r) p).
Qed.

Lemma Join_joined fs :
  Join " " (String.string_of_list_ascii <$> fs) = String.string_of_list_ascii (joined fs).
Proof.
  assert (forall l l', String.string_of_list_ascii (l ++ l')
            = String.string_of_list_ascii l +:+ String.string_of_list_ascii l') as Happ.
  { induction l as [|a l IH]; intros l'; [done|]. simpl. by rewrite IH. }
  induction fs as [|f [|g fs] IH]; [done|done|].
  change (joined (f :: g :: fs)) with (f ++ " "%char :: joined (g :: fs)).
  rewrite Happ. cbn [String.string_of_list_ascii]. rewrite <-IH. done.
Qed.

(** Fields joined by blanks are trimmed and are the same fields again. *)
Lemma Fields_Join s : let t := Join " " (Fields s) in TrimSpace t = t /\ Fields t = Fields s.
Proof.
  cbv zeta. unfold Fields at 1 2 4. set (fs := fields 0 [] (String.list_ascii_of_string s)).
  assert (Forall word fs) as Hfs.
  { apply fields_words; [|by left]. intros [|] [|] ?; by try done. }
  rewrite Join_joined. split.
  - apply TrimSpace_trimmed. unfold trimmed.
    rewrite String.list_ascii_of_string_of_list_ascii. by apply joined_trimmed.
  - unfold Fields. rewrite String.list_ascii_of_string_of_list_ascii.
    by rewrite fields_joined.
Qed.
