(* ===== verification/GoText.v ===== *)
(** * Text: the part of Go's regexp and unicode/utf8 packages the wire protocol uses.

    Regular expressions are matched by derivatives over bytes; every expression in
    the repository is anchored at both ends and its classes are ASCII, so byte and
    rune matching coincide.  UTF-8 follows the ranges of utf8.DecodeRune. *)
From Stdlib Require Import String Ascii NArith Lia.
From stdpp Require Import base list strings.
From S2P Require Import Prelude.
From S2P Require Import GoStd.

(** ** Anchored regular expressions *)

Module Regexp.
(** A class is a list of inclusive byte ranges. *)
Definition class : Type := list (ascii * ascii).
Definition one (c : ascii) : ascii * ascii := (c, c).

Definition in_class (k : class) (c : ascii) : bool :=
  existsb (fun r => (N_of_ascii r.1 <=? N_of_ascii c)%N && (N_of_ascii c <=? N_of_ascii r.2)%N) k.

Inductive t :=
| Never | Empty
| Class (k : class)
| Cat (r s : t)
| Star (r : t).

Definition Plus (r : t) : t := Cat r (Star r).

Fixpoint nullable (r : t) : bool :=
  match r with
  | Never | Class _ => false
  | Empty | Star _ => true
  | Cat r s => nullable r && nullable s
  end.

(** [derive] gives a list of alternatives. *)
Fixpoint derive (c : ascii) (r : t) : list t :=
  match r with
  | Never | Empty => []
  | Class k => if in_class k c then [Empty] else []
  | Cat r s =>
      ((fun r' => Cat r' s) <$> derive c r) ++ (if nullable r then derive c s else [])
  | Star r => (fun r' => Cat r' (Star r)) <$> derive c r
  end.

Fixpoint match_any (rs : list t) (s : string) : bool :=
  match s with
  | EmptyString => existsb nullable rs
  | String c s => match_any (rs ≫= derive c) s
  end.

(** [regexp.MustCompile("^r$").MatchString(s)] *)
Definition MatchString (r : t) (s : string) : bool := match_any [r] s.

(** The language of an expression. *)
Inductive lang : t -> string -> Prop :=
| lang_empty : lang Empty ""
| lang_class k c : in_class k c = true -> lang (Class k) (String c "")
| lang_cat r s u v : lang r u -> lang s v -> lang (Cat r s) (u +:+ v)
| lang_star_nil r : lang (Star r) ""
| lang_star r u v : lang r u -> lang (Star r) v -> lang (Star r) (u +:+ v).
End Regexp.

(** ** UTF-8 *)

Module UTF8.
(** The byte is not a continuation byte. *)
Definition RuneStart (b : ascii) : bool :=
  negb (N.land (N_of_ascii b) 192 =? 128)%N.

Definition within (lo hi : N) (b : ascii) : bool :=
  (lo <=? N_of_ascii b)%N && (N_of_ascii b <=? hi)%N.

(** The number of bytes of the rune a string starts with, if it starts with one. *)
Definition rune_len (l : list ascii) : option nat :=
  match l with
  | [] => None
  | a :: l =>
      if within 0 127 a then Some 1
      else match l with
      | b :: l =>
          if within 194 223 a && within 128 191 b then Some 2
          else match l with
          | c :: l =>
              if within 128 191 c
                 && ((within 224 224 a && within 160 191 b)
                     || (within 225 236 a && within 128 191 b)
                     || (within 237 237 a && within 128 159 b)
                     || (within 238 239 a && within 128 191 b)) then Some 3
              else match l with
              | d :: _ =>
                  if within 128 191 c && within 128 191 d
                     && ((within 240 240 a && within 144 191 b)
                         || (within 241 243 a && within 128 191 b)
                         || (within 244 244 a && within 128 143 b)) then Some 4
                  else None
              | [] => None
              end
          | [] => None
          end
      | [] => None
      end
  end%nat.

Fixpoint valid_from (fuel : nat) (l : list ascii) : bool :=
  match l, fuel with
  | [], _ => true
  | _, O => false
  | _, S fuel =>
      match rune_len l with
      | Some n => valid_from fuel (drop n l)
      | None => false
      end
  end.

Definition ValidString (s : string) : bool :=
  let l := String.list_ascii_of_string s in valid_from (length l) l.
End UTF8.

(** ** Lemmas on regular expressions *)

Module RegexpFacts.
Import Regexp.

Lemma nullable_lang r : nullable r = true <-> lang r "".
Proof.
  split.
  - induction r; cbn; intros H; try done; try constructor.
    apply andb_true_iff in H as [H1 H2].
    apply (lang_cat r1 r2 "" ""); auto.
  - intros H. remember "" as s eqn:E. induction H; cbn; try done.
    destruct u; [|done]. by rewrite IHlang1, IHlang2.
Qed.

Lemma derive_lang c r s :
  (exists r', r' ∈ derive c r /\ lang r' s) <-> lang r (String c s).
Proof.
  split.
  - revert s. induction r as [| |k|r1 IH1 r2 IH2|r IH]; cbn; intros s (r' & Hin & Hl).
    + by apply elem_of_nil in Hin.
    + by apply elem_of_nil in Hin.
    + destruct (in_class k c) eqn:E; [|by apply elem_of_nil in Hin].
      apply list_elem_of_singleton in Hin as ->. inversion Hl; subst. by constructor.
    + apply elem_of_app in Hin as [Hin|Hin].
      * apply list_elem_of_fmap in Hin as (r'' & -> & Hin). inversion Hl; subst.
        change (String c (u +:+ v)) with (String c u +:+ v). constructor; eauto.
      * destruct (nullable r1) eqn:E; [|by apply elem_of_nil in Hin].
        apply (lang_cat r1 r2 "" (String c s)); [by apply nullable_lang|eauto].
    + apply list_elem_of_fmap in Hin as (r'' & -> & Hin). inversion Hl; subst.
      change (String c (u +:+ v)) with (String c u +:+ v). constructor; eauto.
  - intros H. remember (String c s) as w eqn:E. revert c s E.
    induction H as [|k c'|r1 r2 u v H1 IH1 H2 IH2|r|r u v H1 IH1 H2 IH2]; intros c s E; cbn.
    + done.
    + injection E as -> <-. rewrite H. exists Empty. split; [by left|constructor].
    + destruct u as [|c' u].
      * destruct (IH2 c s E) as (r' & Hin & Hl).
        exists r'. split; [|done]. apply elem_of_app. right.
        by rewrite (proj2 (nullable_lang r1) H1).
      * injection E as -> <-. destruct (IH1 c u eq_refl) as (r' & Hin & Hl).
        exists (Cat r' r2). split; [|by constructor]. apply elem_of_app. left.
        apply list_elem_of_fmap. eauto.
    + done.
    + destruct u as [|c' u]; [by apply IH2|].
      injection E as -> <-. destruct (IH1 c u eq_refl) as (r' & Hin & Hl).
      exists (Cat r' (Star r)). split; [|by constructor].
      apply list_elem_of_fmap. eauto.
Qed.

Lemma match_any_lang s rs : match_any rs s = true <-> exists r, r ∈ rs /\ lang r s.
Proof.
  revert rs. induction s as [|c s IH]; intros rs; cbn.
  - rewrite existsb_exists. split; intros (r & Hin & H);
      exists r; [rewrite list_elem_of_In, <- nullable_lang|rewrite <- list_elem_of_In, nullable_lang];
      by split.
  - rewrite IH. split.
    + intros (r' & Hin & Hl). apply list_elem_of_bind in Hin as (r & Hd & Hr).
      exists r. split; [done|]. apply derive_lang. eauto.
    + intros (r & Hr & Hl). apply derive_lang in Hl as (r' & Hd & Hl).
      exists r'. split; [|done]. apply list_elem_of_bind. eauto.
Qed.

Lemma MatchString_lang r s : MatchString r s = true <-> lang r s.
Proof.
  unfold MatchString. rewrite match_any_lang. split.
  - intros (r' & ->%list_elem_of_singleton & H). done.
  - intros H. exists r. split; [by left|done].
Qed.

Lemma lang_star_class k s :
  lang (Star (Class k)) s <->
  Forall (fun c => in_class k c = true) (String.list_ascii_of_string s).
Proof.
  split.
  - intros H. remember (Star (Class k)) as r eqn:E. revert E.
    induction H as [| | | |r u v H1 IH1 H2 IH2]; intros E; try done.
    injection E as ->. inversion H1; subst. cbn. constructor; [done|by apply IH2].
  - induction s as [|c s IH]; cbn; intros H; [constructor|].
    apply Forall_cons in H as [Hc H].
    apply (lang_star (Class k) (String c "") s); [by constructor|auto].
Qed.

(** The shape of the identifiers of the wire protocol: one class, then any number of
    characters of another. *)
Lemma MatchString_word k k' s :
  MatchString (Cat (Class k) (Star (Class k'))) s = true <->
  exists c l, String.list_ascii_of_string s = c :: l /\ in_class k c = true
    /\ Forall (fun c => in_class k' c = true) l.
Proof.
  rewrite MatchString_lang. split.
  - intros H. inversion H as [| |? ? u v Hu Hv Hr Es| |]; subst. inversion Hu; subst.
    exists c, (String.list_ascii_of_string v). cbn. split; [done|].
    split; [done|by apply lang_star_class].
  - intros (c & l & Es & Hc & Hl). destruct s as [|c' s]; [done|].
    cbn in Es. injection Es as -> <-.
    apply (lang_cat _ _ (String c "") s); [by constructor|by apply lang_star_class].
Qed.

Lemma MatchString_plus k s :
  MatchString (Plus (Class k)) s = true <->
  s <> "" /\ Forall (fun c => in_class k c = true) (String.list_ascii_of_string s).
Proof.
  unfold Plus. rewrite MatchString_word. split.
  - intros (c & l & Es & Hc & Hl). rewrite Es. split; [by intros ->|by constructor].
  - intros [Hne Hl]. destruct s as [|c s]; [done|]. cbn in *.
    apply Forall_cons in Hl as [Hc Hl]. eauto.
Qed.
End RegexpFacts.

(** ** Lemmas on UTF-8 *)

Module UTF8Facts.
Import UTF8.

Lemma continuation lo hi b : (128 <= lo)%N -> (hi <= 191)%N ->
  within lo hi b = true -> RuneStart b = false.
Proof.
  unfold within, RuneStart. intros Hlo Hhi H.
  apply andb_true_iff in H as [H1%N.leb_le H2%N.leb_le].
  assert (forall n, (128 <= n <= 191)%N -> N.land n 192 = 128%N) as Hland.
  { intros n Hn. apply N.bits_inj. intros i.
    assert (n = 128 + n mod 64)%N as En.
    { rewrite N.Div0.mod_eq. assert (n / 64 = 2)%N as ->; [|lia].
      symmetry. apply (N.div_unique n 64 2 (n - 128)); lia. }
    rewrite N.land_spec.
    destruct (decide (i < 8)%N) as [Hi|Hi].
    - assert (i = 0 \/ i = 1 \/ i = 2 \/ i = 3 \/ i = 4 \/ i = 5 \/ i = 6 \/ i = 7)%N as Hc by lia.
      destruct Hc as [->|[->|[->|[->|[->|[->|[->| ->]]]]]]]; try by rewrite andb_false_r.
      + rewrite andb_true_r. rewrite N.testbit_eqb.
        assert (n / 2 ^ 6 = 2)%N as ->; [|done].
        symmetry. apply (N.div_unique n 64 2 (n - 128)); lia.
      + rewrite andb_true_r. rewrite N.testbit_eqb.
        assert (n / 2 ^ 7 = 1)%N as ->; [|done].
        symmetry. apply (N.div_unique n 128 1 (n - 128)); lia.
    - replace (N.testbit 192 i) with false; [|symmetry; apply N.bits_above_log2; cbn; lia].
      rewrite andb_false_r. symmetry. apply N.bits_above_log2. cbn. lia. }
  rewrite Hland by lia. done.
Qed.

(** The bytes after the first of a rune are continuation bytes, and only the bytes of
    the rune decide its length. *)
Lemma rune_len_spec l n : rune_len l = Some n ->
  exists r l', l = r ++ l' /\ length r = n /\ (0 < n)%nat
    /\ (forall i b, (0 < i)%nat -> r !! i = Some b -> RuneStart b = false)
    /\ (forall l'', rune_len (r ++ l'') = Some n).
Proof.
  intros H. unfold rune_len in H.
  destruct l as [|a l]; [done|].
  assert (forall i x, (0 < i)%nat -> [a] !! i = Some x -> RuneStart x = false) as Hone.
  { intros [|[|i]] x Hi; done || lia. }
  destruct (within 0 127 a) eqn:Ea.
  { injection H as <-. exists [a], l. split_and!; try done; [lia|]. intros l''. cbn. by rewrite Ea. }
  destruct l as [|b l]; [done|].
  destruct (within 194 223 a && within 128 191 b) eqn:Eb.
  { injection H as <-. exists [a; b], l. split_and!; try done; [lia| |].
    - apply andb_true_iff in Eb as [_ Eb].
      intros [|[|i]] x Hi; cbn; [lia|intros [= <-]|done]. by apply (continuation 128 191).
    - intros l''. cbn. by rewrite Ea, Eb. }
  destruct l as [|c l]; [done|].
  destruct (within 128 191 c && _) eqn:Ec.
  { injection H as <-. exists [a; b; c], l. split_and!; try done; [lia| |].
    - apply andb_true_iff in Ec as [Ec Er].
      assert (RuneStart b = false) as Hb.
      { repeat (apply orb_true_iff in Er as [Er|Er]); apply andb_true_iff in Er as [_ Er];
          (eapply continuation; [| |exact Er]; lia). }
      intros [|[|[|i]]] x Hi; cbn; [lia|by intros [= <-]|intros [= <-]|done].
      by apply (continuation 128 191).
    - intros l''. cbn. by rewrite Ea, Eb, Ec. }
  destruct l as [|d l]; [done|].
  destruct (within 128 191 c && within 128 191 d && _) eqn:Ed; [|done].
  injection H as <-. exists [a; b; c; d], l. split_and!; try done; [lia| |].
  - apply andb_true_iff in Ed as [Ed Er]. apply andb_true_iff in Ed as [Ec' Ed].
    assert (RuneStart b = false) as Hb.
    { repeat (apply orb_true_iff in Er as [Er|Er]); apply andb_true_iff in Er as [_ Er];
        (eapply continuation; [| |exact Er]; lia). }
    intros [|[|[|[|i]]]] x Hi; cbn; [lia|by intros [= <-]|intros [= <-]|intros [= <-]|done];
      by apply (continuation 128 191).
  - intros l''. cbn. by rewrite Ea, Eb, Ec, Ed.
Qed.

Lemma valid_from_fuel k1 k2 l : (length l <= k1)%nat -> (length l <= k2)%nat ->
  valid_from k1 l = valid_from k2 l.
Proof.
  revert k2 l. induction k1 as [|k1 IH]; intros [|k2] [|a l] H1 H2; try done; [cbn in *; lia..|].
  cbn in H1, H2. cbn [valid_from].
  destruct (rune_len (a :: l)) as [n|] eqn:E; [|done].
  apply rune_len_spec in E as (r & l' & El & Hr & Hn & _).
  assert (length (drop n (a :: l)) <= length l)%nat.
  { rewrite length_drop. cbn. lia. }
  apply IH; lia.
Qed.

(** A valid string cut before a byte that starts a rune is valid. *)
Lemma valid_cut n l : valid_from (length l) l = true ->
  (forall b, l !! n = Some b -> RuneStart b = true) ->
  valid_from (length (take n l)) (take n l) = true.
Proof.
  remember (length l) as k eqn:Ek. assert (length l <= k)%nat as Hk by lia. clear Ek.
  revert n l Hk. induction k as [|k IH]; intros n l Hk H Hb.
  { destruct l; [by destruct n|cbn in Hk; lia]. }
  destruct l as [|a l]; [by destruct n|].
  destruct n as [|n]; [done|].
  cbn [valid_from] in H.
  destruct (rune_len (a :: l)) as [m|] eqn:E; [|done].
  apply rune_len_spec in E as (r & l' & El & Hr & Hm & Hcont & Hlen).
  rewrite El in H, Hb |- *. rewrite <- Hr, drop_app_length in H.
  assert (m + length l' <= S k)%nat as Hlen'.
  { rewrite <- Hr, <- length_app, <- El. done. }
  destruct (decide (S n < m)%nat) as [Hin|Hout].
  { exfalso. destruct (r !! S n) as [b|] eqn:Eb.
    - specialize (Hcont (S n) b ltac:(lia) Eb). specialize (Hb b).
      rewrite lookup_app_l in Hb by lia. rewrite Hb in Hcont; done.
    - apply lookup_ge_None in Eb. lia. }
  rewrite take_app_ge by lia. rewrite Hr.
  specialize (IH (S n - m)%nat l' ltac:(lia) H).
  rewrite lookup_app_r, Hr in Hb by lia. specialize (IH Hb).
  destruct r as [|a' r]; [cbn in Hr; lia|].
  set (rest := take (S n - m) l') in *. cbn [app length valid_from].
  specialize (Hlen rest). cbn [app] in Hlen. rewrite Hlen.
  change (a' :: r ++ rest) with ((a' :: r) ++ rest). rewrite <- Hr, drop_app_length.
  rewrite <- IH. apply valid_from_fuel; [rewrite length_app; lia|done].
Qed.

Lemma valid_app l1 l2 : valid_from (length l1) l1 = true -> valid_from (length l2) l2 = true ->
  valid_from (length (l1 ++ l2)) (l1 ++ l2) = true.
Proof.
  remember (length l1) as k eqn:Ek. assert (length l1 <= k)%nat as Hk by lia. clear Ek.
  revert l1 Hk. induction k as [|k IH]; intros l1 Hk H1 H2.
  { destruct l1; [done|cbn in Hk; lia]. }
  destruct l1 as [|a l1]; [done|]. cbn [valid_from] in H1.
  destruct (rune_len (a :: l1)) as [m|] eqn:E; [|done].
  apply rune_len_spec in E as (r & l' & El & Hr & Hm & _ & Hlen).
  rewrite El in H1 |- *. rewrite <- Hr, drop_app_length in H1.
  assert (m + length l' <= S k)%nat by (rewrite <- Hr, <- length_app, <- El; done).
  specialize (IH l' ltac:(lia) H1 H2).
  destruct r as [|a' r]; [cbn in Hr; lia|].
  specialize (Hlen (l' ++ l2)). rewrite <- app_assoc.
  change ((a' :: r) ++ l' ++ l2) with (a' :: r ++ l' ++ l2) in *.
  cbn [length valid_from]. rewrite Hlen.
  change (a' :: r ++ l' ++ l2) with ((a' :: r) ++ l' ++ l2). rewrite <- Hr, drop_app_length.
  rewrite <- IH. apply valid_from_fuel; [rewrite (length_app r); lia|done].
Qed.
End UTF8Facts.
