(* ===== verification/GoTime.v ===== *)
(** * Calendar arithmetic of package time

    What the schedules use of [time.Time]: civil dates of the proleptic Gregorian
    calendar, wall-clock fields in a location, [time.Date] and [AddDate].  An
    instant is [Time.t], nanoseconds since year 1 UTC; a day number counts days
    from 1 January of year 1, a Monday. *)

From S2P Require Import Prelude.

Open Scope Z_scope.

(** ** Days and dates *)

Definition leap (y : Z) : bool :=
  (y mod 4 =? 0) && negb (y mod 100 =? 0) || (y mod 400 =? 0).

(** Days before 1 January of [y]. *)
Definition year_start (y : Z) : Z :=
  365 * (y - 1) + (y - 1) / 4 - (y - 1) / 100 + (y - 1) / 400.

Definition month_days (y m : Z) : Z :=
  match m with
  | 2 => if leap y then 29 else 28
  | 4 | 6 | 9 | 11 => 30
  | _ => 31
  end.

(** Days of [y] before the first of month [m]. *)
Definition month_start (y m : Z) : Z :=
  let l := if leap y then 1 else 0 in
  match m with
  | 1 => 0 | 2 => 31 | 3 => 59 + l | 4 => 90 + l | 5 => 120 + l | 6 => 151 + l
  | 7 => 181 + l | 8 => 212 + l | 9 => 243 + l | 10 => 273 + l | 11 => 304 + l
  | 12 => 334 + l | _ => 365 + l
  end.

(** The day of a date whose month and day may be out of range, normalised as
    [time.Date] documents: months carry into the year, days run on. *)
Definition days_of (y m d : Z) : Z :=
  let y := y + (m - 1) / 12 in
  let m := (m - 1) mod 12 + 1 in
  year_start y + month_start y m + d - 1.

Definition year_of (n : Z) : Z :=
  let y := 400 * n / 146097 + 1 in
  if n <? year_start y then y - 1
  else if year_start (y + 1) <=? n then y + 1
  else y.

(** The month of day [k] of year [y]: the last, from [m] down, that has started. *)
Fixpoint month_down (y k : Z) (m : nat) : Z :=
  match m with
  | S m' => if month_start y (Z.of_nat m) <=? k then Z.of_nat m else month_down y k m'
  | 0%nat => 1
  end.
Definition month_of (y k : Z) : Z := month_down y k 12.

Record date := mkDate { Year : Z; Month : Z; Day : Z }.

Definition date_of (n : Z) : date :=
  let y := year_of n in
  let k := n - year_start y in
  let m := month_of y k in
  {| Year := y; Month := m; Day := k - month_start y m + 1 |}.

(** [time.Weekday]: Sunday is 0. *)
Definition weekday_of (n : Z) : Z := (n + 1) mod 7.

(** ** Locations *)

(** A [*time.Location]: its name and, for an instant in seconds, the offset in
    force with the bounds of the zone period it lies in. *)
Record Location := mkLocation { loc_name : string; lookup : Z -> Z * Z * Z }.

Definition alpha : Z := - 2 ^ 63.
Definition omega : Z := 2 ^ 63 - 1.

(** [time.FixedZone]. *)
Definition FixedZone (name : string) (offset : Z) : Location :=
  {| loc_name := name; lookup := fun _ => (offset, alpha, omega) |}.
Definition UTC : Location := FixedZone "UTC" 0.

(** A location given by its first offset and its transitions in order. *)
Fixpoint lookup_tx (start offset : Z) (tx : list (Z * Z)) (t : Z) : Z * Z * Z :=
  match tx with
  | [] => (offset, start, omega)
  | (at_, next) :: tx =>
      if t <? at_ then (offset, start, at_) else lookup_tx at_ next tx t
  end.
Definition Zone (name : string) (first : Z) (tx : list (Z * Z)) : Location :=
  {| loc_name := name; lookup := lookup_tx alpha first tx |}.

Definition offset (loc : Location) (sec : Z) : Z := (lookup loc sec).1.1.

(** The wall clock: local seconds, as if they were UTC. *)
Definition local (loc : Location) (t : Time.t) : Z :=
  let sec := t / Time.Second in sec + offset loc sec.

Definition Hour (loc : Location) (t : Time.t) : Z := local loc t mod 86400 / 3600.
Definition Minute (loc : Location) (t : Time.t) : Z := local loc t mod 3600 / 60.
Definition Date_of (loc : Location) (t : Time.t) : date := date_of (local loc t / 86400).
Definition Weekday (loc : Location) (t : Time.t) : Z := weekday_of (local loc t / 86400).

(** [time.Date] with the offset search it performs; [sec] counts from midnight. *)
Definition Date (y m d sec ns : Z) (loc : Location) : Time.t :=
  let unix := days_of y m d * 86400 + sec in
  let '(off, start, end_) := lookup loc unix in
  let off :=
    if off =? 0 then 0
    else let utc := unix - off in
         if (utc <? start) || (end_ <=? utc) then offset loc utc else off in
  (unix - off) * Time.Second + ns.

(** [t.AddDate(years, 0, 0)] for [t] in UTC. *)
Definition AddYears (years : Z) (t : Time.t) : Time.t :=
  let d := Date_of UTC t in
  Date (Year d + years) (Month d) (Day d) (local UTC t mod 86400) (t mod Time.Second) UTC.

(** [t.Truncate(d)]. *)
Definition Truncate (t : Time.t) (d : Time.Duration) : Time.t := t - t mod d.

(** ** The calendar is a bijection *)

Definition is_date (y m d : Z) : Prop := 1 <= m <= 12 /\ 1 <= d <= month_days y m.

Ltac euclid := Z.to_euclidean_division_equations; lia.

Lemma leap_spec y :
  leap y = true <-> (y mod 4 = 0 /\ y mod 100 <> 0) \/ y mod 400 = 0.
Proof.
  unfold leap. rewrite orb_true_iff, andb_true_iff, negb_true_iff, !Z.eqb_eq, Z.eqb_neq. tauto.
Qed.

Lemma year_length y :
  year_start (y + 1) = year_start y + 365 + (if leap y then 1 else 0).
Proof.
  pose proof (leap_spec y) as H. unfold year_start.
  destruct (leap y).
  - assert ((y mod 4 = 0 /\ y mod 100 <> 0) \/ y mod 400 = 0) by tauto. euclid.
  - assert (~ ((y mod 4 = 0 /\ y mod 100 <> 0) \/ y mod 400 = 0))
      by (intros Hl; by apply H in Hl). euclid.
Qed.

Lemma year_of_spec n : year_start (year_of n) <= n < year_start (year_of n + 1).
Proof.
  unfold year_of. set (y := 400 * n / 146097 + 1).
  assert (year_start (y - 1) <= n < year_start (y + 2)) as H.
  { unfold year_start, y. euclid. }
  destruct (Z.ltb_spec n (year_start y)).
  { replace (y - 1 + 1) with y by lia. lia. }
  destruct (Z.leb_spec (year_start (y + 1)) n); [|lia].
  replace (y + 1 + 1) with (y + 2) by lia. lia.
Qed.

Lemma year_start_mono y y' : y <= y' -> year_start y <= year_start y'.
Proof. intros H. unfold year_start. euclid. Qed.

Lemma year_of_unique n y : year_start y <= n < year_start (y + 1) -> year_of n = y.
Proof.
  intros H. pose proof (year_of_spec n).
  destruct (Z.lt_trichotomy (year_of n) y) as [Hy|[Hy|Hy]]; [|done|].
  - pose proof (year_start_mono (year_of n + 1) y). lia.
  - pose proof (year_start_mono (y + 1) (year_of n)). lia.
Qed.

(** The twelve months. *)
Lemma month_cases m : 1 <= m <= 12 ->
  m = 1 \/ m = 2 \/ m = 3 \/ m = 4 \/ m = 5 \/ m = 6 \/ m = 7 \/ m = 8 \/ m = 9
  \/ m = 10 \/ m = 11 \/ m = 12.
Proof. lia. Qed.

Ltac each_month H :=
  apply month_cases in H;
  destruct H as [->|[->|[->|[->|[->|[->|[->|[->|[->|[->|[->| ->]]]]]]]]]]].

Lemma month_start_next y m : 1 <= m <= 12 ->
  month_start y (m + 1) = month_start y m + month_days y m.
Proof. intros H. unfold month_start, month_days. each_month H; simpl; destruct (leap y); done. Qed.

Lemma month_days_bounds y m : 28 <= month_days y m <= 31.
Proof. unfold month_days. repeat case_match; lia. Qed.

Lemma month_start_bounds y m : 1 <= m <= 12 -> 0 <= month_start y m <= 335.
Proof. intros H. unfold month_start. each_month H; destruct (leap y); lia. Qed.

Lemma month_end_bound y m : 1 <= m <= 12 ->
  month_start y m + month_days y m <= 365 + (if leap y then 1 else 0).
Proof. intros H. unfold month_start, month_days. each_month H; destruct (leap y); lia. Qed.

Lemma month_start_mono y m m' : 1 <= m <= m' -> m' <= 13 ->
  month_start y m <= month_start y m'.
Proof.
  intros Hm Hm'. replace m' with (m + Z.of_nat (Z.to_nat (m' - m))) in * by lia.
  generalize dependent (Z.to_nat (m' - m)). clear m'. intros n.
  induction n as [|n IH]; intros; [by rewrite Z.add_0_r|].
  replace (m + Z.of_nat (S n)) with ((m + Z.of_nat n) + 1) in * by lia.
  rewrite month_start_next by lia. pose proof (month_days_bounds y (m + Z.of_nat n)).
  specialize (IH ltac:(lia) ltac:(lia)). lia.
Qed.

Lemma month_down_spec y k n : 0 <= k -> (1 <= n <= 12)%nat ->
  k < month_start y (Z.of_nat n + 1) ->
  1 <= month_down y k n <= 12
  /\ month_start y (month_down y k n) <= k < month_start y (month_down y k n + 1).
Proof.
  intros Hk Hn Hlt. induction n as [|n IH]; [lia|]. cbn -[Z.of_nat month_start].
  destruct (Z.leb_spec (month_start y (Z.of_nat (S n))) k); [by repeat split; lia|].
  destruct (decide (n = 0%nat)) as [->|Hn0]; [exfalso; simpl in *; lia|].
  apply IH; [lia|]. by replace (Z.of_nat n + 1) with (Z.of_nat (S n)) by lia.
Qed.

Lemma month_of_spec y k : 0 <= k < 365 + (if leap y then 1 else 0) ->
  1 <= month_of y k <= 12
  /\ month_start y (month_of y k) <= k
     < month_start y (month_of y k) + month_days y (month_of y k).
Proof.
  intros Hk. destruct (month_down_spec y k 12) as [Hm Hb]; [lia|lia|simpl; lia|].
  fold (month_of y k) in *. rewrite month_start_next in Hb by done. done.
Qed.

Lemma month_of_unique y m k : 1 <= m <= 12 ->
  month_start y m <= k < month_start y m + month_days y m -> month_of y k = m.
Proof.
  intros Hm Hk. rewrite <-month_start_next in Hk by done.
  destruct (month_of_spec y k) as [Hm' Hk'].
  { pose proof (month_start_bounds y m Hm). pose proof (month_end_bound y m Hm).
    rewrite month_start_next in Hk by done. lia. }
  rewrite <-month_start_next in Hk' by done.
  destruct (Z.lt_trichotomy (month_of y k) m) as [H|[H|H]]; [|done|].
  - pose proof (month_start_mono y (month_of y k + 1) m). lia.
  - pose proof (month_start_mono y (m + 1) (month_of y k)). lia.
Qed.

Lemma days_of_valid y m d : 1 <= m <= 12 ->
  days_of y m d = year_start y + month_start y m + d - 1.
Proof.
  intros H. unfold days_of. rewrite Z.div_small, Z.mod_small, Z.add_0_r by lia.
  by replace (m - 1 + 1) with m by lia.
Qed.

(** A day number read as a date is a date, and is its day number. *)
Lemma date_of_spec n :
  is_date (Year (date_of n)) (Month (date_of n)) (Day (date_of n))
  /\ days_of (Year (date_of n)) (Month (date_of n)) (Day (date_of n)) = n.
Proof.
  pose proof (year_of_spec n) as Hy. rewrite year_length in Hy.
  unfold date_of, is_date. cbn [Year Month Day].
  destruct (month_of_spec (year_of n) (n - year_start (year_of n))) as [Hm Hd]; [lia|].
  split; [split; [done|lia]|]. rewrite days_of_valid by done. lia.
Qed.

(** And a date is read back from its day number. *)
Lemma date_of_days y m d : is_date y m d -> date_of (days_of y m d) = mkDate y m d.
Proof.
  intros [Hm Hd]. rewrite days_of_valid by done.
  pose proof (month_start_bounds y m Hm). pose proof (month_end_bound y m Hm).
  assert (year_of (year_start y + month_start y m + d - 1) = y) as Hy.
  { apply year_of_unique. rewrite year_length. lia. }
  unfold date_of. rewrite Hy.
  rewrite (month_of_unique y m) by lia. f_equal; lia.
Qed.

(** ** Wall clocks *)

(** A location that keeps one offset, as [UTC] and [FixedZone] do. *)
Definition constant_offset (o : Z) (loc : Location) : Prop :=
  forall sec, lookup loc sec = (o, alpha, omega).

Lemma FixedZone_constant name o : constant_offset o (FixedZone name o).
Proof. done. Qed.

Lemma local_constant o loc t : constant_offset o loc -> local loc t = t / Time.Second + o.
Proof. intros H. unfold local, offset. by rewrite H. Qed.

(** The wall clock of a constant-offset location, read back. *)
Lemma wall_clock o loc n h mi :
  constant_offset o loc -> 0 <= h <= 23 -> 0 <= mi <= 59 ->
  let t := (86400 * n + 3600 * h + 60 * mi + o mod 60 - o) * Time.Second in
  t mod Time.Minute = 0 /\ local loc t / 86400 = n /\ Hour loc t = h /\ Minute loc t = mi.
Proof.
  intros Ho Hh Hmi t. unfold Hour, Minute. rewrite (local_constant o) by done.
  unfold t, Time.Minute, Time.Second. rewrite Z.div_mul by done.
  pose proof (Z.div_mod o 60 ltac:(done)). pose proof (Z.mod_pos_bound o 60 ltac:(done)).
  set (r := o mod 60) in *. clearbody r t. repeat split.
  - replace (86400 * n + 3600 * h + 60 * mi + r - o)
      with ((1440 * n + 60 * h + mi - o / 60) * 60) by lia.
    replace 60000000000 with (60 * 1000000000) by done.
    rewrite <-Z.mul_assoc. apply Z.mod_mul. done.
  - replace (_ + o) with (n * 86400 + (3600 * h + 60 * mi + r)) by lia.
    rewrite Z.div_add_l, Z.div_small by lia. lia.
  - replace (_ + o) with (3600 * h + 60 * mi + r + n * 86400) by lia.
    rewrite Z.mod_add, Z.mod_small by lia.
    replace (3600 * h + 60 * mi + r) with (h * 3600 + (60 * mi + r)) by lia.
    rewrite Z.div_add_l, Z.div_small by lia. lia.
  - replace (_ + o) with (60 * mi + r + (24 * n + h) * 3600) by lia.
    rewrite Z.mod_add, Z.mod_small by lia.
    replace (60 * mi + r) with (mi * 60 + r) by lia.
    rewrite Z.div_add_l, Z.div_small by lia. lia.
Qed.

(** [time.Date] with day 0 of the next month is the last day of the month. *)
Lemma days_of_month_end y m : 1 <= m <= 12 ->
  days_of y (m + 1) 0 = days_of y m (month_days y m).
Proof.
  intros Hm. rewrite (days_of_valid y m) by done.
  destruct (decide (m = 12)) as [->|].
  - unfold days_of. change ((12 + 1 - 1) / 12) with 1. change ((12 + 1 - 1) mod 12 + 1) with 1.
    rewrite year_length. unfold month_start, month_days. destruct (leap y); lia.
  - rewrite days_of_valid by lia. rewrite month_start_next by done. lia.
Qed.

Lemma Date_constant o loc y m d sec ns : constant_offset o loc ->
  Date y m d sec ns loc = (days_of y m d * 86400 + sec - o) * Time.Second + ns.
Proof.
  intros Ho. unfold Date. generalize (days_of y m d * 86400 + sec). intros unix.
  rewrite (Ho unix). generalize alpha, omega. intros a w.
  destruct (Z.eqb_spec o 0) as [->|]; [done|].
  unfold offset. destruct (_ || _); [by rewrite Ho|done].
Qed.

Lemma Date_UTC y m d sec ns :
  Date y m d sec ns UTC = (days_of y m d * 86400 + sec) * Time.Second + ns.
Proof. unfold Date. cbn -[days_of Z.mul]. by rewrite Z.sub_0_r. Qed.

(** Five years are at least 1824 days. *)
Lemma AddYears_5 t : t + 1824 * 86400 * Time.Second <= AddYears 5 t.
Proof.
  unfold AddYears. set (d := Date_of UTC t). rewrite Date_UTC.
  pose proof (local_constant 0 UTC t ltac:(done)) as Hl. rewrite Z.add_0_r in Hl.
  destruct (date_of_spec (local UTC t / 86400)) as [[Hm _] Hn].
  fold (Date_of UTC t) in Hm, Hn. fold d in Hm, Hn. clearbody d.
  rewrite days_of_valid in Hn by done. rewrite days_of_valid by done.
  assert (month_start (Year d) (Month d) <= month_start (Year d + 5) (Month d) + 1).
  { unfold month_start. destruct (leap (Year d)), (leap (Year d + 5)); each_month Hm; lia. }
  assert (year_start (Year d) + 1825 <= year_start (Year d + 5)).
  { unfold year_start. clear. euclid. }
  rewrite Hl in *.
  pose proof (Z.div_mod (t / Time.Second) 86400 ltac:(done)).
  pose proof (Z.div_mod t Time.Second ltac:(done)).
  unfold Time.Second in *. nia.
Qed.
Close Scope Z_scope.
