(* ===== verification/GoFormat.v ===== *)
(** * Printing of instants and bytes

    [time.RFC3339Nano] of an instant in UTC ([appendFormatRFC3339], [appendInt] and
    [appendNano] of package time) and [hex.EncodeToString]: what the identity of a
    cron occurrence is made of.  Both lose nothing. *)

From Stdlib Require Import Ascii.
From S2P Require Import Prelude.
From S2P Require Import GoTime.

Open Scope Z_scope.

(** ** Decimal numbers *)

Definition dec (d : Z) : ascii := ascii_of_N (Z.to_N (48 + d)).
Definition undec (c : ascii) : Z := Z.of_N (N_of_ascii c) - 48.

(** The decimal digits of [x], padded with zeros to [width]. *)
Fixpoint itoa (fuel width : nat) (x : Z) : list ascii :=
  match fuel with
  | O => []
  | S fuel =>
      if (x =? 0) && (width =? 0)%nat then []
      else itoa fuel (pred width) (x / 10) ++ [dec (x mod 10)]
  end.

(** [appendInt] for a positive width; an [int] has at most 19 digits. *)
Definition appendInt (x : Z) (width : nat) : list ascii :=
  (if x <? 0 then ["-"%char] else []) ++ itoa 20 width (Z.abs x).

Fixpoint number (acc : Z) (l : list ascii) : Z :=
  match l with
  | [] => acc
  | c :: l => number (10 * acc + undec c) l
  end.

(** ** Instants *)

Fixpoint trim_zeros (l : list ascii) : list ascii :=
  match l with
  | [] => []
  | c :: l =>
      match trim_zeros l with
      | [] => if ascii_dec c "0" then [] else [c]
      | l' => c :: l'
      end
  end.

(** [appendNano] for [.999999999]: nine digits, without the zeros at their end. *)
Definition appendNano (ns : Z) : list ascii :=
  match trim_zeros (itoa 20 9 ns) with
  | [] => []
  | l => "."%char :: l
  end.

(** [t.UTC().Format(time.RFC3339Nano)]. *)
Definition rfc3339nano (t : Time.t) : list ascii :=
  let d := Date_of UTC t in
  let sec := local UTC t mod 86400 in
  appendInt (Year d) 4 ++ ["-"%char] ++ appendInt (Month d) 2 ++ ["-"%char]
  ++ appendInt (Day d) 2 ++ ["T"%char] ++ appendInt (sec / 3600) 2 ++ [":"%char]
  ++ appendInt (sec mod 3600 / 60) 2 ++ [":"%char] ++ appendInt (sec mod 60) 2
  ++ appendNano (t mod Time.Second) ++ ["Z"%char].
Definition RFC3339Nano (t : Time.t) : string := String.string_of_list_ascii (rfc3339nano t).

(** ** Hexadecimal *)

Definition hextable : string := "0123456789abcdef".
Definition hex_digit (n : N) : ascii :=
  default "0"%char (String.get (N.to_nat n) hextable).
Fixpoint encode_hex (l : list ascii) : list ascii :=
  match l with
  | [] => []
  | c :: l =>
      hex_digit (N_of_ascii c / 16) :: hex_digit (N_of_ascii c mod 16) :: encode_hex l
  end.

(** [hex.EncodeToString]; a byte slice is the string of its bytes. *)
Definition EncodeToString (s : string) : string :=
  String.string_of_list_ascii (encode_hex (String.list_ascii_of_string s)).

(** ** Lemmas *)

Lemma undec_dec d : 0 <= d <= 9 -> undec (dec d) = d.
Proof. intros H. unfold undec, dec. rewrite N_ascii_embedding by lia. lia. Qed.

Lemma number_snoc acc l c : number acc (l ++ [c]) = 10 * number acc l + undec c.
Proof. revert acc. induction l as [|x l IH]; intros acc; [done|]. apply IH. Qed.

Lemma itoa_spec f w x : 0 <= x < 10 ^ Z.of_nat w -> (w <= f)%nat ->
  length (itoa f w x) = w /\ number 0 (itoa f w x) = x.
Proof.
  revert f x. induction w as [|w IH]; intros f x Hx Hf.
  { assert (x = 0) as -> by lia. by destruct f. }
  destruct f as [|f]; [lia|]. cbn [itoa pred]. rewrite andb_false_r.
  rewrite Nat2Z.inj_succ, Z.pow_succ_r in Hx by lia.
  pose proof (Z.div_mod x 10 ltac:(done)). pose proof (Z.mod_pos_bound x 10 ltac:(done)).
  destruct (IH f (x / 10)) as [Hl Hn]; [split; [lia|]|lia|].
  { apply Z.div_lt_upper_bound; lia. }
  rewrite length_app, Hl, number_snoc, Hn, undec_dec by lia. simpl. lia.
Qed.

Lemma appendInt_spec x w : 0 <= x < 10 ^ Z.of_nat w -> (w <= 20)%nat ->
  length (appendInt x w) = w /\ number 0 (appendInt x w) = x.
Proof.
  intros Hx Hw. unfold appendInt. rewrite (proj2 (Z.ltb_ge _ _)), Z.abs_eq by lia.
  change ((if false then ["-"%char] else []) ++ itoa 20 w x) with (itoa 20 w x).
  by apply itoa_spec.
Qed.

(** A number at the head of a text is read back from it. *)
Lemma appendInt_head x y w l k :
  0 <= x < 10 ^ Z.of_nat w -> 0 <= y < 10 ^ Z.of_nat w -> (w <= 20)%nat ->
  appendInt x w ++ l = appendInt y w ++ k -> x = y /\ l = k.
Proof.
  intros Hx Hy Hw. destruct (appendInt_spec x w Hx Hw) as [Lx Nx].
  destruct (appendInt_spec y w Hy Hw) as [Ly Ny].
  intros [E ->]%app_inj_1; [|lia]. split; [|done]. by rewrite <-Nx, <-Ny, E.
Qed.

Lemma trim_zeros_pad l : l = trim_zeros l ++ replicate (length l - length (trim_zeros l)) "0"%char.
Proof.
  induction l as [|c l IH]; [done|]. cbn [trim_zeros]. destruct (trim_zeros l) as [|c' l'] eqn:E.
  - simpl in IH. rewrite Nat.sub_0_r in IH. destruct (ascii_dec c "0") as [->|]; simpl.
    + by f_equal.
    + by rewrite Nat.sub_0_r, <-IH.
  - change (length (c :: l)) with (S (length l)).
    change (length (c :: c' :: l')) with (S (length (c' :: l'))).
    rewrite Nat.sub_succ. cbn [app]. f_equal. exact IH.
Qed.

Lemma trim_zeros_inj l k : length l = length k -> trim_zeros l = trim_zeros k -> l = k.
Proof.
  intros Hl E. rewrite (trim_zeros_pad l), (trim_zeros_pad k), E, Hl. done.
Qed.

Lemma appendNano_inj a b : 0 <= a < Time.Second -> 0 <= b < Time.Second ->
  appendNano a = appendNano b -> a = b.
Proof.
  unfold Time.Second. intros Ha Hb E.
  destruct (itoa_spec 20 9 a) as [La Na]; [lia|lia|].
  destruct (itoa_spec 20 9 b) as [Lb Nb]; [lia|lia|].
  assert (trim_zeros (itoa 20 9 a) = trim_zeros (itoa 20 9 b)) as Et.
  { unfold appendNano in E. revert E. generalize (trim_zeros (itoa 20 9 a)).
    generalize (trim_zeros (itoa 20 9 b)). intros [|??] [|??]; congruence. }
  apply trim_zeros_inj in Et; [|lia]. by rewrite <-Na, <-Nb, Et.
Qed.

(** Instants of the years 0 to 9999, the ones [RFC3339Nano] prints in four digits. *)
Definition four_digit_year (t : Time.t) : Prop := 0 <= Year (Date_of UTC t) <= 9999.

#[export] Instance four_digit_year_dec t : Decision (four_digit_year t).
Proof. unfold four_digit_year. apply _. Defined.

(** An instant, from the fields that are printed. *)
Lemma instant_fields t : let d := Date_of UTC t in let sec := local UTC t mod 86400 in
  t = (days_of (Year d) (Month d) (Day d) * 86400 + sec / 3600 * 3600
       + sec mod 3600 / 60 * 60 + sec mod 60) * Time.Second + t mod Time.Second.
Proof.
  intros d sec. unfold d, Date_of.
  rewrite (proj2 (date_of_spec (local UTC t / 86400))).
  assert (local UTC t = t / Time.Second) as Hl.
  { rewrite (local_constant 0) by done. lia. }
  assert (sec / 3600 * 3600 + sec mod 3600 / 60 * 60 + sec mod 60 = sec) as Hs.
  { pose proof (Z.div_mod sec 3600 ltac:(done)).
    pose proof (Z.div_mod (sec mod 3600) 60 ltac:(done)).
    assert (sec mod 3600 mod 60 = sec mod 60) as Hm; [|lia].
    apply Z.mod_mod_divide. by exists 60. }
  rewrite <-!Z.add_assoc, (Z.add_assoc (sec / 3600 * 3600)), Hs. unfold sec.
  pose proof (Z.div_mod (local UTC t) 86400 ltac:(done)) as Hd.
  rewrite Hl in *. pose proof (Z.div_mod t Time.Second ltac:(done)). lia.
Qed.

#[local] Ltac width :=
  change (10 ^ Z.of_nat 4) with 10000; change (10 ^ Z.of_nat 2) with 100; lia.

Lemma rfc3339nano_inj t t' : four_digit_year t -> four_digit_year t' ->
  rfc3339nano t = rfc3339nano t' -> t = t'.
Proof.
  intros Ht Ht' E. rewrite (instant_fields t), (instant_fields t').
  assert (forall u, 1 <= Month (Date_of UTC u) <= 12 /\ 1 <= Day (Date_of UTC u) <= 31) as Hf.
  { intros u. destruct (date_of_spec (local UTC u / 86400)) as [[Hm Hd] _].
    pose proof (month_days_bounds (Year (Date_of UTC u)) (Month (Date_of UTC u))).
    unfold Date_of in *. lia. }
  pose proof (Hf t). pose proof (Hf t'). clear Hf.
  pose proof (Z.mod_pos_bound (local UTC t) 86400 ltac:(done)) as Hs.
  pose proof (Z.mod_pos_bound (local UTC t') 86400 ltac:(done)) as Hs'.
  pose proof (Z.mod_pos_bound t Time.Second ltac:(done)) as Hn.
  pose proof (Z.mod_pos_bound t' Time.Second ltac:(done)) as Hn'.
  unfold four_digit_year, rfc3339nano in *.
  set (sec := local UTC t mod 86400) in *. set (sec' := local UTC t' mod 86400) in *.
  assert (forall s, 0 <= s < 86400 ->
    0 <= s / 3600 < 100 /\ 0 <= s mod 3600 / 60 < 100 /\ 0 <= s mod 60 < 100) as Hr.
  { clear. intros. euclid. }
  pose proof (Hr sec Hs). pose proof (Hr sec' Hs'). clear Hr.
  clearbody sec sec'. destruct (Date_of UTC t) as [y m d], (Date_of UTC t') as [y' m' d'].
  cbn [app Year Month Day] in *.
  apply appendInt_head in E as [-> E]; [|width..]. injection E as E.
  apply appendInt_head in E as [-> E]; [|width..]. injection E as E.
  apply appendInt_head in E as [-> E]; [|width..]. injection E as E.
  apply appendInt_head in E as [-> E]; [|width..]. injection E as E.
  apply appendInt_head in E as [-> E]; [|width..]. injection E as E.
  apply appendInt_head in E as [-> E]; [|width..].
  apply app_inj_tail in E as [E _]. by rewrite (appendNano_inj _ _ Hn Hn' E).
Qed.

Lemma string_of_list_inj l k : String.string_of_list_ascii l = String.string_of_list_ascii k -> l = k.
Proof.
  intros E. rewrite <-(String.list_ascii_of_string_of_list_ascii l), E.
  by rewrite String.list_ascii_of_string_of_list_ascii.
Qed.

Lemma RFC3339Nano_inj t t' : four_digit_year t -> four_digit_year t' ->
  RFC3339Nano t = RFC3339Nano t' -> t = t'.
Proof. intros Ht Ht' E%string_of_list_inj. by apply rfc3339nano_inj. Qed.

Lemma encode_hex_inj l k : encode_hex l = encode_hex k -> l = k.
Proof.
  assert (forall n m : N, (n < 16)%N -> (m < 16)%N -> hex_digit n = hex_digit m -> n = m) as Hd.
  { intros n m Hn Hm.
    set (digits := N.of_nat <$> seq 0 16).
    assert (forall i, (i < 16)%N -> i ∈ digits) as Hin.
    { intros i Hi. apply list_elem_of_fmap. exists (N.to_nat i).
      rewrite N2Nat.id, elem_of_seq. split; [done|lia]. }
    assert (Forall (fun i => Forall (fun j => hex_digit i = hex_digit j -> i = j) digits) digits)
      as Hall by (apply (bool_decide_unpack _); by vm_compute).
    rewrite Forall_forall in Hall. specialize (Hall n (Hin n Hn)).
    rewrite Forall_forall in Hall. by apply Hall, Hin. }
  revert k. induction l as [|c l IH]; intros [|c' k]; cbn [encode_hex]; try done.
  intros E. injection E as E1 E2 E. f_equal; [|by apply IH].
  assert (forall c, N_of_ascii c < 256)%N as Hb by (intros; apply N_ascii_bounded).
  pose proof (Hb c). pose proof (Hb c').
  apply Hd in E1; [|apply N.Div0.div_lt_upper_bound; lia..].
  apply Hd in E2; [|apply N.mod_lt; lia..].
  rewrite <-(ascii_N_embedding c), <-(ascii_N_embedding c'). f_equal.
  rewrite (N.div_mod (N_of_ascii c) 16), (N.div_mod (N_of_ascii c') 16), E1, E2 by lia. done.
Qed.

Lemma EncodeToString_inj s s' : EncodeToString s = EncodeToString s' -> s = s'.
Proof.
  intros E%string_of_list_inj%encode_hex_inj.
  by rewrite <-(String.string_of_list_ascii_of_string s), E, String.string_of_list_ascii_of_string.
Qed.

Lemma EncodeToString_length s : String.length (EncodeToString s) = (2 * String.length s)%nat.
Proof.
  unfold EncodeToString. induction s as [|c s IH]; [done|]. simpl in *. rewrite IH. lia.
Qed.

(** Two texts with the same separator, which neither first part contains. *)
Lemma separated_inj (c : ascii) l1 l2 k1 k2 : c ∉ l1 -> c ∉ l2 ->
  l1 ++ c :: k1 = l2 ++ c :: k2 -> l1 = l2 /\ k1 = k2.
Proof.
  revert l2. induction l1 as [|x l1 IH]; intros [|y l2]; simpl; intros H1 H2 E.
  - by injection E.
  - injection E as <- _. set_solver.
  - injection E as -> _. set_solver.
  - injection E as <- E. destruct (IH l2) as [-> ->]; set_solver.
Qed.

Example rfc3339nano_trims : RFC3339Nano (Date 2026 8 10 (12 * 3600 + 5) 120000000 UTC)
  = "2026-08-10T12:00:05.12Z".
Proof. by vm_compute. Qed.
Close Scope Z_scope.
