(* ===== verification/WardenTypes.v ===== *)
(** * Warden domain types

    [services/warden/types.go], the messages of [wire.go] and the durable
    record of [interfaces.go].  [NodeID], [Role], [PeerStatus] and [MemberKind]
    are Go string types, so they are strings here: the wire conversions of
    [WardenWire] copy them verbatim.  A [nil] slice and an empty one are the
    same list.  [LatencyMS], a [float64] number of milliseconds that no decision
    reads, is kept as the integer number of nanoseconds it is computed from. *)

From stdpp Require Import pretty.
From S2P Require Import Prelude.

(** ** Data *)

Definition NodeID := string.
Definition Term := N.
Definition Role := string.
Definition PeerStatus := string.
Definition MemberKind := string.
Definition IncidentType := string.

Record Node := mkNode { ID : NodeID; Addr : string }.

Definition RoleFollower : Role := "follower".
Definition RoleCandidate : Role := "candidate".
Definition RoleLeader : Role := "leader".

Definition StatusUnknown : PeerStatus := "unknown".
Definition StatusAlive : PeerStatus := "alive".
Definition StatusSuspect : PeerStatus := "suspect".
Definition StatusDead : PeerStatus := "dead".

Definition MemberVoter : MemberKind := "voter".
Definition MemberObserver : MemberKind := "observer".
Definition MemberDiscovered : MemberKind := "discovered".

Record PeerView := mkPeerView {
  pv_Node : Node;
  pv_Status : PeerStatus;
  pv_LastSeen : Time.t;
  pv_LatencyMS : Z;
  pv_Member : MemberKind;
}.

Record Membership := mkMembership {
  Version : N;
  CreatedInTerm : Term;
  Voters : list Node;
}.

Record ClusterView := mkClusterView {
  cv_Self : NodeID;
  cv_Role : Role;
  cv_Term : Term;
  cv_LeaderID : NodeID;
  cv_Source : NodeID;
  cv_Authoritative : bool;
  cv_UpdatedAt : Time.t;
  cv_Peers : list PeerView;
  cv_ElectionsStarted : N;
  cv_Membership : Membership;
}.

Record Roster := mkRoster { Nodes : list Node }.

Record VoteRequest := mkVoteRequest { vq_Term : Term; vq_CandidateID : NodeID }.
Record VoteResponse := mkVoteResponse {
  vr_Term : Term; vr_Granted : bool; vr_VoterID : NodeID }.
Record HeartbeatRequest := mkHeartbeatRequest {
  hq_Term : Term;
  hq_LeaderID : NodeID;
  hq_View : option ClusterView;
  hq_Membership : option Membership;
}.
Record HeartbeatResponse := mkHeartbeatResponse {
  hr_Term : Term; hr_OK : bool; hr_NodeID : NodeID }.
Record IdentifyResponse := mkIdentifyResponse {
  ir_ClusterID : string; ir_NodeID : NodeID; ir_Version : string }.

Record PersistentState := mkPersistentState {
  ps_CurrentTerm : Term;
  ps_VotedFor : NodeID;
  ps_Membership : option Membership;
}.

Record Incident := mkIncident {
  inc_ID : string;
  inc_Type : IncidentType;
  inc_Peer : Node;
  inc_Term : Term;
  inc_ReportedBy : NodeID;
  inc_DetectedAt : Time.t;
  inc_LastSeen : Time.t;
}.

Definition IncidentPeerDead : IncidentType := "peer_dead".
Definition IncidentPeerRecovered : IncidentType := "peer_recovered".

#[global] Instance Node_eq_dec : EqDecision Node.
Proof. solve_decision. Defined.
#[global] Instance PeerView_eq_dec : EqDecision PeerView.
Proof. solve_decision. Defined.
#[global] Instance Membership_eq_dec : EqDecision Membership.
Proof. solve_decision. Defined.
#[global] Instance ClusterView_eq_dec : EqDecision ClusterView.
Proof. solve_decision. Defined.
#[global] Instance PersistentState_eq_dec : EqDecision PersistentState.
Proof. solve_decision. Defined.
#[global] Instance Incident_eq_dec : EqDecision Incident.
Proof. solve_decision. Defined.

(** ** Operations *)

(** Lexicographic comparison of the (Version, CreatedInTerm) identity. *)
Definition Supersedes (m other : Membership) : bool :=
  if decide (Version m = Version other)
  then (CreatedInTerm other <? CreatedInTerm m)%N
  else (Version other <? Version m)%N.

Definition Clone (m : Membership) : Membership :=
  {| Version := Version m;
     CreatedInTerm := CreatedInTerm m;
     Voters := Voters m |}.

Definition HasVoter (m : Membership) (id : NodeID) : bool :=
  existsb (fun n => bool_decide (ID n = id)) (Voters m).

Definition SortPeers (peers : list PeerView) : list PeerView :=
  sort_by (fun p => ID (pv_Node p)) peers.

Definition SortNodes (ns : list Node) : list Node := sort_by ID ns.

Definition Quorum (n : nat) : nat := n / 2 + 1.

Definition NewIncidentID (t : IncidentType) (peer : NodeID) (at_ : Time.t)
  : string :=
  t +:+ "/" +:+ peer +:+ "/" +:+ pretty (Time.Unix at_).

(** The set of voter identifiers, used by specifications. *)
Definition voter_ids (m : Membership) : gset NodeID :=
  list_to_set (ID <$> Voters m).

(** ** Lemmas *)

Lemma Clone_id m : Clone m = m.
Proof. by destruct m. Qed.

Lemma HasVoter_spec m id : HasVoter m id = true <-> id ∈ voter_ids m.
Proof.
  unfold HasVoter, voter_ids. rewrite existsb_exists, elem_of_list_to_set.
  rewrite list_elem_of_fmap. setoid_rewrite <-list_elem_of_In.
  setoid_rewrite bool_decide_eq_true. naive_solver.
Qed.

Lemma HasVoter_false m id : HasVoter m id = false <-> id ∉ voter_ids m.
Proof. rewrite <-HasVoter_spec. by destruct (HasVoter m id). Qed.

Lemma voter_ids_size m : size (voter_ids m) <= length (Voters m).
Proof.
  unfold voter_ids. etrans; [apply size_list_to_set_le|]. by rewrite length_fmap.
Qed.

Lemma voter_ids_perm m m' : Voters m ≡ₚ Voters m' -> voter_ids m = voter_ids m'.
Proof. unfold voter_ids. intros ->. done. Qed.

Lemma Quorum_majority n : n < 2 * Quorum n.
Proof. unfold Quorum. pose proof (Nat.div_mod_eq n 2). pose proof (Nat.mod_upper_bound n 2). lia. Qed.

Lemma Quorum_le n : 0 < n -> Quorum n <= n.
Proof. unfold Quorum. pose proof (Nat.div_mod_eq n 2). intros. nia. Qed.

Lemma Quorum_pos n : 0 < Quorum n.
Proof. unfold Quorum. lia. Qed.

Lemma Quorum_mono n k : n <= k -> Quorum n <= Quorum k.
Proof. unfold Quorum. intros. pose proof (Nat.Div0.div_le_mono n k 2). lia. Qed.

#[export] Hint Resolve Quorum_majority Quorum_pos : candace.

(** The single-node-change rule in numbers: majorities of two configurations
    whose sizes differ by at most one overlap in a joint set of the larger
    size. *)
Lemma Quorum_adjacent n : S n < Quorum n + Quorum (S n).
Proof.
  unfold Quorum. pose proof (Nat.div_mod_eq n 2). pose proof (Nat.div_mod_eq (S n) 2).
  pose proof (Nat.mod_upper_bound n 2). pose proof (Nat.mod_upper_bound (S n) 2). lia.
Qed.

(** *** The order on membership identities *)

Definition mem_le (a b : Membership) : Prop := Supersedes a b = false.

Lemma Supersedes_spec m o :
  Supersedes m o = true <->
  (Version o < Version m)%N \/
  (Version o = Version m /\ (CreatedInTerm o < CreatedInTerm m)%N).
Proof. unfold Supersedes. case_decide; rewrite N.ltb_lt; lia. Qed.

Lemma Supersedes_false m o :
  Supersedes m o = false <->
  (Version m < Version o)%N \/
  (Version m = Version o /\ (CreatedInTerm m <= CreatedInTerm o)%N).
Proof. unfold Supersedes. case_decide; rewrite N.ltb_ge; lia. Qed.

#[global] Instance mem_le_preorder : PreOrder mem_le.
Proof.
  split.
  - intros m. apply Supersedes_false. lia.
  - intros a b c. unfold mem_le. rewrite !Supersedes_false. lia.
Qed.

#[global] Instance mem_le_total : Total mem_le.
Proof. intros a b. unfold mem_le. rewrite !Supersedes_false. lia. Qed.

Lemma Supersedes_mem_le m o : Supersedes m o = true -> mem_le o m.
Proof. unfold mem_le. rewrite Supersedes_spec, Supersedes_false. lia. Qed.
