(* ===== verification/WardenManager.v ===== *)
(** * The election Manager: state, environment and views

    [services/warden/election]: the [Manager] struct with its helpers
    ([manager.go]), its configuration ([config.go]), the candidate rows of
    [membership.go] and the cluster views of [view.go].

    The event loop of [Run] owns every field, so a handler is a function from
    the state it is called in to the state it leaves.  What a handler reaches
    through an interface is kept beside the state, in [Env]: the clock reading
    (one per handled event), the disk behind [IStore] with a script of [Save]
    outcomes, the random draws of the loop's generator, and the RPC workers it
    has spawned.  Logging is not modelled. *)

From S2P Require Import Prelude.
From S2P Require Import WardenTypes.

(** ** Data *)

(** [Config].  [Discoverer] records whether the interface value is non-nil. *)
Record Config := mkConfig {
  Self : Node;
  Peers : list Node;
  HeartbeatInterval : Time.Duration;
  SuspectAfter : Time.Duration;
  DeadAfter : Time.Duration;
  ElectionTimeoutMin : Time.Duration;
  ElectionTimeoutMax : Time.Duration;
  RPCTimeout : Time.Duration;
  ClusterID : string;
  BuildVersion : string;
  ViewFreshFor : Time.Duration;
  Discoverer : bool;
  JoinStability : Time.Duration;
  RemoveAfter : Time.Duration;
}.
#[export] Instance Rebuild_Config : Rebuild Config := fun c =>
  mkConfig (Self c) (Peers c) (HeartbeatInterval c) (SuspectAfter c)
    (DeadAfter c) (ElectionTimeoutMin c) (ElectionTimeoutMax c) (RPCTimeout c)
    (ClusterID c) (BuildVersion c) (ViewFreshFor c) (Discoverer c)
    (JoinStability c) (RemoveAfter c).

Record candidate := mkCandidate {
  node : Node;
  inRoster : bool;
  absentSince : Time.t;
  verified : bool;
  eligibleSince : Time.t;
  c_lastContact : Time.t;
  probing : bool;
}.
#[export] Instance Rebuild_candidate : Rebuild candidate := fun c =>
  mkCandidate (node c) (inRoster c) (absentSince c) (verified c)
    (eligibleSince c) (c_lastContact c) (probing c).

Record ackRef := mkAckRef { ack_version : N; ack_term : Term }.

(** The outbound RPCs a handler hands to worker goroutines ([spawnRPC]), with
    the values each worker's closure captures. *)
Inductive rpc :=
| RequestVoteRPC (peer : Node) (req : VoteRequest) (term : Term)
| SendHeartbeatRPC (peer : Node) (req : HeartbeatRequest)
    (term : Term) (mversion : N) (mterm : Term)
| IdentifyRPC (peer : Node).

(** What one [FileStore.Save] call can do: replace the file and return nil; fail
    with the old file in place; or fail after the rename, when only the
    directory fsync failed, leaving the new file in place. *)
Inductive SaveOutcome := SaveDurable | SaveLost | SaveKept.

Record Env := mkEnv {
  now : Time.t;
  disk : option PersistentState;
  saves : list SaveOutcome;
  draws : list Z;
  outbox : list rpc;
}.
#[export] Instance Rebuild_Env : Rebuild Env := fun e =>
  mkEnv (now e) (disk e) (saves e) (draws e) (outbox e).

(** A [warden.Timer]: the fire buffered in its channel and the armed deadline. *)
Record Timer := mkTimer { fired : option Time.t; armed : option Time.t }.

(** A subscriber channel: how many more sends it can take without blocking, and
    the snapshots it has been sent. *)
Record channel := mkChannel { room : nat; sent : list ClusterView }.

(** [votesFrom] is [None] for Go's nil map, a write to which panics; [panicked]
    records that the loop did. *)
Record Manager := mkManager {
  cfg : Config;
  self : Node;
  discoveryMode : bool;
  membership : Membership;
  currentTerm : Term;
  votedFor : NodeID;
  role : Role;
  leaderID : NodeID;
  electionDeadline : Time.t;
  electionsStarted : N;
  votesFrom : option (gset NodeID);
  becameLeaderAt : Time.t;
  lastContact : gmap NodeID Time.t;
  latencyMS : gmap NodeID Z;
  lastRoster : Roster;
  haveRoster : bool;
  candidates : gmap NodeID candidate;
  ackedVersion : gmap NodeID ackRef;
  rosterCh : bool;
  cachedView : option ClusterView;
  cachedViewAt : Time.t;
  lastLeaderContact : Time.t;
  electionTimer : Timer;
  subs : gmap nat channel;
  nextSubID : nat;
  panicked : bool;
  env : Env;
}.
#[export] Instance Rebuild_Manager : Rebuild Manager := fun m =>
  mkManager (cfg m) (self m) (discoveryMode m) (membership m) (currentTerm m)
    (votedFor m) (role m) (leaderID m) (electionDeadline m)
    (electionsStarted m) (votesFrom m) (becameLeaderAt m) (lastContact m)
    (latencyMS m) (lastRoster m) (haveRoster m) (candidates m)
    (ackedVersion m) (rosterCh m) (cachedView m) (cachedViewAt m)
    (lastLeaderContact m) (electionTimer m) (subs m) (nextSubID m)
    (panicked m) (env m).

(** ** Environment *)

Definition Now (m : Manager) : Time.t := now (env m).

(** [m.store.Save(ps)]; the boolean is [err == nil]. *)
Definition Save (ps : PersistentState) (m : Manager) : bool * Manager :=
  let e := env m in
  let rest := tl (saves e) in
  match default SaveDurable (head (saves e)) with
  | SaveDurable =>
      (true, m <| env := e <| disk := Some ps |> <| saves := rest |> |>)
  | SaveLost => (false, m <| env := e <| saves := rest |> |>)
  | SaveKept =>
      (false, m <| env := e <| disk := Some ps |> <| saves := rest |> |>)
  end.

(** [rng.Int63n(n)] for [n > 0]: some value below [n]. *)
Definition Int63n (n : Z) (m : Manager) : Z * Manager :=
  let e := env m in
  ((default 0%Z (head (draws e)) mod n)%Z,
   m <| env := e <| draws := tl (draws e) |> |>).

Definition spawnRPC (r : rpc) (m : Manager) : Manager :=
  m <| env := (env m) <| outbox := outbox (env m) ++ [r] |> |>.

(** ** Helpers of manager.go *)

Definition quorum (m : Manager) : nat := Quorum (length (Voters (membership m))).

Definition isVoter (m : Manager) (id : NodeID) : bool :=
  HasVoter (membership m) id.

Definition selfIsVoter (m : Manager) : bool :=
  HasVoter (membership m) (ID (self m)).

Definition isObserver (m : Manager) : bool :=
  discoveryMode m && negb (HasVoter (membership m) (ID (self m))).

Definition voterPeers (m : Manager) : list Node :=
  filter (fun v => ID v <> ID (self m)) (Voters (membership m)).

Definition saveState (term : Term) (voted : NodeID) (m : Manager)
  : bool * Manager :=
  Save {| ps_CurrentTerm := term;
          ps_VotedFor := voted;
          ps_Membership :=
            if discoveryMode m then Some (Clone (membership m)) else None |} m.

Definition randTimeout (m : Manager) : Time.Duration * Manager :=
  let lo := ElectionTimeoutMin (cfg m) in
  let span := i64_wrap (ElectionTimeoutMax (cfg m) - lo) in
  if (span <=? 0)%Z then (lo, m)
  else let '(r, m) := Int63n span m in (i64_wrap (lo + r), m).

(** [Timer.Stop] reports whether the timer was still armed; [Timer.Reset] arms
    it again. *)
Definition Timer_Stop (t : Timer) : bool * Timer :=
  (bool_decide (is_Some (armed t)), {| fired := fired t; armed := None |}).
Definition Timer_Reset (at_ : Time.t) (d : Time.Duration) (t : Timer) : Timer :=
  {| fired := fired t; armed := Some (Time.Add at_ d) |}.

Definition resetElectionTimer (d : Time.Duration) (m : Manager) : Manager :=
  let d := if (d <? 0)%Z then 0%Z else d in
  let '(stopped, t) := Timer_Stop (electionTimer m) in
  let t := if stopped then t else {| fired := None; armed := armed t |} in
  m <| electionTimer := Timer_Reset (Now m) d t |>.

(** [newerAck]: is the pair [(v, t)] newer than [a]? *)
Definition newerAck (a : ackRef) (v : N) (t : Term) : bool :=
  if decide (v = ack_version a) then (ack_term a <? t)%N
  else (ack_version a <? v)%N.

Definition zeroAck : ackRef := {| ack_version := 0%N; ack_term := 0%N |}.

(** ** Views: view.go and the candidate rows of membership.go *)

(** The three-way aging shared by every status function. *)
Definition ageStatus (c : Config) (age : Time.Duration) : PeerStatus :=
  if (DeadAfter c <=? age)%Z then StatusDead
  else if (SuspectAfter c <=? age)%Z then StatusSuspect
  else StatusAlive.

(** [lastContact] of an absent key is the zero time. *)
Definition contactOf (m : Manager) (id : NodeID) : Time.t :=
  default 0%Z (lastContact m !! id).

Definition leaderPeerRef (m : Manager) (lc : Time.t) : Time.t :=
  if Time.After lc (becameLeaderAt m) then lc else becameLeaderAt m.

Definition leaderPeerStatus (m : Manager) (at_ lc : Time.t) : PeerStatus :=
  if Time.IsZero lc
     && (Time.Sub at_ (becameLeaderAt m) <? SuspectAfter (cfg m))%Z
  then StatusUnknown
  else ageStatus (cfg m) (Time.Sub at_ (leaderPeerRef m lc)).

Definition followerLeaderStatus (m : Manager) (at_ : Time.t) : PeerStatus :=
  if Time.IsZero (lastLeaderContact m) then StatusUnknown
  else ageStatus (cfg m) (Time.Sub at_ (lastLeaderContact m)).

Definition observerStatus (m : Manager) (at_ : Time.t) (c : candidate)
  : PeerStatus :=
  if Time.IsZero (c_lastContact c) then StatusUnknown
  else ageStatus (cfg m) (Time.Sub at_ (c_lastContact c)).

Definition candidateRow (m : Manager) (at_ : Time.t) (c : candidate) : PeerView :=
  if verified c then
    {| pv_Node := node c; pv_Status := observerStatus m at_ c;
       pv_LastSeen := c_lastContact c; pv_LatencyMS := 0%Z;
       pv_Member := MemberObserver |}
  else
    {| pv_Node := node c; pv_Status := StatusUnknown; pv_LastSeen := 0%Z;
       pv_LatencyMS := 0%Z; pv_Member := MemberDiscovered |}.

Definition candidateRows (m : Manager) (at_ : Time.t) : list PeerView :=
  if discoveryMode m then
    candidateRow m at_ <$> (map_to_list (candidates m)).*2
  else [].

Definition selfRow (m : Manager) (at_ : Time.t) (n : Node) (k : MemberKind)
  : PeerView :=
  {| pv_Node := n; pv_Status := StatusAlive; pv_LastSeen := at_;
     pv_LatencyMS := 0%Z; pv_Member := k |}.

Definition leaderRow (m : Manager) (at_ : Time.t) (p : Node) : PeerView :=
  if decide (ID p = ID (self m)) then selfRow m at_ p MemberVoter
  else
    let lc := contactOf m (ID p) in
    {| pv_Node := p; pv_Status := leaderPeerStatus m at_ lc; pv_LastSeen := lc;
       pv_LatencyMS := default 0%Z (latencyMS m !! ID p);
       pv_Member := MemberVoter |}.

Definition leaderView (m : Manager) (at_ : Time.t) : ClusterView :=
  {| cv_Self := ID (self m);
     cv_Role := RoleLeader;
     cv_Term := currentTerm m;
     cv_LeaderID := ID (self m);
     cv_Source := ID (self m);
     cv_Authoritative := true;
     cv_UpdatedAt := at_;
     cv_Peers := SortPeers ((leaderRow m at_ <$> Voters (membership m))
                              ++ candidateRows m at_);
     cv_ElectionsStarted := electionsStarted m;
     cv_Membership := Clone (membership m) |}.

Definition followerRow (m : Manager) (at_ : Time.t) (p : Node) : PeerView :=
  if decide (ID p = ID (self m)) then selfRow m at_ p MemberVoter
  else if decide (leaderID m <> "" /\ ID p = leaderID m) then
    {| pv_Node := p; pv_Status := followerLeaderStatus m at_;
       pv_LastSeen := lastLeaderContact m; pv_LatencyMS := 0%Z;
       pv_Member := MemberVoter |}
  else
    {| pv_Node := p; pv_Status := StatusUnknown; pv_LastSeen := 0%Z;
       pv_LatencyMS := 0%Z; pv_Member := MemberVoter |}.

(** [copyView] duplicates the [Peers] slice; values are immutable here. *)
Definition copyView (v : ClusterView) : ClusterView := v.

(** The cached leader view, when it is fresh and names the current leader. *)
Definition freshCachedView (m : Manager) (at_ : Time.t) : option ClusterView :=
  match cachedView m with
  | Some v =>
      if decide (leaderID m <> "" /\ cv_LeaderID v = leaderID m)
      then if (Time.Sub at_ (cachedViewAt m) <? ViewFreshFor (cfg m))%Z
           then Some v else None
      else None
  | None => None
  end.

Definition followerView (m : Manager) (at_ : Time.t) : ClusterView :=
  match freshCachedView m at_ with
  | Some cached =>
      let v := copyView cached in
      {| cv_Self := ID (self m);
         cv_Role := role m;
         cv_Term := currentTerm m;
         cv_LeaderID := cv_LeaderID v;
         cv_Source := cv_Source v;
         cv_Authoritative := cv_Authoritative v;
         cv_UpdatedAt := cv_UpdatedAt v;
         cv_Peers := cv_Peers v;
         cv_ElectionsStarted := electionsStarted m;
         cv_Membership := Clone (membership m) |}
  | None =>
      {| cv_Self := ID (self m);
         cv_Role := role m;
         cv_Term := currentTerm m;
         cv_LeaderID := leaderID m;
         cv_Source := ID (self m);
         cv_Authoritative := false;
         cv_UpdatedAt := at_;
         cv_Peers :=
           SortPeers
             ((followerRow m at_ <$> Voters (membership m))
                ++ (if selfIsVoter m then []
                    else [selfRow m at_ (self m) MemberObserver])
                ++ candidateRows m at_);
         cv_ElectionsStarted := electionsStarted m;
         cv_Membership := Clone (membership m) |}
  end.

Definition snapshotView (m : Manager) : ClusterView :=
  if decide (role m = RoleLeader) then leaderView m (Now m)
  else followerView m (Now m).

Definition offlineView (m : Manager) : ClusterView :=
  {| cv_Self := ID (self m); cv_Role := RoleFollower; cv_Term := 0%N;
     cv_LeaderID := ""; cv_Source := ID (self m); cv_Authoritative := false;
     cv_UpdatedAt := 0%Z; cv_Peers := []; cv_ElectionsStarted := 0%N;
     cv_Membership := Clone (membership m) |}.

(** A non-blocking send: dropped when the channel has no room. *)
Definition trySend (v : ClusterView) (ch : channel) : channel :=
  match room ch with
  | 0 => ch
  | S r => {| room := r; sent := sent ch ++ [v] |}
  end.

Definition publish (m : Manager) : Manager :=
  if decide (size (subs m) = 0) then m
  else let view := snapshotView m in m <| subs := trySend view <$> subs m |>.

(** [onSubscribe]: register a channel with the given room; the reply is its id. *)
Definition onSubscribe (buf : nat) (m : Manager) : nat * Manager :=
  let id := S (nextSubID m) in
  let m := m <| nextSubID := id |> in
  let ch := {| room := buf; sent := [] |} in
  (id, m <| subs := <[id := trySend (snapshotView m) ch]> (subs m) |>).

Definition onUnsubscribe (id : nat) (m : Manager) : Manager :=
  m <| subs := delete id (subs m) |>.
