(* ===== verification/WardenElection.v ===== *)
(** * The election state machine

    The handlers of [services/warden/election]: [election.go], [heartbeat.go],
    the membership driver of [membership.go], [NewManager] of [config.go] and
    the dispatch of [Run] and [handleEvent] in [manager.go].  Each handler is
    the whole Go function, in source order; [step] is one turn of the loop. *)

From S2P Require Import Prelude.
From S2P Require Import WardenTypes.
From S2P Require Import WardenManager.

(** ** Messages of the loop *)

Record voteResultMsg := mkVoteResultMsg {
  vrm_term : Term;
  vrm_from : NodeID;
  vrm_resp : option VoteResponse;   (** [None]: the RPC returned an error *)
}.

Record heartbeatResultMsg := mkHeartbeatResultMsg {
  hrm_term : Term;
  hrm_peer : Node;
  hrm_resp : option HeartbeatResponse;
  hrm_sentAt : Time.t;
  hrm_rtt : Time.Duration;
  hrm_mversion : N;
  hrm_mterm : Term;
}.

Record identifyResultMsg := mkIdentifyResultMsg {
  irm_node : Node;
  irm_resp : option IdentifyResponse;
}.

Inductive event :=
| EvVote (req : VoteRequest)
| EvHeartbeat (req : HeartbeatRequest)
| EvVoteResult (e : voteResultMsg)
| EvHeartbeatResult (e : heartbeatResultMsg)
| EvIdentifyResult (e : identifyResultMsg)
| EvView
| EvSubscribe (buf : nat)
| EvUnsubscribe (id : nat)
| EvRoster (r : Roster)
| EvRosterClosed
| EvElectionTimer
| EvHeartbeatTicker
| EvPublishTicker.

Inductive reply :=
| NoReply
| VoteReply (r : VoteResponse)
| HeartbeatReply (r : HeartbeatResponse)
| ViewReply (v : ClusterView)
| SubscribeReply (id : nat).

(** ** heartbeat.go and membership.go: the leader's side *)

Definition heartbeatTargets (m : Manager) : list Node :=
  voterPeers m ++
  (if discoveryMode m
   then node <$> filter (fun c => verified c = true)
                   (map_to_list (candidates m)).*2
   else []).

Definition sendHeartbeats (m : Manager) : Manager :=
  let term := currentTerm m in
  let view := snapshotView m in
  let memPtr := if discoveryMode m then Some (Clone (membership m)) else None in
  let mver := Version (membership m) in
  let mterm := CreatedInTerm (membership m) in
  foldl (fun acc p =>
           spawnRPC (SendHeartbeatRPC p
                       {| hq_Term := term; hq_LeaderID := ID (self m);
                          hq_View := Some view; hq_Membership := memPtr |}
                       term mver mterm) acc)
        m (heartbeatTargets m).

Definition candidateEligible (m : Manager) (c : candidate) (at_ : Time.t) : bool :=
  inRoster c && verified c && negb (Time.IsZero (eligibleSince c))
  && (JoinStability (cfg m) <=? Time.Sub at_ (eligibleSince c))%Z.

(** Does an ack [a] count for the configuration identified by [(v, ct)]? *)
Definition ackCounts (v : N) (ct : Term) (a : ackRef) : bool :=
  (v <? ack_version a)%N
  || (bool_decide (ack_version a = v) && (ct <=? ack_term a)%N).

Definition ackOf (m : Manager) (id : NodeID) : ackRef :=
  default zeroAck (ackedVersion m !! id).

Definition settledVoters (m : Manager) : list Node :=
  filter (fun voter =>
            ackCounts (Version (membership m)) (CreatedInTerm (membership m))
              (ackOf m (ID voter)) = true)
         (Voters (membership m)).

Definition changeSettled (m : Manager) : bool :=
  quorum m <=? length (settledVoters m).

Definition nextAdmission (m : Manager) : option Node :=
  node <$> least_by (fun c => ID (node c)) None
             (filter (fun c => candidateEligible m c (Now m) = true)
                (map_to_list (candidates m)).*2).

Definition leaderSeesLiveMajority (m : Manager) (at_ : Time.t) : bool :=
  quorum m <=?
  length (filter (fun v => ID v = ID (self m)
                   \/ leaderPeerStatus m at_ (contactOf m (ID v)) = StatusAlive)
            (Voters (membership m))).

Definition rosterHas (r : Roster) (id : NodeID) : bool :=
  existsb (fun n => bool_decide (ID n = id)) (Nodes r).

(** The per-voter conditions of [nextRemoval]. *)
Definition removable (m : Manager) (at_ : Time.t) (v : Node) : bool :=
  let lc := contactOf m (ID v) in
  negb (bool_decide (ID v = ID (self m)) || rosterHas (lastRoster m) (ID v))
  && bool_decide (leaderPeerStatus m at_ lc = StatusDead)
  && (RemoveAfter (cfg m) <=? Time.Sub at_ (leaderPeerRef m lc))%Z.

Definition nextRemoval (m : Manager) : option Node :=
  if negb (haveRoster m) then None
  else if negb (leaderSeesLiveMajority m (Now m)) then None
  else least_by ID None
         (filter (fun v => removable m (Now m) v = true)
            (Voters (membership m))).

Definition applyMembershipChange (newM : Membership) (target : Node)
  (m : Manager) : Manager :=
  let '(ok, m) :=
    Save {| ps_CurrentTerm := currentTerm m; ps_VotedFor := votedFor m;
            ps_Membership := Some (Clone newM) |} m in
  if negb ok then m
  else
    sendHeartbeats
      (publish
         (m <| membership := Clone newM |>
            <| ackedVersion ::= insert (ID (self m))
                 {| ack_version := Version newM;
                    ack_term := CreatedInTerm newM |} |>
            <| candidates ::= delete (ID target) |>)).

(** The membership minted when [n] is admitted or removed. *)
Definition admitted (m : Manager) (n : Node) : Membership :=
  {| Version := u64_add (Version (membership m)) 1;
     CreatedInTerm := currentTerm m;
     Voters := SortNodes (Voters (membership m) ++ [n]) |}.
Definition removed (m : Manager) (n : Node) : Membership :=
  {| Version := u64_add (Version (membership m)) 1;
     CreatedInTerm := currentTerm m;
     Voters := filter (fun v => ID v <> ID n) (Voters (membership m)) |}.

Definition maybeStartMembershipChange (m : Manager) : Manager :=
  if negb (discoveryMode m) || negb (bool_decide (role m = RoleLeader)) then m
  else if negb (changeSettled m) then m
  else match nextAdmission m with
       | Some n => applyMembershipChange (admitted m n) n m
       | None =>
           if (0 <? RemoveAfter (cfg m))%Z then
             match nextRemoval m with
             | Some n => applyMembershipChange (removed m n) n m
             | None => m
             end
           else m
       end.

(** [if m.discoveryMode { m.maybeStartMembershipChange() }]. *)
Definition driveMembership (m : Manager) : Manager :=
  if discoveryMode m then maybeStartMembershipChange m else m.

(** ** election.go *)

(** [timeout := m.randTimeout(); m.electionDeadline = now.Add(timeout);
    m.resetElectionTimer(timeout)], the block every transition ends with. *)
Definition armElection (m : Manager) : Manager :=
  let '(timeout, m) := randTimeout m in
  let m := m <| electionDeadline := Time.Add (Now m) timeout |> in
  resetElectionTimer timeout m.

(** [m.resetElectionTimer(m.randTimeout())]. *)
Definition rearmElectionTimer (m : Manager) : Manager :=
  let '(timeout, m) := randTimeout m in resetElectionTimer timeout m.

(** A fresh ack ledger: the leader holds its own membership version. *)
Definition resetAcks (m : Manager) : Manager :=
  if discoveryMode m then
    m <| ackedVersion := {[ ID (self m) :=
           {| ack_version := Version (membership m);
              ack_term := CreatedInTerm (membership m) |} ]} |>
  else m.

Definition becomeLeader (m : Manager) : Manager :=
  let m := m <| role := RoleLeader |>
             <| leaderID := ID (self m) |>
             <| becameLeaderAt := Now m |>
             <| lastContact := ∅ |>
             <| latencyMS := ∅ |> in
  driveMembership (sendHeartbeats (publish (resetAcks m))).

(** One [RequestVote] worker per other voter. *)
Definition solicitVotes (m : Manager) : Manager :=
  foldl (fun acc p =>
           spawnRPC (RequestVoteRPC p
                       {| vq_Term := currentTerm m; vq_CandidateID := ID (self m) |}
                       (currentTerm m)) acc)
        m (voterPeers m).

Definition winIfQuorum (m : Manager) : Manager :=
  if quorum m <=? size (default ∅ (votesFrom m)) then becomeLeader m else m.

Definition startElection (m : Manager) : Manager :=
  if isObserver m then rearmElectionTimer m
  else
    let newTerm := u64_add (currentTerm m) 1 in
    let '(ok, m) := saveState newTerm (ID (self m)) m in
    if negb ok then rearmElectionTimer m
    else
      let m := m <| currentTerm := newTerm |>
                 <| votedFor := ID (self m) |>
                 <| role := RoleCandidate |>
                 <| leaderID := "" |>
                 <| electionsStarted ::= fun n => u64_add n 1 |>
                 <| votesFrom := Some {[ ID (self m) ]} |> in
      winIfQuorum (solicitVotes (publish (armElection m))).

Definition onElectionTimeout (m : Manager) : Manager :=
  if decide (role m = RoleLeader) then rearmElectionTimer m
  else if isObserver m then rearmElectionTimer m
  else if Time.Before (Now m) (electionDeadline m) then
    resetElectionTimer (Time.Sub (electionDeadline m) (Now m)) m
  else startElection m.

(** The in-memory half of every fall back to follower: [stepDown] and both
    branches of [onVote] assign these fields, re-arm the timer and publish. *)
Definition adoptVote (term : Term) (voted : NodeID) (m : Manager) : Manager :=
  publish (armElection
    (m <| currentTerm := term |>
       <| votedFor := voted |>
       <| role := RoleFollower |>
       <| leaderID := "" |>)).

Definition stepDown (newTerm : Term) (m : Manager) : Manager :=
  let '(_, m) := saveState newTerm "" m in
  adoptVote newTerm "" m.

Definition onVoteResult (e : voteResultMsg) (m : Manager) : Manager :=
  if negb (bool_decide (role m = RoleCandidate)
           && bool_decide (vrm_term e = currentTerm m)) then m
  else match vrm_resp e with
       | None => m
       | Some resp =>
           if (currentTerm m <? vr_Term resp)%N then stepDown (vr_Term resp) m
           else if negb (vr_Granted resp) then m
           else if negb (isVoter m (vrm_from e)) then m
           else match votesFrom m with
                | None => m <| panicked := true |>
                | Some votes =>
                    winIfQuorum
                      (m <| votesFrom := Some ({[ vrm_from e ]} ∪ votes) |>)
                end
       end.

Definition refuse (m : Manager) : VoteResponse :=
  {| vr_Term := currentTerm m; vr_Granted := false; vr_VoterID := ID (self m) |}.

Definition onVote (req : VoteRequest) (m : Manager) : VoteResponse * Manager :=
  if isObserver m then (refuse m, m)
  else if (vq_Term req <? currentTerm m)%N then (refuse m, m)
  else
    let newer := (currentTerm m <? vq_Term req)%N in
    let termToUse := if newer then vq_Term req else currentTerm m in
    let effVotedFor := if newer then "" else votedFor m in
    let grant := isVoter m (vq_CandidateID req)
                 && (bool_decide (effVotedFor = "")
                     || bool_decide (effVotedFor = vq_CandidateID req)) in
    if grant then
      let '(ok, m) := saveState termToUse (vq_CandidateID req) m in
      if negb ok then (refuse m, m)
      else
        let m := adoptVote termToUse (vq_CandidateID req) m in
        ({| vr_Term := currentTerm m; vr_Granted := true;
            vr_VoterID := ID (self m) |}, m)
    else if newer then
      let '(ok, m) := saveState (vq_Term req) "" m in
      if negb ok then (refuse m, m)
      else let m := adoptVote (vq_Term req) "" m in (refuse m, m)
    else (refuse m, m).

(** ** heartbeat.go and membership.go: the follower's side *)

(** Voters and self are never discovery candidates. *)
Definition dropVoterCandidates (m : Manager) : Manager :=
  m <| candidates := filter (fun p => ~ (p.1 = ID (self m) \/ isVoter m p.1 = true))
                       (candidates m) |>.

(** A node that was a voter and no longer is abandons any candidacy. *)
Definition demoteIfRemoved (wasVoter : bool) (m : Manager) : Manager :=
  if wasVoter && negb (selfIsVoter m)
  then m <| role := RoleFollower |> <| votesFrom := None |>
  else m.

Definition adoptMembership (newM : Membership) (m : Manager) : bool * Manager :=
  let '(ok, m) :=
    Save {| ps_CurrentTerm := currentTerm m; ps_VotedFor := votedFor m;
            ps_Membership := Some (Clone newM) |} m in
  if negb ok then (false, m)
  else
    (true, dropVoterCandidates
             (demoteIfRemoved (selfIsVoter m) (m <| membership := Clone newM |>))).

(** The first half of [onHeartbeat]: adopt a higher term (the save may fail), the
    leader and its view. *)
Definition adoptHeartbeatTerm (term : Term) (m : Manager) : Manager :=
  if (currentTerm m <? term)%N then
    let '(_, m) := saveState term "" m in
    m <| currentTerm := term |> <| votedFor := "" |>
  else m.

Definition cacheView (v : option ClusterView) (m : Manager) : Manager :=
  match v with
  | Some v => m <| cachedView := Some (copyView v) |> <| cachedViewAt := Now m |>
  | None => m
  end.

Definition acceptLeader (req : HeartbeatRequest) (m : Manager) : Manager :=
  cacheView (hq_View req)
    (m <| role := RoleFollower |>
       <| leaderID := hq_LeaderID req |>
       <| lastLeaderContact := Now m |>).

(** The membership half: [acked] is what becomes the response's OK. *)
Definition acceptMembership (newM : option Membership) (m : Manager)
  : bool * Manager :=
  match newM with
  | Some newM =>
      if discoveryMode m && Supersedes newM (membership m)
      then adoptMembership newM m
      else (true, m)
  | None => (true, m)
  end.

Definition onHeartbeat (req : HeartbeatRequest) (m : Manager)
  : HeartbeatResponse * Manager :=
  if (hq_Term req <? currentTerm m)%N then
    ({| hr_Term := currentTerm m; hr_OK := false; hr_NodeID := ID (self m) |}, m)
  else
    let m := acceptLeader req (adoptHeartbeatTerm (hq_Term req) m) in
    let '(acked, m) := acceptMembership (hq_Membership req) m in
    let m := publish (armElection m) in
    ({| hr_Term := currentTerm m; hr_OK := acked; hr_NodeID := ID (self m) |}, m).

(** The liveness half of [onHeartbeatResult]: any response counts, OK or not. *)
Definition recordContact (e : heartbeatResultMsg) (m : Manager) : Manager :=
  let id := ID (hrm_peer e) in
  if isVoter m id then
    m <| lastContact ::= insert id (hrm_sentAt e) |>
      <| latencyMS ::= insert id (hrm_rtt e) |>
  else match candidates m !! id with
       | Some c =>
           m <| candidates ::= insert id (c <| c_lastContact := hrm_sentAt e |>) |>
       | None => m
       end.

Definition recordAck (e : heartbeatResultMsg) (m : Manager) : Manager :=
  let id := ID (hrm_peer e) in
  if isVoter m id && discoveryMode m
     && newerAck (ackOf m id) (hrm_mversion e) (hrm_mterm e)
  then m <| ackedVersion ::= insert id
              {| ack_version := hrm_mversion e; ack_term := hrm_mterm e |} |>
  else m.

Definition onHeartbeatResult (e : heartbeatResultMsg) (m : Manager) : Manager :=
  if negb (bool_decide (role m = RoleLeader)
           && bool_decide (hrm_term e = currentTerm m)) then m
  else match hrm_resp e with
       | None => m
       | Some resp =>
           if (currentTerm m <? hr_Term resp)%N then stepDown (hr_Term resp) m
           else
             let m := recordContact e m in
             if negb (hr_OK resp) then publish m
             else
               driveMembership (publish (recordAck e m))
       end.

(** ** membership.go: discovery *)

(** The fate of one candidate in [maintainDiscovery]. *)
Definition maintainCandidate (m : Manager) (at_ : Time.t) (id : NodeID)
  (c : candidate) : option candidate :=
  if decide (id = ID (self m) \/ isVoter m id = true) then None
  else if negb (inRoster c) && negb (Time.IsZero (absentSince c))
          && (JoinStability (cfg m) <=? Time.Sub at_ (absentSince c))%Z
  then None
  else if inRoster c && verified c then
    if Time.IsZero (eligibleSince c)
    then Some (c <| eligibleSince := at_ |>) else Some c
  else Some (c <| eligibleSince := 0%Z |>).

Definition needsProbe (c : candidate) : bool :=
  inRoster c && negb (probing c) && negb (verified c).

Definition probeCandidates (m : Manager) : Manager :=
  let probed := filter (fun c => needsProbe c = true)
                  (map_to_list (candidates m)).*2 in
  let m := m <| candidates ::= fmap (fun c =>
                  if needsProbe c then c <| probing := true |> else c) |> in
  foldl (fun acc c => spawnRPC (IdentifyRPC (node c)) acc) m probed.

Definition maintainDiscovery (at_ : Time.t) (m : Manager) : Manager :=
  probeCandidates
    (m <| candidates := map_imap (maintainCandidate m at_) (candidates m) |>).

(** [present[n.ID] = n] for each roster entry: the last duplicate wins. *)
Definition presentNodes (r : Roster) : gmap NodeID Node :=
  foldl (fun acc n => <[ ID n := n ]> acc) ∅ (Nodes r).

Definition newCandidate (n : Node) : candidate :=
  {| node := n; inRoster := false; absentSince := 0%Z; verified := false;
     eligibleSince := 0%Z; c_lastContact := 0%Z; probing := false |}.

Definition refreshCandidate (oc : option candidate) (n : Node) : candidate :=
  let c := default (newCandidate n) oc in
  let c := c <| node := n |> in
  let c :=
    if inRoster c then c
    else c <| inRoster := true |> <| verified := false |>
           <| eligibleSince := 0%Z |> in
  c <| absentSince := 0%Z |>.

Definition markAbsent (present : gmap NodeID Node) (at_ : Time.t) (id : NodeID)
  (c : candidate) : candidate :=
  if decide (present !! id = None /\ inRoster c = true)
  then c <| inRoster := false |> <| absentSince := at_ |>
         <| eligibleSince := 0%Z |>
  else c.

(** Add or refresh a candidate per non-voter, non-self roster entry, then mark
    the tracked candidates that are gone. *)
Definition reconcileRoster (r : Roster) (at_ : Time.t) (m : Manager)
  : gmap NodeID candidate :=
  let present := presentNodes r in
  let entering :=
    map_imap (fun id n =>
                if decide (id = ID (self m) \/ isVoter m id = true) then None
                else Some (refreshCandidate (candidates m !! id) n)) present in
  map_imap (fun id c => Some (markAbsent present at_ id c))
    (entering ∪ candidates m).

(** [if m.role == warden.RoleLeader { m.maybeStartMembershipChange() }]. *)
Definition driveIfLeader (m : Manager) : Manager :=
  if decide (role m = RoleLeader) then maybeStartMembershipChange m else m.

Definition onRoster (r : Roster) (m : Manager) : Manager :=
  let m := m <| lastRoster := r |>
             <| haveRoster := true |>
             <| candidates := reconcileRoster r (Now m) m |> in
  driveIfLeader (maintainDiscovery (Now m) m).

(** Does the identify response name this cluster and this node? *)
Definition identityMatches (c : Config) (id : NodeID)
  (resp : option IdentifyResponse) : bool :=
  match resp with
  | Some resp => bool_decide (ir_ClusterID resp = ClusterID c
                              /\ ir_NodeID resp = id)
  | None => false
  end.

Definition confirm (at_ : Time.t) (c : candidate) : candidate :=
  c <| probing := false |> <| verified := true |> <| c_lastContact := at_ |>
    <| eligibleSince ::= fun e =>
         if inRoster c && Time.IsZero e then at_ else e |>.

Definition onIdentifyResult (e : identifyResultMsg) (m : Manager) : Manager :=
  let id := ID (irm_node e) in
  match candidates m !! id with
  | None => m
  | Some c =>
      if negb (identityMatches (cfg m) id (irm_resp e)) then
        m <| candidates ::= insert id
               (c <| probing := false |> <| verified := false |>
                  <| eligibleSince := 0%Z |>) |>
      else
        driveIfLeader (m <| candidates ::= insert id (confirm (Now m) c) |>)
  end.

Definition onHeartbeatTick (m : Manager) : Manager :=
  let m := if discoveryMode m then maintainDiscovery (Now m) m else m in
  if negb (bool_decide (role m = RoleLeader)) then m
  else driveMembership (sendHeartbeats m).

(** ** manager.go: the loop *)

Definition HandleIdentify (m : Manager) : IdentifyResponse :=
  {| ir_ClusterID := ClusterID (cfg m); ir_NodeID := ID (self m);
     ir_Version := BuildVersion (cfg m) |}.

(** The receive [<-m.electionTimer.C]. *)
Definition receiveTimer (m : Manager) : Manager :=
  m <| electionTimer ::= fun t => {| fired := None; armed := armed t |} |>.

(** [Run]'s select and [handleEvent], for an event that is ready. *)
Definition handleEvent (ev : event) (m : Manager) : reply * Manager :=
  match ev with
  | EvVote req => let '(r, m) := onVote req m in (VoteReply r, m)
  | EvHeartbeat req => let '(r, m) := onHeartbeat req m in (HeartbeatReply r, m)
  | EvVoteResult e => (NoReply, onVoteResult e m)
  | EvHeartbeatResult e => (NoReply, onHeartbeatResult e m)
  | EvIdentifyResult e => (NoReply, onIdentifyResult e m)
  | EvView => (ViewReply (snapshotView m), m)
  | EvSubscribe buf => let '(id, m) := onSubscribe buf m in (SubscribeReply id, m)
  | EvUnsubscribe id => (NoReply, onUnsubscribe id m)
  | EvRoster r => (NoReply, if rosterCh m then onRoster r m else m)
  | EvRosterClosed => (NoReply, m <| rosterCh := false |>)
  | EvElectionTimer =>
      (NoReply, onElectionTimeout (receiveTimer m))
  | EvHeartbeatTicker => (NoReply, onHeartbeatTick m)
  | EvPublishTicker => (NoReply, publish m)
  end.

(** One turn of the loop: the clock reads [at_], the store will behave as
    [script] says and the generator will draw [rand]. A panicked loop handles
    nothing. *)
Record input := mkInput {
  in_now : Time.t;
  in_saves : list SaveOutcome;
  in_draws : list Z;
  in_event : event;
}.

Definition load (i : input) (m : Manager) : Manager :=
  m <| env := {| now := in_now i; disk := disk (env m); saves := in_saves i;
                 draws := in_draws i; outbox := [] |} |>.

Definition step (i : input) (m : Manager) : reply * Manager :=
  if panicked m then (NoReply, m <| env ::= fun e => e <| outbox := [] |> |>) else handleEvent (in_event i) (load i m).

(** ** config.go: construction *)

Inductive config_error :=
| ErrNoTransport | ErrNoStore | ErrNoClock
| ErrNoSelf | ErrNoPeers | ErrSelfMissing (id : NodeID) | ErrDuplicate (id : NodeID)
| ErrLoad.

Definition positive_or (d dflt : Time.Duration) : Time.Duration :=
  if (d <=? 0)%Z then dflt else d.

Definition applyDefaults (c : Config) : Config :=
  let c := c <| HeartbeatInterval ::= fun d => positive_or d Time.Second |> in
  let c := c <| SuspectAfter ::= fun d => positive_or d (5 * Time.Second)%Z |> in
  let c := c <| DeadAfter ::= fun d => positive_or d (15 * Time.Second)%Z |> in
  let c := c <| ElectionTimeoutMin ::=
                  fun d => positive_or d (1500 * Time.Millisecond)%Z |> in
  let c := c <| ElectionTimeoutMax ::=
                  fun d => positive_or d (3 * Time.Second)%Z |> in
  let c :=
    if (ElectionTimeoutMax c <=? ElectionTimeoutMin c)%Z then
      c <| ElectionTimeoutMax :=
             i64_wrap (ElectionTimeoutMin c + ElectionTimeoutMin c ÷ 2) |>
    else c in
  let c := c <| RPCTimeout ::=
                  fun d => positive_or d (500 * Time.Millisecond)%Z |> in
  let c := c <| ClusterID ::=
                  fun s => if decide (s = "") then "candacenet" else s |> in
  let c := c <| ViewFreshFor ::= fun d => positive_or d (DeadAfter c) |> in
  c <| JoinStability ::= fun d => positive_or d (30 * Time.Second)%Z |>.

(** The scan of [cfg.Peers]: the first duplicate, or whether Self was found. *)
Fixpoint scanPeers (self_ : NodeID) (seen : gset NodeID) (found : bool)
  (ps : list Node) : result config_error bool :=
  match ps with
  | [] => Ok found
  | p :: ps =>
      if decide (ID p ∈ seen) then Err (ErrDuplicate (ID p))
      else scanPeers self_ ({[ ID p ]} ∪ seen)
             (found || bool_decide (ID p = self_)) ps
  end.

(** [tr], [st] and [clock] say which interface arguments are non-nil. *)
Definition validateConfig (c : Config) (tr st clock : bool)
  : result config_error unit :=
  guard! tr else ErrNoTransport in
  guard! st else ErrNoStore in
  guard! clock else ErrNoClock in
  guard! negb (bool_decide (ID (Self c) = "")) else ErrNoSelf in
  guard! negb (bool_decide (Peers c = [])) else ErrNoPeers in
  let! found := scanPeers (ID (Self c)) ∅ false (Peers c) in
  guard! found || Discoverer c else ErrSelfMissing (ID (Self c)) in
  Ok tt.

Definition seedMembership (c : Config) (ps : option PersistentState)
  : Membership :=
  let peers := SortNodes (Peers c) in
  if Discoverer c then
    match ps with
    | Some {| ps_Membership := Some pm |} =>
        let pm := Clone pm in
        {| Version := Version pm; CreatedInTerm := CreatedInTerm pm;
           Voters := SortNodes (Voters pm) |}
    | _ => {| Version := 1%N; CreatedInTerm := 0%N; Voters := peers |}
    end
  else {| Version := 0%N; CreatedInTerm := 0%N; Voters := peers |}.

(** [NewManager]; [loaded] is what [st.Load()] returned, [None] for an error. *)
Definition NewManager (c : Config) (tr st clock : bool)
  (loaded : option (option PersistentState)) : result config_error Manager :=
  let! _ := validateConfig c tr st clock in
  let c := applyDefaults c in
  match loaded with
  | None => Err ErrLoad
  | Some ps =>
      Ok {| cfg := c;
            self := Self c;
            discoveryMode := Discoverer c;
            membership := seedMembership c ps;
            currentTerm := default 0%N (ps_CurrentTerm <$> ps);
            votedFor := default "" (ps_VotedFor <$> ps);
            role := RoleFollower;
            leaderID := "";
            electionDeadline := 0%Z;
            electionsStarted := 0%N;
            votesFrom := None;
            becameLeaderAt := 0%Z;
            lastContact := ∅;
            latencyMS := ∅;
            lastRoster := {| Nodes := [] |};
            haveRoster := false;
            candidates := ∅;
            ackedVersion := ∅;
            rosterCh := false;
            cachedView := None;
            cachedViewAt := 0%Z;
            lastLeaderContact := 0%Z;
            electionTimer := {| fired := None; armed := None |};
            subs := ∅;
            nextSubID := 0;
            panicked := false;
            env := {| now := 0%Z; disk := ps; saves := []; draws := [];
                      outbox := [] |} |}
  end.

(** [Run] before its loop: open the roster channel ([discovered]: the
    discoverer did not fail) and arm the election timer. *)
Definition boot (at_ : Time.t) (rand : list Z) (discovered : bool) (m : Manager)
  : Manager :=
  let m := m <| env := {| now := at_; disk := disk (env m); saves := [];
                          draws := rand; outbox := [] |} |> in
  let m := m <| rosterCh := discoveryMode m && discovered |> in
  let '(timeout, m) := randTimeout m in
  let m := m <| electionDeadline := Time.Add at_ timeout |> in
  m <| electionTimer := {| fired := None; armed := Some (Time.Add at_ timeout) |} |>.
