(* ===== verification/WardenSpec.v ===== *)
(** * What the election machine promises: the abstract vote machine

    [vstate] is the part of a node that election safety depends on, [vstep] the
    only ways it may change.  [step_refines] shows that every turn of the event
    loop of [WardenElection] is a sequence of such changes: the refinement that
    the cluster-wide theorems of [WardenCluster] are proved against. *)

From S2P Require Import Prelude.
From S2P Require Import WardenTypes.
From S2P Require Import WardenManager.
From S2P Require Import WardenElection.

(** ** The abstract machine *)

Record vstate := mkVstate {
  v_me : NodeID;
  v_disc : bool;
  v_term : Term;
  v_vote : NodeID;
  v_role : Role;
  v_leader : NodeID;
  v_votes : option (gset NodeID);
  v_members : Membership;
  v_disk : option PersistentState;
  v_panicked : bool;
}.
#[export] Instance Rebuild_vstate : Rebuild vstate := fun s =>
  mkVstate (v_me s) (v_disc s) (v_term s) (v_vote s) (v_role s) (v_leader s)
    (v_votes s) (v_members s) (v_disk s) (v_panicked s).

Definition abs (m : Manager) : vstate :=
  {| v_me := ID (self m);
     v_disc := discoveryMode m;
     v_term := currentTerm m;
     v_vote := votedFor m;
     v_role := role m;
     v_leader := leaderID m;
     v_votes := votesFrom m;
     v_members := membership m;
     v_disk := disk (env m);
     v_panicked := panicked m |}.

(** [(t, v)] can be replaced by [(t', v')] without breaking a promise: a later
    term, or the same term where no vote was cast or the same one was. *)
Definition vote_le (a b : Term * NodeID) : Prop :=
  (a.1 < b.1)%N \/ (a.1 = b.1 /\ (a.2 = "" \/ a.2 = b.2)).

Definition ps_vote (ps : PersistentState) : Term * NodeID :=
  (ps_CurrentTerm ps, ps_VotedFor ps).
Definition v_ballot (s : vstate) : Term * NodeID := (v_term s, v_vote s).

(** The disk after a [Save] of [ps] that reported failure. *)
Definition maybe_saved (ps : PersistentState) (s : vstate)
  (d : option PersistentState) : Prop :=
  d = v_disk s \/ d = Some ps.

(** One voter added, or one removed. *)
Definition one_change (V V' : list Node) : Prop :=
  (exists n, V' ≡ₚ V ++ [n])
  \/ (exists n, n ∈ V /\ V' = filter (fun v => ID v <> ID n) V).

(** [M] is the next membership a leader in state [s] may mint. *)
Definition minted (s : vstate) (M : Membership) : Prop :=
  Version M = u64_add (Version (v_members s)) 1
  /\ CreatedInTerm M = v_term s
  /\ one_change (Voters (v_members s)) (Voters M).

Inductive vstep (ev : event) (s s' : vstate) : Prop :=
| vs_save_failed ps d :
    vote_le (v_ballot s) (ps_vote ps) ->
    maybe_saved ps s d ->
    s' = s <| v_disk := d |> ->
    vstep ev s s'
| vs_campaign ps :
    ev = EvElectionTimer ->
    v_role s <> RoleLeader ->
    (v_term s < max_uint64)%N ->
    (v_disc s = true -> HasVoter (v_members s) (v_me s) = true) ->
    ps_vote ps = (u64_add (v_term s) 1, v_me s) ->
    s' = s <| v_disk := Some ps |> <| v_term := u64_add (v_term s) 1 |>
           <| v_vote := v_me s |> <| v_role := RoleCandidate |>
           <| v_leader := "" |> <| v_votes := Some {[ v_me s ]} |> ->
    vstep ev s s'
| vs_tally e resp votes :
    ev = EvVoteResult e ->
    vrm_resp e = Some resp -> vr_Granted resp = true ->
    vrm_term e = v_term s ->
    v_role s = RoleCandidate ->
    HasVoter (v_members s) (vrm_from e) = true ->
    v_votes s = Some votes ->
    s' = s <| v_votes := Some ({[ vrm_from e ]} ∪ votes) |> ->
    vstep ev s s'
| vs_win votes :
    v_role s = RoleCandidate ->
    v_votes s = Some votes ->
    Quorum (length (Voters (v_members s))) <= size votes ->
    s' = s <| v_role := RoleLeader |> <| v_leader := v_me s |> ->
    vstep ev s s'
| vs_grant req ps :
    ev = EvVote req ->
    (v_disc s = true -> HasVoter (v_members s) (v_me s) = true) ->
    HasVoter (v_members s) (vq_CandidateID req) = true ->
    vote_le (v_ballot s) (vq_Term req, vq_CandidateID req) ->
    ps_vote ps = (vq_Term req, vq_CandidateID req) ->
    s' = s <| v_disk := Some ps |> <| v_term := vq_Term req |>
           <| v_vote := vq_CandidateID req |> <| v_role := RoleFollower |>
           <| v_leader := "" |> ->
    vstep ev s s'
| vs_adopt_term t ps d :
    ev <> EvElectionTimer ->
    (v_term s < t)%N ->
    ps_vote ps = (t, "") ->
    maybe_saved ps s d ->
    s' = s <| v_disk := d |> <| v_term := t |> <| v_vote := "" |>
           <| v_role := RoleFollower |> <| v_leader := "" |> ->
    vstep ev s s'
| vs_follow req :
    ev = EvHeartbeat req ->
    hq_Term req = v_term s ->
    s' = s <| v_role := RoleFollower |> <| v_leader := hq_LeaderID req |> ->
    vstep ev s s'
| vs_reconfigure ps M :
    v_role s = RoleLeader -> v_disc s = true ->
    ps_vote ps = v_ballot s -> ps_Membership ps = Some M ->
    minted s M ->
    s' = s <| v_disk := Some ps |> <| v_members := M |> ->
    vstep ev s s'
| vs_install req ps M votes :
    ev = EvHeartbeat req -> hq_Membership req = Some M ->
    v_role s = RoleFollower -> v_disc s = true ->
    Supersedes M (v_members s) = true ->
    ps_vote ps = v_ballot s -> ps_Membership ps = Some M ->
    votes = v_votes s \/ votes = None ->
    s' = s <| v_disk := Some ps |> <| v_members := M |> <| v_votes := votes |> ->
    vstep ev s s'
| vs_panic :
    v_role s = RoleCandidate -> v_votes s = None ->
    s' = s <| v_panicked := true |> ->
    vstep ev s s'.

(** ** The order on ballots *)

#[global] Instance vote_le_preorder : PreOrder vote_le.
Proof.
  split; unfold vote_le.
  - intros [t v]; simpl. auto.
  - intros [t1 v1] [t2 v2] [t3 v3]; simpl.
    intros [H1|[-> H1]] [H2|[-> H2]]; [left; lia..|right]. naive_solver.
Qed.

Lemma vote_le_term a b : vote_le a b -> (a.1 <= b.1)%N.
Proof. unfold vote_le. lia. Qed.

Lemma vote_le_later t v t' v' : (t < t')%N -> vote_le (t, v) (t', v').
Proof. left. done. Qed.

Lemma vote_le_same t v v' : v <> "" -> vote_le (t, v) (t, v') -> v = v'.
Proof. unfold vote_le; simpl. intros ? [?|[_ [?|?]]]; [lia|done|done]. Qed.

(** ** Frames: what leaves the abstract state alone *)

Lemma abs_spawnRPC r m : abs (spawnRPC r m) = abs m.
Proof. done. Qed.

Lemma abs_foldl_spawn {A} (f : A -> rpc) l m :
  abs (foldl (fun acc x => spawnRPC (f x) acc) m l) = abs m.
Proof. revert m. induction l; simpl; intros; [done|]. by rewrite IHl. Qed.

Lemma abs_sendHeartbeats m : abs (sendHeartbeats m) = abs m.
Proof. apply abs_foldl_spawn. Qed.

Lemma abs_publish m : abs (publish m) = abs m.
Proof. unfold publish. by case_decide. Qed.

Lemma abs_resetElectionTimer d m : abs (resetElectionTimer d m) = abs m.
Proof. done. Qed.

Lemma randTimeout_abs m : abs (randTimeout m).2 = abs m.
Proof. unfold randTimeout. by case_match. Qed.

Lemma abs_rearm m : abs (rearmElectionTimer m) = abs m.
Proof.
  unfold rearmElectionTimer. pose proof (randTimeout_abs m).
  by destruct (randTimeout m).
Qed.

Lemma abs_armElection m : abs (armElection m) = abs m.
Proof.
  unfold armElection. pose proof (randTimeout_abs m).
  by destruct (randTimeout m).
Qed.

Lemma abs_probeCandidates m : abs (probeCandidates m) = abs m.
Proof. unfold probeCandidates. by rewrite abs_foldl_spawn. Qed.

Lemma abs_maintainDiscovery t m : abs (maintainDiscovery t m) = abs m.
Proof. unfold maintainDiscovery. by rewrite abs_probeCandidates. Qed.

Lemma abs_recordContact e m : abs (recordContact e m) = abs m.
Proof. unfold recordContact. by repeat case_match. Qed.

Lemma abs_resetAcks m : abs (resetAcks m) = abs m.
Proof. unfold resetAcks. by case_match. Qed.

Lemma abs_solicitVotes m : abs (solicitVotes m) = abs m.
Proof. unfold solicitVotes. by rewrite abs_foldl_spawn. Qed.

Lemma abs_recordAck e m : abs (recordAck e m) = abs m.
Proof. unfold recordAck. by case_match. Qed.

Create Rewrite HintDb abs.
#[export] Hint Rewrite abs_sendHeartbeats abs_publish abs_resetElectionTimer
  abs_rearm abs_armElection abs_probeCandidates abs_maintainDiscovery
  abs_recordContact abs_recordAck abs_resetAcks abs_solicitVotes @abs_foldl_spawn : abs.

(** A field read through [abs] is the field of the abstract state. *)
Lemma abs_fields m m' :
  abs m = abs m' ->
  ID (self m) = ID (self m') /\ discoveryMode m = discoveryMode m'
  /\ currentTerm m = currentTerm m' /\ votedFor m = votedFor m'
  /\ role m = role m' /\ leaderID m = leaderID m'
  /\ votesFrom m = votesFrom m' /\ membership m = membership m'
  /\ disk (env m) = disk (env m') /\ panicked m = panicked m'.
Proof. intros H. by injection H. Qed.

(** The whole effect of a [Save]. *)
Lemma Save_spec ps m ok m' :
  Save ps m = (ok, m') ->
  exists e, m' = m <| env := e |>
    /\ now e = now (env m) /\ outbox e = outbox (env m)
    /\ (if ok then disk e = Some ps else maybe_saved ps (abs m) (disk e)).
Proof.
  unfold Save, maybe_saved. intros H.
  destruct (default SaveDurable (head (saves (env m)))); simplify_eq;
    eexists; (split; [reflexivity|]); simpl; auto.
Qed.

(** ** Refinement *)

Ltac save_step H :=
  let e := fresh "e" in let Hnow := fresh "Hnow" in
  let Hout := fresh "Hout" in let Hdisk := fresh "Hdisk" in
  apply Save_spec in H as (e & -> & Hnow & Hout & Hdisk).

Lemma rtc_eq {A} (R : relation A) x y : x = y -> rtc R x y.
Proof. intros ->. done. Qed.

Lemma applyMembershipChange_refines ev newM target m :
  role m = RoleLeader -> discoveryMode m = true -> minted (abs m) newM ->
  rtc (vstep ev) (abs m) (abs (applyMembershipChange newM target m)).
Proof.
  intros Hr Hd Hn. unfold applyMembershipChange.
  destruct (Save _ m) as [ok m1] eqn:HS. save_step HS. destruct ok; simpl in *.
  - autorewrite with abs. apply rtc_once.
    eapply vs_reconfigure; [done..| | | |]; [..|unfold abs; simpl; rewrite Hdisk; reflexivity].
    + done.
    + simpl. by rewrite Clone_id.
    + by rewrite Clone_id.
  - apply rtc_once. eapply vs_save_failed; [|exact Hdisk|reflexivity].
    unfold ps_vote, v_ballot; simpl. reflexivity.
Qed.

Lemma minted_admitted m n : minted (abs m) (admitted m n).
Proof.
  split; [done|]. split; [done|]. left. exists n. unfold admitted, SortNodes; simpl.
  apply sort_by_perm.
Qed.

Lemma nextRemoval_voter m n : nextRemoval m = Some n -> n ∈ Voters (membership m).
Proof.
  unfold nextRemoval. repeat case_match; try done.
  intros [Hn _]%least_by_Some. by apply list_elem_of_filter in Hn as [_ ?].
Qed.

Lemma minted_removed m n : n ∈ Voters (membership m) -> minted (abs m) (removed m n).
Proof. intros Hn. split; [done|]. split; [done|]. right. by exists n. Qed.

Lemma maybeStartMembershipChange_refines ev m :
  rtc (vstep ev) (abs m) (abs (maybeStartMembershipChange m)).
Proof.
  unfold maybeStartMembershipChange.
  destruct (discoveryMode m) eqn:Hd; simpl; [|done].
  destruct (decide (role m = RoleLeader)) as [Hr|Hr]; simpl;
    [rewrite bool_decide_true by done|rewrite bool_decide_false by done; done].
  simpl. repeat case_match; try done; apply applyMembershipChange_refines;
    auto using minted_admitted, minted_removed, nextRemoval_voter.
Qed.

Lemma driveMembership_refines ev m :
  rtc (vstep ev) (abs m) (abs (driveMembership m)).
Proof.
  unfold driveMembership. case_match; [|done].
  apply maybeStartMembershipChange_refines.
Qed.

Lemma driveIfLeader_refines ev m :
  rtc (vstep ev) (abs m) (abs (driveIfLeader m)).
Proof.
  unfold driveIfLeader. case_decide; [|done].
  apply maybeStartMembershipChange_refines.
Qed.

(** What the drivers do after [f m], when [f] leaves the abstract state alone. *)
Lemma after_frame ev s m m' :
  abs m' = s -> rtc (vstep ev) (abs m') (abs m) -> rtc (vstep ev) s (abs m).
Proof. by intros <-. Qed.

Lemma becomeLeader_refines ev votes m :
  role m = RoleCandidate -> votesFrom m = Some votes ->
  quorum m <= size votes ->
  rtc (vstep ev) (abs m) (abs (becomeLeader m)).
Proof.
  intros Hr Hv Hq. unfold becomeLeader.
  eapply rtc_l; [eapply (vs_win _ _ _ votes); [done..|reflexivity]|].
  eapply after_frame; [|apply driveMembership_refines].
  by autorewrite with abs.
Qed.

Lemma winIfQuorum_refines ev votes m :
  role m = RoleCandidate -> votesFrom m = Some votes ->
  rtc (vstep ev) (abs m) (abs (winIfQuorum m)).
Proof.
  intros Hr Hv. unfold winIfQuorum. destruct (_ <=? _) eqn:E; [|done].
  apply Nat.leb_le in E. rewrite Hv in E. by eapply becomeLeader_refines.
Qed.

Lemma not_observer m :
  isObserver m = false -> discoveryMode m = true ->
  HasVoter (membership m) (ID (self m)) = true.
Proof.
  unfold isObserver. intros H Hd. rewrite Hd in H. simpl in H.
  by apply negb_false_iff in H.
Qed.

Lemma startElection_refines m :
  (currentTerm m < max_uint64)%N -> role m <> RoleLeader ->
  rtc (vstep EvElectionTimer) (abs m) (abs (startElection m)).
Proof.
  intros Ht Hl. unfold startElection. destruct (isObserver m) eqn:Ho.
  { by rewrite abs_rearm. }
  destruct (saveState _ _ m) as [ok m1] eqn:HS. save_step HS.
  destruct ok; simpl in *.
  - eapply rtc_l.
    + eapply (vs_campaign _ _ _ (mkPersistentState _ _ _));
        [done|done|done|by apply not_observer|reflexivity|reflexivity].
    + eapply after_frame; [|eapply winIfQuorum_refines].
      * autorewrite with abs. unfold abs; simpl. by rewrite Hdisk.
      * change (role ?x) with (v_role (abs x)). by autorewrite with abs.
      * change (votesFrom ?x) with (v_votes (abs x)). by autorewrite with abs.
  - rewrite abs_rearm. apply rtc_once.
    eapply vs_save_failed; [|exact Hdisk|reflexivity].
    unfold ps_vote, v_ballot; simpl. apply vote_le_later.
    rewrite u64_add_no_overflow; lia.
Qed.

Lemma onElectionTimeout_refines m :
  (currentTerm m < max_uint64)%N ->
  rtc (vstep EvElectionTimer) (abs m) (abs (onElectionTimeout m)).
Proof.
  intros Ht. unfold onElectionTimeout. case_decide; [by rewrite abs_rearm|].
  destruct (isObserver m); [by rewrite abs_rearm|].
  case_match; [by rewrite abs_resetElectionTimer|by apply startElection_refines].
Qed.

Lemma stepDown_refines ev t m :
  ev <> EvElectionTimer -> (currentTerm m < t)%N ->
  rtc (vstep ev) (abs m) (abs (stepDown t m)).
Proof.
  intros Hev Ht. unfold stepDown.
  destruct (saveState _ _ m) as [ok m1] eqn:HS. save_step HS.
  unfold adoptVote. autorewrite with abs. apply rtc_once.
  eapply (vs_adopt_term _ _ _ t (mkPersistentState _ _ _) (disk e)); [done|done| | |reflexivity].
  - reflexivity.
  - destruct ok; [by right|done].
Qed.

Lemma onVoteResult_refines e m :
  rtc (vstep (EvVoteResult e)) (abs m) (abs (onVoteResult e m)).
Proof.
  unfold onVoteResult.
  destruct (decide (role m = RoleCandidate)) as [Hr|Hr];
    [rewrite (bool_decide_true (role m = _)) by done
    |rewrite (bool_decide_false (role m = _)) by done; done].
  case_bool_decide as Ht; simpl; [|done].
  destruct (vrm_resp e) as [resp|] eqn:Hresp; [|done].
  destruct (_ <? _)%N eqn:Hlt; [by apply stepDown_refines; [|apply N.ltb_lt]|].
  destruct (vr_Granted resp) eqn:Hg; simpl; [|done].
  destruct (isVoter m (vrm_from e)) eqn:Hv; simpl; [|done].
  destruct (votesFrom m) as [votes|] eqn:Hvotes.
  - eapply rtc_l.
    + eapply (vs_tally _ _ _ e resp votes); [done..|reflexivity].
    + eapply after_frame; [|eapply winIfQuorum_refines; [done|reflexivity]]. reflexivity.
  - apply rtc_once. eapply vs_panic; [done|done|]. unfold abs; simpl. by rewrite Hvotes.
Qed.

Lemma onVote_refines req m :
  rtc (vstep (EvVote req)) (abs m) (abs (onVote req m).2).
Proof.
  unfold onVote. destruct (isObserver m) eqn:Ho; [done|].
  destruct (_ <? _)%N eqn:Hold; [done|]. apply N.ltb_ge in Hold.
  destruct (currentTerm m <? vq_Term req)%N eqn:Hnew; simpl.
  - apply N.ltb_lt in Hnew.
    rewrite andb_true_r. destruct (isVoter m _) eqn:Hv.
    + destruct (saveState _ _ m) as [ok m1] eqn:HS. save_step HS.
      destruct ok; simpl in *.
      * unfold adoptVote. autorewrite with abs. apply rtc_once.
        eapply (vs_grant _ _ _ req (mkPersistentState _ _ _)); [done|by apply not_observer|done| |reflexivity|].
        { by apply vote_le_later. }
        unfold abs; simpl. by rewrite Hdisk.
      * apply rtc_once. eapply vs_save_failed; [|exact Hdisk|reflexivity].
        by apply vote_le_later.
    + destruct (saveState _ _ m) as [ok m1] eqn:HS. save_step HS.
      destruct ok; simpl in *.
      * unfold adoptVote. autorewrite with abs. apply rtc_once.
        eapply (vs_adopt_term _ _ _ (vq_Term req) (mkPersistentState _ _ _)); [done|done|reflexivity|by right|].
        unfold abs; simpl. by rewrite Hdisk.
      * apply rtc_once. eapply vs_save_failed; [|exact Hdisk|reflexivity].
        by apply vote_le_later.
  - apply N.ltb_ge in Hnew. assert (vq_Term req = currentTerm m) as Ht by lia.
    destruct (isVoter m _ && _) eqn:Hg; [|done].
    apply andb_true_iff in Hg as [Hv Hg].
    rewrite orb_true_iff, !bool_decide_eq_true in Hg.
    assert (vote_le (v_ballot (abs m)) (vq_Term req, vq_CandidateID req)) as Hle
      by (right; done).
    destruct (saveState _ _ m) as [ok m1] eqn:HS. save_step HS.
    destruct ok; simpl in *.
    + unfold adoptVote. autorewrite with abs. apply rtc_once.
      eapply (vs_grant _ _ _ req (mkPersistentState _ _ _)); [done|by apply not_observer|done|done| |].
      { unfold ps_vote; simpl. by rewrite Ht. }
      unfold abs; simpl. by rewrite Hdisk, Ht.
    + apply rtc_once. eapply vs_save_failed; [|exact Hdisk|reflexivity].
      unfold ps_vote; simpl. by rewrite <-Ht.
Qed.

Lemma abs_dropVoterCandidates m : abs (dropVoterCandidates m) = abs m.
Proof. done. Qed.

Lemma abs_cacheView v m : abs (cacheView v m) = abs m.
Proof. by destruct v. Qed.

#[export] Hint Rewrite abs_dropVoterCandidates abs_cacheView : abs.

Lemma abs_demoteIfRemoved was m :
  abs (demoteIfRemoved was m) =
    if was && negb (selfIsVoter m)
    then (abs m) <| v_role := RoleFollower |> <| v_votes := None |> else abs m.
Proof. unfold demoteIfRemoved. by case_match. Qed.

Lemma adoptMembership_refines req newM m :
  hq_Membership req = Some newM ->
  role m = RoleFollower -> discoveryMode m = true ->
  Supersedes newM (membership m) = true ->
  rtc (vstep (EvHeartbeat req)) (abs m) (abs (adoptMembership newM m).2).
Proof.
  intros Hreq Hr Hd Hs. unfold adoptMembership.
  destruct (Save _ m) as [ok m1] eqn:HS. save_step HS. apply rtc_once.
  destruct ok; simpl in *.
  - rewrite abs_dropVoterCandidates, abs_demoteIfRemoved.
    case_match;
      (eapply (vs_install _ _ _ req (mkPersistentState _ _ _) newM);
        [done|done|done|done|done|reflexivity|reflexivity| |]);
      [by right| |by left|]; unfold abs; simpl;
      by rewrite Hdisk, !Clone_id, ?Hr.
  - eapply vs_save_failed; [|exact Hdisk|reflexivity]. reflexivity.
Qed.

Lemma acceptMembership_refines req m :
  role m = RoleFollower ->
  rtc (vstep (EvHeartbeat req)) (abs m)
    (abs (acceptMembership (hq_Membership req) m).2).
Proof.
  intros Hr. unfold acceptMembership.
  destruct (hq_Membership req) as [newM|] eqn:Hm; [|done].
  case_match; [|done].
  match goal with H : _ && _ = true |- _ => apply andb_true_iff in H as [? ?] end.
  by apply adoptMembership_refines.
Qed.

Lemma adoptHeartbeatTerm_refines ev t m :
  let m' := adoptHeartbeatTerm t m in
  ev <> EvElectionTimer -> (currentTerm m <= t)%N ->
  exists s, rtc (vstep ev) (abs m) s /\ currentTerm m' = t
    /\ forall l, (abs m') <| v_role := RoleFollower |> <| v_leader := l |>
                 = s <| v_role := RoleFollower |> <| v_leader := l |>.
Proof.
  intros m' Hev Ht. subst m'. unfold adoptHeartbeatTerm. destruct (_ <? _)%N eqn:E.
  - apply N.ltb_lt in E. destruct (saveState _ _ m) as [ok m1] eqn:HS. save_step HS.
    exists ((abs m) <| v_disk := disk e |> <| v_term := t |> <| v_vote := "" |>
                    <| v_role := RoleFollower |> <| v_leader := "" |>).
    split; [|split; [reflexivity|reflexivity]]. apply rtc_once.
    eapply (vs_adopt_term _ _ _ t (mkPersistentState _ _ _) (disk e));
      [done|done|reflexivity| |reflexivity].
    destruct ok; [by right|done].
  - apply N.ltb_ge in E. exists (abs m). split; [done|]. split; [lia|done].
Qed.

Lemma onHeartbeat_refines req m :
  rtc (vstep (EvHeartbeat req)) (abs m) (abs (onHeartbeat req m).2).
Proof.
  unfold onHeartbeat. destruct (_ <? _)%N eqn:Hold; [done|]. apply N.ltb_ge in Hold.
  destruct (adoptHeartbeatTerm_refines (EvHeartbeat req) (hq_Term req) m ltac:(done) Hold)
    as (s & Hs & Hterm & Habs).
  set (m1 := adoptHeartbeatTerm _ _) in *. clearbody m1.
  assert (abs (acceptLeader req m1)
          = s <| v_role := RoleFollower |> <| v_leader := hq_LeaderID req |>) as Ha.
  { unfold acceptLeader. rewrite abs_cacheView, <-Habs. done. }
  assert (rtc (vstep (EvHeartbeat req)) (abs m) (abs (acceptLeader req m1))) as Hr.
  { etrans; [exact Hs|]. rewrite Ha. apply rtc_once.
    eapply vs_follow; [done| |done]. rewrite <-Hterm.
    pose proof (f_equal v_term (Habs "")) as Ht. exact Ht. }
  assert (role (acceptLeader req m1) = RoleFollower) as Hf
    by exact (f_equal v_role Ha).
  pose proof (acceptMembership_refines req _ Hf) as Hm.
  destruct (acceptMembership _ _) as [acked m2]; simpl in *.
  autorewrite with abs. by etrans.
Qed.

Lemma onHeartbeatResult_refines e m :
  rtc (vstep (EvHeartbeatResult e)) (abs m) (abs (onHeartbeatResult e m)).
Proof.
  unfold onHeartbeatResult. case_match; [done|].
  destruct (hrm_resp e) as [resp|]; [|done].
  destruct (_ <? _)%N eqn:Hlt; [by apply stepDown_refines; [|apply N.ltb_lt]|].
  case_match.
  - apply rtc_eq. by autorewrite with abs.
  - eapply after_frame; [|apply driveMembership_refines]. by autorewrite with abs.
Qed.

Lemma onRoster_refines r ev m : rtc (vstep ev) (abs m) (abs (onRoster r m)).
Proof.
  unfold onRoster. eapply after_frame; [|apply driveIfLeader_refines].
  by autorewrite with abs.
Qed.

Lemma onIdentifyResult_refines e ev m :
  rtc (vstep ev) (abs m) (abs (onIdentifyResult e m)).
Proof.
  unfold onIdentifyResult. destruct (candidates m !! _); [|done].
  case_match; [done|].
  eapply after_frame; [|apply driveIfLeader_refines]. done.
Qed.

Lemma onHeartbeatTick_refines ev m :
  rtc (vstep ev) (abs m) (abs (onHeartbeatTick m)).
Proof.
  unfold onHeartbeatTick.
  set (m1 := if discoveryMode m then _ else m).
  assert (abs m1 = abs m) as E by (unfold m1; case_match; by autorewrite with abs).
  rewrite <-E. clearbody m1. case_match; [done|].
  eapply after_frame; [|apply driveMembership_refines]. by autorewrite with abs.
Qed.

Lemma handleEvent_refines ev m :
  (currentTerm m < max_uint64)%N ->
  rtc (vstep ev) (abs m) (abs (handleEvent ev m).2).
Proof.
  intros Ht. destruct ev; simpl.
  - pose proof (onVote_refines req m). by destruct (onVote req m).
  - pose proof (onHeartbeat_refines req m). by destruct (onHeartbeat req m).
  - apply onVoteResult_refines.
  - apply onHeartbeatResult_refines.
  - apply onIdentifyResult_refines.
  - done.
  - done.
  - done.
  - case_match; [apply onRoster_refines|done].
  - done.
  - change (abs m) with (abs (receiveTimer m)). by apply onElectionTimeout_refines.
  - apply onHeartbeatTick_refines.
  - apply rtc_eq. by rewrite abs_publish.
Qed.

(** Helper for every client: one turn of the loop refines the vote machine. *)
Lemma step_vsteps i m :
  (currentTerm m < max_uint64)%N ->
  rtc (vstep (in_event i)) (abs m) (abs (step i m).2).
Proof.
  intros Ht. unfold step. destruct (panicked m); [done|].
  change (abs m) with (abs (load i m)). by apply handleEvent_refines.
Qed.

(** ** What a turn sends *)

(** A vote request names its sender as the candidate; a heartbeat is only sent
    by the leader of the term it carries. *)
Definition rpc_ok (s : vstate) (r : rpc) : Prop :=
  match r with
  | RequestVoteRPC _ req term =>
      vq_Term req = term /\ vq_CandidateID req = v_me s
  | SendHeartbeatRPC _ req term _ _ =>
      v_role s = RoleLeader /\ hq_Term req = v_term s /\ term = v_term s
      /\ hq_LeaderID req = v_me s
  | IdentifyRPC _ => True
  end.

Definition sent_ok (m : Manager) : Prop :=
  Forall (rpc_ok (abs m)) (outbox (env m)).

Lemma sent_ok_frame m m' :
  abs m' = abs m -> outbox (env m') = outbox (env m) -> sent_ok m -> sent_ok m'.
Proof. unfold sent_ok. by intros -> ->. Qed.

Lemma outbox_publish m : outbox (env (publish m)) = outbox (env m).
Proof. unfold publish. by case_decide. Qed.

Lemma outbox_randTimeout m : outbox (env (randTimeout m).2) = outbox (env m).
Proof. unfold randTimeout. by case_match. Qed.

Lemma outbox_rearm m : outbox (env (rearmElectionTimer m)) = outbox (env m).
Proof.
  unfold rearmElectionTimer. pose proof (outbox_randTimeout m).
  by destruct (randTimeout m).
Qed.

Lemma outbox_armElection m : outbox (env (armElection m)) = outbox (env m).
Proof.
  unfold armElection. pose proof (outbox_randTimeout m).
  by destruct (randTimeout m).
Qed.

Lemma outbox_resetAcks m : outbox (env (resetAcks m)) = outbox (env m).
Proof. unfold resetAcks. by case_match. Qed.

Lemma outbox_recordContact e m :
  outbox (env (recordContact e m)) = outbox (env m).
Proof. unfold recordContact. by repeat case_match. Qed.

Lemma outbox_recordAck e m : outbox (env (recordAck e m)) = outbox (env m).
Proof. unfold recordAck. by case_match. Qed.

Lemma outbox_foldl_spawn {A} (f : A -> rpc) l m :
  outbox (env (foldl (fun acc x => spawnRPC (f x) acc) m l))
  = outbox (env m) ++ (f <$> l).
Proof.
  revert m. induction l as [|x l IH]; intros m; simpl; [by rewrite app_nil_r|].
  rewrite IH. simpl. by rewrite <-app_assoc.
Qed.

Create Rewrite HintDb outbox.
#[export] Hint Rewrite outbox_publish outbox_rearm outbox_armElection
  outbox_resetAcks outbox_recordContact outbox_recordAck : outbox.

Lemma sendHeartbeats_sent m :
  role m = RoleLeader -> sent_ok m -> sent_ok (sendHeartbeats m).
Proof.
  unfold sent_ok. intros Hr Hs. rewrite abs_sendHeartbeats.
  unfold sendHeartbeats. rewrite outbox_foldl_spawn. apply Forall_app. split; [done|].
  apply Forall_fmap, Forall_true. intros p; simpl. done.
Qed.

Lemma publish_sent m : sent_ok m -> sent_ok (publish m).
Proof. apply sent_ok_frame; by autorewrite with abs outbox. Qed.

Lemma maybeStartMembershipChange_sent m :
  sent_ok m -> sent_ok (maybeStartMembershipChange m).
Proof.
  intros Hs. unfold maybeStartMembershipChange.
  destruct (decide (role m = RoleLeader)) as [Hr|Hr];
    [rewrite bool_decide_true by done
    |rewrite bool_decide_false, orb_true_r by done; done].
  assert (forall M n, sent_ok (applyMembershipChange M n m)) as Ha.
  { intros M n. unfold applyMembershipChange.
    destruct (Save _ m) as [ok m1] eqn:HS. save_step HS.
    destruct ok; unfold sent_ok in *; simpl in *.
    - apply sendHeartbeats_sent; [|apply publish_sent]; unfold sent_ok; simpl.
      + unfold publish. by case_decide.
      + by rewrite Hout.
    - by rewrite Hout. }
  repeat case_match; done.
Qed.

Lemma driveMembership_sent m : sent_ok m -> sent_ok (driveMembership m).
Proof.
  unfold driveMembership. case_match; [apply maybeStartMembershipChange_sent|done].
Qed.

Lemma driveIfLeader_sent m : sent_ok m -> sent_ok (driveIfLeader m).
Proof.
  unfold driveIfLeader. case_decide; [apply maybeStartMembershipChange_sent|done].
Qed.

Lemma becomeLeader_sent m :
  role m = RoleCandidate -> sent_ok m -> sent_ok (becomeLeader m).
Proof.
  intros Hr Hs. unfold becomeLeader. apply driveMembership_sent.
  apply sendHeartbeats_sent.
  - unfold publish, resetAcks. repeat case_match; done.
  - apply publish_sent. unfold sent_ok.
    rewrite abs_resetAcks, outbox_resetAcks. simpl.
    eapply Forall_impl; [exact Hs|]. intros [|? ? ? ? ?|]; simpl; [done| |done].
    rewrite Hr. by intros [? _].
Qed.

Lemma winIfQuorum_sent m :
  role m = RoleCandidate -> sent_ok m -> sent_ok (winIfQuorum m).
Proof. unfold winIfQuorum. case_match; [apply becomeLeader_sent|done]. Qed.

Lemma solicitVotes_sent m : sent_ok m -> sent_ok (solicitVotes m).
Proof.
  unfold sent_ok. intros Hs. rewrite abs_solicitVotes. unfold solicitVotes.
  rewrite outbox_foldl_spawn. apply Forall_app. split; [done|].
  by apply Forall_fmap, Forall_true.
Qed.

(** Handlers that send nothing. *)
Lemma stepDown_quiet t m : outbox (env (stepDown t m)) = outbox (env m).
Proof.
  unfold stepDown. destruct (saveState _ _ m) eqn:HS. save_step HS.
  unfold adoptVote. by autorewrite with outbox.
Qed.

Lemma onVote_quiet req m : outbox (env (onVote req m).2) = outbox (env m).
Proof.
  unfold onVote, adoptVote.
  repeat first [progress autorewrite with outbox | case_match]; simpl; try done;
    match goal with H : saveState _ _ _ = _ |- _ => save_step H end;
    by autorewrite with outbox.
Qed.

Lemma onHeartbeat_quiet req m :
  outbox (env (onHeartbeat req m).2) = outbox (env m).
Proof.
  unfold onHeartbeat. case_match; [done|].
  set (m1 := acceptLeader req _).
  assert (outbox (env m1) = outbox (env m)) as <-.
  { unfold m1, acceptLeader, cacheView, adoptHeartbeatTerm.
    repeat case_match; simpl; try done;
      match goal with H : saveState _ _ _ = _ |- _ => save_step H end; done. }
  clearbody m1. unfold acceptMembership, adoptMembership.
  repeat case_match; simplify_eq/=; autorewrite with outbox; try done;
    match goal with H : Save _ _ = _ |- _ => save_step H end; simpl;
    unfold demoteIfRemoved; by repeat case_match.
Qed.

Lemma maintainDiscovery_sent t m : sent_ok m -> sent_ok (maintainDiscovery t m).
Proof.
  unfold sent_ok. intros Hs. rewrite abs_maintainDiscovery.
  unfold maintainDiscovery, probeCandidates. rewrite outbox_foldl_spawn.
  apply Forall_app. split; [done|]. by apply Forall_fmap, Forall_true.
Qed.

Lemma handleEvent_sent ev m :
  outbox (env m) = [] -> sent_ok (handleEvent ev m).2.
Proof.
  intros H0. assert (sent_ok m) as Hs by (unfold sent_ok; by rewrite H0).
  assert (forall m', outbox (env m') = outbox (env m) -> sent_ok m') as Hquiet
    by (intros m' E; unfold sent_ok; by rewrite E, H0).
  destruct ev; simpl; try by apply Hquiet.
  - pose proof (onVote_quiet req m). destruct (onVote req m). by apply Hquiet.
  - pose proof (onHeartbeat_quiet req m). destruct (onHeartbeat req m). by apply Hquiet.
  - unfold onVoteResult.
    destruct (decide (role m = RoleCandidate)) as [Hr|Hr];
      [rewrite (bool_decide_true (role m = _)) by done
      |rewrite (bool_decide_false (role m = _)) by done; done].
    repeat (case_match; try done); try by apply Hquiet.
    + apply Hquiet, stepDown_quiet.
    + by apply winIfQuorum_sent.
  - unfold onHeartbeatResult. repeat (case_match; try done).
    + apply Hquiet, stepDown_quiet.
    + apply Hquiet. by autorewrite with outbox.
    + apply driveMembership_sent, Hquiet. by autorewrite with outbox.
  - unfold onIdentifyResult. repeat (case_match; try done).
    apply driveIfLeader_sent. by apply Hquiet.
  - case_match; [|done]. unfold onRoster.
    apply driveIfLeader_sent, maintainDiscovery_sent. by apply Hquiet.
  - unfold onElectionTimeout, startElection.
    repeat (case_match; try done); try (apply Hquiet; by autorewrite with outbox);
      match goal with H : saveState _ _ _ = _ |- _ => save_step H end; simpl in *.
    + apply Hquiet. autorewrite with outbox. simpl. by rewrite Hout.
    + apply winIfQuorum_sent.
      * change (role ?x) with (v_role (abs x)). by autorewrite with abs.
      * apply solicitVotes_sent, Hquiet. autorewrite with outbox. simpl. by rewrite Hout.
  - unfold onHeartbeatTick. set (m1 := if discoveryMode m then _ else m).
    assert (sent_ok m1) by (unfold m1; case_match; [by apply maintainDiscovery_sent|done]).
    clearbody m1. case_match; [done|].
    apply driveMembership_sent, sendHeartbeats_sent; [|done].
    by apply negb_false_iff, bool_decide_eq_true in H1.
  - by apply publish_sent.
Qed.

(** Helper: every RPC a turn spawns is well-formed for the state it leaves. *)
Lemma step_sent i m : sent_ok (step i m).2.
Proof.
  unfold step. destruct (panicked m); [by apply Forall_nil|].
  by apply handleEvent_sent.
Qed.
