(* ===== verification/WardenCluster.v ===== *)
(** * A cluster of election Managers

    The nodes of one cluster, the RPCs in flight between them and the results
    their workers deliver, with every fault the code guards against: messages
    are never removed from the network, so they may be delayed, duplicated,
    reordered or lost; an RPC may fail or answer the shutdown fallback of
    [HandleVote] / [HandleHeartbeat]; a [Save] may fail with the old or the new
    file on disk; a node may stop at any point and restart from its disk.  Two
    history variables make statements about the past possible: [ballots], every
    (node, term, vote) a node ever held, and [wins], every election won with the
    membership and the votes that won it.

    The theorems at the end are the point of the whole design: two elections
    won in one term under memberships whose majorities meet are the same
    election, and the negative result for memberships that have drifted two
    changes apart. *)

From S2P Require Import Prelude.
From S2P Require Import WardenTypes.
From S2P Require Import WardenManager.
From S2P Require Import WardenElection.
From S2P Require Import WardenSpec.

(** ** State and actions *)

Inductive packet :=
| Request (src : NodeID) (r : rpc)
| Result (dst : NodeID) (ev : event).

Record win := mkWin {
  w_term : Term;
  w_leader : NodeID;
  w_members : Membership;
  w_votes : gset NodeID;
}.

Record cluster := mkCluster {
  nodes : gmap NodeID Manager;
  net : list packet;
  ballots : gset (NodeID * (Term * NodeID));
  wins : list win;
}.
#[export] Instance Rebuild_cluster : Rebuild cluster := fun c =>
  mkCluster (nodes c) (net c) (ballots c) (wins c).

(** Clock reading, store script and draws of one turn. *)
Record surroundings := mkSurroundings {
  at_time : Time.t;
  store_script : list SaveOutcome;
  rng_draws : list Z;
}.

Inductive action :=
| ALocal (i : NodeID) (s : surroundings) (ev : event)
| ADeliver (k : nat) (s : surroundings) (sentAt : Time.t) (rtt : Time.Duration)
| AFail (k : nat) (fallback : bool)
| ARestart (i : NodeID) (s : surroundings) (discovered : bool).

(** The loop events that do not come from the network: timers, tickers,
    queries and the discovery source. *)
Definition local_event (ev : event) : bool :=
  match ev with
  | EvElectionTimer | EvHeartbeatTicker | EvPublishTicker | EvView
  | EvSubscribe _ | EvUnsubscribe _ | EvRoster _ | EvRosterClosed => true
  | _ => false
  end.

Definition hold (i : NodeID) (m : Manager) (c : cluster) : cluster :=
  c <| nodes := <[ i := m ]> (nodes c) |>
    <| ballots := {[ (i, v_ballot (abs m)) ]} ∪ ballots c |>.

Definition newly_leader (m m' : Manager) : bool :=
  bool_decide (role m' = RoleLeader)
  && negb (bool_decide (role m = RoleLeader /\ currentTerm m = currentTerm m')).

Definition record_win (i : NodeID) (m m' : Manager) (ws : list win) : list win :=
  if newly_leader m m' then
    {| w_term := currentTerm m'; w_leader := i; w_members := membership m;
       w_votes := default ∅ (votesFrom m') |} :: ws
  else ws.

(** One turn of node [i]'s loop; the RPCs it spawned enter the network. *)
Definition turn (i : NodeID) (s : surroundings) (ev : event) (c : cluster)
  : option (reply * cluster) :=
  m ← nodes c !! i;
  let '(r, m') :=
    step {| in_now := at_time s; in_saves := store_script s;
            in_draws := rng_draws s; in_event := ev |} m in
  Some (r, (hold i m' c)
             <| net := net c ++ (Request i <$> outbox (env m')) |>
             <| wins := record_win i m m' (wins c) |>).

Definition post (p : packet) (c : cluster) : cluster :=
  c <| net := net c ++ [p] |>.

Definition vote_result (p : Node) (term : Term) (r : option VoteResponse) : event :=
  EvVoteResult {| vrm_term := term; vrm_from := ID p; vrm_resp := r |}.

Definition heartbeat_result (p : Node) (term : Term) (mv : N) (mt : Term)
  (sentAt : Time.t) (rtt : Time.Duration) (r : option HeartbeatResponse) : event :=
  EvHeartbeatResult
    {| hrm_term := term; hrm_peer := p; hrm_resp := r; hrm_sentAt := sentAt;
       hrm_rtt := rtt; hrm_mversion := mv; hrm_mterm := mt |}.

(** The worker of [src]'s RPC [r]: call the peer, deliver its answer. *)
Definition call (src : NodeID) (r : rpc) (s : surroundings) (sentAt : Time.t)
  (rtt : Time.Duration) (c : cluster) : option cluster :=
  match r with
  | RequestVoteRPC p req term =>
      '(rep, c') ← turn (ID p) s (EvVote req) c;
      match rep with
      | VoteReply resp =>
          Some (post (Result src (vote_result p term (Some resp))) c')
      | _ => Some c'
      end
  | SendHeartbeatRPC p req term mv mt =>
      '(rep, c') ← turn (ID p) s (EvHeartbeat req) c;
      match rep with
      | HeartbeatReply resp =>
          Some (post (Result src
                  (heartbeat_result p term mv mt sentAt rtt (Some resp))) c')
      | _ => Some c'
      end
  | IdentifyRPC p =>
      m ← nodes c !! ID p;
      Some (post (Result src (EvIdentifyResult
              {| irm_node := p; irm_resp := Some (HandleIdentify m) |})) c)
  end.

(** What the worker delivers when the call fails, or when the peer shut down
    before its loop answered. *)
Definition failure (r : rpc) (fallback : bool) : event :=
  match r with
  | RequestVoteRPC p _ term =>
      vote_result p term
        (if fallback
         then Some {| vr_Term := 0%N; vr_Granted := false; vr_VoterID := ID p |}
         else None)
  | SendHeartbeatRPC p _ term mv mt =>
      heartbeat_result p term mv mt 0%Z 0%Z
        (if fallback
         then Some {| hr_Term := 0%N; hr_OK := false; hr_NodeID := ID p |}
         else None)
  | IdentifyRPC p => EvIdentifyResult {| irm_node := p; irm_resp := None |}
  end.

Section cluster.
Variable conf : gmap NodeID Config.

(** A process that finds [ps] on disk: [NewManager], then [Run] up to its
    loop. *)
Definition start (i : NodeID) (ps : option PersistentState) (s : surroundings)
  (discovered : bool) : option Manager :=
  cf ← conf !! i;
  match NewManager cf true true true (Some ps) with
  | Ok m => Some (boot (at_time s) (rng_draws s) discovered m)
  | Err _ => None
  end.

Definition act (a : action) (c : cluster) : option cluster :=
  match a with
  | ALocal i s ev =>
      if local_event ev then snd <$> turn i s ev c else None
  | ADeliver k s sentAt rtt =>
      match net c !! k with
      | Some (Request src r) => call src r s sentAt rtt c
      | Some (Result dst ev) => snd <$> turn dst s ev c
      | None => None
      end
  | AFail k fallback =>
      match net c !! k with
      | Some (Request src r) => Some (post (Result src (failure r fallback)) c)
      | _ => None
      end
  | ARestart i s discovered =>
      m ← nodes c !! i;
      m' ← start i (disk (env m)) s discovered;
      Some (hold i m' c)
  end.

Definition boot_time : surroundings :=
  {| at_time := 0%Z; store_script := []; rng_draws := [] |}.

(** Every configured node on its first boot, with an empty disk. *)
Definition init_cluster : cluster :=
  {| nodes := map_imap (fun i _ => start i None boot_time true) conf;
     net := []; ballots := ∅; wins := [] |}.

(** No node is at the last [uint64] term. *)
Definition terms_left (c : cluster) : Prop :=
  forall i m, nodes c !! i = Some m -> (currentTerm m < max_uint64)%N.
Definition terms_leftb (c : cluster) : bool :=
  forallb (fun p => currentTerm p.2 <? max_uint64)%N (map_to_list (nodes c)).

(** Run a script of actions; [None] when one is not enabled. *)
Fixpoint run (l : list action) (c : cluster) : option cluster :=
  match l with
  | [] => Some c
  | a :: l => if terms_leftb c then c' ← act a c; run l c' else None
  end.

(** The states reachable while no election can wrap the term around. *)
Inductive reachable : cluster -> Prop :=
| r_init : reachable init_cluster
| r_act c a c' :
    reachable c -> terms_left c -> act a c = Some c' -> reachable c'.
End cluster.

(** ** Specifications *)

(** Every majority of [A] meets every majority of [B]. *)
Definition majorities_meet (A B : Membership) : Prop :=
  size (voter_ids A ∪ voter_ids B)
  < Quorum (length (Voters A)) + Quorum (length (Voters B)).

(** [B] is [A] with one voter added, as the leader's driver mints it. *)
Definition one_added (A B : Membership) (n : Node) : Prop :=
  Voters B ≡ₚ Voters A ++ [n].

Definition conf_ok (conf : gmap NodeID Config) : Prop :=
  forall i c, conf !! i = Some c -> ID (Self c) = i.

(** Every node runs in static mode with the same peers. *)
Definition static_conf (conf : gmap NodeID Config) (peers : list Node) : Prop :=
  forall i c, conf !! i = Some c -> Discoverer c = false /\ Peers c = peers.

(** ** The invariant *)

Definition won (ws : list win) (t : Term) (l : NodeID) : Prop :=
  exists w, w ∈ ws /\ w_term w = t /\ w_leader w = l.

Definition held (s : vstate) (b : Term * NodeID) : Prop :=
  vote_le b (v_ballot s)
  /\ exists ps, v_disk s = Some ps /\ vote_le b (ps_vote ps).

(** What is true of node [i] between and during turns, given the ballots [B]
    ever held and the elections [W] ever won. *)
Record node_inv (B : gset (NodeID * (Term * NodeID))) (W : list win)
  (i : NodeID) (s : vstate) : Prop := {
  ni_me : v_me s = i;
  ni_running : v_role s = RoleCandidate \/ v_role s = RoleLeader ->
    v_vote s = i /\ exists V, v_votes s = Some V /\
      forall v, v ∈ V -> v = i \/ (v, (v_term s, i)) ∈ B;
  ni_candidate : v_role s = RoleCandidate ->
    v_leader s = "" /\
    forall V, v_votes s = Some V -> V ⊆ voter_ids (v_members s);
  ni_leader : v_role s = RoleLeader -> v_leader s = i;
  ni_held : forall b, (i, b) ∈ B -> b.2 <> "" -> held s b;
  ni_durable : v_vote s <> "" -> held s (v_ballot s);
  ni_voter : v_disc s = false -> i ∈ voter_ids (v_members s);
  ni_follow : v_role s = RoleFollower -> v_leader s <> "" ->
    won W (v_term s) (v_leader s);
  ni_calm : v_panicked s = false;
  ni_role : v_role s = RoleFollower \/ v_role s = RoleCandidate
            \/ v_role s = RoleLeader;
}.

(** What the network guarantees about an event it delivers to [i]. *)
Definition evidence (B : gset (NodeID * (Term * NodeID))) (W : list win)
  (i : NodeID) (ev : event) : Prop :=
  match ev with
  | EvVoteResult e =>
      forall resp, vrm_resp e = Some resp -> vr_Granted resp = true ->
        (vrm_from e, (vrm_term e, i)) ∈ B
  | EvHeartbeat req => won W (hq_Term req) (hq_LeaderID req)
  | _ => True
  end.

Definition packet_ok (B : gset (NodeID * (Term * NodeID))) (W : list win)
  (p : packet) : Prop :=
  match p with
  | Request src (RequestVoteRPC _ req term) =>
      vq_Term req = term /\ vq_CandidateID req = src
  | Request src (SendHeartbeatRPC _ req _ _ _) =>
      won W (hq_Term req) (hq_LeaderID req)
  | Request _ (IdentifyRPC _) => True
  | Result dst ev => evidence B W dst ev
  end.

Definition win_ok (B : gset (NodeID * (Term * NodeID))) (w : win) : Prop :=
  w_leader w <> ""
  /\ w_votes w ⊆ voter_ids (w_members w)
  /\ Quorum (length (Voters (w_members w))) <= size (w_votes w)
  /\ forall v, v ∈ w_votes w -> (v, (w_term w, w_leader w)) ∈ B.

Record cluster_inv (c : cluster) : Prop := {
  ci_node : forall i m, nodes c !! i = Some m ->
    i <> "" /\ node_inv (ballots c) (wins c) i (abs m)
    /\ (role m = RoleLeader -> won (wins c) (currentTerm m) i);
  ci_net : forall p, p ∈ net c -> packet_ok (ballots c) (wins c) p;
  ci_win : forall w, w ∈ wins c -> win_ok (ballots c) w;
  ci_ballot : forall v t a b, (v, (t, a)) ∈ ballots c -> (v, (t, b)) ∈ ballots c ->
    a <> "" -> b <> "" -> a = b;
}.

(** *** Monotonicity in the history *)

Lemma won_mono W W' t l : W ⊆ W' -> won W t l -> won W' t l.
Proof. intros HW (w & Hw & ?). exists w. split; [by apply HW|done]. Qed.

Lemma evidence_mono B B' W W' i ev :
  B ⊆ B' -> W ⊆ W' -> evidence B W i ev -> evidence B' W' i ev.
Proof. intros HB HW. destruct ev; simpl; eauto using won_mono. Qed.

Lemma packet_ok_mono B B' W W' p :
  B ⊆ B' -> W ⊆ W' -> packet_ok B W p -> packet_ok B' W' p.
Proof.
  intros HB HW. destruct p as [src []|]; simpl; eauto using won_mono, evidence_mono.
Qed.

Lemma win_ok_mono B B' w : B ⊆ B' -> win_ok B w -> win_ok B' w.
Proof. intros HB (? & ? & ? & ?). repeat split; eauto. Qed.

Lemma node_inv_mono B W W' i s : W ⊆ W' -> node_inv B W i s -> node_inv B W' i s.
Proof. intros HW []. constructor; eauto using won_mono. Qed.

(** Another node's ballots do not concern [i]. *)
Lemma node_inv_ballots B j b W i s :
  i <> j \/ held s b -> node_inv B W i s -> node_inv ({[ (j, b) ]} ∪ B) W i s.
Proof.
  intros Hj []. constructor; try done.
  - intros Hr. destruct (ni_running0 Hr) as (? & V & ? & HV).
    split; [done|]. exists V. split; [done|]. intros v Hv.
    destruct (HV v Hv); [by left|right]. by apply elem_of_union_r.
  - intros b' [[= -> ->]%elem_of_singleton|?]%elem_of_union; [|by eauto].
    destruct Hj; done.
Qed.

(** *** Steps of the vote machine *)

Lemma held_ballot_le s s' b :
  held s b ->
  vote_le (v_ballot s) (v_ballot s') ->
  (v_disk s' = v_disk s \/
   exists ps, v_disk s' = Some ps /\ vote_le (v_ballot s) (ps_vote ps)) ->
  held s' b.
Proof.
  intros [Hle (ps & Hps & Hdisk)] Hmem Hd.
  split; [etrans; [exact Hle|exact Hmem]|].
  destruct Hd as [->|(ps' & -> & ?)]; [by exists ps|exists ps'].
  split; [done|]. etrans; [exact Hle|done].
Qed.

(** Ballots only move forward, and so does whatever a step leaves on disk. *)
Lemma vstep_forward ev s s' :
  vstep ev s s' ->
  vote_le (v_ballot s) (v_ballot s')
  /\ (v_disk s' = v_disk s \/
      exists ps, v_disk s' = Some ps /\ vote_le (v_ballot s) (ps_vote ps)).
Proof.
  destruct 1 as
    [ps d Hle [->| ->] ->|ps _ _ Ht _ Hps ->|? ? ? _ _ _ _ _ _ _ ->|? _ _ _ ->
    |req ps _ _ _ Hle Hps ->|t ps d _ Ht Hps [->| ->] ->|? _ _ ->
    |ps M _ _ Hps _ _ ->|req ps M ? _ _ _ _ _ Hps _ _ ->|_ _ ->];
    (split; simpl; [try reflexivity|try by left]).
  - right. eauto.
  - by apply vote_le_later, u64_succ_lt.
  - right. eexists. split; [done|]. rewrite Hps.
    by apply vote_le_later, u64_succ_lt.
  - done.
  - right. eexists. split; [done|]. by rewrite Hps.
  - by apply vote_le_later.
  - by apply vote_le_later.
  - right. eexists. split; [done|]. rewrite Hps. by apply vote_le_later.
  - right. eexists. split; [done|]. by rewrite Hps.
  - right. eexists. split; [done|]. by rewrite Hps.
Qed.

Lemma vstep_held ev s s' b : vstep ev s s' -> held s b -> held s' b.
Proof. intros [??]%vstep_forward Hb. by eapply held_ballot_le. Qed.

(** A step that casts a vote has it on disk first. *)
Lemma vstep_cast ev s s' :
  vstep ev s s' ->
  v_ballot s' = v_ballot s \/ v_vote s' = "" \/
  exists ps, v_disk s' = Some ps /\ ps_vote ps = v_ballot s'.
Proof.
  destruct 1 as
    [ps d Hle [->| ->] ->|ps _ _ Ht _ Hps ->|? ? ? _ _ _ _ _ _ _ ->|? _ _ _ ->
    |req ps _ _ _ Hle Hps ->|t ps d _ Ht Hps [->| ->] ->|? _ _ ->
    |ps M _ _ Hps _ _ ->|req ps M ? _ _ _ _ _ Hps _ _ ->|_ _ ->]; simpl; eauto.
Qed.

Lemma vstep_durable ev s s' :
  vstep ev s s' ->
  (v_vote s <> "" -> held s (v_ballot s)) -> v_vote s' <> "" ->
  held s' (v_ballot s').
Proof.
  intros Hstep Hs Hv. destruct (vstep_cast _ _ _ Hstep) as [E|[E|(ps & Hd & E)]].
  - rewrite E. eapply vstep_held; [done|]. apply Hs.
    apply (f_equal snd) in E. simpl in E. by rewrite <-E.
  - done.
  - split; [done|]. exists ps. by rewrite E.
Qed.

Lemma vstep_identity ev s s' :
  vstep ev s s' ->
  v_me s' = v_me s /\ v_disc s' = v_disc s
  /\ (v_disc s = false -> v_members s' = v_members s).
Proof. destruct 1; subst s'; simpl; repeat split; congruence. Qed.

Lemma vstep_running B W i ev s s' :
  node_inv B W i s -> evidence B W i ev -> vstep ev s s' ->
  v_role s' = RoleCandidate \/ v_role s' = RoleLeader ->
  v_vote s' = i /\ exists V, v_votes s' = Some V /\
    forall v, v ∈ V -> v = i \/ (v, (v_term s', i)) ∈ B.
Proof.
  intros [me run _ _ _ _ _ _ _ _] Hev Hstep.
  destruct Hstep as
    [? ? _ _ ->|? _ _ _ _ _ ->|e resp V Eev He Hg Ht Hr _ HV ->|V Hr HV _ ->
    |? ? _ _ _ _ _ ->|? ? ? _ _ _ _ ->|? _ _ ->|? ? Hr _ _ _ _ ->
    |? ? ? ? _ _ Hr _ _ _ _ Hvs ->|Hr HV ->]; simpl; try done;
    try (by intros [?|?]).
  - intros _. split; [done|]. eexists. split; [done|].
    intros v ->%elem_of_singleton. by left.
  - intros _. destruct run as (Hvote & V' & HV' & Hin); [by left|]. simplify_eq.
    split; [done|]. eexists. split; [done|].
    intros v [->%elem_of_singleton|?]%elem_of_union; [|by eauto].
    right. rewrite <-Ht. by eapply (Hev resp).
  - intros _. apply run. by left.
  - intros [E|E]; by rewrite Hr in E.
Qed.

Lemma vstep_candidate B W i ev s s' :
  node_inv B W i s -> vstep ev s s' -> v_role s' = RoleCandidate ->
  v_leader s' = "" /\
  forall V, v_votes s' = Some V -> V ⊆ voter_ids (v_members s').
Proof.
  intros [me _ cand _ _ _ vot _ _ _] Hstep.
  destruct Hstep as
    [? ? _ _ ->|? _ _ _ Hobs _ ->|e resp V Eev He Hg Ht Hr Hin HV ->|V Hr HV _ ->
    |? ? _ _ _ _ _ ->|? ? ? _ _ _ _ ->|? _ _ ->|? ? Hr _ _ _ _ ->
    |? ? ? ? _ _ Hr _ _ _ _ Hvs ->|Hr HV ->]; simpl; try done.
  - intros _. split; [done|]. intros V [= <-].
    apply singleton_subseteq_l. destruct (v_disc s).
    + by apply HasVoter_spec, Hobs.
    + rewrite me. by apply vot.
  - intros _. destruct (cand Hr) as [? HV']. split; [done|]. intros V0 [= <-].
    apply union_subseteq. split; [|by apply HV'].
    by apply singleton_subseteq_l, HasVoter_spec.
  - intros E. by rewrite Hr in E.
  - intros E. by rewrite Hr in E.
Qed.

Lemma vstep_follow B W i ev s s' :
  node_inv B W i s -> evidence B W i ev -> vstep ev s s' ->
  v_role s' = RoleFollower -> v_leader s' <> "" ->
  won W (v_term s') (v_leader s').
Proof.
  intros [me _ _ _ _ _ _ fol _ _] Hev Hstep.
  destruct Hstep as
    [? ? _ _ ->|? _ _ _ Hobs _ ->|e resp V Eev He Hg Ht Hr Hin HV ->|V Hr HV _ ->
    |? ? _ _ _ _ _ ->|? ? ? _ _ _ _ ->|? -> Ht ->|? ? Hr _ _ _ _ ->
    |? ? ? ? _ _ Hr _ _ _ _ Hvs ->|Hr HV ->]; simpl; try done.
  intros _ _. by rewrite <-Ht.
Qed.

Lemma vstep_leader B W i ev s s' :
  node_inv B W i s -> vstep ev s s' -> v_role s' = RoleLeader -> v_leader s' = i.
Proof.
  intros [me _ _ lead _ _ _ _ _ _] Hstep.
  destruct Hstep as
    [? ? _ _ ->|? _ _ _ Hobs _ ->|e resp V Eev He Hg Ht Hr Hin HV ->|V Hr HV _ ->
    |? ? _ _ _ _ _ ->|? ? ? _ _ _ _ ->|? -> Ht ->|? ? Hr _ _ _ _ ->
    |? ? ? ? _ _ Hr _ _ _ _ Hvs ->|Hr HV ->]; simpl; done.
Qed.

Lemma vstep_calm B W i ev s s' :
  node_inv B W i s -> vstep ev s s' -> v_panicked s' = false.
Proof.
  intros [_ run _ _ _ _ _ _ calm _] Hstep.
  destruct Hstep as
    [? ? _ _ ->|? _ _ _ Hobs _ ->|e resp V Eev He Hg Ht Hr Hin HV ->|V Hr HV _ ->
    |? ? _ _ _ _ _ ->|? ? ? _ _ _ _ ->|? -> Ht ->|? ? Hr _ _ _ _ ->
    |? ? ? ? _ _ Hr _ _ _ _ Hvs ->|Hr HV ->]; simpl; try done.
  destruct run as (_ & V & ? & _); [by left|]. congruence.
Qed.

Lemma vstep_role ev s s' :
  v_role s = RoleFollower \/ v_role s = RoleCandidate \/ v_role s = RoleLeader ->
  vstep ev s s' ->
  v_role s' = RoleFollower \/ v_role s' = RoleCandidate \/ v_role s' = RoleLeader.
Proof. intros Hr. destruct 1; subst s'; simpl; auto. Qed.

Lemma vstep_inv B W i ev s s' :
  node_inv B W i s -> evidence B W i ev -> vstep ev s s' -> node_inv B W i s'.
Proof.
  intros Hinv Hev Hstep.
  destruct (vstep_identity _ _ _ Hstep) as (Eme & Edisc & Emem).
  constructor.
  - rewrite Eme. apply Hinv.
  - by eapply vstep_running.
  - by eapply vstep_candidate.
  - by eapply vstep_leader.
  - intros b Hb Hne. eapply vstep_held; [done|]. by apply Hinv.
  - eapply vstep_durable; [done|]. apply Hinv.
  - intros Hd. rewrite Edisc in Hd. rewrite Emem by done. by apply Hinv.
  - by eapply vstep_follow.
  - by eapply vstep_calm.
  - eapply vstep_role; [by apply Hinv|done].
Qed.

Lemma vsteps_inv B W i ev s s' :
  node_inv B W i s -> evidence B W i ev -> rtc (vstep ev) s s' ->
  node_inv B W i s'.
Proof. intros Hi He. induction 1; eauto using vstep_inv. Qed.

Lemma vsteps_held ev s s' b : rtc (vstep ev) s s' -> held s b -> held s' b.
Proof. induction 1; eauto using vstep_held. Qed.

Lemma vsteps_identity ev s s' :
  rtc (vstep ev) s s' ->
  v_me s' = v_me s /\ v_disc s' = v_disc s
  /\ (v_disc s = false -> v_members s' = v_members s).
Proof.
  induction 1 as [|s1 s2 s3 H12 _ (IH1 & IH2 & IH3)]; [done|].
  destruct (vstep_identity _ _ _ H12) as (E1 & E2 & E3).
  rewrite IH1, IH2, E1, E2. repeat split. intros Hd.
  rewrite IH3, E3; congruence.
Qed.

(** A leader at the end of a turn either already led that term, or the turn
    elected it under the membership it began with. *)
Definition elected_from (s s' : vstate) : Prop :=
  exists V, v_votes s' = Some V /\ V ⊆ voter_ids (v_members s)
    /\ Quorum (length (Voters (v_members s))) <= size V.

Definition turn_inv (ev : event) (s s' : vstate) : Prop :=
  (v_role s' = RoleCandidate -> v_members s' = v_members s)
  /\ (v_role s' = RoleLeader ->
        (v_role s = RoleLeader /\ v_term s' = v_term s) \/ elected_from s s')
  /\ (ev = EvElectionTimer -> v_role s' <> RoleLeader ->
        v_members s' = v_members s).

Lemma vsteps_turn B W i ev s s' :
  node_inv B W i s -> evidence B W i ev -> rtc (vstep ev) s s' ->
  turn_inv ev s s'.
Proof.
  intros Hinv Hev Hsteps. revert Hinv.
  apply (rtc_ind_r (fun s' => node_inv B W i s -> turn_inv ev s s')) with (3 := Hsteps).
  { intros _. repeat split; auto. }
  intros s1 s2 Hs1 Hstep IH Hinv. destruct (IH Hinv) as (Hc & Hl & Ht).
  assert (node_inv B W i s1) as Hinv1 by by eapply vsteps_inv.
  unfold turn_inv, elected_from.
  destruct Hstep as
    [? ? _ _ ->|? -> Hnl _ Hobs _ ->|e resp V -> He Hg Hte Hr Hin HV ->|V Hr HV HQ ->
    |? ? -> _ _ _ _ ->|? ? ? Hne _ _ _ ->|? -> Hte ->|? ? Hr _ _ _ _ ->
    |? ? ? ? -> _ Hr _ _ _ _ Hvs ->|Hr HV ->]; simpl; try done.
  - split; [auto|]. split; [by intros|auto].
  - split; [auto|]. split; [|done]. intros E. by rewrite Hr in E.
  - split; [done|]. split; [|done]. intros _. right. exists V.
    rewrite <-(Hc Hr). split; [done|split; [|done]]. by apply Hinv1.
  - split; [intros E; by rewrite Hr in E|]. split; [done|]. intros _ E. by destruct E.
  - split; [intros E; by rewrite Hr in E|]. split; [|done].
    intros E. by rewrite Hr in E.
Qed.

(** *** Turns and actions preserve the invariant *)

Lemma onVote_granted req m r m' :
  onVote req m = (r, m') -> vr_Granted r = true ->
  v_ballot (abs m') = (vq_Term req, vq_CandidateID req)
  /\ vr_Term r = vq_Term req.
Proof.
  unfold onVote, refuse. intros H Hg.
  destruct (isObserver m); [by simplify_eq|].
  destruct (_ <? _)%N eqn:Hold in H; [by simplify_eq|]. apply N.ltb_ge in Hold.
  destruct (_ && _) in H; cycle 1.
  { repeat case_match; by simplify_eq. }
  destruct (saveState _ _ m) as [ok m1] eqn:HS. destruct ok; [|by simpl in H; simplify_eq/=].
  simpl in H. simplify_eq/=.
  assert (abs (adoptVote (if (currentTerm m <? vq_Term req)%N
      then vq_Term req else currentTerm m) (vq_CandidateID req) m1)
    = (abs m1) <| v_term := vq_Term req |> <| v_vote := vq_CandidateID req |>
               <| v_role := RoleFollower |> <| v_leader := "" |>) as E.
  { unfold adoptVote. autorewrite with abs.
    destruct (_ <? _)%N eqn:Hn; [done|]. apply N.ltb_ge in Hn.
    unfold abs; simpl. f_equal. lia. }
  split; [by rewrite E|]. exact (f_equal v_term E).
Qed.

(** Facts about one turn in a good cluster. *)
Record turn_ok (c : cluster) (i : NodeID) (ev : event) (r : reply)
  (c' : cluster) : Prop := {
  to_inv : cluster_inv c';
  to_ballots : ballots c ⊆ ballots c';
  to_wins : wins c ⊆ wins c';
  to_net : net c `prefix_of` net c';
  to_vote : forall req resp, ev = EvVote req -> r = VoteReply resp ->
    vr_Granted resp = true ->
    (i, (vq_Term req, vq_CandidateID req)) ∈ ballots c';
}.

Lemma record_win_incl i m m' ws : ws ⊆ record_win i m m' ws.
Proof. unfold record_win. case_match; [|done]. intros w Hw. by right. Qed.

(** A node's new state, with its ballot, keeps the invariant of every node. *)
Lemma hold_nodes i m' B W W' (ns : gmap NodeID Manager) :
  W ⊆ W' ->
  (forall j m, ns !! j = Some m ->
    j <> "" /\ node_inv B W j (abs m)
    /\ (role m = RoleLeader -> won W (currentTerm m) j)) ->
  i <> "" -> node_inv B W i (abs m') ->
  (role m' = RoleLeader -> won W' (currentTerm m') i) ->
  let B' := {[ (i, v_ballot (abs m')) ]} ∪ B in
  forall j m, <[ i := m' ]> ns !! j = Some m ->
    j <> "" /\ node_inv B' W' j (abs m)
    /\ (role m = RoleLeader -> won W' (currentTerm m) j).
Proof.
  intros HW Hall Hi Hinv Hl B' j m [[<- <-]|[Hne Hm]]%lookup_insert_Some.
  - split; [done|]. split; [|done].
    apply node_inv_mono with W; [done|].
    destruct (decide (votedFor m' = "")) as [E|E].
    + destruct Hinv. constructor; try done.
      * intros Hr. destruct (ni_running0 Hr) as (? & V & ? & HV).
        split; [done|]. exists V. split; [done|]. intros v Hv.
        destruct (HV v Hv); [by left|right; set_solver].
      * intros b [[= ->]%elem_of_singleton|?]%elem_of_union Hb; [done|by apply ni_held0].
    + apply node_inv_ballots; [right|done]. by apply (ni_durable _ _ _ _ Hinv).
  - destruct (Hall j m Hm) as (? & ? & Hw).
    split; [done|]. split.
    + apply node_inv_mono with W; [done|]. apply node_inv_ballots; [by left|done].
    + intros Hr. eapply won_mono; [exact HW|by apply Hw].
Qed.

Lemma hold_ballots i s B W :
  node_inv B W i s ->
  (forall v t a b, (v, (t, a)) ∈ B -> (v, (t, b)) ∈ B ->
    a <> "" -> b <> "" -> a = b) ->
  forall v t a b, (v, (t, a)) ∈ {[ (i, v_ballot s) ]} ∪ B ->
    (v, (t, b)) ∈ {[ (i, v_ballot s) ]} ∪ B -> a <> "" -> b <> "" -> a = b.
Proof.
  intros Hinv HB v t a b Ha Hb Hane Hbne.
  assert (forall x, (i, (v_term s, x)) ∈ B -> x <> "" -> x = v_vote s) as Hnew.
  { intros x Hx Hne. destruct (ni_held _ _ _ _ Hinv _ Hx Hne) as [Hle _].
    by eapply vote_le_same. }
  apply elem_of_union in Ha as [[= -> -> ->]%elem_of_singleton|Ha];
    apply elem_of_union in Hb as [Hb|Hb];
    try (apply elem_of_singleton in Hb; simplify_eq); eauto; symmetry; eauto.
Qed.

Lemma turn_spec c i s ev r c' :
  cluster_inv c -> terms_left c -> evidence (ballots c) (wins c) i ev ->
  turn i s ev c = Some (r, c') -> turn_ok c i ev r c'.
Proof.
  intros [Hnode Hnet Hwin Hbal] Hterm Hev Hturn. unfold turn in Hturn.
  destruct (nodes c !! i) as [m|] eqn:Hm; [|done]. simpl in Hturn.
  set (inp := {| in_now := _ |}) in *.
  pose proof (step_vsteps inp m (Hterm _ _ Hm)) as Hsteps.
  pose proof (step_sent inp m) as Hsent.
  destruct (step inp m) as [r0 m'] eqn:Hstep. simplify_eq/=.
  destruct (Hnode _ _ Hm) as (Hi & Hinv & Hlead).
  assert (node_inv (ballots c) (wins c) i (abs m')) as Hinv'
    by by eapply vsteps_inv.
  destruct (vsteps_turn _ _ _ _ _ _ Hinv Hev Hsteps) as (_ & Hl & _).
  set (W' := record_win i m m' (wins c)).
  assert (wins c ⊆ W') as HW by apply record_win_incl.
  set (B' := {[ (i, v_ballot (abs m')) ]} ∪ ballots c).
  assert (ballots c ⊆ B') as HB by set_solver.
  assert (role m' = RoleLeader -> won W' (currentTerm m') i) as Hlead'.
  { intros Hr. unfold W', record_win, newly_leader. rewrite bool_decide_true by done.
    case_bool_decide as Hsame; simpl.
    - destruct Hsame as [? <-]. by apply Hlead.
    - eexists. split; [apply list_elem_of_here|done]. }
  constructor; simpl; fold B' W'; [constructor; simpl; fold B' W'|done|done| |].
  - by eapply hold_nodes.
  - intros p [Hp|Hp]%elem_of_app; [by eapply packet_ok_mono; eauto|].
    apply list_elem_of_fmap in Hp as (q & -> & Hq).
    unfold sent_ok in Hsent. rewrite Forall_forall in Hsent. apply Hsent in Hq.
    pose proof (ni_me _ _ _ _ Hinv') as Hme.
    destruct q; simpl in *; [by rewrite <-Hme| |done].
    destruct Hq as (Hr & -> & _ & ->). rewrite Hme. by apply Hlead'.
  - unfold W', record_win. destruct (newly_leader m m') eqn:Hnl; [|by eauto using win_ok_mono].
    intros w [->|Hw]%elem_of_cons; [|by eauto using win_ok_mono].
    unfold newly_leader in Hnl. apply andb_true_iff in Hnl as [Hr Hn].
    apply bool_decide_eq_true in Hr. apply negb_true_iff, bool_decide_eq_false in Hn.
    destruct (Hl Hr) as [[? ?]|(V & HV & Hsub & HQ)]; [by destruct Hn|].
    destruct (ni_running _ _ _ _ Hinv' (or_intror Hr)) as (Hself & V' & HV' & Hin).
    simpl in *. simplify_eq. unfold win_ok; simpl.
    replace (votesFrom m') with (Some V). simpl.
    split; [done|]. split; [done|]. split; [done|].
    intros v Hv. destruct (Hin v Hv) as [->|?]; [|set_solver].
    apply elem_of_union_l, elem_of_singleton. unfold v_ballot; simpl. congruence.
  - by eapply hold_ballots.
  - by apply prefix_app_r.
  - intros req resp -> -> Hg. subst inp. unfold step in Hstep. simpl in Hstep.
    destruct (panicked m); [by simplify_eq|].
    destruct (onVote req _) as [resp' m''] eqn:Hv. simplify_eq.
    destruct (onVote_granted _ _ _ _ Hv Hg) as [E _].
    unfold B'. rewrite E. set_solver.
Qed.

(** *** Booting *)

Lemma applyDefaults_identity c :
  Self (applyDefaults c) = Self c /\ Peers (applyDefaults c) = Peers c
  /\ Discoverer (applyDefaults c) = Discoverer c.
Proof.
  unfold applyDefaults. simpl. by repeat case_match.
Qed.

Lemma scanPeers_found me seen found ps :
  scanPeers me seen found ps = Ok true ->
  found = true \/ me ∈ ID <$> ps.
Proof.
  revert seen found. induction ps as [|p ps IH]; intros seen found; simpl.
  { intros [= ->]. by left. }
  case_decide; [done|]. intros [Hf|Hin]%IH.
  - apply orb_true_iff in Hf as [?|Hp]; [by left|right].
    apply bool_decide_eq_true in Hp. rewrite <-Hp. left.
  - right. by right.
Qed.

Lemma validateConfig_ok c :
  validateConfig c true true true = Ok tt ->
  ID (Self c) <> "" /\ Peers c <> []
  /\ (Discoverer c = false -> ID (Self c) ∈ ID <$> Peers c).
Proof.
  unfold validateConfig. simpl. case_bool_decide; simpl; [done|].
  case_bool_decide; simpl; [done|].
  destruct (scanPeers _ _ _ _) as [found|] eqn:Hs; simpl; [|done].
  intros Hf. split; [done|]. split; [done|]. intros Hd. rewrite Hd in Hf.
  destruct found; [|done]. by destruct (scanPeers_found _ _ _ _ Hs).
Qed.

Lemma boot_abs t r d m : abs (boot t r d m) = abs m.
Proof.
  unfold boot. match goal with |- context [randTimeout ?x] =>
    pose proof (randTimeout_abs x) as E; destruct (randTimeout x) as [? m'] end.
  transitivity (abs m'); [done|exact E].
Qed.

(** The abstract state of a fresh process that found [ps] on disk. *)
Definition fresh (cf : Config) (ps : option PersistentState) : vstate :=
  {| v_me := ID (Self cf); v_disc := Discoverer cf;
     v_term := default 0%N (ps_CurrentTerm <$> ps);
     v_vote := default "" (ps_VotedFor <$> ps);
     v_role := RoleFollower; v_leader := ""; v_votes := None;
     v_members := seedMembership cf ps; v_disk := ps;
     v_panicked := false |}.

Lemma NewManager_abs cf ps m :
  NewManager cf true true true (Some ps) = Ok m ->
  validateConfig cf true true true = Ok tt /\ abs m = fresh cf ps.
Proof.
  unfold NewManager. destruct (validateConfig cf true true true) as [[]|];
    cbn [result_bind]; [|done].
  destruct (applyDefaults_identity cf) as (E1 & E2 & E3).
  set (df := applyDefaults cf) in *. clearbody df. intros [= <-]. split; [done|].
  unfold abs, fresh, seedMembership; simpl. by rewrite E1, E2, E3.
Qed.

Lemma start_abs conf i ps s d m :
  start conf i ps s d = Some m ->
  exists cf, conf !! i = Some cf /\ validateConfig cf true true true = Ok tt
    /\ abs m = fresh cf ps.
Proof.
  unfold start. destruct (conf !! i) as [cf|]; cbn [mbind option_bind]; [|done].
  destruct (NewManager cf true true true (Some ps)) as [m0|] eqn:HN; [|done].
  intros [= <-]. exists cf. rewrite boot_abs. apply NewManager_abs in HN as [??].
  done.
Qed.

Lemma start_inv conf i ps s d m B W :
  conf_ok conf -> start conf i ps s d = Some m ->
  (forall b, (i, b) ∈ B -> b.2 <> "" ->
     exists ps', ps = Some ps' /\ vote_le b (ps_vote ps')) ->
  i <> "" /\ node_inv B W i (abs m) /\ role m = RoleFollower.
Proof.
  intros Hconf Hs Hheld. destruct (start_abs _ _ _ _ _ _ Hs) as (cf & Hcf & Hv & E).
  pose proof (f_equal v_role E) as Erole. simpl in Erole.
  pose proof (Hconf _ _ Hcf) as Hid.
  destruct (validateConfig_ok _ Hv) as (Hne & _ & Hin). rewrite Hid in Hne, Hin.
  split; [done|]. split; [|done]. rewrite E.
  constructor; simpl; try done; try (by intros [?|?]); try by left.
  - intros b Hb Hbne. destruct (Hheld b Hb Hbne) as (ps' & -> & Hle).
    split; [done|]. by exists ps'.
  - destruct ps as [ps'|]; [|done]. intros _. split; [done|]. exists ps'. done.
  - intros Hd. unfold seedMembership. rewrite Hd. unfold voter_ids; simpl.
    apply elem_of_list_to_set. unfold SortNodes. rewrite sort_by_perm. by apply Hin.
Qed.

(** *** Reachable clusters are good *)

Lemma post_inv c p :
  cluster_inv c -> packet_ok (ballots c) (wins c) p -> cluster_inv (post p c).
Proof.
  intros [] Hp. constructor; simpl; try done.
  intros q [Hq|Hq]%elem_of_app; [by eauto|]. by apply list_elem_of_singleton in Hq as ->.
Qed.

Lemma call_inv c src r s sentAt rtt c' :
  cluster_inv c -> terms_left c -> packet_ok (ballots c) (wins c) (Request src r) ->
  call src r s sentAt rtt c = Some c' -> cluster_inv c'.
Proof.
  intros Hc Ht Hp Hcall. destruct r as [p req term|p req term mv mt|p]; simpl in *.
  - destruct (turn (ID p) s (EvVote req) c) as [[rep c1]|] eqn:Hturn; [|done].
    apply turn_spec in Hturn as [Hinv HB _ _ Hvote]; [|done..].
    destruct rep; simplify_eq/=; try done. apply post_inv; [done|].
    simpl. destruct Hp as [<- <-]. intros resp [= <-] Hg. by apply (Hvote req r).
  - destruct (turn (ID p) s (EvHeartbeat req) c) as [[rep c1]|] eqn:Hturn; [|done].
    apply turn_spec in Hturn as [Hinv _ _ _ _]; [|done..].
    destruct rep; simplify_eq/=; try done. by apply post_inv.
  - destruct (nodes c !! ID p); simplify_eq/=. by apply post_inv.
Qed.

Lemma act_inv conf a c c' :
  conf_ok conf -> cluster_inv c -> terms_left c -> act conf a c = Some c' ->
  cluster_inv c'.
Proof.
  intros Hconf Hc Ht. destruct a as [i s ev|k s sentAt rtt|k fb|i s d]; simpl.
  - destruct (local_event ev) eqn:Hev; [|done].
    intros ([r c1] & Hturn & ->)%fmap_Some.
    eapply turn_spec; [done|done| |exact Hturn]. by destruct ev.
  - destruct (net c !! k) as [p|] eqn:Hk; [|done].
    apply list_elem_of_lookup_2 in Hk.
    pose proof (ci_net _ Hc _ Hk) as Hp. destruct p as [src r|dst ev].
    + by apply call_inv.
    + intros ([r c1] & Hturn & ->)%fmap_Some. by eapply turn_spec.
  - destruct (net c !! k) as [[src r|]|] eqn:Hk; try done. intros [= <-].
    apply post_inv; [done|]. destruct r; simpl; try done.
    intros resp. destruct fb; [|done]. by intros [= <-].
  - destruct (nodes c !! i) as [m|] eqn:Hm; simpl; [|done].
    destruct (start conf i _ s d) as [m'|] eqn:Hs; simpl; [|done]. intros [= <-].
    destruct Hc as [Hnode Hnet Hwin Hbal].
    destruct (Hnode _ _ Hm) as (Hi & Hinv & _).
    assert (i <> "" /\ node_inv (ballots c) (wins c) i (abs m')
            /\ role m' = RoleFollower) as (_ & Hinv' & Hr).
    { eapply start_inv; [done|exact Hs|]. intros b Hb Hne.
      by destruct (ni_held _ _ _ _ Hinv b Hb Hne). }
    assert (ballots c ⊆ ballots (hold i m' c)) as HB by (simpl; set_solver).
    constructor; simpl.
    + eapply hold_nodes; [done|done|done|done|]. rewrite Hr. done.
    + intros p Hp. eapply packet_ok_mono; [exact HB|done|by apply Hnet].
    + intros w Hw. eapply win_ok_mono; [exact HB|by apply Hwin].
    + by eapply hold_ballots.
Qed.

Lemma init_inv conf : conf_ok conf -> cluster_inv (init_cluster conf).
Proof.
  intros Hconf. constructor; simpl.
  - intros i m Hm. rewrite map_lookup_imap in Hm.
    apply bind_Some in Hm as (? & _ & Hs).
    destruct (start_inv conf i None _ _ m ∅ [] Hconf Hs) as (? & ? & Hr);
      [set_solver|]. split; [done|]. split; [done|]. by rewrite Hr.
  - intros p Hp. by apply elem_of_nil in Hp.
  - intros w Hw. by apply elem_of_nil in Hw.
  - set_solver.
Qed.

Lemma reachable_inv conf c : conf_ok conf -> reachable conf c -> cluster_inv c.
Proof.
  intros Hconf. induction 1; [by apply init_inv|by eapply act_inv].
Qed.

Lemma terms_leftb_spec c : terms_leftb c = true -> terms_left c.
Proof.
  unfold terms_leftb. rewrite forallb_forall. intros H i m Hm.
  apply N.ltb_lt. apply (H (i, m)). by apply list_elem_of_In, elem_of_map_to_list.
Qed.

Lemma run_reachable conf l c c' :
  reachable conf c -> run conf l c = Some c' -> reachable conf c'.
Proof.
  revert c. induction l as [|a l IH]; simpl; intros c Hc; [by intros [= <-]|].
  destruct (terms_leftb c) eqn:Ht; [|done].
  destruct (act conf a c) as [c1|] eqn:Ha; simpl; [|done].
  apply IH. eapply r_act; [done|by apply terms_leftb_spec|done].
Qed.

(** *** Majorities *)

Lemma majorities_meet_sym A B : majorities_meet A B -> majorities_meet B A.
Proof.
  unfold majorities_meet. rewrite (union_comm_L (voter_ids A)). lia.
Qed.

Lemma majorities_meet_perm A B :
  Voters A ≡ₚ Voters B -> majorities_meet A B.
Proof.
  intros Hp. unfold majorities_meet. rewrite (voter_ids_perm _ _ Hp), Hp.
  rewrite union_idemp_L. pose proof (voter_ids_size B).
  pose proof (Quorum_majority (length (Voters B))). lia.
Qed.

Lemma majorities_meet_added A B n : one_added A B n -> majorities_meet A B.
Proof.
  unfold one_added, majorities_meet. intros Hp.
  assert (voter_ids A ∪ voter_ids B = voter_ids B) as ->.
  { apply subseteq_union_1_L. intros x. unfold voter_ids.
    rewrite !elem_of_list_to_set, Hp, fmap_app, elem_of_app. by left. }
  pose proof (voter_ids_size B) as Hs. rewrite Hp, length_app in Hs |- *.
  simpl in *. rewrite Nat.add_1_r in *.
  pose proof (Quorum_adjacent (length (Voters A))). lia.
Qed.

Lemma wins_meet c w1 w2 :
  cluster_inv c -> w1 ∈ wins c -> w2 ∈ wins c -> w_term w1 = w_term w2 ->
  majorities_meet (w_members w1) (w_members w2) -> w_leader w1 = w_leader w2.
Proof.
  intros Hc Hw1 Hw2 Ht Hmeet.
  destruct (ci_win _ Hc _ Hw1) as (Hne1 & Hsub1 & HQ1 & Hb1).
  destruct (ci_win _ Hc _ Hw2) as (Hne2 & Hsub2 & HQ2 & Hb2).
  unfold majorities_meet in Hmeet.
  destruct (sets_overlap (voter_ids (w_members w1) ∪ voter_ids (w_members w2))
              (w_votes w1) (w_votes w2)) as (v & Hv1 & Hv2);
    [set_solver|set_solver|lia|].
  apply (ci_ballot _ Hc v (w_term w1)); [by apply Hb1| |done|done].
  rewrite Ht. by apply Hb2.
Qed.

(** *** Static mode *)

Record static_inv (peers : list Node) (c : cluster) : Prop := {
  si_node : forall i m, nodes c !! i = Some m ->
    discoveryMode m = false /\ Voters (membership m) = SortNodes peers;
  si_win : forall w, w ∈ wins c -> Voters (w_members w) = SortNodes peers;
}.

Lemma turn_static peers c i s ev r c' :
  terms_left c -> static_inv peers c -> turn i s ev c = Some (r, c') ->
  static_inv peers c'.
Proof.
  intros Ht [Hn Hw] Hturn. unfold turn in Hturn.
  destruct (nodes c !! i) as [m|] eqn:Hm; [|done]. simpl in Hturn.
  set (inp := {| in_now := _ |}) in *.
  pose proof (step_vsteps inp m (Ht _ _ Hm)) as Hsteps.
  destruct (step inp m) as [r0 m']. simplify_eq/=.
  destruct (Hn _ _ Hm) as [Hd HV].
  destruct (vsteps_identity _ _ _ Hsteps) as (_ & Ed & Em). simpl in Ed, Em.
  constructor; simpl.
  - intros j m0 [[<- <-]|[_ Hj]]%lookup_insert_Some; [|by apply (Hn j)].
    by rewrite Ed, Em.
  - intros w. unfold record_win. case_match; [|by apply Hw].
    intros [->|?]%elem_of_cons; [done|by apply Hw].
Qed.

Lemma start_static conf peers i ps s d m :
  static_conf conf peers -> start conf i ps s d = Some m ->
  discoveryMode m = false /\ Voters (membership m) = SortNodes peers.
Proof.
  intros Hst Hs. destruct (start_abs _ _ _ _ _ _ Hs) as (cf & Hcf & _ & E).
  destruct (Hst _ _ Hcf) as [Hd <-].
  pose proof (f_equal v_disc E) as E1. pose proof (f_equal v_members E) as E2.
  simpl in E1, E2. rewrite E1, E2. unfold seedMembership. by rewrite Hd.
Qed.

Lemma act_static conf peers a c c' :
  static_conf conf peers -> terms_left c -> static_inv peers c ->
  act conf a c = Some c' -> static_inv peers c'.
Proof.
  intros Hst Ht Hc.
  assert (forall p c, static_inv peers c -> static_inv peers (post p c)) as Hpost
    by (by intros ? ? []).
  destruct a as [i s ev|k s sentAt rtt|k fb|i s d]; simpl.
  - destruct (local_event ev); [|done].
    intros ([r c1] & Hturn & ->)%fmap_Some. by eapply turn_static.
  - destruct (net c !! k) as [[src [p req term|p req term mv mt|p]|dst ev]|];
      try done; simpl.
    + destruct (turn (ID p) s _ c) as [[rep c1]|] eqn:Hturn; [|done].
      apply (turn_static peers) in Hturn; [|done..]. simpl.
      destruct rep; intros [= <-]; by try apply Hpost.
    + destruct (turn (ID p) s _ c) as [[rep c1]|] eqn:Hturn; [|done].
      apply (turn_static peers) in Hturn; [|done..]. simpl.
      destruct rep; intros [= <-]; by try apply Hpost.
    + destruct (nodes c !! ID p); [|done]. intros [= <-]. by apply Hpost.
    + intros ([r c1] & Hturn & ->)%fmap_Some. by eapply turn_static.
  - destruct (net c !! k) as [[]|]; try done. intros [= <-]. by apply Hpost.
  - destruct (nodes c !! i) as [m|]; simpl; [|done].
    destruct (start conf i _ s d) as [m'|] eqn:Hs; simpl; [|done]. intros [= <-].
    destruct Hc as [Hn Hw]. constructor; simpl; [|done].
    intros j m0 [[<- <-]|[_ Hj]]%lookup_insert_Some; [|by apply (Hn j)].
    by eapply start_static.
Qed.

Lemma reachable_static conf peers c :
  static_conf conf peers -> reachable conf c -> static_inv peers c.
Proof.
  intros Hst. induction 1; [|by eapply act_static].
  constructor; simpl.
  - intros i m Hm. rewrite map_lookup_imap in Hm.
    apply bind_Some in Hm as (? & _ & Hs). by eapply start_static.
  - intros w Hw. by apply elem_of_nil in Hw.
Qed.

Lemma won_unique conf peers c t a b :
  conf_ok conf -> static_conf conf peers -> reachable conf c ->
  won (wins c) t a -> won (wins c) t b -> a = b.
Proof.
  intros Hconf Hst Hr (w1 & Hw1 & Ht1 & <-) (w2 & Hw2 & Ht2 & <-).
  pose proof (reachable_static _ _ _ Hst Hr) as [_ Hs].
  eapply wins_meet; [by eapply reachable_inv|done|done|congruence|].
  apply majorities_meet_perm. by rewrite (Hs _ Hw1), (Hs _ Hw2).
Qed.
