(* ===== verification/WardenSafety.v ===== *)
(** * Election safety

    The cluster-wide theorems about [services/warden/election]: one leader per
    term and agreement on it in static mode, what discovery mode keeps of that,
    and what a vote promises across crashes, failed writes and restarts.  Each
    is about every cluster [reachable] in [WardenCluster]: any interleaving of
    timers, messages, faults and restarts.  [Scenario] holds the concrete
    clusters the statements are evaluated on, among them the run in which
    discovery mode elects two leaders in one term. *)

From S2P Require Import Prelude.
From S2P Require Import WardenTypes.
From S2P Require Import WardenManager.
From S2P Require Import WardenElection.
From S2P Require Import WardenSpec.
From S2P Require Import WardenCluster.

(** ** Concrete clusters *)

Module Scenario.
Definition at_host (s : string) : Node := {| ID := s; Addr := s +:+ ":7717" |}.

(** Every interval is left at its zero value, so [applyDefaults] sets it. *)
Definition config_of (me : Node) (peers : list Node) (disc : bool) : Config :=
  {| Self := me; Peers := peers; HeartbeatInterval := 0%Z; SuspectAfter := 0%Z;
     DeadAfter := 0%Z; ElectionTimeoutMin := 0%Z; ElectionTimeoutMax := 0%Z;
     RPCTimeout := 0%Z; ClusterID := ""; BuildVersion := "";
     ViewFreshFor := 0%Z; Discoverer := disc; JoinStability := 0%Z;
     RemoveAfter := 0%Z |}.

Definition configs (ids : list string) (peers : list Node) (disc : bool)
  : gmap NodeID Config :=
  list_to_map ((fun s => (s, config_of (at_host s) peers disc)) <$> ids).

Definition second (sec : Z) (script : list SaveOutcome) : surroundings :=
  {| at_time := (sec * Time.Second)%Z; store_script := script; rng_draws := [] |}.
Definition timeout_of (i : NodeID) (sec : Z) : action :=
  ALocal i (second sec []) EvElectionTimer.
Definition tick_of (i : NodeID) (sec : Z) : action :=
  ALocal i (second sec []) EvHeartbeatTicker.
Definition roster_of (i : NodeID) (sec : Z) (ids : list string) : action :=
  ALocal i (second sec []) (EvRoster {| Nodes := at_host <$> ids |}).
Definition deliver (k : nat) (sec : Z) : action :=
  ADeliver k (second sec []) (sec * Time.Second)%Z 0%Z.
(** A delivery whose receiver fails to write its state file. *)
Definition deliver_torn (k : nat) (sec : Z) (o : SaveOutcome) : action :=
  ADeliver k (second sec [o]) (sec * Time.Second)%Z 0%Z.
Definition restart (i : NodeID) (sec : Z) : action :=
  ARestart i (second sec []) true.

Definition trio : list Node := at_host <$> ["a"; "b"; "c"].
Definition static3 : gmap NodeID Config := configs ["a"; "b"; "c"] trio false.

(** Three static nodes: [a] wins term 1 with [b]'s vote while [c] fails to
    save its own, [c] crashes and restarts, learns of term 1 from [a]'s
    heartbeat, and [b] then wins term 2 with [c]'s vote. *)
Definition static_run : list action :=
  [timeout_of "a" 10; deliver 0 10; deliver_torn 1 10 SaveKept; deliver 2 10;
   restart "c" 20; deliver 5 21; timeout_of "b" 60; deliver 8 60; deliver 9 60;
   deliver 11 61].
Definition static_end : cluster :=
  default (init_cluster static3) (run static3 static_run (init_cluster static3)).

(** [c] accepts [a]'s heartbeat of term 1 while its state file cannot be
    written, then restarts. *)
Definition lost_save_run : list action :=
  [timeout_of "a" 10; deliver 0 10; deliver 2 10; deliver_torn 4 11 SaveLost].
Definition static_after (l : list action) : cluster :=
  default (init_cluster static3) (run static3 l (init_cluster static3)).

Definition seeds : list Node := at_host <$> ["a"; "b"; "c"; "d"].
Definition discovery6 : gmap NodeID Config :=
  configs ["a"; "b"; "c"; "d"; "e"; "f"] seeds true.

(** [a] leads term 1 and admits [e], but only [e] hears of it; [b] leads term 2
    under the seed membership and admits [f]; [a] and [c] then both campaign in
    term 3, each under the membership its side knows. *)
Definition admit_e : list action :=
  [timeout_of "a" 10; deliver 0 10; deliver 1 10; deliver 3 10; deliver 4 10;
   deliver 5 10; deliver 6 10; deliver 8 10; deliver 9 10;
   roster_of "a" 20 ["a"; "b"; "c"; "d"; "e"]; deliver 10 20; deliver 11 20;
   tick_of "a" 51; deliver 19 51].
Definition admit_f : list action :=
  [timeout_of "b" 60; deliver 22 60; deliver 23 60; deliver 24 60;
   deliver 25 60; deliver 27 60; deliver 28 60; deliver 29 60; deliver 30 60;
   roster_of "b" 70 ["a"; "b"; "c"; "d"; "f"]; deliver 31 70; deliver 32 70;
   tick_of "b" 101; deliver 38 101; deliver 40 101; deliver 26 110].
Definition two_campaigns : list action :=
  [timeout_of "a" 200; deliver 46 200; deliver 47 200; deliver 48 200;
   deliver 49 200; timeout_of "c" 200; deliver 55 200; deliver 57 200;
   deliver 58 200; deliver 59 200].
Definition state_after (l : list action) : cluster :=
  default (init_cluster discovery6)
    (run discovery6 l (init_cluster discovery6)).
Definition discovery_end : cluster := state_after (admit_e ++ admit_f).
Definition split_end : cluster := state_after (admit_e ++ admit_f ++ two_campaigns).
End Scenario.
Import Scenario.

(** The leaders a cluster has right now, with their terms. *)
Definition leaders (c : cluster) : list (NodeID * Term) :=
  omap (fun p => if decide (role p.2 = RoleLeader)
                 then Some (p.1, currentTerm p.2) else None)
    (map_to_list (nodes c)).

(** ** Deciding the side conditions on a concrete cluster *)

Lemma conf_ok_decide conf :
  bool_decide (map_Forall (fun i c => ID (Self c) = i) conf) = true -> conf_ok conf.
Proof. rewrite bool_decide_eq_true. done. Qed.

Lemma static_conf_decide conf peers :
  bool_decide (map_Forall (fun _ c => Discoverer c = false /\ Peers c = peers) conf)
  = true -> static_conf conf peers.
Proof. rewrite bool_decide_eq_true. done. Qed.

Lemma run_default_reachable conf l :
  reachable conf (default (init_cluster conf) (run conf l (init_cluster conf))).
Proof.
  destruct (run conf l (init_cluster conf)) as [c|] eqn:E; simpl; [|constructor].
  eapply run_reachable; [constructor|exact E].
Qed.

Lemma leaders_spec c i t :
  (i, t) ∈ leaders c <->
  exists m, nodes c !! i = Some m /\ role m = RoleLeader /\ currentTerm m = t.
Proof.
  unfold leaders. rewrite list_elem_of_omap. split.
  - intros ([j m] & Hin%elem_of_map_to_list & H). simpl in H.
    case_decide; simplify_eq. eauto.
  - intros (m & Hm & Hr & <-). exists (i, m). rewrite elem_of_map_to_list.
    split; [done|]. simpl. by rewrite decide_True.
Qed.

Lemma leader_won conf c i m :
  conf_ok conf -> reachable conf c -> nodes c !! i = Some m ->
  role m = RoleLeader -> won (wins c) (currentTerm m) i.
Proof.
  intros Hconf Hc Hm Hr. pose proof (reachable_inv _ _ Hconf Hc) as Hinv.
  by apply (ci_node _ Hinv i m Hm).
Qed.

(** The leader a node names in its own term has won that term. *)
Lemma named_leader_won conf c i m :
  conf_ok conf -> reachable conf c -> nodes c !! i = Some m ->
  leaderID m <> "" -> won (wins c) (currentTerm m) (leaderID m).
Proof.
  intros Hconf Hc Hm Hl. pose proof (reachable_inv _ _ Hconf Hc) as Hinv.
  destruct (ci_node _ Hinv i m Hm) as (_ & Hn & Hlead).
  destruct (ni_role _ _ _ _ Hn) as [Hr|[Hr|Hr]]; simpl in Hr.
  - by apply (ni_follow _ _ _ _ Hn).
  - by destruct (ni_candidate _ _ _ _ Hn Hr).
  - rewrite (ni_leader _ _ _ _ Hn Hr : leaderID m = i). by apply Hlead.
Qed.

(** ** Static mode *)

(** C1: election safety in static mode.  In every reachable cluster, whatever was
    lost, delayed, duplicated, reordered, crashed or not saved, two elections
    ever won in one term have the same winner, and two nodes that lead the same
    term at the same time are the same node. *)
Theorem election_safety (conf : gmap NodeID Config) (peers : list Node) (c : cluster)
  (Hconf : conf_ok conf) (Hstatic : static_conf conf peers)
  (Hc : reachable conf c) :
  (forall w1 w2, w1 ∈ wins c -> w2 ∈ wins c -> w_term w1 = w_term w2 ->
     w_leader w1 = w_leader w2)
  /\ (forall i j t, (i, t) ∈ leaders c -> (j, t) ∈ leaders c -> i = j).
Proof.
  split.
  - intros w1 w2 ???. eapply won_unique; [done..| |]; eexists; eauto.
  - intros i j t (mi & Hi & Hri & <-)%leaders_spec (mj & Hj & Hrj & Ht)%leaders_spec.
    eapply won_unique; [done..|by eapply leader_won|].
    rewrite <-Ht. by eapply leader_won.
Qed.

(** C8: Agreement on the leader in static mode.  Two nodes of a reachable cluster
    that are in the same term and both name a leader name the same one, and that
    leader has won the term. *)
Theorem leader_agreement (conf : gmap NodeID Config) (peers : list Node)
  (c : cluster) (i j : NodeID) (mi mj : Manager)
  (Hconf : conf_ok conf) (Hstatic : static_conf conf peers)
  (Hc : reachable conf c)
  (Hi : nodes c !! i = Some mi) (Hj : nodes c !! j = Some mj)
  (Hterm : currentTerm mi = currentTerm mj)
  (Hli : leaderID mi <> "") (Hlj : leaderID mj <> "") :
  leaderID mi = leaderID mj /\ won (wins c) (currentTerm mi) (leaderID mi).
Proof.
  assert (won (wins c) (currentTerm mi) (leaderID mi)) as Hw
    by by eapply named_leader_won.
  split; [|done]. eapply won_unique; [done..|].
  rewrite Hterm. by eapply named_leader_won.
Qed.

(** ** Every mode *)

(** In every mode, a node that leads has won its term: it holds the granted
    votes of a strict majority of the membership it campaigned under, each of
    them a ballot for it in that term that its voter really cast. *)
Theorem leader_has_majority (conf : gmap NodeID Config) (c : cluster)
  (i : NodeID) (t : Term)
  (Hconf : conf_ok conf) (Hc : reachable conf c) (Hl : (i, t) ∈ leaders c) :
  exists M V, {| w_term := t; w_leader := i; w_members := M; w_votes := V |} ∈ wins c
    /\ V ⊆ voter_ids M
    /\ length (Voters M) < 2 * size V
    /\ forall v, v ∈ V -> (v, (t, i)) ∈ ballots c.
Proof.
  apply leaders_spec in Hl as (m & Hm & Hr & <-).
  destruct (leader_won _ _ _ _ Hconf Hc Hm Hr) as (w & Hw & Ht & Hi).
  destruct (ci_win _ (reachable_inv _ _ Hconf Hc) _ Hw) as (_ & Hsub & HQ & Hb).
  destruct w as [wt wl M V]; simpl in *; subst. exists M, V.
  split; [done|]. split; [done|]. split; [|done].
  pose proof (Quorum_majority (length (Voters M))). lia.
Qed.

(** C7: a vote is cast at most once per term and is never forgotten.  In every
    mode and under every fault, the ballots a node has ever held in one term
    name one candidate, and at every moment the node's memory and its state file
    both still carry each vote it cast or a later term. *)
Theorem votes_are_durable (conf : gmap NodeID Config) (c : cluster) (i : NodeID)
  (m : Manager) (t : Term) (v : NodeID)
  (Hconf : conf_ok conf) (Hc : reachable conf c) (Hi : nodes c !! i = Some m)
  (Hcast : (i, (t, v)) ∈ ballots c) (Hv : v <> "") :
  (forall v', (i, (t, v')) ∈ ballots c -> v' <> "" -> v' = v)
  /\ vote_le (t, v) (currentTerm m, votedFor m)
  /\ exists ps, disk (env m) = Some ps /\ vote_le (t, v) (ps_vote ps).
Proof.
  pose proof (reachable_inv _ _ Hconf Hc) as Hinv. split.
  - intros v' Hv' Hne. by eapply (ci_ballot _ Hinv).
  - destruct (ci_node _ Hinv i m Hi) as (_ & Hn & _).
    exact (ni_held _ _ _ _ Hn _ Hcast Hv).
Qed.

(** No reachable loop ever panics: a node that tallies a vote always has its
    vote map. *)
Theorem loops_never_panic (conf : gmap NodeID Config) (c : cluster) (i : NodeID)
  (m : Manager) (Hconf : conf_ok conf) (Hc : reachable conf c)
  (Hi : nodes c !! i = Some m) :
  panicked m = false.
Proof.
  pose proof (reachable_inv _ _ Hconf Hc) as Hinv.
  destruct (ci_node _ Hinv i m Hi) as (_ & Hn & _). exact (ni_calm _ _ _ _ Hn).
Qed.

(** C34: refinement.  Every turn of the event loop is a sequence of steps of the
    abstract vote machine, for every event, clock reading, store behaviour and
    draw, as long as the term cannot wrap around. *)
Theorem step_refines_vote_machine (i : input) (m : Manager)
  (Hterm : (currentTerm m < max_uint64)%N) :
  rtc (vstep (in_event i)) (abs m) (abs (step i m).2).
Proof. by apply step_vsteps. Qed.

(** ** Discovery mode *)

(** What discovery mode keeps.  Two elections won in one term under the same
    voters, or under voters that differ by the one node the leader's driver
    admits, have the same winner. *)
Theorem adjacent_elections_agree (conf : gmap NodeID Config) (c : cluster)
  (w1 w2 : win) (n : Node) (Hconf : conf_ok conf) (Hc : reachable conf c)
  (Hw1 : w1 ∈ wins c) (Hw2 : w2 ∈ wins c) (Hterm : w_term w1 = w_term w2)
  (Hadj : Voters (w_members w1) ≡ₚ Voters (w_members w2)
          \/ one_added (w_members w1) (w_members w2) n) :
  w_leader w1 = w_leader w2.
Proof.
  eapply wins_meet; [by eapply reachable_inv|done..|].
  destruct Hadj; [by apply majorities_meet_perm|by eapply majorities_meet_added].
Qed.

(** What discovery mode loses.  Six nodes that follow the code, with no
    failed write and no crash, reach a cluster in which [a] and [c] lead term 3
    at the same time: each side committed one single-node change that the other
    never heard of, so their majorities need not meet. *)
Theorem discovery_split_brain :
  conf_ok discovery6 /\ reachable discovery6 split_end
  /\ ("a", 3%N) ∈ leaders split_end /\ ("c", 3%N) ∈ leaders split_end.
Proof.
  split; [|split; [|split]].
  - apply conf_ok_decide. by vm_compute.
  - apply run_default_reachable.
  - apply (bool_decide_unpack _). by vm_compute.
  - apply (bool_decide_unpack _). by vm_compute.
Qed.

(** A node's term can go back across a restart.  A follower adopts the term of
    a heartbeat although it could not save it, so a crash before the next
    successful save leaves it in the older term: votes are durable, terms are
    not. *)
Theorem term_regresses_after_lost_save :
  reachable static3 (static_after (lost_save_run ++ [restart "c" 20]))
  /\ currentTerm <$> nodes (static_after lost_save_run) !! "c" = Some 1%N
  /\ currentTerm <$> nodes (static_after (lost_save_run ++ [restart "c" 20])) !! "c"
     = Some 0%N.
Proof.
  split; [apply run_default_reachable|]. split; by vm_compute.
Qed.

(** ** Witnesses *)

Lemma static3_ok : conf_ok static3.
Proof. apply conf_ok_decide. by vm_compute. Qed.

Lemma static3_static : static_conf static3 trio.
Proof. apply static_conf_decide. by vm_compute. Qed.

Lemma static_end_reachable : reachable static3 static_end.
Proof. apply run_default_reachable. Qed.

Lemma discovery6_ok : conf_ok discovery6.
Proof. apply conf_ok_decide. by vm_compute. Qed.

(** A node of a concrete cluster, with what is observed of it. *)
Lemma node_at {A} (f : Manager -> A) c i y :
  f <$> nodes c !! i = Some y -> exists m, nodes c !! i = Some m /\ f m = y.
Proof. intros (m & -> & ->)%fmap_Some. eauto. Qed.

(** Two terms were won, and the two winners both still think they lead. *)
Lemma election_safety_witness :
  ((fun w => (w_term w, w_leader w)) <$> wins static_end = [(2%N, "b"); (1%N, "a")]
   /\ leaders static_end = [("a", 1%N); ("b", 2%N)])
  /\ (forall w1 w2, w1 ∈ wins static_end -> w2 ∈ wins static_end ->
        w_term w1 = w_term w2 -> w_leader w1 = w_leader w2)
  /\ (forall i j t, (i, t) ∈ leaders static_end -> (j, t) ∈ leaders static_end ->
        i = j).
Proof.
  split; [by vm_compute|].
  apply (election_safety static3 trio static_end);
    [apply static3_ok|apply static3_static|apply static_end_reachable].
Defined.

(** [b] leads term 2 and [c] has heard its heartbeat. *)
Lemma leader_agreement_witness :
  exists mb mc, nodes static_end !! "b" = Some mb /\ nodes static_end !! "c" = Some mc
    /\ role mb = RoleLeader /\ role mc = RoleFollower
    /\ (leaderID mb = leaderID mc /\ won (wins static_end) (currentTerm mb) (leaderID mb)).
Proof.
  destruct (node_at (fun m => (role m, currentTerm m, leaderID m)) static_end "b"
              (RoleLeader, 2%N, "b")) as (mb & Hb & Eb); [by vm_compute|].
  destruct (node_at (fun m => (role m, currentTerm m, leaderID m)) static_end "c"
              (RoleFollower, 2%N, "b")) as (mc & Hc & Ec); [by vm_compute|].
  injection Eb as Rb Tb Lb. injection Ec as Rc Tc Lc.
  exists mb, mc. split; [done|]. split; [done|]. split; [done|]. split; [done|].
  apply (leader_agreement static3 trio static_end "b" "c" mb mc);
    [apply static3_ok|apply static3_static|apply static_end_reachable|done|done| | |];
    congruence.
Defined.

Lemma leader_has_majority_witness :
  exists M V, {| w_term := 3%N; w_leader := "c"; w_members := M; w_votes := V |}
      ∈ wins split_end
    /\ V ⊆ voter_ids M
    /\ length (Voters M) < 2 * size V
    /\ forall v, v ∈ V -> (v, (3%N, "c")) ∈ ballots split_end.
Proof.
  apply (leader_has_majority discovery6 split_end "c" 3%N);
    [apply discovery6_ok|apply run_default_reachable|].
  apply (bool_decide_unpack _). by vm_compute.
Defined.

(** [c] voted for [a] with a write that reported failure, crashed, restarted and
    voted for [b] in the next term. *)
Lemma votes_are_durable_witness :
  exists m, nodes static_end !! "c" = Some m
    /\ (forall v', ("c", (1%N, v')) ∈ ballots static_end -> v' <> "" -> v' = "a")
    /\ vote_le (1%N, "a") (currentTerm m, votedFor m)
    /\ exists ps, disk (env m) = Some ps /\ vote_le (1%N, "a") (ps_vote ps).
Proof.
  destruct (node_at role static_end "c" RoleFollower) as (m & Hm & _); [by vm_compute|].
  exists m. split; [done|].
  apply (votes_are_durable static3 static_end "c" m 1%N "a");
    [apply static3_ok|apply static_end_reachable|done| |done].
  apply (bool_decide_unpack _). by vm_compute.
Defined.

Lemma loops_never_panic_witness :
  exists m, nodes split_end !! "c" = Some m /\ role m = RoleLeader
    /\ panicked m = false.
Proof.
  destruct (node_at role split_end "c" RoleLeader) as (m & Hm & Hr); [by vm_compute|].
  exists m. split; [done|]. split; [done|].
  apply (loops_never_panic discovery6 split_end "c" m);
    [apply discovery6_ok|apply run_default_reachable|done].
Defined.

(** The timeout that makes a fresh [a] campaign for term 1. *)
Lemma step_refines_vote_machine_witness :
  let i := {| in_now := (10 * Time.Second)%Z; in_saves := []; in_draws := [];
              in_event := EvElectionTimer |} in
  exists m, nodes (init_cluster static3) !! "a" = Some m
    /\ role (step i m).2 = RoleCandidate
    /\ rtc (vstep EvElectionTimer) (abs m) (abs (step i m).2).
Proof.
  intros i.
  destruct (node_at (fun m => (currentTerm m, role (step i m).2))
              (init_cluster static3) "a" (0%N, RoleCandidate))
    as (m & Hm & E); [by vm_compute|].
  injection E as Et Er. exists m. split; [done|]. split; [done|].
  apply (step_refines_vote_machine i m). rewrite Et. done.
Defined.

(** The two elections of term 1 and term 2 in the discovery run, each compared
    with itself: the hypotheses hold of any election. *)
Lemma adjacent_elections_agree_witness :
  exists w, w ∈ wins discovery_end /\ w_term w = 2%N /\ w_leader w = w_leader w.
Proof.
  assert (Exists (fun w => w_term w = 2%N) (wins discovery_end)) as He
    by (apply (bool_decide_unpack _); by vm_compute).
  apply Exists_exists in He as (w & Hw & Ht). exists w.
  split; [done|]. split; [done|].
  apply (adjacent_elections_agree discovery6 discovery_end w w (at_host "e"));
    [apply discovery6_ok|apply run_default_reachable|done|done|done|by left].
Defined.
