(* ===== verification/WardenMembership.v ===== *)
(** * Membership: well-formedness, single-node changes, admission and removal

    What [services/warden/election/membership.go] keeps true of one node: the
    voters stay sorted and distinct, a discovery candidate is never a voter nor
    the node itself, and the leader's driver changes the voting set by one
    node, only once the current configuration is held by a quorum, and only for
    the reasons the admission and removal rules give. *)

From S2P Require Import Prelude.
From S2P Require Import WardenTypes.
From S2P Require Import WardenManager.
From S2P Require Import WardenElection.
From S2P Require Import WardenSpec.
From S2P Require Import WardenCluster.
From S2P Require Import WardenSafety.
Import WardenSafety.Scenario.

(** ** The invariant *)

Definition voters_ok (vs : list Node) : Prop :=
  NoDup (ID <$> vs) /\ StronglySorted (key_le ID) vs.

(** A tracked candidate is stored under its own ID and is neither this node nor
    a voter. *)
Definition candidate_ok (me : NodeID) (M : Membership) (id : NodeID)
  (c : candidate) : Prop :=
  ID (node c) = id /\ id <> me /\ HasVoter M id = false.

Record membership_wf (m : Manager) : Prop := {
  mw_voters : voters_ok (Voters (membership m));
  mw_candidates :
    map_Forall (candidate_ok (ID (self m)) (membership m)) (candidates m);
}.

(** Memberships come from leaders, which are bound by the same invariant. *)
Definition event_ok (ev : event) : Prop :=
  match ev with
  | EvHeartbeat req => forall M, hq_Membership req = Some M -> voters_ok (Voters M)
  | _ => True
  end.

(** The part of the state the invariant reads. *)
Definition core (m : Manager) : NodeID * Membership * gmap NodeID candidate :=
  (ID (self m), membership m, candidates m).

Lemma wf_core m m' : core m = core m' -> membership_wf m' -> membership_wf m.
Proof. unfold core. intros [= E1 E2 E3] []. constructor; by rewrite ?E1, E2, ?E3. Qed.

(** *** Frames *)

Lemma core_foldl_spawn {A} (f : A -> rpc) l m :
  core (foldl (fun acc x => spawnRPC (f x) acc) m l) = core m.
Proof. revert m. induction l; simpl; intros; [done|]. by rewrite IHl. Qed.

Lemma core_publish m : core (publish m) = core m.
Proof. unfold publish. by case_decide. Qed.

Lemma core_sendHeartbeats m : core (sendHeartbeats m) = core m.
Proof. apply core_foldl_spawn. Qed.

Lemma core_randTimeout m : core (randTimeout m).2 = core m.
Proof. unfold randTimeout. by case_match. Qed.

Lemma core_rearm m : core (rearmElectionTimer m) = core m.
Proof.
  unfold rearmElectionTimer. pose proof (core_randTimeout m).
  by destruct (randTimeout m).
Qed.

Lemma core_armElection m : core (armElection m) = core m.
Proof.
  unfold armElection. pose proof (core_randTimeout m).
  by destruct (randTimeout m).
Qed.

Lemma core_adoptVote t v m : core (adoptVote t v m) = core m.
Proof. unfold adoptVote. by rewrite core_publish, core_armElection. Qed.

Lemma core_resetAcks m : core (resetAcks m) = core m.
Proof. unfold resetAcks. by case_match. Qed.

Lemma core_solicitVotes m : core (solicitVotes m) = core m.
Proof. apply core_foldl_spawn. Qed.

Lemma core_recordAck e m : core (recordAck e m) = core m.
Proof. unfold recordAck. by case_match. Qed.

Create Rewrite HintDb core.
#[export] Hint Rewrite core_publish core_sendHeartbeats core_rearm core_armElection
  core_adoptVote core_resetAcks core_solicitVotes core_recordAck : core.

(** Close a goal about a state whose core is that of one that is well-formed. *)
Ltac same_core H :=
  eapply wf_core; [|exact H]; autorewrite with core; try reflexivity.

(** *** Sorting and voters *)

Lemma HasVoter_In M id : HasVoter M id = true <-> id ∈ ID <$> Voters M.
Proof. rewrite HasVoter_spec. unfold voter_ids. by rewrite elem_of_list_to_set. Qed.

Lemma HasVoter_notin M id : HasVoter M id = false <-> id ∉ ID <$> Voters M.
Proof. rewrite <-HasVoter_In. by destruct (HasVoter M id). Qed.

Lemma voters_ok_sort vs : NoDup (ID <$> vs) -> voters_ok (SortNodes vs).
Proof.
  unfold SortNodes. split; [by rewrite sort_by_perm|apply sort_by_sorted].
Qed.

Lemma StronglySorted_filter {A} (R : relation A) (P : A -> Prop)
  `{forall x, Decision (P x)} (l : list A) :
  StronglySorted R l -> StronglySorted R (filter P l).
Proof.
  induction 1 as [|x l Hs IH Hx]; [constructor|]. rewrite filter_cons.
  case_decide; [|done]. constructor; [done|].
  rewrite Forall_forall in Hx |- *. intros y [_ Hy]%list_elem_of_filter. by apply Hx.
Qed.

Lemma NoDup_fmap_filter {A B} (f : A -> B) (P : A -> Prop)
  `{forall x, Decision (P x)} (l : list A) :
  NoDup (f <$> l) -> NoDup (f <$> filter P l).
Proof.
  intros Hn. eapply sublist_NoDup; [exact Hn|].
  apply fmap_sublist, sublist_filter.
Qed.

Lemma voters_ok_filter (P : Node -> Prop) `{forall x, Decision (P x)} vs :
  voters_ok vs -> voters_ok (filter P vs).
Proof. intros []. split; [by apply NoDup_fmap_filter|by apply StronglySorted_filter]. Qed.

Lemma voters_ok_admitted m n :
  voters_ok (Voters (membership m)) -> HasVoter (membership m) (ID n) = false ->
  voters_ok (Voters (admitted m n)).
Proof.
  intros [Hnd _] Hn. apply voters_ok_sort. rewrite fmap_app. simpl.
  apply NoDup_app. split; [done|]. split; [|apply NoDup_singleton].
  intros x Hx ->%list_elem_of_singleton. by apply HasVoter_notin in Hn.
Qed.

(** *** The candidate table *)

Lemma map_Forall_imap_Some {A B} (P : NodeID -> B -> Prop) (f : NodeID -> A -> option B)
  (mp : gmap NodeID A) :
  (forall id x y, mp !! id = Some x -> f id x = Some y -> P id y) ->
  map_Forall P (map_imap f mp).
Proof.
  intros H id y Hy. rewrite map_lookup_imap in Hy.
  apply bind_Some in Hy as (x & Hx & Hf). eauto.
Qed.

(** [maintainDiscovery] drops voters and self, whatever the table held. *)
Lemma maintainCandidate_keeps m t id c c' :
  maintainCandidate m t id c = Some c' ->
  node c' = node c /\ id <> ID (self m) /\ HasVoter (membership m) id = false.
Proof.
  unfold maintainCandidate. case_decide as Hd; [done|].
  assert (id <> ID (self m)) as Hne by (intros ?; apply Hd; by left).
  assert (HasVoter (membership m) id = false) as Hv
    by (apply not_true_is_false; intros ?; apply Hd; by right).
  repeat case_match; intros; by simplify_eq/=.
Qed.

Lemma probeCandidates_core m :
  exists f, (forall c, node (f c) = node c)
    /\ core (probeCandidates m) = (ID (self m), membership m, f <$> candidates m).
Proof.
  unfold probeCandidates.
  exists (fun c => if needsProbe c then c <| probing := true |> else c).
  split; [intros; by case_match|]. by rewrite core_foldl_spawn.
Qed.

Lemma maintainDiscovery_wf t m :
  voters_ok (Voters (membership m)) ->
  map_Forall (fun id c => ID (node c) = id) (candidates m) ->
  membership_wf (maintainDiscovery t m).
Proof.
  intros Hv Hc. unfold maintainDiscovery.
  match goal with |- membership_wf (probeCandidates ?x) =>
    destruct (probeCandidates_core x) as (f & Hf & E) end.
  unfold core in E. injection E as E1 E2 E3. simpl in *.
  constructor; rewrite ?E1, E2, ?E3; [done|].
  intros id c. rewrite lookup_fmap, map_lookup_imap.
  intros (c1 & Hc1 & ->)%fmap_Some. apply bind_Some in Hc1 as (c0 & H0 & H1).
  destruct (maintainCandidate_keeps _ _ _ _ _ H1) as (En & ? & ?).
  split; [|done]. rewrite Hf, En. by apply Hc.
Qed.

Lemma presentNodes_key r : map_Forall (fun id n => ID n = id) (presentNodes r).
Proof.
  unfold presentNodes. generalize (Nodes r) as l.
  assert (forall l (acc : gmap NodeID Node), map_Forall (fun id n => ID n = id) acc ->
    map_Forall (fun id n => ID n = id) (foldl (fun acc n => <[ ID n := n ]> acc) acc l))
    as H.
  { induction l as [|n l IH]; simpl; intros acc Ha; [done|].
    apply IH. by apply map_Forall_insert_2. }
  intros l. apply H. by apply map_Forall_empty.
Qed.

Lemma node_refreshCandidate oc n : node (refreshCandidate oc n) = n.
Proof. unfold refreshCandidate. simpl. by case_match. Qed.

Lemma node_markAbsent p t id c : node (markAbsent p t id c) = node c.
Proof. unfold markAbsent. by case_decide. Qed.

Lemma reconcileRoster_key r t m :
  map_Forall (fun id c => ID (node c) = id) (candidates m) ->
  map_Forall (fun id c => ID (node c) = id) (reconcileRoster r t m).
Proof.
  intros Hc. unfold reconcileRoster. apply map_Forall_imap_Some.
  intros id c c' Hin [= <-]. rewrite node_markAbsent.
  apply lookup_union_Some_raw in Hin as [Hin|[_ Hin]]; [|by apply Hc].
  rewrite map_lookup_imap in Hin. apply bind_Some in Hin as (n & Hn & Hr).
  case_decide; simplify_eq. rewrite node_refreshCandidate.
  by apply (presentNodes_key r).
Qed.

Lemma wf_keys m : membership_wf m ->
  map_Forall (fun id c => ID (node c) = id) (candidates m).
Proof. intros [_ Hc] id c Hid. by apply (Hc id c). Qed.

Lemma candidate_mono me M M' (cs cs' : gmap NodeID candidate) :
  map_Forall (candidate_ok me M) cs ->
  (forall id, is_Some (cs' !! id) -> HasVoter M id = false -> HasVoter M' id = false) ->
  cs' ⊆ cs ->
  map_Forall (candidate_ok me M') cs'.
Proof.
  intros Hc HM Hsub id c Hid.
  destruct (Hc id c) as (? & ? & ?); [by eapply lookup_weaken|].
  split; [done|]. split; [done|]. by apply HM.
Qed.

(** *** The membership driver *)

Lemma candidate_in m c :
  c ∈ (map_to_list (candidates m)).*2 -> exists id, candidates m !! id = Some c.
Proof.
  intros ([id c'] & -> & Hin)%list_elem_of_fmap.
  exists id. by apply elem_of_map_to_list.
Qed.

Lemma nextAdmission_spec m n :
  nextAdmission m = Some n ->
  exists id c, candidates m !! id = Some c /\ node c = n
    /\ candidateEligible m c (Now m) = true
    /\ forall id' c', candidates m !! id' = Some c' ->
         candidateEligible m c' (Now m) = true -> String.le (ID n) (ID (node c')).
Proof.
  unfold nextAdmission. intros (c & Hc & ->)%fmap_Some_1.
  apply least_by_Some in Hc as [Hin Hleast].
  apply list_elem_of_filter in Hin as [He Hin].
  destruct (candidate_in _ _ Hin) as [id Hid]. exists id, c.
  split; [done|]. split; [done|]. split; [done|].
  intros id' c' Hc' He'. apply Hleast. apply list_elem_of_filter. split; [done|].
  apply list_elem_of_fmap. exists (id', c'). split; [done|].
  by apply elem_of_map_to_list.
Qed.

Lemma nextAdmission_fresh m n :
  membership_wf m -> nextAdmission m = Some n ->
  HasVoter (membership m) (ID n) = false /\ ID n <> ID (self m).
Proof.
  intros Hwf (id & c & Hid & <- & _)%nextAdmission_spec.
  destruct (mw_candidates _ Hwf _ _ Hid) as (-> & ? & ?). done.
Qed.

Lemma applyMembershipChange_wf newM target m :
  membership_wf m -> voters_ok (Voters newM) ->
  (forall id, id <> ID target -> HasVoter (membership m) id = false ->
     HasVoter newM id = false) ->
  membership_wf (applyMembershipChange newM target m).
Proof.
  intros Hwf Hv HM. unfold applyMembershipChange.
  destruct (Save _ m) as [ok m1] eqn:HS. save_step HS. destruct ok; simpl.
  - eapply wf_core.
    { rewrite core_sendHeartbeats, core_publish. reflexivity. }
    constructor; simpl; rewrite ?Clone_id; [done|].
    eapply candidate_mono; [apply Hwf| |apply delete_subseteq].
    intros id [c Hid]. apply HM. apply lookup_delete_Some in Hid. naive_solver.
  - by same_core Hwf.
Qed.

Lemma HasVoter_admitted m n id :
  id <> ID n -> HasVoter (membership m) id = false ->
  HasVoter (admitted m n) id = false.
Proof.
  rewrite !HasVoter_notin. unfold admitted, SortNodes; simpl.
  rewrite sort_by_perm, fmap_app, elem_of_app. simpl.
  rewrite list_elem_of_singleton. naive_solver.
Qed.

Lemma HasVoter_removed m n id :
  HasVoter (removed m n) id = true <->
  id <> ID n /\ HasVoter (membership m) id = true.
Proof.
  rewrite !HasVoter_In. unfold removed; simpl. rewrite !list_elem_of_fmap.
  setoid_rewrite list_elem_of_filter. naive_solver.
Qed.

Lemma maybeStartMembershipChange_wf m :
  membership_wf m -> membership_wf (maybeStartMembershipChange m).
Proof.
  intros Hwf. unfold maybeStartMembershipChange.
  repeat case_match; try done; apply applyMembershipChange_wf; try done.
  - eapply voters_ok_admitted; [apply Hwf|]. by eapply nextAdmission_fresh.
  - intros id. by apply HasVoter_admitted.
  - apply voters_ok_filter, Hwf.
  - intros id _. pose proof (HasVoter_removed m n id). intros Hid.
    destruct (HasVoter (removed m n) id); naive_solver.
Qed.

Lemma driveMembership_wf m : membership_wf m -> membership_wf (driveMembership m).
Proof.
  intros. unfold driveMembership. case_match; [|done].
  by apply maybeStartMembershipChange_wf.
Qed.

Lemma driveIfLeader_wf m : membership_wf m -> membership_wf (driveIfLeader m).
Proof.
  intros. unfold driveIfLeader. case_match; [|done].
  by apply maybeStartMembershipChange_wf.
Qed.

(** *** Every handler *)

Lemma becomeLeader_wf m : membership_wf m -> membership_wf (becomeLeader m).
Proof. intros Hwf. unfold becomeLeader. apply driveMembership_wf. by same_core Hwf. Qed.

Lemma winIfQuorum_wf m : membership_wf m -> membership_wf (winIfQuorum m).
Proof. intros. unfold winIfQuorum. case_match; [by apply becomeLeader_wf|done]. Qed.

Lemma saveState_core t v m : core (saveState t v m).2 = core m.
Proof.
  destruct (saveState t v m) as [ok m1] eqn:HS. save_step HS. done.
Qed.

Lemma startElection_wf m : membership_wf m -> membership_wf (startElection m).
Proof.
  intros Hwf. unfold startElection. case_match; [by same_core Hwf|].
  pose proof (saveState_core (u64_add (currentTerm m) 1) (ID (self m)) m) as E.
  destruct (saveState _ _ m) as [ok m1]. simpl in E.
  case_match; [same_core Hwf; exact E|].
  apply winIfQuorum_wf. same_core Hwf. exact E.
Qed.

Lemma onElectionTimeout_wf m : membership_wf m -> membership_wf (onElectionTimeout m).
Proof.
  intros Hwf. unfold onElectionTimeout.
  repeat case_match; first [by apply startElection_wf|by same_core Hwf].
Qed.

Lemma stepDown_wf t m : membership_wf m -> membership_wf (stepDown t m).
Proof.
  intros Hwf. unfold stepDown. pose proof (saveState_core t "" m) as E.
  destruct (saveState t "" m) as [ok m1]. same_core Hwf. exact E.
Qed.

Lemma onVoteResult_wf e m : membership_wf m -> membership_wf (onVoteResult e m).
Proof.
  intros Hwf. unfold onVoteResult. repeat case_match; try done.
  - by apply stepDown_wf.
  - apply winIfQuorum_wf. by same_core Hwf.
  - by same_core Hwf.
Qed.

Lemma onVote_wf req m : membership_wf m -> membership_wf (onVote req m).2.
Proof.
  intros Hwf. unfold onVote.
  repeat match goal with
  | |- context [saveState ?t ?v ?m] =>
      pose proof (saveState_core t v m); destruct (saveState t v m); simpl in *
  | _ => case_match; simpl; try done
  end; same_core Hwf; done.
Qed.

Lemma dropVoterCandidates_wf m :
  voters_ok (Voters (membership m)) ->
  map_Forall (fun id c => ID (node c) = id) (candidates m) ->
  membership_wf (dropVoterCandidates m).
Proof.
  intros Hv Hc. constructor; [done|]. intros id c.
  intros [Hid Hn]%map_lookup_filter_Some. simpl in *.
  split; [by apply Hc|]. split; [naive_solver|].
  apply not_true_is_false. naive_solver.
Qed.

Lemma adoptMembership_wf newM m :
  membership_wf m -> voters_ok (Voters newM) ->
  membership_wf (adoptMembership newM m).2.
Proof.
  intros Hwf Hv. unfold adoptMembership.
  destruct (Save _ m) as [ok m1] eqn:HS. save_step HS.
  destruct ok; simpl; [|by same_core Hwf].
  unfold demoteIfRemoved.
  case_match; apply dropVoterCandidates_wf; simpl; try done; by apply wf_keys.
Qed.

Lemma onHeartbeat_wf req m :
  membership_wf m -> event_ok (EvHeartbeat req) ->
  membership_wf (onHeartbeat req m).2.
Proof.
  intros Hwf Hev. unfold onHeartbeat. case_match; [done|].
  set (m1 := acceptLeader req _).
  assert (membership_wf m1) as Hm1.
  { unfold m1, acceptLeader, cacheView, adoptHeartbeatTerm.
    pose proof (saveState_core (hq_Term req) "" m) as E.
    destruct (saveState _ _ m) as [? m0]. simpl in E.
    repeat case_match; same_core Hwf; exact E. }
  clearbody m1.
  assert (membership_wf (acceptMembership (hq_Membership req) m1).2) as Hm2.
  { unfold acceptMembership. repeat case_match; try done.
    apply adoptMembership_wf; [done|by apply Hev]. }
  destruct (acceptMembership _ m1) as [acked m2]. simpl in *.
  by same_core Hm2.
Qed.

Lemma recordContact_wf e m : membership_wf m -> membership_wf (recordContact e m).
Proof.
  intros [Hv Hc]. unfold recordContact. repeat case_match; [done| |done].
  constructor; [done|]. simpl. apply map_Forall_insert_2; [|done].
  by apply (Hc _ c).
Qed.

Lemma onHeartbeatResult_wf e m :
  membership_wf m -> membership_wf (onHeartbeatResult e m).
Proof.
  intros Hwf. unfold onHeartbeatResult. pose proof (recordContact_wf e m Hwf) as Hr.
  repeat case_match; try done; [by apply stepDown_wf|by same_core Hr|].
  apply driveMembership_wf. by same_core Hr.
Qed.

Lemma onRoster_wf r m : membership_wf m -> membership_wf (onRoster r m).
Proof.
  intros Hwf. unfold onRoster. apply driveIfLeader_wf, maintainDiscovery_wf; simpl.
  - apply Hwf.
  - by apply reconcileRoster_key, wf_keys.
Qed.

Lemma insert_candidate_wf id c c' m :
  membership_wf m -> candidates m !! id = Some c -> node c' = node c ->
  membership_wf (m <| candidates ::= insert id c' |>).
Proof.
  intros [Hv Hc] Hid En. constructor; [done|]. simpl.
  apply map_Forall_insert_2; [|done]. unfold candidate_ok. rewrite En.
  by apply (Hc _ c).
Qed.

Lemma onIdentifyResult_wf e m : membership_wf m -> membership_wf (onIdentifyResult e m).
Proof.
  intros Hwf. unfold onIdentifyResult. case_match eqn:Hid; [|done].
  case_match; [|apply driveIfLeader_wf]; by eapply insert_candidate_wf.
Qed.

Lemma onHeartbeatTick_wf m : membership_wf m -> membership_wf (onHeartbeatTick m).
Proof.
  intros Hwf. unfold onHeartbeatTick.
  set (m1 := if discoveryMode m then _ else m).
  assert (membership_wf m1) as H1.
  { unfold m1. case_match; [|done].
    apply maintainDiscovery_wf; [apply Hwf|by apply wf_keys]. }
  clearbody m1. case_match; [done|]. apply driveMembership_wf. by same_core H1.
Qed.

Lemma handleEvent_wf ev m :
  membership_wf m -> event_ok ev -> membership_wf (handleEvent ev m).2.
Proof.
  intros Hwf Hev. destruct ev; simpl.
  - pose proof (onVote_wf req m Hwf). by destruct (onVote req m).
  - pose proof (onHeartbeat_wf req m Hwf Hev). by destruct (onHeartbeat req m).
  - by apply onVoteResult_wf.
  - by apply onHeartbeatResult_wf.
  - by apply onIdentifyResult_wf.
  - done.
  - by same_core Hwf.
  - by same_core Hwf.
  - case_match; [by apply onRoster_wf|done].
  - by same_core Hwf.
  - apply onElectionTimeout_wf. by same_core Hwf.
  - by apply onHeartbeatTick_wf.
  - by same_core Hwf.
Qed.

Lemma step_wf i m :
  membership_wf m -> event_ok (in_event i) -> membership_wf (step i m).2.
Proof.
  intros Hwf Hev. unfold step. case_match; [by same_core Hwf|].
  apply handleEvent_wf; [|done]. by same_core Hwf.
Qed.

Lemma NewManager_wf cf ps m :
  NewManager cf true true true (Some ps) = Ok m ->
  (forall s M, ps = Some s -> ps_Membership s = Some M -> NoDup (ID <$> Voters M)) ->
  NoDup (ID <$> Peers cf) -> membership_wf m.
Proof.
  intros HN Hps Hpeers.
  assert (candidates m = ∅) as Hc.
  { unfold NewManager in HN. destruct (validateConfig _ _ _ _); simpl in HN; [|done].
    by injection HN as <-. }
  destruct (NewManager_abs _ _ _ HN) as [_ E].
  pose proof (f_equal v_members E) as EM. simpl in EM.
  constructor; [|rewrite Hc; apply map_Forall_empty].
  rewrite EM. unfold seedMembership.
  repeat case_match; simplify_eq/=; apply voters_ok_sort; try done.
  by eapply Hps.
Qed.

Lemma scanPeers_NoDup me seen found ps b :
  scanPeers me seen found ps = Ok b ->
  NoDup (ID <$> ps) /\ forall x, x ∈ ID <$> ps -> x ∉ seen.
Proof.
  revert seen found. induction ps as [|p ps IH]; intros seen found; simpl.
  { intros _. split; [constructor|]. by intros x ?%elem_of_nil. }
  case_decide as Hd; [done|]. intros [Hnd Hin]%IH. split.
  - constructor; [|done]. intros Hp. apply Hin in Hp. set_solver.
  - intros x [->|Hx]%elem_of_cons; [done|]. apply Hin in Hx. set_solver.
Qed.

Lemma NewManager_peers cf tr st clock loaded m :
  NewManager cf tr st clock loaded = Ok m -> NoDup (ID <$> Peers cf).
Proof.
  unfold NewManager, validateConfig. destruct tr, st, clock; try done.
  do 2 (case_bool_decide; simpl; [done|]).
  destruct (scanPeers _ _ _ _) as [found|] eqn:Hs; [|done].
  intros _. by apply scanPeers_NoDup in Hs as [? _].
Qed.

Lemma boot_core t r d m : core (boot t r d m) = core m.
Proof.
  unfold boot. match goal with |- context [randTimeout ?x] =>
    pose proof (core_randTimeout x) as E; destruct (randTimeout x) end.
  etransitivity; [|exact E]. done.
Qed.

(** ** Properties *)

(** A node that has started and handled a sequence of events. *)
Definition after (m : Manager) (l : list input) : Manager :=
  foldl (fun m i => (step i m).2) m l.

(** The membership invariant.  From its first boot, on a disk whose
    membership lists each voter once, and after any sequence of events whose
    heartbeats carry well-formed memberships, a node's voters are sorted by ID
    without duplicates and its discovery candidates are keyed by their ID and
    are neither voters nor the node itself. *)
Theorem membership_wellformed (cf : Config) (ps : option PersistentState)
  (m : Manager) (t : Time.t) (rand : list Z) (discovered : bool) (l : list input)
  (Hnew : NewManager cf true true true (Some ps) = Ok m)
  (Hdisk : forall s M, ps = Some s -> ps_Membership s = Some M ->
             NoDup (ID <$> Voters M))
  (Hev : Forall (fun i => event_ok (in_event i)) l) :
  membership_wf (after (boot t rand discovered m) l).
Proof.
  unfold after. apply NewManager_wf in Hnew as Hwf; [|done|by eapply NewManager_peers].
  eapply wf_core in Hwf; [|apply (boot_core t rand discovered)].
  revert Hwf. generalize (boot t rand discovered m) as m0.
  induction Hev as [|i l Hi _ IH]; simpl; intros m0 Hwf; [done|].
  by apply IH, step_wf.
Qed.

(** *** The driver *)

Lemma voter_ids_admitted m n :
  voter_ids (admitted m n) = voter_ids (membership m) ∪ {[ID n]}.
Proof.
  apply leibniz_equiv. intros x. unfold voter_ids, admitted, SortNodes; simpl.
  rewrite elem_of_union, !elem_of_list_to_set, sort_by_perm, fmap_app, elem_of_app.
  simpl. by rewrite list_elem_of_singleton, elem_of_singleton.
Qed.

Lemma voter_ids_removed m n :
  voter_ids (removed m n) = voter_ids (membership m) ∖ {[ID n]}.
Proof.
  apply leibniz_equiv. intros x.
  rewrite <-HasVoter_spec, HasVoter_removed, HasVoter_spec, elem_of_difference,
    elem_of_singleton. naive_solver.
Qed.

Lemma applyMembershipChange_effect newM target m m' :
  applyMembershipChange newM target m = m' ->
  membership m' = membership m \/
  (membership m' = newM
   /\ exists ps, disk (env m') = Some ps /\ ps_Membership ps = Some newM
        /\ ps_vote ps = (currentTerm m, votedFor m)).
Proof.
  unfold applyMembershipChange.
  destruct (Save _ m) as [ok m1] eqn:HS. save_step HS. intros <-.
  destruct ok; simpl in *; [right|by left].
  set (m2 := publish _).
  assert (abs (sendHeartbeats m2)
          = (abs m) <| v_members := newM |> <| v_disk := disk e |>) as E.
  { unfold m2. rewrite abs_sendHeartbeats, abs_publish. unfold abs; simpl.
    by rewrite Clone_id. }
  split; [by apply (f_equal v_members) in E|].
  pose proof (f_equal v_disk E) as Ed. simpl in Ed. rewrite Ed, Hdisk.
  eexists. split; [done|]. simpl. by rewrite Clone_id.
Qed.

(** Why the driver may admit [n]. *)
Definition admission_allowed (m : Manager) (n : Node) : Prop :=
  exists c, candidates m !! ID n = Some c /\ node c = n
    /\ inRoster c = true /\ verified c = true /\ eligibleSince c <> 0%Z
    /\ (JoinStability (cfg m) <= Time.Sub (Now m) (eligibleSince c))%Z
    /\ forall id' c', candidates m !! id' = Some c' ->
         candidateEligible m c' (Now m) = true -> String.le (ID n) (ID (node c')).

(** Why the driver may remove [n]: the roster was seen and no longer lists it, a
    quorum of voters is alive, and [n] has been dead for [RemoveAfter]. *)
Definition removal_allowed (m : Manager) (n : Node) : Prop :=
  (0 < RemoveAfter (cfg m))%Z
  /\ n ∈ Voters (membership m) /\ ID n <> ID (self m)
  /\ haveRoster m = true /\ rosterHas (lastRoster m) (ID n) = false
  /\ leaderSeesLiveMajority m (Now m) = true
  /\ leaderPeerStatus m (Now m) (contactOf m (ID n)) = StatusDead
  /\ (RemoveAfter (cfg m)
      <= Time.Sub (Now m) (leaderPeerRef m (contactOf m (ID n))))%Z
  /\ nextAdmission m = None.

Lemma candidateEligible_spec m c t :
  candidateEligible m c t = true <->
  inRoster c = true /\ verified c = true /\ eligibleSince c <> 0%Z
  /\ (JoinStability (cfg m) <= Time.Sub t (eligibleSince c))%Z.
Proof.
  unfold candidateEligible, Time.IsZero.
  rewrite !andb_true_iff, negb_true_iff, Z.eqb_neq, Z.leb_le. naive_solver.
Qed.

Lemma admission_ok m n :
  membership_wf m -> nextAdmission m = Some n -> admission_allowed m n.
Proof.
  intros Hwf (id & c & Hid & <- & He & Hleast)%nextAdmission_spec.
  apply candidateEligible_spec in He as (? & ? & ? & ?).
  exists c. destruct (mw_candidates _ Hwf _ _ Hid) as (-> & _ & _).
  repeat split; try done. destruct (mw_candidates _ Hwf _ _ Hid) as (<- & _ & _). done.
Qed.

Lemma removal_ok m n :
  (0 < RemoveAfter (cfg m))%Z -> nextAdmission m = None ->
  nextRemoval m = Some n -> removal_allowed m n.
Proof.
  intros Hpos Hna Hr. pose proof (nextRemoval_voter _ _ Hr) as Hin.
  unfold nextRemoval in Hr.
  destruct (haveRoster m) eqn:Hroster; simpl in Hr; [|done].
  destruct (leaderSeesLiveMajority m (Now m)) eqn:Hlive; simpl in Hr; [|done].
  apply least_by_Some in Hr as [Hr _]. apply list_elem_of_filter in Hr as [Hr _].
  unfold removable in Hr. apply andb_true_iff in Hr as [[Hr Hdead]%andb_true_iff Hage].
  apply negb_true_iff, orb_false_iff in Hr as [Hself Hros].
  apply bool_decide_eq_false in Hself. apply bool_decide_eq_true in Hdead.
  apply Z.leb_le in Hage. by repeat split.
Qed.

(** C35: single-node changes.  When the leader's driver changes the voting set, the
    node leads in discovery mode, a quorum of the current voters has acked the
    current configuration, the new one has the next version and this term, it
    is already on disk, and it differs by exactly one node: the lowest eligible
    candidate added, or an absent, dead voter other than the leader removed. *)
Theorem driver_changes_one_voter (m m' : Manager)
  (Hwf : membership_wf m) (Hdrive : maybeStartMembershipChange m = m')
  (Hchange : membership m' <> membership m) :
  role m = RoleLeader /\ discoveryMode m = true
  /\ quorum m <= length (settledVoters m)
  /\ Version (membership m') = u64_add (Version (membership m)) 1
  /\ CreatedInTerm (membership m') = currentTerm m
  /\ (exists ps, disk (env m') = Some ps /\ ps_Membership ps = Some (membership m')
        /\ ps_vote ps = (currentTerm m, votedFor m))
  /\ exists n,
       (~ (ID n ∈ voter_ids (membership m)) /\ admission_allowed m n
        /\ voter_ids (membership m') = voter_ids (membership m) ∪ {[ID n]})
       \/ (removal_allowed m n
           /\ voter_ids (membership m') = voter_ids (membership m) ∖ {[ID n]}).
Proof.
  unfold maybeStartMembershipChange in Hdrive.
  destruct (discoveryMode m) eqn:Hd; simpl in Hdrive; [|congruence].
  destruct (decide (role m = RoleLeader)) as [Hr|Hr];
    [rewrite bool_decide_true in Hdrive by done
    |rewrite bool_decide_false in Hdrive by done; simpl in Hdrive; congruence].
  simpl in Hdrive. destruct (changeSettled m) eqn:Hs; simpl in Hdrive; [|congruence].
  apply Nat.leb_le in Hs. split; [done|]. split; [done|]. split; [done|].
  destruct (nextAdmission m) as [n|] eqn:Hn.
  - destruct (applyMembershipChange_effect _ _ _ _ Hdrive) as [?|[E Hdisk]]; [done|].
    rewrite E. split; [done|]. split; [done|]. split; [done|].
    exists n. left. split; [|split].
    + apply HasVoter_false. by eapply nextAdmission_fresh.
    + by apply admission_ok.
    + apply voter_ids_admitted.
  - destruct (0 <? RemoveAfter (cfg m))%Z eqn:Hpos; [|congruence].
    apply Z.ltb_lt in Hpos.
    destruct (nextRemoval m) as [n|] eqn:Hrem; [|congruence].
    destruct (applyMembershipChange_effect _ _ _ _ Hdrive) as [?|[E Hdisk]]; [done|].
    rewrite E. split; [done|]. split; [done|]. split; [done|].
    exists n. right. split; [by apply removal_ok|apply voter_ids_removed].
Qed.

(** ** Witnesses *)

(** [membership_wf], decided on a concrete state. *)
Definition wf_check (m : Manager) : bool :=
  bool_decide (NoDup (ID <$> Voters (membership m)))
  && bool_decide (Voters (membership m) = SortNodes (Voters (membership m)))
  && bool_decide (map_Forall (fun id c => ID (node c) = id /\ id <> ID (self m)
                    /\ HasVoter (membership m) id = false) (candidates m)).

Lemma wf_check_sound m : wf_check m = true -> membership_wf m.
Proof.
  unfold wf_check. rewrite !andb_true_iff, !bool_decide_eq_true.
  intros [[Hnd Hs] Hc]. constructor; [|exact Hc]. rewrite Hs. by apply voters_ok_sort.
Qed.

(** A discovery node's first election and its first roster. *)
Definition first_events : list input :=
  (fun e => {| in_now := (10 * Time.Second)%Z; in_saves := []; in_draws := [];
               in_event := e |}) <$>
  [EvElectionTimer;
   EvVoteResult {| vrm_term := 1%N; vrm_from := "b";
     vrm_resp := Some {| vr_Term := 1%N; vr_Granted := true; vr_VoterID := "b" |} |};
   EvVoteResult {| vrm_term := 1%N; vrm_from := "c";
     vrm_resp := Some {| vr_Term := 1%N; vr_Granted := true; vr_VoterID := "c" |} |};
   EvRoster {| Nodes := at_host <$> ["a"; "b"; "e"] |}].

Lemma membership_wellformed_witness :
  exists m, NewManager (config_of (at_host "a") seeds true) true true true (Some None) = Ok m
    /\ let m' := after (boot 0%Z [] true m) first_events in
       (role m' = RoleLeader /\ (map_to_list (candidates m')).*1 = ["e"])
       /\ membership_wf m'.
Proof.
  set (r := NewManager (config_of (at_host "a") seeds true) true true true (Some None)).
  assert (match r with
          | Ok m => let m' := after (boot 0%Z [] true m) first_events in
                    role m' = RoleLeader /\ (map_to_list (candidates m')).*1 = ["e"]
          | Err _ => False end) as Hr by by vm_compute.
  destruct r as [m|] eqn:E; [|done]. exists m. split; [done|].
  split; [exact Hr|].
  apply (membership_wellformed (config_of (at_host "a") seeds true) None m);
    [exact E|done|by repeat constructor].
Defined.

(** [a] at the tick that admits [e]. *)
Definition before_admission : cluster := state_after (take 12 admit_e).
Definition tick51 : input :=
  {| in_now := (51 * Time.Second)%Z; in_saves := []; in_draws := [];
     in_event := EvHeartbeatTicker |}.

Lemma driver_changes_one_voter_witness :
  exists m0, nodes before_admission !! "a" = Some m0 /\
  let m := load tick51 m0 in
  let m' := maybeStartMembershipChange m in
  (ID <$> Voters (membership m') = ["a"; "b"; "c"; "d"; "e"])
  /\ role m = RoleLeader /\ discoveryMode m = true
  /\ quorum m <= length (settledVoters m)
  /\ Version (membership m') = u64_add (Version (membership m)) 1
  /\ CreatedInTerm (membership m') = currentTerm m
  /\ (exists ps, disk (env m') = Some ps /\ ps_Membership ps = Some (membership m')
        /\ ps_vote ps = (currentTerm m, votedFor m))
  /\ exists n,
       (~ (ID n ∈ voter_ids (membership m)) /\ admission_allowed m n
        /\ voter_ids (membership m') = voter_ids (membership m) ∪ {[ID n]})
       \/ (removal_allowed m n
           /\ voter_ids (membership m') = voter_ids (membership m) ∖ {[ID n]}).
Proof.
  destruct (node_at (fun m0 => let m := load tick51 m0 in
      (wf_check m, length (Voters (membership m)),
       ID <$> Voters (membership (maybeStartMembershipChange m))))
    before_admission "a" (true, 4, ["a"; "b"; "c"; "d"; "e"]))
    as (m0 & Hm & E); [by vm_compute|].
  exists m0. split; [done|]. intros m m'. injection E as Ewf Elen Eids.
  split; [exact Eids|].
  apply (driver_changes_one_voter m m'); [by apply wf_check_sound|done|].
  assert (length (Voters (membership m')) = 5) as E5
    by (rewrite <-(length_fmap ID); exact (f_equal length Eids)).
  intros Heq. rewrite Heq in E5. by rewrite (Elen : length (Voters (membership m)) = 4) in E5.
Defined.
