(* ===== verification/WardenNode.v ===== *)
(** * One node: votes, heartbeats, timers, views and configuration

    Functional specifications of the handlers of [services/warden/election] on
    every branch, and the local guarantees the rest of the service builds on:
    observers stay passive, the election timer is never lost, views list every
    member once, and a fresh leader does not declare anyone dead. *)

From S2P Require Import Prelude.
From S2P Require Import WardenTypes.
From S2P Require Import WardenManager.
From S2P Require Import WardenElection.
From S2P Require Import WardenSpec.
From S2P Require Import WardenCluster.
From S2P Require Import WardenSafety.
From S2P Require Import WardenMembership.
Import WardenSafety.Scenario.

(** ** Votes *)

(** What the first [Save] of a turn will do. *)
Definition next_save (m : Manager) : SaveOutcome :=
  default SaveDurable (head (saves (env m))).

Definition record_of (m : Manager) (t : Term) (v : NodeID) : PersistentState :=
  {| ps_CurrentTerm := t; ps_VotedFor := v;
     ps_Membership := if discoveryMode m then Some (membership m) else None |}.

Lemma saveState_spec t v m ok m1 :
  saveState t v m = (ok, m1) ->
  exists e, m1 = m <| env := e |> /\ now e = now (env m)
    /\ (ok = true <-> next_save m = SaveDurable)
    /\ (ok = true -> disk e = Some (record_of m t v)).
Proof.
  unfold saveState, Save, next_save, record_of. rewrite Clone_id.
  destruct (default SaveDurable _); intros; simplify_eq/=;
    (eexists; split; [reflexivity|]); simpl; naive_solver.
Qed.

Lemma adoptVote_fields t v m :
  let m' := adoptVote t v m in
  currentTerm m' = t /\ votedFor m' = v /\ role m' = RoleFollower
  /\ leaderID m' = "" /\ disk (env m') = disk (env m) /\ membership m' = membership m.
Proof.
  intros m'.
  assert (abs m' = (abs m) <| v_term := t |> <| v_vote := v |>
            <| v_role := RoleFollower |> <| v_leader := "" |>) as E
    by (unfold m', adoptVote; by autorewrite with abs).
  clearbody m'. by injection E.
Qed.

(** The condition under which [onVote] grants, store aside. *)
Definition grantable (req : VoteRequest) (m : Manager) : Prop :=
  isObserver m = false /\ (currentTerm m <= vq_Term req)%N
  /\ isVoter m (vq_CandidateID req) = true
  /\ ((currentTerm m < vq_Term req)%N \/ votedFor m = ""
      \/ votedFor m = vq_CandidateID req).

(** The vote decision.  A vote is granted exactly when the node is no observer,
    the request is not from an old term, its candidate is a voter, no other vote
    was cast in that term and the new vote reaches the disk; it is then both in
    memory and on disk.  A refusal never changes the vote of the current term,
    and answers with the term the node is left in. *)
Theorem onVote_decision (req : VoteRequest) (m m' : Manager) (r : VoteResponse)
  (Hvote : onVote req m = (r, m')) :
  (vr_Granted r = true <-> grantable req m /\ next_save m = SaveDurable)
  /\ vr_Term r = currentTerm m'
  /\ (vr_Granted r = true ->
        currentTerm m' = vq_Term req /\ votedFor m' = vq_CandidateID req
        /\ role m' = RoleFollower
        /\ disk (env m') = Some (record_of m (vq_Term req) (vq_CandidateID req)))
  /\ (vr_Granted r = false ->
        (currentTerm m' = currentTerm m /\ votedFor m' = votedFor m
         /\ role m' = role m)
        \/ ((currentTerm m < vq_Term req)%N /\ currentTerm m' = vq_Term req
            /\ votedFor m' = "" /\ role m' = RoleFollower)).
Proof.
  unfold onVote in Hvote. unfold grantable.
  destruct (isObserver m); [simplify_eq/=; naive_solver|].
  destruct (_ <? _)%N eqn:Hold in Hvote; [apply N.ltb_lt in Hold; simplify_eq/=; naive_solver lia|].
  apply N.ltb_ge in Hold.
  set (newer := (currentTerm m <? vq_Term req)%N) in *.
  set (t := if newer then vq_Term req else currentTerm m) in *.
  assert (t = vq_Term req) as Ht.
  { unfold t. destruct newer eqn:E; [done|]. apply N.ltb_ge in E. lia. }
  clearbody t. subst t.
  assert (newer = true <-> (currentTerm m < vq_Term req)%N) as Hnewer
    by apply N.ltb_lt. clearbody newer.
  destruct (isVoter m (vq_CandidateID req) && _) eqn:Hgrant.
  - destruct (saveState _ _ m) as [ok m1] eqn:HS.
    apply saveState_spec in HS as (e & -> & _ & Hok & Hdisk).
    apply andb_true_iff in Hgrant as [Hv Hor].
    apply orb_true_iff in Hor. rewrite !bool_decide_eq_true in Hor.
    destruct ok; simpl in Hvote.
    + pose proof (adoptVote_fields (vq_Term req) (vq_CandidateID req)
        m <| env := e |>) as (E1 & E2 & E3 & _ & E5 & _).
      simplify_eq/=. rewrite E5, Hdisk by done.
      split; [|by repeat split; rewrite ?E1].
      split; [|done]. intros _. split; [|by apply Hok].
      split; [done|]. split; [done|]. split; [done|].
      destruct newer; naive_solver.
    + simplify_eq/=. split; [naive_solver|]. split; [done|].
      split; [done|]. by left.
  - assert (~ (isVoter m (vq_CandidateID req) = true
      /\ ((currentTerm m < vq_Term req)%N \/ votedFor m = ""
          \/ votedFor m = vq_CandidateID req))) as Hno.
    { intros [Hv Hor]. rewrite Hv in Hgrant. simpl in Hgrant.
      apply orb_false_iff in Hgrant. rewrite !bool_decide_eq_false in Hgrant.
      destruct newer; naive_solver. }
    destruct newer.
    + destruct (saveState _ _ m) as [ok m1] eqn:HS.
      apply saveState_spec in HS as (e & -> & _).
      pose proof (adoptVote_fields (vq_Term req) "" m <| env := e |>)
        as (E1 & E2 & E3 & _ & _ & _).
      destruct ok; simplify_eq/=; naive_solver.
    + simplify_eq/=. naive_solver.
Qed.

(** ** Heartbeats *)

Lemma Save_value ps m ok m1 :
  Save ps m = (ok, m1) ->
  exists e, m1 = m <| env := e |> /\ now e = now (env m)
    /\ (ok = true -> disk e = Some ps).
Proof.
  unfold Save. destruct (default SaveDurable _); intros; simplify_eq/=;
    (eexists; split; [reflexivity|]); done.
Qed.

(** The fields a heartbeat decides that no later assignment of it touches. *)
Definition heard (m : Manager) : Term * NodeID * NodeID * Time.t * bool :=
  (currentTerm m, votedFor m, leaderID m, lastLeaderContact m, discoveryMode m).

Lemma heard_publish m : heard (publish m) = heard m.
Proof. unfold publish. by case_decide. Qed.

Lemma heard_armElection m : heard (armElection m) = heard m.
Proof. unfold armElection, randTimeout. by destruct (_ <=? 0)%Z. Qed.

Lemma acceptLeader_heard req m :
  let m1 := acceptLeader req (adoptHeartbeatTerm (hq_Term req) m) in
  heard m1 =
    (if (currentTerm m <? hq_Term req)%N then hq_Term req else currentTerm m,
     if (currentTerm m <? hq_Term req)%N then "" else votedFor m,
     hq_LeaderID req, Now m, discoveryMode m)
  /\ role m1 = RoleFollower /\ membership m1 = membership m.
Proof.
  unfold acceptLeader, adoptHeartbeatTerm, cacheView, Now.
  destruct (_ <? _)%N; [|by destruct (hq_View req)].
  destruct (saveState (hq_Term req) "" m) as [ok m0] eqn:HS.
  apply saveState_spec in HS as (e & -> & Hn & _).
  unfold heard. destruct (hq_View req); simpl; by rewrite Hn.
Qed.

(** The outcome of the membership half of a heartbeat. *)
Lemma acceptMembership_spec oM m ok m1 :
  acceptMembership oM m = (ok, m1) -> role m = RoleFollower ->
  heard m1 = heard m /\ role m1 = RoleFollower
  /\ match oM with
     | Some M =>
         if discoveryMode m && Supersedes M (membership m)
         then if ok
              then membership m1 = M
                   /\ disk (env m1)
                      = Some {| ps_CurrentTerm := currentTerm m;
                                ps_VotedFor := votedFor m;
                                ps_Membership := Some M |}
              else membership m1 = membership m
         else ok = true /\ m1 = m
     | None => ok = true /\ m1 = m
     end.
Proof.
  unfold acceptMembership, adoptMembership. intros H Hr.
  destruct oM as [M|]; [|by simplify_eq].
  destruct (discoveryMode m && _); [|by simplify_eq].
  destruct (Save _ m) as [ok1 m0] eqn:HS.
  apply Save_value in HS as (e & -> & _ & Hdisk).
  rewrite !Clone_id in *. destruct ok1; simplify_eq/=; [|done].
  unfold demoteIfRemoved. specialize (Hdisk eq_refl).
  by destruct (selfIsVoter _ && _).
Qed.

(** A heartbeat is refused exactly when it is from an old term, and then
    changes nothing; any other one makes the node a follower of its sender in its
    term, keeps the vote of the current term, and stamps the contact time. *)
Theorem onHeartbeat_follows (req : HeartbeatRequest) (m m' : Manager)
  (r : HeartbeatResponse) (Hhb : onHeartbeat req m = (r, m')) :
  ((hq_Term req < currentTerm m)%N -> m' = m /\ hr_OK r = false
      /\ hr_Term r = currentTerm m)
  /\ ((currentTerm m <= hq_Term req)%N ->
        currentTerm m' = hq_Term req /\ hr_Term r = hq_Term req
        /\ role m' = RoleFollower /\ leaderID m' = hq_LeaderID req
        /\ lastLeaderContact m' = Now m
        /\ votedFor m' = (if decide (currentTerm m = hq_Term req)
                          then votedFor m else "")).
Proof.
  unfold onHeartbeat in Hhb. destruct (_ <? _)%N eqn:Hold.
  { apply N.ltb_lt in Hold. simplify_eq/=. split; [done|lia]. }
  apply N.ltb_ge in Hold. split; [lia|]. intros _.
  pose proof (acceptLeader_heard req m) as (Eh & Er & _).
  set (m1 := acceptLeader req _) in *. clearbody m1.
  destruct (acceptMembership _ m1) as [acked m2] eqn:Ha.
  apply acceptMembership_spec in Ha as (E2 & Er2 & _); [|done].
  assert (heard (publish (armElection m2)) = heard m1) as E3
    by (by rewrite heard_publish, heard_armElection).
  assert (role (publish (armElection m2)) = RoleFollower) as Er3.
  { change (role ?x) with (v_role (abs x)). by autorewrite with abs. }
  set (m3 := publish (armElection m2)) in *. clearbody m3.
  injection Hhb as <- <-. simpl. rewrite Eh in E3. unfold heard in E3.
  destruct (currentTerm m <? hq_Term req)%N eqn:Hn in E3; injection E3 as -> -> -> -> _.
  - apply N.ltb_lt in Hn. rewrite decide_False by lia. done.
  - apply N.ltb_ge in Hn. assert (currentTerm m = hq_Term req) as <- by lia.
    by rewrite decide_True.
Qed.

(** An acknowledged membership is durable.  When a discovery-mode node answers
    OK to a heartbeat that carries a membership, it holds that one or a newer
    one, and if the membership is news, it is on disk, with the node's term and
    vote, before the answer leaves. *)
Theorem heartbeat_ok_is_durable (req : HeartbeatRequest) (m m' : Manager)
  (r : HeartbeatResponse) (M : Membership)
  (Hhb : onHeartbeat req m = (r, m')) (Hok : hr_OK r = true)
  (Hdisc : discoveryMode m = true) (HM : hq_Membership req = Some M) :
  mem_le M (membership m')
  /\ (Supersedes M (membership m) = true ->
        membership m' = M
        /\ disk (env m') = Some {| ps_CurrentTerm := currentTerm m';
                                   ps_VotedFor := votedFor m';
                                   ps_Membership := Some M |}).
Proof.
  unfold onHeartbeat in Hhb. destruct (_ <? _)%N; [by simplify_eq|].
  pose proof (acceptLeader_heard req m) as (Eh & Er & Em).
  set (m1 := acceptLeader req _) in *. clearbody m1.
  destruct (acceptMembership _ m1) as [acked m2] eqn:Ha.
  apply acceptMembership_spec in Ha as (E2 & _ & Ha); [|done].
  assert (abs (publish (armElection m2)) = abs m2) as E3 by by autorewrite with abs.
  set (m3 := publish (armElection m2)) in *. clearbody m3.
  injection Hhb as <- <-. simpl in Hok. subst acked. rewrite HM in Ha. apply abs_fields in E3 as (_ & _ & -> & -> & _ & _ & _ & -> & -> & _).
  assert (discoveryMode m1 = true) as Hd1 by (unfold heard in Eh; congruence).
  rewrite Hd1, Em in Ha. unfold heard in E2. injection E2 as -> -> _ _ _.
  simpl in Ha. destruct (Supersedes M (membership m)) eqn:HS.
  - destruct Ha as [-> ->]. split; [|done]. reflexivity.
  - destruct Ha as [_ ->]. rewrite Em. split; [exact HS|done].
Qed.

(** ** Turns *)

Lemma vsteps_forward ev s s' :
  rtc (vstep ev) s s' -> vote_le (v_ballot s) (v_ballot s').
Proof.
  induction 1 as [|s1 s2 s3 H12 _ IH]; [done|].
  destruct (vstep_forward _ _ _ H12) as [H _]. by etrans.
Qed.

(** A turn never goes back: the term never decreases and, while it stays the
    same, a vote that was cast stays cast, in memory, whatever the store does. *)
Theorem turn_never_goes_back (i : input) (m : Manager)
  (Hterm : (currentTerm m < max_uint64)%N) :
  (currentTerm m <= currentTerm (step i m).2)%N
  /\ (currentTerm (step i m).2 = currentTerm m -> votedFor m <> "" ->
      votedFor (step i m).2 = votedFor m).
Proof.
  pose proof (vsteps_forward _ _ _ (step_vsteps i m Hterm)) as H.
  split; [exact (vote_le_term _ _ H)|].
  intros E Hv. destruct H as [H|[_ [H|H]]]; simpl in *; [lia|done|done].
Qed.

(** What an observer keeps while it handles [ev]. *)
Definition passive (ev : event) (vote : NodeID) (s : vstate) : Prop :=
  v_role s = RoleFollower /\ v_disc s = true
  /\ (HasVoter (v_members s) (v_me s) = false \/ exists req, ev = EvHeartbeat req)
  /\ (v_vote s = vote \/ v_vote s = "").

Lemma vstep_passive ev vote s s' :
  vstep ev s s' -> passive ev vote s -> passive ev vote s'.
Proof.
  intros Hstep (Hr & Hd & Hev & Hv). unfold passive.
  destruct Hstep as
    [? ? _ _ ->|? -> _ _ Hobs _ ->|e resp V -> He Hg Ht Hc Hin HV ->|V Hc HV _ ->
    |? ? -> Hobs _ _ _ ->|? ? ? _ _ _ _ ->|? -> Ht ->|? ? Hc _ _ _ _ ->
    |? ? ? ? -> _ _ _ _ _ _ Hvs ->|Hc HV ->]; simpl;
    try (by rewrite Hr in Hc); try done; try (by repeat split; auto).
  - exfalso. destruct Hev as [Hev|[? ?]]; [|done]. rewrite Hobs in Hev; done.
  - exfalso. destruct Hev as [Hev|[? ?]]; [|done]. rewrite Hobs in Hev; done.
  - repeat split; auto. right. by eexists.
Qed.

(** Observers are passive.  Whatever event a follower handles while it is no
    voter of its own membership, it stays a follower and casts no vote: it never
    campaigns, never grants and never leads before a leader admits it. *)
Theorem observers_are_passive (i : input) (m : Manager)
  (Hterm : (currentTerm m < max_uint64)%N) (Hobs : isObserver m = true)
  (Hrole : role m = RoleFollower) :
  role (step i m).2 = RoleFollower
  /\ (votedFor (step i m).2 = votedFor m \/ votedFor (step i m).2 = "").
Proof.
  unfold isObserver in Hobs. apply andb_true_iff in Hobs as [Hd Hv].
  apply negb_true_iff in Hv.
  assert (passive (in_event i) (votedFor m) (abs (step i m).2)) as (? & _ & _ & ?); [|done].
  assert (passive (in_event i) (votedFor m) (abs m)) as H0 by (repeat split; auto).
  revert H0. generalize (step_vsteps i m Hterm). generalize (abs (step i m).2).
  induction 1; eauto using vstep_passive.
Qed.

(** ** The election timer *)

Section timer.
Let et := electionTimer.

Lemma et_foldl_spawn {A} (f : A -> rpc) l m :
  et (foldl (fun acc x => spawnRPC (f x) acc) m l) = et m.
Proof. revert m. induction l; simpl; intros; [done|]. by rewrite IHl. Qed.

Lemma et_publish m : et (publish m) = et m.
Proof. unfold publish. by case_decide. Qed.

Lemma et_sendHeartbeats m : et (sendHeartbeats m) = et m.
Proof. apply et_foldl_spawn. Qed.

Lemma et_applyMembershipChange M n m : et (applyMembershipChange M n m) = et m.
Proof.
  unfold applyMembershipChange. destruct (Save _ m) as [ok m1] eqn:HS. save_step HS.
  destruct ok; simpl; [|done]. by rewrite et_sendHeartbeats, et_publish.
Qed.

Lemma et_maybeStart m : et (maybeStartMembershipChange m) = et m.
Proof.
  unfold maybeStartMembershipChange.
  repeat case_match; try done; apply et_applyMembershipChange.
Qed.

Lemma et_driveMembership m : et (driveMembership m) = et m.
Proof. unfold driveMembership. case_match; [apply et_maybeStart|done]. Qed.

Lemma et_driveIfLeader m : et (driveIfLeader m) = et m.
Proof. unfold driveIfLeader. case_match; [apply et_maybeStart|done]. Qed.

Lemma et_maintainDiscovery t m : et (maintainDiscovery t m) = et m.
Proof. unfold maintainDiscovery, probeCandidates. by rewrite et_foldl_spawn. Qed.

Lemma et_winIfQuorum m : et (winIfQuorum m) = et m.
Proof.
  unfold winIfQuorum, becomeLeader, resetAcks. case_match; [|done].
  rewrite et_driveMembership, et_sendHeartbeats, et_publish. by case_match.
Qed.

Lemma et_solicitVotes m : et (solicitVotes m) = et m.
Proof. apply et_foldl_spawn. Qed.
End timer.

Create Rewrite HintDb et.
#[export] Hint Rewrite et_publish et_sendHeartbeats et_driveMembership
  et_driveIfLeader et_maintainDiscovery et_winIfQuorum et_solicitVotes : et.

Lemma armed_reset d m :
  is_Some (armed (electionTimer (resetElectionTimer d m))).
Proof. unfold resetElectionTimer, Timer_Stop. case_bool_decide; simpl; by eexists. Qed.

Lemma armed_armElection m : is_Some (armed (electionTimer (armElection m))).
Proof. unfold armElection. destruct (randTimeout m). apply armed_reset. Qed.

Lemma armed_rearm m : is_Some (armed (electionTimer (rearmElectionTimer m))).
Proof. unfold rearmElectionTimer. destruct (randTimeout m). apply armed_reset. Qed.

Lemma armed_adoptVote t v m : is_Some (armed (electionTimer (adoptVote t v m))).
Proof. unfold adoptVote. rewrite et_publish. apply armed_armElection. Qed.
#[export] Hint Resolve armed_reset armed_armElection armed_rearm armed_adoptVote
  : candace.

Lemma armed_stepDown t m : is_Some (armed (electionTimer (stepDown t m))).
Proof. unfold stepDown. destruct (saveState t "" m). apply armed_adoptVote. Qed.

Lemma onElectionTimeout_arms m : is_Some (armed (electionTimer (onElectionTimeout m))).
Proof.
  unfold onElectionTimeout, startElection.
  repeat case_match; auto with candace.
  autorewrite with et. apply armed_armElection.
Qed.

Lemma handleEvent_arms ev m :
  ev = EvElectionTimer \/ is_Some (armed (electionTimer m)) ->
  is_Some (armed (electionTimer (handleEvent ev m).2)).
Proof.
  intros [->|Hm]; [apply onElectionTimeout_arms|].
  destruct ev; simpl; try done.
  - unfold onVote.
    repeat match goal with
    | |- context [saveState ?t ?v ?m] =>
        let E := fresh in destruct (saveState t v m) as [? ?] eqn:E; save_step E
    | _ => case_match; simpl; try done
    end; simplify_eq/=; auto with candace.
  - assert (is_Some (armed (electionTimer (onHeartbeat req m).2)));
      [|by destruct (onHeartbeat req m)].
    unfold onHeartbeat. case_match; [done|]. destruct (acceptMembership _ _). simpl.
    rewrite et_publish. apply armed_armElection.
  - unfold onVoteResult. repeat case_match; try done; autorewrite with et; try done.
    apply armed_stepDown.
  - unfold onHeartbeatResult, recordAck, recordContact.
    repeat case_match; autorewrite with et; try done; apply armed_stepDown.
  - unfold onIdentifyResult. repeat case_match; autorewrite with et; done.
  - case_match; [|done]. unfold onRoster. by autorewrite with et.
  - apply onElectionTimeout_arms.
  - unfold onHeartbeatTick. repeat case_match; by autorewrite with et.
  - by rewrite et_publish.
Qed.

(** The election timer is never lost.  After [Run] has armed it, and whatever
    events the loop then handles in whatever order, with any store failures, an
    election timeout is always pending, so a node without a leader always gets
    to campaign. *)
Theorem election_timer_never_lost (m : Manager) (t : Time.t) (rand : list Z)
  (discovered : bool) (l : list input) :
  is_Some (armed (electionTimer (after (boot t rand discovered m) l))).
Proof.
  assert (is_Some (armed (electionTimer (boot t rand discovered m)))) as H.
  { unfold boot. destruct (randTimeout _). by eexists. }
  revert H. generalize (boot t rand discovered m). unfold after.
  induction l as [|i l IH]; simpl; intros m0 H; [done|]. apply IH.
  unfold step. case_match; [done|]. apply handleEvent_arms. by right.
Qed.

(** ** Statuses *)

Lemma Sub_mono a b c : (b <= c)%Z -> (Time.Sub a c <= Time.Sub a b)%Z.
Proof. intros. unfold Time.Sub. apply i64_clamp_mono. lia. Qed.

Lemma leaderPeerRef_max m lc : leaderPeerRef m lc = Z.max lc (becameLeaderAt m).
Proof. unfold leaderPeerRef, Time.After. case_match eqn:E; lia. Qed.

Lemma ageStatus_spec c age :
  (SuspectAfter c <= DeadAfter c)%Z ->
  (ageStatus c age = StatusDead <-> (DeadAfter c <= age)%Z)
  /\ (ageStatus c age = StatusSuspect <-> (SuspectAfter c <= age < DeadAfter c)%Z)
  /\ (ageStatus c age = StatusAlive <-> (age < SuspectAfter c)%Z)
  /\ ageStatus c age <> StatusUnknown.
Proof.
  intros H. unfold ageStatus.
  destruct (_ <=? _)%Z eqn:E; [apply Z.leb_le in E|apply Z.leb_gt in E;
    destruct (SuspectAfter c <=? age)%Z eqn:E2;
    [apply Z.leb_le in E2|apply Z.leb_gt in E2]];
    repeat split; intros; try done; lia.
Qed.

(** The leader's view of a peer.  With thresholds in order, a peer is unknown
    exactly when it never answered and the leader is younger than
    [SuspectAfter]; otherwise its status is decided by the time since it last
    answered or, if later, since this node became leader.  In particular a
    leader calls nobody dead before it has led for [DeadAfter]. *)
Theorem leader_status_by_age (m : Manager) (at_ lc : Time.t)
  (Hord : (SuspectAfter (cfg m) <= DeadAfter (cfg m))%Z) :
  let status := leaderPeerStatus m at_ lc in
  let age := Time.Sub at_ (Z.max lc (becameLeaderAt m)) in
  let fresh := (lc = 0%Z
                /\ (Time.Sub at_ (becameLeaderAt m) < SuspectAfter (cfg m))%Z) in
  (status = StatusUnknown <-> fresh)
  /\ (status = StatusDead <-> ~ fresh /\ (DeadAfter (cfg m) <= age)%Z)
  /\ (status = StatusSuspect
        <-> ~ fresh /\ (SuspectAfter (cfg m) <= age < DeadAfter (cfg m))%Z)
  /\ (status = StatusAlive <-> ~ fresh /\ (age < SuspectAfter (cfg m))%Z)
  /\ ((Time.Sub at_ (becameLeaderAt m) < DeadAfter (cfg m))%Z ->
        status <> StatusDead).
Proof.
  intros status age fresh. unfold status, leaderPeerStatus, Time.IsZero.
  rewrite leaderPeerRef_max. fold age.
  assert ((age <= Time.Sub at_ (becameLeaderAt m))%Z) as Hage
    by (apply Sub_mono; lia).
  destruct (ageStatus_spec (cfg m) age Hord) as (Hd & Hs & Ha & Hu).
  destruct ((lc =? 0)%Z && _) eqn:E.
  - apply andb_true_iff in E as [E1%Z.eqb_eq E2%Z.ltb_lt].
    assert fresh by done. repeat split; intros; try done; tauto.
  - assert (~ fresh) as Hf.
    { intros [-> H%Z.ltb_lt]. by rewrite H in E. }
    rewrite Hd, Hs, Ha. clearbody fresh. split; [tauto|].
    split; [tauto|]. split; [tauto|]. split; [tauto|]. lia.
Qed.

(** ** Views *)

Definition row_ids (v : ClusterView) : list NodeID := (fun p => ID (pv_Node p)) <$> cv_Peers v.

(** The members a view of [m] lists: its voters and, in discovery mode, its
    candidates. *)
Definition known_ids (m : Manager) : gset NodeID :=
  voter_ids (membership m)
  ∪ (if discoveryMode m then dom (candidates m) else ∅).

Lemma leaderRow_node m t p : pv_Node (leaderRow m t p) = p.
Proof. unfold leaderRow. by case_decide. Qed.

Lemma followerRow_node m t p : pv_Node (followerRow m t p) = p.
Proof. unfold followerRow. by repeat case_decide. Qed.

Lemma candidateRow_node m t c : pv_Node (candidateRow m t c) = node c.
Proof. unfold candidateRow. by case_match. Qed.

Lemma voterRows_ids (row : Node -> PeerView) (vs : list Node) :
  (forall p, pv_Node (row p) = p) ->
  (fun p => ID (pv_Node p)) <$> (row <$> vs) = ID <$> vs.
Proof.
  intros H. rewrite <-list_fmap_compose. apply list_fmap_ext.
  intros ? p _. simpl. by rewrite H.
Qed.

Lemma candidateRows_ids m t :
  membership_wf m ->
  (fun p => ID (pv_Node p)) <$> candidateRows m t =
  if discoveryMode m then (map_to_list (candidates m)).*1 else [].
Proof.
  intros Hwf. unfold candidateRows. case_match; [|done].
  rewrite <-!list_fmap_compose. apply list_fmap_ext.
  intros k [id c] Hk. simpl. rewrite candidateRow_node.
  apply (mw_candidates _ Hwf). apply elem_of_map_to_list.
  by eapply list_elem_of_lookup_2.
Qed.

Lemma known_rows m (l : list NodeID) :
  membership_wf m ->
  l = (ID <$> Voters (membership m))
      ++ (if discoveryMode m then (map_to_list (candidates m)).*1 else []) ->
  NoDup l /\ list_to_set l = known_ids m.
Proof.
  intros Hwf ->. split.
  - apply NoDup_app. split; [apply Hwf|]. split.
    + intros id Hv Hc. case_match; [|by apply elem_of_nil in Hc].
      apply list_elem_of_fmap in Hc as ([id' c] & -> & Hc).
      apply elem_of_map_to_list in Hc.
      destruct (mw_candidates _ Hwf _ _ Hc) as (_ & _ & Hn).
      by apply HasVoter_notin in Hn.
    + case_match; [apply NoDup_fst_map_to_list|constructor].
  - unfold known_ids, voter_ids. rewrite list_to_set_app_L. f_equal.
    case_match; [|done]. apply leibniz_equiv. intros id.
    rewrite elem_of_list_to_set, elem_of_dom, list_elem_of_fmap. split.
    + intros ([id' c] & -> & Hc%elem_of_map_to_list). by eexists.
    + intros [c Hc]. exists (id, c). by rewrite elem_of_map_to_list.
Qed.

Lemma SortPeers_ids l :
  StronglySorted String.le ((fun p => ID (pv_Node p)) <$> SortPeers l)
  /\ (fun p => ID (pv_Node p)) <$> SortPeers l ≡ₚ (fun p => ID (pv_Node p)) <$> l.
Proof.
  unfold SortPeers. split; [|by rewrite sort_by_perm].
  eapply (StronglySorted_fmap _ (key_le (fun p => ID (pv_Node p)))); [done|].
  apply sort_by_sorted.
Qed.

(** The rows of a view.  The view a leader authors, and the view any other
    node authors when it has no fresh leader view to relay, list each voter and
    each tracked candidate exactly once, sorted by ID; a node that is no voter
    lists itself as an observer too. *)
Theorem view_rows (m : Manager) (Hwf : membership_wf m)
  (Hlocal : role m = RoleLeader \/ freshCachedView m (Now m) = None) :
  let v := snapshotView m in
  NoDup (row_ids v) /\ StronglySorted String.le (row_ids v)
  /\ list_to_set (row_ids v) =
     known_ids m ∪ (if decide (role m = RoleLeader) then ∅ else {[ID (self m)]})
  /\ cv_Role v = role m /\ cv_Term v = currentTerm m
  /\ cv_Membership v = membership m.
Proof.
  intros v. unfold v, snapshotView, row_ids. case_decide as Hr.
  - simpl. destruct (SortPeers_ids ((leaderRow m (Now m) <$> Voters (membership m))
      ++ candidateRows m (Now m))) as [Hs Hp].
    rewrite fmap_app, voterRows_ids, candidateRows_ids in Hp
      by auto using leaderRow_node.
    destruct (known_rows m _ Hwf eq_refl) as [Hnd Hset].
    split; [by rewrite Hp|]. split; [done|].
    rewrite (list_to_set_perm_L _ _ Hp).
    split; [by rewrite Hset, union_empty_r_L|]. by rewrite Clone_id.
  - destruct Hlocal as [?|Hc]; [done|]. unfold followerView. rewrite Hc. simpl.
    match goal with |- context [SortPeers ?l] =>
      destruct (SortPeers_ids l) as [Hs Hp] end.
    rewrite !fmap_app, voterRows_ids, candidateRows_ids in Hp
      by auto using followerRow_node.
    rewrite (list_to_set_perm_L _ _ Hp), Clone_id.
    destruct (known_rows m _ Hwf eq_refl) as [Hnd Hset].
    set (cs := if discoveryMode m then _ else _) in *.
    split; [|split; [done|split; [|done]]].
    + rewrite Hp. unfold selfIsVoter. destruct (HasVoter _ _) eqn:Hv; simpl; [done|].
      rewrite <-(Permutation_middle _ cs (ID (self m))).
      constructor; [|done]. intros Hin.
      apply elem_of_app in Hin as [Hin|Hin]; [by apply HasVoter_notin in Hv|].
      unfold cs in Hin. case_match; [|by apply elem_of_nil in Hin].
      apply list_elem_of_fmap in Hin as ([id c] & E & Hc'%elem_of_map_to_list).
      destruct (mw_candidates _ Hwf _ _ Hc') as (_ & Hne & _). by simpl in E.
    + rewrite <-Hset, !list_to_set_app_L. unfold selfIsVoter.
      destruct (HasVoter _ _) eqn:Hv; simpl; [|set_solver].
      apply HasVoter_spec in Hv. unfold voter_ids in Hv. set_solver.
Qed.

(** ** Configuration *)

Lemma scanPeers_ok me seen found ps :
  NoDup (ID <$> ps) -> (forall x, x ∈ ID <$> ps -> x ∉ seen) ->
  scanPeers me seen found ps = Ok (found || bool_decide (me ∈ ID <$> ps)).
Proof.
  revert seen found. induction ps as [|p ps IH]; intros seen found Hnd Hs; simpl.
  { f_equal. by destruct found. }
  rewrite fmap_cons in Hnd, Hs. apply NoDup_cons in Hnd as [Hp Hnd].
  rewrite decide_False by (apply Hs; left).
  rewrite IH; [|done|].
  - f_equal. rewrite <-orb_assoc. f_equal.
    apply Bool.eq_iff_eq_true. rewrite orb_true_iff, !bool_decide_eq_true.
    rewrite elem_of_cons. naive_solver.
  - intros x Hx [->%elem_of_singleton|?]%elem_of_union; [done|].
    eapply Hs; [|done]. by right.
Qed.

Lemma NewManager_ok (c : Config) (tr st clock : bool)
  (loaded : option (option PersistentState)) :
  is_ok (NewManager c tr st clock loaded) = true <->
    (tr = true /\ st = true /\ clock = true)
    /\ ID (Self c) <> "" /\ Peers c <> [] /\ NoDup (ID <$> Peers c)
    /\ (Discoverer c = true \/ ID (Self c) ∈ ID <$> Peers c)
    /\ is_Some loaded.
Proof.
  split.
  - intros Hok. destruct (NewManager c tr st clock loaded) as [m|] eqn:HN; [|done].
    pose proof (NewManager_peers _ _ _ _ _ _ HN) as Hnd.
    unfold NewManager in HN. destruct tr, st, clock; try done.
    destruct (validateConfig c true true true) as [[]|] eqn:Hv; [|done].
    apply validateConfig_ok in Hv as (? & ? & Hself).
    repeat split; try done.
    + destruct (Discoverer c); [by left|right; by apply Hself].
    + destruct loaded; [by eexists|done].
  - intros ((-> & -> & ->) & Hid & Hp & Hnd & Hself & [ps ->]).
    unfold NewManager, validateConfig.
    rewrite bool_decide_false by done. simpl. rewrite bool_decide_false by done.
    simpl. rewrite scanPeers_ok by (done || set_solver). simpl.
    destruct Hself as [->|Hself]; [by rewrite orb_true_r|].
    by rewrite (bool_decide_true (ID (Self c) ∈ _)).
Qed.

(** Construction.  [NewManager] succeeds exactly on a configuration with all
    its collaborators, a self, at least one peer, no duplicate peer and, unless a
    discovery source is set, self among the peers, whenever the stored state can
    be read; the node then starts as a follower with the stored term and vote. *)
Theorem NewManager_accepts (c : Config) (tr st clock : bool)
  (loaded : option (option PersistentState)) :
  (is_ok (NewManager c tr st clock loaded) = true <->
     (tr = true /\ st = true /\ clock = true)
     /\ ID (Self c) <> "" /\ Peers c <> [] /\ NoDup (ID <$> Peers c)
     /\ (Discoverer c = true \/ ID (Self c) ∈ ID <$> Peers c)
     /\ is_Some loaded)
  /\ (forall m, NewManager c tr st clock loaded = Ok m ->
        exists ps, loaded = Some ps /\ role m = RoleFollower
          /\ currentTerm m = default 0%N (ps_CurrentTerm <$> ps)
          /\ votedFor m = default "" (ps_VotedFor <$> ps)
          /\ membership m = seedMembership c ps).
Proof.
  split; [apply NewManager_ok|]. intros m HN.
  destruct (proj1 (NewManager_ok c tr st clock loaded) ltac:(by rewrite HN))
    as ((-> & -> & ->) & _ & _ & _ & _ & ps & ->).
  exists ps. destruct (NewManager_abs _ _ _ HN) as [_ E].
  unfold abs, fresh in E. by injection E.
Qed.

Lemma positive_or_pos d dflt : (0 < dflt)%Z -> (0 < positive_or d dflt)%Z.
Proof. unfold positive_or. case_match eqn:E; lia. Qed.

(** The timeouts of a configuration after [applyDefaults]. *)
Lemma applyDefaults_timeouts c :
  let lo := positive_or (ElectionTimeoutMin c) (1500 * Time.Millisecond)%Z in
  let hi := positive_or (ElectionTimeoutMax c) (3 * Time.Second)%Z in
  ElectionTimeoutMin (applyDefaults c) = lo
  /\ ElectionTimeoutMax (applyDefaults c)
     = (if (hi <=? lo)%Z then i64_wrap (lo + lo ÷ 2) else hi).
Proof. unfold applyDefaults. simpl. by repeat case_match. Qed.

(** Election timeouts.  After [applyDefaults], for any configured bounds that
    are [int64] values with a minimum below two thirds of the largest duration
    (about 194 years), every timeout the node draws lies between the two bounds,
    the upper one excluded unless they are equal. *)
Theorem election_timeout_bounds (c : Config) (m : Manager)
  (Hcfg : cfg m = applyDefaults c)
  (Hmin : (3 * ElectionTimeoutMin c <= 2 * max_int64)%Z)
  (Hmax : (ElectionTimeoutMax c <= max_int64)%Z) :
  let lo := ElectionTimeoutMin (cfg m) in
  let hi := ElectionTimeoutMax (cfg m) in
  (0 < lo <= hi)%Z
  /\ (lo <= (randTimeout m).1 <= hi)%Z
  /\ ((lo < hi)%Z -> ((randTimeout m).1 < hi)%Z).
Proof.
  destruct (applyDefaults_timeouts c) as [Elo Ehi].
  intros lo hi. unfold lo, hi. unfold randTimeout.
  rewrite Hcfg, Elo, Ehi.
  set (l := positive_or (ElectionTimeoutMin c) _). set (h := positive_or (ElectionTimeoutMax c) _).
  assert (0 < l)%Z by (apply positive_or_pos; by vm_compute).
  assert (3 * l <= 2 * max_int64)%Z as Hl.
  { unfold l, positive_or. by destruct (ElectionTimeoutMin c <=? 0)%Z. }
  assert (h <= max_int64)%Z as Hh.
  { unfold h, positive_or. by destruct (ElectionTimeoutMax c <=? 0)%Z. }
  assert (l ÷ 2 = l / 2)%Z as Eq by (apply Z.quot_div_nonneg; lia).
  pose proof (Z.div_mod l 2 ltac:(done)). pose proof (Z.mod_pos_bound l 2 ltac:(done)).
  assert (forall z, 0 <= z <= max_int64 -> i64_wrap z = z)%Z as Hwrap.
  { intros z Hz. apply i64_wrap_id. unfold min_int64. lia. }
  set (top := if (h <=? l)%Z then _ else _).
  assert (l <= top <= max_int64)%Z as Htop.
  { unfold top. destruct (Z.leb_spec h l); [rewrite Hwrap|]; lia. }
  clearbody top l h. rewrite (Hwrap (top - l)%Z) by lia.
  destruct (Z.leb_spec (top - l) 0); simpl; [lia|].
  pose proof (Z.mod_pos_bound (default 0%Z (head (draws (env m)))) (top - l) ltac:(lia)).
  rewrite Hwrap; lia.
Qed.

(** ** Witnesses *)

Definition static_start : cluster := init_cluster static3.
Definition discovery_start : cluster := init_cluster discovery6.
Definition turn_at (sec : Z) (ev : event) : input :=
  {| in_now := (sec * Time.Second)%Z; in_saves := []; in_draws := []; in_event := ev |}.

Definition ask_a : VoteRequest := {| vq_Term := 1%N; vq_CandidateID := "a" |}.

Lemma onVote_decision_witness :
  exists m m' r, nodes static_start !! "b" = Some m /\ onVote ask_a m = (r, m')
    /\ (grantable ask_a m /\ next_save m = SaveDurable)
    /\ votedFor m' = "a" /\ disk (env m') = Some (record_of m 1%N "a").
Proof.
  destruct (node_at (fun m => vr_Granted (onVote ask_a m).1) static_start "b" true)
    as (m & Hm & Hg); [by vm_compute|].
  destruct (onVote ask_a m) as [r m'] eqn:E. simpl in Hg. exists m, m', r.
  destruct (onVote_decision ask_a m m' r E) as ([Hiff _] & _ & Hgr & _).
  destruct (Hgr Hg) as (_ & Hv & _ & Hd).
  split; [done|]. split; [done|]. split; [by apply Hiff|]. by split.
Defined.

Definition beat (M : option Membership) : HeartbeatRequest :=
  {| hq_Term := 1%N; hq_LeaderID := "a"; hq_View := None; hq_Membership := M |}.

Lemma onHeartbeat_follows_witness :
  exists m m' r, nodes static_start !! "b" = Some m
    /\ onHeartbeat (beat None) m = (r, m')
    /\ currentTerm m' = 1%N /\ leaderID m' = "a" /\ role m' = RoleFollower.
Proof.
  destruct (node_at currentTerm static_start "b" 0%N) as (m & Hm & Ht); [by vm_compute|].
  destruct (onHeartbeat (beat None) m) as [r m'] eqn:E. exists m, m', r.
  destruct (onHeartbeat_follows (beat None) m m' r E) as [_ Hf].
  destruct Hf as (Et & _ & Er & El & _); [rewrite Ht; done|].
  by repeat split.
Defined.

Definition five : Membership :=
  {| Version := 2%N; CreatedInTerm := 1%N;
     Voters := at_host <$> ["a"; "b"; "c"; "d"; "e"] |}.

Lemma heartbeat_ok_is_durable_witness :
  exists m m' r, nodes discovery_start !! "e" = Some m
    /\ onHeartbeat (beat (Some five)) m = (r, m')
    /\ mem_le five (membership m')
    /\ (Supersedes five (membership m) = true ->
        membership m' = five
        /\ disk (env m') = Some {| ps_CurrentTerm := currentTerm m';
                                   ps_VotedFor := votedFor m';
                                   ps_Membership := Some five |}).
Proof.
  destruct (node_at (fun m => (hr_OK (onHeartbeat (beat (Some five)) m).1, discoveryMode m))
              discovery_start "e" (true, true)) as (m & Hm & Hg); [by vm_compute|].
  injection Hg as Hok Hd.
  destruct (onHeartbeat (beat (Some five)) m) as [r m'] eqn:E. simpl in Hok.
  exists m, m', r. split; [done|]. split; [done|].
  apply (heartbeat_ok_is_durable (beat (Some five)) m m' r five); done.
Defined.

Lemma turn_never_goes_back_witness :
  exists m, nodes static_end !! "c" = Some m
    /\ let i := turn_at 90 EvElectionTimer in
       currentTerm (step i m).2 = 3%N
       /\ (currentTerm m <= currentTerm (step i m).2)%N
       /\ (currentTerm (step i m).2 = currentTerm m -> votedFor m <> "" ->
           votedFor (step i m).2 = votedFor m).
Proof.
  destruct (node_at (fun m => (currentTerm m,
      currentTerm (step (turn_at 90 EvElectionTimer) m).2)) static_end "c" (2%N, 3%N))
    as (m & Hm & E); [by vm_compute|].
  injection E as Et Et'. exists m. split; [done|]. intros i. split; [exact Et'|].
  apply (turn_never_goes_back i m). rewrite Et. done.
Defined.

Lemma observers_are_passive_witness :
  exists m, nodes discovery_start !! "e" = Some m /\ isObserver m = true
    /\ let i := turn_at 90 EvElectionTimer in
       role (step i m).2 = RoleFollower
       /\ (votedFor (step i m).2 = votedFor m \/ votedFor (step i m).2 = "").
Proof.
  destruct (node_at (fun m => (currentTerm m, isObserver m, role m)) discovery_start "e"
              (0%N, true, RoleFollower)) as (m & Hm & E); [by vm_compute|].
  injection E as Et Eo Er. exists m. split; [done|]. split; [done|]. intros i.
  apply (observers_are_passive i m); [rewrite Et; done|done|done].
Defined.

(** [a] has led since 10 s and [c] never answered it: dead from 25 s on. *)
Lemma leader_status_by_age_witness :
  exists m, nodes static_end !! "a" = Some m /\ role m = RoleLeader
    /\ leaderPeerStatus m (25 * Time.Second)%Z 0%Z = StatusDead
    /\ leaderPeerStatus m (24 * Time.Second)%Z 0%Z <> StatusDead.
Proof.
  destruct (node_at (fun m => (role m, becameLeaderAt m, SuspectAfter (cfg m),
      DeadAfter (cfg m))) static_end "a"
    (RoleLeader, (10 * Time.Second)%Z, (5 * Time.Second)%Z, (15 * Time.Second)%Z))
    as (m & Hm & E); [by vm_compute|].
  injection E as Er Eb Es Ed. exists m. split; [done|]. split; [done|].
  assert (SuspectAfter (cfg m) <= DeadAfter (cfg m))%Z as Hord
    by (rewrite Es, Ed; by vm_compute).
  split.
  - apply (leader_status_by_age m (25 * Time.Second)%Z 0%Z Hord).
    rewrite Eb, Es, Ed. split; [|by vm_compute]. intros [_ H]. by vm_compute in H.
  - apply (leader_status_by_age m (24 * Time.Second)%Z 0%Z Hord).
    rewrite Eb, Ed. by vm_compute.
Defined.

Lemma view_rows_witness :
  exists m, nodes discovery_start !! "e" = Some m
    /\ row_ids (snapshotView m) = ["a"; "b"; "c"; "d"; "e"]
    /\ NoDup (row_ids (snapshotView m))
    /\ list_to_set (row_ids (snapshotView m)) = known_ids m ∪ {["e"]}.
Proof.
  destruct (node_at (fun m => (wf_check m, role m, cachedView m, ID (self m),
      row_ids (snapshotView m))) discovery_start "e"
    (true, RoleFollower, None, "e", ["a"; "b"; "c"; "d"; "e"]))
    as (m & Hm & E); [by vm_compute|].
  injection E as Ewf Er Ec Eid Erows. exists m. split; [done|]. split; [exact Erows|].
  destruct (view_rows m) as (Hnd & _ & Hset & _);
    [by apply wf_check_sound|right; unfold freshCachedView; by rewrite Ec|].
  split; [done|]. rewrite Hset, Er, Eid. done.
Defined.

Lemma election_timeout_bounds_witness :
  exists m, nodes static_start !! "a" = Some m
    /\ (0 < ElectionTimeoutMin (cfg m) <= ElectionTimeoutMax (cfg m))%Z
    /\ (ElectionTimeoutMin (cfg m) <= (randTimeout m).1 <= ElectionTimeoutMax (cfg m))%Z
    /\ ((ElectionTimeoutMin (cfg m) < ElectionTimeoutMax (cfg m))%Z ->
        ((randTimeout m).1 < ElectionTimeoutMax (cfg m))%Z).
Proof.
  destruct (node_at cfg static_start "a"
    (applyDefaults (config_of (at_host "a") trio false))) as (m & Hm & E); [by vm_compute|].
  exists m. split; [done|].
  apply (election_timeout_bounds (config_of (at_host "a") trio false) m E); by vm_compute.
Defined.
