(* ===== verification/WardenWatchdog.v ===== *)
(** * The watchdog

    [services/warden/watchdog/watchdog.go]: the leader-only incident engine.
    [wd] is everything the Run loop owns, the incident ring, the delivery
    goroutines that are inside [Notify] and the results they have sent back; a
    [wd_event] is one arm of the loop's select, or one goroutine finishing.
    Logging is not modelled, nor is an incident's [Message]. *)

From Stdlib Require Import Ascii.
From stdpp Require Import pretty.
From S2P Require Import Prelude.
From S2P Require Import WardenTypes.

(** ** Data *)

Record Config := mkConfig {
  Cooldown : Time.Duration;
  NotifyRecovery : bool;
  MaxIncidents : Z;
  CheckInterval : Time.Duration;
}.
#[export] Instance Rebuild_Config : Rebuild Config := fun c =>
  mkConfig (Cooldown c) (NotifyRecovery c) (MaxIncidents c) (CheckInterval c).

Definition cooldownKey : Type := NodeID * IncidentType.

Record episode := mkEpisode {
  ep_peer : Node;
  openedAt : Time.t;
  ep_lastSeen : Time.t;
  ep_term : Term;
}.

Record loopState := mkLoopState {
  open : gmap NodeID episode;
  cooldowns : gmap cooldownKey Time.t;
  pending : list Incident;
  inFlight : gset string;
  wasLeader : bool;
  quorumLost : bool;
}.
#[export] Instance Rebuild_loopState : Rebuild loopState := fun s =>
  mkLoopState (open s) (cooldowns s) (pending s) (inFlight s) (wasLeader s)
    (quorumLost s).

(** [nr_ok] is [err == nil]. *)
Record notifyResult := mkNotifyResult { nr_inc : Incident; nr_ok : bool }.

Record incidentRing := mkIncidentRing { ring_max : Z; buf : list Incident }.

(** [running]: the incidents whose goroutine is inside [Notify]; [results]: the
    channel; [notified]: every successful [Notify], latest first, with its time
    (history only). *)
Record wd := mkWd {
  wd_cfg : Config;
  ring : incidentRing;
  loop : loopState;
  running : list Incident;
  results : list notifyResult;
  notified : list (Incident * Time.t);
}.
#[export] Instance Rebuild_wd : Rebuild wd := fun w =>
  mkWd (wd_cfg w) (ring w) (loop w) (running w) (results w) (notified w).

(** ** Operations *)

Definition defaultCooldown : Time.Duration := (10 * Time.Minute)%Z.
Definition defaultMaxIncidents : Z := 100%Z.
Definition defaultCheckInterval : Time.Duration := Time.Second.

Definition newIncidentRing (max : Z) : incidentRing := {| ring_max := max; buf := [] |}.

Definition ring_append (inc : Incident) (r : incidentRing) : incidentRing :=
  let buf := buf r ++ [inc] in
  let overflow := (Z.of_nat (length buf) - ring_max r)%Z in
  {| ring_max := ring_max r;
     buf := if (0 <? overflow)%Z then drop (Z.to_nat overflow) buf else buf |}.

Definition ring_snapshot (r : incidentRing) : list Incident := reverse (buf r).

Definition newLoopState : loopState :=
  {| open := ∅; cooldowns := ∅; pending := []; inFlight := ∅;
     wasLeader := false; quorumLost := false |}.

Definition New (c : Config) : wd :=
  let c := c <| Cooldown ::= fun d => if (d <=? 0)%Z then defaultCooldown else d |> in
  let c := c <| MaxIncidents ::=
                  fun n => if (n <=? 0)%Z then defaultMaxIncidents else n |> in
  let c := c <| CheckInterval ::=
                  fun d => if (d <=? 0)%Z then defaultCheckInterval else d |> in
  {| wd_cfg := c; ring := newIncidentRing (MaxIncidents c); loop := newLoopState;
     running := []; results := []; notified := [] |}.

Definition Incidents (w : wd) : list Incident := ring_snapshot (ring w).

Definition isActingLeader (v : ClusterView) : bool :=
  bool_decide (cv_Role v = RoleLeader) && cv_Authoritative v
  && bool_decide (cv_Source v = cv_Self v).

Definition isVoter (k : MemberKind) : bool :=
  bool_decide (k = "") || bool_decide (k = MemberVoter).

(** [liveQuorum]: the cluster size and the number of nodes alive. *)
Definition liveQuorum (v : ClusterView) : nat * nat :=
  let voters := Voters (cv_Membership v) in
  if decide (0 < length voters) then
    (length voters,
     foldl (fun alive p =>
              if bool_decide (ID (pv_Node p) = cv_Self v) then alive
              else if negb (isVoter (pv_Member p)) then alive
              else if negb (HasVoter (cv_Membership v) (ID (pv_Node p))) then alive
              else if bool_decide (pv_Status p = StatusAlive) then S alive
              else alive)
       (if HasVoter (cv_Membership v) (cv_Self v) then 1 else 0) (cv_Peers v))
  else
    let '(selfListed, alive) :=
      foldl (fun '(selfListed, alive) p =>
               if bool_decide (ID (pv_Node p) = cv_Self v) then (true, S alive)
               else if bool_decide (pv_Status p = StatusAlive)
               then (selfListed, S alive)
               else (selfListed, alive))
        (false, 0) (cv_Peers v) in
    if negb selfListed then (S (length (cv_Peers v)), S alive)
    else (length (cv_Peers v), alive).

Definition buildDeadIncident (v : ClusterView) (p : PeerView) (now : Time.t)
  : Incident :=
  {| inc_ID := NewIncidentID IncidentPeerDead (ID (pv_Node p)) now;
     inc_Type := IncidentPeerDead; inc_Peer := pv_Node p; inc_Term := cv_Term v;
     inc_ReportedBy := cv_Self v; inc_DetectedAt := now;
     inc_LastSeen := pv_LastSeen p |}.

Definition buildRecoveryIncident (v : ClusterView) (p : PeerView) (now : Time.t)
  : Incident :=
  {| inc_ID := NewIncidentID IncidentPeerRecovered (ID (pv_Node p)) now;
     inc_Type := IncidentPeerRecovered; inc_Peer := pv_Node p;
     inc_Term := cv_Term v; inc_ReportedBy := cv_Self v; inc_DetectedAt := now;
     inc_LastSeen := pv_LastSeen p |}.

(** Is a notification of [key] suppressed at [now]? *)
Definition cooling (c : Config) (st : loopState) (key : cooldownKey) (now : Time.t)
  : bool :=
  match cooldowns st !! key with
  | Some last => (Time.Sub now last <? Cooldown c)%Z
  | None => false
  end.

Definition queueOrSuppress (inc : Incident) (now : Time.t) (w : wd) : wd :=
  if cooling (wd_cfg w) (loop w) (ID (inc_Peer inc), inc_Type inc) now then w
  else w <| loop ::= fun st => st <| pending ::= fun q => q ++ [inc] |> |>.

(** One iteration of [evaluate]'s loop over the view's peers. *)
Definition evaluatePeer (v : ClusterView) (now : Time.t) (w : wd) (p : PeerView) : wd :=
  let id := ID (pv_Node p) in
  if bool_decide (id = cv_Self v) then w
  else if negb (isVoter (pv_Member p)) then w
  else if decide (pv_Status p = StatusDead) then
    match open (loop w) !! id with
    | Some _ => w
    | None =>
        let inc := buildDeadIncident v p now in
        queueOrSuppress inc now
          (w <| loop ::= fun st => st <| open ::= insert id
                   {| ep_peer := pv_Node p; openedAt := now;
                      ep_lastSeen := pv_LastSeen p; ep_term := cv_Term v |} |> |>
             <| ring ::= ring_append inc |>)
    end
  else if decide (pv_Status p = StatusAlive) then
    match open (loop w) !! id with
    | Some _ =>
        let inc := buildRecoveryIncident v p now in
        let w := w <| loop ::= fun st => st <| open ::= delete id |> |>
                   <| ring ::= ring_append inc |> in
        if NotifyRecovery (wd_cfg w) then queueOrSuppress inc now w else w
    | None => w
    end
  else w.

(** One delivery goroutine per pending incident that has none in flight. *)
Definition dispatchOne (w : wd) (inc : Incident) : wd :=
  if decide (inc_ID inc ∈ inFlight (loop w)) then w
  else w <| loop ::= fun st => st <| inFlight ::= fun s => {[ inc_ID inc ]} ∪ s |> |>
         <| running ::= fun l => l ++ [inc] |>.
Definition dispatchPending (w : wd) : wd :=
  foldl dispatchOne w (pending (loop w)).

(** A leadership transition drops the previous epoch's episodes and queue. *)
Definition gainLeadership (st : loopState) : loopState :=
  if negb (wasLeader st) then
    st <| wasLeader := true |> <| open := ∅ |> <| pending := [] |>
  else st.

Definition evaluate (v : ClusterView) (now : Time.t) (w : wd) : wd :=
  if negb (isActingLeader v) then
    w <| loop ::= fun st => st <| wasLeader := false |> |>
  else
    let w := w <| loop ::= gainLeadership |> in
    let '(clusterSize, alive) := liveQuorum v in
    if alive <? Quorum clusterSize then
      w <| loop ::= fun st => st <| quorumLost := true |> |>
    else
      let w := w <| loop ::= fun st => st <| quorumLost := false |> |> in
      dispatchPending (foldl (evaluatePeer v now) w (cv_Peers v)).

(** Remove the first pending incident with this ID. *)
Fixpoint removePending (id : string) (q : list Incident) : list Incident :=
  match q with
  | [] => []
  | inc :: q => if decide (inc_ID inc = id) then q else inc :: removePending id q
  end.

Definition handleResult (r : notifyResult) (now : Time.t) (w : wd) : wd :=
  let inc := nr_inc r in
  let w := w <| loop ::= fun st =>
                 st <| inFlight ::= fun s => s ∖ {[ inc_ID inc ]} |> |> in
  if negb (nr_ok r) then w
  else w <| loop ::= fun st =>
             st <| cooldowns ::= insert (ID (inc_Peer inc), inc_Type inc) now |>
                <| pending ::= removePending (inc_ID inc) |> |>.

(** ** The loop *)

(** An evaluation (at start, on a view change, on a tick), a result received
    from the channel, or goroutine [k] returning from [Notify]. *)
Inductive wd_event :=
| Evaluate (v : ClusterView) (now : Time.t)
| HandleNext (now : Time.t)
| Finish (k : nat) (ok : bool) (now : Time.t).

Definition wd_step (w : wd) (e : wd_event) : wd :=
  match e with
  | Evaluate v now => evaluate v now w
  | HandleNext now =>
      match results w with
      | [] => w
      | r :: rs => handleResult r now (w <| results := rs |>)
      end
  | Finish k ok now =>
      match running w !! k with
      | None => w
      | Some inc =>
          w <| running := take k (running w) ++ drop (S k) (running w) |>
            <| results ::= fun l => l ++ [ {| nr_inc := inc; nr_ok := ok |} ] |>
            <| notified ::= fun l => if ok then (inc, now) :: l else l |>
      end
  end.

Definition wd_run (w : wd) (l : list wd_event) : wd := foldl wd_step w l.

(** ** Incident identifiers *)

Fixpoint no_slash (s : string) : Prop :=
  match s with
  | EmptyString => True
  | String c s => c <> "/"%char /\ no_slash s
  end.

(** What follows the last slash. *)
Fixpoint last_field (s : string) : option string :=
  match s with
  | EmptyString => None
  | String c s' =>
      match last_field s' with
      | Some f => Some f
      | None => if decide (c = "/"%char) then Some s' else None
      end
  end.

Lemma no_slash_last s : no_slash s -> last_field s = None.
Proof.
  induction s as [|c s IH]; simpl; [done|]. intros [Hc Hs].
  rewrite IH by done. by rewrite decide_False.
Qed.

Lemma last_field_app a f : no_slash f -> last_field (a +:+ "/" +:+ f) = Some f.
Proof.
  intros Hf. induction a as [|c a IH]; simpl; [by rewrite no_slash_last|].
  simpl in IH. by rewrite IH.
Qed.

Lemma no_slash_pretty_go x s : no_slash s -> no_slash (pretty_N_go x s).
Proof.
  revert s. induction (N.lt_wf_0 x) as [x _ IH]; intros s Hs.
  assert (x = 0 \/ 0 < x)%N as [->|?] by lia; [by rewrite pretty_N_go_0|].
  rewrite pretty_N_go_step by done. apply IH; [by apply N.div_lt|].
  split; [|done]. unfold pretty_N_char. by repeat case_match.
Qed.

Lemma no_slash_pretty (z : Z) : no_slash (pretty z).
Proof.
  destruct z as [|p|p]; simpl; [done| |split; [done|]];
    by apply no_slash_pretty_go.
Qed.

Lemma string_app_cancel_r a b s : a +:+ s = b +:+ s -> a = b.
Proof.
  assert (forall a, String.length (a +:+ s) = String.length a + String.length s) as Hl
    by (induction a0; simpl; auto).
  revert b. induction a as [|c a IH]; intros [|d b] H; try done.
  - apply (f_equal String.length) in H. simpl in H. rewrite !Hl in H. simpl in H. lia.
  - apply (f_equal String.length) in H. simpl in H. rewrite !Hl in H. simpl in H. lia.
  - injection H as -> H. by rewrite (IH b).
Qed.

Lemma string_app_assoc (a b c : string) : a +:+ b +:+ c = (a +:+ b) +:+ c.
Proof. induction a as [|x a IH]; [done|]. exact (f_equal (String x) IH). Qed.

Lemma incident_id_split (t p q : string) :
  t +:+ "/" +:+ p +:+ "/" +:+ q = (t +:+ "/" +:+ p) +:+ "/" +:+ q.
Proof. by rewrite <-!string_app_assoc. Qed.

(** An incident ID determines the second, and, for the two types there are, the
    type and the peer. *)
Lemma NewIncidentID_second t t' p p' a a' :
  NewIncidentID t p a = NewIncidentID t' p' a' -> Time.Unix a = Time.Unix a'.
Proof.
  unfold NewIncidentID. rewrite !incident_id_split.
  intros H. apply (f_equal last_field) in H.
  rewrite !last_field_app in H by apply no_slash_pretty.
  injection H as H. by apply (inj pretty) in H.
Qed.

Lemma NewIncidentID_peer t t' p p' a :
  t = IncidentPeerDead \/ t = IncidentPeerRecovered ->
  t' = IncidentPeerDead \/ t' = IncidentPeerRecovered ->
  NewIncidentID t p a = NewIncidentID t' p' a -> t = t' /\ p = p'.
Proof.
  unfold NewIncidentID. rewrite !incident_id_split. intros Ht Ht' H.
  apply string_app_cancel_r in H.
  destruct Ht as [-> | ->], Ht' as [-> | ->]; simpl in H; try done;
    (split; [done|]); by injection H.
Qed.

(** ** Specifications *)

(** Enough voters are alive for the leader to trust what it sees. *)
Definition sees_quorum (v : ClusterView) : bool :=
  negb ((liveQuorum v).2 <? Quorum (liveQuorum v).1).

(** Peers that can open or close an episode. *)
Definition watched (v : ClusterView) (p : PeerView) : bool :=
  negb (bool_decide (ID (pv_Node p) = cv_Self v)) && isVoter (pv_Member p).

(** What a row says about a peer whose episode is [o]: the incident it raises. *)
Definition transition (v : ClusterView) (now : Time.t) (o : option episode)
  (p : PeerView) : option Incident :=
  if negb (watched v p) then None
  else match o with
       | None => if decide (pv_Status p = StatusDead)
                 then Some (buildDeadIncident v p now) else None
       | Some _ => if decide (pv_Status p = StatusAlive)
                   then Some (buildRecoveryIncident v p now) else None
       end.

(** And the episode it leaves. *)
Definition episode_after (v : ClusterView) (now : Time.t) (o : option episode)
  (p : PeerView) : option episode :=
  if negb (watched v p) then o
  else if decide (pv_Status p = StatusDead) then
    Some (default {| ep_peer := pv_Node p; openedAt := now;
                     ep_lastSeen := pv_LastSeen p; ep_term := cv_Term v |} o)
  else if decide (pv_Status p = StatusAlive) then None
  else o.

Definition key_of (inc : Incident) : cooldownKey := (ID (inc_Peer inc), inc_Type inc).

(** An incident that is to be delivered: recoveries only when asked for, and
    nothing that was notified within the cooldown. *)
Definition deliverable (c : Config) (st : loopState) (now : Time.t) (inc : Incident)
  : Prop :=
  (inc_Type inc = IncidentPeerDead \/ NotifyRecovery c = true)
  /\ cooling c st (ID (inc_Peer inc), inc_Type inc) now = false.
#[global] Instance deliverable_dec c st now inc : Decision (deliverable c st now inc).
Proof. apply _. Defined.

Definition rows (v : ClusterView) : list NodeID := (fun p => ID (pv_Node p)) <$> cv_Peers v.

Definition record_all (incs : list Incident) (r : incidentRing) : incidentRing :=
  foldl (fun r inc => ring_append inc r) r incs.

(** The incidents an evaluation raises from the episodes [op]. *)
Definition raised (v : ClusterView) (now : Time.t) (op : gmap NodeID episode)
  (ps : list PeerView) : list Incident :=
  omap (fun p => transition v now (op !! ID (pv_Node p)) p) ps.

(** ** The ring *)

Lemma ring_max_record_all incs r : ring_max (record_all incs r) = ring_max r.
Proof. revert r. induction incs; simpl; intros; [done|]. by rewrite IHincs. Qed.

Lemma record_all_buf max incs :
  (0 < max)%Z ->
  buf (record_all incs (newIncidentRing max)) = drop (length incs - Z.to_nat max) incs.
Proof.
  intros Hmax. induction incs as [|inc incs IH] using rev_ind; [done|].
  unfold record_all in *. rewrite foldl_snoc. unfold ring_append at 1. simpl.
  rewrite IH. pose proof (ring_max_record_all incs (newIncidentRing max)) as Em.
  unfold record_all in Em. simpl in Em. rewrite Em. rewrite !length_app, length_drop. simpl.
  destruct (Z.ltb_spec 0 (Z.of_nat (length incs - (length incs - Z.to_nat max) + 1) - max)) as [H|H].
  - assert (Z.to_nat max <= length incs) by lia.
    rewrite drop_app_le by (rewrite length_drop; lia). rewrite drop_drop.
    rewrite drop_app_le by lia. f_equal. f_equal. lia.
  - replace (length incs + 1 - Z.to_nat max) with 0 by lia.
    replace (length incs - Z.to_nat max) with 0 by lia. done.
Qed.

(** The incident log.  Whatever is appended to a ring of positive capacity,
    its snapshot is the most recent entries, latest first, at most [max]. *)
Theorem ring_keeps_latest (max : Z) (incs : list Incident) (Hmax : (0 < max)%Z) :
  let r := record_all incs (newIncidentRing max) in
  ring_snapshot r = take (Z.to_nat max) (reverse incs)
  /\ (Z.of_nat (length (ring_snapshot r)) <= max)%Z.
Proof.
  intros r. assert (ring_snapshot r = take (Z.to_nat max) (reverse incs)) as E.
  { unfold ring_snapshot, r. rewrite record_all_buf by done. rewrite take_reverse.
    done. }
  split; [done|]. rewrite E, length_take. lia.
Qed.

(** ** One evaluation *)

Lemma partial_alter_same (op : gmap NodeID episode) id f :
  f (op !! id) = op !! id -> partial_alter f id op = op.
Proof.
  intros H. apply map_eq. intros j. destruct (decide (j = id)) as [->|].
  - by rewrite lookup_partial_alter_eq.
  - by rewrite lookup_partial_alter_ne.
Qed.

Lemma partial_alter_at (op : gmap NodeID episode) id f g :
  f (op !! id) = g (op !! id) -> partial_alter f id op = partial_alter g id op.
Proof.
  intros H. apply map_eq. intros j. destruct (decide (j = id)) as [->|].
  - by rewrite !lookup_partial_alter_eq.
  - by rewrite !lookup_partial_alter_ne.
Qed.

(** The incidents of [incs] that join the queue. *)
Definition queued (c : Config) (st : loopState) (now : Time.t) (incs : list Incident)
  : list Incident :=
  filter (deliverable c st now) incs.

Lemma queued_one c st now inc :
  queued c st now [inc] = if decide (deliverable c st now inc) then [inc] else [].
Proof. unfold queued. by rewrite filter_cons. Qed.

Lemma queueOrSuppress_eq inc now w :
  queueOrSuppress inc now w =
  w <| loop ::= fun st => st <| pending ::= fun q => q ++
         (if cooling (wd_cfg w) (loop w) (ID (inc_Peer inc), inc_Type inc) now
          then [] else [inc]) |> |>.
Proof.
  unfold queueOrSuppress. destruct w as [c r [] ? ? ?]. case_match; simpl; [|done].
  by rewrite app_nil_r.
Qed.

Lemma evaluatePeer_eq v now c r op cd q fl wl ql run res nt p :
  let id := ID (pv_Node p) in
  let st := mkLoopState op cd q fl wl ql in
  let incs := option_list (transition v now (op !! id) p) in
  evaluatePeer v now (mkWd c r st run res nt) p =
    mkWd c (record_all incs r)
      (mkLoopState (partial_alter (fun o => episode_after v now o p) id op) cd
         (q ++ queued c st now incs) fl wl ql) run res nt.
Proof.
  intros id st incs. unfold incs, transition, episode_after, evaluatePeer, watched.
  fold id. case_bool_decide as Hs; simpl.
  { by rewrite partial_alter_same, app_nil_r. }
  destruct (isVoter (pv_Member p)) eqn:Hv; simpl; [|by rewrite partial_alter_same, app_nil_r].
  destruct (decide (pv_Status p = StatusDead)) as [Hd|Hd];
    [|destruct (decide (pv_Status p = StatusAlive)) as [Ha|Ha]];
    destruct (op !! id) as [ep|] eqn:Ho; simpl.
  - rewrite decide_False by by rewrite Hd.
    by rewrite partial_alter_same, app_nil_r by by rewrite Ho.
  - rewrite queueOrSuppress_eq, queued_one. simpl.
    change (cooling c (mkLoopState _ cd q fl wl ql)) with (cooling c st).
    destruct (cooling _ _ _ _) eqn:Hc;
      [rewrite decide_False|rewrite decide_True]; unfold deliverable; simpl;
      rewrite ?Hc; try naive_solver.
    all: do 2 f_equal; apply partial_alter_at; by rewrite Ho.
  - rewrite queued_one. destruct (NotifyRecovery c) eqn:Hn;
      [rewrite queueOrSuppress_eq|]; simpl.
    + change (cooling c (mkLoopState _ cd q fl wl ql)) with (cooling c st).
      destruct (cooling _ _ _ _) eqn:Hc;
        [rewrite decide_False|rewrite decide_True]; unfold deliverable; simpl;
        rewrite ?Hc; naive_solver.
    + rewrite decide_False by (unfold deliverable; simpl; rewrite Hn; naive_solver).
      by rewrite app_nil_r.
  - by rewrite partial_alter_same, app_nil_r by by rewrite Ho.
  - by rewrite partial_alter_same, app_nil_r by by rewrite Ho.
  - by rewrite partial_alter_same, app_nil_r by by rewrite Ho.
Qed.

Definition row_id (p : PeerView) : NodeID := ID (pv_Node p).

Definition episodes (v : ClusterView) (now : Time.t) (op : gmap NodeID episode)
  (ps : list PeerView) : gmap NodeID episode :=
  foldl (fun op p => partial_alter (fun o => episode_after v now o p) (row_id p) op) op ps.

Lemma raised_ext v now op op' ps :
  (forall p, p ∈ ps -> op !! row_id p = op' !! row_id p) ->
  raised v now op ps = raised v now op' ps.
Proof.
  unfold raised. induction ps as [|p ps IH]; intros H; [done|]. csimpl.
  fold (row_id p). rewrite <-(H p) by left. rewrite IH; [done|].
  intros q Hq. apply H. by right.
Qed.

Lemma queued_cooldowns c st st' now incs :
  cooldowns st = cooldowns st' -> queued c st now incs = queued c st' now incs.
Proof.
  intros H. unfold queued. apply list_filter_iff. intros inc.
  unfold deliverable, cooling. by rewrite H.
Qed.

Lemma evaluatePeers_eq v now c cd fl wl ql run res nt ps : forall r op q,
  NoDup (row_id <$> ps) ->
  let st := mkLoopState op cd q fl wl ql in
  foldl (evaluatePeer v now) (mkWd c r st run res nt) ps =
    mkWd c (record_all (raised v now op ps) r)
      (mkLoopState (episodes v now op ps) cd
         (q ++ queued c st now (raised v now op ps)) fl wl ql) run res nt.
Proof.
  induction ps as [|p ps IH]; intros r op q Hnd st.
  { simpl. by rewrite app_nil_r. }
  rewrite fmap_cons in Hnd. apply NoDup_cons in Hnd as [Hp Hnd].
  cbn [foldl]. unfold st. rewrite evaluatePeer_eq. fold (row_id p).
  rewrite IH by done.
  assert (raised v now op (p :: ps) =
    option_list (transition v now (op !! row_id p) p) ++ raised v now op ps) as ->.
  { unfold raised. csimpl. unfold row_id. by case_match. }
  rewrite (raised_ext v now (partial_alter _ _ op) op).
  2:{ intros p' Hp'. rewrite lookup_partial_alter_ne; [done|]. intros E. apply Hp.
      rewrite E. by apply list_elem_of_fmap_2. }
  f_equal.
  - unfold record_all. by rewrite foldl_app.
  - f_equal. unfold queued. by rewrite filter_app, (assoc_L (++)).
Qed.

Lemma episodes_other v now ps : forall op id,
  id ∉ row_id <$> ps -> episodes v now op ps !! id = op !! id.
Proof.
  unfold episodes. induction ps as [|p ps IH]; intros op id Hid; [done|]. simpl.
  rewrite fmap_cons in Hid. apply not_elem_of_cons in Hid as [Hne Hid].
  rewrite IH by done. by rewrite lookup_partial_alter_ne.
Qed.

Lemma episodes_row v now ps : forall op p,
  NoDup (row_id <$> ps) -> p ∈ ps ->
  episodes v now op ps !! row_id p = episode_after v now (op !! row_id p) p.
Proof.
  induction ps as [|p0 ps IH]; intros op p Hnd Hp; [by apply elem_of_nil in Hp|].
  rewrite fmap_cons in Hnd. apply NoDup_cons in Hnd as [Hp0 Hnd].
  unfold episodes. cbn [foldl]. fold (episodes v now
    (partial_alter (fun o => episode_after v now o p0) (row_id p0) op) ps).
  apply elem_of_cons in Hp as [->|Hp].
  - rewrite episodes_other by done. by rewrite lookup_partial_alter_eq.
  - rewrite IH by done. rewrite lookup_partial_alter_ne; [done|].
    intros E. apply Hp0. rewrite E. by apply list_elem_of_fmap_2.
Qed.

(** *** Dispatch *)

(** The incidents of [l] that get a goroutine, given what is in flight. *)
Fixpoint spawned (fl : gset string) (l : list Incident) : list Incident :=
  match l with
  | [] => []
  | inc :: l =>
      if decide (inc_ID inc ∈ fl) then spawned fl l
      else inc :: spawned ({[ inc_ID inc ]} ∪ fl) l
  end.

Lemma dispatch_eq c r op cd q wl ql res nt l : forall fl run,
  foldl dispatchOne (mkWd c r (mkLoopState op cd q fl wl ql) run res nt) l =
  mkWd c r (mkLoopState op cd q (list_to_set (inc_ID <$> l) ∪ fl) wl ql)
    (run ++ spawned fl l) res nt.
Proof.
  induction l as [|inc l IH]; intros fl run.
  { simpl. by rewrite union_empty_l_L, app_nil_r. }
  cbn [foldl spawned]. unfold dispatchOne at 2. simpl. case_decide as Hin; simpl; rewrite IH.
  - f_equal. f_equal. set_solver.
  - rewrite <-(assoc_L (++)). f_equal. f_equal. set_solver.
Qed.

Lemma spawned_spec l : forall fl,
  (forall inc, inc ∈ spawned fl l -> inc ∈ l /\ inc_ID inc ∉ fl)
  /\ NoDup (inc_ID <$> spawned fl l)
  /\ (forall i, i ∈ inc_ID <$> l -> i ∈ fl \/ i ∈ inc_ID <$> spawned fl l).
Proof.
  induction l as [|inc l IH]; intros fl; simpl.
  { split; [by intros ? ?%elem_of_nil|]. split; [constructor|].
    by intros ? ?%elem_of_nil. }
  case_decide as Hin.
  - destruct (IH fl) as (H1 & H2 & H3). split; [|split; [done|]].
    + intros x Hx. destruct (H1 x Hx). split; [by right|done].
    + intros i [->|Hi]%elem_of_cons; [by left|by apply H3].
  - destruct (IH ({[inc_ID inc]} ∪ fl)) as (H1 & H2 & H3). split; [|split].
    + intros x [->|Hx]%elem_of_cons; [split; [left|done]|].
      destruct (H1 x Hx). split; [by right|set_solver].
    + rewrite fmap_cons. constructor; [|done].
      intros (x & E & Hx)%list_elem_of_fmap. destruct (H1 x Hx) as [_ Hn].
      apply Hn. rewrite E. set_solver.
    + intros i [->|Hi]%elem_of_cons; [right; rewrite fmap_cons; left|].
      destruct (H3 i Hi) as [[->%elem_of_singleton|?]%elem_of_union|?];
        [right; rewrite fmap_cons; left|by left|right; rewrite fmap_cons; by right].
Qed.

Lemma evaluate_eq v now w :
  isActingLeader v = true -> sees_quorum v = true -> NoDup (rows v) ->
  let st := gainLeadership (loop w) in
  let incs := raised v now (open st) (cv_Peers v) in
  let q := pending st ++ queued (wd_cfg w) st now incs in
  evaluate v now w =
    mkWd (wd_cfg w) (record_all incs (ring w))
      (mkLoopState (episodes v now (open st) (cv_Peers v)) (cooldowns st) q
         (list_to_set (inc_ID <$> q) ∪ inFlight st) (wasLeader st) false)
      (running w ++ spawned (inFlight st) q) (results w) (notified w).
Proof.
  intros Hl Hq Hnd st incs q. unfold evaluate. rewrite Hl. simpl.
  unfold sees_quorum in Hq. destruct (liveQuorum v) as [n a]. simpl in Hq.
  apply negb_true_iff in Hq. rewrite Hq.
  destruct w as [c r lp run res nt]. simpl in *. fold st.
  clearbody st. destruct st as [op cd q0 fl wl ql]. simpl.
  rewrite evaluatePeers_eq by done. unfold dispatchPending. simpl.
  by rewrite dispatch_eq.
Qed.

Lemma evaluate_silent v now w :
  isActingLeader v = false \/ sees_quorum v = false ->
  ring (evaluate v now w) = ring w
  /\ running (evaluate v now w) = running w /\ results (evaluate v now w) = results w
  /\ notified (evaluate v now w) = notified w /\ wd_cfg (evaluate v now w) = wd_cfg w
  /\ cooldowns (loop (evaluate v now w)) = cooldowns (loop w)
  /\ inFlight (loop (evaluate v now w)) = inFlight (loop w)
  /\ (pending (loop (evaluate v now w)) = pending (loop w)
      \/ pending (loop (evaluate v now w)) = [])
  /\ (open (loop (evaluate v now w)) = open (loop w)
      \/ open (loop (evaluate v now w)) = ∅).
Proof.
  unfold evaluate, sees_quorum. intros H.
  destruct (isActingLeader v); simpl; [|by repeat split; auto].
  destruct (liveQuorum v) as [n a]; simpl in H. destruct H as [?|H]; [done|].
  apply negb_false_iff in H. rewrite H. simpl. unfold gainLeadership.
  destruct (wasLeader (loop w)); simpl; repeat split; auto.
Qed.

(** The isolation guard.  On a view that is not this node's own leader view,
    or in which fewer voters are alive than a majority, an evaluation records no
    incident, starts no delivery, and neither queues an incident nor opens an
    episode: a leader that may be the isolated one never pages anyone. *)
Theorem isolated_leader_is_silent (v : ClusterView) (now : Time.t) (w : wd)
  (Hguard : isActingLeader v = false \/ sees_quorum v = false) :
  Incidents (evaluate v now w) = Incidents w
  /\ running (evaluate v now w) = running w
  /\ (forall inc, inc ∈ pending (loop (evaluate v now w)) -> inc ∈ pending (loop w))
  /\ (forall id, is_Some (open (loop (evaluate v now w)) !! id) ->
        is_Some (open (loop w) !! id)).
Proof.
  destruct (evaluate_silent v now w Hguard) as (Er & Eu & _ & _ & _ & _ & _ & Hq & Ho).
  unfold Incidents. rewrite Er. split; [done|]. split; [done|]. split.
  - intros inc. destruct Hq as [-> | ->]; [done|]. by intros ?%elem_of_nil.
  - intros id. destruct Ho as [-> | ->]; [done|]. rewrite lookup_empty. by intros [].
Qed.

(** Episodes.  An evaluation that passes the guard records, in row order,
    exactly one death for each watched peer that is dead and has no open episode,
    and one recovery for each watched peer that is alive again, and nothing else;
    afterwards a peer's episode is open exactly when it is dead, or was open and
    has not been seen alive.  (A new leader starts with no episodes.) *)
Theorem evaluate_tracks_episodes (v : ClusterView) (now : Time.t) (w : wd)
  (Hl : isActingLeader v = true) (Hq : sees_quorum v = true)
  (Hnd : NoDup (rows v)) :
  let op := if wasLeader (loop w) then open (loop w) else ∅ in
  let w' := evaluate v now w in
  ring w' = record_all (raised v now op (cv_Peers v)) (ring w)
  /\ (forall p inc, p ∈ cv_Peers v -> transition v now (op !! row_id p) p = Some inc ->
        inc ∈ raised v now op (cv_Peers v))
  /\ (forall p, p ∈ cv_Peers v -> watched v p = true ->
        (is_Some (open (loop w') !! row_id p) <->
           pv_Status p = StatusDead
           \/ (is_Some (op !! row_id p) /\ pv_Status p <> StatusAlive)))
  /\ (forall id, id ∉ rows v -> open (loop w') !! id = op !! id).
Proof.
  intros op w'. unfold w'. rewrite evaluate_eq by done. simpl.
  assert (open (gainLeadership (loop w)) = op) as ->
    by (unfold gainLeadership, op; by destruct (wasLeader (loop w))).
  split; [done|]. split; [|split].
  - intros p inc Hp Ht. unfold raised. apply list_elem_of_omap. by exists p.
  - intros p Hp Hw. rewrite episodes_row by done. unfold episode_after. rewrite Hw. simpl.
    destruct (decide (pv_Status p = StatusDead)) as [Hd|Hd].
    { split; [by left|by eexists]. }
    destruct (decide (pv_Status p = StatusAlive)) as [Ha|Ha].
    + split; [by intros []|]. naive_solver.
    + naive_solver.
  - intros id Hid. by apply episodes_other.
Qed.

(** Delivery.  After an evaluation that passes the guard, every queued
    incident has a delivery in flight, no incident gets a second one while its
    first has not reported, and nothing joins the queue for a peer and type that
    was notified less than [Cooldown] ago. *)
Theorem evaluate_delivers (v : ClusterView) (now : Time.t) (w : wd)
  (Hl : isActingLeader v = true) (Hq : sees_quorum v = true)
  (Hnd : NoDup (rows v)) :
  let w' := evaluate v now w in
  (forall inc, inc ∈ pending (loop w') -> inc_ID inc ∈ inFlight (loop w'))
  /\ (exists new, running w' = running w ++ new /\ NoDup (inc_ID <$> new)
        /\ forall inc, inc ∈ new ->
             inc ∈ pending (loop w') /\ inc_ID inc ∉ inFlight (loop w))
  /\ (forall inc last, inc ∈ pending (loop w') ->
        cooldowns (loop w) !! key_of inc = Some last ->
        (Time.Sub now last < Cooldown (wd_cfg w))%Z -> inc ∈ pending (loop w)).
Proof.
  intros w'. unfold w'. rewrite evaluate_eq by done. simpl.
  set (q := _ ++ queued _ _ _ _).
  assert (inFlight (gainLeadership (loop w)) = inFlight (loop w)) as ->
    by (unfold gainLeadership; by destruct (wasLeader (loop w))).
  split; [|split].
  - intros inc Hin. apply elem_of_union_l, elem_of_list_to_set.
    by apply list_elem_of_fmap_2.
  - eexists. split; [done|]. destruct (spawned_spec q (inFlight (loop w))) as (H1 & H2 & _).
    split; [done|]. exact H1.
  - intros inc last Hin Hlast Hcool. apply elem_of_app in Hin as [Hin|Hin].
    + unfold gainLeadership in Hin. destruct (wasLeader (loop w)); [done|].
      by apply elem_of_nil in Hin.
    + apply list_elem_of_filter in Hin as [[_ Hc] _]. unfold cooling in Hc.
      assert (cooldowns (gainLeadership (loop w)) = cooldowns (loop w)) as E
        by (unfold gainLeadership; by destruct (wasLeader (loop w))).
      rewrite E in Hc. change (ID (inc_Peer inc), inc_Type inc) with (key_of inc) in Hc.
      rewrite Hlast in Hc. apply Z.ltb_ge in Hc. lia.
Qed.

(** ** At most one notification per incident *)

Definition inc_wf (s : Z) (inc : Incident) : Prop :=
  inc_ID inc = NewIncidentID (inc_Type inc) (ID (inc_Peer inc)) (inc_DetectedAt inc)
  /\ (inc_Type inc = IncidentPeerDead \/ inc_Type inc = IncidentPeerRecovered)
  /\ (Time.Unix (inc_DetectedAt inc) <= s)%Z.

Definition flight_ids (w : wd) : list string :=
  (inc_ID <$> running w) ++ ((fun r => inc_ID (nr_inc r)) <$> results w).
Definition notified_ids (w : wd) : list string := (fun n => inc_ID n.1) <$> notified w.

(** [s] is the Unix second of the last evaluation. *)
Record once_inv (s : Z) (w : wd) : Prop := {
  oi_pending_wf : Forall (inc_wf s) (pending (loop w));
  oi_running_wf : Forall (inc_wf s) (running w);
  oi_results_wf : Forall (fun r => inc_wf s (nr_inc r)) (results w);
  oi_notified_wf : Forall (fun n => inc_wf s n.1) (notified w);
  oi_pending : NoDup (inc_ID <$> pending (loop w));
  oi_flight : NoDup (flight_ids w);
  oi_inFlight : forall i, i ∈ inFlight (loop w) <-> i ∈ flight_ids w;
  oi_once : NoDup (notified_ids w);
  oi_idle : forall i, i ∈ notified_ids w -> i ∉ inc_ID <$> running w;
  oi_reported : forall i, i ∈ notified_ids w -> i ∈ inc_ID <$> pending (loop w) ->
    exists r, r ∈ results w /\ inc_ID (nr_inc r) = i /\ nr_ok r = true;
}.

(** The evaluations of [l] see distinct row IDs and happen in strictly increasing
    seconds after [s]. *)
Fixpoint ordered (s : Z) (l : list wd_event) : Prop :=
  match l with
  | [] => True
  | Evaluate v now :: l =>
      (s < Time.Unix now)%Z /\ NoDup (rows v) /\ ordered (Time.Unix now) l
  | _ :: l => ordered s l
  end.

Lemma inc_wf_mono s s' inc : (s <= s')%Z -> inc_wf s inc -> inc_wf s' inc.
Proof. intros ? (?&?&?). repeat split; auto; lia. Qed.

(** Incidents raised at [now] are well-formed and have IDs of their own. *)
Lemma transition_wf v now o p inc :
  transition v now o p = Some inc ->
  inc_wf (Time.Unix now) inc /\ inc_DetectedAt inc = now /\ inc_Peer inc = pv_Node p.
Proof.
  unfold transition, inc_wf. intros H.
  repeat case_match; simplify_eq/=; repeat split; auto; lia.
Qed.

Lemma raised_wf v now op ps inc :
  inc ∈ raised v now op ps ->
  inc_wf (Time.Unix now) inc /\ inc_DetectedAt inc = now /\ ID (inc_Peer inc) ∈ row_id <$> ps.
Proof.
  unfold raised. intros (p & Hp & Ht)%list_elem_of_omap.
  apply transition_wf in Ht as (? & ? & ->). split; [done|]. split; [done|].
  change (ID (pv_Node p)) with (row_id p). by apply list_elem_of_fmap_2.
Qed.

Lemma raised_ids v now op ps :
  NoDup (row_id <$> ps) -> NoDup (inc_ID <$> raised v now op ps).
Proof.
  induction ps as [|p ps IH]; intros Hnd; [constructor|].
  rewrite fmap_cons in Hnd. apply NoDup_cons in Hnd as [Hp Hnd].
  unfold raised. csimpl. destruct (transition v now _ p) as [inc|] eqn:Ht; [|by apply IH].
  rewrite fmap_cons. constructor; [|by apply IH].
  intros (inc' & E & Hin)%list_elem_of_fmap.
  apply raised_wf in Hin as ((E' & Hty' & _) & Hd' & Hrow).
  apply transition_wf in Ht as ((E0 & Hty & _) & Hd & HP).
  rewrite E0, E', Hd, Hd' in E. apply NewIncidentID_peer in E as [_ E]; [|done..].
  apply Hp. unfold row_id at 1. by rewrite <-HP, E.
Qed.

Lemma fresh_id s now inc inc' :
  (s < Time.Unix now)%Z -> inc_wf s inc -> inc_wf (Time.Unix now) inc' ->
  inc_DetectedAt inc' = now -> inc_ID inc <> inc_ID inc'.
Proof.
  intros Hs (E & _ & Hle) (E' & _) Hd Heq. rewrite E, E' in Heq.
  apply NewIncidentID_second in Heq. rewrite Hd in Heq. lia.
Qed.

Lemma fresh_ids {A} (f : A -> Incident) s now (l : list A) inc' :
  (s < Time.Unix now)%Z -> Forall (fun x => inc_wf s (f x)) l ->
  inc_wf (Time.Unix now) inc' -> inc_DetectedAt inc' = now ->
  inc_ID inc' ∉ (fun x => inc_ID (f x)) <$> l.
Proof.
  intros Hs Hl Hw Hd (x & E & Hx)%list_elem_of_fmap.
  rewrite Forall_forall in Hl. symmetry in E. revert E. eapply fresh_id; eauto.
Qed.

Lemma once_mono s s' w : (s <= s')%Z -> once_inv s w -> once_inv s' w.
Proof.
  intros Hs []. constructor; try done;
    (eapply Forall_impl; [eassumption|]); intros; by eapply inc_wf_mono.
Qed.

Lemma evaluate_once s v now w :
  once_inv s w -> (s < Time.Unix now)%Z -> NoDup (rows v) ->
  once_inv (Time.Unix now) (evaluate v now w).
Proof.
  intros Hinv Hs Hnd.
  destruct (isActingLeader v && sees_quorum v) eqn:Hguard; cycle 1.
  { apply (once_mono s); [lia|]. destruct Hinv.
    assert (isActingLeader v = false \/ sees_quorum v = false) as Hg
      by (by apply andb_false_iff).
    destruct (evaluate_silent v now w Hg) as (_ & Eu & Er & En & _ & _ & Ef & Hq & _).
    constructor; unfold flight_ids, notified_ids in *; rewrite ?Eu, ?Er, ?En, ?Ef; try done;
      destruct Hq as [-> | ->]; try done; [constructor|].
    intros i _ Hi. by apply elem_of_nil in Hi. }
  apply andb_true_iff in Hguard as [Hl Hq].
  rewrite evaluate_eq by done. simpl.
  set (st := gainLeadership (loop w)).
  assert (inFlight st = inFlight (loop w)) as Efl
    by (unfold st, gainLeadership; by destruct (wasLeader (loop w))).
  assert (exists sub, pending st = sub /\ (sub = pending (loop w) \/ sub = [])) as (sub & Esub & Hsub)
    by (unfold st, gainLeadership; destruct (wasLeader (loop w)); simpl; eauto).
  rewrite Efl, Esub. clearbody st. set (incs := raised _ _ _ _).
  set (new := queued _ _ _ incs).
  assert (forall inc, inc ∈ new -> inc_wf (Time.Unix now) inc /\ inc_DetectedAt inc = now) as Hnew.
  { intros inc [_ Hi]%list_elem_of_filter. apply raised_wf in Hi. naive_solver. }
  assert (Forall (inc_wf s) sub /\ NoDup (inc_ID <$> sub)) as [Hsubwf Hsubnd].
  { destruct Hinv, Hsub as [-> | ->]; split; try done; constructor. }
  set (q := sub ++ new) in *.
  destruct (spawned_spec q (inFlight (loop w))) as (H1 & H2 & _).
  pose proof (once_mono s (Time.Unix now) w ltac:(lia) Hinv) as Hup.
  assert (Forall (inc_wf (Time.Unix now)) q) as Hqwf.
  { apply Forall_app. split.
    - eapply Forall_impl; [exact Hsubwf|]. intros; eapply inc_wf_mono; [|done]; lia.
    - apply Forall_forall. intros inc Hi. by apply Hnew. }
  destruct Hinv as [Hpwf Hrwf Hswf Hnwf Hp Hf Hset Honce Hidle Hrep].
  assert (forall i, i ∈ notified_ids w -> i ∈ inc_ID <$> q -> i ∈ inFlight (loop w)) as Hold.
  { intros i Hi Hq'. unfold q in Hq'. rewrite fmap_app in Hq'.
    apply elem_of_app in Hq' as [Hs'|Hn].
    - destruct Hsub as [-> | ->]; [|by apply elem_of_nil in Hs'].
      destruct (Hrep i Hi Hs') as (r & Hr & <- & _). apply Hset.
      unfold flight_ids. apply elem_of_app. right.
      apply (list_elem_of_fmap_2 (fun r => inc_ID (nr_inc r))). done.
    - exfalso. apply list_elem_of_fmap in Hn as (inc & -> & Hn).
      apply Hnew in Hn as [??]. revert Hi. unfold notified_ids.
      by apply (fresh_ids fst s now). }
  constructor; simpl; try apply Hup; try done.
  - apply Forall_app. split; [by apply Hup|].
    apply Forall_forall. intros inc Hi. apply H1 in Hi as [Hi _].
    rewrite Forall_forall in Hqwf. by apply Hqwf.
  - unfold q. rewrite fmap_app. apply NoDup_app. split; [done|]. split.
    + intros i Hi (inc & -> & Hn)%list_elem_of_fmap. apply Hnew in Hn as [??].
      revert Hi. by apply (fresh_ids (fun x => x) s now).
    + eapply sublist_NoDup; [by apply (raised_ids v now (open st) (cv_Peers v))|].
      apply fmap_sublist, sublist_filter.
  - unfold flight_ids. simpl. rewrite fmap_app.
    rewrite <-(assoc_L (++)), (Permutation_app_comm (inc_ID <$> spawned _ _)), (assoc_L (++)).
    apply NoDup_app. split; [done|]. split; [|done].
    intros i Hi (inc & -> & Hn)%list_elem_of_fmap. apply H1 in Hn as [_ Hn].
    apply Hn, Hset. done.
  - intros i. unfold flight_ids. simpl. rewrite fmap_app, elem_of_union, elem_of_list_to_set.
    rewrite !elem_of_app. pose proof (Hset i) as Hi. unfold flight_ids in Hi.
    rewrite elem_of_app in Hi.
    destruct (spawned_spec q (inFlight (loop w))) as (_ & _ & H3). split.
    + intros [Hq'|Hin]; [|naive_solver]. destruct (H3 i Hq'); naive_solver.
    + intros [[?|Hsp]|?]; [naive_solver| |naive_solver]. left.
      apply list_elem_of_fmap in Hsp as (inc & -> & Hsp).
      apply list_elem_of_fmap_2. by apply H1.
  - intros i Hi. rewrite fmap_app. intros [Hr|Hsp]%elem_of_app; [by eapply Hidle|].
    apply list_elem_of_fmap in Hsp as (inc & -> & Hsp). apply H1 in Hsp as [Hsp Hn].
    apply Hn, Hold; [done|]. by apply list_elem_of_fmap_2.
  - intros i Hi Hq'. unfold q in Hq'. rewrite fmap_app in Hq'.
    apply elem_of_app in Hq' as [Hs'|Hn].
    + destruct Hsub as [-> | ->]; [|by apply elem_of_nil in Hs']. by apply Hrep.
    + exfalso. apply list_elem_of_fmap in Hn as (inc & -> & Hn).
      apply Hnew in Hn as [??]. revert Hi. unfold notified_ids.
      by apply (fresh_ids fst s now).
Qed.

Lemma removePending_sublist id q : removePending id q `sublist_of` q.
Proof.
  induction q as [|inc q IH]; simpl; [constructor|].
  case_decide; [by apply sublist_cons|by apply sublist_skip].
Qed.

Lemma removePending_gone id q :
  NoDup (inc_ID <$> q) -> id ∉ inc_ID <$> removePending id q.
Proof.
  induction q as [|inc q IH]; simpl; [intros _; apply not_elem_of_nil|].
  rewrite ?fmap_cons. intros [Hi Hnd]%NoDup_cons. case_decide as E; [by rewrite <-E|].
  rewrite ?fmap_cons. apply not_elem_of_cons. split; [done|by apply IH].
Qed.

Lemma removePending_keeps id q i :
  i ∈ inc_ID <$> removePending id q -> i ∈ inc_ID <$> q.
Proof.
  intros H. eapply elem_of_sublist; [exact H|].
  apply fmap_sublist, removePending_sublist.
Qed.

Lemma finish_once s k ok now w : once_inv s w -> once_inv s (wd_step w (Finish k ok now)).
Proof.
  intros Hinv. simpl. destruct (running w !! k) as [inc|] eqn:Hk; [|done].
  set (rest := take k (running w) ++ drop (S k) (running w)).
  assert (running w ≡ₚ inc :: rest) as Hperm.
  { rewrite <-(take_drop_middle (running w) k inc) at 1 by done.
    unfold rest. by rewrite Permutation_middle. }
  destruct Hinv as [Hpwf Hrwf Hswf Hnwf Hp Hf Hset Honce Hidle Hrep].
  rewrite Hperm in Hrwf. apply Forall_cons in Hrwf as [Hinc Hrest].
  assert (inc_ID inc ∉ inc_ID <$> rest) as Hgone.
  { unfold flight_ids in Hf. rewrite Hperm, fmap_cons in Hf.
    apply NoDup_app in Hf as (Hf & _). by apply NoDup_cons in Hf as [? _]. }
  assert (forall i, i ∈ inc_ID <$> rest -> i ∈ inc_ID <$> running w) as Hincl
    by (intros i Hi; rewrite Hperm, fmap_cons; by right).
  assert (inc_ID inc ∉ notified_ids w) as Hfresh.
  { intros Hn. apply (Hidle _ Hn). rewrite Hperm, fmap_cons. left. }
  assert (flight_ids (w <| running := rest |>
      <| results ::= fun l => l ++ [ {| nr_inc := inc; nr_ok := ok |} ] |>)
    ≡ₚ flight_ids w) as Hfl.
  { unfold flight_ids. simpl. rewrite Hperm, fmap_app. simpl.
    rewrite (assoc_L (++)), (Permutation_app_comm _ [inc_ID inc]). done. }
  unfold flight_ids in Hfl. simpl in Hfl.
  constructor; unfold flight_ids; simpl; try done.
  - apply Forall_app. split; [done|]. by apply Forall_singleton.
  - by destruct ok; [constructor|].
  - by rewrite Hfl.
  - intros i. rewrite Hfl. apply Hset.
  - unfold notified_ids. destruct ok; simpl; [|done]. by constructor.
  - intros i Hi Hr. unfold notified_ids in Hi. destruct ok; simpl in Hi.
    + apply elem_of_cons in Hi as [->|Hi]; [done|]. by eapply Hidle; eauto.
    + by eapply Hidle; eauto.
  - intros i Hi Hq. unfold notified_ids in Hi. destruct ok; simpl in Hi.
    + apply elem_of_cons in Hi as [->|Hi].
      * eexists. split; [apply elem_of_app; right; left|done].
      * destruct (Hrep i Hi Hq) as (r & ? & ?). exists r.
        split; [apply elem_of_app; by left|done].
    + destruct (Hrep i Hi Hq) as (r & ? & ?). exists r.
      split; [apply elem_of_app; by left|done].
Qed.

Lemma handle_once s now w : once_inv s w -> once_inv s (wd_step w (HandleNext now)).
Proof.
  intros Hinv. simpl. destruct (results w) as [|r rs] eqn:Hres; [done|].
  destruct Hinv as [Hpwf Hrwf Hswf Hnwf Hp Hf Hset Honce Hidle Hrep].
  rewrite Hres in Hswf. apply Forall_cons in Hswf as [_ Hswf].
  set (i0 := inc_ID (nr_inc r)).
  assert (flight_ids w ≡ₚ i0 :: flight_ids (w <| results := rs |>)) as Hfl.
  { unfold flight_ids. rewrite Hres, fmap_cons. simpl. by rewrite Permutation_middle. }
  rewrite Hfl in Hf. apply NoDup_cons in Hf as [Hi0 Hf].
  assert (forall i, i ∈ inFlight (loop w) ∖ {[i0]} <-> i ∈ flight_ids (w <| results := rs |>))
    as Hset'.
  { intros i. rewrite elem_of_difference, Hset, Hfl, elem_of_cons, elem_of_singleton.
    naive_solver. }
  assert (forall i, i ∈ notified_ids w -> i ∈ inc_ID <$> pending (loop w) ->
    i = i0 /\ nr_ok r = true \/ exists r', r' ∈ rs /\ inc_ID (nr_inc r') = i /\ nr_ok r' = true)
    as Hrep'.
  { intros i Hi Hq. destruct (Hrep i Hi Hq) as (r' & Hr' & E & ?).
    rewrite Hres in Hr'. apply elem_of_cons in Hr' as [->|?]; [by left|right; eauto]. }
  unfold handleResult. destruct (nr_ok r) eqn:Hok; simpl;
    constructor; simpl; try done.
  - rewrite Forall_forall in Hpwf |- *. intros x Hx. apply Hpwf.
    eapply elem_of_sublist; [exact Hx|apply removePending_sublist].
  - eapply sublist_NoDup; [exact Hp|]. apply fmap_sublist, removePending_sublist.
  - intros i Hi Hq. apply removePending_keeps in Hq as Hq'.
    destruct (Hrep' i Hi Hq') as [[-> _]|?]; [|done].
    exfalso. revert Hq. by apply removePending_gone.
  - intros i Hi Hq. destruct (Hrep' i Hi Hq) as [[_ ?]|?]; done.
Qed.

Lemma New_once c s : once_inv s (New c).
Proof.
  constructor; simpl; try constructor; try (by intros ? ?%elem_of_nil).
  - by intros ?%elem_of_empty.
  - by intros ?%elem_of_nil.
Qed.

(** C36: At most one notification per incident.  In every run whose evaluations
    happen in strictly increasing Unix seconds (an incident's identifier has only
    the second it was detected in), of views that list each peer once, with deliveries that take any time, fail and are
    retried, and leadership lost and regained in between, no incident ID is ever
    successfully notified twice. *)
Theorem notified_at_most_once (c : Config) (s : Z) (l : list wd_event)
  (Hord : ordered s l) :
  NoDup (notified_ids (wd_run (New c) l)).
Proof.
  assert (forall w s, once_inv s w -> ordered s l ->
    exists s', once_inv s' (wd_run w l)) as Hrun.
  { unfold wd_run. clear. induction l as [|e l IH]; simpl; intros w s Hw Hord; [eauto|].
    destruct e as [v now|now|k ok now]; simpl in *.
    - destruct Hord as (? & ? & ?). eapply IH; [|done]. by apply (evaluate_once s).
    - eapply IH; [|done]. by apply (handle_once s now).
    - eapply IH; [|done]. by apply (finish_once s k ok now). }
  destruct (Hrun (New c) s) as (s' & H); [apply New_once|done|]. by apply (oi_once _ _ H).
Qed.

(** Retry.  When a delivery fails, its incident stays queued and the next
    evaluation that passes the guard, under the same leadership, delivers it
    again. *)
Theorem failed_delivery_is_retried (w : wd) (r : notifyResult) (rs : list notifyResult)
  (v : ClusterView) (now now' : Time.t)
  (Hres : results w = r :: rs) (Hfail : nr_ok r = false)
  (Hpend : nr_inc r ∈ pending (loop w)) (Hsame : wasLeader (loop w) = true)
  (Hl : isActingLeader v = true) (Hq : sees_quorum v = true) (Hnd : NoDup (rows v)) :
  exists inc, inc ∈ running (wd_run w [HandleNext now; Evaluate v now'])
    /\ inc_ID inc = inc_ID (nr_inc r).
Proof.
  unfold wd_run. cbn [foldl wd_step]. rewrite Hres. unfold handleResult. rewrite Hfail.
  cbn [negb]. rewrite evaluate_eq by done. cbn [running]. unfold gainLeadership. simpl.
  rewrite Hsame. simpl.
  set (q := pending (loop w) ++ _). set (fl := inFlight (loop w) ∖ _).
  destruct (spawned_spec q fl) as (_ & _ & H3).
  destruct (H3 (inc_ID (nr_inc r))) as [Hin|Hin].
  - apply list_elem_of_fmap_2. unfold q. apply elem_of_app. by left.
  - unfold fl in Hin. set_solver.
  - apply list_elem_of_fmap in Hin as (inc & E & Hin). exists inc.
    split; [|done]. apply elem_of_app. by right.
Qed.

(** ** Concrete views *)

Definition a_node (s : string) : Node := {| ID := s; Addr := s +:+ ":7717" |}.
Definition row (s : string) (st : PeerStatus) : PeerView :=
  {| pv_Node := a_node s; pv_Status := st; pv_LastSeen := 0%Z; pv_LatencyMS := 0%Z;
     pv_Member := MemberVoter |}.
(** [a] leads [b] and [c]; [c] is alive and [b] has the given status. *)
Definition view_b (st : PeerStatus) : ClusterView :=
  {| cv_Self := "a"; cv_Role := RoleLeader; cv_Term := 1%N; cv_LeaderID := "a";
     cv_Source := "a"; cv_Authoritative := true; cv_UpdatedAt := 0%Z;
     cv_Peers := [row "a" StatusAlive; row "b" st; row "c" StatusAlive];
     cv_ElectionsStarted := 1%N;
     cv_Membership := {| Version := 0%N; CreatedInTerm := 0%N;
                         Voters := a_node <$> ["a"; "b"; "c"] |} |}.
Definition zero_config : Config :=
  {| Cooldown := 0%Z; NotifyRecovery := false; MaxIncidents := 0%Z; CheckInterval := 0%Z |}.
Definition sec (n : Z) : Time.t := (n * Time.Second)%Z.
Definition msec (n : Z) : Time.t := (n * Time.Millisecond)%Z.

(** [b] dies, recovers and dies again while the first delivery is still under
    way. *)
Definition flapping : list wd_event :=
  [Evaluate (view_b StatusDead) (sec 10); Evaluate (view_b StatusAlive) (sec 12);
   Evaluate (view_b StatusDead) (sec 14); Finish 0 true (sec 20); HandleNext (sec 20);
   Finish 0 true (sec 21); HandleNext (sec 21)].

(** The condition on the seconds is needed: a peer that dies, recovers and dies again
    within one second has two incidents of one identifier, and both are notified. *)
Theorem same_second_same_incident :
  let i := inc_ID (buildDeadIncident (view_b StatusDead) (row "b" StatusDead) (sec 10)) in
  notified_ids (wd_run (New zero_config)
    [Evaluate (view_b StatusDead) (msec 10000); Evaluate (view_b StatusAlive) (msec 10200);
     Evaluate (view_b StatusDead) (msec 10400); Finish 0 true (msec 10450);
     HandleNext (msec 10450); Evaluate (view_b StatusDead) (msec 10500);
     Finish 0 true (msec 10600); HandleNext (msec 10600)])
  = [i; i].
Proof. by vm_compute. Qed.

(** The cooldown is only checked when an incident is queued, so it does not
    bound the interval between notifications: with the default ten-minute
    cooldown, a peer that flaps while a delivery is slow is notified dead twice
    within one second. *)
Theorem cooldown_does_not_space_notifications :
  exists w i1 i2 t1 t2,
    w = wd_run (New zero_config) flapping
    /\ notified w = [(i2, t2); (i1, t1)]
    /\ key_of i1 = key_of i2 /\ inc_Type i1 = IncidentPeerDead
    /\ Time.Sub t2 t1 = Time.Second /\ Cooldown (wd_cfg w) = (10 * Time.Minute)%Z.
Proof.
  eexists _, _, _, _, _. split; [reflexivity|].
  split; [vm_compute; reflexivity|]. by repeat split; vm_compute.
Qed.

(** ** Witnesses *)

Lemma ring_keeps_latest_witness :
  let incs := (fun n => buildDeadIncident (view_b StatusDead) (row "b" StatusDead) (sec n))
                <$> [1%Z; 2%Z; 3%Z] in
  let r := record_all incs (newIncidentRing 2) in
  length (ring_snapshot r) = 2
  /\ ring_snapshot r = take (Z.to_nat 2) (reverse incs)
  /\ (Z.of_nat (length (ring_snapshot r)) <= 2)%Z.
Proof.
  intros incs r. split; [by vm_compute|].
  apply (ring_keeps_latest 2%Z incs). by vm_compute.
Defined.

(** Both [b] and [c] look dead to [a]: no quorum, no alarm. *)
Definition isolated_view : ClusterView :=
  {| cv_Self := "a"; cv_Role := RoleLeader; cv_Term := 1%N; cv_LeaderID := "a";
     cv_Source := "a"; cv_Authoritative := true; cv_UpdatedAt := 0%Z;
     cv_Peers := [row "a" StatusAlive; row "b" StatusDead; row "c" StatusDead];
     cv_ElectionsStarted := 1%N; cv_Membership := cv_Membership (view_b StatusDead) |}.

Lemma isolated_leader_is_silent_witness :
  let w := New zero_config in
  isActingLeader isolated_view = true
  /\ Incidents (evaluate isolated_view (sec 10) w) = Incidents w
  /\ running (evaluate isolated_view (sec 10) w) = running w.
Proof.
  intros w. split; [by vm_compute|].
  destruct (isolated_leader_is_silent isolated_view (sec 10) w) as (? & ? & _);
    [right; by vm_compute|by split].
Defined.

Lemma view_rows_distinct st : NoDup (rows (view_b st)).
Proof. unfold rows; simpl. apply (bool_decide_unpack _). by vm_compute. Qed.

Lemma evaluate_tracks_episodes_witness :
  let w := New zero_config in
  let w' := evaluate (view_b StatusDead) (sec 10) w in
  length (Incidents w') = 1
  /\ ring w' = record_all (raised (view_b StatusDead) (sec 10) ∅ (cv_Peers (view_b StatusDead)))
                 (ring w).
Proof.
  intros w w'. split; [by vm_compute|].
  apply (evaluate_tracks_episodes (view_b StatusDead) (sec 10) w);
    [by vm_compute|by vm_compute|apply view_rows_distinct].
Defined.

Lemma evaluate_delivers_witness :
  let w := New zero_config in
  let w' := evaluate (view_b StatusDead) (sec 10) w in
  length (running w') = 1
  /\ forall inc, inc ∈ pending (loop w') -> inc_ID inc ∈ inFlight (loop w').
Proof.
  intros w w'. split; [by vm_compute|].
  apply (evaluate_delivers (view_b StatusDead) (sec 10) w);
    [by vm_compute|by vm_compute|apply view_rows_distinct].
Defined.

Lemma notified_at_most_once_witness :
  length (notified_ids (wd_run (New zero_config) flapping)) = 2
  /\ NoDup (notified_ids (wd_run (New zero_config) flapping)).
Proof.
  split; [by vm_compute|].
  apply (notified_at_most_once zero_config (Time.Unix 0%Z) flapping).
  repeat split; first [apply view_rows_distinct|by vm_compute].
Defined.

(** The first delivery fails; the next evaluation starts another. *)
Lemma failed_delivery_is_retried_witness :
  let w := wd_run (New zero_config)
             [Evaluate (view_b StatusDead) (sec 10); Finish 0 false (sec 11)] in
  let i := buildDeadIncident (view_b StatusDead) (row "b" StatusDead) (sec 10) in
  exists inc, inc ∈ running (wd_run w [HandleNext (sec 11);
                                       Evaluate (view_b StatusDead) (sec 12)])
    /\ inc_ID inc = inc_ID i.
Proof.
  intros w i.
  apply (failed_delivery_is_retried w {| nr_inc := i; nr_ok := false |} []
           (view_b StatusDead) (sec 11) (sec 12));
    [by vm_compute|done| |by vm_compute|by vm_compute|by vm_compute
    |apply view_rows_distinct].
  apply (bool_decide_unpack _). by vm_compute.
Defined.
