(* ===== verification/WardenWire.v ===== *)
(** * Wire conversions

    [services/warden/wireconv/wireconv.go]: the conversions between the domain
    types and the generated messages of [proto/warden/v1], and the cursor of the
    watch stream.  A message pointer is an [option], the receiver's nil check
    included; an element of a repeated message field is a pointer too.
    [timestamppb] is a parameter: [New] and [AsTime] with the documented law that
    [AsTime] inverts [New]. *)

From S2P Require Import Prelude.
From S2P Require Import WardenTypes.

(** ** Round-trip interface *)

(** A pair of converters that loses nothing on the way to the wire and back; a
    missing message reads as the zero value. *)
Class Wire (A P : Type) := {
  to_proto : A -> P;
  from_proto : option P -> A;
  wire_roundtrip : forall a, from_proto (Some (to_proto a)) = a;
}.

(** The [*Ptr] variants and the slice converters, for any converter pair. *)
Definition ptr_to {A P} (f : A -> P) (a : option A) : option P := f <$> a.
Definition ptr_from {A P} (f : option P -> A) (p : option P) : option A :=
  match p with None => None | Some q => Some (f (Some q)) end.
Definition slice_to {A P} (f : A -> P) (l : list A) : list (option P) := Some ∘ f <$> l.
Definition slice_from {A P} (f : option P -> A) (l : list (option P)) : list A := f <$> l.

Lemma ptr_roundtrip {A P} (f : A -> P) (g : option P -> A) (a : option A) :
  (forall a, g (Some (f a)) = a) -> ptr_from g (ptr_to f a) = a.
Proof. intros H. destruct a; simpl; [by rewrite H|done]. Qed.

Lemma slice_roundtrip {A P} (f : A -> P) (g : option P -> A) (l : list A) :
  (forall a, g (Some (f a)) = a) -> slice_from g (slice_to f l) = l.
Proof.
  intros H. unfold slice_from, slice_to. rewrite <-list_fmap_compose.
  induction l as [|a l IH]; [done|]. csimpl. by rewrite IH, H.
Qed.

Module V1.
Section messages.
Context {Timestamp : Type}.

Record Node := mkNode { Id : string; Addr : string }.
Record Membership := mkMembership {
  Version : N; CreatedInTerm : N; Voters : list (option Node) }.
Record PeerView := mkPeerView {
  pv_Node : option Node; Status : string; LastSeen : option Timestamp;
  LatencyMs : Z; Member : string }.
Record ClusterView := mkClusterView {
  Self : string; Role : string; Term : N; LeaderId : string; Source : string;
  Authoritative : bool; UpdatedAt : option Timestamp;
  Peers : list (option PeerView); ElectionsStarted : N;
  cv_Membership : option Membership }.
Record PersistentState := mkPersistentState {
  CurrentTerm : N; VotedFor : string; ps_Membership : option Membership }.
Record VoteRequest := mkVoteRequest { vq_Term : N; CandidateId : string }.
Record VoteResponse := mkVoteResponse {
  vr_Term : N; Granted : bool; VoterId : string }.
Record HeartbeatRequest := mkHeartbeatRequest {
  hq_Term : N; hq_LeaderId : string; View : option ClusterView;
  hq_Membership : option Membership }.
Record HeartbeatResponse := mkHeartbeatResponse {
  hr_Term : N; Ok : bool; hr_NodeId : string }.
Record IdentifyResponse := mkIdentifyResponse {
  ClusterId : string; NodeId : string; ir_Version : string }.
Record ClusterViewCursor := mkClusterViewCursor {
  MembershipVersion : N; MembershipCreatedInTerm : N;
  ViewUpdatedAt : option Timestamp }.
End messages.
Arguments PeerView : clear implicits.
Arguments ClusterView : clear implicits.
Arguments HeartbeatRequest : clear implicits.
Arguments ClusterViewCursor : clear implicits.
End V1.

(** ** Conversions that need no timestamp *)

Definition NodeToProto (n : Node) : V1.Node := V1.mkNode (ID n) (Addr n).
Definition NodeFromProto (p : option V1.Node) : Node :=
  match p with
  | None => {| ID := ""; Addr := "" |}
  | Some p => {| ID := V1.Id p; Addr := V1.Addr p |}
  end.

Definition nodesToProto (ns : list Node) : list (option V1.Node) := slice_to NodeToProto ns.
Definition nodesFromProto (ps : list (option V1.Node)) : list Node :=
  slice_from NodeFromProto ps.

Definition zeroMembership : Membership :=
  {| Version := 0%N; CreatedInTerm := 0%N; Voters := [] |}.

Definition MembershipToProto (m : Membership) : V1.Membership :=
  V1.mkMembership (Version m) (CreatedInTerm m) (nodesToProto (Voters m)).
Definition MembershipFromProto (p : option V1.Membership) : Membership :=
  match p with
  | None => zeroMembership
  | Some p => {| Version := V1.Version p; CreatedInTerm := V1.CreatedInTerm p;
                 Voters := nodesFromProto (V1.Voters p) |}
  end.

Definition MembershipPtrToProto : option Membership -> option V1.Membership :=
  ptr_to MembershipToProto.
Definition MembershipPtrFromProto : option V1.Membership -> option Membership :=
  ptr_from MembershipFromProto.

Definition PersistentStateToProto (st : PersistentState) : V1.PersistentState :=
  V1.mkPersistentState (ps_CurrentTerm st) (ps_VotedFor st)
    (MembershipPtrToProto (ps_Membership st)).
Definition PersistentStateFromProto (p : option V1.PersistentState) : PersistentState :=
  match p with
  | None => {| ps_CurrentTerm := 0%N; ps_VotedFor := ""; ps_Membership := None |}
  | Some p => {| ps_CurrentTerm := V1.CurrentTerm p; ps_VotedFor := V1.VotedFor p;
                 ps_Membership := MembershipPtrFromProto (V1.ps_Membership p) |}
  end.

Definition VoteRequestToProto (r : VoteRequest) : V1.VoteRequest :=
  V1.mkVoteRequest (vq_Term r) (vq_CandidateID r).
Definition VoteRequestFromProto (p : option V1.VoteRequest) : VoteRequest :=
  match p with
  | None => {| vq_Term := 0%N; vq_CandidateID := "" |}
  | Some p => {| vq_Term := V1.vq_Term p; vq_CandidateID := V1.CandidateId p |}
  end.

Definition VoteResponseToProto (r : VoteResponse) : V1.VoteResponse :=
  V1.mkVoteResponse (vr_Term r) (vr_Granted r) (vr_VoterID r).
Definition VoteResponseFromProto (p : option V1.VoteResponse) : VoteResponse :=
  match p with
  | None => {| vr_Term := 0%N; vr_Granted := false; vr_VoterID := "" |}
  | Some p => {| vr_Term := V1.vr_Term p; vr_Granted := V1.Granted p;
                 vr_VoterID := V1.VoterId p |}
  end.

Definition HeartbeatResponseToProto (r : HeartbeatResponse) : V1.HeartbeatResponse :=
  V1.mkHeartbeatResponse (hr_Term r) (hr_OK r) (hr_NodeID r).
Definition HeartbeatResponseFromProto (p : option V1.HeartbeatResponse)
  : HeartbeatResponse :=
  match p with
  | None => {| hr_Term := 0%N; hr_OK := false; hr_NodeID := "" |}
  | Some p => {| hr_Term := V1.hr_Term p; hr_OK := V1.Ok p; hr_NodeID := V1.hr_NodeId p |}
  end.

Definition IdentifyResponseToProto (r : IdentifyResponse) : V1.IdentifyResponse :=
  V1.mkIdentifyResponse (ir_ClusterID r) (ir_NodeID r) (ir_Version r).
Definition IdentifyResponseFromProto (p : option V1.IdentifyResponse) : IdentifyResponse :=
  match p with
  | None => {| ir_ClusterID := ""; ir_NodeID := ""; ir_Version := "" |}
  | Some p => {| ir_ClusterID := V1.ClusterId p; ir_NodeID := V1.NodeId p;
                 ir_Version := V1.ir_Version p |}
  end.

(** ** Conversions with timestamps *)

Section timestamps.
Context {Timestamp : Type} `{EqDecision Timestamp}.
Context (New : Time.t -> Timestamp) (AsTime : Timestamp -> Time.t).

Definition timeToProto (t : Time.t) : option Timestamp :=
  if Time.IsZero t then None else Some (New t).
Definition timeFromProto (ts : option Timestamp) : Time.t :=
  match ts with None => 0%Z | Some ts => AsTime ts end.

Definition PeerViewToProto (pv : PeerView) : V1.PeerView Timestamp :=
  V1.mkPeerView (Some (NodeToProto (pv_Node pv))) (pv_Status pv)
    (timeToProto (pv_LastSeen pv)) (pv_LatencyMS pv) (pv_Member pv).
Definition PeerViewFromProto (p : option (V1.PeerView Timestamp)) : PeerView :=
  match p with
  | None => {| pv_Node := NodeFromProto None; pv_Status := ""; pv_LastSeen := 0%Z;
               pv_LatencyMS := 0%Z; pv_Member := "" |}
  | Some p => {| pv_Node := NodeFromProto (V1.pv_Node p); pv_Status := V1.Status p;
                 pv_LastSeen := timeFromProto (V1.LastSeen p);
                 pv_LatencyMS := V1.LatencyMs p; pv_Member := V1.Member p |}
  end.

Definition peersToProto (pvs : list PeerView) : list (option (V1.PeerView Timestamp)) :=
  slice_to PeerViewToProto pvs.
Definition peersFromProto (ps : list (option (V1.PeerView Timestamp))) : list PeerView :=
  slice_from PeerViewFromProto ps.

Definition ClusterViewToProto (v : ClusterView) : V1.ClusterView Timestamp :=
  V1.mkClusterView (cv_Self v) (cv_Role v) (cv_Term v) (cv_LeaderID v) (cv_Source v)
    (cv_Authoritative v) (timeToProto (cv_UpdatedAt v)) (peersToProto (cv_Peers v))
    (cv_ElectionsStarted v) (Some (MembershipToProto (cv_Membership v))).
Definition ClusterViewFromProto (p : option (V1.ClusterView Timestamp)) : ClusterView :=
  match p with
  | None => {| cv_Self := ""; cv_Role := ""; cv_Term := 0%N; cv_LeaderID := "";
               cv_Source := ""; cv_Authoritative := false; cv_UpdatedAt := 0%Z;
               cv_Peers := []; cv_ElectionsStarted := 0%N;
               cv_Membership := zeroMembership |}
  | Some p => {| cv_Self := V1.Self p; cv_Role := V1.Role p; cv_Term := V1.Term p;
                 cv_LeaderID := V1.LeaderId p; cv_Source := V1.Source p;
                 cv_Authoritative := V1.Authoritative p;
                 cv_UpdatedAt := timeFromProto (V1.UpdatedAt p);
                 cv_Peers := peersFromProto (V1.Peers p);
                 cv_ElectionsStarted := V1.ElectionsStarted p;
                 cv_Membership := MembershipFromProto (V1.cv_Membership p) |}
  end.

Definition ClusterViewPtrToProto : option ClusterView -> option (V1.ClusterView Timestamp) :=
  ptr_to ClusterViewToProto.
Definition ClusterViewPtrFromProto
  : option (V1.ClusterView Timestamp) -> option ClusterView :=
  ptr_from ClusterViewFromProto.

Definition HeartbeatRequestToProto (r : HeartbeatRequest) : V1.HeartbeatRequest Timestamp :=
  V1.mkHeartbeatRequest (hq_Term r) (hq_LeaderID r)
    (ClusterViewPtrToProto (hq_View r)) (MembershipPtrToProto (hq_Membership r)).
Definition HeartbeatRequestFromProto (p : option (V1.HeartbeatRequest Timestamp))
  : HeartbeatRequest :=
  match p with
  | None => {| hq_Term := 0%N; hq_LeaderID := ""; hq_View := None; hq_Membership := None |}
  | Some p => {| hq_Term := V1.hq_Term p; hq_LeaderID := V1.hq_LeaderId p;
                 hq_View := ClusterViewPtrFromProto (V1.View p);
                 hq_Membership := MembershipPtrFromProto (V1.hq_Membership p) |}
  end.

(** [CursorOf]; the getters of a nil view or membership return zero values. *)
Definition CursorOf (v : option (V1.ClusterView Timestamp))
  : V1.ClusterViewCursor Timestamp :=
  let updated := v ≫= V1.UpdatedAt in
  match v ≫= V1.cv_Membership with
  | Some m => V1.mkClusterViewCursor (V1.Version m) (V1.CreatedInTerm m) updated
  | None => V1.mkClusterViewCursor 0%N 0%N updated
  end.

Definition zeroCursor : V1.ClusterViewCursor Timestamp :=
  V1.mkClusterViewCursor 0%N 0%N None.

(** [proto.Equal] of two cursors: field by field. *)
Definition proto_Equal (a b : V1.ClusterViewCursor Timestamp) : bool :=
  (V1.MembershipVersion a =? V1.MembershipVersion b)%N
  && (V1.MembershipCreatedInTerm a =? V1.MembershipCreatedInTerm b)%N
  && bool_decide (V1.ViewUpdatedAt a = V1.ViewUpdatedAt b).

Definition CursorEqual (a b : option (V1.ClusterViewCursor Timestamp)) : bool :=
  proto_Equal (default zeroCursor a) (default zeroCursor b).

(** ** Round trips *)

Lemma NodeFromToProto n : NodeFromProto (Some (NodeToProto n)) = n.
Proof. by destruct n. Qed.

Lemma MembershipFromToProto m : MembershipFromProto (Some (MembershipToProto m)) = m.
Proof.
  destruct m as [v t vs]. simpl. f_equal. apply slice_roundtrip, NodeFromToProto.
Qed.

Lemma PersistentStateFromToProto st :
  PersistentStateFromProto (Some (PersistentStateToProto st)) = st.
Proof.
  destruct st as [t v m]. simpl. f_equal. apply ptr_roundtrip, MembershipFromToProto.
Qed.

Context (AsTime_New : forall t, AsTime (New t) = t).

Lemma timeFromToProto t : timeFromProto (timeToProto t) = t.
Proof.
  unfold timeToProto, Time.IsZero. destruct (Z.eqb_spec t 0%Z) as [->|]; simpl; auto.
Qed.

Lemma PeerViewFromToProto pv : PeerViewFromProto (Some (PeerViewToProto pv)) = pv.
Proof.
  destruct pv as [[i a] s l lat k]. unfold PeerViewToProto. cbn -[timeToProto].
  by rewrite timeFromToProto.
Qed.

Lemma peersFromToProto l : peersFromProto (peersToProto l) = l.
Proof. apply slice_roundtrip, PeerViewFromToProto. Qed.

Lemma ClusterViewFromToProto v : ClusterViewFromProto (Some (ClusterViewToProto v)) = v.
Proof.
  destruct v. unfold ClusterViewToProto.
  cbn -[timeToProto peersToProto peersFromProto MembershipToProto MembershipFromProto].
  by rewrite timeFromToProto, MembershipFromToProto, peersFromToProto.
Qed.

Lemma HeartbeatRequestFromToProto r :
  HeartbeatRequestFromProto (Some (HeartbeatRequestToProto r)) = r.
Proof.
  destruct r as [t l v m]. simpl. f_equal.
  - apply ptr_roundtrip, ClusterViewFromToProto.
  - apply ptr_roundtrip, MembershipFromToProto.
Qed.

#[local] Instance HeartbeatRequest_wire : Wire HeartbeatRequest (V1.HeartbeatRequest Timestamp) :=
  {| wire_roundtrip := HeartbeatRequestFromToProto |}.
#[local] Instance ClusterView_wire : Wire ClusterView (V1.ClusterView Timestamp) :=
  {| wire_roundtrip := ClusterViewFromToProto |}.
#[local] Instance PersistentState_wire : Wire PersistentState V1.PersistentState :=
  {| wire_roundtrip := PersistentStateFromToProto |}.
#[local] Program Instance VoteRequest_wire : Wire VoteRequest V1.VoteRequest :=
  {| to_proto := VoteRequestToProto; from_proto := VoteRequestFromProto |}.
Next Obligation. by intros []. Qed.
#[local] Program Instance VoteResponse_wire : Wire VoteResponse V1.VoteResponse :=
  {| to_proto := VoteResponseToProto; from_proto := VoteResponseFromProto |}.
Next Obligation. by intros []. Qed.
#[local] Program Instance HeartbeatResponse_wire : Wire HeartbeatResponse V1.HeartbeatResponse :=
  {| to_proto := HeartbeatResponseToProto; from_proto := HeartbeatResponseFromProto |}.
Next Obligation. by intros []. Qed.
#[local] Program Instance IdentifyResponse_wire : Wire IdentifyResponse V1.IdentifyResponse :=
  {| to_proto := IdentifyResponseToProto; from_proto := IdentifyResponseFromProto |}.
Next Obligation. by intros []. Qed.

(** The wire loses nothing.  Every message of the cluster protocol and the
    durable record survive the trip to their generated message and back exactly,
    every field of every nested membership and view included, and optional views
    and memberships stay absent when they were. *)
Theorem wire_is_lossless :
  (forall r, HeartbeatRequestFromProto (Some (HeartbeatRequestToProto r)) = r)
  /\ (forall v, ClusterViewFromProto (Some (ClusterViewToProto v)) = v)
  /\ (forall st, PersistentStateFromProto (Some (PersistentStateToProto st)) = st)
  /\ (forall r, VoteRequestFromProto (Some (VoteRequestToProto r)) = r)
  /\ (forall r, VoteResponseFromProto (Some (VoteResponseToProto r)) = r)
  /\ (forall r, HeartbeatResponseFromProto (Some (HeartbeatResponseToProto r)) = r)
  /\ (forall r, IdentifyResponseFromProto (Some (IdentifyResponseToProto r)) = r).
Proof.
  split; [exact (wire_roundtrip (Wire := HeartbeatRequest_wire))|].
  split; [exact (wire_roundtrip (Wire := ClusterView_wire))|].
  split; [exact (wire_roundtrip (Wire := PersistentState_wire))|].
  split; [exact (wire_roundtrip (Wire := VoteRequest_wire))|].
  split; [exact (wire_roundtrip (Wire := VoteResponse_wire))|].
  split; [exact (wire_roundtrip (Wire := HeartbeatResponse_wire))|].
  exact (wire_roundtrip (Wire := IdentifyResponse_wire)).
Qed.

Lemma timeToProto_inj t t' : timeToProto t = timeToProto t' -> t = t'.
Proof. intros E. rewrite <-(timeFromToProto t), <-(timeFromToProto t'). by rewrite E. Qed.

(** The watch cursor identifies exactly the membership and the observation
    time: two views have equal cursors when they agree on the membership's
    version and term and on [UpdatedAt], whatever else changed, and the cursor of
    a view that has been observed never equals a missing one. *)
Theorem cursor_identifies_state (v w : ClusterView) :
  (CursorEqual (Some (CursorOf (Some (ClusterViewToProto v))))
     (Some (CursorOf (Some (ClusterViewToProto w)))) = true
   <-> Version (cv_Membership v) = Version (cv_Membership w)
       /\ CreatedInTerm (cv_Membership v) = CreatedInTerm (cv_Membership w)
       /\ cv_UpdatedAt v = cv_UpdatedAt w)
  /\ (cv_UpdatedAt v <> 0%Z ->
      CursorEqual (Some (CursorOf (Some (ClusterViewToProto v)))) None = false).
Proof.
  unfold CursorEqual, proto_Equal. cbn -[timeToProto]. split.
  - rewrite !andb_true_iff, !N.eqb_eq, bool_decide_eq_true. split.
    + intros [[-> ->] E%timeToProto_inj]. done.
    + by intros (-> & -> & ->).
  - intros Hu. apply andb_false_intro2, bool_decide_eq_false_2.
    unfold timeToProto, Time.IsZero. by rewrite (proj2 (Z.eqb_neq _ _)).
Qed.
End timestamps.

(** ** Witnesses *)

(** A timestamp that is the instant itself. *)
Lemma wire_is_lossless_witness :
  let New := fun t : Time.t => t in
  (forall r, HeartbeatRequestFromProto New (Some (HeartbeatRequestToProto New r)) = r)
  /\ (forall v, ClusterViewFromProto New (Some (ClusterViewToProto New v)) = v).
Proof.
  intros New. destruct (wire_is_lossless New New) as (Hh & Hv & _); [done|].
  by split.
Defined.

Lemma cursor_identifies_state_witness :
  let New := fun t : Time.t => t in
  let v := {| cv_Self := "a"; cv_Role := RoleLeader; cv_Term := 1%N; cv_LeaderID := "a";
              cv_Source := "a"; cv_Authoritative := true; cv_UpdatedAt := 5%Z;
              cv_Peers := []; cv_ElectionsStarted := 1%N;
              cv_Membership := zeroMembership |} in
  CursorEqual (Some (CursorOf (Some (ClusterViewToProto New v)))) None = false.
Proof.
  intros New v.
  destruct (cursor_identifies_state New New (fun _ => eq_refl) v v) as [_ H].
  apply H. done.
Defined.
