(* ===== verification/WardenConfig.v ===== *)
(** * Node configuration

    [services/warden/config]: the configuration record, its defaults, the YAML
    and environment overlays of [Load], and [Validate].  The parameters are what
    the package calls outside the repository and the parts of the standard
    library that are whole languages: [ParseDuration] ([time.ParseDuration]) and
    [CompilesRE2] (does [regexp.Compile] accept the pattern).  What [os.ReadFile]
    and [yaml.Unmarshal] make of the configuration file is the argument [file] of
    [Load]: the decoded document, one [option] per key the file may leave out.
    Error texts are not modelled; each error has its constructor. *)

From Stdlib Require Import Ascii.
From S2P Require Import Prelude.
From S2P Require Import GoStd.
From S2P Require Import WardenTypes.

(** ** Data *)

Record TailscaleDiscoveryConfig := mkTailscale {
  Socket : string;
  Tag : string;
  HostPattern : string;
  PollInterval : Time.Duration;
}.
#[export] Instance Rebuild_Tailscale : Rebuild TailscaleDiscoveryConfig := fun t =>
  mkTailscale (Socket t) (Tag t) (HostPattern t) (PollInterval t).

Record DiscoveryConfig := mkDiscovery {
  d_Mode : string;
  ClusterID : string;
  JoinStability : Time.Duration;
  RemoveAfter : Time.Duration;
  d_File : string;
  FilePollInterval : Time.Duration;
  Tailscale : TailscaleDiscoveryConfig;
}.
#[export] Instance Rebuild_Discovery : Rebuild DiscoveryConfig := fun d =>
  mkDiscovery (d_Mode d) (ClusterID d) (JoinStability d) (RemoveAfter d) (d_File d)
    (FilePollInterval d) (Tailscale d).

Record TimingConfig := mkTiming {
  HeartbeatInterval : Time.Duration;
  SuspectAfter : Time.Duration;
  DeadAfter : Time.Duration;
  ElectionTimeoutMin : Time.Duration;
  ElectionTimeoutMax : Time.Duration;
  RPCTimeout : Time.Duration;
}.
#[export] Instance Rebuild_Timing : Rebuild TimingConfig := fun t =>
  mkTiming (HeartbeatInterval t) (SuspectAfter t) (DeadAfter t)
    (ElectionTimeoutMin t) (ElectionTimeoutMax t) (RPCTimeout t).

Record WatchdogConfig := mkWatchdog {
  Cooldown : Time.Duration;
  NotifyRecovery : option bool;
  MaxIncidents : Z;
}.
#[export] Instance Rebuild_Watchdog : Rebuild WatchdogConfig := fun w =>
  mkWatchdog (Cooldown w) (NotifyRecovery w) (MaxIncidents w).

Record NotifyConfig := mkNotify {
  n_Mode : string;
  n_File : string;
  SMTPHost : string;
  SMTPPort : Z;
  SMTPUser : string;
  SMTPPass : string;
  SMTPFrom : string;
  SMTPTo : list string;
}.
#[export] Instance Rebuild_Notify : Rebuild NotifyConfig := fun n =>
  mkNotify (n_Mode n) (n_File n) (SMTPHost n) (SMTPPort n) (SMTPUser n) (SMTPPass n)
    (SMTPFrom n) (SMTPTo n).

Record Config := mkConfig {
  c_NodeID : string;
  Bind : string;
  DataDir : string;
  Peers : list Node;
  Timing : TimingConfig;
  Watchdog : WatchdogConfig;
  Notify : NotifyConfig;
  LogLevel : string;
  Discovery : DiscoveryConfig;
  Advertise : string;
}.
#[export] Instance Rebuild_Config : Rebuild Config := fun c =>
  mkConfig (c_NodeID c) (Bind c) (DataDir c) (Peers c) (Timing c) (Watchdog c)
    (Notify c) (LogLevel c) (Discovery c) (Advertise c).

Inductive error :=
| ErrReadFile | ErrParseFile
| ErrDuration (name v : string)
| ErrEnvPeers (e : error) | ErrEnvBool (v : string) | ErrEnvInt (key v : string)
| ErrPeerNoEquals (pair : string) | ErrPeerEmptyID (pair : string)
| ErrPeerEmptyAddr (pair : string) | ErrPeerAddr (id addr : string)
| ErrPeerDuplicate (id : string) | ErrNoPeersParsed (s : string)
| ErrNodeIDEmpty | ErrPeersEmpty | ErrPeerIDEmpty | ErrSelfNotInPeers (id : string)
| ErrAdvertiseAddr (addr : string) | ErrNotRoutable (addr : string)
| ErrTailscaleSelector | ErrDiscoveryFile | ErrDiscoveryMode (m : string)
| ErrClusterIDEmpty | ErrNotPositive (name : string) | ErrRemoveAfter
| ErrHostPattern (p : string)
| ErrElectionTimeouts | ErrTimingOrder
| ErrSMTPHost | ErrSMTPFrom | ErrSMTPTo | ErrNotifyFile | ErrNotifyMode (m : string).

(** ** Constants *)

Definition DiscoveryModeStatic : string := "static".
Definition DiscoveryModeTailscale : string := "tailscale".
Definition DiscoveryModeFile : string := "file".
Definition NotifyModeSMTP : string := "smtp".
Definition NotifyModeLog : string := "log".
Definition NotifyModeFile : string := "file".

Definition defaultBind : string := ":7717".
Definition defaultDataDir : string := "/var/lib/warden".
Definition defaultLogLevel : string := "info".
Definition defaultSMTPPort : Z := 587%Z.
Definition defaultMaxIncidents : Z := 100%Z.
Definition defaultHeartbeatInterval : Time.Duration := Time.Second.
Definition defaultSuspectAfter : Time.Duration := (5 * Time.Second)%Z.
Definition defaultDeadAfter : Time.Duration := (15 * Time.Second)%Z.
Definition defaultElectionTimeoutMin : Time.Duration := (1500 * Time.Millisecond)%Z.
Definition defaultElectionTimeoutMax : Time.Duration := (3 * Time.Second)%Z.
Definition defaultRPCTimeout : Time.Duration := (500 * Time.Millisecond)%Z.
Definition defaultCooldown : Time.Duration := (10 * Time.Minute)%Z.
Definition defaultDiscoveryMode : string := DiscoveryModeStatic.
Definition defaultClusterID : string := "candacenet".
Definition defaultJoinStability : Time.Duration := (30 * Time.Second)%Z.
Definition defaultRemoveAfter : Time.Duration := (0 * Time.Second)%Z.
Definition defaultFilePollInterval : Time.Duration := (2 * Time.Second)%Z.
Definition defaultTSSocket : string := "/var/run/tailscale/tailscaled.sock".
Definition defaultTSPollInterval : Time.Duration := (15 * Time.Second)%Z.

Definition defaultConfig : Config :=
  {| c_NodeID := ""; Bind := defaultBind; DataDir := defaultDataDir; Peers := [];
     Timing :=
       {| HeartbeatInterval := defaultHeartbeatInterval;
          SuspectAfter := defaultSuspectAfter;
          DeadAfter := defaultDeadAfter;
          ElectionTimeoutMin := defaultElectionTimeoutMin;
          ElectionTimeoutMax := defaultElectionTimeoutMax;
          RPCTimeout := defaultRPCTimeout |};
     Watchdog :=
       {| Cooldown := defaultCooldown; NotifyRecovery := None;
          MaxIncidents := defaultMaxIncidents |};
     Notify :=
       {| n_Mode := ""; n_File := ""; SMTPHost := ""; SMTPPort := defaultSMTPPort;
          SMTPUser := ""; SMTPPass := ""; SMTPFrom := ""; SMTPTo := [] |};
     LogLevel := defaultLogLevel;
     Discovery :=
       {| d_Mode := defaultDiscoveryMode; ClusterID := defaultClusterID;
          JoinStability := defaultJoinStability; RemoveAfter := defaultRemoveAfter;
          d_File := ""; FilePollInterval := defaultFilePollInterval;
          Tailscale :=
            {| Socket := defaultTSSocket; Tag := ""; HostPattern := "";
               PollInterval := defaultTSPollInterval |} |};
     Advertise := "" |}.

(** ** The decoded file *)

(** The [raw] structs of the [UnmarshalYAML] methods: an absent duration or
    string is the empty string. *)
Record rawTiming := mkRawTiming {
  rt_heartbeat_interval : string; rt_suspect_after : string; rt_dead_after : string;
  rt_election_timeout_min : string; rt_election_timeout_max : string;
  rt_rpc_timeout : string;
}.
Record rawWatchdog := mkRawWatchdog {
  rw_cooldown : string; rw_notify_recovery : option bool; rw_max_incidents : option Z;
}.
Record rawTailscale := mkRawTailscale {
  rs_socket : string; rs_tag : string; rs_host_pattern : string;
  rs_poll_interval : string;
}.
Record rawDiscovery := mkRawDiscovery {
  rd_mode : string; rd_cluster_id : string; rd_join_stability : string;
  rd_remove_after : string; rd_file : string; rd_file_poll_interval : string;
  rd_tailscale : option rawTailscale;
}.
(** [NotifyConfig] has no method of its own: a present key overwrites. *)
Record rawNotify := mkRawNotify {
  rn_mode : option string; rn_file : option string; rn_smtp_host : option string;
  rn_smtp_port : option Z; rn_smtp_user : option string; rn_smtp_from : option string;
  rn_smtp_to : option (list string);
}.
Record yamlDoc := mkYamlDoc {
  y_node_id : option string; y_bind : option string; y_data_dir : option string;
  y_peers : option (list Node); y_timing : option rawTiming;
  y_watchdog : option rawWatchdog; y_notify : option rawNotify;
  y_log_level : option string; y_discovery : option rawDiscovery;
  y_advertise_addr : option string;
}.

(** What reading and decoding the file at a path gives. *)
Inductive file_outcome := Unreadable | Unparseable | Decoded (doc : yamlDoc).

(** ** Environment variables *)

Definition envNodeID : string := "WARDEN_NODE_ID".
Definition envBind : string := "WARDEN_BIND".
Definition envDataDir : string := "WARDEN_DATA_DIR".
Definition envLogLevel : string := "WARDEN_LOG_LEVEL".
Definition envPeers : string := "WARDEN_PEERS".
Definition envHeartbeatInterval : string := "WARDEN_HEARTBEAT_INTERVAL".
Definition envSuspectAfter : string := "WARDEN_SUSPECT_AFTER".
Definition envDeadAfter : string := "WARDEN_DEAD_AFTER".
Definition envElectionTimeoutMin : string := "WARDEN_ELECTION_TIMEOUT_MIN".
Definition envElectionTimeoutMax : string := "WARDEN_ELECTION_TIMEOUT_MAX".
Definition envRPCTimeout : string := "WARDEN_RPC_TIMEOUT".
Definition envCooldown : string := "WARDEN_COOLDOWN".
Definition envNotifyRecovery : string := "WARDEN_NOTIFY_RECOVERY".
Definition envNotifyMode : string := "WARDEN_NOTIFY_MODE".
Definition envNotifyFile : string := "WARDEN_NOTIFY_FILE".
Definition envSMTPHost : string := "SMTP_HOST".
Definition envSMTPPort : string := "SMTP_PORT".
Definition envSMTPUser : string := "SMTP_USER".
Definition envSMTPPass : string := "SMTP_PASS".
Definition envSMTPFrom : string := "SMTP_FROM".
Definition envSMTPTo : string := "SMTP_TO".
Definition envDiscoveryMode : string := "WARDEN_DISCOVERY_MODE".
Definition envClusterID : string := "WARDEN_CLUSTER_ID".
Definition envJoinStability : string := "WARDEN_JOIN_STABILITY".
Definition envRemoveAfter : string := "WARDEN_REMOVE_AFTER".
Definition envDiscoveryFile : string := "WARDEN_DISCOVERY_FILE".
Definition envFilePollInterval : string := "WARDEN_FILE_POLL_INTERVAL".
Definition envTSSocket : string := "WARDEN_TS_SOCKET".
Definition envTSTag : string := "WARDEN_TS_TAG".
Definition envTSHostPattern : string := "WARDEN_TS_HOST_PATTERN".
Definition envTSPollInterval : string := "WARDEN_TS_POLL_INTERVAL".
Definition envAdvertiseAddr : string := "WARDEN_ADVERTISE_ADDR".

(** ** Helpers *)

Definition envString (getenv : string -> string) (key dst : string) : string :=
  let v := TrimSpace (getenv key) in
  if decide (v = "") then dst else v.

Definition envInt (getenv : string -> string) (key : string) (dst : Z) : result error Z :=
  let v := TrimSpace (getenv key) in
  if decide (v = "") then Ok dst
  else match Atoi v with
       | Some n => Ok n
       | None => Err (ErrEnvInt key v)
       end.

Definition splitList (s : string) : list string :=
  filter (fun p => p <> "") (TrimSpace <$> Split "," s).

(** The body of [parsePeers]' loop. *)
Fixpoint parsePairs (seen : gset string) (pairs : list string) : result error (list Node) :=
  match pairs with
  | [] => Ok []
  | entry :: pairs =>
      let p := TrimSpace entry in
      if decide (p = "") then parsePairs seen pairs
      else match Cut "=" p with
           | None => Err (ErrPeerNoEquals p)
           | Some (before, after) =>
               let id := TrimSpace before in
               let addr := TrimSpace after in
               guard! negb (bool_decide (id = "")) else ErrPeerEmptyID p in
               guard! negb (bool_decide (addr = "")) else ErrPeerEmptyAddr p in
               match SplitHostPort addr with
               | None => Err (ErrPeerAddr id addr)
               | Some _ =>
                   if decide (id ∈ seen) then Err (ErrPeerDuplicate id)
                   else let! rest := parsePairs ({[ id ]} ∪ seen) pairs in
                        Ok ({| ID := id; Addr := addr |} :: rest)
               end
           end
  end.

Definition parsePeers (s : string) : result error (list Node) :=
  let! peers := parsePairs ∅ (Split "," s) in
  match peers with
  | [] => Err (ErrNoPeersParsed s)
  | _ => Ok peers
  end.

(** [Self]: the peer entry with this node's ID. *)
Definition Self (c : Config) : option Node :=
  list_find (fun n => ID n = c_NodeID c) (Peers c) ≫= fun p => Some p.2.

Definition AdvertiseAddr (c : Config) : string :=
  if decide (TrimSpace (Advertise c) <> "") then Advertise c else Bind c.

Definition Redacted (c : Config) : Config :=
  c <| Notify ::= fun n => n <| SMTPPass := "" |> |>.

(** A field that is overwritten when its key is present. *)
Definition present {A} (o : option A) (dst : A) : A := default dst o.
Definition nonempty (s dst : string) : string := if decide (s = "") then dst else s.

Section parsers.
Context (ParseDuration : string -> option Time.Duration) (CompilesRE2 : string -> bool).

Definition envDuration (getenv : string -> string) (key : string) (dst : Time.Duration)
  : result error Time.Duration :=
  let v := TrimSpace (getenv key) in
  if decide (v = "") then Ok dst
  else match ParseDuration v with
       | Some d => Ok d
       | None => Err (ErrDuration key v)
       end.

(** ** YAML *)

Definition yamlDuration (name src : string) (dst : Time.Duration)
  : result error Time.Duration :=
  if decide (src = "") then Ok dst
  else match ParseDuration src with
       | Some d => Ok d
       | None => Err (ErrDuration name src)
       end.

Definition TimingConfig_UnmarshalYAML (raw : rawTiming) (t : TimingConfig)
  : result error TimingConfig :=
  let! hb := yamlDuration "timing.heartbeat_interval" (rt_heartbeat_interval raw)
               (HeartbeatInterval t) in
  let! sa := yamlDuration "timing.suspect_after" (rt_suspect_after raw) (SuspectAfter t) in
  let! da := yamlDuration "timing.dead_after" (rt_dead_after raw) (DeadAfter t) in
  let! lo := yamlDuration "timing.election_timeout_min" (rt_election_timeout_min raw)
               (ElectionTimeoutMin t) in
  let! hi := yamlDuration "timing.election_timeout_max" (rt_election_timeout_max raw)
               (ElectionTimeoutMax t) in
  let! rpc := yamlDuration "timing.rpc_timeout" (rt_rpc_timeout raw) (RPCTimeout t) in
  Ok {| HeartbeatInterval := hb; SuspectAfter := sa; DeadAfter := da;
        ElectionTimeoutMin := lo; ElectionTimeoutMax := hi; RPCTimeout := rpc |}.

Definition WatchdogConfig_UnmarshalYAML (raw : rawWatchdog) (w : WatchdogConfig)
  : result error WatchdogConfig :=
  let! cd := yamlDuration "watchdog.cooldown" (rw_cooldown raw) (Cooldown w) in
  Ok {| Cooldown := cd;
        NotifyRecovery := match rw_notify_recovery raw with
                          | Some b => Some b
                          | None => NotifyRecovery w
                          end;
        MaxIncidents := default (MaxIncidents w) (rw_max_incidents raw) |}.

Definition TailscaleDiscoveryConfig_UnmarshalYAML (raw : rawTailscale)
  (t : TailscaleDiscoveryConfig) : result error TailscaleDiscoveryConfig :=
  let! poll := yamlDuration "discovery.tailscale.poll_interval" (rs_poll_interval raw)
                 (PollInterval t) in
  Ok {| Socket := nonempty (rs_socket raw) (Socket t);
        Tag := nonempty (rs_tag raw) (Tag t);
        HostPattern := nonempty (rs_host_pattern raw) (HostPattern t);
        PollInterval := poll |}.

Definition DiscoveryConfig_UnmarshalYAML (raw : rawDiscovery) (d : DiscoveryConfig)
  : result error DiscoveryConfig :=
  let! js := yamlDuration "discovery.join_stability" (rd_join_stability raw)
               (JoinStability d) in
  let! ra := yamlDuration "discovery.remove_after" (rd_remove_after raw) (RemoveAfter d) in
  let! fp := yamlDuration "discovery.file_poll_interval" (rd_file_poll_interval raw)
               (FilePollInterval d) in
  let! ts := match rd_tailscale raw with
             | Some rs => TailscaleDiscoveryConfig_UnmarshalYAML rs (Tailscale d)
             | None => Ok (Tailscale d)
             end in
  Ok {| d_Mode := nonempty (rd_mode raw) (d_Mode d);
        ClusterID := nonempty (rd_cluster_id raw) (ClusterID d);
        JoinStability := js; RemoveAfter := ra;
        d_File := nonempty (rd_file raw) (d_File d);
        FilePollInterval := fp; Tailscale := ts |}.

Definition NotifyConfig_decode (raw : rawNotify) (n : NotifyConfig) : NotifyConfig :=
  {| n_Mode := present (rn_mode raw) (n_Mode n);
     n_File := present (rn_file raw) (n_File n);
     SMTPHost := present (rn_smtp_host raw) (SMTPHost n);
     SMTPPort := present (rn_smtp_port raw) (SMTPPort n);
     SMTPUser := present (rn_smtp_user raw) (SMTPUser n);
     SMTPPass := SMTPPass n;
     SMTPFrom := present (rn_smtp_from raw) (SMTPFrom n);
     SMTPTo := present (rn_smtp_to raw) (SMTPTo n) |}.

(** A nested block that is merged when its key is present. *)
Definition merge {R A} (f : R -> A -> result error A) (raw : option R) (a : A)
  : result error A :=
  match raw with Some r => f r a | None => Ok a end.

(** [yaml.Unmarshal(data, &cfg)]. *)
Definition unmarshal (doc : yamlDoc) (c : Config) : result error Config :=
  let! timing := merge TimingConfig_UnmarshalYAML (y_timing doc) (Timing c) in
  let! wd := merge WatchdogConfig_UnmarshalYAML (y_watchdog doc) (Watchdog c) in
  let! disc := merge DiscoveryConfig_UnmarshalYAML (y_discovery doc) (Discovery c) in
  Ok {| c_NodeID := present (y_node_id doc) (c_NodeID c);
        Bind := present (y_bind doc) (Bind c);
        DataDir := present (y_data_dir doc) (DataDir c);
        Peers := present (y_peers doc) (Peers c);
        Timing := timing; Watchdog := wd;
        Notify := match y_notify doc with
                  | Some raw => NotifyConfig_decode raw (Notify c)
                  | None => Notify c
                  end;
        LogLevel := present (y_log_level doc) (LogLevel c);
        Discovery := disc;
        Advertise := present (y_advertise_addr doc) (Advertise c) |}.

(** ** The environment overlay *)

Definition applyEnv_peers (getenv : string -> string) (dst : list Node)
  : result error (list Node) :=
  let v := TrimSpace (getenv envPeers) in
  if decide (v = "") then Ok dst
  else match parsePeers v with
       | Ok peers => Ok peers
       | Err e => Err (ErrEnvPeers e)
       end.

Definition applyEnv_timing (getenv : string -> string) (t : TimingConfig)
  : result error TimingConfig :=
  let! hb := envDuration getenv envHeartbeatInterval (HeartbeatInterval t) in
  let! sa := envDuration getenv envSuspectAfter (SuspectAfter t) in
  let! da := envDuration getenv envDeadAfter (DeadAfter t) in
  let! lo := envDuration getenv envElectionTimeoutMin (ElectionTimeoutMin t) in
  let! hi := envDuration getenv envElectionTimeoutMax (ElectionTimeoutMax t) in
  let! rpc := envDuration getenv envRPCTimeout (RPCTimeout t) in
  Ok {| HeartbeatInterval := hb; SuspectAfter := sa; DeadAfter := da;
        ElectionTimeoutMin := lo; ElectionTimeoutMax := hi; RPCTimeout := rpc |}.

Definition applyEnv_watchdog (getenv : string -> string) (w : WatchdogConfig)
  : result error WatchdogConfig :=
  let! cd := envDuration getenv envCooldown (Cooldown w) in
  let v := TrimSpace (getenv envNotifyRecovery) in
  let! recovery :=
    if decide (v = "") then Ok (NotifyRecovery w)
    else match ParseBool v with
         | Some b => Ok (Some b)
         | None => Err (ErrEnvBool v)
         end in
  Ok {| Cooldown := cd; NotifyRecovery := recovery; MaxIncidents := MaxIncidents w |}.

Definition applyEnv_notify (getenv : string -> string) (n : NotifyConfig)
  : result error NotifyConfig :=
  let! port := envInt getenv envSMTPPort (SMTPPort n) in
  let to := splitList (TrimSpace (getenv envSMTPTo)) in
  Ok {| n_Mode := envString getenv envNotifyMode (n_Mode n);
        n_File := envString getenv envNotifyFile (n_File n);
        SMTPHost := envString getenv envSMTPHost (SMTPHost n);
        SMTPPort := port;
        SMTPUser := envString getenv envSMTPUser (SMTPUser n);
        SMTPPass := envString getenv envSMTPPass (SMTPPass n);
        SMTPFrom := envString getenv envSMTPFrom (SMTPFrom n);
        SMTPTo := match to with [] => SMTPTo n | _ => to end |}.

Definition applyEnv_tailscale (getenv : string -> string) (t : TailscaleDiscoveryConfig)
  : result error TailscaleDiscoveryConfig :=
  let! poll := envDuration getenv envTSPollInterval (PollInterval t) in
  Ok {| Socket := envString getenv envTSSocket (Socket t);
        Tag := envString getenv envTSTag (Tag t);
        HostPattern := envString getenv envTSHostPattern (HostPattern t);
        PollInterval := poll |}.

Definition applyEnv_discovery (getenv : string -> string) (d : DiscoveryConfig)
  : result error DiscoveryConfig :=
  let! js := envDuration getenv envJoinStability (JoinStability d) in
  let! ra := envDuration getenv envRemoveAfter (RemoveAfter d) in
  let! fp := envDuration getenv envFilePollInterval (FilePollInterval d) in
  let! ts := applyEnv_tailscale getenv (Tailscale d) in
  Ok {| d_Mode := envString getenv envDiscoveryMode (d_Mode d);
        ClusterID := envString getenv envClusterID (ClusterID d);
        JoinStability := js; RemoveAfter := ra;
        d_File := envString getenv envDiscoveryFile (d_File d);
        FilePollInterval := fp; Tailscale := ts |}.

Definition applyEnv (getenv : string -> string) (c : Config) : result error Config :=
  let! peers := applyEnv_peers getenv (Peers c) in
  let! timing := applyEnv_timing getenv (Timing c) in
  let! wd := applyEnv_watchdog getenv (Watchdog c) in
  let! notify := applyEnv_notify getenv (Notify c) in
  let! disc := applyEnv_discovery getenv (Discovery c) in
  Ok {| c_NodeID := envString getenv envNodeID (c_NodeID c);
        Bind := envString getenv envBind (Bind c);
        DataDir := envString getenv envDataDir (DataDir c);
        Peers := peers; Timing := timing; Watchdog := wd; Notify := notify;
        LogLevel := envString getenv envLogLevel (LogLevel c);
        Discovery := disc;
        Advertise := envString getenv envAdvertiseAddr (Advertise c) |}.

(** The last lines of [Load]. *)
Definition resolve (c : Config) : Config :=
  c <| Notify ::= fun n =>
         n <| n_Mode ::= fun m =>
                if decide (m = "")
                then if decide (SMTPHost n <> "") then NotifyModeSMTP else NotifyModeLog
                else m |> |>
    <| Watchdog ::= fun w =>
         w <| NotifyRecovery ::= fun o => Some (default true o) |>
           <| MaxIncidents ::= fun n => if (n <=? 0)%Z then defaultMaxIncidents else n |> |>.

(** [file] is the outcome of reading the file at [path], used when [path] is not
    empty; a nil [getenv] is [fun _ => ""]. *)
Definition Load (path : string) (file : file_outcome) (getenv : string -> string)
  : result error Config :=
  let! c :=
    if decide (path = "") then Ok defaultConfig
    else match file with
         | Unreadable => Err ErrReadFile
         | Unparseable => Err ErrParseFile
         | Decoded doc =>
             match unmarshal doc defaultConfig with
             | Ok c => Ok c
             | Err _ => Err ErrParseFile
             end
         end in
  let! c := applyEnv getenv c in
  Ok (resolve c).

(** ** Validation *)

(** The scan of the peers: the result is [selfFound]. *)
Fixpoint validatePeers (self_ : string) (seen : gset NodeID) (found : bool)
  (ps : list Node) : result error bool :=
  match ps with
  | [] => Ok found
  | p :: ps =>
      guard! negb (bool_decide (ID p = "")) else ErrPeerIDEmpty in
      if decide (ID p ∈ seen) then Err (ErrPeerDuplicate (ID p))
      else match SplitHostPort (Addr p) with
           | None => Err (ErrPeerAddr (ID p) (Addr p))
           | Some _ =>
               validatePeers self_ ({[ ID p ]} ∪ seen)
                 (found || bool_decide (ID p = self_)) ps
           end
  end.

Definition routable (host : string) : bool :=
  negb (bool_decide (host ∈ [""; "0.0.0.0"; "::"])).

Definition validateAdvertise (c : Config) (selfFound : bool) : result error unit :=
  if selfFound then Ok tt
  else match SplitHostPort (AdvertiseAddr c) with
       | None => Err (ErrAdvertiseAddr (AdvertiseAddr c))
       | Some (host, _) =>
           guard! routable host else ErrNotRoutable (AdvertiseAddr c) in
           Ok tt
       end.

Definition validateMode (c : Config) (selfFound : bool) : result error unit :=
  let d := Discovery c in
  if decide (d_Mode d = DiscoveryModeStatic) then
    guard! selfFound else ErrSelfNotInPeers (c_NodeID c) in Ok tt
  else if decide (d_Mode d = DiscoveryModeTailscale \/ d_Mode d = DiscoveryModeFile) then
    let! _ := validateAdvertise c selfFound in
    guard! negb (bool_decide (d_Mode d = DiscoveryModeTailscale
                              /\ Tag (Tailscale d) = "" /\ HostPattern (Tailscale d) = ""))
      else ErrTailscaleSelector in
    guard! negb (bool_decide (d_Mode d = DiscoveryModeFile /\ TrimSpace (d_File d) = ""))
      else ErrDiscoveryFile in
    Ok tt
  else Err (ErrDiscoveryMode (d_Mode d)).

Definition validateDiscovery (c : Config) (selfFound : bool) : result error unit :=
  let d := Discovery c in
  let! _ := validateMode c selfFound in
  guard! negb (bool_decide (ClusterID d = "")) else ErrClusterIDEmpty in
  guard! (0 <? JoinStability d)%Z else ErrNotPositive "discovery.join_stability" in
  guard! (0 <=? RemoveAfter d)%Z else ErrRemoveAfter in
  guard! (0 <? PollInterval (Tailscale d))%Z
    else ErrNotPositive "discovery.tailscale.poll_interval" in
  guard! (0 <? FilePollInterval d)%Z else ErrNotPositive "discovery.file_poll_interval" in
  let p := HostPattern (Tailscale d) in
  guard! bool_decide (p = "") || CompilesRE2 ("\A(?:" +:+ p +:+ ")\z")
    else ErrHostPattern p in
  Ok tt.

Fixpoint allPositive (ds : list (string * Time.Duration)) : result error unit :=
  match ds with
  | [] => Ok tt
  | (name, v) :: ds => guard! (0 <? v)%Z else ErrNotPositive name in allPositive ds
  end.

Definition validateTiming (c : Config) : result error unit :=
  let t := Timing c in
  let! _ := allPositive
    [("timing.heartbeat_interval", HeartbeatInterval t);
     ("timing.suspect_after", SuspectAfter t);
     ("timing.dead_after", DeadAfter t);
     ("timing.election_timeout_min", ElectionTimeoutMin t);
     ("timing.election_timeout_max", ElectionTimeoutMax t);
     ("timing.rpc_timeout", RPCTimeout t);
     ("watchdog.cooldown", Cooldown (Watchdog c))] in
  guard! (ElectionTimeoutMin t <? ElectionTimeoutMax t)%Z else ErrElectionTimeouts in
  guard! (HeartbeatInterval t <? SuspectAfter t)%Z && (SuspectAfter t <? DeadAfter t)%Z
    else ErrTimingOrder in
  Ok tt.

Definition validateNotify (n : NotifyConfig) : result error unit :=
  if decide (n_Mode n = NotifyModeSMTP) then
    guard! negb (bool_decide (SMTPHost n = "")) else ErrSMTPHost in
    guard! negb (bool_decide (SMTPFrom n = "")) else ErrSMTPFrom in
    guard! negb (bool_decide (SMTPTo n = [])) else ErrSMTPTo in
    Ok tt
  else if decide (n_Mode n = NotifyModeFile) then
    guard! negb (bool_decide (n_File n = "")) else ErrNotifyFile in
    Ok tt
  else if decide (n_Mode n = NotifyModeLog) then Ok tt
  else Err (ErrNotifyMode (n_Mode n)).

Definition Validate (c : Config) : result error unit :=
  guard! negb (bool_decide (c_NodeID c = "")) else ErrNodeIDEmpty in
  guard! negb (bool_decide (Peers c = [])) else ErrPeersEmpty in
  let! selfFound := validatePeers (c_NodeID c) ∅ false (Peers c) in
  let! _ := validateDiscovery c selfFound in
  let! _ := validateTiming c in
  validateNotify (Notify c).
End parsers.

(** ** What a valid configuration is *)

Definition self_listed (c : Config) : Prop := c_NodeID c ∈ ID <$> Peers c.

Definition reachable_at (addr : string) : Prop :=
  exists host port, SplitHostPort addr = Some (host, port)
    /\ host <> "" /\ host <> "0.0.0.0" /\ host <> "::".

Record valid_discovery (CompilesRE2 : string -> bool) (c : Config) : Prop := {
  vd_mode :
    (d_Mode (Discovery c) = DiscoveryModeStatic /\ self_listed c)
    \/ ((self_listed c \/ reachable_at (AdvertiseAddr c))
        /\ ((d_Mode (Discovery c) = DiscoveryModeTailscale
             /\ (Tag (Tailscale (Discovery c)) <> ""
                 \/ HostPattern (Tailscale (Discovery c)) <> ""))
            \/ (d_Mode (Discovery c) = DiscoveryModeFile
                /\ TrimSpace (d_File (Discovery c)) <> "")));
  vd_cluster : ClusterID (Discovery c) <> "";
  vd_join : (0 < JoinStability (Discovery c))%Z;
  vd_remove : (0 <= RemoveAfter (Discovery c))%Z;
  vd_ts_poll : (0 < PollInterval (Tailscale (Discovery c)))%Z;
  vd_file_poll : (0 < FilePollInterval (Discovery c))%Z;
  vd_pattern : HostPattern (Tailscale (Discovery c)) <> "" ->
    CompilesRE2 ("\A(?:" +:+ HostPattern (Tailscale (Discovery c)) +:+ ")\z") = true;
}.

Record valid_timing (c : Config) : Prop := {
  vt_heartbeat : (0 < HeartbeatInterval (Timing c) < SuspectAfter (Timing c))%Z;
  vt_suspect : (SuspectAfter (Timing c) < DeadAfter (Timing c))%Z;
  vt_election :
    (0 < ElectionTimeoutMin (Timing c) < ElectionTimeoutMax (Timing c))%Z;
  vt_rpc : (0 < RPCTimeout (Timing c))%Z;
  vt_cooldown : (0 < Cooldown (Watchdog c))%Z;
}.

Definition valid_notify (n : NotifyConfig) : Prop :=
  (n_Mode n = NotifyModeSMTP /\ SMTPHost n <> "" /\ SMTPFrom n <> "" /\ SMTPTo n <> [])
  \/ (n_Mode n = NotifyModeFile /\ n_File n <> "")
  \/ n_Mode n = NotifyModeLog.

Definition peer_ok (p : Node) : Prop := ID p <> "" /\ is_Some (SplitHostPort (Addr p)).

Record valid (CompilesRE2 : string -> bool) (c : Config) : Prop := {
  va_id : c_NodeID c <> "";
  va_peers : Peers c <> [];
  va_each : Forall peer_ok (Peers c);
  va_distinct : NoDup (ID <$> Peers c);
  va_discovery : valid_discovery CompilesRE2 c;
  va_timing : valid_timing c;
  va_notify : valid_notify (Notify c);
}.

(** ** Validation *)

Lemma validatePeers_ok me seen found ps b :
  validatePeers me seen found ps = Ok b <->
  Forall peer_ok ps /\ NoDup (ID <$> ps) /\ (forall x, x ∈ ID <$> ps -> x ∉ seen)
  /\ b = (found || bool_decide (me ∈ ID <$> ps)).
Proof.
  revert seen found. induction ps as [|p ps IH]; intros seen found; cbn [validatePeers].
  { rewrite bool_decide_false by apply not_elem_of_nil. rewrite orb_false_r. split; [intros [= <-]|by intros (_ & _ & _ & ->)].
    repeat split; try constructor. by intros x ?%elem_of_nil. }
  rewrite guard_ok, negb_decide. unfold peer_ok at 1.
  rewrite fmap_cons, Forall_cons, NoDup_cons.
  destruct (decide (ID p ∈ seen)) as [Hs|Hs].
  { split; [by intros [_ ?]|]. intros (_ & _ & H & _). exfalso. apply (H (ID p)); [left|done]. }
  destruct (SplitHostPort (Addr p)) as [hp|] eqn:Hsp.
  2:{ split; [by intros [_ ?]|]. intros ([[_ [? ?]] _] & _). congruence. }
  rewrite IH.
  assert (bool_decide (me ∈ ID p :: (ID <$> ps))
          = (bool_decide (ID p = me) || bool_decide (me ∈ ID <$> ps))) as ->.
  { apply Bool.eq_iff_eq_true. rewrite orb_true_iff, !bool_decide_eq_true, elem_of_cons.
    naive_solver. }
  rewrite <-orb_assoc. split.
  - intros (Hid & Hf & Hnd & Hin & ->). repeat split; try done; eauto.
    + intros Hp. apply (Hin _ Hp). set_solver.
    + intros x [->|Hx]%elem_of_cons; [done|]. specialize (Hin x Hx). set_solver.
  - intros ((Hid & Hf) & (Hp & Hnd) & Hin & ->). destruct Hid as [Hid _].
    repeat split; try done.
    intros x Hx [->%elem_of_singleton|Hx']%elem_of_union; [done|].
    apply (Hin x); [by right|done].
Qed.

Lemma routable_spec host :
  routable host = true <-> host <> "" /\ host <> "0.0.0.0" /\ host <> "::".
Proof.
  unfold routable. rewrite negb_decide, !elem_of_cons, elem_of_nil. naive_solver.
Qed.

Lemma validateAdvertise_ok c found :
  validateAdvertise c found = Ok tt <-> found = true \/ reachable_at (AdvertiseAddr c).
Proof.
  unfold validateAdvertise, reachable_at. destruct found; [naive_solver|].
  destruct (SplitHostPort _) as [[host port]|]; [|naive_solver].
  rewrite guard_ok, routable_spec. naive_solver.
Qed.

Section validation.
Context (CompilesRE2 : string -> bool).

Lemma validateMode_ok c found :
  validateMode c found = Ok tt <->
  (d_Mode (Discovery c) = DiscoveryModeStatic /\ found = true)
  \/ ((found = true \/ reachable_at (AdvertiseAddr c))
      /\ ((d_Mode (Discovery c) = DiscoveryModeTailscale
           /\ (Tag (Tailscale (Discovery c)) <> ""
               \/ HostPattern (Tailscale (Discovery c)) <> ""))
          \/ (d_Mode (Discovery c) = DiscoveryModeFile
              /\ TrimSpace (d_File (Discovery c)) <> ""))).
Proof.
  unfold validateMode. destruct (decide (_ = DiscoveryModeStatic)) as [->|Hm].
  { rewrite guard_ok. split; [naive_solver|].
    intros [[_ ?]|(_ & [[? _]|[? _]])]; [done|done|done]. }
  destruct (decide (_ \/ _)) as [Hm'|Hm'].
  2:{ split; [done|]. intros [[? _]|(_ & [[? _]|[? _]])]; naive_solver. }
  rewrite bind_ok. setoid_rewrite guard_ok. setoid_rewrite guard_ok.
  setoid_rewrite negb_decide. split.
  - intros ([] & Hadv%validateAdvertise_ok & Hts & Hf & _). right. split; [done|].
    destruct Hm' as [E|E]; [left|right]; (split; [done|]).
    + destruct (decide (Tag (Tailscale (Discovery c)) = "")); [|by left].
      right. intros ?. by apply Hts.
    + intros ?. by apply Hf.
  - intros [[? _]|(Hadv & Hcase)]; [done|]. exists tt.
    split; [by apply validateAdvertise_ok|].
    destruct Hcase as [[E H]|[E H]]; rewrite E; split; try split; naive_solver.
Qed.

Lemma validateDiscovery_ok c found :
  found = bool_decide (self_listed c) ->
  validateDiscovery CompilesRE2 c found = Ok tt <-> valid_discovery CompilesRE2 c.
Proof.
  intros ->. unfold validateDiscovery. rewrite bind_ok.
  setoid_rewrite guard_ok. setoid_rewrite guard_ok. setoid_rewrite guard_ok.
  setoid_rewrite guard_ok. setoid_rewrite guard_ok. setoid_rewrite guard_ok.
  setoid_rewrite negb_decide. setoid_rewrite Z.ltb_lt. setoid_rewrite Z.leb_le.
  setoid_rewrite orb_true_iff. setoid_rewrite bool_decide_eq_true. split.
  - intros ([] & Hm%validateMode_ok & ? & ? & ? & ? & ? & Hp & _).
    rewrite bool_decide_eq_true in Hm. constructor; try done. naive_solver.
  - intros []. exists tt. split; [|repeat split; try done].
    + apply validateMode_ok. by rewrite bool_decide_eq_true.
    + destruct (decide (HostPattern (Tailscale (Discovery c)) = "")); naive_solver.
Qed.

Lemma validateTiming_ok c : validateTiming c = Ok tt <-> valid_timing c.
Proof.
  unfold validateTiming. rewrite bind_ok. cbn [allPositive].
  setoid_rewrite guard_ok. setoid_rewrite guard_ok.
  setoid_rewrite andb_true_iff. setoid_rewrite Z.ltb_lt. split.
  - intros ([] & Hp & Hlt & [] & _). repeat setoid_rewrite guard_ok in Hp.
    rewrite !Z.ltb_lt in Hp. constructor; lia.
  - intros []. exists tt. repeat setoid_rewrite guard_ok. rewrite !Z.ltb_lt.
    repeat split; lia.
Qed.

Lemma validateNotify_ok n : validateNotify n = Ok tt <-> valid_notify n.
Proof.
  unfold validateNotify, valid_notify.
  destruct (decide (n_Mode n = NotifyModeSMTP)) as [E|E].
  { rewrite !guard_ok, !negb_decide, E. unfold NotifyModeSMTP, NotifyModeFile, NotifyModeLog.
    naive_solver. }
  destruct (decide (n_Mode n = NotifyModeFile)) as [E2|E2].
  { rewrite !guard_ok, !negb_decide, E2.
    unfold NotifyModeSMTP, NotifyModeFile, NotifyModeLog. naive_solver. }
  case_decide; naive_solver.
Qed.

Lemma Validate_valid (c : Config) :
  Validate CompilesRE2 c = Ok tt <-> valid CompilesRE2 c.
Proof.
  unfold Validate. rewrite !guard_ok, !negb_decide, bind_ok. split.
  - intros (Hid & Hp & found & (Hf & Hnd & _ & E)%validatePeers_ok & H).
    apply bind_ok in H as ([] & Hd & H). apply bind_ok in H as ([] & Ht & Hn).
    constructor; try done.
    + by apply (validateDiscovery_ok c found).
    + by apply validateTiming_ok.
    + by apply validateNotify_ok.
  - intros [Hid Hp Hf Hnd Hd Ht Hn]. split; [done|]. split; [done|].
    exists (bool_decide (self_listed c)). split.
    + apply validatePeers_ok. repeat split; try done.
    + apply bind_ok. exists tt. split; [by apply validateDiscovery_ok|].
      apply bind_ok. exists tt. split; [by apply validateTiming_ok|].
      by apply validateNotify_ok.
Qed.

(** C38: [Validate] accepts a configuration exactly when it satisfies every rule the
    service relies on: a node ID, distinct well-formed peers, a discovery mode
    whose requirements are met and that knows where this node is reached, ordered
    positive timings, and a deliverable notification mode. *)
Theorem Validate_accepts (c : Config) :
  Validate CompilesRE2 c = Ok tt <-> valid CompilesRE2 c.
Proof. apply Validate_valid. Qed.
End validation.

(** ** Peer lists *)

Lemma parsePairs_ok seen pairs ps :
  parsePairs seen pairs = Ok ps ->
  Forall peer_ok ps /\ NoDup (ID <$> ps) /\ forall x, x ∈ ID <$> ps -> x ∉ seen.
Proof.
  revert seen ps. induction pairs as [|e pairs IH]; intros seen ps; cbn [parsePairs].
  { intros [= <-]. repeat split; try constructor. by intros x ?%elem_of_nil. }
  destruct (decide (TrimSpace e = "")); [apply IH|].
  destruct (Cut "=" (TrimSpace e)) as [[before after]|]; [|done].
  generalize (TrimSpace before), (TrimSpace after). intros id addr.
  destruct (decide (id = "")) as [E|Hid]; [by rewrite bool_decide_true|].
  rewrite (bool_decide_false (id = "")) by done.
  destruct (decide (addr = "")) as [E|Haddr]; [by rewrite (bool_decide_true (addr = ""))|].
  rewrite (bool_decide_false (addr = "")) by done. cbn [negb].
  destruct (SplitHostPort addr) as [hp|] eqn:Hsp; [|done].
  destruct (decide (_ ∈ seen)) as [|Hs]; [done|].
  intros (rest & (Hf & Hnd & Hin)%IH & [= <-])%bind_ok.
  rewrite fmap_cons. split; [|split].
  - constructor; [|done]. split; [done|]. simpl. by rewrite Hsp.
  - constructor; [|done]. intros Hx. apply Hin in Hx. simpl in Hx. set_solver.
  - intros x [->|Hx]%elem_of_cons; [done|]. apply Hin in Hx. set_solver.
Qed.

(** The text of one entry, and of a list. *)
Definition render_peer (p : Node) : string := ID p +:+ String "=" (Addr p).
Definition render_peers (ps : list Node) : string := Join (String "," "") (render_peer <$> ps).

(** A peer whose text can be read back: no separator inside, no outer blanks. *)
Definition clean_peer (p : Node) : Prop :=
  peer_ok p /\ Addr p <> ""
  /\ ContainsByte "=" (ID p) = false /\ ContainsByte "," (render_peer p) = false
  /\ trimmed (ID p) /\ trimmed (Addr p) /\ trimmed (render_peer p).

Lemma parsePairs_render seen ps :
  Forall clean_peer ps -> NoDup (ID <$> ps) -> (forall x, x ∈ ID <$> ps -> x ∉ seen) ->
  parsePairs seen (render_peer <$> ps) = Ok ps.
Proof.
  revert seen. induction ps as [|p ps IH]; intros seen Hc Hnd Hs; [done|].
  apply Forall_cons in Hc as [((Hid & hp & Hsp) & Haddr & Heq & _ & Hti & Hta & Ht) Hc].
  rewrite fmap_cons in Hnd, Hs. apply NoDup_cons in Hnd as [Hp Hnd].
  rewrite fmap_cons. cbn [parsePairs]. rewrite (TrimSpace_trimmed (render_peer p)) by done.
  rewrite decide_False by (unfold render_peer; by destruct (ID p)).
  unfold render_peer at 1. rewrite Cut_word by done.
  rewrite (TrimSpace_trimmed (ID p) Hti), (TrimSpace_trimmed (Addr p) Hta).
  rewrite !bool_decide_false by done. cbn [negb]. rewrite Hsp.
  rewrite decide_False by (apply Hs; left). rewrite IH; [|done..|].
  - simpl. by destruct p.
  - intros x Hx [->%elem_of_singleton|?]%elem_of_union; [done|].
    apply (Hs x); [by right|done].
Qed.

(** The peer list format.  What [parsePeers] accepts is a non-empty list of
    peers with distinct non-empty IDs and host:port addresses; and it reads back
    exactly any such list of peers whose IDs and addresses hold no separators or
    outer blanks. *)
Theorem parsePeers_roundtrip :
  (forall s ps, parsePeers s = Ok ps ->
     ps <> [] /\ Forall peer_ok ps /\ NoDup (ID <$> ps))
  /\ (forall ps, ps <> [] -> Forall clean_peer ps -> NoDup (ID <$> ps) ->
      parsePeers (render_peers ps) = Ok ps).
Proof.
  unfold parsePeers. split.
  - intros s ps. rewrite bind_ok. intros (ps' & (Hf & Hnd & _)%parsePairs_ok & H).
    destruct ps' as [|p ps']; simplify_eq. done.
  - intros ps Hne Hc Hnd. unfold render_peers. rewrite Split_Join.
    + rewrite parsePairs_render; [simpl; by destruct ps|done|done|].
      intros; apply not_elem_of_empty.
    + by destruct ps.
    + rewrite Forall_fmap. eapply Forall_impl; [exact Hc|]. intros p Hp. by apply Hp.
Qed.

(** ** Precedence *)

(** Environment over file over default. *)
Definition layered (env : string) (file : option string) (dflt : string) : string :=
  if decide (TrimSpace env = "") then default dflt file else TrimSpace env.

Section load.
Context (ParseDuration : string -> option Time.Duration).

Definition layered_duration (env : string) (file : option string) (dflt : Time.Duration)
  : option Time.Duration :=
  if decide (TrimSpace env = "") then
    match file with
    | Some s => if decide (s = "") then Some dflt else ParseDuration s
    | None => Some dflt
    end
  else ParseDuration (TrimSpace env).

Lemma envDuration_ok getenv key dst d :
  envDuration ParseDuration getenv key dst = Ok d ->
  Some d = if decide (TrimSpace (getenv key) = "") then Some dst
           else ParseDuration (TrimSpace (getenv key)).
Proof.
  unfold envDuration. case_decide; [by intros [= ->]|].
  destruct (ParseDuration _); [by intros [= ->]|done].
Qed.

Lemma yamlDuration_ok name src dst d :
  yamlDuration ParseDuration name src dst = Ok d ->
  Some d = if decide (src = "") then Some dst else ParseDuration src.
Proof.
  unfold yamlDuration. case_decide; [by intros [= ->]|].
  destruct (ParseDuration _); [by intros [= ->]|done].
Qed.

Lemma layered_ok name getenv key (src : option string) dflt mid d :
  (match src with
   | Some s => yamlDuration ParseDuration name s dflt = Ok mid
   | None => mid = dflt
   end) ->
  envDuration ParseDuration getenv key mid = Ok d ->
  layered_duration (getenv key) src dflt = Some d.
Proof.
  intros Hf He%envDuration_ok. unfold layered_duration. rewrite He.
  case_decide; [|done]. destruct src as [s|]; [|by subst].
  apply yamlDuration_ok in Hf. rewrite Hf. by case_decide.
Qed.

Lemma timing_layers raw t t' :
  merge (TimingConfig_UnmarshalYAML ParseDuration) raw t = Ok t' ->
  forall getenv t'', applyEnv_timing ParseDuration getenv t' = Ok t'' ->
  layered_duration (getenv envHeartbeatInterval) (rt_heartbeat_interval <$> raw)
    (HeartbeatInterval t) = Some (HeartbeatInterval t'')
  /\ layered_duration (getenv envSuspectAfter) (rt_suspect_after <$> raw)
       (SuspectAfter t) = Some (SuspectAfter t'')
  /\ layered_duration (getenv envDeadAfter) (rt_dead_after <$> raw)
       (DeadAfter t) = Some (DeadAfter t'')
  /\ layered_duration (getenv envElectionTimeoutMin) (rt_election_timeout_min <$> raw)
       (ElectionTimeoutMin t) = Some (ElectionTimeoutMin t'')
  /\ layered_duration (getenv envElectionTimeoutMax) (rt_election_timeout_max <$> raw)
       (ElectionTimeoutMax t) = Some (ElectionTimeoutMax t'')
  /\ layered_duration (getenv envRPCTimeout) (rt_rpc_timeout <$> raw)
       (RPCTimeout t) = Some (RPCTimeout t'').
Proof.
  intros Hm getenv t'' He. unfold applyEnv_timing in He.
  repeat (apply bind_ok in He as (? & ? & He)). injection He as <-. simpl.
  destruct raw as [raw|]; simpl in Hm.
  - unfold TimingConfig_UnmarshalYAML in Hm.
    repeat (apply bind_ok in Hm as (? & ? & Hm)). injection Hm as <-. simpl in *.
    repeat split; (eapply layered_ok; [simpl; eassumption|eassumption]).
  - injection Hm as <-.
    repeat split; (eapply (layered_ok ""); [simpl; reflexivity|eassumption]).
Qed.

(** Precedence.  When [Load] succeeds on a file, every string setting and every
    timing is the environment's value if one is set (trimmed), else the file's if
    it has the key, else the built-in default; the SMTP password comes from the
    environment only; and the notification mode, the recovery flag and the
    incident capacity are always resolved. *)
Theorem Load_precedence (path : string) (doc : yamlDoc) (getenv : string -> string)
  (c : Config) (Hpath : path <> "")
  (Hload : Load ParseDuration path (Decoded doc) getenv = Ok c) :
  let d := defaultConfig in
  (c_NodeID c = layered (getenv envNodeID) (y_node_id doc) ""
   /\ Bind c = layered (getenv envBind) (y_bind doc) (Bind d)
   /\ DataDir c = layered (getenv envDataDir) (y_data_dir doc) (DataDir d)
   /\ LogLevel c = layered (getenv envLogLevel) (y_log_level doc) (LogLevel d)
   /\ Advertise c = layered (getenv envAdvertiseAddr) (y_advertise_addr doc) "")
  /\ (layered_duration (getenv envHeartbeatInterval)
        (rt_heartbeat_interval <$> y_timing doc) (HeartbeatInterval (Timing d))
      = Some (HeartbeatInterval (Timing c))
      /\ layered_duration (getenv envElectionTimeoutMin)
           (rt_election_timeout_min <$> y_timing doc) (ElectionTimeoutMin (Timing d))
         = Some (ElectionTimeoutMin (Timing c))
      /\ layered_duration (getenv envElectionTimeoutMax)
           (rt_election_timeout_max <$> y_timing doc) (ElectionTimeoutMax (Timing d))
         = Some (ElectionTimeoutMax (Timing c))
      /\ layered_duration (getenv envDeadAfter)
           (rt_dead_after <$> y_timing doc) (DeadAfter (Timing d))
         = Some (DeadAfter (Timing c)))
  /\ SMTPPass (Notify c) = TrimSpace (getenv envSMTPPass)
  /\ (n_Mode (Notify c) <> "" /\ is_Some (NotifyRecovery (Watchdog c))
      /\ (0 < MaxIncidents (Watchdog c))%Z).
Proof.
  intros d. unfold Load in Hload. rewrite decide_False in Hload by done.
  destruct (unmarshal _ doc defaultConfig) as [c1|] eqn:Hu; [|done]. cbn [result_bind] in Hload.
  apply bind_ok in Hload as (c2 & He & [= <-]).
  unfold unmarshal in Hu. apply bind_ok in Hu as (timing & Htim & Hu).
  apply bind_ok in Hu as (wd & _ & Hu). apply bind_ok in Hu as (disc & _ & Hu).
  injection Hu as <-. unfold applyEnv in He. cbn [c_NodeID Bind DataDir Peers Timing
    Watchdog Notify LogLevel Discovery Advertise] in He.
  apply bind_ok in He as (peers & _ & He). apply bind_ok in He as (timing' & Htim' & He).
  apply bind_ok in He as (wd' & _ & He). apply bind_ok in He as (n & Hn & He).
  apply bind_ok in He as (disc' & _ & He). injection He as <-.
  destruct (timing_layers _ _ _ Htim _ _ Htim') as (H1 & H2 & H3 & H4 & H5 & H6).
  split; [by repeat split|]. split; [done|].
  unfold applyEnv_notify in Hn. apply bind_ok in Hn as (port & _ & [= <-]).
  split; [|split; [|split]]; cbn.
  - unfold envString. case_decide as E; [|done]. rewrite E. by destruct (y_notify doc).
  - case_decide; [|done]. by case_decide.
  - by eexists.
  - destruct (Z.leb_spec (MaxIncidents wd') 0); [by vm_compute|done].
Qed.
End load.

(** Redaction.  The redacted configuration has no password and is otherwise the
    same, so two configurations that differ only in the password are redacted to
    one value; and the password never decides whether a configuration is valid. *)
Theorem Redacted_hides_password (CompilesRE2 : string -> bool) (c : Config)
  (secret : string) :
  SMTPPass (Notify (Redacted c)) = ""
  /\ Redacted (c <| Notify ::= fun n => n <| SMTPPass := secret |> |>) = Redacted c
  /\ (Redacted c) <| Notify ::= fun n => n <| SMTPPass := SMTPPass (Notify c) |> |> = c
  /\ Validate CompilesRE2 (Redacted c) = Validate CompilesRE2 c.
Proof. split; [done|]. split; [done|]. split; [by destruct c as [? ? ? ? ? ? []]|done]. Qed.

(** ** Witnesses *)

Definition sample_peers : list Node :=
  [ {| ID := "alpha"; Addr := "10.0.0.1:7717" |}; {| ID := "beta"; Addr := "[::1]:7717" |} ].

Lemma parsePeers_roundtrip_witness :
  parsePeers "alpha=10.0.0.1:7717,beta=[::1]:7717" = Ok sample_peers.
Proof.
  apply (proj2 parsePeers_roundtrip sample_peers); [done| |].
  - repeat (apply Forall_cons; split); [..|by apply Forall_nil];
      (split; [split; [done|by eexists]|]); repeat split; done.
  - apply NoDup_cons; split; [|apply NoDup_singleton].
    by intros ?%list_elem_of_singleton.
Defined.

(** A parser of whole seconds below ten, enough for the sample. *)
Definition parse_seconds (s : string) : option Time.Duration :=
  match s with
  | String d (String "s" EmptyString) => (fun n => n * Time.Second)%Z <$> Atoi (String d "")
  | _ => None
  end.

Definition sample_doc : yamlDoc :=
  {| y_node_id := Some "beta"; y_bind := None; y_data_dir := Some "/data"; y_peers := None;
     y_timing := Some {| rt_heartbeat_interval := "2s"; rt_suspect_after := "";
       rt_dead_after := "9s"; rt_election_timeout_min := ""; rt_election_timeout_max := "";
       rt_rpc_timeout := "" |};
     y_watchdog := None; y_notify := None; y_log_level := None; y_discovery := None;
     y_advertise_addr := None |}.

Definition sample_env (key : string) : string :=
  if decide (key = envNodeID) then " alpha "
  else if decide (key = envHeartbeatInterval) then "3s"
  else if decide (key = envPeers) then "alpha=10.0.0.1:7717,beta=[::1]:7717"
  else if decide (key = envSMTPPass) then "hunter2" else "".

Lemma Load_precedence_witness :
  exists c, Load parse_seconds "warden.yaml" (Decoded sample_doc) sample_env = Ok c
    /\ c_NodeID c = "alpha" /\ Bind c = ":7717" /\ DataDir c = "/data"
    /\ SMTPPass (Notify c) = "hunter2"
    /\ Some (3 * Time.Second)%Z = Some (HeartbeatInterval (Timing c))
    /\ Some (9 * Time.Second)%Z = Some (DeadAfter (Timing c)).
Proof.
  destruct (Load parse_seconds "warden.yaml" (Decoded sample_doc) sample_env)
    as [c|e] eqn:E; [|vm_compute in E; discriminate E].
  exists c. split; [done|].
  destruct (Load_precedence parse_seconds "warden.yaml" sample_doc sample_env c ltac:(done) E)
    as ((H1 & H2 & H3 & _) & (H4 & _ & _ & H5) & H6 & _).
  repeat split; [exact H1|exact H2|exact H3|exact H6|exact H4|exact H5].
Defined.
