(* ===== verification/WardenMain.v ===== *)
(** * Assembling a node

    [app/warden/cmd/main.go]: how [main] turns a loaded and validated configuration
    into the node's parts: its own identity, the discoverer, the election manager's
    configuration, the notifier and the watchdog.  The process is not modelled: the
    listener, the servers, the signals and the shutdown order.  The store's [Load]
    is the argument [loadState], a function of the data directory. *)

From S2P Require Import Prelude.
From S2P Require Import GoStd.
From S2P Require Import WardenTypes.
From S2P Require Import WardenWatchdog.
From S2P Require Import WardenManager.
From S2P Require Import WardenElection.
From S2P Require Import WardenNode.
From S2P Require Import WardenConfig.

(** ** The parts *)

Inductive discoverer :=
| NoDiscoverer
| TailscaleDiscoverer (socket tag hostPattern : string) (port : Z) (poll : Time.Duration)
| FileDiscoverer (file : string) (poll : Time.Duration).

Inductive notifier :=
| SMTPNotifier (host : string) (port : Z) (user pass from : string) (to : list string)
| FileNotifier (file : string)
| LogNotifier.

(** The ways [main] stops before the node runs; the last is the nil dereference of
    [*cfg.Watchdog.NotifyRecovery]. *)
Inductive fatal :=
| FatalLoad (e : WardenConfig.error)
| FatalInvalid (e : WardenConfig.error)
| FatalManager (e : config_error)
| FatalNotifier (mode : string)
| PanicNil.

Record assembly := mkAssembly {
  a_config : WardenConfig.Config;
  a_self : Node;
  a_discoverer : discoverer;
  a_manager : Manager;
  a_notifier : notifier;
  a_watchdog : wd;
}.

Definition bindPort (bind : string) : Z :=
  match SplitHostPort bind with
  | None => 0%Z
  | Some (_, portStr) => match Atoi portStr with Some p => p | None => 0%Z end
  end.

Definition main_self (c : WardenConfig.Config) : Node :=
  match WardenConfig.Self c with
  | Some n => n
  | None => {| ID := c_NodeID c; Addr := AdvertiseAddr c |}
  end.

Definition main_discoverer (c : WardenConfig.Config) : discoverer :=
  let d := Discovery c in
  if decide (d_Mode d = DiscoveryModeTailscale) then
    TailscaleDiscoverer (Socket (Tailscale d)) (Tag (Tailscale d))
      (HostPattern (Tailscale d)) (bindPort (Bind c)) (PollInterval (Tailscale d))
  else if decide (d_Mode d = DiscoveryModeFile) then
    FileDiscoverer (d_File d) (FilePollInterval d)
  else NoDiscoverer.

Definition election_config (version : string) (c : WardenConfig.Config)
  : WardenManager.Config :=
  {| WardenManager.Self := main_self c;
     WardenManager.Peers := WardenConfig.Peers c;
     WardenManager.HeartbeatInterval := HeartbeatInterval (Timing c);
     WardenManager.SuspectAfter := SuspectAfter (Timing c);
     WardenManager.DeadAfter := DeadAfter (Timing c);
     WardenManager.ElectionTimeoutMin := ElectionTimeoutMin (Timing c);
     WardenManager.ElectionTimeoutMax := ElectionTimeoutMax (Timing c);
     WardenManager.RPCTimeout := RPCTimeout (Timing c);
     WardenManager.ClusterID := ClusterID (Discovery c);
     WardenManager.BuildVersion := version;
     WardenManager.ViewFreshFor := DeadAfter (Timing c);
     WardenManager.Discoverer :=
       match main_discoverer c with NoDiscoverer => false | _ => true end;
     WardenManager.JoinStability := JoinStability (Discovery c);
     WardenManager.RemoveAfter := RemoveAfter (Discovery c) |}.

Definition main_notifier (c : WardenConfig.Config) : result fatal notifier :=
  let n := Notify c in
  if decide (n_Mode n = NotifyModeSMTP) then
    Ok (SMTPNotifier (SMTPHost n) (SMTPPort n) (SMTPUser n) (SMTPPass n) (SMTPFrom n)
          (SMTPTo n))
  else if decide (n_Mode n = NotifyModeFile) then Ok (FileNotifier (n_File n))
  else if decide (n_Mode n = NotifyModeLog) then Ok LogNotifier
  else Err (FatalNotifier (n_Mode n)).

Definition watchdog_config (c : WardenConfig.Config) : result fatal WardenWatchdog.Config :=
  match NotifyRecovery (Watchdog c) with
  | None => Err PanicNil
  | Some b =>
      Ok {| WardenWatchdog.Cooldown := Cooldown (Watchdog c);
            WardenWatchdog.NotifyRecovery := b;
            WardenWatchdog.MaxIncidents := MaxIncidents (Watchdog c);
            WardenWatchdog.CheckInterval := HeartbeatInterval (Timing c) |}
  end.

Definition lift_error {E F A} (f : E -> F) (r : result E A) : result F A :=
  match r with Ok a => Ok a | Err e => Err (f e) end.

Section main.
Context (ParseDuration : string -> option Time.Duration) (CompilesRE2 : string -> bool).

Definition assemble (version path : string) (file : file_outcome)
  (getenv : string -> string) (loadState : string -> option (option PersistentState))
  : result fatal assembly :=
  let! c := lift_error FatalLoad (Load ParseDuration path file getenv) in
  let! _ := lift_error FatalInvalid (Validate CompilesRE2 c) in
  let! mgr := lift_error FatalManager
                (NewManager (election_config version c) true true true
                   (loadState (DataDir c))) in
  let! n := main_notifier c in
  let! w := watchdog_config c in
  Ok {| a_config := c; a_self := main_self c; a_discoverer := main_discoverer c;
        a_manager := mgr; a_notifier := n; a_watchdog := WardenWatchdog.New w |}.

(** ** Lemmas *)

Lemma lift_ok {E F A} (f : E -> F) (r : result E A) (a : A) :
  lift_error f r = Ok a <-> r = Ok a.
Proof. destruct r; naive_solver. Qed.

Lemma Load_resolves path file getenv c :
  Load ParseDuration path file getenv = Ok c ->
  is_Some (NotifyRecovery (Watchdog c)) /\ (0 < MaxIncidents (Watchdog c))%Z.
Proof.
  unfold Load. intros (c1 & _ & (c2 & _ & [= <-])%bind_ok)%bind_ok. unfold resolve. cbn.
  split; [by eexists|]. destruct (Z.leb_spec (MaxIncidents (Watchdog c2)) 0); [by vm_compute|done].
Qed.

Lemma Self_spec c :
  match WardenConfig.Self c with
  | Some n => n ∈ WardenConfig.Peers c /\ ID n = c_NodeID c
  | None => ~ self_listed c
  end.
Proof.
  unfold WardenConfig.Self, self_listed.
  destruct (list_find _ (WardenConfig.Peers c)) as [[i n]|] eqn:E; simpl.
  - apply list_find_Some in E as (Hi & ? & _). by eauto using list_elem_of_lookup_2.
  - apply list_find_None in E. intros (n & HID & Hn)%list_elem_of_fmap.
    by apply (Forall_forall _ _) with (x := n) in E.
Qed.

Lemma main_self_ok c : valid CompilesRE2 c ->
  ID (main_self c) = c_NodeID c
  /\ is_Some (SplitHostPort (Addr (main_self c)))
  /\ (main_self c ∈ WardenConfig.Peers c \/ ~ self_listed c /\ reachable_at (Addr (main_self c))).
Proof.
  intros V. unfold main_self. pose proof (Self_spec c) as Hs.
  destruct (WardenConfig.Self c) as [n|].
  - destruct Hs as [Hn HID]. split; [done|]. split; [|by left].
    pose proof (va_each _ _ V) as Hf. rewrite Forall_forall in Hf. by apply (Hf n Hn).
  - cbn. assert (reachable_at (AdvertiseAddr c)) as Hr.
    { destruct (vd_mode _ _ (va_discovery _ _ V)) as [[_ ?]|[[?|?] _]]; done. }
    split; [done|]. split; [|by right].
    destruct Hr as (h & p & E & _). by eexists.
Qed.

(** A discoverer is assigned exactly outside the static mode. *)
Lemma discoverer_mode c : valid CompilesRE2 c ->
  main_discoverer c = NoDiscoverer <-> d_Mode (Discovery c) = DiscoveryModeStatic.
Proof.
  intros V. unfold main_discoverer.
  destruct (vd_mode _ _ (va_discovery _ _ V)) as [[E _]|[_ [[E _]|[E _]]]]; rewrite E; done.
Qed.

Ltac field_kept :=
  match goal with
  | Hp : forall d x, _ -> positive_or d x = d |- _ <| _ ::= _ |> = ?c =>
      destruct c; cbn in *; rewrite Hp by lia; reflexivity
  end.

Lemma applyDefaults_id (c : WardenManager.Config) :
  (0 < WardenManager.HeartbeatInterval c)%Z -> (0 < WardenManager.SuspectAfter c)%Z ->
  (0 < WardenManager.DeadAfter c)%Z ->
  (0 < WardenManager.ElectionTimeoutMin c < WardenManager.ElectionTimeoutMax c)%Z ->
  (0 < WardenManager.RPCTimeout c)%Z -> (0 < WardenManager.ViewFreshFor c)%Z ->
  (0 < WardenManager.JoinStability c)%Z -> WardenManager.ClusterID c <> "" ->
  applyDefaults c = c.
Proof.
  assert (forall d x, (0 < d)%Z -> positive_or d x = d) as Hp.
  { intros d x Hd. unfold positive_or. by destruct (Z.leb_spec d 0); [lia|]. }
  intros Hhb Hsa Hda [Hlo Hhi] Hrpc Hvf Hjs Hid. unfold applyDefaults. cbv zeta.
  assert (c <| WardenManager.HeartbeatInterval ::= fun d => positive_or d Time.Second |> = c)
    as -> by field_kept.
  assert (c <| WardenManager.SuspectAfter ::= fun d => positive_or d (5 * Time.Second)%Z |> = c)
    as -> by field_kept.
  assert (c <| WardenManager.DeadAfter ::= fun d => positive_or d (15 * Time.Second)%Z |> = c)
    as -> by field_kept.
  assert (c <| WardenManager.ElectionTimeoutMin ::=
              fun d => positive_or d (1500 * Time.Millisecond)%Z |> = c)
    as -> by field_kept.
  assert (c <| WardenManager.ElectionTimeoutMax ::=
              fun d => positive_or d (3 * Time.Second)%Z |> = c)
    as -> by field_kept.
  destruct (Z.leb_spec (WardenManager.ElectionTimeoutMax c)
              (WardenManager.ElectionTimeoutMin c)); [lia|].
  destruct c; cbn in *. rewrite !Hp by done. by rewrite decide_False.
Qed.

Lemma defaults_unused version c : valid CompilesRE2 c ->
  applyDefaults (election_config version c) = election_config version c.
Proof.
  intros V. destruct (va_timing _ _ V), (va_discovery _ _ V).
  apply applyDefaults_id; cbn; first [done|lia].
Qed.

Lemma manager_starts version c loaded : valid CompilesRE2 c ->
  is_ok (NewManager (election_config version c) true true true loaded) = true
  <-> is_Some loaded.
Proof.
  intros V. rewrite NewManager_ok. cbn. destruct (main_self_ok c V) as (-> & _ & Hself).
  pose proof (discoverer_mode c V) as Hd. destruct V as [Hid Hp _ Hnd Hdisc _ _].
  split; [tauto|]. intros Hl. repeat (split; [done|]). split; [|done].
  destruct (vd_mode _ _ Hdisc) as [[_ ?]|[_ Hm]]; [by right|left].
  destruct (main_discoverer c); [|done|done]. rewrite (proj1 Hd eq_refl) in Hm.
  by destruct Hm as [[? _]|[? _]].
Qed.

Lemma notifier_known c : valid CompilesRE2 c -> exists n, main_notifier c = Ok n.
Proof.
  intros V. unfold main_notifier.
  destruct (va_notify _ _ V) as [[-> _]|[[-> _]| ->]]; eauto.
Qed.

Lemma NewManager_cfg e loaded m : NewManager e true true true loaded = Ok m ->
  cfg m = applyDefaults e /\ self m = WardenManager.Self (applyDefaults e)
  /\ discoveryMode m = WardenManager.Discoverer (applyDefaults e).
Proof.
  unfold NewManager. intros (? & _ & H)%bind_ok. generalize dependent (applyDefaults e).
  destruct loaded; [|done]. by intros d [= <-].
Qed.

Lemma watchdog_kept c w : valid CompilesRE2 c -> (0 < MaxIncidents (Watchdog c))%Z ->
  watchdog_config c = Ok w ->
  let k := wd_cfg (WardenWatchdog.New w) in
  WardenWatchdog.Cooldown k = Cooldown (Watchdog c)
  /\ WardenWatchdog.MaxIncidents k = MaxIncidents (Watchdog c)
  /\ WardenWatchdog.CheckInterval k = HeartbeatInterval (Timing c)
  /\ NotifyRecovery (Watchdog c) = Some (WardenWatchdog.NotifyRecovery k).
Proof.
  intros V Hm. unfold watchdog_config. destruct (NotifyRecovery _) as [b|]; [|done].
  intros [= <-]. destruct (va_timing _ _ V). cbn.
  destruct (Z.leb_spec (Cooldown (Watchdog c)) 0); [lia|].
  destruct (Z.leb_spec (MaxIncidents (Watchdog c)) 0); [lia|].
  by destruct (Z.leb_spec (HeartbeatInterval (Timing c)) 0); [lia|].
Qed.

(** ** Theorems *)

(** Starting.  The parts are assembled exactly when the configuration loads, is
    valid, and the persisted state can be read; no further check of the election
    manager, no unknown notification mode and no nil flag stops a node whose
    configuration [Validate] accepted. *)
Theorem assemble_iff (version path : string) (file : file_outcome)
  (getenv : string -> string) (loadState : string -> option (option PersistentState)) :
  is_ok (assemble version path file getenv loadState) = true <->
  exists c, Load ParseDuration path file getenv = Ok c /\ valid CompilesRE2 c
    /\ is_Some (loadState (DataDir c)).
Proof.
  split.
  - destruct (assemble version path file getenv loadState) as [a|] eqn:E; [|done]. intros _.
    apply bind_ok in E as (c & Hl%lift_ok & E). exists c. split; [done|].
    apply bind_ok in E as ([] & Hv%lift_ok%Validate_valid & E). split; [done|].
    apply bind_ok in E as (m & Hm%lift_ok & _).
    eapply manager_starts; [done|]. by rewrite Hm.
  - intros (c & Hl & V & Hs). unfold assemble. rewrite Hl. cbn [lift_error result_bind].
    rewrite (proj2 (Validate_valid _ _) V). cbn [lift_error result_bind].
    apply (manager_starts version c) in Hs; [|done].
    destruct (NewManager _ _ _ _ _) as [m|]; [|done]. cbn [lift_error result_bind].
    destruct (notifier_known c V) as [n Hn]. rewrite Hn. cbn [result_bind].
    unfold watchdog_config. destruct (Load_resolves _ _ _ _ Hl) as [[b Hb] _]. by rewrite Hb.
Qed.

(** The assembled node.  Its election manager and watchdog run with exactly the
    configured values, no default replacing one; heartbeats, suspicion, death and
    the trust in a leader's view are in that order; its membership is dynamic
    exactly in a discovery mode; and it advertises an address others can dial,
    from the peer list or, for a joiner, a routable one. *)
Theorem assembled_node (version path : string) (file : file_outcome)
  (getenv : string -> string) (loadState : string -> option (option PersistentState))
  (a : assembly)
  (Ha : assemble version path file getenv loadState = Ok a) :
  let c := a_config a in
  (cfg (a_manager a) = election_config version c
   /\ WardenWatchdog.Cooldown (wd_cfg (a_watchdog a)) = Cooldown (Watchdog c)
   /\ WardenWatchdog.MaxIncidents (wd_cfg (a_watchdog a)) = MaxIncidents (Watchdog c)
   /\ WardenWatchdog.CheckInterval (wd_cfg (a_watchdog a)) = HeartbeatInterval (Timing c)
   /\ NotifyRecovery (Watchdog c) = Some (WardenWatchdog.NotifyRecovery (wd_cfg (a_watchdog a))))
  /\ (let e := cfg (a_manager a) in
      0 < WardenManager.HeartbeatInterval e < WardenManager.SuspectAfter e
      /\ WardenManager.SuspectAfter e < WardenManager.DeadAfter e
      /\ WardenManager.ViewFreshFor e = WardenManager.DeadAfter e
      /\ 0 < WardenManager.ElectionTimeoutMin e < WardenManager.ElectionTimeoutMax e)%Z
  /\ (discoveryMode (a_manager a) = true <-> d_Mode (Discovery c) <> DiscoveryModeStatic)
  /\ (self (a_manager a) = a_self a /\ ID (a_self a) = c_NodeID c
      /\ is_Some (SplitHostPort (Addr (a_self a)))
      /\ (a_self a ∈ WardenConfig.Peers c
          \/ ~ self_listed c /\ reachable_at (Addr (a_self a)))).
Proof.
  apply bind_ok in Ha as (c & Hl%lift_ok & E).
  apply bind_ok in E as ([] & V%lift_ok%Validate_valid & E).
  apply bind_ok in E as (m & Hm%lift_ok & E). apply bind_ok in E as (n & _ & E).
  apply bind_ok in E as (w & Hw & [= <-]). cbn -[WardenWatchdog.New].
  destruct (NewManager_cfg _ _ _ Hm) as (Hcfg & Hself & Hdm).
  rewrite (defaults_unused version c V) in Hcfg, Hself, Hdm.
  rewrite Hcfg, Hself, Hdm.
  pose proof (discoverer_mode c V) as Hd. destruct (main_self_ok c V) as (HID & Hsp & Hin).
  split; [split; [done|]; apply (watchdog_kept c w V); [apply (Load_resolves _ _ _ _ Hl)|done]|]. cbn.
  split; [by destruct (va_timing _ _ V)|].
  split; [|by repeat split].
  destruct (main_discoverer c); naive_solver.
Qed.
End main.

(** ** Witness *)

Definition fresh_store (dir : string) : option (option PersistentState) := Some None.

Lemma assembled_node_witness :
  exists a, assemble parse_seconds (fun _ => true) "v1" "warden.yaml" (Decoded sample_doc)
              sample_env fresh_store = Ok a
    /\ ID (a_self a) = "alpha"
    /\ WardenManager.HeartbeatInterval (cfg (a_manager a)) = (3 * Time.Second)%Z
    /\ WardenManager.DeadAfter (cfg (a_manager a)) = (9 * Time.Second)%Z
    /\ ~ discoveryMode (a_manager a) = true.
Proof.
  destruct (assemble parse_seconds (fun _ => true) "v1" "warden.yaml" (Decoded sample_doc)
              sample_env fresh_store) as [a|e] eqn:E; [|vm_compute in E; discriminate E].
  exists a. split; [done|].
  destruct (assembled_node parse_seconds (fun _ => true) "v1" "warden.yaml"
              (Decoded sample_doc) sample_env fresh_store a E)
    as ((H1 & _) & _ & H2 & _ & H3 & _).
  rewrite H1, H3, H2. vm_compute in E. injection E as <-.
  repeat split; try reflexivity. intros H. by apply H.
Defined.
