(* ===== verification/CronSchedule.v ===== *)
(** * Schedules

    [pkg/cron/schedule.go]: the fluent declarations of a schedule, [Validate],
    [Canonical], the persistence projection [Definition] with its inverse
    [ScheduleFromDefinition], and [Next].

    The parameters are the time zone database ([LoadLocation]), the rendering of a
    duration ([duration_String], [time.Duration.String]) and the robfig parser
    ([ParseCron]: whether an expression parses and, if so, the next occurrence it
    computes in a location).  Error texts are not modelled; each error has its
    constructor.  [String], a rendering for logs, is left out. *)

From stdpp Require Import pretty.
From S2P Require Import Prelude.
From S2P Require Import GoStd.
From S2P Require Import GoTime.

Open Scope Z_scope.

(** ** Data *)

Inductive error :=
| ErrManyMinutes (n : nat) | ErrHour (hour : Z) | ErrMinute (minute : Z)
| ErrWeekday (day : Z) | ErrMonthDay (day : Z) | ErrInterval (d : Time.Duration)
| ErrNilLocation | ErrLocalLocation | ErrLocation (name : string)
| ErrAnchorRule | ErrAnchorZero | ErrTimeOfDay | ErrNoRule
| ErrRawLength | ErrRawParse (expression : string)
| ErrDefinitionTimezone | ErrDefinitionLocation (name : string)
| ErrDefinitionKind (kind : string) | ErrDefinitionCanonical (got want : string)
| ErrNoOccurrence.

Record TimeOfDay := mkTimeOfDay { hour : Z; minute : Z; at_err : option error }.
Record MeridiemTime := mkMeridiem { m_hour : Z; m_minute : Z; m_err : option error }.

Inductive ruleKind :=
| ruleInvalid | ruleDaily | ruleWeekly | ruleMonthly | ruleLastDayOfMonth
| ruleEvery | ruleRaw.
#[export] Instance ruleKind_eq_dec : EqDecision ruleKind.
Proof. solve_decision. Defined.

Record Rule := mkRule {
  kind : ruleKind;
  at_ : TimeOfDay;
  weekday : Z;
  monthDay : Z;
  interval : Time.Duration;
  raw : string;
  rule_err : option error;
}.

#[export] Instance Rebuild_Rule : Rebuild Rule := fun r =>
  mkRule (kind r) (at_ r) (weekday r) (monthDay r) (interval r) (raw r) (rule_err r).

(** [location] is [None] for a nil pointer. *)
Record Schedule := mkSchedule {
  rule : Rule;
  location : option Location;
  anchor : Time.t;
  hasAnchor : bool;
}.
#[export] Instance Rebuild_Schedule : Rebuild Schedule := fun s =>
  mkSchedule (rule s) (location s) (anchor s) (hasAnchor s).

Definition ScheduleKindDaily : string := "daily".
Definition ScheduleKindWeekly : string := "weekly".
Definition ScheduleKindMonthly : string := "monthly".
Definition ScheduleKindLastDayOfMonth : string := "last_day_of_month".
Definition ScheduleKindEvery : string := "every".
Definition ScheduleKindRaw : string := "raw".

Record ScheduleDefinition := mkDefinition {
  Kind : string;
  Timezone : string;
  Canonical_ : string;
  d_Hour : Z;
  d_Minute : Z;
  d_Weekday : Z;
  MonthDay : Z;
  Interval : Time.Duration;
  d_Anchor : Time.t;
  HasAnchor : bool;
}.

Definition noTime : TimeOfDay := {| hour := 0; minute := 0; at_err := None |}.
Definition noRule : Rule :=
  {| kind := ruleInvalid; at_ := noTime; weekday := 0; monthDay := 0; interval := 0;
     raw := ""; rule_err := None |}.

(** ** Declarations *)

(** The variadic minute is a list; the result is the minute and the error. *)
Definition validateClockInput (hour minimumHour maximumHour : Z) (minute : list Z)
  : Z * option error :=
  if decide (1 < length minute)%nat then (0, Some (ErrManyMinutes (length minute)))
  else
    let valueMinute := match minute with [m] => m | _ => 0 end in
    if (hour <? minimumHour) || (maximumHour <? hour) then (valueMinute, Some (ErrHour hour))
    else if (valueMinute <? 0) || (59 <? valueMinute) then
      (valueMinute, Some (ErrMinute valueMinute))
    else (valueMinute, None).

Definition At (hour : Z) (minute : list Z) : MeridiemTime :=
  let '(valueMinute, err) := validateClockInput hour 1 12 minute in
  {| m_hour := hour; m_minute := valueMinute; m_err := err |}.

Definition AM (value : MeridiemTime) : TimeOfDay :=
  match m_err value with
  | Some e => {| hour := 0; minute := 0; at_err := Some e |}
  | None =>
      {| hour := if m_hour value =? 12 then 0 else m_hour value;
         minute := m_minute value; at_err := None |}
  end.

Definition PM (value : MeridiemTime) : TimeOfDay :=
  match m_err value with
  | Some e => {| hour := 0; minute := 0; at_err := Some e |}
  | None =>
      {| hour := if m_hour value =? 12 then m_hour value else m_hour value + 12;
         minute := m_minute value; at_err := None |}
  end.

Definition At24 (hour : Z) (minute : list Z) : TimeOfDay :=
  let '(valueMinute, err) := validateClockInput hour 0 23 minute in
  {| hour := hour; minute := valueMinute; at_err := err |}.

Definition Midnight : TimeOfDay := At24 0 [].
Definition Noon : TimeOfDay := At24 12 [].

(** [if rule.err == nil && bad { rule.err = e }]. *)
Definition also (err : option error) (bad : bool) (e : error) : option error :=
  match err with Some _ => err | None => if bad then Some e else None end.

Definition Daily (at_ : TimeOfDay) : Rule :=
  {| kind := ruleDaily; at_ := at_; weekday := 0; monthDay := 0; interval := 0; raw := "";
     rule_err := at_err at_ |}.

Definition Weekly (day : Z) (at_ : TimeOfDay) : Rule :=
  {| kind := ruleWeekly; at_ := at_; weekday := day; monthDay := 0; interval := 0;
     raw := ""; rule_err := also (at_err at_) ((day <? 0) || (6 <? day)) (ErrWeekday day) |}.

Definition Monthly (day : Z) (at_ : TimeOfDay) : Rule :=
  {| kind := ruleMonthly; at_ := at_; weekday := 0; monthDay := day; interval := 0;
     raw := ""; rule_err := also (at_err at_) ((day <? 1) || (31 <? day)) (ErrMonthDay day) |}.

Definition LastDayOfMonth (at_ : TimeOfDay) : Rule :=
  {| kind := ruleLastDayOfMonth; at_ := at_; weekday := 0; monthDay := 0; interval := 0;
     raw := ""; rule_err := at_err at_ |}.

(** Go's [%] truncates. *)
Definition badInterval (d : Time.Duration) : bool :=
  (d <? Time.Microsecond) || negb (Z.rem d Time.Microsecond =? 0).

Definition Every (d : Time.Duration) : Rule :=
  {| kind := ruleEvery; at_ := noTime; weekday := 0; monthDay := 0; interval := d; raw := "";
     rule_err := if badInterval d then Some (ErrInterval d) else None |}.

Definition Raw (expression : string) : Rule :=
  {| kind := ruleRaw; at_ := noTime; weekday := 0; monthDay := 0; interval := 0;
     raw := TrimSpace expression; rule_err := None |}.

Definition Spec (r : Rule) : Schedule :=
  {| rule := r; location := Some UTC; anchor := 0; hasAnchor := false |}.

Definition In (l : option Location) (s : Schedule) : Schedule := s <| location := l |>.

Definition Anchor (a : Time.t) (s : Schedule) : Schedule :=
  s <| anchor := Truncate a Time.Microsecond |> <| hasAnchor := true |>.

Definition validateTimeOfDay (value : TimeOfDay) : result error unit :=
  match at_err value with
  | Some e => Err e
  | None =>
      guard! negb ((hour value <? 0) || (23 <? hour value)
                   || (minute value <? 0) || (59 <? minute value)) else ErrTimeOfDay in
      Ok tt
  end.

Definition normalizeRaw (expression : string) : string := Join " " (Fields expression).

(** ** The wall-clock matchers *)

Definition matchesAt (loc : Location) (value : Time.t) (a : TimeOfDay) : bool :=
  (Hour loc value =? hour a) && (Minute loc value =? minute a).

Definition lastDay (loc : Location) (value : Time.t) : Z :=
  let d := Date_of loc value in
  Day (Date_of loc (Date (Year d) (Month d + 1) 0 0 0 loc)).

Definition matcher (r : Rule) : option (Location -> Time.t -> bool) :=
  match kind r with
  | ruleDaily => Some (fun loc value => matchesAt loc value (at_ r))
  | ruleWeekly => Some (fun loc value =>
      (Weekday loc value =? weekday r) && matchesAt loc value (at_ r))
  | ruleMonthly => Some (fun loc value =>
      (Day (Date_of loc value) =? monthDay r) && matchesAt loc value (at_ r))
  | ruleLastDayOfMonth => Some (fun loc value =>
      (Day (Date_of loc value) =? lastDay loc value) && matchesAt loc value (at_ r))
  | _ => None
  end.

(** The loop of [Next]: candidates a minute apart, while not after the deadline. *)
Fixpoint search (p : Time.t -> bool) (fuel : nat) (candidate deadline : Time.t)
  : option Time.t :=
  match fuel with
  | O => None
  | S fuel =>
      if Time.After candidate deadline then None
      else if p candidate then Some candidate
      else search p fuel (Time.Add candidate Time.Minute) deadline
  end.

(** One more than the candidates there are. *)
Definition search_fuel (candidate deadline : Time.t) : nat :=
  S (Z.to_nat ((deadline - candidate) / Time.Minute + 1)).

(** ** Operations *)

Definition RawSchedule : Type := Location -> Time.t -> Time.t.

Section schedules.
Context (LoadLocation : string -> option Location)
        (duration_String : Time.Duration -> string)
        (ParseCron : string -> option RawSchedule).

Definition parseRaw (expression : string) : result error RawSchedule :=
  let expression := normalizeRaw expression in
  guard! negb ((String.length expression =? 0)%nat || (256 <? String.length expression)%nat)
    else ErrRawLength in
  match ParseCron expression with
  | Some parsed => Ok parsed
  | None => Err (ErrRawParse expression)
  end.

Definition validateRule (r : Rule) : result error unit :=
  match kind r with
  | ruleDaily | ruleWeekly | ruleMonthly | ruleLastDayOfMonth => validateTimeOfDay (at_ r)
  | ruleEvery =>
      guard! negb (badInterval (interval r)) else ErrInterval (interval r) in Ok tt
  | ruleRaw => let! _ := parseRaw (raw r) in Ok tt
  | ruleInvalid => Err ErrNoRule
  end.

Definition Validate (s : Schedule) : result error unit :=
  match location s with
  | None => Err ErrNilLocation
  | Some loc =>
      guard! negb (bool_decide (loc_name loc = "Local")) else ErrLocalLocation in
      match LoadLocation (loc_name loc) with
      | None => Err (ErrLocation (loc_name loc))
      | Some _ =>
          match rule_err (rule s) with
          | Some e => Err e
          | None =>
              guard! negb (hasAnchor s && negb (bool_decide (kind (rule s) = ruleEvery)))
                else ErrAnchorRule in
              guard! negb (hasAnchor s && Time.IsZero (anchor s)) else ErrAnchorZero in
              validateRule (rule s)
          end
      end
  end.

Definition canonical_rule (r : Rule) : result error string :=
  let m := pretty (minute (at_ r)) in
  let h := pretty (hour (at_ r)) in
  match kind r with
  | ruleDaily => Ok (m +:+ " " +:+ h +:+ " * * *")
  | ruleWeekly => Ok (m +:+ " " +:+ h +:+ " * * " +:+ pretty (weekday r))
  | ruleMonthly => Ok (m +:+ " " +:+ h +:+ " " +:+ pretty (monthDay r) +:+ " * *")
  | ruleLastDayOfMonth => Ok (m +:+ " " +:+ h +:+ " L * *")
  | ruleEvery => Ok ("@every " +:+ duration_String (interval r))
  | ruleRaw => Ok (normalizeRaw (raw r))
  | ruleInvalid => Err ErrNoRule
  end.

Definition Canonical (s : Schedule) : result error string :=
  let! _ := Validate s in canonical_rule (rule s).

Definition kind_name (k : ruleKind) : string :=
  match k with
  | ruleDaily => ScheduleKindDaily
  | ruleWeekly => ScheduleKindWeekly
  | ruleMonthly => ScheduleKindMonthly
  | ruleLastDayOfMonth => ScheduleKindLastDayOfMonth
  | ruleEvery => ScheduleKindEvery
  | ruleRaw => ScheduleKindRaw
  | ruleInvalid => ""
  end.

(** [Validate] has checked that the location is not nil. *)
Definition Definition_ (s : Schedule) : result error ScheduleDefinition :=
  let! _ := Validate s in
  let! canonical := Canonical s in
  let r := rule s in
  Ok {| Kind := kind_name (kind r);
        Timezone := match location s with Some loc => loc_name loc | None => "UTC" end;
        Canonical_ := canonical;
        d_Hour := hour (at_ r);
        d_Minute := minute (at_ r);
        d_Weekday := weekday r;
        MonthDay := monthDay r;
        Interval := match kind r with ruleEvery => interval r | _ => 0 end;
        d_Anchor := anchor s;
        HasAnchor := hasAnchor s |}.

Definition rule_of_definition (d : ScheduleDefinition) : result error Rule :=
  let a := At24 (d_Hour d) [d_Minute d] in
  if decide (Kind d = ScheduleKindDaily) then Ok (Daily a)
  else if decide (Kind d = ScheduleKindWeekly) then Ok (Weekly (d_Weekday d) a)
  else if decide (Kind d = ScheduleKindMonthly) then Ok (Monthly (MonthDay d) a)
  else if decide (Kind d = ScheduleKindLastDayOfMonth) then Ok (LastDayOfMonth a)
  else if decide (Kind d = ScheduleKindEvery) then Ok (Every (Interval d))
  else if decide (Kind d = ScheduleKindRaw) then Ok (Raw (Canonical_ d))
  else Err (ErrDefinitionKind (Kind d)).

Definition ScheduleFromDefinition (d : ScheduleDefinition) : result error Schedule :=
  guard! negb (bool_decide (Timezone d = "")) else ErrDefinitionTimezone in
  match LoadLocation (Timezone d) with
  | None => Err (ErrDefinitionLocation (Timezone d))
  | Some loc =>
      let! r := rule_of_definition d in
      let s := In (Some loc) (Spec r) in
      let s := if HasAnchor d then Anchor (d_Anchor d) s else s in
      let! _ := Validate s in
      let! canonical := Canonical s in
      guard! negb (negb (bool_decide (Canonical_ d = ""))
                   && negb (bool_decide (Canonical_ d = canonical)))
        else ErrDefinitionCanonical (Canonical_ d) canonical in
      Ok s
  end.

(** [time.Unix(0, 0).UTC()]. *)
Definition epoch : Time.t := Time.unixToInternal * Time.Second.

Definition next_every (s : Schedule) (after : Time.t) : Time.t :=
  let anchor := if hasAnchor s then anchor s else epoch in
  if Time.Before after anchor then anchor
  else
    let elapsed := Time.Sub after anchor in
    let steps := i64_wrap (elapsed ÷ interval (rule s) + 1) in
    Time.Add anchor (i64_wrap (steps * interval (rule s))).

Definition Next (s : Schedule) (after : Time.t) : result error Time.t :=
  let! _ := Validate s in
  match location s with
  | None => Err ErrNilLocation
  | Some loc =>
      if decide (kind (rule s) = ruleEvery) then Ok (next_every s after)
      else if decide (kind (rule s) = ruleRaw) then
        let! parsed := parseRaw (raw (rule s)) in Ok (parsed loc after)
      else
        match matcher (rule s) with
        | None => Err ErrNoRule
        | Some p =>
            let candidate := Time.Add (Truncate after Time.Minute) Time.Minute in
            let deadline := AddYears 5 candidate in
            match search (p loc) (search_fuel candidate deadline) candidate deadline with
            | Some t => Ok t
            | None => Err ErrNoOccurrence
            end
        end
  end.
End schedules.

(** ** Declared schedules *)

(** The rules a caller can build: [Rule] has no exported field. *)
Inductive fluent : Rule -> Prop :=
| fluent_Daily a : fluent (Daily a)
| fluent_Weekly d a : fluent (Weekly d a)
| fluent_Monthly d a : fluent (Monthly d a)
| fluent_LastDayOfMonth a : fluent (LastDayOfMonth a)
| fluent_Every d : fluent (Every d)
| fluent_Raw e : fluent (Raw e).

(** And the schedules: [Spec], then any number of [In] and [Anchor]. *)
Inductive declared : Schedule -> Prop :=
| declared_Spec r : fluent r -> declared (Spec r)
| declared_In l s : declared s -> declared (In l s)
| declared_Anchor a s : declared s -> declared (Anchor a s).

(** ** Lemmas on declarations *)

Lemma also_None err bad e : also err bad e = None -> err = None /\ bad = false.
Proof. destruct err, bad; naive_solver. Qed.

(** The parameters of a rule without error are in range. *)
Definition in_range (r : Rule) : Prop :=
  match kind r with
  | ruleWeekly => 0 <= weekday r <= 6
  | ruleMonthly => 1 <= monthDay r <= 31
  | _ => True
  end.

Lemma fluent_in_range r : fluent r -> rule_err r = None -> in_range r.
Proof.
  intros [] He; cbn in *; try done;
    apply also_None in He as [_ Hb]; apply orb_false_iff in Hb as [H1 H2];
    rewrite Z.ltb_ge in *; lia.
Qed.

Lemma validateTimeOfDay_ok a : validateTimeOfDay a = Ok tt <->
  at_err a = None /\ 0 <= hour a <= 23 /\ 0 <= minute a <= 59.
Proof.
  unfold validateTimeOfDay. destruct (at_err a); [naive_solver|].
  destruct (Z.ltb_spec (hour a) 0), (Z.ltb_spec 23 (hour a)), (Z.ltb_spec (minute a) 0),
    (Z.ltb_spec 59 (minute a)); simpl; (split; [intros [=]|]); try done; repeat split; lia.
Qed.

Lemma declared_fluent s : declared s -> fluent (rule s).
Proof. by induction 1. Qed.

Lemma declared_anchor s : declared s ->
  Truncate (anchor s) Time.Microsecond = anchor s /\ (hasAnchor s = false -> anchor s = 0).
Proof.
  induction 1 as [|l s _ IH|a s _ IH]; [done|exact IH|]. cbn. split; [|done].
  unfold Truncate, Time.Microsecond. euclid.
Qed.

(** What [Validate] has established. *)
Record validated (LoadLocation : string -> option Location)
  (ParseCron : string -> option RawSchedule) (s : Schedule) (loc : Location) : Prop := {
  vs_location : location s = Some loc;
  vs_portable : loc_name loc <> "Local";
  vs_known : is_Some (LoadLocation (loc_name loc));
  vs_err : rule_err (rule s) = None;
  vs_anchor : hasAnchor s = true -> kind (rule s) = ruleEvery /\ anchor s <> 0;
  vs_rule : validateRule ParseCron (rule s) = Ok tt;
}.

Lemma Validate_ok LoadLocation ParseCron s :
  Validate LoadLocation ParseCron s = Ok tt <->
  exists loc, validated LoadLocation ParseCron s loc.
Proof.
  unfold Validate, Time.IsZero. destruct (location s) as [loc|] eqn:El.
  2:{ split; [done|]. intros [loc []]. congruence. }
  transitivity (validated LoadLocation ParseCron s loc).
  2:{ split; [eauto|]. intros [loc' V]. assert (loc' = loc) as ->
        by (destruct V; congruence). done. }
  destruct (decide (loc_name loc = "Local")) as [E|Hn].
  { rewrite bool_decide_true by done. split; [done|]. by intros []. }
  rewrite bool_decide_false by done. cbn [negb].
  destruct (LoadLocation (loc_name loc)) as [l|] eqn:Ek.
  2:{ split; [done|]. intros []. rewrite Ek in *. by destruct vs_known0. }
  destruct (rule_err (rule s)) as [e|] eqn:Ee.
  { split; [done|]. intros []. congruence. }
  destruct (hasAnchor s) eqn:Ea; cbn [andb negb].
  - destruct (decide (kind (rule s) = ruleEvery)) as [Ev|Ev].
    + rewrite bool_decide_true by done. cbn [negb].
      destruct (Z.eqb_spec (anchor s) 0) as [Ez|Ez]; cbn [negb].
      * split; [done|]. intros []. by destruct vs_anchor0.
      * split; [intros; constructor; try done; by rewrite Ek|by intros []].
    + rewrite bool_decide_false by done. split; [done|]. intros []. by destruct vs_anchor0.
  - split; [intros; constructor; first [done|by rewrite Ek|congruence]|by intros []].
Qed.
Close Scope Z_scope.
