(* ===== verification/CronNext.v ===== *)
(** * When a schedule runs next

    What [Next] of [pkg/cron/schedule.go] computes: the first matching minute of a
    calendar rule, and the cadence of an interval rule. *)

From S2P Require Import Prelude.
From S2P Require Import GoStd.
From S2P Require Import GoTime.
From S2P Require Import CronSchedule.

Open Scope Z_scope.

(** ** What a calendar rule asks for *)

Definition calendar (r : Rule) : Prop :=
  kind r = ruleDaily \/ kind r = ruleWeekly \/ kind r = ruleMonthly
  \/ kind r = ruleLastDayOfMonth.

(** The civil reading of a rule at an instant. *)
Definition occurs (r : Rule) (loc : Location) (t : Time.t) : Prop :=
  Hour loc t = hour (at_ r) /\ Minute loc t = minute (at_ r)
  /\ let d := Date_of loc t in
     match kind r with
     | ruleDaily => True
     | ruleWeekly => Weekday loc t = weekday r
     | ruleMonthly => Day d = monthDay r
     | ruleLastDayOfMonth => Day d = month_days (Year d) (Month d)
     | _ => False
     end.

(** [time.Date] finds every month's last day at its midnight. *)
Definition month_ends (loc : Location) : Prop :=
  forall y m, 1 <= m <= 12 ->
    Day (Date_of loc (Date y (m + 1) 0 0 0 loc)) = month_days y m.

Lemma month_ends_constant o loc : constant_offset o loc -> month_ends loc.
Proof.
  intros Ho y m Hm. rewrite (Date_constant o) by done. rewrite days_of_month_end by done.
  unfold Date_of. rewrite (local_constant o) by done.
  rewrite !Z.add_0_r, Z.div_mul by done. rewrite Z.sub_add, Z.div_mul by done.
  pose proof (month_days_bounds y m). rewrite date_of_days; [done|split; [done|lia]].
Qed.

(** [matcher] decides [occurs]. *)
Lemma matcher_occurs r loc : calendar r ->
  (kind r = ruleLastDayOfMonth -> month_ends loc) ->
  exists p, matcher r = Some p /\ forall t, p loc t = true <-> occurs r loc t.
Proof.
  intros Hc Hl. unfold matcher, occurs, matchesAt.
  destruct Hc as [E|[E|[E|E]]]; rewrite E; eexists; (split; [done|]); intros t;
    rewrite ?andb_true_iff, !Z.eqb_eq; try tauto.
  unfold lastDay. destruct (date_of_spec (local loc t / 86400)) as [[Hm _] _].
  rewrite (Hl E) by done. tauto.
Qed.

(** ** The search *)

Lemma search_Some p fuel c dl t :
  search p fuel c dl = Some t ->
  exists k, 0 <= k /\ t = c + k * Time.Minute /\ t <= dl /\ p t = true
    /\ forall j, 0 <= j < k -> p (c + j * Time.Minute) = false.
Proof.
  revert c. induction fuel as [|fuel IH]; intros c; simpl; [done|].
  unfold Time.After, Time.Add. destruct (Z.ltb_spec dl c); [done|].
  destruct (p c) eqn:E.
  - intros [= <-]. exists 0. repeat split; [lia..|done|lia].
  - intros (k & Hk & -> & Hle & Hp & Hn)%IH. exists (k + 1).
    replace (c + (k + 1) * Time.Minute) with (c + Time.Minute + k * Time.Minute) by lia.
    repeat split; [lia|done|done|]. intros j Hj.
    destruct (decide (j = 0)) as [->|]; [by rewrite Z.add_0_r|].
    replace (c + j * Time.Minute) with (c + Time.Minute + (j - 1) * Time.Minute) by lia.
    apply Hn. lia.
Qed.

Lemma search_None p fuel c dl :
  dl < c + Z.of_nat fuel * Time.Minute -> search p fuel c dl = None ->
  forall k, 0 <= k -> c + k * Time.Minute <= dl -> p (c + k * Time.Minute) = false.
Proof.
  revert c. induction fuel as [|fuel IH]; intros c; cbn [search].
  { unfold Time.Minute. lia. }
  unfold Time.After, Time.Add. intros Hf.
  destruct (Z.ltb_spec dl c); [unfold Time.Minute; lia|].
  destruct (p c) eqn:E; [done|]. intros Hs k Hk Hle.
  destruct (decide (k = 0)) as [->|]; [by rewrite Z.add_0_r|].
  replace (c + k * Time.Minute) with (c + Time.Minute + (k - 1) * Time.Minute) in * by lia.
  apply IH; [lia|done|lia|done].
Qed.

Lemma search_fuel_enough c dl : dl < c + Z.of_nat (search_fuel c dl) * Time.Minute.
Proof.
  unfold search_fuel. pose proof (Z.div_mod (dl - c) Time.Minute ltac:(done)).
  pose proof (Z.mod_pos_bound (dl - c) Time.Minute ltac:(done)).
  unfold Time.Minute in *. lia.
Qed.

(** The whole minutes after an instant are the candidates. *)
Definition whole_minute (t : Time.t) : Prop := t mod Time.Minute = 0.

Definition first_candidate (after : Time.t) : Time.t :=
  Time.Add (Truncate after Time.Minute) Time.Minute.

Lemma candidates after t :
  whole_minute t /\ after < t <->
  exists k, 0 <= k /\ t = first_candidate after + k * Time.Minute.
Proof.
  unfold whole_minute, first_candidate, Truncate, Time.Add.
  pose proof (Z.div_mod after Time.Minute ltac:(done)).
  pose proof (Z.mod_pos_bound after Time.Minute ltac:(done)).
  split.
  - intros [Hm Hlt]. pose proof (Z.div_mod t Time.Minute ltac:(done)).
    exists (t / Time.Minute - after / Time.Minute - 1). unfold Time.Minute in *. lia.
  - intros (k & Hk & ->). split; [|unfold Time.Minute in *; lia].
    replace (_ + k * Time.Minute) with ((after / Time.Minute + 1 + k) * Time.Minute) by lia.
    by apply Z.mod_mul.
Qed.

(** ** Days on which a rule runs *)

Definition on_day (r : Rule) (n : Z) : Prop :=
  let d := date_of n in
  match kind r with
  | ruleDaily => True
  | ruleWeekly => weekday_of n = weekday r
  | ruleMonthly => Day d = monthDay r
  | ruleLastDayOfMonth => Day d = month_days (Year d) (Month d)
  | _ => False
  end.

Lemma occurs_on_day r loc t :
  occurs r loc t <->
  Hour loc t = hour (at_ r) /\ Minute loc t = minute (at_ r) /\ on_day r (local loc t / 86400).
Proof. done. Qed.

(** A rule runs on some day of every eight hundred. *)
Lemma day_exists r n0 : calendar r -> in_range r ->
  exists n, n0 < n <= n0 + 800 /\ on_day r n.
Proof.
  unfold on_day, in_range. pose proof (year_of_spec n0) as Hy.
  set (y := year_of n0) in *. pose proof (year_length y) as Hlen.
  pose proof (year_length (y + 1)) as Hlen'.
  assert (forall m d, is_date (y + 1) m d ->
            n0 < days_of (y + 1) m d <= n0 + 800) as Hin.
  { intros m d [Hm Hd]. rewrite days_of_valid by done.
    pose proof (month_start_bounds (y + 1) m Hm). pose proof (month_days_bounds (y + 1) m).
    destruct (leap y), (leap (y + 1)); lia. }
  intros [E|[E|[E|E]]] Hr; rewrite E in *.
  - exists (n0 + 1). split; [lia|done].
  - exists (n0 + 1 + (weekday r - (n0 + 2)) mod 7). unfold weekday_of.
    clear -Hr. split; euclid.
  - assert (is_date (y + 1) 1 (monthDay r)) as Hd by (split; simpl; lia).
    exists (days_of (y + 1) 1 (monthDay r)). split; [by apply Hin|].
    by rewrite date_of_days.
  - assert (is_date (y + 1) 12 31) as Hd by (split; simpl; lia).
    exists (days_of (y + 1) 12 31). split; [by apply Hin|]. by rewrite date_of_days.
Qed.

(** In a location that keeps its offset, an occurrence is never far away. *)
Lemma occurrence_exists r loc o c : calendar r -> in_range r ->
  validateTimeOfDay (at_ r) = Ok tt -> constant_offset o loc ->
  exists t, whole_minute t /\ c < t <= c + 1000 * 86400 * Time.Second /\ occurs r loc t.
Proof.
  intros Hc Hr (_ & Hh & Hm)%validateTimeOfDay_ok Ho.
  destruct (day_exists r (local loc c / 86400) Hc Hr) as (n & Hn & Hday).
  destruct (wall_clock o loc n _ _ Ho Hh Hm) as (Hw & Hl & Hhour & Hmin).
  set (t := _ * Time.Second) in *. exists t. split; [done|]. split.
  - rewrite (local_constant o) in Hn, Hl by done. clear -Hn Hl.
    pose proof (Z.div_mod c Time.Second ltac:(done)). pose proof (Z.mod_pos_bound c Time.Second ltac:(done)).
    pose proof (Z.div_mod t Time.Second ltac:(done)). pose proof (Z.mod_pos_bound t Time.Second ltac:(done)).
    pose proof (Z.div_mod (c / Time.Second + o) 86400 ltac:(done)).
    pose proof (Z.mod_pos_bound (c / Time.Second + o) 86400 ltac:(done)).
    pose proof (Z.div_mod (t / Time.Second + o) 86400 ltac:(done)).
    pose proof (Z.mod_pos_bound (t / Time.Second + o) 86400 ltac:(done)).
    unfold Time.Second in *. lia.
  - rewrite occurs_on_day, Hhour, Hmin, Hl. done.
Qed.

Lemma interval_positive {ParseCron} r : validateRule ParseCron r = Ok tt ->
  kind r = ruleEvery -> 1000 <= interval r.
Proof.
  unfold validateRule. intros H E. rewrite E in H. unfold badInterval, Time.Microsecond in H.
  destruct (Z.ltb_spec (interval r) 1000); [done|lia].
Qed.

Section next.
Context (LoadLocation : string -> option Location) (ParseCron : string -> option RawSchedule).
#[local] Abbreviation Validate := (Validate LoadLocation ParseCron).
#[local] Abbreviation Next := (Next LoadLocation ParseCron).

Lemma Next_calendar s loc after : Validate s = Ok tt -> location s = Some loc ->
  calendar (rule s) ->
  exists p, matcher (rule s) = Some p
    /\ Next s after =
       match search (p loc) (search_fuel (first_candidate after) (AddYears 5 (first_candidate after)))
               (first_candidate after) (AddYears 5 (first_candidate after)) with
       | Some t => Ok t
       | None => Err ErrNoOccurrence
       end.
Proof.
  intros Hv Hl Hc. unfold CronSchedule.Next. rewrite Hv, Hl. cbn [result_bind]. unfold matcher.
  destruct Hc as [E|[E|[E|E]]]; rewrite E; eexists; split; done.
Qed.

(** C17: a calendar schedule runs at its first occurrence.  [Next] returns an instant
    exactly when it is the earliest whole minute after the given one at which the
    rule's civil time, weekday or day of month is reached in the schedule's
    location, no later than five years on; and it fails exactly when there is none
    in that time.  A rule for the last day of the month needs a location in which
    every month's last day is found at its midnight ([month_ends], which fixed
    offsets have and [last_day_runs_early] shows to be needed). *)
Theorem Next_first_occurrence (s : Schedule) (loc : Location) (after : Time.t)
  (Hv : Validate s = Ok tt) (Hloc : location s = Some loc) (Hc : calendar (rule s))
  (Hends : kind (rule s) = ruleLastDayOfMonth -> month_ends loc) :
  let horizon := AddYears 5 (first_candidate after) in
  let run t := whole_minute t /\ after < t /\ occurs (rule s) loc t in
  (forall t, Next s after = Ok t <->
     run t /\ t <= horizon /\ forall t', run t' -> t <= t')
  /\ (Next s after = Err ErrNoOccurrence <-> forall t, run t -> horizon < t).
Proof.
  intros horizon run.
  destruct (Next_calendar s loc after Hv Hloc Hc) as (p & Hp & ->).
  destruct (matcher_occurs (rule s) loc Hc Hends) as (p' & Hp' & Hocc).
  rewrite Hp in Hp'. injection Hp' as <-. fold horizon. set (c := first_candidate after) in *.
  assert (forall t, run t <-> exists k, 0 <= k /\ t = c + k * Time.Minute /\ p loc t = true)
    as Hrun.
  { intros t. unfold run. rewrite <-Hocc. pose proof (candidates after t) as Hk. fold c in Hk.
    naive_solver. }
  assert (0 < Time.Minute) as Hmin by done.
  destruct (search (p loc) _ c horizon) as [t0|] eqn:Es.
  - apply search_Some in Es as (k & Hk & Et & Hle & Hpt & Hfirst).
    assert (forall t', run t' -> t0 <= t') as Hleast.
    { intros t' (j & Hj & -> & Hpj)%Hrun. destruct (decide (j < k)); [|nia].
      by rewrite Hfirst in Hpj. }
    assert (run t0) as Hr by (apply Hrun; eauto).
    split; [|split; [done|intros H; specialize (H t0 Hr); lia]].
    intros t. split; [by intros [= <-]|]. intros (Ht & _ & Hl). f_equal.
    specialize (Hleast t Ht). specialize (Hl t0 Hr). lia.
  - pose proof (search_None _ _ _ _ (search_fuel_enough c horizon) Es) as Hnone.
    assert (forall t, run t -> horizon < t) as Hno.
    { intros t (k & Hk & -> & Hpt)%Hrun. destruct (decide (c + k * Time.Minute <= horizon)); [|lia].
      by rewrite Hnone in Hpt. }
    split; [|by split]. intros t. split; [done|]. intros (Hr & Hle & _).
    specialize (Hno t Hr). lia.
Qed.

(** Calendar schedules never run out.  In a location with a constant offset, as
    UTC is, [Next] of every valid schedule built from a daily, weekly, monthly or
    last-day rule returns an instant, at most a thousand days ahead: the five-year
    bound of the search is never what ends it. *)
Theorem Next_total (s : Schedule) (loc : Location) (o : Z) (after : Time.t)
  (Hd : declared s) (Hv : Validate s = Ok tt) (Hloc : location s = Some loc)
  (Ho : constant_offset o loc) (Hc : calendar (rule s)) :
  exists t, Next s after = Ok t /\ after < t <= after + 1001 * 86400 * Time.Second.
Proof.
  destruct (Next_calendar s loc after Hv Hloc Hc) as (p & Hp & ->).
  destruct (matcher_occurs (rule s) loc Hc) as (p' & Hp' & Hocc);
    [by intros _; eapply month_ends_constant|].
  rewrite Hp in Hp'. injection Hp' as <-.
  apply Validate_ok in Hv as [loc' V]. pose proof (declared_fluent s Hd) as Hf.
  pose proof (fluent_in_range _ Hf (vs_err _ _ _ _ V)) as Hr.
  assert (validateTimeOfDay (at_ (rule s)) = Ok tt) as Hat.
  { pose proof (vs_rule _ _ _ _ V) as Hvr. unfold validateRule in Hvr.
    by destruct Hc as [E|[E|[E|E]]]; rewrite E in Hvr. }
  set (c := first_candidate after).
  assert (after < c <= after + Time.Minute) as Hca.
  { unfold c, first_candidate, Truncate, Time.Add.
    pose proof (Z.mod_pos_bound after Time.Minute ltac:(done)). lia. }
  destruct (occurrence_exists (rule s) loc o c Hc Hr Hat Ho) as (t & Hw & Hct & Hot).
  destruct (proj1 (candidates after t) ltac:(split; [done|lia])) as (k & Hk & Et). fold c in Et.
  apply Hocc in Hot. pose proof (AddYears_5 c). rewrite Et in *.
  destruct (search _ _ _ _) as [t0|] eqn:Es.
  - exists t0. split; [done|]. apply search_Some in Es as (j & Hj & -> & _ & _ & Hfirst).
    destruct (decide (k < j)); [by rewrite Hfirst in Hot|].
    unfold Time.Minute, Time.Second in *. lia.
  - exfalso. pose proof (search_None _ _ _ _ (search_fuel_enough _ _) Es k Hk) as Hn.
    rewrite Hn in Hot; [done|]. unfold Time.Minute, Time.Second in *. lia.
Qed.

(** Intervals keep their cadence.  [Next] of a valid interval schedule returns the
    first point strictly after the given instant among the anchor (the Unix epoch
    without one) and its multiples, as long as the distance to the anchor and one
    more interval fit a [time.Duration] (292 years); so the cadence does not
    depend on when it is asked. *)
Theorem Next_keeps_cadence (s : Schedule) (after : Time.t)
  (Hv : Validate s = Ok tt) (Hk : kind (rule s) = ruleEvery) :
  let a := if hasAnchor s then anchor s else epoch in
  let d := interval (rule s) in
  after - a + d <= max_int64 ->
  exists t, Next s after = Ok t /\ after < t /\ (exists k, 0 <= k /\ t = a + k * d)
    /\ forall k, 0 <= k -> after < a + k * d -> t <= a + k * d.
Proof.
  intros a d Hb. exists (next_every s after).
  unfold CronSchedule.Next. rewrite Hv. cbn [result_bind].
  apply Validate_ok in Hv as [loc V]. rewrite (vs_location _ _ _ _ V), decide_True by done.
  pose proof (interval_positive _ (vs_rule _ _ _ _ V) Hk) as Hd. fold d in Hd.
  split; [done|]. unfold next_every. fold a d. unfold Time.Before.
  destruct (Z.ltb_spec after a) as [Hlt|Hle].
  { split; [done|]. split; [by exists 0; lia|]. intros k Hk0. nia. }
  assert (min_int64 < 0 < max_int64) as [Hmin Hmax] by (by vm_compute).
  unfold Time.Sub. rewrite i64_clamp_id by lia. rewrite Z.quot_div_nonneg by lia.
  pose proof (Z.div_mod (after - a) d ltac:(lia)) as Hq.
  pose proof (Z.mod_pos_bound (after - a) d ltac:(lia)) as Hr.
  set (q := (after - a) / d) in *. clearbody q.
  assert (0 <= q) by nia. assert (q + 1 <= (q + 1) * d) by nia.
  rewrite (i64_wrap_id (q + 1)), i64_wrap_id by lia. unfold Time.Add.
  split; [lia|]. split; [exists (q + 1); split; [lia|done]|]. intros k Hk0 Hafter.
  assert (q < k) by nia. assert ((q + 1) * d <= k * d) by nia. lia.
Qed.
End next.

(** ** The last day of a month whose midnight is skipped *)

(** Atlantic/Azores in 2024: summer time starts on Sunday 31 March at 01:00 UTC, so
    the clock goes from 00:00 to 01:00, and ends on 27 October. *)
Definition Azores : Location :=
  Zone "Atlantic/Azores" (-3600)
    [(days_of 2024 3 31 * 86400 + 3600, 0); (days_of 2024 10 27 * 86400 + 3600, -3600)].

Definition zoneinfo (name : string) : option Location :=
  if decide (name = "Atlantic/Azores") then Some Azores
  else if decide (name = "UTC") then Some UTC else None.
Definition no_cron (expression : string) : option RawSchedule := None.

Definition at_UTC (y m d h mi : Z) : Time.t := Date y m d (h * 3600 + mi * 60) 0 UTC.

Definition month_end_noon : Schedule :=
  In (Some Azores) (Spec (LastDayOfMonth Noon)).

(** [LastDayOfMonth] can run a day early and not on the last day.  In the Azores
    the midnight of 31 March 2024 does not exist; [lastDay] asks [time.Date] for it
    and reads the day of an instant an hour before.  The schedule runs at noon of
    the 30th, and noon of the 31st does not match. *)
Theorem last_day_runs_early :
  CronSchedule.Validate zoneinfo no_cron month_end_noon = Ok tt
  /\ CronSchedule.Next zoneinfo no_cron month_end_noon (at_UTC 2024 3 30 12 58)
     = Ok (at_UTC 2024 3 30 13 0)
  /\ Date_of Azores (at_UTC 2024 3 30 13 0) = mkDate 2024 3 30
  /\ ~ occurs (rule month_end_noon) Azores (at_UTC 2024 3 30 13 0)
  /\ occurs (rule month_end_noon) Azores (at_UTC 2024 3 31 12 0)
  /\ (p ← matcher (rule month_end_noon); Some (p Azores (at_UTC 2024 3 31 12 0))) = Some false.
Proof.
  split; [by vm_compute|]. split; [by vm_compute|]. split; [by vm_compute|].
  split; [|split; [by vm_compute|by vm_compute]].
  assert (Date_of Azores (at_UTC 2024 3 30 13 0) = mkDate 2024 3 30) as E by (by vm_compute).
  intros (_ & _ & H). cbn [rule month_end_noon In update Spec kind LastDayOfMonth] in H.
  rewrite E in H. discriminate H.
Qed.

(** More than 292 years after its anchor an interval schedule stands still: the
    elapsed time saturates and the next instant it names is in the past. *)
Lemma interval_stops_after_292_years :
  let s := Spec (Every (3600 * Time.Second)) in
  CronSchedule.Validate zoneinfo no_cron s = Ok tt
  /\ exists t, CronSchedule.Next zoneinfo no_cron s (at_UTC 2300 1 1 0 0) = Ok t
       /\ t <= at_UTC 2300 1 1 0 0.
Proof. split; [by vm_compute|]. eexists. split; [by vm_compute|by vm_compute]. Qed.

(** ** Witnesses *)

Definition daily_three : Schedule := Spec (Daily (AM (At 3 [30]))).

Lemma Next_first_occurrence_witness :
  exists t, CronSchedule.Next zoneinfo no_cron daily_three (at_UTC 2024 2 28 3 28) = Ok t
    /\ whole_minute t /\ occurs (rule daily_three) UTC t.
Proof.
  destruct (Next_first_occurrence zoneinfo no_cron daily_three UTC (at_UTC 2024 2 28 3 28))
    as [H _]; [by vm_compute|done|by left|done|].
  destruct (CronSchedule.Next zoneinfo no_cron daily_three (at_UTC 2024 2 28 3 28))
    as [t|e] eqn:E.
  2:{ assert (is_ok (CronSchedule.Next zoneinfo no_cron daily_three (at_UTC 2024 2 28 3 28))
        = true) as Hok by (by vm_compute). rewrite E in Hok. discriminate Hok. }
  exists t. destruct (proj1 (H t) eq_refl) as [(Hw & _ & Ho) _].
  split; [reflexivity|]. split; [exact Hw|exact Ho].
Defined.

Lemma Next_total_witness :
  exists t, CronSchedule.Next zoneinfo no_cron (Spec (Monthly 31 Midnight)) (at_UTC 2024 2 1 0 0)
            = Ok t /\ at_UTC 2024 2 1 0 0 < t.
Proof.
  destruct (Next_total zoneinfo no_cron (Spec (Monthly 31 Midnight)) UTC 0 (at_UTC 2024 2 1 0 0))
    as (t & Ht & Hb & _).
  - apply declared_Spec, fluent_Monthly.
  - by vm_compute.
  - done.
  - done.
  - right. right. by left.
  - exists t. split; [exact Ht|exact Hb].
Defined.

Lemma Next_keeps_cadence_witness :
  exists t, CronSchedule.Next zoneinfo no_cron (Spec (Every (3600 * Time.Second)))
              (at_UTC 2024 2 1 0 0) = Ok t /\ at_UTC 2024 2 1 0 0 < t.
Proof.
  destruct (Next_keeps_cadence zoneinfo no_cron (Spec (Every (3600 * Time.Second)))
              (at_UTC 2024 2 1 0 0)) as (t & Ht & Hb & _).
  - by vm_compute.
  - done.
  - by vm_compute.
  - exists t. split; [exact Ht|exact Hb].
Defined.
