(* ===== verification/CronDefinition.v ===== *)
(** * Schedules and their persisted form

    [Definition] and [ScheduleFromDefinition] of [pkg/cron/schedule.go] as a pair:
    what is stored for a schedule restores the schedule. *)

From stdpp Require Import pretty.
From S2P Require Import Prelude.
From S2P Require Import GoStd.
From S2P Require Import GoTime.
From S2P Require Import CronSchedule.

Open Scope Z_scope.

(** Restoring a raw rule keeps its fields, not its spacing. *)
Definition normal_rule (r : Rule) : Rule :=
  match kind r with ruleRaw => r <| raw ::= normalizeRaw |> | _ => r end.
Definition normal (s : Schedule) : Schedule := s <| rule ::= normal_rule |>.

Lemma normalizeRaw_idem e : TrimSpace (normalizeRaw e) = normalizeRaw e
  /\ normalizeRaw (normalizeRaw e) = normalizeRaw e.
Proof.
  destruct (Fields_Join e) as [Ht Hf]. split; [exact Ht|]. unfold normalizeRaw in *.
  by rewrite Hf.
Qed.

(** A declared schedule is its rule, its location and its anchor. *)
Definition anchored (s : Schedule) (r : Rule) : Schedule :=
  if hasAnchor s then Anchor (anchor s) (Spec r) else Spec r.

Lemma normal_declared s loc : declared s -> location s = Some loc ->
  normal s = In (Some loc) (anchored s (normal_rule (rule s))).
Proof.
  intros Hd. destruct (declared_anchor s Hd) as [Ha Hn]. clear Hd. revert Ha Hn.
  unfold normal, anchored. destruct s as [r l a h]; cbn. intros Ha Hn ->.
  destruct h; unfold Anchor, In, Spec, update; cbn; [by rewrite Ha|by rewrite Hn].
Qed.

Section restoring.
Context (LoadLocation : string -> option Location)
        (duration_String : Time.Duration -> string)
        (ParseCron : string -> option RawSchedule).
#[local] Abbreviation Validate := (Validate LoadLocation ParseCron).
#[local] Abbreviation Canonical := (Canonical LoadLocation duration_String ParseCron).
#[local] Abbreviation Next := (Next LoadLocation ParseCron).
#[local] Abbreviation Definition_ := (Definition_ LoadLocation duration_String ParseCron).
#[local] Abbreviation ScheduleFromDefinition :=
  (ScheduleFromDefinition LoadLocation duration_String ParseCron).

Lemma parseRaw_normal e : parseRaw ParseCron (normalizeRaw e) = parseRaw ParseCron e.
Proof. unfold parseRaw. by rewrite (proj2 (normalizeRaw_idem e)). Qed.

(** A rule is left alone unless it is raw. *)
Lemma normal_rule_cases r :
  normal_rule r = r \/ (kind r = ruleRaw /\ normal_rule r = r <| raw ::= normalizeRaw |>).
Proof. unfold normal_rule. destruct (kind r) eqn:E; auto. Qed.

Lemma validateRule_normal r :
  validateRule ParseCron (normal_rule r) = validateRule ParseCron r.
Proof.
  destruct (normal_rule_cases r) as [->|[E ->]]; [done|]. unfold validateRule. cbn [kind update].
  rewrite E. cbn [raw update]. by rewrite parseRaw_normal.
Qed.

Lemma normal_rule_kind r :
  kind (normal_rule r) = kind r /\ rule_err (normal_rule r) = rule_err r
  /\ at_ (normal_rule r) = at_ r /\ weekday (normal_rule r) = weekday r
  /\ monthDay (normal_rule r) = monthDay r /\ interval (normal_rule r) = interval r.
Proof. by destruct (normal_rule_cases r) as [->|[_ ->]]. Qed.

Lemma Validate_normal s : Validate (normal s) = Validate s.
Proof.
  destruct (normal_rule_kind (rule s)) as (Hk & He & _).
  unfold CronSchedule.Validate, normal. cbn [rule location hasAnchor anchor update].
  by rewrite validateRule_normal, Hk, He.
Qed.

Lemma canonical_normal r :
  canonical_rule duration_String (normal_rule r) = canonical_rule duration_String r.
Proof.
  destruct (normal_rule_cases r) as [->|[E ->]]; [done|]. unfold canonical_rule. cbn [kind update].
  rewrite E. cbn [raw update]. by rewrite (proj2 (normalizeRaw_idem _)).
Qed.

Lemma Canonical_normal s : Canonical (normal s) = Canonical s.
Proof.
  unfold CronSchedule.Canonical. rewrite Validate_normal. unfold normal. cbn [rule update].
  by rewrite canonical_normal.
Qed.

Lemma Definition_normal s : Definition_ (normal s) = Definition_ s.
Proof.
  destruct (normal_rule_kind (rule s)) as (Hk & _ & Ha & Hw & Hm & Hi).
  unfold CronSchedule.Definition_. rewrite Validate_normal, Canonical_normal.
  unfold normal. cbn [rule location hasAnchor anchor update]. by rewrite Hk, Ha, Hw, Hm, Hi.
Qed.

Lemma Next_normal s after : Next (normal s) after = Next s after.
Proof.
  unfold CronSchedule.Next. rewrite Validate_normal. unfold normal, next_every.
  cbn [rule location hasAnchor anchor update].
  destruct (normal_rule_cases (rule s)) as [->|[E ->]]; [done|]. cbn [kind raw interval update].
  rewrite E. by rewrite parseRaw_normal.
Qed.

(** What a valid time of day is, said again by [At24]. *)
Lemma At24_again a : validateTimeOfDay a = Ok tt -> At24 (hour a) [minute a] = a.
Proof.
  intros (He & Hh & Hm)%validateTimeOfDay_ok. destruct a as [h m e]; cbn in *. subst e.
  unfold At24, validateClockInput. cbn [length]. rewrite decide_False by lia.
  destruct (Z.ltb_spec h 0), (Z.ltb_spec 23 h), (Z.ltb_spec m 0), (Z.ltb_spec 59 m);
    try lia; done.
Qed.

(** The rule of a valid declared schedule, rebuilt from its definition. *)
Lemma rule_again s d loc : declared s -> validated LoadLocation ParseCron s loc ->
  Definition_ s = Ok d -> rule_of_definition d = Ok (normal_rule (rule s)).
Proof.
  intros Hd V. unfold CronSchedule.Definition_. intros (_ & _ & H)%bind_ok.
  apply bind_ok in H as (canonical & Hcan & [= <-]).
  apply bind_ok in Hcan as (_ & _ & Hcan).
  pose proof (vs_rule _ _ _ _ V) as Hr. unfold validateRule in Hr.
  unfold normal_rule, rule_of_definition.
  destruct (declared_fluent s Hd) as [a|w a|m a|a|i|e]; cbn -[normalizeRaw TrimSpace At24] in *;
    try (rewrite At24_again by done); try done.
  injection Hcan as <-. cbn -[normalizeRaw TrimSpace]. unfold Raw. by rewrite (proj1 (normalizeRaw_idem _)).
Qed.

(** A schedule survives persistence.  For a schedule built with the declaration
    functions, in a location the zone database knows by its name, the projection
    that [Definition] returns is accepted by [ScheduleFromDefinition] and gives the
    schedule back, with only the spacing of a raw expression normalised: the
    restored schedule has the same projection and runs at the same instants. *)
Theorem definition_restores (s : Schedule) (loc : Location) (d : ScheduleDefinition)
  (Hs : declared s) (Hloc : location s = Some loc)
  (Hzone : LoadLocation (loc_name loc) = Some loc) (Hname : loc_name loc <> "")
  (Hd : Definition_ s = Ok d) :
  ScheduleFromDefinition d = Ok (normal s)
  /\ Definition_ (normal s) = Ok d
  /\ forall after, Next (normal s) after = Next s after.
Proof.
  split; [|split; [by rewrite Definition_normal|intros; apply Next_normal]].
  pose proof Hd as Hd'. unfold CronSchedule.Definition_ in Hd'.
  apply bind_ok in Hd' as ([] & Hv & H). apply bind_ok in H as (canonical & Hcan & Hd').
  apply Validate_ok in Hv as Hex. destruct Hex as [loc' V].
  pose proof (rule_again s d loc' Hs V Hd) as Hr.
  injection Hd' as <-. unfold CronSchedule.ScheduleFromDefinition.
  rewrite Hr. cbn [Timezone HasAnchor d_Anchor Canonical_ result_bind]. rewrite Hloc.
  rewrite bool_decide_false by done. cbn [negb]. rewrite Hzone.
  assert ((if hasAnchor s then Anchor (anchor s) (In (Some loc) (Spec (normal_rule (rule s))))
           else In (Some loc) (Spec (normal_rule (rule s)))) = normal s) as ->.
  { rewrite (normal_declared s loc) by done. unfold anchored. by destruct (hasAnchor s). }
  rewrite Validate_normal, Hv, Canonical_normal, Hcan. cbn [result_bind].
  rewrite (bool_decide_true (canonical = canonical)) by done. by rewrite andb_false_r.
Qed.
End restoring.
Close Scope Z_scope.

(** ** Witness *)

Definition utc_only (name : string) : option Location :=
  if decide (name = "UTC") then Some UTC else None.
Definition accept_all (expression : string) : option RawSchedule := Some (fun _ t => t).

Lemma definition_restores_witness :
  exists d, Definition_ utc_only pretty accept_all (Spec (Raw " 0  3 * * 1 ")) = Ok d
    /\ Canonical_ d = "0 3 * * 1"
    /\ ScheduleFromDefinition utc_only pretty accept_all d = Ok (Spec (Raw "0 3 * * 1")).
Proof.
  destruct (Definition_ utc_only pretty accept_all (Spec (Raw " 0  3 * * 1 "))) as [d|e] eqn:E;
    [|vm_compute in E; discriminate E].
  exists d. split; [done|].
  destruct (definition_restores utc_only pretty accept_all (Spec (Raw " 0  3 * * 1 ")) UTC d)
    as [H _]; [apply declared_Spec, fluent_Raw|done|done|done|exact E|].
  split; [by vm_compute in E; injection E as <-|]. rewrite H. by vm_compute.
Defined.
