(* ===== verification/CronContract.v ===== *)
(** * The cron boundary messages

    [pkg/cron/contract/schedule.go] with the generated refinements of
    [pkg/cron/v1/cron_liquid.pb.go] it calls: schedules to and from their protobuf
    form.  Message pointers and the arms of the [oneof] are options.
    [timestamppb] is a parameter, as in [WardenWire]. *)

From Stdlib Require Import Ascii.
From stdpp Require Import pretty.
From S2P Require Import Prelude.
From S2P Require Import GoStd.
From S2P Require Import GoTime.
From S2P Require Import CronSchedule.
From S2P Require Import CronDefinition.

Open Scope Z_scope.

(** ** Messages *)

Module V1.
Section messages.
Context {Timestamp : Type}.

Record TimeOfDay := mkTimeOfDay { Hour : Z; Minute : Z }.
Record DailySchedule := mkDaily { daily_At : option TimeOfDay }.
Record WeeklySchedule := mkWeekly { Weekday : Z; weekly_At : option TimeOfDay }.
Record MonthlyDaySchedule := mkMonthlyDay { DayOfMonth : Z; monthly_At : option TimeOfDay }.
Record MonthlyLastDaySchedule := mkMonthlyLastDay { last_At : option TimeOfDay }.
Record IntervalSchedule := mkInterval {
  IntervalNanoseconds : Z; interval_Anchor : option Timestamp }.
Record RawCronSchedule := mkRawCron { Dialect : Z; Expression : string }.

(** The arms of the [oneof]; each holds a pointer. *)
Inductive rule :=
| Daily (m : option DailySchedule)
| Weekly (m : option WeeklySchedule)
| MonthlyDay (m : option MonthlyDaySchedule)
| MonthlyLastDay (m : option MonthlyLastDaySchedule)
| Interval (m : option IntervalSchedule)
| RawCron (m : option RawCronSchedule).

Record ScheduleSpec := mkScheduleSpec { Timezone : string; Rule : option rule }.
End messages.
Arguments IntervalSchedule : clear implicits.
Arguments rule : clear implicits.
Arguments ScheduleSpec : clear implicits.

Definition CRON_DIALECT_ROBFIG_STANDARD : Z := 1.
Definition WEEKDAY_SUNDAY : Z := 1.
Definition WEEKDAY_SATURDAY : Z := 7.
End V1.

Inductive contract_error :=
| ErrDomain (e : error) | ErrWeekdayRange (day : Z) | ErrUnsupportedKind (kind : string)
| ErrScheduleRequired | ErrScalar | ErrTimezone (name : string) | ErrRuleRequired
| ErrArmRequired | ErrWeekdayUnspecified | ErrTimeRequired | ErrTimeRefinement
| ErrMonthlyDay | ErrIntervalRefinement | ErrAnchor | ErrRawRefinement | ErrDialect
| ErrSemantics (e : error).

(** ** Generated refinements *)

(** [^[A-Za-z0-9_+.-]+(/[A-Za-z0-9_+.-]+)*$] *)
Definition zone_char (c : ascii) : bool :=
  let n := Z.of_nat (nat_of_ascii c) in
  ((65 <=? n) && (n <=? 90)) || ((97 <=? n) && (n <=? 122)) || ((48 <=? n) && (n <=? 57))
  || bool_decide (c ∈ ["_"; "+"; "."; "-"]%char).
Definition zone_segment (w : string) : bool :=
  negb (bool_decide (w = ""))
  && bool_decide (Forall (fun c => zone_char c = true) (String.list_ascii_of_string w)).
Definition zone_name (s : string) : bool :=
  bool_decide (Forall (fun w => zone_segment w = true) (Split "/" s)).

Definition in_length (lo hi : nat) (s : string) : bool :=
  (lo <=? String.length s)%nat && (String.length s <=? hi)%nat.

Definition ValidateTimeOfDay (m : V1.TimeOfDay) : bool :=
  (V1.Hour m <=? 23) && (V1.Minute m <=? 59).
Definition ValidateMonthlyDaySchedule (m : V1.MonthlyDaySchedule) : bool :=
  (1 <=? V1.DayOfMonth m) && (V1.DayOfMonth m <=? 31).
Definition ValidateIntervalSchedule {T} (m : V1.IntervalSchedule T) : bool :=
  1000 <=? V1.IntervalNanoseconds m.
Definition ValidateRawCronSchedule (m : V1.RawCronSchedule) : bool :=
  in_length 1 256 (V1.Expression m).
Definition ValidateScheduleSpec {T} (m : V1.ScheduleSpec T) : bool :=
  in_length 1 128 (V1.Timezone m) && zone_name (V1.Timezone m).

(** ** Fields *)

Definition uint32 (z : Z) : Z := z mod 4294967296.

Definition timeOfDay (m : option V1.TimeOfDay) : result contract_error TimeOfDay :=
  match m with
  | None => Err ErrTimeRequired
  | Some m =>
      guard! ValidateTimeOfDay m else ErrTimeRefinement in
      Ok (At24 (V1.Hour m) [V1.Minute m])
  end.

Definition weekdayToProto (day : Z) : result contract_error Z :=
  guard! negb ((day <? 0) || (6 <? day)) else ErrWeekdayRange day in Ok (day + 1).

Definition weekdayFromProto (day : Z) : result contract_error Z :=
  guard! negb ((day <? V1.WEEKDAY_SUNDAY) || (V1.WEEKDAY_SATURDAY <? day))
    else ErrWeekdayUnspecified in
  Ok (day - 1).

(** ** Schedules *)

Section contract.
Context (LoadLocation : string -> option Location)
        (duration_String : Time.Duration -> string)
        (ParseCron : string -> option RawSchedule)
        {Timestamp : Type} (ts_New : Time.t -> Timestamp) (ts_AsTime : Timestamp -> Time.t)
        (ts_CheckValid : Timestamp -> bool).

(** The switch of [ScheduleFromProto]. *)
Definition schedule_of_arm (r : V1.rule Timestamp) : result contract_error Schedule :=
  match r with
  | V1.Daily m =>
      let! a := timeOfDay (m ≫= V1.daily_At) in Ok (Spec (Daily a))
  | V1.Weekly m =>
      match m with
      | None => Err ErrArmRequired
      | Some m =>
          let! day := weekdayFromProto (V1.Weekday m) in
          let! a := timeOfDay (V1.weekly_At m) in
          Ok (Spec (Weekly day a))
      end
  | V1.MonthlyDay m =>
      match m with
      | None => Err ErrArmRequired
      | Some m =>
          guard! ValidateMonthlyDaySchedule m else ErrMonthlyDay in
          let! a := timeOfDay (V1.monthly_At m) in
          Ok (Spec (Monthly (V1.DayOfMonth m) a))
      end
  | V1.MonthlyLastDay m =>
      let! a := timeOfDay (m ≫= V1.last_At) in Ok (Spec (LastDayOfMonth a))
  | V1.Interval m =>
      match m with
      | None => Err ErrArmRequired
      | Some m =>
          guard! ValidateIntervalSchedule m else ErrIntervalRefinement in
          let s := Spec (Every (V1.IntervalNanoseconds m)) in
          match V1.interval_Anchor m with
          | None => Ok s
          | Some ts =>
              guard! ts_CheckValid ts else ErrAnchor in
              Ok (Anchor (ts_AsTime ts) s)
          end
      end
  | V1.RawCron m =>
      match m with
      | None => Err ErrArmRequired
      | Some m =>
          guard! ValidateRawCronSchedule m else ErrRawRefinement in
          guard! V1.Dialect m =? V1.CRON_DIALECT_ROBFIG_STANDARD else ErrDialect in
          Ok (Spec (Raw (V1.Expression m)))
      end
  end.

Definition ScheduleFromProto (message : option (V1.ScheduleSpec Timestamp))
  : result contract_error Schedule :=
  match message with
  | None => Err ErrScheduleRequired
  | Some message =>
      guard! ValidateScheduleSpec message else ErrScalar in
      match LoadLocation (V1.Timezone message) with
      | None => Err (ErrTimezone (V1.Timezone message))
      | Some loc =>
          match V1.Rule message with
          | None => Err ErrRuleRequired
          | Some r =>
              let! s := schedule_of_arm r in
              let s := In (Some loc) s in
              match Validate LoadLocation ParseCron s with
              | Ok _ => Ok s
              | Err e => Err (ErrSemantics e)
              end
          end
      end
  end.

Definition ValidateSchedule (message : option (V1.ScheduleSpec Timestamp))
  : result contract_error unit :=
  let! _ := ScheduleFromProto message in Ok tt.

(** The switch of [ScheduleToProto]. *)
Definition arm_of_definition (d : ScheduleDefinition)
  : result contract_error (V1.rule Timestamp) :=
  let a := Some (V1.mkTimeOfDay (uint32 (d_Hour d)) (uint32 (d_Minute d))) in
  if decide (Kind d = ScheduleKindDaily) then Ok (V1.Daily (Some (V1.mkDaily a)))
  else if decide (Kind d = ScheduleKindWeekly) then
    let! weekday := weekdayToProto (d_Weekday d) in
    Ok (V1.Weekly (Some (V1.mkWeekly weekday a)))
  else if decide (Kind d = ScheduleKindMonthly) then
    Ok (V1.MonthlyDay (Some (V1.mkMonthlyDay (uint32 (MonthDay d)) a)))
  else if decide (Kind d = ScheduleKindLastDayOfMonth) then
    Ok (V1.MonthlyLastDay (Some (V1.mkMonthlyLastDay a)))
  else if decide (Kind d = ScheduleKindEvery) then
    Ok (V1.Interval (Some (V1.mkInterval (Interval d)
          (if HasAnchor d then Some (ts_New (d_Anchor d)) else None))))
  else if decide (Kind d = ScheduleKindRaw) then
    Ok (V1.RawCron (Some (V1.mkRawCron V1.CRON_DIALECT_ROBFIG_STANDARD (Canonical_ d))))
  else Err (ErrUnsupportedKind (Kind d)).

Definition ScheduleToProto (s : Schedule)
  : result contract_error (V1.ScheduleSpec Timestamp) :=
  match Definition_ LoadLocation duration_String ParseCron s with
  | Err e => Err (ErrDomain e)
  | Ok d =>
      let! r := arm_of_definition d in
      let message := V1.mkScheduleSpec (Timezone d) (Some r) in
      let! _ := ValidateSchedule (Some message) in
      Ok message
  end.

(** ** Theorems *)

Context (ts_AsTime_New : forall t, ts_AsTime (ts_New t) = t).

Lemma uint32_id z : 0 <= z <= 59 -> uint32 z = z.
Proof. intros. unfold uint32. apply Z.mod_small. lia. Qed.

Lemma timeOfDay_again a : validateTimeOfDay a = Ok tt ->
  timeOfDay (Some (V1.mkTimeOfDay (uint32 (hour a)) (uint32 (minute a)))) = Ok a.
Proof.
  intros Ha. pose proof Ha as (_ & Hh & Hm)%validateTimeOfDay_ok.
  rewrite !uint32_id by lia. unfold timeOfDay, ValidateTimeOfDay. cbn [V1.Hour V1.Minute].
  rewrite (proj2 (Z.leb_le _ _)), (proj2 (Z.leb_le _ _)) by lia. cbn [andb].
  by rewrite At24_again.
Qed.

Lemma weekday_again day w : weekdayToProto day = Ok w -> weekdayFromProto w = Ok day.
Proof.
  unfold weekdayToProto, weekdayFromProto, V1.WEEKDAY_SUNDAY, V1.WEEKDAY_SATURDAY.
  destruct (Z.ltb_spec day 0), (Z.ltb_spec 6 day); try done. intros [= <-].
  destruct (Z.ltb_spec (day + 1) 1), (Z.ltb_spec 7 (day + 1)); try lia. simpl. f_equal. lia.
Qed.

(** The arm of a valid declared schedule, read back. *)
Lemma arm_again s loc d r s0 :
  declared s -> validated LoadLocation ParseCron s loc ->
  Definition_ LoadLocation duration_String ParseCron s = Ok d ->
  arm_of_definition d = Ok r -> schedule_of_arm r = Ok s0 ->
  s0 = anchored s (normal_rule (rule s)).
Proof.
  intros Hd V. unfold Definition_. intros (_ & _ & H)%bind_ok.
  apply bind_ok in H as (canonical & Hcan & [= <-]).
  apply bind_ok in Hcan as (_ & _ & Hcan).
  pose proof (vs_rule _ _ _ _ V) as Hr. pose proof (vs_err _ _ _ _ V) as He.
  pose proof (vs_anchor _ _ _ _ V) as Hanc. unfold validateRule in Hr.
  assert (kind (rule s) <> ruleEvery -> forall r', anchored s r' = Spec r') as Hplain.
  { intros Hk r'. unfold anchored. destruct (hasAnchor s); [|done]. by destruct (Hanc eq_refl). }
  unfold arm_of_definition, normal_rule.
  destruct (declared_fluent s Hd) as [a|w a|m a|a|i|e];
    cbn [kind Kind d_Hour d_Minute d_Weekday MonthDay Interval HasAnchor d_Anchor Canonical_
         kind_name Daily Weekly Monthly LastDayOfMonth Every Raw at_ weekday monthDay
         interval raw rule_err canonical_rule] in *;
    try rewrite Hplain by done;
    repeat first [rewrite decide_True by reflexivity | rewrite decide_False by discriminate].
  - intros [= <-]. unfold schedule_of_arm. cbn [mbind option_bind V1.daily_At].
    rewrite timeOfDay_again by done. by intros [= <-].
  - intros (w' & Hw & [= <-])%bind_ok. unfold schedule_of_arm. cbn [V1.Weekday V1.weekly_At].
    rewrite (weekday_again w w' Hw), timeOfDay_again by done. by intros [= <-].
  - pose proof (fluent_in_range _ (declared_fluent s Hd) (vs_err _ _ _ _ V)) as Hin.
    intros [= <-]. unfold schedule_of_arm. cbn [V1.monthly_At V1.DayOfMonth].
    intros [_ H]%guard_ok. rewrite timeOfDay_again in H by done. injection H as <-.
    rewrite uint32_id; [done|].
    apply also_None in He as [_ Hb]. apply orb_false_iff in Hb as [H1 H2].
    rewrite Z.ltb_ge in *. lia.
  - intros [= <-]. unfold schedule_of_arm. cbn [mbind option_bind V1.last_At].
    rewrite timeOfDay_again by done. by intros [= <-].
  - intros [= <-]. unfold schedule_of_arm. cbn [V1.interval_Anchor V1.IntervalNanoseconds].
    intros [_ H]%guard_ok. revert H. unfold anchored. destruct (hasAnchor s); [|by intros [= <-]].
    intros [_ [= <-]]%guard_ok. by rewrite ts_AsTime_New.
  - injection Hcan as <-. intros [= <-]. unfold schedule_of_arm. cbn [V1.Expression V1.Dialect].
    intros [_ [_ [= <-]]%guard_ok]%guard_ok. unfold Raw at 1.
    by rewrite (proj1 (normalizeRaw_idem _)).
Qed.

(** A schedule survives the wire.  For a schedule built with the declaration
    functions, in a location the zone database knows by its name, a message that
    [ScheduleToProto] returns passes the boundary's own validation and
    [ScheduleFromProto] reads the schedule back from it, with only the spacing of a
    raw expression normalised. *)
Theorem contract_restores (s : Schedule) (loc : Location) (m : V1.ScheduleSpec Timestamp)
  (Hs : declared s) (Hloc : location s = Some loc)
  (Hzone : LoadLocation (loc_name loc) = Some loc) (Hm : ScheduleToProto s = Ok m) :
  V1.Timezone m = loc_name loc
  /\ ValidateSchedule (Some m) = Ok tt
  /\ ScheduleFromProto (Some m) = Ok (normal s).
Proof.
  unfold ScheduleToProto in Hm. destruct (Definition_ _ _ _ s) as [d|] eqn:Hd; [|done].
  apply bind_ok in Hm as (r & Hr & Hm). apply bind_ok in Hm as ([] & Hval & [= <-]).
  assert (Timezone d = loc_name loc) as Htz.
  { unfold Definition_ in Hd. apply bind_ok in Hd as (_ & _ & Hd).
    apply bind_ok in Hd as (? & _ & [= <-]). cbn. by rewrite Hloc. }
  split; [done|]. split; [done|].
  pose proof Hd as Hv. unfold Definition_ in Hv. apply bind_ok in Hv as ([] & Hv & _).
  apply Validate_ok in Hv as [loc' V].
  unfold ValidateSchedule in Hval. apply bind_ok in Hval as (s' & Hfrom & _). rewrite Hfrom.
  unfold ScheduleFromProto in Hfrom. apply guard_ok in Hfrom as [_ Hfrom].
  cbn [V1.Timezone V1.Rule] in Hfrom. rewrite Htz, Hzone in Hfrom.
  apply bind_ok in Hfrom as (s0 & Harm & Hfrom).
  rewrite (arm_again s loc' d r s0 Hs V Hd Hr Harm), <-(normal_declared s loc Hs Hloc) in Hfrom.
  by destruct (Validate _ _ (normal s)); simplify_eq.
Qed.
End contract.
Close Scope Z_scope.

(** ** Witness *)

Lemma contract_restores_witness :
  exists m, ScheduleToProto utc_only pretty accept_all (fun t => t) (fun t => t) (fun _ => true)
              (Spec (Weekly 1 (PM (At 6 [30]%Z)))) = Ok m
    /\ V1.Timezone m = "UTC"
    /\ ScheduleFromProto utc_only accept_all (fun t => t) (fun _ => true) (Some m)
       = Ok (Spec (Weekly 1 (At24 18 [30]%Z))).
Proof.
  destruct (ScheduleToProto utc_only pretty accept_all (fun t => t) (fun t => t) (fun _ => true)
              (Spec (Weekly 1 (PM (At 6 [30]%Z))))) as [m|e] eqn:E;
    [|vm_compute in E; discriminate E].
  exists m. split; [reflexivity|].
  destruct (contract_restores utc_only pretty accept_all (fun t => t) (fun t => t)
    (fun _ => true) (fun _ => eq_refl) (Spec (Weekly 1 (PM (At 6 [30]%Z)))) UTC m)
    as (H1 & _ & H2); [apply declared_Spec, fluent_Weekly|reflexivity|reflexivity|exact E|].
  split; [exact H1|]. rewrite H2. reflexivity.
Defined.
