(* ===== verification/CronStore.v ===== *)
(** * The durable state of the scheduler

    [pkg/cron/store.go]: definitions, cursors and occurrence records, and the
    [MemoryStore] that keeps them.  A method holds the store's lock from its first
    read to its last write, so it is a function of the store; every return of an
    error precedes the first write, so an error carries no new store.  Instants
    carry no location here, [UTC] is the identity.  SHA-256 is a parameter, and so
    are the zone database, the rendering of durations and the robfig parser.  The
    texts an error adds to its sentinel are not modelled; each has its constructor. *)

From Stdlib Require Import Ascii.
From S2P Require Import Prelude.
From S2P Require Import GoTime.
From S2P Require Import GoFormat.
From S2P Require Import CronSchedule.

Open Scope Z_scope.

(** ** Policies *)

Definition CatchUpNone : string := "none".
Definition CatchUpLatest : string := "latest".
Definition CatchUpAll : string := "all".
Definition OverlapSkip : string := "skip".
Definition OverlapAllow : string := "allow".

Definition catchUp_valid (policy : string) : bool :=
  bool_decide (policy = CatchUpNone) || bool_decide (policy = CatchUpLatest)
  || bool_decide (policy = CatchUpAll).
Definition overlap_valid (policy : string) : bool :=
  bool_decide (policy = OverlapSkip) || bool_decide (policy = OverlapAllow).

Definition maxCatchUpLimit : Z := 2 ^ 31 - 1.

(** ** Data *)

#[export] Instance ScheduleDefinition_eq_dec : EqDecision ScheduleDefinition.
Proof. solve_decision. Defined.

Record JobDefinition := mkJobDefinition {
  d_Name : string;
  d_Schedule : ScheduleDefinition;
  CatchUp : string;
  Overlap : string;
}.
#[export] Instance JobDefinition_eq_dec : EqDecision JobDefinition.
Proof. solve_decision. Defined.
#[export] Instance Rebuild_ScheduleDefinition : Rebuild ScheduleDefinition := fun d =>
  mkDefinition (Kind d) (Timezone d) (Canonical_ d) (d_Hour d) (d_Minute d) (d_Weekday d)
    (MonthDay d) (Interval d) (d_Anchor d) (HasAnchor d).
#[export] Instance Rebuild_JobDefinition : Rebuild JobDefinition := fun d =>
  mkJobDefinition (d_Name d) (d_Schedule d) (CatchUp d) (Overlap d).

Record JobState := mkJobState {
  s_Definition : JobDefinition;
  NextRunAt : Time.t;
  CreatedAt : Time.t;
  UpdatedAt : Time.t;
}.
#[export] Instance Rebuild_JobState : Rebuild JobState := fun s =>
  mkJobState (s_Definition s) (NextRunAt s) (CreatedAt s) (UpdatedAt s).

Inductive OccurrenceStatus :=
| OccurrenceRunning | OccurrenceSucceeded | OccurrenceFailed | OccurrenceCanceled
| OccurrenceSkipped.
#[export] Instance OccurrenceStatus_eq_dec : EqDecision OccurrenceStatus.
Proof. solve_decision. Defined.

Record OccurrenceRecord := mkOccurrence {
  ID : string;
  JobName : string;
  ScheduledAt : Time.t;
  Status : OccurrenceStatus;
  Attempt : N;
  StartedAt : Time.t;
  FinishedAt : Time.t;
  LeaseOwner : string;
  LeaseToken : string;
  LeaseUntil : Time.t;
  Error : string;
  SkipReason : string;
  LastModified : Time.t;
}.
#[export] Instance Rebuild_OccurrenceRecord : Rebuild OccurrenceRecord := fun o =>
  mkOccurrence (ID o) (JobName o) (ScheduledAt o) (Status o) (Attempt o) (StartedAt o)
    (FinishedAt o) (LeaseOwner o) (LeaseToken o) (LeaseUntil o) (Error o) (SkipReason o)
    (LastModified o).

Inductive ClaimDisposition :=
| ClaimAcquired | ClaimAlreadyTerminal | ClaimLeaseHeld | ClaimSkippedOverlap.
#[export] Instance ClaimDisposition_eq_dec : EqDecision ClaimDisposition.
Proof. solve_decision. Defined.

Record ClaimRequest := mkClaim {
  c_OccurrenceID : string;
  c_JobName : string;
  c_ScheduledAt : Time.t;
  c_NextRunAt : Time.t;
  c_LeaseOwner : string;
  c_LeaseToken : string;
  ClaimedAt : Time.t;
  c_LeaseUntil : Time.t;
}.

Record ClaimResult := mkClaimResult {
  Disposition : ClaimDisposition;
  Occurrence : OccurrenceRecord;
}.

Record LeaseRenewal := mkRenewal {
  r_OccurrenceID : string;
  r_LeaseToken : string;
  RenewedAt : Time.t;
  r_LeaseUntil : Time.t;
}.

Record Completion := mkCompletion {
  e_OccurrenceID : string;
  e_LeaseToken : string;
  e_Status : OccurrenceStatus;
  e_FinishedAt : Time.t;
  e_Error : string;
}.

Record SkipRequest := mkSkip {
  k_OccurrenceID : string;
  k_JobName : string;
  k_ScheduledAt : Time.t;
  k_NextRunAt : Time.t;
  SkippedAt : Time.t;
  Reason : string;
}.

Record StoreSnapshot := mkStoreSnapshot {
  s_Jobs : list JobState;
  s_Occurrences : list OccurrenceRecord;
}.

Record MemoryStore := mkStore {
  jobs : gmap string JobState;
  occurrences : gmap string OccurrenceRecord;
}.
#[export] Instance Rebuild_MemoryStore : Rebuild MemoryStore := fun s =>
  mkStore (jobs s) (occurrences s).

Definition NewMemoryStore : MemoryStore := {| jobs := ∅; occurrences := ∅ |}.

(** Go's zero values. *)
Definition noDefinition : ScheduleDefinition :=
  {| Kind := ""; Timezone := ""; Canonical_ := ""; d_Hour := 0; d_Minute := 0;
     d_Weekday := 0; MonthDay := 0; Interval := 0; d_Anchor := 0; HasAnchor := false |}.
Definition noJob : JobState :=
  {| s_Definition := {| d_Name := ""; d_Schedule := noDefinition; CatchUp := ""; Overlap := "" |};
     NextRunAt := 0; CreatedAt := 0; UpdatedAt := 0 |}.

Definition maxLeaseOwnerBytes : nat := 128.
Definition maxLeaseTokenBytes : nat := 256.
Definition maxStoreTextBytes : nat := 4096.
Definition SnapshotOccurrenceLimit : nat := 1000.

(** ** Errors and contexts *)

Inductive store_error :=
| ErrNilContext | ErrContext (cause : string)
| ErrReconciliationTime | ErrDuplicateJob (name : string) | ErrJobName (name : string)
| ErrPolicies (name : string) | ErrScheduleDefinition (name : string) (e : error)
| ErrNormalizedSchedule (name : string) (e : error)
| ErrNextOccurrence (name : string) (e : error)
| ErrInvalidClaim | ErrInvalidRenewal | ErrInvalidCompletion | ErrInvalidSkip
| ErrExpiredQuery | ErrNotDeterministic
| ErrJobNotFound (name : string)
| ErrDurableSchedule (e : error) | ErrDurableNext (e : error) | ErrNotNextRun
| ErrOccurrenceConflict | ErrCursor | ErrOccurrenceRunning | ErrLeaseLost.

(** A [context.Context]: nil, live, or done with a cause. *)
Inductive context := NilContext | Background | Done (cause : string).

Definition contextError (ctx : context) : result store_error unit :=
  match ctx with
  | NilContext => Err ErrNilContext
  | Background => Ok tt
  | Done cause => Err (ErrContext cause)
  end.

(** ** Helpers *)

(** [later] is after [earlier] once both are cut to the microsecond. *)
Definition durablyAfter (later earlier : Time.t) : bool :=
  Time.After (Truncate later Time.Microsecond) (Truncate earlier Time.Microsecond).

Definition letter (c : ascii) : bool :=
  let n := N_of_ascii c in ((97 <=? n) && (n <=? 122))%N.
Definition name_char (c : ascii) : bool :=
  let n := N_of_ascii c in
  letter c || ((48 <=? n) && (n <=? 57))%N
  || bool_decide (c ∈ ["."; "_"; "/"; "-"]%char).

Definition validateJobName (name : string) : result store_error unit :=
  match String.list_ascii_of_string name with
  | [] => Err (ErrJobName name)
  | c :: rest =>
      guard! negb ((128 <? String.length name)%nat || negb (letter c)) else ErrJobName name in
      guard! forallb name_char rest else ErrJobName name in
      Ok tt
  end.

Definition terminalCompletion (status : OccurrenceStatus) : bool :=
  match status with
  | OccurrenceSucceeded | OccurrenceFailed | OccurrenceCanceled => true
  | _ => false
  end.

Definition preserveIntervalAnchor (incoming existing : JobDefinition) : JobDefinition :=
  let i := d_Schedule incoming in
  let e := d_Schedule existing in
  if negb (bool_decide (Kind i = ScheduleKindEvery)) || HasAnchor i
     || negb (bool_decide (Kind e = ScheduleKindEvery)) || negb (HasAnchor e)
  then incoming
  else if bool_decide (Interval i = Interval e) && bool_decide (Timezone i = Timezone e)
          && bool_decide (Canonical_ i = Canonical_ e)
  then incoming <| d_Schedule := i <| d_Anchor := d_Anchor e |> <| HasAnchor := true |> |>
  else incoming.

Definition sameOccurrence (record : OccurrenceRecord) (jobName : string)
  (scheduledAt : Time.t) : result store_error unit :=
  guard! bool_decide (JobName record = jobName) && (ScheduledAt record =? scheduledAt)
    else ErrOccurrenceConflict in
  Ok tt.

Definition advanceLocked (jobName : string) (next updatedAt : Time.t) (store : MemoryStore)
  : MemoryStore :=
  let state := default noJob (jobs store !! jobName) in
  let state := if Time.Before (NextRunAt state) next then state <| NextRunAt := next |>
               else state in
  store <| jobs ::= <[jobName := state <| UpdatedAt := updatedAt |>]> |>.

(** A live lease of the job. *)
Definition live (jobName : string) (now : Time.t) (o : OccurrenceRecord) : bool :=
  bool_decide (JobName o = jobName) && bool_decide (Status o = OccurrenceRunning)
  && durablyAfter (LeaseUntil o) now.

Definition hasLiveOverlapLocked (jobName exceptID : string) (now : Time.t)
  (store : MemoryStore) : bool :=
  existsb (fun o => negb (bool_decide (ID o = exceptID)) && live jobName now o)
    (map_to_list (occurrences store)).*2.

Definition jobStatesLocked (store : MemoryStore) : list JobState :=
  sort_by (fun s => d_Name (s_Definition s)) (map_to_list (jobs store)).*2.

(** The orders of [Expired] and [Snapshot]. *)
Definition scheduled_le (a b : OccurrenceRecord) : Prop :=
  ScheduledAt a < ScheduledAt b
  \/ (ScheduledAt a = ScheduledAt b /\ String.le (ID a) (ID b)).
Definition lease_le (a b : OccurrenceRecord) : Prop :=
  LeaseUntil a < LeaseUntil b \/ (LeaseUntil a = LeaseUntil b /\ scheduled_le a b).
#[export] Instance scheduled_le_dec a b : Decision (scheduled_le a b).
Proof. unfold scheduled_le. apply _. Defined.
#[export] Instance lease_le_dec a b : Decision (lease_le a b).
Proof. unfold lease_le. apply _. Defined.

(** ** Records, as the operations leave them *)

(** [Claim], of an occurrence seen for the first time. *)
Definition claimedRecord (request : ClaimRequest) : OccurrenceRecord :=
  {| ID := c_OccurrenceID request; JobName := c_JobName request;
     ScheduledAt := c_ScheduledAt request; Status := OccurrenceRunning; Attempt := 1;
     StartedAt := ClaimedAt request; FinishedAt := 0; LeaseOwner := c_LeaseOwner request;
     LeaseToken := c_LeaseToken request; LeaseUntil := c_LeaseUntil request;
     Error := ""; SkipReason := ""; LastModified := ClaimedAt request |}.

(** [Claim], of an occurrence whose lease has expired. *)
Definition reclaimedRecord (request : ClaimRequest) (existing : OccurrenceRecord)
  : OccurrenceRecord :=
  existing <| Attempt ::= fun a => ((a + 1) mod 4294967296)%N |>
           <| StartedAt := ClaimedAt request |>
           <| FinishedAt := 0 |>
           <| LeaseOwner := c_LeaseOwner request |>
           <| LeaseToken := c_LeaseToken request |>
           <| LeaseUntil := c_LeaseUntil request |>
           <| Error := "" |>
           <| SkipReason := "" |>
           <| LastModified := ClaimedAt request |>.

(** [Claim], while another occurrence of the job runs. *)
Definition overlapRecord (request : ClaimRequest) : OccurrenceRecord :=
  {| ID := c_OccurrenceID request; JobName := c_JobName request;
     ScheduledAt := c_ScheduledAt request; Status := OccurrenceSkipped; Attempt := 0;
     StartedAt := 0; FinishedAt := ClaimedAt request; LeaseOwner := ""; LeaseToken := "";
     LeaseUntil := 0; Error := ""; SkipReason := "overlap";
     LastModified := ClaimedAt request |}.

Definition renewedRecord (renewal : LeaseRenewal) (record : OccurrenceRecord)
  : OccurrenceRecord :=
  record <| LeaseUntil := r_LeaseUntil renewal |> <| LastModified := RenewedAt renewal |>.

Definition completedRecord (completion : Completion) (record : OccurrenceRecord)
  : OccurrenceRecord :=
  record <| Status := e_Status completion |>
         <| FinishedAt := e_FinishedAt completion |>
         <| LeaseOwner := "" |>
         <| LeaseToken := "" |>
         <| LeaseUntil := 0 |>
         <| Error := e_Error completion |>
         <| LastModified := e_FinishedAt completion |>.

(** [Skip], of an occurrence seen for the first time. *)
Definition skippedRecord (request : SkipRequest) : OccurrenceRecord :=
  {| ID := k_OccurrenceID request; JobName := k_JobName request;
     ScheduledAt := k_ScheduledAt request; Status := OccurrenceSkipped; Attempt := 0;
     StartedAt := 0; FinishedAt := SkippedAt request; LeaseOwner := ""; LeaseToken := "";
     LeaseUntil := 0; Error := ""; SkipReason := Reason request;
     LastModified := SkippedAt request |}.

(** [Skip], of an occurrence whose lease has expired. *)
Definition abandonedRecord (request : SkipRequest) (existing : OccurrenceRecord)
  : OccurrenceRecord :=
  existing <| Status := OccurrenceSkipped |>
           <| FinishedAt := SkippedAt request |>
           <| LeaseOwner := "" |>
           <| LeaseToken := "" |>
           <| LeaseUntil := 0 |>
           <| Error := "" |>
           <| SkipReason := Reason request |>
           <| LastModified := SkippedAt request |>.

Definition put (id : string) (record : OccurrenceRecord) (store : MemoryStore) : MemoryStore :=
  store <| occurrences ::= <[id := record]> |>.

(** ** The store *)

Section store.
Context (Sum256 : string -> string)
        (LoadLocation : string -> option Location)
        (duration_String : Time.Duration -> string)
        (ParseCron : string -> option RawSchedule).
#[local] Abbreviation Definition_ := (Definition_ LoadLocation duration_String ParseCron).
#[local] Abbreviation ScheduleFromDefinition :=
  (ScheduleFromDefinition LoadLocation duration_String ParseCron).
#[local] Abbreviation Next := (Next LoadLocation ParseCron).

Definition OccurrenceID (jobName : string) (scheduledAt : Time.t) : string :=
  "occ_" +:+ EncodeToString
    (Sum256 (jobName +:+ String (ascii_of_nat 0) (RFC3339Nano scheduledAt))).

Definition normalizedDefinition (definition : JobDefinition) (now : Time.t)
  : result store_error (JobDefinition * Schedule) :=
  let name := d_Name definition in
  let! _ := validateJobName name in
  guard! catchUp_valid (CatchUp definition) && overlap_valid (Overlap definition)
    else ErrPolicies name in
  match ScheduleFromDefinition (d_Schedule definition) with
  | Err e => Err (ErrScheduleDefinition name e)
  | Ok schedule =>
      let schedule :=
        if bool_decide (Kind (d_Schedule definition) = ScheduleKindEvery)
           && negb (HasAnchor (d_Schedule definition))
        then Anchor now schedule else schedule in
      match Definition_ schedule with
      | Err e => Err (ErrNormalizedSchedule name e)
      | Ok d => Ok (definition <| d_Schedule := d |>, schedule)
      end
  end.

Definition validateClaim (request : ClaimRequest) : result store_error unit :=
  guard! negb (bool_decide (c_OccurrenceID request = "") || bool_decide (c_JobName request = "")
    || bool_decide (c_LeaseOwner request = "") || bool_decide (c_LeaseToken request = "")
    || (maxLeaseOwnerBytes <? String.length (c_LeaseOwner request))%nat
    || (maxLeaseTokenBytes <? String.length (c_LeaseToken request))%nat
    || Time.IsZero (c_ScheduledAt request) || Time.IsZero (c_NextRunAt request)
    || Time.IsZero (ClaimedAt request) || Time.IsZero (c_LeaseUntil request)
    || negb (Time.After (c_NextRunAt request) (c_ScheduledAt request))
    || negb (durablyAfter (c_LeaseUntil request) (ClaimedAt request))) else ErrInvalidClaim in
  guard! bool_decide (c_OccurrenceID request
                      = OccurrenceID (c_JobName request) (c_ScheduledAt request))
    else ErrNotDeterministic in
  Ok tt.

Definition validateSkip (request : SkipRequest) : result store_error unit :=
  guard! negb (bool_decide (k_OccurrenceID request = "") || bool_decide (k_JobName request = "")
    || Time.IsZero (k_ScheduledAt request) || Time.IsZero (k_NextRunAt request)
    || Time.IsZero (SkippedAt request) || (String.length (Reason request) =? 0)%nat
    || (maxStoreTextBytes <? String.length (Reason request))%nat
    || negb (Time.After (k_NextRunAt request) (k_ScheduledAt request))) else ErrInvalidSkip in
  guard! bool_decide (k_OccurrenceID request
                      = OccurrenceID (k_JobName request) (k_ScheduledAt request))
    else ErrNotDeterministic in
  Ok tt.

Definition validateScheduleAdvance (state : JobState) (scheduledAt nextRunAt : Time.t)
  : result store_error unit :=
  match ScheduleFromDefinition (d_Schedule (s_Definition state)) with
  | Err e => Err (ErrDurableSchedule e)
  | Ok schedule =>
      match Next schedule scheduledAt with
      | Err e => Err (ErrDurableNext e)
      | Ok expected => guard! expected =? nextRunAt else ErrNotNextRun in Ok tt
      end
  end.

(** One round of [Reconcile]'s loop, after the check for duplicates. *)
Definition reconcileJob (store : MemoryStore) (incoming : JobDefinition) (now : Time.t)
  : result store_error JobState :=
  let existing := jobs store !! d_Name incoming in
  let incoming :=
    match existing with
    | Some existing => preserveIntervalAnchor incoming (s_Definition existing)
    | None => incoming
    end in
  let! normalized := normalizedDefinition incoming now in
  let '(incoming, schedule) := normalized in
  match existing with
  | None =>
      match Next schedule now with
      | Err e => Err (ErrNextOccurrence (d_Name incoming) e)
      | Ok next => Ok {| s_Definition := incoming; NextRunAt := next;
                         CreatedAt := now; UpdatedAt := now |}
      end
  | Some existing =>
      let scheduleChanged :=
        negb (bool_decide (d_Schedule incoming = d_Schedule (s_Definition existing))) in
      let definitionChanged := negb (bool_decide (incoming = s_Definition existing)) in
      let state := existing <| s_Definition := incoming |> in
      let! state :=
        if scheduleChanged || Time.IsZero (NextRunAt state) then
          match Next schedule now with
          | Err e => Err (ErrNextOccurrence (d_Name incoming) e)
          | Ok next => Ok (state <| NextRunAt := next |>)
          end
        else Ok state in
      Ok (if definitionChanged || scheduleChanged then state <| UpdatedAt := now |> else state)
  end.

(** The loop; [seen] is the domain of [active]. *)
Fixpoint reconcileJobs (store : MemoryStore) (definitions : list JobDefinition) (now : Time.t)
  (active : gmap string JobState) : result store_error (gmap string JobState) :=
  match definitions with
  | [] => Ok active
  | incoming :: definitions =>
      guard! negb (bool_decide (is_Some (active !! d_Name incoming)))
        else ErrDuplicateJob (d_Name incoming) in
      let! state := reconcileJob store incoming now in
      reconcileJobs store definitions now (<[d_Name incoming := state]> active)
  end.

Definition Reconcile (ctx : context) (definitions : list JobDefinition) (now : Time.t)
  (store : MemoryStore) : result store_error (list JobState * MemoryStore) :=
  let! _ := contextError ctx in
  guard! negb (Time.IsZero now) else ErrReconciliationTime in
  let! active := reconcileJobs store definitions now ∅ in
  let store := store <| jobs := active |> in
  Ok (jobStatesLocked store, store).

Definition Claim (ctx : context) (request : ClaimRequest) (store : MemoryStore)
  : result store_error (ClaimResult * MemoryStore) :=
  let id := c_OccurrenceID request in
  let job := c_JobName request in
  let now := ClaimedAt request in
  let advanced := advanceLocked job (c_NextRunAt request) now in
  let! _ := contextError ctx in
  let! _ := validateClaim request in
  match jobs store !! job with
  | None => Err (ErrJobNotFound job)
  | Some state =>
      let! _ := validateScheduleAdvance state (c_ScheduledAt request) (c_NextRunAt request) in
      match occurrences store !! id with
      | Some existing =>
          let! _ := sameOccurrence existing job (c_ScheduledAt request) in
          if negb (bool_decide (Status existing = OccurrenceRunning)) then
            Ok (mkClaimResult ClaimAlreadyTerminal existing, advanced store)
          else if durablyAfter (LeaseUntil existing) now then
            Ok (mkClaimResult ClaimLeaseHeld existing, advanced store)
          else if bool_decide (Overlap (s_Definition state) = OverlapSkip)
                  && hasLiveOverlapLocked job id now store then
            Ok (mkClaimResult ClaimLeaseHeld existing, store)
          else
            let existing := reclaimedRecord request existing in
            Ok (mkClaimResult ClaimAcquired existing, advanced (put id existing store))
      | None =>
          guard! NextRunAt state =? c_ScheduledAt request else ErrCursor in
          if bool_decide (Overlap (s_Definition state) = OverlapSkip)
             && existsb (live job now) (map_to_list (occurrences store)).*2 then
            let skipped := overlapRecord request in
            Ok (mkClaimResult ClaimSkippedOverlap skipped, advanced (put id skipped store))
          else
            let record := claimedRecord request in
            Ok (mkClaimResult ClaimAcquired record, advanced (put id record store))
      end
  end.

(** The record of a lease still held with the token, as [Renew] and [Complete] ask. *)
Definition heldLease (id token : string) (now : Time.t) (store : MemoryStore)
  : result store_error OccurrenceRecord :=
  match occurrences store !! id with
  | None => Err ErrLeaseLost
  | Some record =>
      guard! negb (negb (bool_decide (Status record = OccurrenceRunning))
                   || negb (bool_decide (LeaseToken record = token))
                   || negb (durablyAfter (LeaseUntil record) now)) else ErrLeaseLost in
      Ok record
  end.

Definition Renew (ctx : context) (renewal : LeaseRenewal) (store : MemoryStore)
  : result store_error MemoryStore :=
  let! _ := contextError ctx in
  guard! negb (bool_decide (r_OccurrenceID renewal = "") || bool_decide (r_LeaseToken renewal = "")
    || Time.IsZero (RenewedAt renewal)
    || (maxLeaseTokenBytes <? String.length (r_LeaseToken renewal))%nat
    || Time.IsZero (r_LeaseUntil renewal)
    || negb (durablyAfter (r_LeaseUntil renewal) (RenewedAt renewal))) else ErrInvalidRenewal in
  let! record := heldLease (r_OccurrenceID renewal) (r_LeaseToken renewal) (RenewedAt renewal)
                   store in
  Ok (put (r_OccurrenceID renewal) (renewedRecord renewal record) store).

Definition Complete (ctx : context) (completion : Completion) (store : MemoryStore)
  : result store_error MemoryStore :=
  let! _ := contextError ctx in
  guard! negb (bool_decide (e_OccurrenceID completion = "")
    || bool_decide (e_LeaseToken completion = "") || Time.IsZero (e_FinishedAt completion)
    || (maxLeaseTokenBytes <? String.length (e_LeaseToken completion))%nat
    || negb (terminalCompletion (e_Status completion))
    || (maxStoreTextBytes <? String.length (e_Error completion))%nat
    || (bool_decide (e_Status completion = OccurrenceSucceeded)
        && negb (bool_decide (e_Error completion = "")))) else ErrInvalidCompletion in
  let! record := heldLease (e_OccurrenceID completion) (e_LeaseToken completion)
                   (e_FinishedAt completion) store in
  Ok (put (e_OccurrenceID completion) (completedRecord completion record) store).

Definition Skip (ctx : context) (request : SkipRequest) (store : MemoryStore)
  : result store_error MemoryStore :=
  let id := k_OccurrenceID request in
  let job := k_JobName request in
  let now := SkippedAt request in
  let advanced := advanceLocked job (k_NextRunAt request) now in
  let! _ := contextError ctx in
  let! _ := validateSkip request in
  match jobs store !! job with
  | None => Err (ErrJobNotFound job)
  | Some state =>
      match occurrences store !! id with
      | Some existing =>
          let! _ := sameOccurrence existing job (k_ScheduledAt request) in
          if negb (bool_decide (Status existing = OccurrenceRunning)) then Ok store
          else
            let! _ := validateScheduleAdvance state (k_ScheduledAt request)
                        (k_NextRunAt request) in
            guard! negb (durablyAfter (LeaseUntil existing) now) else ErrOccurrenceRunning in
            Ok (advanced (put id (abandonedRecord request existing) store))
      | None =>
          let! _ := validateScheduleAdvance state (k_ScheduledAt request)
                      (k_NextRunAt request) in
          guard! NextRunAt state =? k_ScheduledAt request else ErrCursor in
          Ok (advanced (put id (skippedRecord request) store))
      end
  end.

Definition expired (now : Time.t) (store : MemoryStore) (o : OccurrenceRecord) : bool :=
  bool_decide (Status o = OccurrenceRunning) && negb (durablyAfter (LeaseUntil o) now)
  && bool_decide (is_Some (jobs store !! JobName o)).

Definition Expired (ctx : context) (now : Time.t) (limit : Z) (store : MemoryStore)
  : result store_error (list OccurrenceRecord) :=
  let! _ := contextError ctx in
  guard! negb (Time.IsZero now || (limit <=? 0) || (maxCatchUpLimit <? limit))
    else ErrExpiredQuery in
  let records := List.filter (expired now store) (map_to_list (occurrences store)).*2 in
  Ok (take (Z.to_nat limit) (merge_sort lease_le records)).

Definition Snapshot (ctx : context) (store : MemoryStore) : result store_error StoreSnapshot :=
  let! _ := contextError ctx in
  let sorted := merge_sort scheduled_le (map_to_list (occurrences store)).*2 in
  Ok {| s_Jobs := jobStatesLocked store;
        s_Occurrences := drop (length sorted - SnapshotOccurrenceLimit) sorted |}.
End store.
Close Scope Z_scope.
