(* ===== verification/CronLease.v ===== *)
(** * Runs of the store

    What any number of schedulers and workers can do to one [MemoryStore]: the
    operations as the steps of a relation, a run as a list of operations in any
    order, and what every run keeps: records are well formed, a lost lease stays
    lost, occurrences of one job do not overlap, and no scheduled instant is lost. *)

From stdpp Require Import pretty.
From S2P Require Import Prelude.
From S2P Require Import GoTime.
From S2P Require Import GoFormat.
From S2P Require Import CronSchedule.
From S2P Require Import CronNext.
From S2P Require Import CronStore.

Open Scope Z_scope.

(** ** Runs *)

Inductive op :=
| OReconcile (ctx : context) (definitions : list JobDefinition) (now : Time.t)
| OClaim (ctx : context) (request : ClaimRequest)
| ORenew (ctx : context) (renewal : LeaseRenewal)
| OComplete (ctx : context) (completion : Completion)
| OSkip (ctx : context) (request : SkipRequest).

(** When the caller says it is; [Reconcile] grants and ends no lease. *)
Definition op_time (o : op) : option Time.t :=
  match o with
  | OReconcile _ _ _ => None
  | OClaim _ q => Some (ClaimedAt q)
  | ORenew _ q => Some (RenewedAt q)
  | OComplete _ q => Some (e_FinishedAt q)
  | OSkip _ q => Some (SkippedAt q)
  end.

Section leases.
Context (Sum256 : string -> string)
        (LoadLocation : string -> option Location)
        (duration_String : Time.Duration -> string)
        (ParseCron : string -> option RawSchedule).
#[local] Abbreviation ScheduleFromDefinition :=
  (ScheduleFromDefinition LoadLocation duration_String ParseCron).
#[local] Abbreviation Next := (Next LoadLocation ParseCron).
#[local] Abbreviation OccurrenceID := (OccurrenceID Sum256).
#[local] Abbreviation validateClaim := (validateClaim Sum256).
#[local] Abbreviation validateSkip := (validateSkip Sum256).
#[local] Abbreviation validateScheduleAdvance :=
  (validateScheduleAdvance LoadLocation duration_String ParseCron).
#[local] Abbreviation reconcileJob :=
  (reconcileJob LoadLocation duration_String ParseCron).
#[local] Abbreviation reconcileJobs :=
  (reconcileJobs LoadLocation duration_String ParseCron).
#[local] Abbreviation Reconcile := (Reconcile LoadLocation duration_String ParseCron).
#[local] Abbreviation Claim := (Claim Sum256 LoadLocation duration_String ParseCron).
#[local] Abbreviation Skip := (Skip Sum256 LoadLocation duration_String ParseCron).

Definition apply (o : op) (st : MemoryStore) : MemoryStore :=
  match o with
  | OReconcile ctx ds now =>
      match Reconcile ctx ds now st with Ok (_, st') => st' | Err _ => st end
  | OClaim ctx q => match Claim ctx q st with Ok (_, st') => st' | Err _ => st end
  | ORenew ctx q => match Renew ctx q st with Ok st' => st' | Err _ => st end
  | OComplete ctx q => match Complete ctx q st with Ok st' => st' | Err _ => st end
  | OSkip ctx q => match Skip ctx q st with Ok st' => st' | Err _ => st end
  end.

Fixpoint run (ops : list op) (st : MemoryStore) : MemoryStore :=
  match ops with
  | [] => st
  | o :: ops => run ops (apply o st)
  end.

(** [P] holds before, between and after the operations. *)
Fixpoint always (P : MemoryStore -> Prop) (ops : list op) (st : MemoryStore) : Prop :=
  P st /\ match ops with [] => True | o :: ops => always P ops (apply o st) end.

(** ** The operations as steps *)

Definition claimable (st : MemoryStore) (q : ClaimRequest) (state : JobState) : Prop :=
  validateClaim q = Ok tt /\ jobs st !! c_JobName q = Some state
  /\ validateScheduleAdvance state (c_ScheduledAt q) (c_NextRunAt q) = Ok tt.
Definition skippable (st : MemoryStore) (q : SkipRequest) (state : JobState) : Prop :=
  validateSkip q = Ok tt /\ jobs st !! k_JobName q = Some state
  /\ validateScheduleAdvance state (k_ScheduledAt q) (k_NextRunAt q) = Ok tt.

(** The record an operation finds under an identity. *)
Definition found (st : MemoryStore) (id job : string) (at_ : Time.t) (o : OccurrenceRecord)
  : Prop := occurrences st !! id = Some o /\ JobName o = job /\ ScheduledAt o = at_.
Definition held (st : MemoryStore) (id token : string) (now : Time.t) (o : OccurrenceRecord)
  : Prop :=
  occurrences st !! id = Some o /\ Status o = OccurrenceRunning /\ LeaseToken o = token
  /\ durablyAfter (LeaseUntil o) now = true.

(** No live lease of the job but the one under [id]. *)
Definition alone (st : MemoryStore) (job id : string) (now : Time.t) : Prop :=
  forall id' o, occurrences st !! id' = Some o -> live job now o = true -> ID o = id.
Definition idle (st : MemoryStore) (job : string) (now : Time.t) : Prop :=
  forall id' o, occurrences st !! id' = Some o -> live job now o = false.

Definition claim_advances (q : ClaimRequest) : MemoryStore -> MemoryStore :=
  advanceLocked (c_JobName q) (c_NextRunAt q) (ClaimedAt q).
Definition skip_advances (q : SkipRequest) : MemoryStore -> MemoryStore :=
  advanceLocked (k_JobName q) (k_NextRunAt q) (SkippedAt q).

Inductive step (st : MemoryStore) : op -> MemoryStore -> Prop :=
| step_refused o : step st o st
| step_reconcile ctx ds now active :
    reconcileJobs st ds now ∅ = Ok active ->
    step st (OReconcile ctx ds now) (st <| jobs := active |>)
| step_known ctx q state o :
    claimable st q state -> found st (c_OccurrenceID q) (c_JobName q) (c_ScheduledAt q) o ->
    step st (OClaim ctx q) (claim_advances q st)
| step_reclaim ctx q state o :
    claimable st q state -> found st (c_OccurrenceID q) (c_JobName q) (c_ScheduledAt q) o ->
    Status o = OccurrenceRunning -> durablyAfter (LeaseUntil o) (ClaimedAt q) = false ->
    (Overlap (s_Definition state) = OverlapSkip ->
     alone st (c_JobName q) (c_OccurrenceID q) (ClaimedAt q)) ->
    step st (OClaim ctx q) (claim_advances q (put (c_OccurrenceID q) (reclaimedRecord q o) st))
| step_overlap ctx q state :
    claimable st q state -> occurrences st !! c_OccurrenceID q = None ->
    NextRunAt state = c_ScheduledAt q ->
    step st (OClaim ctx q) (claim_advances q (put (c_OccurrenceID q) (overlapRecord q) st))
| step_claim ctx q state :
    claimable st q state -> occurrences st !! c_OccurrenceID q = None ->
    NextRunAt state = c_ScheduledAt q ->
    (Overlap (s_Definition state) = OverlapSkip -> idle st (c_JobName q) (ClaimedAt q)) ->
    step st (OClaim ctx q) (claim_advances q (put (c_OccurrenceID q) (claimedRecord q) st))
| step_renew ctx q o :
    held st (r_OccurrenceID q) (r_LeaseToken q) (RenewedAt q) o -> r_LeaseUntil q <> 0 ->
    step st (ORenew ctx q) (put (r_OccurrenceID q) (renewedRecord q o) st)
| step_complete ctx q o :
    held st (e_OccurrenceID q) (e_LeaseToken q) (e_FinishedAt q) o ->
    terminalCompletion (e_Status q) = true ->
    (e_Status q = OccurrenceSucceeded -> e_Error q = "") -> e_FinishedAt q <> 0 ->
    step st (OComplete ctx q) (put (e_OccurrenceID q) (completedRecord q o) st)
| step_skip ctx q state :
    skippable st q state -> occurrences st !! k_OccurrenceID q = None ->
    NextRunAt state = k_ScheduledAt q ->
    step st (OSkip ctx q) (skip_advances q (put (k_OccurrenceID q) (skippedRecord q) st))
| step_abandon ctx q state o :
    skippable st q state -> found st (k_OccurrenceID q) (k_JobName q) (k_ScheduledAt q) o ->
    Status o = OccurrenceRunning -> durablyAfter (LeaseUntil o) (SkippedAt q) = false ->
    step st (OSkip ctx q) (skip_advances q (put (k_OccurrenceID q) (abandonedRecord q o) st)).

(** ** Lemmas on the operations *)

Lemma existsb_occurrences (f : OccurrenceRecord -> bool) (st : MemoryStore) :
  existsb f (map_to_list (occurrences st)).*2 = true
  <-> exists id o, occurrences st !! id = Some o /\ f o = true.
Proof.
  rewrite existsb_exists. setoid_rewrite <-list_elem_of_In.
  setoid_rewrite list_elem_of_fmap. split.
  - intros (o & ([id o'] & -> & Hin%elem_of_map_to_list) & Hf). eauto.
  - intros (id & o & Hin & Hf). exists o. split; [|done]. exists (id, o). split; [done|].
    by apply elem_of_map_to_list.
Qed.

Lemma sameOccurrence_ok o job at_ : sameOccurrence o job at_ = Ok tt <->
  JobName o = job /\ ScheduledAt o = at_.
Proof.
  clear Sum256 LoadLocation duration_String ParseCron.
  unfold sameOccurrence. rewrite guard_ok, andb_true_iff, bool_decide_eq_true, Z.eqb_eq. tauto.
Qed.

Lemma heldLease_ok id token now st o :
  heldLease id token now st = Ok o <-> held st id token now o.
Proof.
  clear Sum256 LoadLocation duration_String ParseCron.
  unfold heldLease, held. destruct (occurrences st !! id) as [o'|]; [|naive_solver].
  rewrite guard_ok, !negb_orb, !negb_involutive, !andb_true_iff, !bool_decide_eq_true.
  naive_solver.
Qed.

Lemma heldLease_lost id token now st :
  (forall o, ~ held st id token now o) -> heldLease id token now st = Err ErrLeaseLost.
Proof.
  clear Sum256 LoadLocation duration_String ParseCron.
  intros H. destruct (heldLease id token now st) as [o|e] eqn:E.
  - by apply heldLease_ok, H in E.
  - revert E. unfold heldLease. destruct (_ !! _); [|congruence]. case_match; congruence.
Qed.

(** What a valid claim and a valid skip are. *)
Lemma validateClaim_ok q : validateClaim q = Ok tt ->
  c_JobName q <> "" /\ c_LeaseOwner q <> "" /\ c_LeaseToken q <> "" /\ c_ScheduledAt q <> 0
  /\ ClaimedAt q <> 0 /\ c_LeaseUntil q <> 0 /\ c_ScheduledAt q < c_NextRunAt q
  /\ durablyAfter (c_LeaseUntil q) (ClaimedAt q) = true
  /\ c_OccurrenceID q = OccurrenceID (c_JobName q) (c_ScheduledAt q).
Proof.
  unfold CronStore.validateClaim, Time.IsZero, Time.After. intros [H [H' _]%guard_ok]%guard_ok.
  apply bool_decide_eq_true in H'.
  rewrite !negb_orb, !negb_involutive, !andb_true_iff, !negb_true_iff, !bool_decide_eq_false,
    !Z.eqb_neq, Z.ltb_lt in H. tauto.
Qed.

Lemma validateSkip_ok q : validateSkip q = Ok tt ->
  k_JobName q <> "" /\ k_ScheduledAt q <> 0 /\ SkippedAt q <> 0 /\ Reason q <> ""
  /\ k_ScheduledAt q < k_NextRunAt q
  /\ k_OccurrenceID q = OccurrenceID (k_JobName q) (k_ScheduledAt q).
Proof.
  unfold CronStore.validateSkip, Time.IsZero, Time.After. intros [H [H' _]%guard_ok]%guard_ok.
  apply bool_decide_eq_true in H'.
  rewrite !negb_orb, !negb_involutive, !andb_true_iff, !negb_true_iff, !bool_decide_eq_false,
    !Z.eqb_neq, Z.ltb_lt, Nat.eqb_neq in H.
  assert (Reason q <> "") by (intros E; rewrite E in H; naive_solver). tauto.
Qed.

Lemma validateScheduleAdvance_ok state at_ next schedule :
  ScheduleFromDefinition (d_Schedule (s_Definition state)) = Ok schedule ->
  validateScheduleAdvance state at_ next = Ok tt <-> Next schedule at_ = Ok next.
Proof.
  intros E. unfold CronStore.validateScheduleAdvance. rewrite E.
  destruct (Next schedule at_) as [n|]; [|naive_solver].
  rewrite guard_ok, Z.eqb_eq. naive_solver.
Qed.

Lemma Claim_step ctx q st res st' : Claim ctx q st = Ok (res, st') ->
  step st (OClaim ctx q) st'
  /\ (Disposition res = ClaimAcquired ->
      exists o, occurrences st' !! c_OccurrenceID q = Some o
        /\ Occurrence res = o /\ Status o = OccurrenceRunning /\ LeaseToken o = c_LeaseToken q).
Proof.
  unfold CronStore.Claim. intros ([] & _ & H)%bind_ok. apply bind_ok in H as ([] & Hv & H).
  destruct (jobs st !! _) as [state|] eqn:Hj; [|done]. apply bind_ok in H as ([] & Ha & H).
  assert (claimable st q state) as Hc by done. clear Hv Ha.
  destruct (occurrences st !! _) as [o|] eqn:Ho.
  - apply bind_ok in H as ([] & [Hjob Hat]%sameOccurrence_ok & H).
    assert (found st (c_OccurrenceID q) (c_JobName q) (c_ScheduledAt q) o) as Hf by done.
    destruct (decide (Status o = OccurrenceRunning)) as [Er|Er].
    2:{ rewrite (bool_decide_false _ Er) in H. cbn [negb] in H. injection H as <- <-.
        split; [by eapply step_known|done]. }
    rewrite (bool_decide_true _ Er) in H. cbn [negb] in H.
    destruct (durablyAfter _ _) eqn:Ed.
    { injection H as <- <-. split; [by eapply step_known|done]. }
    destruct (_ && _) eqn:Eo; injection H as <- <-; [split; [apply step_refused|done]|].
    split.
    + eapply step_reclaim; try done. intros Es id' o' Hin Hl.
      rewrite bool_decide_true in Eo by done. cbn [andb] in Eo.
      unfold hasLiveOverlapLocked in Eo. apply not_true_iff_false in Eo.
      rewrite existsb_occurrences in Eo. apply dec_stable. intros Hne. apply Eo.
      exists id', o'. split; [done|]. by rewrite Hl, bool_decide_false.
    + intros _. eexists. split; [apply lookup_insert_eq|]. split; [done|]. by split; [exact Er|].
  - apply guard_ok in H as [Hcur%Z.eqb_eq H].
    destruct (_ && _) eqn:Eo; injection H as <- <-; [split; [by eapply step_overlap|done]|].
    split; [|by intros _; eexists; split; [apply lookup_insert_eq|]].
    eapply step_claim; try done. intros Es id' o' Hin.
    rewrite bool_decide_true in Eo by done. cbn [andb] in Eo.
    apply not_true_iff_false in Eo. rewrite existsb_occurrences in Eo.
    apply not_true_iff_false. intros Hl. eauto 6.
Qed.

Lemma Skip_step ctx q st st' : Skip ctx q st = Ok st' -> step st (OSkip ctx q) st'.
Proof.
  unfold CronStore.Skip. intros ([] & _ & H)%bind_ok. apply bind_ok in H as ([] & Hv & H).
  destruct (jobs st !! _) as [state|] eqn:Hj; [|done].
  destruct (occurrences st !! _) as [o|] eqn:Ho.
  - apply bind_ok in H as ([] & [Hjob Hat]%sameOccurrence_ok & H).
    destruct (decide (Status o = OccurrenceRunning)) as [Er|Er].
    2:{ rewrite (bool_decide_false _ Er) in H. cbn [negb] in H. injection H as <-.
        apply step_refused. }
    rewrite (bool_decide_true _ Er) in H. cbn [negb] in H.
    apply bind_ok in H as ([] & Ha & [Hd [= <-]]%guard_ok).
    apply (step_abandon _ ctx q state o); try done. by apply negb_true_iff.
  - apply bind_ok in H as ([] & Ha & [Hcur%Z.eqb_eq [= <-]]%guard_ok).
    by apply (step_skip _ ctx q state).
Qed.

Lemma apply_step o st : step st o (apply o st).
Proof.
  destruct o as [ctx ds now|ctx q|ctx q|ctx q|ctx q]; cbn [apply].
  - destruct (Reconcile _ _ _ _) as [[l st']|] eqn:E; [|apply step_refused].
    unfold CronStore.Reconcile in E. apply bind_ok in E as ([] & _ & E).
    apply guard_ok in E as [_ E]. apply bind_ok in E as (active & Ha & [= _ <-]).
    by apply step_reconcile.
  - destruct (Claim _ _ _) as [[res st']|] eqn:E; [|apply step_refused].
    by apply Claim_step in E as [? _].
  - destruct (Renew _ _ _) as [st'|] eqn:E; [|apply step_refused].
    unfold Renew in E. apply bind_ok in E as ([] & _ & E). apply guard_ok in E as [Hg E].
    apply bind_ok in E as (o & Ho%heldLease_ok & [= <-]). unfold Time.IsZero in Hg.
    rewrite !negb_orb, !andb_true_iff, !negb_true_iff, !Z.eqb_neq in Hg.
    apply step_renew; tauto.
  - destruct (Complete _ _ _) as [st'|] eqn:E; [|apply step_refused].
    unfold Complete in E. apply bind_ok in E as ([] & _ & E). apply guard_ok in E as [Hg E].
    apply bind_ok in E as (o & Ho%heldLease_ok & [= <-]).
    unfold Time.IsZero in Hg.
    rewrite !negb_orb, !negb_involutive, !andb_true_iff, !negb_true_iff, !Z.eqb_neq,
      andb_false_iff, negb_false_iff, bool_decide_eq_true, !bool_decide_eq_false in Hg.
    apply step_complete; [done|tauto|tauto|tauto].
  - destruct (Skip _ _ _) as [st'|] eqn:E; [|apply step_refused]. by apply Skip_step.
Qed.

(** An invariant of the steps is an invariant of the runs. *)
Lemma run_invariant (P : MemoryStore -> Prop) :
  (forall st o st', step st o st' -> P st -> P st') ->
  forall ops st, P st -> P (run ops st).
Proof.
  intros H ops. induction ops as [|o ops IH]; intros st Hst; [done|].
  apply IH. eapply H; [apply apply_step|done].
Qed.

(** The record under an identity after an operation: the old one, or the one put. *)
Lemma advanceLocked_occurrences j n t st :
  occurrences (advanceLocked j n t st) = occurrences st.
Proof. done. Qed.
Lemma put_occurrences id o st : occurrences (put id o st) = <[id := o]> (occurrences st).
Proof. done. Qed.
Lemma put_jobs id o st : jobs (put id o st) = jobs st.
Proof. done. Qed.
Lemma claim_advances_occurrences q st : occurrences (claim_advances q st) = occurrences st.
Proof. done. Qed.
Lemma skip_advances_occurrences q st : occurrences (skip_advances q st) = occurrences st.
Proof. done. Qed.

Lemma preserveIntervalAnchor_name i e :
  d_Name (preserveIntervalAnchor i e) = d_Name i
  /\ CatchUp (preserveIntervalAnchor i e) = CatchUp i
  /\ Overlap (preserveIntervalAnchor i e) = Overlap i.
Proof. unfold preserveIntervalAnchor. by repeat case_match. Qed.

(** What reconciliation makes of one definition. *)
Lemma reconcileJob_ok st d now s : reconcileJob st d now = Ok s ->
  d_Name (s_Definition s) = d_Name d
  /\ CatchUp (s_Definition s) = CatchUp d /\ Overlap (s_Definition s) = Overlap d
  /\ validateJobName (d_Name d) = Ok tt
  /\ catchUp_valid (CatchUp d) = true /\ overlap_valid (Overlap d) = true
  /\ ((exists s0, jobs st !! d_Name d = Some s0 /\ NextRunAt s = NextRunAt s0
         /\ d_Schedule (s_Definition s) = d_Schedule (s_Definition s0)
         /\ NextRunAt s0 <> 0)
      \/ (exists schedule, Definition_ LoadLocation duration_String ParseCron schedule
             = Ok (d_Schedule (s_Definition s))
           /\ Next schedule now = Ok (NextRunAt s)
           /\ forall s0, jobs st !! d_Name d = Some s0 ->
                d_Schedule (s_Definition s) <> d_Schedule (s_Definition s0) \/ NextRunAt s0 = 0)).
Proof.
  unfold CronStore.reconcileJob. set (d' := match jobs st !! _ with Some _ => _ | None => _ end).
  assert (d_Name d' = d_Name d /\ CatchUp d' = CatchUp d /\ Overlap d' = Overlap d)
    as (En & Ec & Eo).
  { unfold d'. destruct (jobs st !! _); [apply preserveIntervalAnchor_name|done]. }
  clearbody d'. intros ([d'' schedule] & Hn & H)%bind_ok.
  unfold normalizedDefinition in Hn. apply bind_ok in Hn as ([] & Hname & Hn).
  apply guard_ok in Hn as [[Hc Ho]%andb_true_iff Hn].
  destruct (ScheduleFromDefinition _) as [sc|]; [|done].
  match type of Hn with context [Definition_ _ _ _ ?x] => set (sc' := x) in Hn end.
  clearbody sc'.
  destruct (Definition_ _ _ _ sc') as [def|] eqn:Ed; [|done]. injection Hn as <- <-.
  rewrite En in *. rewrite Ec in Hc. rewrite Eo in Ho.
  destruct (jobs st !! d_Name d) as [s0|] eqn:Hs0.
  2:{ destruct (Next sc' now) as [next|] eqn:Enext; [|done]. injection H as <-. cbn. repeat split; try done.
      right. exists sc'. repeat split; [done|done|]. by intros ? [=]. }
  set (changed := negb (bool_decide (d_Schedule _ = _))) in H.
  apply bind_ok in H as (s1 & H1 & H2).
  assert (s_Definition s = s_Definition s1 /\ NextRunAt s = NextRunAt s1) as [-> ->]
    by (clear -H2; case_match; by injection H2 as <-).
  destruct (changed || _) eqn:Ech.
  - destruct (Next sc' now) as [next|] eqn:Enext; [|done]. injection H1 as <-. cbn.
    repeat split; try done. right. exists sc'. repeat split; [done|done|].
    intros ? [= <-]. apply orb_true_iff in Ech as [Hch|Hz].
    + left. unfold changed in Hch. by apply negb_decide in Hch.
    + right. by apply Z.eqb_eq in Hz.
  - injection H1 as <-. cbn. repeat split; try done. left.
    apply orb_false_iff in Ech as [Hch Hz]. unfold changed in Hch.
    apply negb_false_iff, bool_decide_eq_true in Hch. apply Z.eqb_neq in Hz. eauto.
Qed.

Lemma reconcileJobs_ok st now ds acc active : reconcileJobs st ds now acc = Ok active ->
  forall name s, active !! name = Some s ->
    acc !! name = Some s \/ exists d, d ∈ ds /\ d_Name d = name /\ reconcileJob st d now = Ok s.
Proof.
  revert acc. induction ds as [|d ds IH]; intros acc; simpl; [intros [= ->]; auto|].
  intros [_ (s & Hs & H)%bind_ok]%guard_ok name s' Hin.
  destruct (IH _ H name s' Hin) as [Hacc|(d' & Hd' & Hn & Hr)].
  - apply lookup_insert_Some in Hacc as [[<- <-]|[_ ?]]; [|auto].
    right. exists d. split; [constructor|done].
  - right. exists d'. split; [by constructor|done].
Qed.

(** ** Records are well formed *)

Definition unleased (o : OccurrenceRecord) : Prop :=
  LeaseOwner o = "" /\ LeaseToken o = "" /\ LeaseUntil o = 0 /\ FinishedAt o <> 0.

(** The fields a record has in each status. *)
Definition status_fields (o : OccurrenceRecord) : Prop :=
  match Status o with
  | OccurrenceRunning =>
      LeaseOwner o <> "" /\ LeaseToken o <> "" /\ LeaseUntil o <> 0 /\ StartedAt o <> 0
      /\ FinishedAt o = 0 /\ Error o = "" /\ SkipReason o = ""
  | OccurrenceSucceeded => unleased o /\ StartedAt o <> 0 /\ SkipReason o = "" /\ Error o = ""
  | OccurrenceFailed | OccurrenceCanceled =>
      unleased o /\ StartedAt o <> 0 /\ SkipReason o = ""
  | OccurrenceSkipped => unleased o /\ SkipReason o <> "" /\ Error o = ""
  end.

Definition record_ok (id : string) (o : OccurrenceRecord) : Prop :=
  ID o = id /\ id = OccurrenceID (JobName o) (ScheduledAt o)
  /\ validateJobName (JobName o) = Ok tt /\ ScheduledAt o <> 0 /\ status_fields o.

Definition job_ok (name : string) (s : JobState) : Prop :=
  d_Name (s_Definition s) = name /\ validateJobName name = Ok tt
  /\ catchUp_valid (CatchUp (s_Definition s)) = true
  /\ overlap_valid (Overlap (s_Definition s)) = true.

Definition well_formed (st : MemoryStore) : Prop :=
  map_Forall record_ok (occurrences st) /\ map_Forall job_ok (jobs st).

Lemma put_well_formed id o st :
  well_formed st -> record_ok id o -> well_formed (put id o st).
Proof. intros [Ho Hj] Hr. split; [by apply map_Forall_insert_2|done]. Qed.

Lemma advance_well_formed j n t st s : jobs st !! j = Some s ->
  well_formed st -> well_formed (advanceLocked j n t st).
Proof.
  intros Hs [Ho Hj]. split; [done|]. unfold advanceLocked. rewrite Hs. simpl.
  apply map_Forall_insert_2; [|done]. specialize (Hj j s Hs). by destruct (Time.Before _ _).
Qed.

#[local] Ltac record_fields :=
  unfold record_ok, status_fields, unleased, claimedRecord, reclaimedRecord, overlapRecord,
    renewedRecord, completedRecord, skippedRecord, abandonedRecord;
  cbn [ID JobName ScheduledAt Status Attempt StartedAt FinishedAt LeaseOwner LeaseToken
       LeaseUntil Error SkipReason LastModified update].

Lemma claimedRecord_ok q : validateClaim q = Ok tt ->
  validateJobName (c_JobName q) = Ok tt -> record_ok (c_OccurrenceID q) (claimedRecord q).
Proof. intros H%validateClaim_ok Hn. record_fields. tauto. Qed.

Lemma overlapRecord_ok q : validateClaim q = Ok tt ->
  validateJobName (c_JobName q) = Ok tt -> record_ok (c_OccurrenceID q) (overlapRecord q).
Proof.
  intros H%validateClaim_ok Hn. record_fields. assert ("overlap"%string <> "") by done. tauto.
Qed.

Lemma skippedRecord_ok q : validateSkip q = Ok tt ->
  validateJobName (k_JobName q) = Ok tt -> record_ok (k_OccurrenceID q) (skippedRecord q).
Proof. intros H%validateSkip_ok Hn. record_fields. tauto. Qed.

Lemma reclaimedRecord_ok q id o : validateClaim q = Ok tt -> record_ok id o ->
  Status o = OccurrenceRunning -> record_ok id (reclaimedRecord q o).
Proof. intros H%validateClaim_ok Ho Er. revert Ho. record_fields. rewrite Er. tauto. Qed.

Lemma renewedRecord_ok q id o : r_LeaseUntil q <> 0 -> record_ok id o ->
  Status o = OccurrenceRunning -> record_ok id (renewedRecord q o).
Proof. intros H Ho Er. revert Ho. record_fields. rewrite Er. tauto. Qed.

Lemma completedRecord_ok q id o :
  terminalCompletion (e_Status q) = true ->
  (e_Status q = OccurrenceSucceeded -> e_Error q = "") -> e_FinishedAt q <> 0 ->
  record_ok id o -> Status o = OccurrenceRunning -> record_ok id (completedRecord q o).
Proof.
  intros Ht He Hfin Ho Er. revert Ho. record_fields. rewrite Er.
  destruct (e_Status q); try discriminate Ht; tauto.
Qed.

Lemma abandonedRecord_ok q id o : validateSkip q = Ok tt -> record_ok id o ->
  Status o = OccurrenceRunning -> record_ok id (abandonedRecord q o).
Proof. intros H%validateSkip_ok Ho Er. revert Ho. record_fields. rewrite Er. tauto. Qed.

Lemma step_well_formed st o st' : step st o st' -> well_formed st -> well_formed st'.
Proof.
  intros Hstep Hwf. pose proof Hwf as [Ho Hj].
  destruct Hstep as [o|ctx ds now active Ha|ctx q s r (Hv & Hs & _) Hf
    |ctx q s r (Hv & Hs & _) (Hr & _ & _) Er _ _
    |ctx q s (Hv & Hs & _) _ _|ctx q s (Hv & Hs & _) _ _ _|ctx q r (Hr & Er & _) Hu
    |ctx q r (Hr & Er & _) Ht He Hfin|ctx q s (Hv & Hs & _) _ _
    |ctx q s r (Hv & Hs & _) (Hr & _ & _) Er _];
    try (eapply advance_well_formed; [exact Hs|]); try (apply put_well_formed; [done|]).
  - done.
  - split; [done|]. intros name s Hs.
    destruct (reconcileJobs_ok _ _ _ _ _ Ha name s Hs) as [[=]|(d & _ & <- & Hd)].
    apply reconcileJob_ok in Hd as (E1 & E2 & E3 & Hv & Hcu & Hov & _).
    unfold job_ok. by rewrite E1, E2, E3.
  - done.
  - apply reclaimedRecord_ok; [done|by apply Ho|done].
  - apply overlapRecord_ok; [done|by apply Hj in Hs as (? & ? & _)].
  - apply claimedRecord_ok; [done|by apply Hj in Hs as (? & ? & _)].
  - apply renewedRecord_ok; [done|by apply Ho|done].
  - apply completedRecord_ok; try done. by apply Ho.
  - apply skippedRecord_ok; [done|by apply Hj in Hs as (? & ? & _)].
  - apply abandonedRecord_ok; [done|by apply Ho|done].
Qed.

(** C33: the store stays well formed.  Whatever schedulers and workers do to it, in any
    order and with any arguments, every record is kept under its own identity, the one
    its job and scheduled instant determine, and has the fields its status calls for:
    an owner, a token and a deadline while it runs and none afterwards, an error only
    when it did not succeed, a reason when it was skipped; and every job is kept under
    its valid name with valid policies. *)
Theorem store_well_formed (ops : list op) (st : MemoryStore) (Hst : well_formed st) :
  well_formed (run ops st).
Proof. revert st Hst. apply run_invariant. intros st o st'. apply step_well_formed. Qed.

(** ** A lost lease stays lost *)

Definition grants (id token : string) (o : op) : Prop :=
  match o with
  | OClaim _ q => c_OccurrenceID q = id /\ c_LeaseToken q = token
  | _ => False
  end.

(** The token is not the one of a running record. *)
Definition fenced_off (id token : string) (st : MemoryStore) : Prop :=
  exists o, occurrences st !! id = Some o
    /\ (Status o = OccurrenceRunning -> LeaseToken o <> token).

Lemma fenced_off_lost id token now st : fenced_off id token st ->
  heldLease id token now st = Err ErrLeaseLost.
Proof.
  intros (o & Ho & Hf). apply heldLease_lost. intros o' (Ho' & Hr & Ht & _).
  rewrite Ho in Ho'. injection Ho' as <-. by apply Hf.
Qed.

Lemma put_fenced id token id' o st :
  (id' = id -> Status o = OccurrenceRunning -> LeaseToken o <> token) ->
  fenced_off id token st -> fenced_off id token (put id' o st).
Proof.
  intros Ho (o0 & H0 & Hf). unfold fenced_off. rewrite put_occurrences.
  destruct (decide (id' = id)) as [->|].
  - exists o. rewrite lookup_insert_eq. auto.
  - exists o0. by rewrite lookup_insert_ne.
Qed.

Lemma step_fenced id token st o st' : step st o st' -> ~ grants id token o ->
  fenced_off id token st -> fenced_off id token st'.
Proof.
  intros Hstep Hg Hf.
  destruct Hstep as [o|ctx ds now active Ha|ctx q s r Hc Hr|ctx q s r Hc Hr Er _ _
    |ctx q s Hc Hn _|ctx q s Hc Hn _ _|ctx q r Hh Hu|ctx q r Hh Ht He Hfin|ctx q s Hc Hn _
    |ctx q s r Hc Hr Er _];
    cbn [grants] in Hg; try done;
    match goal with
    | |- fenced_off _ _ (claim_advances _ ?s) => change (fenced_off id token s)
    | |- fenced_off _ _ (skip_advances _ ?s) => change (fenced_off id token s)
    | _ => idtac
    end; apply put_fenced; try done.
  - intros E _. cbn. naive_solver.
  - intros E _. cbn. naive_solver.
  - intros E Hrun. destruct Hh as (Ho & _ & Hq & _), Hf as (o0 & Ho0 & Hf0).
    rewrite E, Ho0 in Ho. injection Ho as ->. by apply Hf0.
  - intros E Hrun. cbn in Hrun. by rewrite Hrun in Ht.
Qed.

(** C6: leases are fenced.  Once a claim has acquired an occurrence, no other token can
    act for it any more: whatever happens to the store afterwards, short of a later claim
    of the same occurrence with that very token, the store finds no lease under another
    token at any time, and refuses every renewal and every completion that presents it. *)
Theorem leases_are_fenced (ctx : context) (q : ClaimRequest) (res : ClaimResult)
  (st st' : MemoryStore) (ops : list op) (token : string)
  (Hclaim : Claim ctx q st = Ok (res, st')) (Hacq : Disposition res = ClaimAcquired)
  (Htoken : token <> c_LeaseToken q)
  (Hops : Forall (fun o => ~ grants (c_OccurrenceID q) token o) ops) :
  let end_ := run ops st' in
  (forall now, heldLease (c_OccurrenceID q) token now end_ = Err ErrLeaseLost)
  /\ (forall c r, r_OccurrenceID r = c_OccurrenceID q -> r_LeaseToken r = token ->
       is_ok (Renew c r end_) = false)
  /\ (forall c r, e_OccurrenceID r = c_OccurrenceID q -> e_LeaseToken r = token ->
       is_ok (Complete c r end_) = false).
Proof.
  intros end_. assert (fenced_off (c_OccurrenceID q) token end_) as Hf.
  { apply Claim_step in Hclaim as [_ Ho]. destruct (Ho Hacq) as (o & Hin & _ & _ & Hto).
    assert (fenced_off (c_OccurrenceID q) token st') as Hst'
      by (exists o; split; [done|]; by rewrite Hto).
    unfold end_. clear -Hops Hst'. revert st' Hst'.
    induction Hops as [|o ops Ho _ IH]; intros st' Hst'; [done|]. cbn [run].
    apply IH. eapply step_fenced; [apply apply_step|done|done]. }
  assert (forall now, heldLease (c_OccurrenceID q) token now end_ = Err ErrLeaseLost) as Hlost
    by (intros; by apply fenced_off_lost).
  split; [done|]. split; intros c r Hid Ht.
  - unfold Renew. rewrite Hid, Ht, Hlost. destruct (contextError c) as [[]|]; [simpl|done].
    by case_match.
  - unfold Complete. rewrite Hid, Ht, Hlost. destruct (contextError c) as [[]|]; [simpl|done].
    by case_match.
Qed.

(** ** Occurrences of one job do not overlap *)

Lemma durablyAfter_later u t t' : t <= t' -> durablyAfter u t' = true -> durablyAfter u t = true.
Proof.
  unfold durablyAfter, Time.After, Truncate, Time.Microsecond. rewrite !Z.ltb_lt. intros H.
  assert (t - t mod 1000 <= t' - t' mod 1000) by euclid. lia.
Qed.

Lemma live_iff j t o : live j t o = true <->
  JobName o = j /\ Status o = OccurrenceRunning /\ durablyAfter (LeaseUntil o) t = true.
Proof. unfold live. rewrite !andb_true_iff, !bool_decide_eq_true. tauto. Qed.

(** At most one live lease of the job at [t]. *)
Definition single (j : string) (t : Time.t) (st : MemoryStore) : Prop :=
  forall id1 id2 o1 o2, occurrences st !! id1 = Some o1 -> occurrences st !! id2 = Some o2 ->
    live j t o1 = true -> live j t o2 = true -> id1 = id2.

(** While the job is declared at all, its policy is [OverlapSkip]. *)
Definition skips_overlap (j : string) (st : MemoryStore) : Prop :=
  forall s, jobs st !! j = Some s -> Overlap (s_Definition s) = OverlapSkip.

(** The operations come in the order of their times, none before [t]. *)
Fixpoint in_order (t : Time.t) (ops : list op) : Prop :=
  match ops with
  | [] => True
  | o :: ops => match op_time o with Some t' => t <= t' /\ in_order t' ops | None => in_order t ops end
  end.
Fixpoint last_time (t : Time.t) (ops : list op) : Time.t :=
  match ops with [] => t | o :: ops => last_time (default t (op_time o)) ops end.

Lemma single_later j t t' st : t <= t' -> single j t st -> single j t' st.
Proof.
  intros Ht H id1 id2 o1 o2 H1 H2 L1 L2. apply live_iff in L1 as (? & ? & ?), L2 as (? & ? & ?).
  apply (H id1 id2 o1 o2); [done|done|..]; apply live_iff; repeat split; try done;
    by eapply durablyAfter_later.
Qed.

(** Putting a record keeps it so when the record is not live, or nothing else is. *)
Lemma put_single j t id o st : single j t st ->
  (live j t o = true -> forall id' o', occurrences st !! id' = Some o' ->
     live j t o' = true -> id' = id) ->
  single j t (put id o st).
Proof.
  intros H Ho id1 id2 o1 o2. rewrite put_occurrences, !lookup_insert_Some.
  intros [[<- <-]|[Hn1 H1]] [[<- <-]|[Hn2 H2]] L1 L2; [done| | |by eapply H].
  - symmetry. by eapply Ho.
  - by eapply Ho.
Qed.

Lemma step_single j t st o st' : well_formed st -> step st o st' -> skips_overlap j st ->
  (forall t', op_time o = Some t' -> t' = t) -> single j t st -> single j t st'.
Proof.
  intros [Hwf _] Hstep Hskip Ht H.
  destruct Hstep as [o|ctx ds now active Ha|ctx q s r Hc Hf
    |ctx q s r (Hv & Hs & _) (Hr & Hj & _) Er _ Halone
    |ctx q s (Hv & Hs & _) _ _|ctx q s (Hv & Hs & _) _ _ Hidle
    |ctx q r (Hr & Er & Et & Hd) Hu
    |ctx q r (Hr & Er & _) Hst He Hfin|ctx q s Hc _ _
    |ctx q s r Hc (Hr & _ & _) Er _];
    cbn [op_time] in Ht; try specialize (Ht _ eq_refl); try done;
    match goal with
    | |- single _ _ (claim_advances _ ?s) => change (single j t s)
    | |- single _ _ (skip_advances _ ?s) => change (single j t s)
    | _ => idtac
    end; apply put_single; try done; intros Hl; apply live_iff in Hl as (Hjob & Hrun & _);
    cbn [JobName Status completedRecord abandonedRecord reclaimedRecord claimedRecord
         renewedRecord overlapRecord skippedRecord update] in Hjob, Hrun; try done.
  - intros id' o' Hin Hl. subst t. assert (j = c_JobName q) as -> by congruence.
    rewrite <-(Halone (Hskip s Hs) id' o' Hin Hl). symmetry. apply (Hwf _ _ Hin).
  - intros id' o' Hin Hl. subst t. assert (j = c_JobName q) as -> by congruence.
    by rewrite (Hidle (Hskip s Hs) id' o' Hin) in Hl.
  - intros id' o' Hin Hl. eapply (H id' (r_OccurrenceID q) o' r); try done.
    apply live_iff. subst t. done.
  - by rewrite Hrun in Hst.
Qed.

(** C24: Occurrences of a job with [OverlapSkip] do not overlap, in whichever processes
    their schedulers run, as far as their clocks agree.  Starting from a store in which at most one lease of the job is
    live, and as long as operations reach the store in the order of their times and the
    job's declared policy is [OverlapSkip], at most one lease of the job is live at the
    time of the last operation, renewals included, and at any later time. *)
Theorem overlap_skip_excludes (j : string) (ops : list op) (t now : Time.t) (st : MemoryStore)
  (Hwf : well_formed st) (Hst : single j t st) (Hskip : always (skips_overlap j) ops st)
  (Hops : in_order t ops) (Hnow : last_time t ops <= now) :
  single j now (run ops st).
Proof.
  apply (single_later _ (last_time t ops)); [done|]. clear Hnow now.
  revert t st Hwf Hst Hskip Hops. induction ops as [|o ops IH]; intros t st Hwf Hst; [done|].
  cbn [always in_order last_time run]. intros [Hs Hskip] Hops.
  assert (well_formed (apply o st)) by (by eapply step_well_formed; [apply apply_step|]).
  destruct (op_time o) as [t'|] eqn:Eo; cbn [default from_option id].
  - destruct Hops as [Hle Hops]. apply IH; [done| |done|done].
    apply (step_single j t' st o); [done|apply apply_step|done|congruence|].
    by eapply single_later.
  - apply IH; [done| |done|done].
    apply (step_single j t st o); [done|apply apply_step|done|congruence|done].
Qed.

(** ** No scheduled instant is lost *)

Definition recorded (j : string) (t : Time.t) (st : MemoryStore) : Prop :=
  exists id o, occurrences st !! id = Some o /\ JobName o = j /\ ScheduledAt o = t.

(** The job is declared with the schedule [d]. *)
Definition scheduled (j : string) (d : ScheduleDefinition) (st : MemoryStore) : Prop :=
  exists s, jobs st !! j = Some s /\ d_Schedule (s_Definition s) = d.

(** The cursor [c] is past what follows any recorded instant. *)
Definition behind (j : string) (schedule : Schedule) (c : Time.t) (st : MemoryStore) : Prop :=
  forall t, recorded j t st -> exists n, Next schedule t = Ok n /\ t < n /\ n <= c.

(** From [c] to [c'] the schedule runs at the instants [due], in this order. *)
Fixpoint passes (schedule : Schedule) (c : Time.t) (due : list Time.t) (c' : Time.t) : Prop :=
  match due with
  | [] => c = c'
  | t :: due => t = c /\ exists n, Next schedule c = Ok n /\ c < n /\ passes schedule n due c'
  end.

Lemma recorded_put j t id o st : occurrences st !! id = None ->
  recorded j t (put id o st) <-> (JobName o = j /\ ScheduledAt o = t) \/ recorded j t st.
Proof.
  intros Hn. unfold recorded. rewrite put_occurrences. split.
  - intros (id' & o' & H & Hj & Ht). apply lookup_insert_Some in H as [[<- <-]|[_ H]]; eauto 6.
  - intros [H|(id' & o' & H & Hj)]; [by exists id, o; rewrite lookup_insert_eq|].
    exists id', o'. rewrite lookup_insert_ne by congruence. done.
Qed.

(** A record rewritten in place keeps its instant. *)
Lemma recorded_again j t id o o' st : occurrences st !! id = Some o ->
  JobName o' = JobName o -> ScheduledAt o' = ScheduledAt o ->
  recorded j t (put id o' st) <-> recorded j t st.
Proof.
  intros Ho Ej Es. unfold recorded. rewrite put_occurrences. split.
  - intros (id' & o1 & H & Hj). apply lookup_insert_Some in H as [[<- <-]|[_ H]]; [|eauto].
    exists id, o. by rewrite <-Ej, <-Es.
  - intros (id' & o1 & H & Hj). destruct (decide (id' = id)) as [->|].
    + exists id, o'. rewrite lookup_insert_eq, Ej, Es. by simplify_eq.
    + exists id', o1. by rewrite lookup_insert_ne.
Qed.

Lemma advanced_job j j' n t st s : jobs st !! j = Some s ->
  exists s', jobs (advanceLocked j' n t st) !! j = Some s' /\ s_Definition s' = s_Definition s
    /\ NextRunAt s' = (if decide (j = j') then Z.max (NextRunAt s) n else NextRunAt s).
Proof.
  intros Hs. unfold advanceLocked. cbn [jobs update]. destruct (decide (j = j')) as [<-|].
  - rewrite lookup_insert_eq, Hs. eexists. split; [done|]. cbn [default from_option id].
    unfold Time.Before. destruct (Z.ltb_spec (NextRunAt s) n); (split; [done|]); cbn; lia.
  - rewrite lookup_insert_ne by done. eauto.
Qed.

(** The cursor of a job, from [c] in [st]: it has stayed, or has moved one instant of the
    schedule ahead and the instant it left is recorded. *)
Definition cursor_step (j : string) (d : ScheduleDefinition) (schedule : Schedule)
  (c : Time.t) (st st' : MemoryStore) : Prop :=
  (forall t, recorded j t st -> recorded j t st')
  /\ exists s, jobs st' !! j = Some s /\ d_Schedule (s_Definition s) = d
    /\ behind j schedule (NextRunAt s) st'
    /\ (NextRunAt s = c
        \/ Next schedule c = Ok (NextRunAt s) /\ c < NextRunAt s /\ recorded j c st').

Section cursor.
Context (j : string) (d : ScheduleDefinition) (schedule : Schedule) (st : MemoryStore)
        (s : JobState) (Hd : ScheduleFromDefinition d = Ok schedule)
        (Hs : jobs st !! j = Some s) (Hsd : d_Schedule (s_Definition s) = d)
        (Hb : behind j schedule (NextRunAt s) st).

(** An operation on an occurrence that is recorded. *)
Lemma cursor_kept j' n t st1 : jobs st1 = jobs st ->
  (forall t, recorded j t st1 <-> recorded j t st) -> (j = j' -> n <= NextRunAt s) ->
  cursor_step j d schedule (NextRunAt s) st (advanceLocked j' n t st1).
Proof.
  intros Ej Er Hn. split; [by intros ? ?%Er|]. rewrite <-Ej in Hs.
  destruct (advanced_job j j' n t st1 s Hs) as (s' & Hs' & Ed & En). exists s'.
  assert (NextRunAt s' = NextRunAt s) as E.
  { rewrite En. case_decide; [|done]. apply Z.max_l. auto. }
  rewrite Ed, E. repeat split; [done|done| |by left]. intros t' Ht'. by apply Hb, Er.
Qed.

(** An operation on an occurrence that is not, at the cursor of its job. *)
Lemma cursor_moved j' n t id o s0 : jobs st !! j' = Some s0 ->
  validateScheduleAdvance s0 (ScheduledAt o) n = Ok tt -> NextRunAt s0 = ScheduledAt o ->
  ScheduledAt o < n -> occurrences st !! id = None -> JobName o = j' ->
  cursor_step j d schedule (NextRunAt s) st (advanceLocked j' n t (put id o st)).
Proof.
  intros Hs0 Ha Hcur Hlt Hid Hj.
  destruct (advanced_job j j' n t (put id o st) s Hs) as (s' & Hs' & Ed & En).
  assert (forall t', recorded j t' (advanceLocked j' n t (put id o st))
    <-> (JobName o = j /\ ScheduledAt o = t') \/ recorded j t' st) as Hr.
  { intros t'. rewrite <-(recorded_put j t' id o st Hid). done. }
  split; [intros t' Ht'; apply Hr; by right|]. exists s'. split; [done|]. rewrite Ed.
  split; [done|]. destruct (decide (j = j')) as [->|Hne].
  - assert (s0 = s) as -> by congruence.
    apply (validateScheduleAdvance_ok _ _ _ schedule) in Ha; [|by rewrite Hsd].
    rewrite Z.max_r in En by lia. rewrite En, Hcur. split.
    + intros t' [[_ <-]|Ht']%Hr; [exists n; repeat split; [done|lia|lia]|].
      destruct (Hb t' Ht') as (n' & Hn' & Hlt' & Hle). exists n'. repeat split; [done|lia|lia].
    + right. split; [done|]. split; [done|]. apply Hr. by left.
  - rewrite En. split; [|by left]. intros t' [[? _]|Ht']%Hr; [congruence|by apply Hb].
Qed.

(** What is recorded is followed by an instant no later than the cursor. *)
Lemma found_behind id at_ o s0 n : found st id j at_ o -> jobs st !! j = Some s0 ->
  validateScheduleAdvance s0 at_ n = Ok tt -> n <= NextRunAt s.
Proof.
  intros (Ho & Hj & Hat) Hs0 Ha. assert (s0 = s) as -> by congruence.
  apply (validateScheduleAdvance_ok _ _ _ schedule) in Ha; [|by rewrite Hsd].
  destruct (Hb at_) as (n' & Hn' & _ & Hle); [by exists id, o|]. congruence.
Qed.

Lemma step_cursor o st' : step st o st' -> NextRunAt s <> 0 -> scheduled j d st' ->
  cursor_step j d schedule (NextRunAt s) st st'.
Proof.
  intros Hstep Hnz Hsch.
  assert (forall st1, jobs st1 = jobs st -> (forall t, recorded j t st1 <-> recorded j t st) ->
    cursor_step j d schedule (NextRunAt s) st st1) as Hsame.
  { intros st1 Ej Er. split; [by intros ? ?%Er|]. exists s. rewrite Ej.
    repeat split; try done; [|by left]. intros t Ht. by apply Hb, Er. }
  destruct Hstep as [o|ctx ds now active Ha|ctx q s0 r (Hv & Hs0 & Ha) Hf
    |ctx q s0 r (Hv & Hs0 & Ha) Hf Er _ _
    |ctx q s0 (Hv & Hs0 & Ha) Hn Hc|ctx q s0 (Hv & Hs0 & Ha) Hn Hc _
    |ctx q r (Hr & _) _|ctx q r (Hr & _) _ _ _|ctx q s0 (Hv & Hs0 & Ha) Hn Hc
    |ctx q s0 r (Hv & Hs0 & Ha) Hf Er _].
  - by apply Hsame.
  - destruct Hsch as (s' & Hs' & Hsd'). split; [done|]. exists s'. split; [done|].
    split; [done|]. cbn [jobs update] in Hs'.
    destruct (reconcileJobs_ok _ _ _ _ _ Ha _ _ Hs') as [[=]|(def & _ & <- & Hdef)].
    apply reconcileJob_ok in Hdef as (_ & _ & _ & _ & _ & _ & [(s0 & Hs0 & E & _)|(sc & _ & _ & Hch)]).
    + assert (s0 = s) as -> by congruence. rewrite E. by split; [|left].
    + destruct (Hch s Hs) as [[]|]; congruence.
  - apply cursor_kept; [done|done|]. intros E. rewrite <-E in *. by eapply found_behind.
  - apply cursor_kept; [done| |intros E; rewrite <-E in *; by eapply found_behind].
    intros t. by apply (recorded_again _ _ _ r); [apply Hf|..].
  - by eapply cursor_moved; [exact Hs0|exact Ha|exact Hc|apply validateClaim_ok|..].
  - by eapply cursor_moved; [exact Hs0|exact Ha|exact Hc|apply validateClaim_ok|..].
  - apply Hsame; [done|]. intros t. by apply (recorded_again _ _ _ r).
  - apply Hsame; [done|]. intros t. by apply (recorded_again _ _ _ r).
  - by eapply cursor_moved; [exact Hs0|exact Ha|exact Hc|apply validateSkip_ok|..].
  - apply cursor_kept; [done| |intros E; rewrite <-E in *; by eapply found_behind].
    intros t. by apply (recorded_again _ _ _ r); [apply Hf|..].
Qed.
End cursor.

(** C16: no scheduled instant is lost.  As long as a job stays declared with one schedule,
    its cursor moves through the consecutive instants of that schedule and through no
    others, never back, and every instant it has moved past has an occurrence record,
    whichever schedulers did it and in whatever order claims, skips, renewals,
    completions and reconciliations came. *)
Theorem no_instant_lost (j : string) (d : ScheduleDefinition) (schedule : Schedule)
  (ops : list op) (st : MemoryStore) (s : JobState)
  (Hd : ScheduleFromDefinition d = Ok schedule) (Hs : jobs st !! j = Some s)
  (Hcur : 0 < NextRunAt s) (Hb : behind j schedule (NextRunAt s) st)
  (Hsch : always (scheduled j d) ops st) :
  exists s' due, jobs (run ops st) !! j = Some s'
    /\ passes schedule (NextRunAt s) due (NextRunAt s')
    /\ Forall (fun t => recorded j t (run ops st)) due.
Proof.
  enough (exists s' due, jobs (run ops st) !! j = Some s'
    /\ passes schedule (NextRunAt s) due (NextRunAt s')
    /\ Forall (fun t => recorded j t (run ops st)) due
    /\ forall t, recorded j t st -> recorded j t (run ops st)) by naive_solver.
  revert st s Hs Hcur Hb Hsch.
  induction ops as [|o ops IH]; intros st s Hs Hcur Hb.
  { intros _. exists s, []. done. }
  cbn [always run]. intros [(s0 & Hs0 & Hsd) Hsch]. assert (s0 = s) as -> by congruence.
  destruct (step_cursor j d schedule st s Hd Hs Hsd Hb o _ (apply_step o st))
    as [Hrec (s1 & Hs1 & _ & Hb1 & Hstep)]; [lia|by destruct ops; apply Hsch|].
  destruct (IH (apply o st) s1) as (s' & due & Hs' & Hp & Hall & Hkeep);
    [done|naive_solver lia|done|done|].
  destruct Hstep as [E|(Hnext & Hlt & Hnow)].
  - exists s', due. rewrite <-E. naive_solver.
  - exists s', (NextRunAt s :: due). split; [done|]. split; [|split; [constructor|]]; naive_solver.
Qed.
End leases.
Close Scope Z_scope.

(** ** Witnesses *)

Module Demo.

(** Two replicas and a job that runs every minute. *)
Definition clock (mi sec : Z) : Time.t := (at_UTC 2026 8 10 12 mi + sec * Time.Second)%Z.
Definition every_minute : Schedule := Anchor (clock 0 0) (Spec (Every Time.Minute)).
Definition declared_as : ScheduleDefinition :=
  match Definition_ zoneinfo pretty no_cron every_minute with
  | Ok d => d
  | Err _ => noDefinition
  end.
Definition rollup : JobDefinition :=
  {| d_Name := "rollup"; d_Schedule := declared_as; CatchUp := CatchUpAll;
     Overlap := OverlapSkip |}.
Definition claim (mi : Z) (token : string) (now : Time.t) : ClaimRequest :=
  {| c_OccurrenceID := OccurrenceID (fun s => s) "rollup" (clock mi 0); c_JobName := "rollup";
     c_ScheduledAt := clock mi 0; c_NextRunAt := clock (mi + 1)%Z 0; c_LeaseOwner := "replica";
     c_LeaseToken := token; ClaimedAt := now; c_LeaseUntil := (now + 30 * Time.Second)%Z |}.

(** The first occurrence is claimed, expires, and is claimed again under a new token;
    meanwhile the second has been skipped, for the first was running. *)
Definition day : list op :=
  [OReconcile Background [rollup] (clock 0 0);
   OClaim Background (claim 1 "lease_a" (clock 1 40));
   OClaim Background (claim 2 "lease_b" (clock 2 5));
   OClaim Background (claim 1 "lease_c" (clock 2 20));
   OClaim Background (claim 3 "lease_d" (clock 3 1))].
Definition noon : MemoryStore :=
  run (fun s => s) zoneinfo pretty no_cron (take 1 day) NewMemoryStore.
Definition before_reclaim : MemoryStore :=
  run (fun s => s) zoneinfo pretty no_cron (take 3 day) NewMemoryStore.
Definition evening : MemoryStore :=
  run (fun s => s) zoneinfo pretty no_cron day NewMemoryStore.

Example evening_records :
  (fun o => (ScheduledAt o, Status o, Attempt o, SkipReason o))
    <$> merge_sort scheduled_le (map_to_list (occurrences evening)).*2
  = [(clock 1 0, OccurrenceRunning, 2%N, ""); (clock 2 0, OccurrenceSkipped, 0%N, "overlap");
     (clock 3 0, OccurrenceRunning, 1%N, "")].
Proof. vm_compute. reflexivity. Qed.
End Demo.

Lemma store_well_formed_witness : well_formed (fun s => s) Demo.evening.
Proof.
  apply (store_well_formed (fun s => s) zoneinfo pretty no_cron Demo.day NewMemoryStore).
  split; apply map_Forall_empty.
Defined.

Lemma leases_are_fenced_witness :
  exists res st', Claim (fun s => s) zoneinfo pretty no_cron Background
      (Demo.claim 1 "lease_c" (Demo.clock 2 20)) Demo.before_reclaim = Ok (res, st')
    /\ heldLease (c_OccurrenceID (Demo.claim 1 "lease_c" (Demo.clock 2 20))) "lease_a"
         (Demo.clock 2 25) (run (fun s => s) zoneinfo pretty no_cron (drop 4 Demo.day) st')
       = Err ErrLeaseLost.
Proof.
  set (q := Demo.claim 1 "lease_c" (Demo.clock 2 20)).
  assert (match Claim (fun s => s) zoneinfo pretty no_cron Background q Demo.before_reclaim with
          | Ok (res, _) => bool_decide (Disposition res = ClaimAcquired)
          | Err _ => false
          end = true) as Hacq by (vm_compute; reflexivity).
  destruct (Claim (fun s => s) zoneinfo pretty no_cron Background q Demo.before_reclaim)
    as [[res st']|e] eqn:E; [|discriminate Hacq].
  exists res, st'. split; [reflexivity|]. apply bool_decide_eq_true in Hacq.
  destruct (leases_are_fenced (fun s => s) zoneinfo pretty no_cron Background q res
    Demo.before_reclaim st' (drop 4 Demo.day) "lease_a") as [H _]; [exact E|exact Hacq| | |apply H].
  - discriminate.
  - constructor; [|constructor]. intros [_ H]. discriminate H.
Defined.

Lemma overlap_skip_excludes_witness : single "rollup" (Demo.clock 3 1) Demo.evening.
Proof.
  apply (overlap_skip_excludes (fun s => s) zoneinfo pretty no_cron "rollup" Demo.day 0%Z
    (Demo.clock 3 1) NewMemoryStore).
  - split; apply map_Forall_empty.
  - intros id1 id2 o1 o2 H. discriminate H.
  - repeat split; intros s Hs; vm_compute in Hs;
      solve [discriminate Hs|injection Hs as <-; reflexivity].
  - vm_compute. repeat split; discriminate.
  - vm_compute. discriminate.
Defined.

Lemma no_instant_lost_witness :
  let evening := run (fun s => s) zoneinfo pretty no_cron (drop 1 Demo.day) Demo.noon in
  exists s s' due, jobs Demo.noon !! "rollup" = Some s /\ jobs evening !! "rollup" = Some s'
    /\ passes zoneinfo no_cron Demo.every_minute (NextRunAt s) due (NextRunAt s')
    /\ Forall (fun t => recorded "rollup" t evening) due.
Proof.
  intros evening.
  destruct (jobs Demo.noon !! "rollup") as [s|] eqn:E; [|vm_compute in E; discriminate E].
  exists s.
  destruct (no_instant_lost (fun s => s) zoneinfo pretty no_cron "rollup" Demo.declared_as
    Demo.every_minute (drop 1 Demo.day) Demo.noon s) as (s' & due & H);
    [vm_compute; reflexivity|exact E| | | |exists s', due; split; [reflexivity|exact H]].
  - vm_compute in E. injection E as <-. vm_compute. reflexivity.
  - intros t (id & o & H & _). vm_compute in H. discriminate H.
  - repeat split; eexists; split; vm_compute; reflexivity.
Defined.
