(* ===== verification/CronService.v ===== *)
(** * The scheduler

    [pkg/cron/options.go] and [pkg/cron/service.go]: the options and [New], and the
    service that reconciles its jobs with a store, cycles through what is due and
    starts invocations under leases.

    The store is an instance of [IStore]; a call may change it whatever it returns.
    What the service reaches outside itself is given by the section's variables: the
    clock, the random source, the state of the context and what other goroutines and
    processes have done to the store, each by the number of the read or call that
    meets it.  A [world] is the service's mutable state with the number of reads so
    far, the calls made and the workers started.  [runtimeJob] pointers are indices
    into [rjobs].  A worker's two goroutines are [renewal_of] and [completion_of], the
    requests they make; metrics and the waiting itself are not modelled. *)

From Stdlib Require Import Ascii.
From S2P Require Import Prelude.
From S2P Require Import GoStd.
From S2P Require Import GoText.
From S2P Require Import GoTime.
From S2P Require Import GoFormat.
From S2P Require Import CronSchedule.
From S2P Require Import CronStore.

Open Scope Z_scope.

(** ** The store, as the service sees it *)

Class IStore (St E : Type) := {
  store_Reconcile : context -> list JobDefinition -> Time.t -> St -> St * result E (list JobState);
  store_Claim : context -> ClaimRequest -> St -> St * result E ClaimResult;
  store_Renew : context -> LeaseRenewal -> St -> St * result E unit;
  store_Complete : context -> Completion -> St -> St * result E unit;
  store_Skip : context -> SkipRequest -> St -> St * result E unit;
  store_Expired : context -> Time.t -> Z -> St -> St * result E (list OccurrenceRecord);
  store_Snapshot : context -> St -> St * result E StoreSnapshot;
}.

(** A method of [MemoryStore]: an error leaves the store alone. *)
Definition returning {St E A} (st : St) (r : result E (A * St)) : St * result E A :=
  match r with Ok (a, st') => (st', Ok a) | Err e => (st, Err e) end.
Definition updating {St E} (st : St) (r : result E St) : St * result E unit :=
  match r with Ok st' => (st', Ok tt) | Err e => (st, Err e) end.

#[export] Instance MemoryStore_IStore (Sum256 : string -> string)
  (LoadLocation : string -> option Location) (duration_String : Time.Duration -> string)
  (ParseCron : string -> option RawSchedule) : IStore MemoryStore store_error := {
  store_Reconcile ctx ds now st :=
    returning st (Reconcile LoadLocation duration_String ParseCron ctx ds now st);
  store_Claim ctx q st :=
    returning st (Claim Sum256 LoadLocation duration_String ParseCron ctx q st);
  store_Renew ctx q st := updating st (Renew ctx q st);
  store_Complete ctx q st := updating st (Complete ctx q st);
  store_Skip ctx q st :=
    updating st (Skip Sum256 LoadLocation duration_String ParseCron ctx q st);
  store_Expired ctx now limit st := (st, Expired ctx now limit st);
  store_Snapshot ctx st := (st, Snapshot ctx st);
}.

(** ** Options *)

Definition defaultLeaseDuration : Time.Duration := 30 * Time.Second.
Definition defaultCatchUpLimit : Z := 1000.

Inductive config_error :=
| ErrNilOption | ErrNilStore | ErrStoreRequired | ErrNoJobs | ErrLeaseOwnerSource
| ErrConfigName (e : store_error) | ErrConfigSchedule (name : string) (e : error)
| ErrNilHandler (name : string) | ErrNilJobOption (name : string)
| ErrCatchUp (policy : string) | ErrOverlap (policy : string)
| ErrLeaseDuration | ErrCatchUpLimit | ErrLeaseOwner | ErrNilClock
| ErrConfigDuplicate (name : string).

Record jobConfig := mkJobConfig { catchUp : string; overlap : string }.
#[export] Instance Rebuild_jobConfig : Rebuild jobConfig := fun c =>
  mkJobConfig (catchUp c) (overlap c).

Record registeredJob {Handler : Type} := mkRegistered {
  name : string;
  schedule : Schedule;
  handler : Handler;
  config : jobConfig;
}.
Arguments registeredJob : clear implicits.
#[export] Instance Rebuild_registeredJob {H} : Rebuild (registeredJob H) := fun j =>
  mkRegistered H (name j) (schedule j) (handler j) (config j).

(** A clock gives the instant of its n-th reading. *)
Definition Clock : Type := nat -> Time.t.

Record serviceConfig {St Handler : Type} := mkServiceConfig {
  g_store : option St;
  g_jobs : list (registeredJob Handler);
  g_leaseDuration : Time.Duration;
  g_catchUpLimit : Z;
  g_leaseOwner : string;
  g_now : Clock;
}.
Arguments serviceConfig : clear implicits.
#[export] Instance Rebuild_serviceConfig {St H} : Rebuild (serviceConfig St H) := fun c =>
  mkServiceConfig St H (g_store c) (g_jobs c) (g_leaseDuration c) (g_catchUpLimit c)
    (g_leaseOwner c) (g_now c).

Definition JobOption : Type := jobConfig -> result config_error jobConfig.
Definition Option (St Handler : Type) : Type :=
  serviceConfig St Handler -> result config_error (serviceConfig St Handler).

Definition WithCatchUp (policy : string) : JobOption := fun config =>
  guard! catchUp_valid policy else ErrCatchUp policy in Ok (config <| catchUp := policy |>).
Definition WithOverlap (policy : string) : JobOption := fun config =>
  guard! overlap_valid policy else ErrOverlap policy in Ok (config <| overlap := policy |>).

(** The bytes of [prefix + "_" + hex], from the sixteen the random source gave. *)
Definition randomIdentity (prefix : string) (value : option string) : option string :=
  match value with
  | None => None
  | Some value => Some (prefix +:+ "_" +:+ EncodeToString value)
  end.

Fixpoint jobOptions (name : string) (options : list (option JobOption)) (config : jobConfig)
  : result config_error jobConfig :=
  match options with
  | [] => Ok config
  | None :: _ => Err (ErrNilJobOption name)
  | Some option :: options => let! config := option config in jobOptions name options config
  end.

Section options.
Context {St Handler : Type}
        (LoadLocation : string -> option Location) (ParseCron : string -> option RawSchedule).

Definition WithStore (store : option St) : Option St Handler := fun config =>
  match store with
  | None => Err ErrNilStore
  | Some st => Ok (config <| g_store := Some st |>)
  end.

Definition WithJob (name : string) (schedule : Schedule) (handler : option Handler)
  (options : list (option JobOption)) : Option St Handler := fun config =>
  match validateJobName name with
  | Err e => Err (ErrConfigName e)
  | Ok _ =>
      match Validate LoadLocation ParseCron schedule with
      | Err e => Err (ErrConfigSchedule name e)
      | Ok _ =>
          match handler with
          | None => Err (ErrNilHandler name)
          | Some handler =>
              let! jobConfig := jobOptions name options (mkJobConfig CatchUpNone OverlapSkip) in
              Ok (config <| g_jobs ::= fun jobs =>
                    jobs ++ [mkRegistered Handler name schedule handler jobConfig] |>)
          end
      end
  end.

Definition WithLeaseDuration (duration : Time.Duration) : Option St Handler := fun config =>
  guard! negb ((duration <? Time.Microsecond) || negb (Z.rem duration Time.Microsecond =? 0))
    else ErrLeaseDuration in
  Ok (config <| g_leaseDuration := duration |>).

Definition WithCatchUpLimit (limit : Z) : Option St Handler := fun config =>
  guard! negb ((limit <=? 0) || (maxCatchUpLimit <? limit)) else ErrCatchUpLimit in
  Ok (config <| g_catchUpLimit := limit |>).

Definition WithLeaseOwner (owner : string) : Option St Handler := fun config =>
  let owner := TrimSpace owner in
  guard! negb (bool_decide (owner = "") || (128 <? String.length owner)%nat)
    else ErrLeaseOwner in
  Ok (config <| g_leaseOwner := owner |>).

Definition withNow (now : option Clock) : Option St Handler := fun config =>
  match now with
  | None => Err ErrNilClock
  | Some now => Ok (config <| g_now := now |>)
  end.
End options.

(** ** New *)

(** What does not change while the service lives; its store is part of the world. *)
Record Service {Handler : Type} := mkService {
  v_jobs : gmap string (registeredJob Handler);
  jobNames : list string;
  leaseDuration : Time.Duration;
  catchUpLimit : Z;
  leaseOwner : string;
  clock : Clock;
}.
Arguments Service : clear implicits.

Section new.
Context {St Handler : Type} (time_Now : Clock).

Fixpoint applyOptions (options : list (option (Option St Handler)))
  (config : serviceConfig St Handler) : result config_error (serviceConfig St Handler) :=
  match options with
  | [] => Ok config
  | None :: _ => Err ErrNilOption
  | Some option :: options => let! config := option config in applyOptions options config
  end.

Fixpoint registerJobs (js : list (registeredJob Handler))
  (jobs : gmap string (registeredJob Handler)) : result config_error (gmap string (registeredJob Handler)) :=
  match js with
  | [] => Ok jobs
  | job :: js =>
      guard! negb (bool_decide (is_Some (jobs !! name job))) else ErrConfigDuplicate (name job) in
      registerJobs js (<[name job := job]> jobs)
  end.

(** [value] is what the random source gives if it is asked. *)
Definition New (options : list (option (Option St Handler))) (value : option string)
  : result config_error (St * Service Handler) :=
  let! config := applyOptions options
    {| g_store := None; g_jobs := []; g_leaseDuration := defaultLeaseDuration;
       g_catchUpLimit := defaultCatchUpLimit; g_leaseOwner := ""; g_now := time_Now |} in
  match g_store config with
  | None => Err ErrStoreRequired
  | Some store =>
      guard! negb (length (g_jobs config) =? 0)%nat else ErrNoJobs in
      let! leaseOwner :=
        if bool_decide (g_leaseOwner config = "") then
          match randomIdentity "runner" value with
          | None => Err ErrLeaseOwnerSource
          | Some owner => Ok owner
          end
        else Ok (g_leaseOwner config) in
      let! jobs := registerJobs (g_jobs config) ∅ in
      Ok (store, {| v_jobs := jobs; jobNames := name <$> g_jobs config;
                    leaseDuration := g_leaseDuration config;
                    catchUpLimit := g_catchUpLimit config; leaseOwner := leaseOwner;
                    clock := g_now config |})
  end.
End new.

(** ** Pure parts of the cycle *)

Record dueOccurrence := mkDue { scheduledAt : Time.t; nextRunAt : Time.t }.

Section due.
Context (LoadLocation : string -> option Location) (ParseCron : string -> option RawSchedule).
#[local] Abbreviation Next := (Next LoadLocation ParseCron).

(** The loop of [collectDue]; [limit] counts down to the occurrences there is room for. *)
Fixpoint collectDue (schedule : Schedule) (next now : Time.t) (limit : nat)
  {struct limit} : result error (list dueOccurrence * bool) :=
  if Time.After next now then Ok ([], false)
  else
    match limit with
    | O => Ok ([], true)
    | S limit =>
        let! following := Next schedule next in
        let! rest := collectDue schedule following now limit in
        Ok (mkDue next following :: rest.1, rest.2)
    end.
End due.

Definition occurrenceRunIndex (policy : string) (count : nat) (startup more : bool) : nat :=
  if (count =? 0)%nat || bool_decide (policy = CatchUpAll) then 0
  else if startup && bool_decide (policy = CatchUpNone) then count
  else if more then count
  else (count - 1)%nat.

(** A third of the lease; the interval of a worker's ticker too. *)
Definition recoveryInterval (leaseDuration : Time.Duration) : Time.Duration :=
  let interval := leaseDuration ÷ 3 in
  if interval <=? 0 then leaseDuration else interval.

(** [None] is the panic of [jobs[0]]. *)
Definition nextWait (cursors : list Time.t) (now : Time.t) (maximum : Time.Duration)
  : option Time.Duration :=
  match cursors with
  | [] => None
  | next :: cursors =>
      let next := fold_left (fun next c => if Time.Before c next then c else next) cursors next in
      Some (if negb (Time.After next now) then 0
            else let wait := Time.Sub next now in
                 if maximum <? wait then maximum else wait)
  end.

(** ** Workers *)

(** What a handler returned: nil, or an error that is a cancellation or not. *)
Record job_error := mkJobError { canceled : bool; deadlineExceeded : bool; text : string }.

Record Invocation := mkInvocation {
  i_ID : string;
  i_JobName : string;
  i_ScheduledAt : Time.t;
  i_StartedAt : Time.t;
  i_Attempt : N;
}.

Definition maxRecordedError : nat := 4096.

(** [strings.ToValidUTF8(s, "?")]: each run of invalid bytes is one mark. *)
Fixpoint to_valid (fuel : nat) (invalid : bool) (l : list ascii) : list ascii :=
  match fuel with
  | O => []
  | S fuel =>
      match l with
      | [] => []
      | c :: rest =>
          match UTF8.rune_len l with
          | Some n => take n l ++ to_valid fuel false (drop n l)
          | None => (if invalid then [] else ["?"%char]) ++ to_valid fuel true rest
          end
      end
  end.
Definition ToValidUTF8 (s : string) : string :=
  let l := String.list_ascii_of_string s in
  String.string_of_list_ascii (to_valid (length l) false l).

(** The loop that cuts a text back to whole characters. *)
Fixpoint cut_to_valid (fuel : nat) (s : string) : string :=
  match fuel with
  | O => s
  | S fuel =>
      if UTF8.ValidString s then s
      else cut_to_valid fuel (String.substring 0 (String.length s - 1) s)
  end.

Definition boundedError (err : option job_error) : string :=
  match err with
  | None => ""
  | Some err =>
      let message := ToValidUTF8 (text err) in
      if (String.length message <=? maxRecordedError)%nat then message
      else TrimSpace (cut_to_valid maxRecordedError (String.substring 0 maxRecordedError message))
  end.

Definition invocationStatus (err : option job_error) : OccurrenceStatus :=
  match err with
  | None => OccurrenceSucceeded
  | Some e => if canceled e || deadlineExceeded e then OccurrenceCanceled else OccurrenceFailed
  end.

(** [callJob]: a panic is an error like another. *)
Definition callJob (outcome : string + option job_error) : option job_error :=
  match outcome with
  | inl recovered => Some (mkJobError false false ("job panic: " +:+ recovered))
  | inr err => err
  end.

Definition completion_of (invocation : Invocation) (leaseToken : string)
  (err : option job_error) (finishedAt : Time.t) : Completion :=
  {| e_OccurrenceID := i_ID invocation; e_LeaseToken := leaseToken;
     e_Status := invocationStatus err; e_FinishedAt := finishedAt;
     e_Error := boundedError err |}.

Definition renewal_of (leaseDuration : Time.Duration) (occurrenceID leaseToken : string)
  (renewedAt : Time.t) : LeaseRenewal :=
  {| r_OccurrenceID := occurrenceID; r_LeaseToken := leaseToken; RenewedAt := renewedAt;
     r_LeaseUntil := renewedAt + leaseDuration |}.

(** ** The running service *)

Inductive run_error {E : Type} :=
| ErrNilRunContext | ErrAlreadyRunning
| ErrProjection (name : string) (e : error) | ErrReconcile (e : E)
| ErrActiveJobs (got want : nat) | ErrUnknownJob (name : string)
| ErrDuplicateState (name : string) | ErrZeroNext (name : string)
| ErrReconstruct (name : string) (e : error)
| ErrListExpired (e : E) | ErrInactiveJob (id name : string)
| ErrExpiredNext (name : string) (e : error)
| ErrSkip (name id : string) (e : E)
| ErrTokenSource (name : string) | ErrClaim (name id : string) (e : E)
| ErrDue (name : string) (e : error)
| ErrWorker (id : string) (e : E).
Arguments run_error : clear implicits.

Inductive call :=
| CallReconcile (definitions : list JobDefinition) (now : Time.t)
| CallExpired (now : Time.t) (limit : Z)
| CallSkip (request : SkipRequest)
| CallClaim (request : ClaimRequest).

Record runtimeJob {Handler : Type} := mkRuntimeJob {
  registered : registeredJob Handler;
  rschedule : Schedule;
  state : JobState;
  startup : bool;
}.
Arguments runtimeJob : clear implicits.
#[export] Instance Rebuild_runtimeJob {H} : Rebuild (runtimeJob H) := fun j =>
  mkRuntimeJob H (registered j) (rschedule j) (state j) (startup j).

Record worker {Handler : Type} := mkWorker {
  invocation : Invocation;
  leaseToken : string;
  whandler : Handler;
}.
Arguments worker : clear implicits.

Record world {St Handler : Type} := mkWorld {
  store : St;
  running : bool;
  rjobs : list (runtimeJob Handler);
  workers : list (worker Handler);
  trace : list call;
  reads : nat;
  draws : nat;
}.
Arguments world : clear implicits.
#[export] Instance Rebuild_world {St H} : Rebuild (world St H) := fun w =>
  mkWorld St H (store w) (running w) (rjobs w) (workers w) (trace w) (reads w) (draws w).

Section service.
Context {St E Handler : Type} `{IStore St E}
        (Sum256 : string -> string) (LoadLocation : string -> option Location)
        (duration_String : Time.Duration -> string) (ParseCron : string -> option RawSchedule).
(** The random source, the context of the run and the rest of the world, by the number
    of the read or the call that meets them; and whether an error of the store [Is] a
    context's cause. *)
Context (random : nat -> option string) (contexts : nat -> context)
        (others : nat -> St -> St) (Is : E -> string -> bool).
Context (service : Service Handler).
#[local] Abbreviation world := (world St Handler).
#[local] Abbreviation run_error := (run_error E).
#[local] Abbreviation runtimeJob := (runtimeJob Handler).
#[local] Abbreviation Next := (Next LoadLocation ParseCron).
#[local] Abbreviation collectDue := (collectDue LoadLocation ParseCron).

Definition M (A : Type) : Type := world -> world * result run_error A.
Definition ret {A} (a : A) : M A := fun w => (w, Ok a).
Definition fail {A} (e : run_error) : M A := fun w => (w, Err e).
Definition bind {A B} (m : M A) (k : A -> M B) : M B := fun w =>
  match m w with
  | (w, Ok a) => k a w
  | (w, Err e) => (w, Err e)
  end.
Notation "'let*' x ':=' m 'in' k" := (bind m (fun x => k))
  (at level 10, x name, m at level 100, k at level 200).

(** [service.now().UTC()]. *)
Definition now_ : M Time.t := fun w => (w <| reads ::= S |>, Ok (clock service (reads w))).
Definition random_ : M (option string) := fun w => (w <| draws ::= S |>, Ok (random (draws w))).

(** A call of the store: what others did comes first. *)
Definition call_store {A} (c : call) (method : context -> St -> St * result E A)
  (wrap : E -> run_error) : M A := fun w =>
  let n := length (trace w) in
  let '(st, r) := method (contexts n) (others n (store w)) in
  (w <| store := st |> <| trace := trace w ++ [c] |>,
   match r with Ok a => Ok a | Err e => Err (wrap e) end).

Definition get_job (i : nat) : M (option runtimeJob) := fun w => (w, Ok (rjobs w !! i)).
Definition set_job (i : nat) (f : runtimeJob -> runtimeJob) : M unit := fun w =>
  (w <| rjobs ::= alter f i |>, Ok tt).

(** *** Reconciliation *)

Fixpoint definitions_of (names : list string) : result run_error (list JobDefinition) :=
  match names with
  | [] => Ok []
  | n :: names =>
      match v_jobs service !! n with
      | None => Err (ErrProjection n ErrNilLocation)
      | Some job =>
          match Definition_ LoadLocation duration_String ParseCron (schedule job) with
          | Err e => Err (ErrProjection n e)
          | Ok d =>
              let! rest := definitions_of names in
              Ok (mkJobDefinition n d (catchUp (config job)) (overlap (config job)) :: rest)
          end
      end
  end.

(** [seen] holds the names of the jobs built so far. *)
Fixpoint runtimeJobs (seen : list string) (states : list JobState)
  : result run_error (list runtimeJob) :=
  match states with
  | [] => Ok []
  | state :: states =>
      let n := d_Name (s_Definition state) in
      match v_jobs service !! n with
      | None => Err (ErrUnknownJob n)
      | Some job =>
          guard! negb (bool_decide (n ∈ seen)) else ErrDuplicateState n in
          guard! negb (Time.IsZero (NextRunAt state)) else ErrZeroNext n in
          match ScheduleFromDefinition LoadLocation duration_String ParseCron
                  (d_Schedule (s_Definition state)) with
          | Err e => Err (ErrReconstruct n e)
          | Ok s =>
              let job := job <| schedule := s |>
                <| config := mkJobConfig (CatchUp (s_Definition state))
                                         (Overlap (s_Definition state)) |> in
              let! rest := runtimeJobs (n :: seen) states in
              Ok (mkRuntimeJob Handler job s state true :: rest)
          end
      end
  end.

Definition lift {A} (r : result run_error A) : M A := fun w => (w, r).

Definition reconcile (now : Time.t) : M (list runtimeJob) :=
  let* definitions := lift (definitions_of (jobNames service)) in
  let* states := call_store (CallReconcile definitions now)
    (fun ctx st => store_Reconcile ctx definitions now st) ErrReconcile in
  if negb (length states =? size (v_jobs service))%nat then
    fail (ErrActiveJobs (length states) (size (v_jobs service)))
  else lift (runtimeJobs [] states).

(** *** One cycle *)

Definition skip (i : nat) (job : runtimeJob) (occurrence : dueOccurrence) (reason : string)
  : M unit :=
  let* now := now_ in
  let n := name (registered job) in
  let request :=
    {| k_OccurrenceID := OccurrenceID Sum256 n (scheduledAt occurrence); k_JobName := n;
       k_ScheduledAt := scheduledAt occurrence; k_NextRunAt := nextRunAt occurrence;
       SkippedAt := now; Reason := reason |} in
  let* _ := call_store (CallSkip request) (fun ctx st => store_Skip ctx request st)
    (ErrSkip n (k_OccurrenceID request)) in
  set_job i (fun job => job <| state := (state job) <| NextRunAt := nextRunAt occurrence |>
                                                    <| UpdatedAt := now |> |>).

Definition startInvocation (h : Handler) (inv : Invocation) (token : string) : M unit :=
  fun w => (w <| workers ::= fun l => l ++ [mkWorker Handler inv token h] |>, Ok tt).

Definition claimAndRun (i : nat) (job : runtimeJob) (occurrence : dueOccurrence)
  : M ClaimDisposition :=
  let* now := now_ in
  let n := name (registered job) in
  let* value := random_ in
  match randomIdentity "lease" value with
  | None => fail (ErrTokenSource n)
  | Some token =>
      let request :=
        {| c_OccurrenceID := OccurrenceID Sum256 n (scheduledAt occurrence); c_JobName := n;
           c_ScheduledAt := scheduledAt occurrence; c_NextRunAt := nextRunAt occurrence;
           c_LeaseOwner := leaseOwner service; c_LeaseToken := token; ClaimedAt := now;
           c_LeaseUntil := now + leaseDuration service |} in
      let* result := call_store (CallClaim request) (fun ctx st => store_Claim ctx request st)
        (ErrClaim n (c_OccurrenceID request)) in
      let* _ := set_job i (fun job =>
        let job := if Time.Before (NextRunAt (state job)) (nextRunAt occurrence)
                   then job <| state := (state job) <| NextRunAt := nextRunAt occurrence |> |>
                   else job in
        job <| state := (state job) <| UpdatedAt := now |> |>) in
      if negb (bool_decide (Disposition result = ClaimAcquired)) then ret (Disposition result)
      else
        let o := Occurrence result in
        let* _ := startInvocation (handler (registered job))
          (mkInvocation (ID o) (JobName o) (ScheduledAt o) (StartedAt o) (Attempt o)) token in
        ret (Disposition result)
  end.

(** [byName]: the last job of a name. *)
Definition byName (w : world) : gmap string nat :=
  fst (fold_left (fun acc job => (<[name (registered job) := acc.2]> acc.1, S acc.2))
         (rjobs w) (∅, O)).

Fixpoint recoverAll (names : gmap string nat) (records : list OccurrenceRecord)
  (progressed : bool) : M bool :=
  match records with
  | [] => ret progressed
  | record :: records =>
      match names !! JobName record with
      | None => fail (ErrInactiveJob (ID record) (JobName record))
      | Some i =>
          let* job := get_job i in
          match job with
          | None => fail (ErrInactiveJob (ID record) (JobName record))
          | Some job =>
              match Next (rschedule job) (ScheduledAt record) with
              | Err e => fail (ErrExpiredNext (JobName record) e)
              | Ok next =>
                  let* disposition := claimAndRun i job (mkDue (ScheduledAt record) next) in
                  recoverAll names records
                    (progressed || negb (bool_decide (disposition = ClaimLeaseHeld)))
              end
          end
      end
  end.

Definition recoverExpired (now : Time.t) : M bool :=
  let* records := call_store (CallExpired now (catchUpLimit service))
    (fun ctx st => store_Expired ctx now (catchUpLimit service) st) ErrListExpired in
  let* names := (fun w => (w, Ok (byName w))) in
  let* progressed := recoverAll names records false in
  ret (progressed && (Z.of_nat (length records) =? catchUpLimit service)).

(** The inner loop of [cycle], from occurrence number [index]. *)
Fixpoint runDue (i : nat) (job : runtimeJob) (firstToRun index : nat)
  (due : list dueOccurrence) : M unit :=
  match due with
  | [] => ret tt
  | occurrence :: due =>
      let* _ :=
        if (index <? firstToRun)%nat then
          let reason :=
            if startup job && bool_decide (catchUp (config (registered job)) = CatchUpNone)
            then "catch_up_disabled" else "superseded" in
          skip i job occurrence reason
        else let* _ := claimAndRun i job occurrence in ret tt in
      runDue i job firstToRun (S index) due
  end.

(** One round of the outer loop; its value is [more]. *)
Definition cycleJob (now : Time.t) (i : nat) : M bool :=
  let* job := get_job i in
  match job with
  | None => ret false
  | Some job =>
      match collectDue (rschedule job) (NextRunAt (state job)) now
              (Z.to_nat (catchUpLimit service)) with
      | Err e => fail (ErrDue (name (registered job)) e)
      | Ok (due, more) =>
          if (length due =? 0)%nat then
            let* _ := set_job i (fun job => job <| startup := false |>) in ret false
          else
            let firstToRun := occurrenceRunIndex (catchUp (config (registered job)))
                                (length due) (startup job) more in
            let* _ := runDue i job firstToRun 0 due in
            let* _ := if more then ret tt
                      else set_job i (fun job => job <| startup := false |>) in
            ret more
      end
  end.

Fixpoint cycleJobs (now : Time.t) (indices : list nat) (immediate : bool) : M bool :=
  match indices with
  | [] => ret immediate
  | i :: indices =>
      let* more := cycleJob now i in
      cycleJobs now indices (immediate || more)
  end.

Definition cycle (now : Time.t) : M bool :=
  let* immediate := recoverExpired now in
  let* n := (fun w => (w, Ok (length (rjobs w)))) in
  cycleJobs now (seq 0 n) immediate.

(** *** Run *)

(** What ends the wait of the loop. *)
Inductive wake := Cancelled | RuntimeError (e : run_error) | Tick.

(** The cause of the run's context, and the store's error inside an error of the run. *)
Definition store_error_of (e : run_error) : option E :=
  match e with
  | ErrReconcile e | ErrListExpired e | ErrSkip _ _ e | ErrClaim _ _ e | ErrWorker _ e => Some e
  | _ => None
  end.
Definition normalizeRunError (ctx : context) (e : run_error) : option run_error :=
  match ctx with
  | Done cause =>
      let is_ c := match store_error_of e with Some e => Is e c | None => false end in
      if is_ cause || is_ "context canceled" || is_ "context deadline exceeded" then None
      else Some e
  | _ => Some e
  end.

(** How a run stands: still waiting, or returned. *)
Inductive outcome := Waiting (wait : Time.Duration) | Returned (err : option run_error).

Definition normalized (m : M bool) (k : bool -> world -> world * outcome) (w : world)
  : world * outcome :=
  match m w with
  | (w, Ok immediate) => k immediate w
  | (w, Err e) => (w, Returned (normalizeRunError (contexts (length (trace w))) e))
  end.

Fixpoint loop (wakes : list wake) (immediate : bool) (w : world) : world * outcome :=
  let now := clock service (reads w) in
  let w := w <| reads ::= S |> in
  let wait := match nextWait (map (fun j => NextRunAt (state j)) (rjobs w)) now
                      (recoveryInterval (leaseDuration service)) with
              | Some wait => if immediate then 0 else wait
              | None => 0
              end in
  match wakes with
  | [] => (w, Waiting wait)
  | Cancelled :: _ => (w, Returned None)
  | RuntimeError e :: _ =>
      (w, Returned (normalizeRunError (contexts (length (trace w))) e))
  | Tick :: wakes => normalized (let* now := now_ in cycle now) (loop wakes) w
  end.

(** [beginRun] and [endRun] around the run; a nil context is refused before. *)
Definition Run (ctx : context) (wakes : list wake) (w : world) : world * outcome :=
  match ctx with
  | NilContext => (w, Returned (Some ErrNilRunContext))
  | _ =>
      if running w then (w, Returned (Some ErrAlreadyRunning))
      else
        let w := w <| running := true |> in
        let '(w, out) :=
          normalized (let* startedAt := now_ in
                      let* jobs := reconcile startedAt in
                      let* _ := (fun w => (w <| rjobs := jobs |>, Ok tt)) in
                      cycle startedAt) (loop wakes) w in
        (match out with Waiting _ => w | Returned _ => w <| running := false |> end, out)
  end.
End service.
Close Scope Z_scope.
