(* ===== verification/CronKeeps.v ===== *)
(** * What the scheduler asks of its store

    The contract of [IStore] the service relies on, as a class: each active job has a
    cursor, a claim or a skip at the cursor succeeds and moves it to the next instant,
    a claim of what is recorded succeeds and moves nothing, and [Expired] lists
    recorded occurrences of active jobs.  [MemoryStore] keeps the contract. *)

From S2P Require Import Prelude.
From S2P Require Import GoTime.
From S2P Require Import GoFormat.
From S2P Require Import CronSchedule.
From S2P Require Import CronStore.
From S2P Require Import CronLease.
From S2P Require Import CronService.

Open Scope Z_scope.

Section contract.
Context (Sum256 : string -> string)
        (LoadLocation : string -> option Location)
        (duration_String : Time.Duration -> string)
        (ParseCron : string -> option RawSchedule).
#[local] Abbreviation ScheduleFromDefinition :=
  (ScheduleFromDefinition LoadLocation duration_String ParseCron).
#[local] Abbreviation Next := (Next LoadLocation ParseCron).
#[local] Abbreviation validateClaim := (validateClaim Sum256).
#[local] Abbreviation validateSkip := (validateSkip Sum256).

(** ** The contract *)

Section views.
Context {St : Type} (ok : St -> Prop)
        (cursor : St -> string -> option (ScheduleDefinition * Time.t))
        (has : St -> string -> Time.t -> Prop).

(** Nothing moves; records stay. *)
Definition kept (st st' : St) : Prop :=
  ok st' /\ (forall j, cursor st' j = cursor st j) /\ (forall j t, has st j t -> has st' j t).

(** The cursor of one job moves to [next]; the instant it leaves is recorded. *)
Definition moved (st : St) (j : string) (d : ScheduleDefinition) (at_ next : Time.t) (st' : St)
  : Prop :=
  ok st' /\ cursor st' j = Some (d, next) /\ (forall j', j' <> j -> cursor st' j' = cursor st j')
  /\ (forall j' t, has st j' t -> has st' j' t) /\ has st' j at_.
End views.

Class CursorStore (St E : Type) `{IStore St E} := {
  ok : St -> Prop;
  cursor : St -> string -> option (ScheduleDefinition * Time.t);
  has : St -> string -> Time.t -> Prop;
  cursor_valid st j d c : ok st -> cursor st j = Some (d, c) -> j <> "" /\ 0 < c;
  has_behind st j d c s t : ok st -> cursor st j = Some (d, c) ->
    ScheduleFromDefinition d = Ok s -> has st j t ->
    exists n, Next s t = Ok n /\ t < n /\ n <= c;
  skip_at_cursor st q d s : ok st -> validateSkip q = Ok tt ->
    four_digit_year (k_ScheduledAt q) ->
    cursor st (k_JobName q) = Some (d, k_ScheduledAt q) -> ScheduleFromDefinition d = Ok s ->
    Next s (k_ScheduledAt q) = Ok (k_NextRunAt q) ->
    exists st', store_Skip Background q st = (st', Ok tt)
      /\ moved ok cursor has st (k_JobName q) d (k_ScheduledAt q) (k_NextRunAt q) st';
  claim_at_cursor st q d s : ok st -> validateClaim q = Ok tt ->
    four_digit_year (c_ScheduledAt q) ->
    cursor st (c_JobName q) = Some (d, c_ScheduledAt q) -> ScheduleFromDefinition d = Ok s ->
    Next s (c_ScheduledAt q) = Ok (c_NextRunAt q) ->
    exists st' res, store_Claim Background q st = (st', Ok res)
      /\ moved ok cursor has st (c_JobName q) d (c_ScheduledAt q) (c_NextRunAt q) st';
  claim_again st q d c s : ok st -> validateClaim q = Ok tt ->
    cursor st (c_JobName q) = Some (d, c) -> ScheduleFromDefinition d = Ok s ->
    Next s (c_ScheduledAt q) = Ok (c_NextRunAt q) ->
    has st (c_JobName q) (c_ScheduledAt q) ->
    exists st' res, store_Claim Background q st = (st', Ok res) /\ kept ok cursor has st st';
  expired_recorded st now limit : ok st -> now <> 0 -> 0 < limit <= maxCatchUpLimit ->
    exists records, store_Expired Background now limit st = (st, Ok records)
      /\ forall o, o ∈ records ->
           has st (JobName o) (ScheduledAt o) /\ 0 < ScheduledAt o
           /\ is_Some (cursor st (JobName o));
}.

(** ** [MemoryStore] keeps it *)

(** SHA-256 is taken to be free of collisions. *)
Context (Sum256_inj : forall a b, Sum256 a = Sum256 b -> a = b).
#[local] Abbreviation OccurrenceID := (OccurrenceID Sum256).

Lemma name_without_nul j : validateJobName j = Ok tt ->
  Ascii.ascii_of_nat 0 ∉ String.list_ascii_of_string j.
Proof.
  unfold validateJobName. destruct (String.list_ascii_of_string j) as [|c l]; [done|].
  intros [Hc [Hl _]%guard_ok]%guard_ok. rewrite forallb_forall in Hl.
  apply negb_true_iff, orb_false_iff in Hc as [_ Hc]. apply negb_false_iff in Hc.
  intros [->|Hin]%list_elem_of_In; [by vm_compute in Hc|]. by apply Hl in Hin.
Qed.

Lemma list_of_append s s' : String.list_ascii_of_string (s +:+ s')
  = String.list_ascii_of_string s ++ String.list_ascii_of_string s'.
Proof. induction s as [|c s IH]; [done|]. simpl. by rewrite IH. Qed.

(** Occurrences with one identity are one occurrence. *)
Lemma OccurrenceID_inj j j' t t' :
  validateJobName j = Ok tt -> validateJobName j' = Ok tt ->
  four_digit_year t -> four_digit_year t' ->
  OccurrenceID j t = OccurrenceID j' t' -> j = j' /\ t = t'.
Proof.
  intros Hj Hj' Ht Ht' E. unfold CronStore.OccurrenceID in E. apply (inj (String.append "occ_")) in E.
  apply EncodeToString_inj, Sum256_inj in E. apply (f_equal String.list_ascii_of_string) in E.
  rewrite !list_of_append in E. cbn [String.list_ascii_of_string] in E.
  apply separated_inj in E as [E1 E2]; [|by apply name_without_nul..].
  split.
  - by rewrite <-(String.string_of_list_ascii_of_string j), E1,
      String.string_of_list_ascii_of_string.
  - apply RFC3339Nano_inj; [done|done|].
    by rewrite <-(String.string_of_list_ascii_of_string (RFC3339Nano t)), E2,
      String.string_of_list_ascii_of_string.
Qed.

Definition memory_cursor (st : MemoryStore) (j : string) : option (ScheduleDefinition * Time.t) :=
  s ← jobs st !! j; Some (d_Schedule (s_Definition s), NextRunAt s).
Definition memory_has (st : MemoryStore) (j : string) (t : Time.t) : Prop := recorded j t st.

Definition printable (t : Time.t) : Prop := 0 < t /\ four_digit_year t.

(** Well formed; every cursor is past its records; their instants print. *)
Record memory_ok (st : MemoryStore) : Prop := {
  mo_wf : well_formed Sum256 st;
  mo_behind j s : jobs st !! j = Some s -> 0 < NextRunAt s /\
    forall schedule, ScheduleFromDefinition (d_Schedule (s_Definition s)) = Ok schedule ->
      behind LoadLocation ParseCron j schedule (NextRunAt s) st;
  mo_years id o : occurrences st !! id = Some o -> printable (ScheduledAt o);
}.

Lemma memory_cursor_Some st j d c : memory_cursor st j = Some (d, c) <->
  exists s, jobs st !! j = Some s /\ d_Schedule (s_Definition s) = d /\ NextRunAt s = c.
Proof.
  unfold memory_cursor. destruct (jobs st !! j) as [s|]; cbn; [|naive_solver].
  split; [intros [= <- <-]; eauto|]. intros (s' & [= <-] & <- & <-). done.
Qed.

(** The year of an occurrence an operation may record. *)
Definition op_year (o : op) : Prop :=
  match o with
  | OClaim _ q => printable (c_ScheduledAt q)
  | OSkip _ q => printable (k_ScheduledAt q)
  | _ => True
  end.
Definition reconciles (o : op) : Prop :=
  match o with OReconcile _ _ _ => True | _ => False end.
#[local] Abbreviation step := (step Sum256 LoadLocation duration_String ParseCron).

(** Operations other than reconciliation keep definitions and move cursors forward. *)
Lemma advanceLocked_jobs j' n t st st1 : jobs st1 = jobs st -> is_Some (jobs st !! j') ->
  forall j s', jobs (advanceLocked j' n t st1) !! j = Some s' ->
    exists s, jobs st !! j = Some s /\ s_Definition s' = s_Definition s
      /\ NextRunAt s <= NextRunAt s'.
Proof.
  intros E [s0 Hs0] j s' Hs'.
  assert (is_Some (jobs st1 !! j)) as [s Hs].
  { rewrite E. revert Hs'. unfold advanceLocked. cbn [jobs update].
    rewrite lookup_insert_Some. intros [[<- _]|[_ Hs']]; [by eauto|]. rewrite E in Hs'. eauto. }
  destruct (advanced_job j j' n t st1 s Hs) as (s1 & Hs1 & Ed & En).
  rewrite Hs1 in Hs'. injection Hs' as <-. exists s. rewrite <-E. repeat split; [done|done|].
  case_decide; lia.
Qed.

Lemma step_jobs st o st' : step st o st' -> ~ reconciles o ->
  forall j s', jobs st' !! j = Some s' ->
    exists s, jobs st !! j = Some s /\ s_Definition s' = s_Definition s
      /\ NextRunAt s <= NextRunAt s'.
Proof.
  assert (forall st1, jobs st1 = jobs st -> forall j s', jobs st1 !! j = Some s' ->
    exists s, jobs st !! j = Some s /\ s_Definition s' = s_Definition s
      /\ NextRunAt s <= NextRunAt s') as Hsame.
  { intros st1 E j s'. rewrite E. eauto with lia. }
  intros Hstep Hr.
  destruct Hstep as [o|ctx ds now active Ha|ctx q s0 r (_ & Hs0 & _) Hf
    |ctx q s0 r (_ & Hs0 & _) Hf _ _ _
    |ctx q s0 (_ & Hs0 & _) _ _|ctx q s0 (_ & Hs0 & _) _ _ _
    |ctx q r _ _|ctx q r _ _ _ _|ctx q s0 (_ & Hs0 & _) _ _
    |ctx q s0 r (_ & Hs0 & _) Hf _ _]; [by apply Hsame|by destruct Hr|..];
    first [by apply advanceLocked_jobs|by apply Hsame].
Qed.

(** A record after an operation is an old one, or its occurrence was claimed or skipped. *)
Lemma step_years st o st' : step st o st' -> op_year o ->
  (forall id r, occurrences st !! id = Some r -> printable (ScheduledAt r)) ->
  forall id r, occurrences st' !! id = Some r -> printable (ScheduledAt r).
Proof.
  intros Hstep Hy Hold.
  assert (forall id0 r0, printable (ScheduledAt r0) -> forall id r,
    occurrences (put id0 r0 st) !! id = Some r -> printable (ScheduledAt r)) as Hput.
  { intros id0 r0 H0 id r. rewrite put_occurrences, lookup_insert_Some.
    intros [[_ <-]|[_ H]]; [done|by eapply Hold]. }
  destruct Hstep as [o|ctx ds now active Ha|ctx q s0 r _ _
    |ctx q s0 r _ (Hr & _) _ _ _|ctx q s0 _ _ _|ctx q s0 _ _ _ _
    |ctx q r (Hr & _) _|ctx q r (Hr & _) _ _ _|ctx q s0 _ _ _|ctx q s0 r _ (Hr & _) _ _];
    try exact Hold;
    match goal with
    | |- forall id r, occurrences (claim_advances _ (put ?i ?o _)) !! _ = _ -> _ => apply (Hput i o)
    | |- forall id r, occurrences (skip_advances _ (put ?i ?o _)) !! _ = _ -> _ => apply (Hput i o)
    | |- forall id r, occurrences (put ?i ?o _) !! _ = _ -> _ => apply (Hput i o)
    end; first [exact Hy|exact (Hold _ _ Hr)].
Qed.

Lemma memory_ok_step st o st' : step st o st' -> ~ reconciles o -> op_year o ->
  memory_ok st -> memory_ok st'.
Proof.
  intros Hstep Hr Hy [Hwf Hb Hyears]. split.
  - by eapply step_well_formed.
  - intros j s' Hs'. destruct (step_jobs _ _ _ Hstep Hr j s' Hs') as (s & Hs & Ed & Hle).
    destruct (Hb j s Hs) as [Hpos Hbs]. split; [lia|]. intros schedule Hsc. rewrite Ed in Hsc.
    assert (scheduled j (d_Schedule (s_Definition s)) st') as Hsch
      by (exists s'; by rewrite Ed).
    destruct (step_cursor Sum256 LoadLocation duration_String ParseCron j _ schedule st s Hsc Hs
      eq_refl (Hbs _ Hsc) o st' Hstep ltac:(lia) Hsch) as (_ & s1 & Hs1 & _ & Hb1 & _).
    rewrite Hs1 in Hs'. by injection Hs' as <-.
  - by eapply step_years.
Qed.

Lemma recorded_step st o st' j t : step st o st' -> recorded j t st -> recorded j t st'.
Proof.
  intros Hstep. assert (forall id r, (forall r0, occurrences st !! id = Some r0 ->
      JobName r = JobName r0 /\ ScheduledAt r = ScheduledAt r0) ->
    recorded j t st -> recorded j t (put id r st)) as Hput.
  { intros id r Hsame Hrec. destruct (occurrences st !! id) as [r0|] eqn:E.
    - destruct (Hsame r0 eq_refl). by apply (recorded_again j t id r0 r).
    - apply recorded_put; [done|by right]. }
  destruct Hstep as [o|ctx ds now active Ha|ctx q s0 r _ _
    |ctx q s0 r _ (Hr & _) _ _ _|ctx q s0 _ Hn _|ctx q s0 _ Hn _ _
    |ctx q r (Hr & _) _|ctx q r (Hr & _) _ _ _|ctx q s0 _ Hn _|ctx q s0 r _ (Hr & _) _ _];
    try done; apply Hput; intros r0 Hr0; by simplify_eq.
Qed.

#[local] Abbreviation mkept := (kept memory_ok memory_cursor memory_has).
#[local] Abbreviation mmoved := (moved memory_ok memory_cursor memory_has).

(** An operation that leaves every cursor. *)
Lemma step_kept st o st' : step st o st' -> ~ reconciles o -> op_year o -> memory_ok st ->
  (forall j s, jobs st !! j = Some s ->
     exists s', jobs st' !! j = Some s' /\ s_Definition s' = s_Definition s
       /\ NextRunAt s' = NextRunAt s) ->
  mkept st st'.
Proof.
  intros Hstep Hr Hy Hok Hj. split; [by eapply memory_ok_step|]. split.
  - intros j. unfold memory_cursor. destruct (jobs st !! j) as [s|] eqn:Hs.
    + destruct (Hj j s Hs) as (s' & -> & Ed & En). cbn. by rewrite Ed, En.
    + destruct (jobs st' !! j) as [s'|] eqn:Hs'; [|done].
      destruct (step_jobs _ _ _ Hstep Hr j s' Hs') as (? & ? & _). congruence.
  - intros j t. by apply (recorded_step st o st').
Qed.

Lemma advance_kept st o j' n t st1 s : jobs st !! j' = Some s -> jobs st1 = jobs st ->
  n <= NextRunAt s -> step st o (advanceLocked j' n t st1) -> ~ reconciles o -> op_year o ->
  memory_ok st -> mkept st (advanceLocked j' n t st1).
Proof.
  intros Hs E Hn Hstep Hr Hy Hok. eapply step_kept; [done..|]. intros j s0 Hs0.
  rewrite <-E in Hs0. destruct (advanced_job j j' n t st1 s0 Hs0) as (s' & Hs' & Ed & En).
  exists s'. repeat split; [done|done|]. rewrite En. case_decide; [|done]. subst j'.
  assert (s0 = s) as -> by congruence. lia.
Qed.

(** An operation on a new occurrence, at the cursor of its job. *)
Lemma put_moved st o j n t id r s : jobs st !! j = Some s -> JobName r = j ->
  ScheduledAt r < n -> ScheduledAt r = NextRunAt s -> occurrences st !! id = None ->
  step st o (advanceLocked j n t (put id r st)) -> ~ reconciles o -> op_year o ->
  memory_ok st ->
  mmoved st j (d_Schedule (s_Definition s)) (ScheduledAt r) n (advanceLocked j n t (put id r st)).
Proof.
  intros Hs Hj Hlt Hc Hid Hstep Hr Hy Hok. split; [by eapply memory_ok_step|].
  repeat split.
  - destruct (advanced_job j j n t (put id r st) s Hs) as (s' & Hs' & Ed & En).
    apply memory_cursor_Some. exists s'. rewrite Ed, En, decide_True by done.
    repeat split; [done|]. lia.
  - intros j' Hne. unfold memory_cursor, advanceLocked. cbn [jobs update].
    by rewrite lookup_insert_ne.
  - intros j' t'. by apply (recorded_step st o).
  - apply recorded_put; [done|]. by left.
Qed.

(** Nothing is recorded at a cursor. *)
Lemma cursor_fresh st j s schedule : memory_ok st -> jobs st !! j = Some s ->
  ScheduleFromDefinition (d_Schedule (s_Definition s)) = Ok schedule ->
  four_digit_year (NextRunAt s) -> occurrences st !! OccurrenceID j (NextRunAt s) = None.
Proof.
  intros [[Hwf Hjobs] Hb Hy] Hs Hsc Hyear.
  destruct (occurrences st !! _) as [o|] eqn:Ho; [|done]. exfalso.
  destruct (Hwf _ _ Ho) as (_ & Hid & Hname & _). destruct (Hjobs _ _ Hs) as (_ & Hn & _).
  apply OccurrenceID_inj in Hid as [Ej Et]; [|done|done|done|by eapply Hy].
  destruct (proj2 (Hb j s Hs) _ Hsc (NextRunAt s)) as (n & _ & Hlt & Hle); [|lia].
  by exists (OccurrenceID j (NextRunAt s)), o.
Qed.

#[local] Abbreviation Claim := (Claim Sum256 LoadLocation duration_String ParseCron).
#[local] Abbreviation Skip := (Skip Sum256 LoadLocation duration_String ParseCron).

Lemma Skip_at_cursor st q s schedule : memory_ok st -> validateSkip q = Ok tt ->
  printable (k_ScheduledAt q) -> jobs st !! k_JobName q = Some s ->
  NextRunAt s = k_ScheduledAt q ->
  ScheduleFromDefinition (d_Schedule (s_Definition s)) = Ok schedule ->
  Next schedule (k_ScheduledAt q) = Ok (k_NextRunAt q) ->
  exists st', Skip Background q st = Ok st'
    /\ mmoved st (k_JobName q) (d_Schedule (s_Definition s)) (k_ScheduledAt q)
         (k_NextRunAt q) st'.
Proof.
  intros Hok Hv Hy Hs Hc Hsc Hn. pose proof Hv as (_ & _ & _ & _ & Hlt & Hid)%validateSkip_ok.
  assert (occurrences st !! k_OccurrenceID q = None) as Hfresh.
  { rewrite Hid, <-Hc. rewrite <-Hc in Hy. eapply cursor_fresh; [done..|apply Hy]. }
  assert (Skip Background q st = Ok (skip_advances q (put (k_OccurrenceID q) (skippedRecord q) st)))
    as E.
  { unfold CronStore.Skip. cbn [contextError result_bind]. rewrite Hv. cbn [result_bind].
    rewrite Hs, Hfresh.
    rewrite (proj2 (validateScheduleAdvance_ok LoadLocation duration_String ParseCron s
      (k_ScheduledAt q) (k_NextRunAt q) schedule Hsc) Hn). cbn [result_bind].
    by rewrite Hc, Z.eqb_refl. }
  eexists. split; [done|]. apply Skip_step in E.
  apply (put_moved st (OSkip Background q) (k_JobName q) _ _ _ (skippedRecord q) s); first [done|by intros []].
Qed.

Lemma Claim_at_cursor st q s schedule : memory_ok st -> validateClaim q = Ok tt ->
  printable (c_ScheduledAt q) -> jobs st !! c_JobName q = Some s ->
  NextRunAt s = c_ScheduledAt q ->
  ScheduleFromDefinition (d_Schedule (s_Definition s)) = Ok schedule ->
  Next schedule (c_ScheduledAt q) = Ok (c_NextRunAt q) ->
  exists st' res, Claim Background q st = Ok (res, st')
    /\ mmoved st (c_JobName q) (d_Schedule (s_Definition s)) (c_ScheduledAt q)
         (c_NextRunAt q) st'.
Proof.
  intros Hok Hv Hy Hs Hc Hsc Hn.
  pose proof Hv as (_ & _ & _ & _ & _ & _ & Hlt & _ & Hid)%validateClaim_ok.
  assert (occurrences st !! c_OccurrenceID q = None) as Hfresh.
  { rewrite Hid, <-Hc. rewrite <-Hc in Hy. eapply cursor_fresh; [done..|apply Hy]. }
  assert (exists res, Claim Background q st
      = Ok (res, claim_advances q (put (c_OccurrenceID q) (overlapRecord q) st))
    \/ Claim Background q st
      = Ok (res, claim_advances q (put (c_OccurrenceID q) (claimedRecord q) st))) as [res E].
  { unfold CronStore.Claim. cbn [contextError result_bind]. rewrite Hv. cbn [result_bind].
    rewrite Hs, Hfresh.
    rewrite (proj2 (validateScheduleAdvance_ok LoadLocation duration_String ParseCron s
      (c_ScheduledAt q) (c_NextRunAt q) schedule Hsc) Hn). cbn [result_bind].
    rewrite Hc, Z.eqb_refl. destruct (_ && _); eauto. }
  destruct E as [E|E]; eexists _, res; (split; [done|]); apply Claim_step in E as [E _].
  - apply (put_moved st (OClaim Background q) (c_JobName q) _ _ _ (overlapRecord q) s); first [done|by intros []].
  - apply (put_moved st (OClaim Background q) (c_JobName q) _ _ _ (claimedRecord q) s); first [done|by intros []].
Qed.

Lemma Claim_again st q s schedule : memory_ok st -> validateClaim q = Ok tt ->
  jobs st !! c_JobName q = Some s ->
  ScheduleFromDefinition (d_Schedule (s_Definition s)) = Ok schedule ->
  Next schedule (c_ScheduledAt q) = Ok (c_NextRunAt q) ->
  recorded (c_JobName q) (c_ScheduledAt q) st ->
  exists st' res, Claim Background q st = Ok (res, st') /\ mkept st st'.
Proof.
  intros Hok Hv Hs Hsc Hn Hrec. pose proof Hok as [[Hwf _] Hb Hyears].
  pose proof Hv as (_ & _ & _ & _ & _ & _ & _ & _ & Hid)%validateClaim_ok.
  pose proof Hrec as (id & o & Ho & Hj & Hat).
  assert (printable (c_ScheduledAt q)) as Hy by (rewrite <-Hat; by apply (Hyears _ _ Ho)).
  destruct (Hwf _ _ Ho) as (_ & Hid' & _). rewrite Hj, Hat, <-Hid in Hid'. subst id.
  assert (c_NextRunAt q <= NextRunAt s) as Hle.
  { destruct (proj2 (Hb _ s Hs) _ Hsc _ Hrec) as (n & Hn' & _ & Hle). congruence. }
  assert (exists st' res, Claim Background q st = Ok (res, st')
    /\ (st' = st \/ exists st1, jobs st1 = jobs st /\ st' = claim_advances q st1))
    as (st' & res & E & Hst').
  { unfold CronStore.Claim. cbn [contextError result_bind]. rewrite Hv. cbn [result_bind].
    rewrite Hs, Ho.
    rewrite (proj2 (validateScheduleAdvance_ok LoadLocation duration_String ParseCron s
      (c_ScheduledAt q) (c_NextRunAt q) schedule Hsc) Hn). cbn [result_bind].
    unfold sameOccurrence. rewrite bool_decide_true, Hat, Z.eqb_refl by done.
    cbn [andb result_bind].
    repeat case_match; eexists _, _; (split; [reflexivity|]);
      first [by left|right; eexists; split; [|reflexivity]; done]. }
  exists st', res. split; [done|]. apply Claim_step in E as [E _].
  destruct Hst' as [->|(st1 & Ej & ->)].
  - by split.
  - apply (advance_kept st (OClaim Background q) _ _ _ st1 s); first [done|by intros []].
Qed.

Lemma Expired_recorded st now limit : memory_ok st -> now <> 0 -> 0 < limit <= maxCatchUpLimit ->
  exists records, Expired Background now limit st = Ok records
    /\ forall o, o ∈ records -> memory_has st (JobName o) (ScheduledAt o)
         /\ 0 < ScheduledAt o /\ is_Some (memory_cursor st (JobName o)).
Proof.
  intros [[Hwf _] _ Hy] Hnow Hlimit. unfold Expired. cbn [contextError result_bind].
  assert (Time.IsZero now || (limit <=? 0) || (maxCatchUpLimit <? limit) = false) as ->.
  { unfold Time.IsZero. rewrite !orb_false_iff, Z.eqb_neq, Z.leb_gt, Z.ltb_ge. lia. }
  eexists. split; [done|]. intros o Hin.
  apply (subseteq_take _) in Hin. rewrite merge_sort_Permutation in Hin.
  apply list_elem_of_In, filter_In in Hin as [Hin He].
  apply list_elem_of_In, list_elem_of_fmap in Hin as ([id o'] & -> & Hin%elem_of_map_to_list).
  cbn [snd] in *. unfold expired in He. rewrite !andb_true_iff, !bool_decide_eq_true in He.
  destruct He as [_ [s Hs]]. split; [by exists id, o'|].
  split; [apply (Hy _ _ Hin)|]. unfold memory_cursor. rewrite Hs. by eexists.
Qed.

#[export] Instance MemoryStore_CursorStore :
  @CursorStore MemoryStore store_error
    (MemoryStore_IStore Sum256 LoadLocation duration_String ParseCron).
Proof.
  refine {| ok := memory_ok; cursor := memory_cursor; has := memory_has |}.
  - intros st j d c [[Hwf Hjobs] Hb _] (s & Hs & _ & <-)%memory_cursor_Some.
    split; [|apply (Hb j s Hs)]. destruct (Hjobs j s Hs) as (_ & Hn & _). by intros ->.
  - intros st j d c s t [_ Hb _] (s0 & Hs0 & <- & <-)%memory_cursor_Some Hsc Ht.
    by apply (proj2 (Hb j s0 Hs0)).
  - intros st q d s Hok Hv Hy (s0 & Hs0 & <- & Hc)%memory_cursor_Some Hsc Hn.
    assert (printable (k_ScheduledAt q)) as Hp by (split; [rewrite <-Hc; apply (mo_behind _ Hok _ _ Hs0)|done]).
    destruct (Skip_at_cursor st q s0 s) as (st' & E & Hm); [done..|].
    exists st'. cbn [store_Skip MemoryStore_IStore]. by rewrite E.
  - intros st q d s Hok Hv Hy (s0 & Hs0 & <- & Hc)%memory_cursor_Some Hsc Hn.
    assert (printable (c_ScheduledAt q)) as Hp by (split; [rewrite <-Hc; apply (mo_behind _ Hok _ _ Hs0)|done]).
    destruct (Claim_at_cursor st q s0 s) as (st' & res & E & Hm); [done..|].
    exists st', res. cbn [store_Claim MemoryStore_IStore]. by rewrite E.
  - intros st q d c s Hok Hv (s0 & Hs0 & <- & Hc)%memory_cursor_Some Hsc Hn Hrec.
    destruct (Claim_again st q s0 s) as (st' & res & E & Hk); [done..|].
    exists st', res. cbn [store_Claim MemoryStore_IStore]. by rewrite E.
  - intros st now limit Hok Hnow Hl.
    destruct (Expired_recorded st now limit Hok Hnow Hl) as (records & E & Hr).
    exists records. cbn [store_Expired MemoryStore_IStore]. by rewrite E.
Defined.

(** What the workers of a scheduler do to the store leaves the cursors. *)
Definition worker_op (o : op) : Prop :=
  match o with ORenew _ _ | OComplete _ _ => True | _ => False end.

Lemma workers_kept ops st : Forall worker_op ops -> memory_ok st ->
  mkept st (run Sum256 LoadLocation duration_String ParseCron ops st).
Proof.
  intros Hops. revert st. induction Hops as [|o ops Ho _ IH]; intros st Hok; [by split|].
  set (st1 := apply Sum256 LoadLocation duration_String ParseCron o st).
  assert (mkept st st1) as (Hok1 & Hc1 & Hh1).
  { apply (step_kept st o); [apply apply_step|destruct o; first [by intros []|destruct Ho]|by destruct o|done|].
    intros j s Hs. exists s. split; [|done]. unfold st1. rewrite <-Hs.
    destruct o as [| |ctx q|ctx q|]; try done; cbn [apply].
    - destruct (Renew ctx q st) as [st'|] eqn:E; [|done]. unfold Renew in E.
      by apply bind_ok in E as ([] & _ & [_ (r & _ & [= <-])%bind_ok]%guard_ok).
    - destruct (Complete ctx q st) as [st'|] eqn:E; [|done]. unfold Complete in E.
      by apply bind_ok in E as ([] & _ & [_ (r & _ & [= <-])%bind_ok]%guard_ok). }
  destruct (IH st1 Hok1) as (Hok2 & Hc2 & Hh2). cbn [run]. fold st1.
  split; [done|]. split; [intros j; by rewrite Hc2|auto].
Qed.
End contract.
Arguments ok {_ _ _ _ _ _ _ _} st.
Arguments cursor {_ _ _ _ _ _ _ _} st j.
Arguments has {_ _ _ _ _ _ _ _} st j t.
Arguments cursor_valid {_ _ _ _ _ _ _ _} st j d c.
Arguments has_behind {_ _ _ _ _ _ _ _} st j d c s t.
Arguments skip_at_cursor {_ _ _ _ _ _ _ _} st q d s.
Arguments claim_at_cursor {_ _ _ _ _ _ _ _} st q d s.
Arguments claim_again {_ _ _ _ _ _ _ _} st q d c s.
Arguments expired_recorded {_ _ _ _ _ _ _ _} st now limit.
Close Scope Z_scope.
