(* ===== verification/CronCycle.v ===== *)
(** * The cycle of the scheduler

    [cycle] of [pkg/cron/service.go] over any store that keeps the contract of
    [CronKeeps]: it never fails and catches every job up; which occurrences it runs and
    which it skips; what a worker reports; and the race in which a second scheduler on
    the same store stops. *)

From stdpp Require Import pretty.
From S2P Require Import Prelude.
From S2P Require Import GoStd.
From S2P Require Import GoText.
From S2P Require Import GoTime.
From S2P Require Import GoFormat.
From S2P Require Import CronSchedule.
From S2P Require Import CronNext.
From S2P Require Import CronStore.
From S2P Require Import CronLease.
From S2P Require Import CronService.
From S2P Require Import CronKeeps.

Open Scope Z_scope.

(** ** The occurrences that are due *)

Section due.
Context (LoadLocation : string -> option Location) (ParseCron : string -> option RawSchedule).
#[local] Abbreviation Next := (Next LoadLocation ParseCron).
#[local] Abbreviation collectDue := (collectDue LoadLocation ParseCron).
#[local] Abbreviation passes := (passes LoadLocation ParseCron).

(** Consecutive occurrences from the cursor [c] to the cursor [c']. *)
Fixpoint linked (s : Schedule) (c : Time.t) (due : list dueOccurrence) (c' : Time.t) : Prop :=
  match due with
  | [] => c = c'
  | o :: due =>
      scheduledAt o = c /\ Next s c = Ok (nextRunAt o) /\ c < nextRunAt o
      /\ linked s (nextRunAt o) due c'
  end.

Lemma linked_passes s c due c' : linked s c due c' -> passes s c (scheduledAt <$> due) c'.
Proof.
  revert c. induction due as [|o due IH]; intros c; [done|].
  intros (Hc & Hn & Hlt & Hl). split; [done|]. exists (nextRunAt o). auto.
Qed.

(** The schedule goes on, in years that print in four digits, from [c] to [now]. *)
Definition goes_on (s : Schedule) (c now : Time.t) : Prop :=
  forall t, c <= t <= now -> four_digit_year t /\ exists n, Next s t = Ok n /\ t < n.

Lemma collectDue_spec s now limit : forall c, goes_on s c now ->
  exists due more c', collectDue s c now limit = Ok (due, more) /\ linked s c due c'
    /\ Forall (fun o => scheduledAt o <= now /\ four_digit_year (scheduledAt o)) due
    /\ (if more then length due = limit /\ c' <= now else now < c').
Proof.
  induction limit as [|limit IH]; intros c Hgo; cbn [CronService.collectDue]; unfold Time.After.
  - destruct (Z.ltb_spec now c); [exists [], false, c|exists [], true, c]; naive_solver.
  - destruct (Z.ltb_spec now c) as [|Hle]; [exists [], false, c; naive_solver|].
    destruct (Hgo c) as (Hy & n & Hn & Hlt); [lia|].
    destruct (IH n) as (due & more & c' & E & Hl & Hall & Hm); [intros t Ht; apply Hgo; lia|].
    exists (mkDue c n :: due), more, c'. rewrite Hn. cbn [result_bind]. rewrite E.
    split; [done|]. split; [done|]. split; [by constructor|].
    destruct more; [|done]. destruct Hm as [<- ?]. done.
Qed.
End due.

(** ** Computations that succeed *)

Section cycle.
Context {St E Handler : Type} `{IS : IStore St E}
        (Sum256 : string -> string) (LoadLocation : string -> option Location)
        (duration_String : Time.Duration -> string) (ParseCron : string -> option RawSchedule)
        `{CS : !CursorStore Sum256 LoadLocation duration_String ParseCron St E}.
Context (random : nat -> option string) (contexts : nat -> context)
        (others : nat -> St -> St) (service : Service Handler).
#[local] Abbreviation world := (world St Handler).
#[local] Abbreviation M := (@M St E Handler).
#[local] Abbreviation Next := (Next LoadLocation ParseCron).
#[local] Abbreviation ScheduleFromDefinition :=
  (ScheduleFromDefinition LoadLocation duration_String ParseCron).
#[local] Abbreviation linked := (linked LoadLocation ParseCron).
#[local] Abbreviation goes_on := (goes_on LoadLocation ParseCron).
#[local] Abbreviation skip := (@skip St E Handler IS Sum256 contexts others service).
#[local] Abbreviation claimAndRun :=
  (@claimAndRun St E Handler IS Sum256 random contexts others service).
#[local] Abbreviation kept := (kept ok cursor has).
#[local] Abbreviation moved := (moved ok cursor has).

(** [m] succeeds in [w], with a result and a world of which [Q] holds. *)
Definition sat {A} (m : M A) (w : world) (Q : A -> world -> Prop) : Prop :=
  exists a w', m w = (w', Ok a) /\ Q a w'.

Lemma sat_ret {A} (a : A) w (Q : A -> world -> Prop) : Q a w -> sat (ret a) w Q.
Proof. by exists a, w. Qed.

Lemma sat_bind {A B} (m : M A) (k : A -> M B) w Q (R : A -> world -> Prop) :
  sat m w R -> (forall a w', R a w' -> sat (k a) w' Q) -> sat (bind m k) w Q.
Proof.
  intros (a & w' & Em & Hr) Hk. destruct (Hk a w' Hr) as (b & w'' & Ek & Hq).
  exists b, w''. split; [|done]. unfold bind. by rewrite Em.
Qed.

Lemma sat_weaken {A} (m : M A) w (Q R : A -> world -> Prop) :
  sat m w R -> (forall a w', R a w' -> Q a w') -> sat m w Q.
Proof. intros (a & w' & E0 & Hr) H. exists a, w'. auto. Qed.

(** ** What the theorems ask of the service and its surroundings *)

Record service_ok : Prop := {
  so_owner : leaseOwner service <> "" /\ (String.length (leaseOwner service) <= 128)%nat;
  so_lease : Time.Microsecond <= leaseDuration service;
  so_limit : 0 < catchUpLimit service <= maxCatchUpLimit;
  so_clock n : 0 < clock service n;
}.

(** The context lives, the random source works, and others leave the cursors alone. *)
Record surroundings : Prop := {
  su_context n : contexts n = Background;
  su_random n : exists v, random n = Some v /\ String.length v = 16%nat;
  su_others n st : ok st -> kept st (others n st);
}.

Context (Hservice : service_ok) (Hsur : surroundings).

(** ** Service and store agree *)

Definition names (w : world) : list string := name ∘ registered <$> rjobs w.

(** The store has the cursor and the schedule the service holds for the job. *)
Definition agrees (st : St) (job : runtimeJob Handler) : Prop :=
  exists d, cursor st (name (registered job)) = Some (d, NextRunAt (state job))
    /\ ScheduleFromDefinition d = Ok (rschedule job).

Record synced (w : world) : Prop := {
  sy_ok : ok (store w);
  sy_nodup : NoDup (names w);
  sy_agree i job : rjobs w !! i = Some job -> agrees (store w) job;
  sy_active j : is_Some (cursor (store w) j) -> j ∈ names w;
}.

(** The job, with the same cursor. *)
Definition same_job (a b : runtimeJob Handler) : Prop :=
  registered a = registered b /\ rschedule a = rschedule b
  /\ NextRunAt (state a) = NextRunAt (state b).

(** Job [i] has gone from its cursor to [c']; nothing else has. *)
Definition job_moved (i : nat) (job : runtimeJob Handler) (c' : Time.t) (w w' : world) : Prop :=
  exists job', rjobs w' = <[i := job']> (rjobs w)
    /\ registered job' = registered job /\ rschedule job' = rschedule job
    /\ NextRunAt (state job') = c'.

Definition records_stay (w w' : world) : Prop :=
  forall j t, has (store w) j t -> has (store w') j t.

Lemma names_insert w i job job' : rjobs w !! i = Some job ->
  registered job' = registered job -> name ∘ registered <$> <[i := job']> (rjobs w) = names w.
Proof.
  intros Hi E0. unfold names. rewrite list_fmap_insert. apply list_insert_id.
  rewrite list_lookup_fmap, Hi. cbn. by rewrite E0.
Qed.

(** The world after job [i] moved, when the store moved its cursor with it. *)
Lemma synced_moved w w' i job d st0 : synced w -> rjobs w !! i = Some job ->
  cursor (store w) (name (registered job)) = Some (d, NextRunAt (state job)) ->
  ScheduleFromDefinition d = Ok (rschedule job) ->
  kept (store w) st0 -> forall next,
  (moved st0 (name (registered job)) d (NextRunAt (state job)) next (store w')
   \/ kept st0 (store w') /\ next = NextRunAt (state job)) ->
  job_moved i job next w w' -> synced w' /\ records_stay w w'.
Proof.
  intros [Hok Hnd Hag Hact] Hi Hd Hsc (Hok0 & Hc0 & Hh0) next Hst (job' & Erj & E1 & E2 & E4).
  assert (names w' = names w) as En by (unfold names at 1; rewrite Erj; by eapply names_insert).
  assert (ok (store w') /\ cursor (store w') (name (registered job)) = Some (d, next)
    /\ (forall j, j <> name (registered job) -> cursor (store w') j = cursor (store w) j)
    /\ records_stay w w') as (Hok' & Hcj & Hcne & Hr).
  { destruct Hst as [(Hok' & Hcj & Hcne & Hh & _)|[(Hok' & Hc & Hh) ->]].
    - repeat split; [done|done|intros; rewrite Hcne by done; apply Hc0|]. intros j t Ht. by apply Hh, Hh0.
    - repeat split; [done|by rewrite Hc, Hc0|intros; by rewrite Hc|].
      intros j t Ht. by apply Hh, Hh0. }
  split; [|done]. split; [done|by rewrite En| |].
  - intros k jb. rewrite Erj. destruct (decide (k = i)) as [->|Hne].
    + rewrite list_lookup_insert_eq by (by eapply lookup_lt_Some). intros [= <-].
      exists d. by rewrite E1, E2, E4.
    + rewrite list_lookup_insert_ne by done. intros Hk. destruct (Hag k jb Hk) as (d' & Hd' & Hs').
      exists d'. rewrite Hcne; [done|]. intros Hname. apply Hne.
      eapply NoDup_lookup; [exact Hnd| |]; unfold names; rewrite list_lookup_fmap.
      * by rewrite Hk.
      * rewrite Hi. cbn. by rewrite Hname.
  - intros j. rewrite En. destruct (decide (j = name (registered job))) as [->|Hne].
    + intros _. unfold names. apply list_elem_of_lookup. exists i. by rewrite list_lookup_fmap, Hi.
    + rewrite Hcne by done. apply Hact.
Qed.

Lemma sat_call {A} c (method : context -> St -> St * result E A) wrap w st' a :
  method Background (others (length (trace w)) (store w)) = (st', Ok a) ->
  sat (call_store contexts others c method wrap) w
    (fun a' w' => a' = a /\ w' = w <| store := st' |> <| trace := trace w ++ [c] |>).
Proof.
  intros Em. eexists a, _. unfold call_store. rewrite (su_context Hsur), Em. done.
Qed.

(** What others have done before the next call. *)
Lemma others_kept (w : world) : ok (store w) -> kept (store w) (others (length (trace w)) (store w)).
Proof. apply (su_others Hsur). Qed.

Lemma hex16 v : String.length v = 16%nat -> forall token,
  randomIdentity "lease" (Some v) = Some token ->
  token <> "" /\ (String.length token <= maxLeaseTokenBytes)%nat.
Proof.
  intros Hv token [= <-]. split; [done|].
  change (6 + String.length (EncodeToString v) <= maxLeaseTokenBytes)%nat.
  rewrite EncodeToString_length, Hv. by vm_compute; lia.
Qed.

Lemma lease_outlives now : durablyAfter (now + leaseDuration service) now = true.
Proof.
  pose proof (so_lease Hservice) as Hl. unfold durablyAfter, Time.After, Truncate.
  apply Z.ltb_lt. unfold Time.Microsecond in *.
  assert ((now + leaseDuration service) / 1000 >= now / 1000 + 1).
  { assert (now / 1000 + 1 = (now + 1 * 1000) / 1000) as -> by (rewrite Z.div_add; lia).
    apply Z.le_ge, Z.div_le_mono; lia. }
  pose proof (Z.div_mod now 1000 ltac:(done)).
  pose proof (Z.div_mod (now + leaseDuration service) 1000 ltac:(done)). lia.
Qed.

Definition claim_request (n : string) (o : dueOccurrence) (token : string) (now : Time.t)
  : ClaimRequest :=
  {| c_OccurrenceID := OccurrenceID Sum256 n (scheduledAt o); c_JobName := n;
     c_ScheduledAt := scheduledAt o; c_NextRunAt := nextRunAt o;
     c_LeaseOwner := leaseOwner service; c_LeaseToken := token; ClaimedAt := now;
     c_LeaseUntil := now + leaseDuration service |}.
Definition skip_request (n : string) (o : dueOccurrence) (reason : string) (now : Time.t)
  : SkipRequest :=
  {| k_OccurrenceID := OccurrenceID Sum256 n (scheduledAt o); k_JobName := n;
     k_ScheduledAt := scheduledAt o; k_NextRunAt := nextRunAt o; SkippedAt := now;
     Reason := reason |}.

#[local] Ltac guards :=
  unfold Time.IsZero, Time.After, claim_request, skip_request, maxLeaseOwnerBytes;
  cbn [c_OccurrenceID c_JobName c_LeaseOwner c_LeaseToken c_ScheduledAt c_NextRunAt ClaimedAt
       c_LeaseUntil k_OccurrenceID k_JobName k_ScheduledAt k_NextRunAt SkippedAt Reason];
  rewrite ?negb_orb, ?andb_true_iff, ?negb_involutive, ?negb_true_iff, ?bool_decide_eq_false,
    ?Z.eqb_neq, ?Nat.ltb_ge, ?Nat.eqb_neq, ?Z.ltb_lt.

Lemma claim_valid n o token now : n <> "" -> scheduledAt o <> 0 -> nextRunAt o <> 0 ->
  scheduledAt o < nextRunAt o -> 0 < now ->
  token <> "" -> (String.length token <= maxLeaseTokenBytes)%nat ->
  validateClaim Sum256 (claim_request n o token now) = Ok tt.
Proof.
  intros Hn Hat Hnext Hlt Hnow Ht Hlen. pose proof (so_owner Hservice) as [Hown Hownlen].
  pose proof (so_lease Hservice) as Hl. unfold Time.Microsecond in Hl.
  pose proof (lease_outlives now) as Hd.
  unfold validateClaim. apply guard_ok. split; [|by rewrite bool_decide_true].
  guards. repeat split; try done; lia.
Qed.

Lemma skip_valid n o reason now : n <> "" -> scheduledAt o <> 0 -> nextRunAt o <> 0 ->
  scheduledAt o < nextRunAt o -> 0 < now ->
  reason = "superseded" \/ reason = "catch_up_disabled" ->
  validateSkip Sum256 (skip_request n o reason now) = Ok tt.
Proof.
  intros Hn Hat Hnext Hlt Hnow Hr. unfold validateSkip. apply guard_ok.
  split; [|by rewrite bool_decide_true].
  assert (String.length reason <> 0 /\ String.length reason <= maxStoreTextBytes)%nat as [? ?].
  { unfold maxStoreTextBytes. destruct Hr as [-> | ->]; simpl; lia. }
  guards. repeat split; try done; lia.
Qed.

(** ** Skips and claims succeed *)

(** Job [i] of the world is [job0]; [job] is what the cycle read of it before. *)
Definition is_job (w : world) (i : nat) (job job0 : runtimeJob Handler) : Prop :=
  rjobs w !! i = Some job0 /\ registered job0 = registered job /\ rschedule job0 = rschedule job.

Lemma set_job_eq i f (w : world) job : rjobs w !! i = Some job ->
  alter f i (rjobs w) = <[i := f job]> (rjobs w).
Proof.
  intros Hi. apply list_eq. intros k. destruct (decide (k = i)) as [->|].
  - rewrite list_lookup_alter_eq, Hi, list_lookup_insert_eq; [done|by eapply lookup_lt_Some].
  - by rewrite list_lookup_alter_ne, list_lookup_insert_ne.
Qed.

Lemma sat_now w : sat (now_ service) w
  (fun now w' => 0 < now /\ w' = w <| reads ::= S |>).
Proof. eexists _, _. split; [done|]. split; [apply (so_clock Hservice)|done]. Qed.

Lemma sat_skip w i job job0 o reason : synced w -> is_job w i job job0 ->
  NextRunAt (state job0) = scheduledAt o -> four_digit_year (scheduledAt o) ->
  Next (rschedule job) (scheduledAt o) = Ok (nextRunAt o) -> scheduledAt o < nextRunAt o ->
  reason = "superseded" \/ reason = "catch_up_disabled" ->
  sat (skip i job o reason) w (fun _ w' =>
    synced w' /\ job_moved i job0 (nextRunAt o) w w' /\ records_stay w w'
    /\ has (store w') (name (registered job)) (scheduledAt o)).
Proof.
  intros Hsy (Hi & Er & Es) Hc Hy Hn Hlt Hreason.
  destruct (sy_agree _ Hsy i job0 Hi) as (d & Hd & Hsc). rewrite Hc, Er in Hd.
  destruct (cursor_valid _ _ _ _ (sy_ok _ Hsy) Hd) as [Hname Hpos].
  eapply sat_bind; [apply sat_now|]. intros now w1 [Hnow ->].
  pose proof (others_kept w (sy_ok _ Hsy)) as (Hok0 & Hc0 & Hh0).
  destruct (skip_at_cursor (others (length (trace w)) (store w))
      (skip_request (name (registered job)) o reason now) d (rschedule job))
    as (st' & Est & Hm); [done|apply skip_valid; try done; lia|done| |by rewrite <-Es|done|].
  { cbn. by rewrite Hc0. }
  eapply sat_bind; [eapply sat_call; exact Est|]. intros [] w2 [_ ->].
  eexists tt, _. split; [reflexivity|].
  match goal with |- synced ?w' /\ _ => set (w2 := w') end.
  assert (job_moved i job0 (nextRunAt o) w w2) as Hjm.
  { eexists. split; [unfold w2; cbn; by apply set_job_eq|]. by repeat split. }
  destruct (synced_moved w w2 i job0 d (others (length (trace w)) (store w))) with (next := nextRunAt o)
    as [Hsy' Hr]; [done|done|by rewrite Er, Hc|done|done|left|done|].
  { rewrite Er, Hc. exact Hm. }
  split; [done|]. split; [done|]. split; [done|]. apply Hm.
Qed.

(** Both claims: of the occurrence at the cursor, and of one already recorded. *)
Lemma sat_claim w i job job0 o c' : synced w -> is_job w i job job0 ->
  Next (rschedule job) (scheduledAt o) = Ok (nextRunAt o) -> scheduledAt o < nextRunAt o ->
  (scheduledAt o = NextRunAt (state job0) /\ four_digit_year (scheduledAt o)
     /\ c' = nextRunAt o)
  \/ (scheduledAt o <> 0 /\ nextRunAt o <> 0
      /\ has (store w) (name (registered job)) (scheduledAt o)
      /\ c' = NextRunAt (state job0)) ->
  sat (claimAndRun i job o) w (fun _ w' =>
    synced w' /\ job_moved i job0 c' w w' /\ records_stay w w'
    /\ has (store w') (name (registered job)) (scheduledAt o)).
Proof.
  intros Hsy (Hi & Er & Es) Hn Hlt Hcase.
  destruct (sy_agree _ Hsy i job0 Hi) as (d & Hd & Hsc).
  destruct (cursor_valid _ _ _ _ (sy_ok _ Hsy) Hd) as [Hname Hpos].
  eapply sat_bind; [apply sat_now|]. intros now w1 [Hnow ->].
  eapply (sat_bind _ _ _ _ (fun v w' => exists v', v = Some v' /\ String.length v' = 16%nat
    /\ w' = (w <| reads ::= S |>) <| draws ::= S |>)).
  { destruct (su_random Hsur (draws w)) as (v & Ev & Hv). eexists _, _. split; [reflexivity|].
    exists v. cbn. by rewrite Ev. }
  intros ? w1 (v & -> & Hv & ->). destruct (randomIdentity "lease" (Some v)) as [token|] eqn:Et;
    [|done]. destruct (hex16 v Hv token Et) as [Htok Hlen].
  pose proof (others_kept w (sy_ok _ Hsy)) as (Hok0 & Hc0 & Hh0).
  set (q := claim_request (name (registered job)) o token now).
  set (st0 := others (length (trace w)) (store w)) in *.
  assert (validateClaim Sum256 q = Ok tt) as Hv'.
  { rewrite Er in Hname. apply claim_valid; try done; destruct Hcase as [(? & _ & _)|(? & ? & _)]; lia. }
  assert (exists st' res, store_Claim Background q st0 = (st', Ok res)
    /\ (moved st0 (name (registered job0)) d (NextRunAt (state job0)) c' st'
        \/ kept st0 st' /\ c' = NextRunAt (state job0))
    /\ has st' (name (registered job)) (scheduledAt o)
    /\ nextRunAt o <= c' /\ (c' = nextRunAt o \/ c' = NextRunAt (state job0)))
    as (st' & res & Est & Hst & Hhas & Hle & Hc').
  { destruct Hcase as [(Hc & Hy & ->)|(_ & _ & Hh & ->)].
    - destruct (claim_at_cursor st0 q d (rschedule job)) as (st' & res & Est & Hm);
        [done|done|done| |by rewrite <-Es|done|].
      { cbn. by rewrite Hc0, <-Er, Hc. }
      exists st', res. split; [done|]. rewrite Er, <-Hc. split; [by left|].
      split; [apply Hm|]. split; [lia|by left].
    - destruct (claim_again st0 q d (NextRunAt (state job0)) (rschedule job))
        as (st' & res & Est & Hk); [done|done| |by rewrite <-Es|done|by apply Hh0|].
      { cbn. by rewrite Hc0, <-Er. }
      exists st', res. split; [done|]. split; [by right|].
      split; [by apply Hk, Hh0|]. split; [|by right]. rewrite Er in Hd.
      destruct (has_behind (store w) (name (registered job)) d (NextRunAt (state job0))
        (rschedule job) (scheduledAt o)) as (n & Hn' & _ & Hle);
        [apply (sy_ok _ Hsy)|done|by rewrite <-Es|done|congruence]. }
  eapply sat_bind; [eapply sat_call; exact Est|]. intros ? w2 [-> ->].
  set (f := fun jb : runtimeJob Handler => _).
  assert (registered (f job0) = registered job0 /\ rschedule (f job0) = rschedule job0
    /\ NextRunAt (state (f job0)) = c') as Hf.
  { unfold f, Time.Before. destruct (Z.ltb_spec (NextRunAt (state job0)) (nextRunAt o));
      (split; [done|]); (split; [done|]); cbn; lia. }
  assert (forall w', store w' = st' -> rjobs w' = <[i := f job0]> (rjobs w) ->
    synced w' /\ job_moved i job0 c' w w' /\ records_stay w w'
    /\ has (store w') (name (registered job)) (scheduledAt o)) as Hend.
  { intros w' Es' Ej'. assert (job_moved i job0 c' w w') as Hjm by (by exists (f job0)).
    rewrite Es'. destruct (synced_moved w w' i job0 d st0) with (next := c') as [Hsy' Hr];
      try done; by rewrite Es'. }
  eapply (sat_bind _ _ _ _ (fun _ w' => store w' = st' /\ rjobs w' = <[i := f job0]> (rjobs w))).
  { eexists tt, _. split; [reflexivity|]. cbn. split; [done|by apply set_job_eq]. }
  intros [] w3 [E1 E2]. destruct (negb _); [by apply sat_ret, Hend|].
  eapply (sat_bind _ _ _ _ (fun _ w' => store w' = st' /\ rjobs w' = <[i := f job0]> (rjobs w))).
  { eexists tt, _. split; [reflexivity|]. done. }
  intros [] w4 [E3 E4]. by apply sat_ret, Hend.
Qed.

(** ** Recovery *)

Definition unmoved (w w' : world) : Prop :=
  Forall2 same_job (rjobs w) (rjobs w') /\ records_stay w w'.

#[local] Instance same_job_preorder : PreOrder same_job.
Proof.
  split; [by intros x|]. intros x y z (?&?&?) (?&?&?). unfold same_job. by repeat split; congruence.
Qed.

Lemma unmoved_trans w1 w2 w3 : unmoved w1 w2 -> unmoved w2 w3 -> unmoved w1 w3.
Proof.
  intros [H1 R1] [H2 R2]. split; [by etrans|]. intros j t Ht. by apply R2, R1.
Qed.

Lemma job_moved_unmoved w w' i job0 : rjobs w !! i = Some job0 ->
  job_moved i job0 (NextRunAt (state job0)) w w' -> records_stay w w' -> unmoved w w'.
Proof.
  intros Hi (job' & Ej & E1 & E2 & E4) Hr. split; [|done]. rewrite Ej.
  apply Forall2_same_length_lookup_2; [by rewrite length_insert|].
  intros k x y Hx. destruct (decide (k = i)) as [->|Hne].
  - rewrite list_lookup_insert_eq by (by eapply lookup_lt_Some). intros [= <-].
    assert (x = job0) as -> by congruence. by repeat split.
  - rewrite list_lookup_insert_ne by done. intros Hy. assert (x = y) as -> by congruence. done.
Qed.

Lemma unmoved_job w w' i job : unmoved w w' -> rjobs w !! i = Some job ->
  exists job', rjobs w' !! i = Some job' /\ same_job job job'.
Proof. intros [H _] Hi. by apply (Forall2_lookup_l _ _ _ _ _ H). Qed.

Lemma unmoved_names w w' : unmoved w w' -> names w' = names w.
Proof.
  intros [H _]. unfold names. induction H as [|x y l k (E1 & _) _ IH]; [done|]. simpl. f_equal; [|done].
  cbn. by rewrite E1.
Qed.

(** [m] gives every active name a job of that name. *)
Definition indexes (m : gmap string nat) (w : world) : Prop :=
  forall n, n ∈ names w -> exists i job,
    m !! n = Some i /\ rjobs w !! i = Some job /\ name (registered job) = n.

Lemma byName_indexes w : indexes (byName w) w.
Proof.
  unfold indexes, byName, names.
  assert (forall (pre l : list (runtimeJob Handler)) (m : gmap string nat), (forall n, n ∈ name ∘ registered <$> pre -> exists i job,
      m !! n = Some i /\ (pre ++ l) !! i = Some job /\ name (registered job) = n) ->
    forall n, n ∈ name ∘ registered <$> (pre ++ l) -> exists i job,
      (fold_left (fun acc jb => (<[name (registered jb) := acc.2]> acc.1, S acc.2)) l
         (m, length pre)).1 !! n = Some i
      /\ (pre ++ l) !! i = Some job /\ name (registered job) = n) as H.
  { intros pre l. revert pre. induction l as [|jb l IH]; intros pre m Hm n Hn.
    - rewrite app_nil_r in *. by apply Hm.
    - assert (pre ++ jb :: l = (pre ++ [jb]) ++ l) as E0 by by rewrite <-app_assoc.
      cbn [fold_left fst snd]. rewrite E0.
      assert (S (length pre) = length (pre ++ [jb])) as -> by (rewrite length_app; simpl; lia).
      apply IH; [|by rewrite <-E0]. intros n'. rewrite fmap_app, elem_of_app.
      destruct (decide (n' = name (registered jb))) as [->|Hne].
      + intros _. exists (length pre), jb. rewrite lookup_insert_eq, <-E0.
        split; [done|]. split; [by apply list_lookup_middle|done].
      + intros [Hn'|Hn']; [|cbn in Hn'; set_solver]. rewrite lookup_insert_ne by done.
        rewrite <-E0. by apply Hm. }
  intros n Hn. apply (H [] (rjobs w) ∅); [by intros ? ?%elem_of_nil|done].
Qed.

Lemma sat_recoverAll m records : forall progressed w, synced w -> indexes m w ->
  (forall o, o ∈ records -> has (store w) (JobName o) (ScheduledAt o) /\ 0 < ScheduledAt o
     /\ JobName o ∈ names w) ->
  sat (@recoverAll St E Handler IS Sum256 LoadLocation ParseCron random contexts others service
         m records progressed) w (fun _ w' => synced w' /\ unmoved w w').
Proof.
  induction records as [|o records IH]; intros progressed w Hsy Hm Hrec.
  { apply sat_ret. split; [done|]. by split; [|intros j t]. }
  destruct (Hrec o) as (Hh & Hpos & Hin); [by left|].
  destruct (Hm _ Hin) as (i & job & Hmi & Hi & Hname). cbn [recoverAll]. rewrite Hmi.
  eapply (sat_bind _ _ _ _ (fun a w' => a = Some job /\ w' = w)).
  { exists (Some job), w. unfold get_job. by rewrite Hi. }
  intros ? ? [-> ->]. destruct (sy_agree _ Hsy i job Hi) as (d & Hd & Hsc).
  rewrite <-Hname in Hh.
  destruct (has_behind (store w) (name (registered job)) d (NextRunAt (state job))
    (rschedule job) (ScheduledAt o)) as (n & Hn & Hlt & Hle); [apply (sy_ok _ Hsy)|done..|].
  rewrite Hn. eapply sat_bind.
  { apply (sat_claim w i job job (mkDue (ScheduledAt o) n) (NextRunAt (state job)));
      [done|by repeat split|done|done|right]. cbn. repeat split; [lia|lia|done]. }
  intros disp w1 (Hsy1 & Hjm & Hr & _).
  assert (unmoved w w1) as Hun by (by eapply job_moved_unmoved).
  eapply sat_weaken; [apply IH; [done| |]|].
  - intros n'. rewrite (unmoved_names _ _ Hun). intros (k & jb & ? & Hk & <-)%Hm.
    destruct (unmoved_job w w1 k jb Hun Hk) as (jb' & Hk' & E1 & _).
    exists k, jb'. by rewrite <-E1.
  - intros o' Ho'. destruct (Hrec o') as (Hh' & Hpos' & Hin'); [by right|].
    split; [by apply Hr|]. by rewrite (unmoved_names _ _ Hun).
  - intros _ w2 [Hsy2 Hun2]. split; [done|]. by eapply unmoved_trans.
Qed.

Lemma sat_recoverExpired now w : synced w -> 0 < now ->
  sat (@recoverExpired St E Handler IS Sum256 LoadLocation ParseCron random contexts others
         service now) w (fun _ w' => synced w' /\ unmoved w w').
Proof.
  intros Hsy Hnow. pose proof (others_kept w (sy_ok _ Hsy)) as (Hok0 & Hc0 & Hh0).
  destruct (expired_recorded (others (length (trace w)) (store w)) now (catchUpLimit service))
    as (records & Est & Hrec); [done|lia|apply (so_limit Hservice)|].
  eapply sat_bind; [eapply sat_call; exact Est|]. intros ? w1 [-> ->].
  match goal with |- sat _ ?w' _ => set (w1 := w') end.
  assert (synced w1) as Hsy1.
  { destruct Hsy as [Hok Hnd Hag Hact]. split; [done|done| |].
    - intros i job Hi. destruct (Hag i job Hi) as (d & Hd & Hs). exists d.
      by rewrite <-Hd, <-Hc0.
    - intros j. cbn. rewrite Hc0. apply Hact. }
  assert (unmoved w w1) as Hun1 by (split; [by cbn|]; intros j t; apply Hh0).
  eapply (sat_bind _ _ _ _ (fun m w' => w' = w1 /\ m = byName w1)); [by eexists _, _|].
  intros ? ? [-> ->]. eapply sat_bind.
  { apply (sat_recoverAll (byName w1) records false w1); [done| |].
    - apply byName_indexes.
    - intros o Ho. destruct (Hrec o Ho) as (? & ? & ?). repeat split; [done|done|].
      by apply Hsy1. }
  intros progressed w2 [Hsy2 Hun2]. apply sat_ret. split; [done|]. by eapply unmoved_trans.
Qed.

(** ** The due occurrences of one job *)

Lemma job_moved_lookup w w' i job c' : rjobs w !! i = Some job -> job_moved i job c' w w' ->
  exists job', rjobs w' !! i = Some job' /\ registered job' = registered job
    /\ rschedule job' = rschedule job /\ NextRunAt (state job') = c'.
Proof.
  intros Hi (job' & Ej & H). exists job'. rewrite Ej, list_lookup_insert_eq; [done|].
  by eapply lookup_lt_Some.
Qed.

Lemma job_moved_trans w w1 w2 i job job1 c1 c2 : rjobs w !! i = Some job ->
  job_moved i job c1 w w1 -> rjobs w1 !! i = Some job1 -> job_moved i job1 c2 w1 w2 ->
  job_moved i job c2 w w2.
Proof.
  intros Hi (ja & Ea & A1 & A2 & _) H1 (jb & Eb & B1 & B2 & B3).
  rewrite Ea, list_lookup_insert_eq in H1 by (by eapply lookup_lt_Some). injection H1 as <-.
  exists jb. rewrite Eb, Ea, list_insert_insert_eq. by repeat split; congruence.
Qed.

#[local] Abbreviation runDue :=
  (@runDue St E Handler IS Sum256 random contexts others service).

Lemma sat_runDue i job first due : forall index w job0 c', synced w -> is_job w i job job0 ->
  linked (rschedule job) (NextRunAt (state job0)) due c' ->
  Forall (fun o => four_digit_year (scheduledAt o)) due ->
  sat (runDue i job first index due) w (fun _ w' =>
    synced w' /\ job_moved i job0 c' w w' /\ records_stay w w'
    /\ Forall (has (store w') (name (registered job))) (scheduledAt <$> due)).
Proof.
  induction due as [|o due IH]; intros index w job0 c' Hsy Hjob Hl Hall.
  { apply sat_ret. split; [done|]. split; [|split; [by intros j t|constructor]].
    exists job0. rewrite list_insert_id by apply Hjob. by repeat split. }
  destruct Hl as (Hc & Hn & Hlt & Hl). apply Forall_cons in Hall as [Hy Hall]. cbn [CronService.runDue].
  eapply (sat_bind _ _ _ _ (fun _ w' => synced w' /\ job_moved i job0 (nextRunAt o) w w'
    /\ records_stay w w' /\ has (store w') (name (registered job)) (scheduledAt o))).
  { rewrite <-Hc in Hn, Hlt. destruct (index <? first)%nat.
    - apply sat_skip; try done. case_match; auto.
    - eapply sat_bind; [apply (sat_claim w i job job0 o (nextRunAt o)); [done..|by left]|].
      intros disp w1 H. by apply sat_ret. }
  intros [] w1 (Hsy1 & Hm1 & Hr1 & Hh1). pose proof Hjob as (Hi & Er & Es).
  destruct (job_moved_lookup w w1 i job0 _ Hi Hm1) as (job1 & Hi1 & Er1 & Es1 & Ec1).
  eapply sat_weaken; [apply (IH (S index) w1 job1 c'); [done| | |done]|].
  - repeat split; [done|congruence|congruence].
  - by rewrite Ec1.
  - intros [] w2 (Hsy2 & Hm2 & Hr2 & Hh2). split; [done|]. split; [by eapply job_moved_trans|].
    split; [intros j t Ht; by apply Hr2, Hr1|]. constructor; [by apply Hr2|done].
Qed.

(** The end of a round only clears [startup]. *)
Lemma sat_startup w i job0 : synced w -> rjobs w !! i = Some job0 ->
  sat (set_job i (fun jb => jb <| startup := false |>)) w (fun _ w' =>
    synced w' /\ job_moved i job0 (NextRunAt (state job0)) w w' /\ records_stay w w'
    /\ store w' = store w).
Proof.
  intros Hsy Hi. eexists tt, _. split; [reflexivity|].
  match goal with |- synced ?w' /\ _ => set (w1 := w') end.
  assert (job_moved i job0 (NextRunAt (state job0)) w w1) as Hm.
  { eexists. split; [unfold w1; cbn; by apply set_job_eq|]. by repeat split. }
  destruct (sy_agree _ Hsy i job0 Hi) as (d & Hd & Hs).
  destruct (synced_moved w w1 i job0 d (store w)) with (next := NextRunAt (state job0))
    as [Hsy1 Hr]; try done.
  - split; [apply Hsy|]. by split.
  - right. split; [|done]. split; [apply Hsy|]. by split.
Qed.

(** Job [i] has gone through what was due by [now], or through as much as one cycle may. *)
Definition caught_up (now : Time.t) (w w' : world) (more : bool) (i : nat) : Prop :=
  forall job, rjobs w !! i = Some job ->
  exists job' due, rjobs w' !! i = Some job' /\ registered job' = registered job
    /\ rschedule job' = rschedule job
    /\ passes LoadLocation ParseCron (rschedule job) (NextRunAt (state job)) due
         (NextRunAt (state job'))
    /\ Forall (fun t => t <= now /\ has (store w') (name (registered job)) t) due
    /\ (now < NextRunAt (state job')
        \/ more = true /\ length due = Z.to_nat (catchUpLimit service)).

#[local] Abbreviation cycleJob :=
  (@cycleJob St E Handler IS Sum256 LoadLocation ParseCron random contexts others service).

Lemma sat_cycleJob now w i job : synced w -> rjobs w !! i = Some job ->
  goes_on (rschedule job) (NextRunAt (state job)) now ->
  sat (cycleJob now i) w (fun more w' =>
    synced w' /\ records_stay w w' /\ caught_up now w w' more i
    /\ exists c', job_moved i job c' w w').
Proof.
  intros Hsy Hi Hgo. destruct (collectDue_spec LoadLocation ParseCron (rschedule job) now
    (Z.to_nat (catchUpLimit service)) _ Hgo) as (due & more & c' & Ecd & Hl & Hall & Hend).
  unfold CronService.cycleJob.
  eapply (sat_bind _ _ _ _ (fun a w' => a = Some job /\ w' = w)).
  { exists (Some job), w. unfold get_job. by rewrite Hi. }
  intros ? ? [-> ->]. rewrite Ecd.
  assert (forall w' more', (more' = more) -> job_moved i job c' w w' ->
    Forall (has (store w') (name (registered job))) (scheduledAt <$> due) ->
    caught_up now w w' more' i) as Hcaught.
  { intros w' ? -> Hm Hh jb Hjb. assert (jb = job) as -> by congruence.
    destruct (job_moved_lookup w w' i job _ Hi Hm) as (job' & Hi' & E1 & E2 & E3).
    exists job', (scheduledAt <$> due). rewrite E3.
    split; [done|]. split; [done|]. split; [done|]. split; [by apply linked_passes|]. split.
    - apply Forall_forall. intros t Ht. split; [|by eapply Forall_forall in Hh].
      apply list_elem_of_fmap in Ht as (o & -> & Ho).
      rewrite Forall_forall in Hall. by apply Hall.
    - rewrite length_fmap. destruct more; [right; tauto|by left]. }
  destruct (Nat.eqb_spec (length due) 0) as [Hz|Hz].
  - destruct due; [|done]. cbn in Hl. subst c'.
    assert (more = false) as ->.
    { destruct more; [|done]. destruct Hend as [Hend _]. pose proof (so_limit Hservice).
      simpl in Hend. lia. }
    eapply sat_bind; [by apply sat_startup|]. intros [] w1 (Hsy1 & Hm & Hr & _).
    apply sat_ret. split; [done|]. split; [done|]. split; [|by eexists].
    apply Hcaught; [done|done|constructor].
  - eapply sat_bind.
    { apply (sat_runDue i job _ due 0 w job c'); [done|by repeat split|done|].
      eapply Forall_impl; [exact Hall|]. naive_solver. }
    intros [] w1 (Hsy1 & Hm1 & Hr1 & Hh1).
    destruct (job_moved_lookup w w1 i job _ Hi Hm1) as (job1 & Hi1 & Er1 & Es1 & Ec1).
    eapply (sat_bind _ _ _ _ (fun _ w' => synced w' /\ job_moved i job1 c' w1 w'
      /\ records_stay w1 w' /\ store w' = store w1)).
    { destruct more.
      - apply sat_ret. split; [done|]. split; [|by split; [intros j t|]].
        exists job1. by rewrite list_insert_id.
      - rewrite <-Ec1. by apply sat_startup. }
    intros [] w2 (Hsy2 & Hm2 & Hr2 & Es2). apply sat_ret.
    assert (job_moved i job c' w w2) as Hm by (by eapply job_moved_trans).
    split; [done|]. split; [intros j t Ht; by apply Hr2, Hr1|]. split; [|by eexists].
    apply Hcaught; [done|done|by rewrite Es2].
Qed.

(** ** All jobs *)

#[local] Abbreviation cycleJobs :=
  (@cycleJobs St E Handler IS Sum256 LoadLocation ParseCron random contexts others service).
#[local] Abbreviation cycle :=
  (@cycle St E Handler IS Sum256 LoadLocation ParseCron random contexts others service).

(** A round for one job leaves what another has reached. *)
Lemma caught_up_later now w w1 w2 i more more' :
  caught_up now w w1 more i -> (more = true -> more' = true) ->
  rjobs w2 !! i = rjobs w1 !! i -> records_stay w1 w2 -> caught_up now w w2 more' i.
Proof.
  intros H Hm Hi Hr job Hjob.
  destruct (H job Hjob) as (job' & due & Hj' & E1 & E2 & Hp & Hall & Hend).
  exists job', due. rewrite Hi. split; [done|]. split; [done|]. split; [done|]. split; [done|].
  split; [|naive_solver]. eapply Forall_impl; [exact Hall|]. intros t [? ?]. split; [done|].
  by apply Hr.
Qed.

Lemma sat_cycleJobs now indices : forall imm w, NoDup indices -> synced w ->
  (forall i job, i ∈ indices -> rjobs w !! i = Some job ->
     goes_on (rschedule job) (NextRunAt (state job)) now) ->
  (forall i, i ∈ indices -> is_Some (rjobs w !! i)) ->
  sat (cycleJobs now indices imm) w (fun more w' =>
    synced w' /\ records_stay w w' /\ (imm = true -> more = true)
    /\ length (rjobs w') = length (rjobs w)
    /\ (forall k, k ∉ indices -> rjobs w' !! k = rjobs w !! k)
    /\ forall i, i ∈ indices -> caught_up now w w' more i).
Proof.
  induction indices as [|i indices IH]; intros imm w Hnd Hsy Hgo Hsome.
  { apply sat_ret. repeat split; [apply Hsy..|by intros j t|done|]. intros i Hi. set_solver. }
  apply NoDup_cons in Hnd as [Hni Hnd]. destruct (Hsome i) as [job Hi]; [set_solver|].
  cbn [CronService.cycleJobs].
  eapply sat_bind; [apply (sat_cycleJob now w i job); [done|done|apply (Hgo i); set_solver]|].
  intros more w1 (Hsy1 & Hr1 & Hc1 & c' & job' & Ej & _).
  assert (forall k, k <> i -> rjobs w1 !! k = rjobs w !! k) as Hother.
  { intros k Hk. by rewrite Ej, list_lookup_insert_ne. }
  eapply sat_weaken; [apply (IH (imm || more) w1); [done|done| |]|].
  - intros k jb Hk. rewrite Hother by set_solver. apply Hgo. set_solver.
  - intros k Hk. rewrite Hother by set_solver. apply Hsome. set_solver.
  - intros more' w2 (Hsy2 & Hr2 & Hm & Hlen & Hk2 & Hc2). split; [done|].
    split; [intros j t Ht; by apply Hr2, Hr1|].
    split; [intros ->; by apply Hm|].
    split; [by rewrite Hlen, Ej, length_insert|]. split.
    + intros k Hk. rewrite Hk2, Hother by set_solver. done.
    + intros k [->|Hk]%elem_of_cons.
      * eapply caught_up_later; [exact Hc1| |by apply Hk2|done]. intros ->.
        apply Hm. by rewrite orb_true_r.
      * intros jb Hjb. apply (Hc2 k Hk). rewrite Hother; [done|]. by intros ->.
Qed.

(** C12: One cycle of the only scheduler of a store catches every job up and does not fail.
    Suppose that the store keeps its contract and holds the cursors and schedules that the
    service holds, and that whoever else changes it between the calls, its workers say, leaves
    the cursors alone; that the context is not cancelled, identifiers can be drawn, the
    options are in range and the clock is set; and that each schedule goes on up to [now] in
    years of four digits.  (A second scheduler breaks this: [late_replica_stops].)  Then a cycle at
    [now] returns no error, and leaves service and store in agreement; the cursor
    of every job has moved through consecutive instants of its schedule, none later than
    [now] and each with an occurrence record, and either is later than [now], or the job
    has reached the catch-up limit and the scheduler is told to go on at once. *)
Theorem cycle_catches_up (now : Time.t) (w : world) (Hw : synced w) (Hnow : 0 < now)
  (Hgo : forall i job, rjobs w !! i = Some job ->
     goes_on (rschedule job) (NextRunAt (state job)) now) :
  exists immediate w', cycle now w = (w', Ok immediate)
    /\ synced w' /\ length (rjobs w') = length (rjobs w)
    /\ forall i, caught_up now w w' immediate i.
Proof.
  enough (sat (cycle now) w (fun immediate w' =>
    synced w' /\ length (rjobs w') = length (rjobs w)
    /\ forall i, caught_up now w w' immediate i)) as (a & w' & ? & ?) by eauto.
  eapply sat_bind; [by apply sat_recoverExpired|]. intros imm w1 [Hsy1 Hun].
  assert (length (rjobs w1) = length (rjobs w)) as Hlen
    by (symmetry; apply (Forall2_length same_job), Hun).
  eapply (sat_bind _ _ _ _ (fun n w' => n = length (rjobs w1) /\ w' = w1)); [by eexists _, _|].
  intros ? ? [-> ->]. eapply sat_weaken.
  - apply sat_cycleJobs; [apply NoDup_seq|done| |].
    + intros i job1 _ Hi1. destruct Hun as [Hf _].
      destruct (Forall2_lookup_r _ _ _ _ _ Hf Hi1) as (job & Hi & _ & <- & <-). by apply (Hgo i).
    + intros i Hi%elem_of_seq. apply lookup_lt_is_Some. lia.
  - intros more w2 (Hsy2 & Hr2 & _ & Hlen2 & Hk2 & Hc2). split; [done|].
    split; [by rewrite Hlen2|]. intros i job Hi.
    destruct (unmoved_job w w1 i job Hun Hi) as (job1 & Hi1 & E1 & E2 & E3).
    destruct (Hc2 i) with (job := job1) as (job' & due & H); [|done|].
    { apply elem_of_seq. apply lookup_lt_Some in Hi1. lia. }
    exists job', due. by rewrite E1, E2, E3.
Qed.
End cycle.

(** ** Which occurrences run *)

(** What becomes of [n] occurrences that are due at once: [None] is a run, [Some] the
    reason of a skip. *)
Definition catch_up_plan (policy : string) (startup more : bool) (n : nat)
  : list (option string) :=
  if bool_decide (policy = CatchUpAll) then replicate n None
  else if startup && bool_decide (policy = CatchUpNone) then
    replicate n (Some "catch_up_disabled")
  else if more then replicate n (Some "superseded")
  else match n with
       | O => []
       | S n => replicate n (Some "superseded") ++ [None]
       end.

Section policy.
Context {St E Handler : Type} `{IS : IStore St E}
        (Sum256 : string -> string) (LoadLocation : string -> option Location)
        (ParseCron : string -> option RawSchedule).
Context (random : nat -> option string) (contexts : nat -> context)
        (others : nat -> St -> St) (service : Service Handler).
#[local] Abbreviation world := (world St Handler).
#[local] Abbreviation M := (@M St E Handler).

Lemma bind_inv {A B} (m : M A) (k : A -> M B) (w w' : world) b : bind m k w = (w', Ok b) ->
  exists a w1, m w = (w1, Ok a) /\ k a w1 = (w', Ok b).
Proof. unfold bind. destruct (m w) as [w1 [a|e]]; [eauto|done]. Qed.

Lemma store_call_inv {A} c (method : context -> St -> St * result E A) wrap (w w' : world) a :
  call_store (Handler := Handler) contexts others c method wrap w = (w', Ok a) ->
  trace w' = trace w ++ [c] /\ rjobs w' = rjobs w.
Proof. unfold call_store. destruct (method _ _) as [st [x|e]]; by intros [= <- _]. Qed.

(** The call made for one occurrence. *)
Definition call_for (n : string) (c : call) (p : dueOccurrence * option string) : Prop :=
  match p with
  | (o, Some reason) => exists now, c = CallSkip (skip_request Sum256 n o reason now)
  | (o, None) => exists now token, c = CallClaim (claim_request Sum256 service n o token now)
  end.

Lemma skip_calls i job o reason (w w' : world) :
  @skip St E Handler IS Sum256 contexts others service i job o reason w = (w', Ok tt) ->
  exists c, trace w' = trace w ++ [c] /\ call_for (name (registered job)) c (o, Some reason).
Proof.
  intros (now & w1 & [= <- <-] & H)%bind_inv. apply bind_inv in H as (u & w2 & H2 & [= <-]).
  apply store_call_inv in H2 as [H2 _]. eexists. split; [exact H2|]. cbn. by eexists.
Qed.

Lemma claim_calls i job o d (w w' : world) :
  @claimAndRun St E Handler IS Sum256 random contexts others service i job o w = (w', Ok d) ->
  exists c, trace w' = trace w ++ [c] /\ call_for (name (registered job)) c (o, None).
Proof.
  intros (now & w1 & [= <- <-] & H)%bind_inv. apply bind_inv in H as (v & w2 & [= <- <-] & H).
  destruct (randomIdentity _ _) as [token|]; [|done].
  apply bind_inv in H as (res & w3 & H3 & H). apply store_call_inv in H3 as [H3 _].
  apply bind_inv in H as (u & w4 & [= <- <-] & H).
  assert (trace w' = trace w3) as ->.
  { destruct (negb _); [by injection H as <-|].
    apply bind_inv in H as (u' & w5 & [= <- <-] & [= <- _]). done. }
  eexists. split; [exact H3|]. cbn. by eexists _, _.
Qed.

Lemma runDue_calls i job first due : forall index (w w' : world),
  @runDue St E Handler IS Sum256 random contexts others service i job first index due w
    = (w', Ok tt) ->
  let reason := if startup job && bool_decide (catchUp (config (registered job)) = CatchUpNone)
                then "catch_up_disabled" else "superseded" in
  exists calls, trace w' = trace w ++ calls
    /\ Forall2 (call_for (name (registered job))) calls
         (zip due ((fun k => if (k <? first)%nat then Some reason else None)
                     <$> seq index (length due))).
Proof.
  induction due as [|o due IH]; intros index w w' H reason.
  { injection H as <-. exists []. by rewrite app_nil_r. }
  cbn [runDue] in H. apply bind_inv in H as ([] & w1 & H1 & H).
  destruct (IH _ _ _ H) as (calls & Ht & Hall). fold reason in Hall.
  assert (exists c, trace w1 = trace w ++ [c] /\ call_for (name (registered job)) c
    (o, if (index <? first)%nat then Some reason else None)) as (c & Hc & Hcall).
  { destruct (index <? first)%nat; [by apply skip_calls in H1|].
    apply bind_inv in H1 as (d & w2 & H1 & [= <-]). by apply claim_calls in H1. }
  exists (c :: calls). rewrite Ht, Hc, <-app_assoc. split; [done|]. by constructor.
Qed.

(** The index of the code against the plan. *)
Lemma run_index_plan policy startup more n : n <> O ->
  let reason := if startup && bool_decide (policy = CatchUpNone)
                then "catch_up_disabled" else "superseded" in
  (fun k => if (k <? occurrenceRunIndex policy n startup more)%nat then Some reason else None)
    <$> seq 0 n = catch_up_plan policy startup more n.
Proof.
  intros Hn reason.
  assert (forall first, (first <= n)%nat ->
    (fun k => if (k <? first)%nat then Some reason else None) <$> seq 0 n
    = replicate first (Some reason) ++ replicate (n - first) None) as Hseq.
  { intros first Hle. replace n with (first + (n - first))%nat at 1 by lia.
    rewrite seq_app, fmap_app. f_equal.
    - symmetry. apply replicate_as_elem_of. rewrite length_fmap, length_seq. split; [done|].
      intros x (k & -> & Hk%elem_of_seq)%list_elem_of_fmap.
      by rewrite (proj2 (Nat.ltb_lt _ _)) by lia.
    - symmetry. apply replicate_as_elem_of. rewrite length_fmap, length_seq. split; [done|].
      intros x (k & -> & Hk%elem_of_seq)%list_elem_of_fmap.
      by rewrite (proj2 (Nat.ltb_ge _ _)) by lia. }
  unfold occurrenceRunIndex, catch_up_plan, reason in *.
  destruct (Nat.eqb_spec n 0) as [|_]; [done|]. cbn [orb].
  destruct (decide (policy = CatchUpAll)) as [->|Ha].
  { rewrite bool_decide_true by done. rewrite Hseq by lia. by rewrite Nat.sub_0_r. }
  rewrite (bool_decide_false _ Ha). cbn [orb].
  destruct (startup && _); [rewrite Hseq by lia; by rewrite Nat.sub_diag, app_nil_r|].
  destruct more; [rewrite Hseq by lia; by rewrite Nat.sub_diag, app_nil_r|].
  rewrite Hseq by lia. destruct n as [|n]; [done|]. rewrite Nat.sub_succ, Nat.sub_0_r.
  by replace (S n - n)%nat with 1%nat by lia.
Qed.

(** The catch-up policies.  A round of the cycle that succeeds makes exactly one call
    for each occurrence that is due, in their order: with [CatchUpAll] it claims them all;
    with [CatchUpNone] it skips them all as disabled while the service starts; and
    otherwise it skips as superseded all but the last, which it claims, or all of them
    when more are due than one cycle takes. *)
Theorem catch_up_policy (now : Time.t) (i : nat) (w w' : world) (more : bool)
  (job : runtimeJob Handler) (Hjob : rjobs w !! i = Some job)
  (Hok : @cycleJob St E Handler IS Sum256 LoadLocation ParseCron random contexts others
           service now i w = (w', Ok more)) :
  exists due rest calls,
    collectDue LoadLocation ParseCron (rschedule job) (NextRunAt (state job)) now
      (Z.to_nat (catchUpLimit service)) = Ok (due, rest)
    /\ more = rest && negb (length due =? 0)%nat
    /\ trace w' = trace w ++ calls
    /\ Forall2 (call_for (name (registered job))) calls
         (zip due (catch_up_plan (catchUp (config (registered job))) (startup job) rest
                     (length due))).
Proof.
  unfold cycleJob in Hok. apply bind_inv in Hok as (j & w1 & [= <- <-] & Hok).
  rewrite Hjob in Hok.
  destruct (collectDue _ _ _ _ _ _) as [[due more']|e] eqn:Ed; [|done].
  destruct (Nat.eqb_spec (length due) 0) as [Hz|Hz].
  - apply bind_inv in Hok as (u & w2 & [= <- <-] & [= <- <-]). destruct due; [|done].
    exists [], more', []. rewrite andb_false_r, app_nil_r. by repeat split.
  - apply bind_inv in Hok as ([] & w2 & H2 & Hok).
    apply bind_inv in Hok as ([] & w3 & H3 & [= <- <-]).
    apply runDue_calls in H2 as (calls & Ht & Hall). rewrite run_index_plan in Hall by done.
    exists due, more', calls. rewrite (proj2 (Nat.eqb_neq _ _) Hz), andb_true_r.
    split; [done|]. split; [done|]. split; [|done]. rewrite <-Ht.
    destruct more'; by injection H3 as <-.
Qed.
End policy.
Close Scope Z_scope.

(** ** One late service *)

Module Calm.

(** One service on the store of noon, late by two occurrences. *)
Definition calm_service : Service unit :=
  {| v_jobs := ∅; jobNames := ["rollup"]; leaseDuration := defaultLeaseDuration;
     catchUpLimit := 10; leaseOwner := "replica"; clock := fun _ => Demo.clock 2 5 |}.
Definition noon_state : JobState := default noJob (jobs Demo.noon !! "rollup").
Definition job : runtimeJob unit :=
  {| registered := {| name := "rollup"; schedule := Demo.every_minute; handler := tt;
                      config := mkJobConfig CatchUpLatest OverlapSkip |};
     rschedule := Demo.every_minute; state := noon_state; startup := true |}.
Definition w : world MemoryStore unit :=
  {| store := Demo.noon; running := true; rjobs := [job]; workers := []; trace := []; reads := 0;
     draws := 0 |}.
Definition random (n : nat) : option string := Some "0123456789abcdef".

Lemma id_inj (a b : string) : (fun s : string => s) a = (fun s => s) b -> a = b.
Proof. done. Qed.

#[export] Instance calm_store : CursorStore (fun s => s) zoneinfo pretty no_cron MemoryStore
    store_error (H := MemoryStore_IStore (fun s => s) zoneinfo pretty no_cron) :=
  MemoryStore_CursorStore (fun s => s) zoneinfo pretty no_cron id_inj.

Lemma noon_jobs : jobs Demo.noon = <["rollup" := noon_state]> ∅.
Proof. vm_compute. reflexivity. Qed.

Lemma noon_well_formed : well_formed (fun s => s) Demo.noon.
Proof.
  apply (run_invariant (fun s => s) zoneinfo pretty no_cron (well_formed (fun s => s))).
  - intros st o st'. apply step_well_formed.
  - split; apply map_Forall_empty.
Qed.

Lemma noon_ok : memory_ok (fun s => s) zoneinfo pretty no_cron Demo.noon.
Proof.
  assert (occurrences Demo.noon = ∅) as E by (vm_compute; reflexivity). split.
  - apply noon_well_formed.
  - intros j s Hs. rewrite noon_jobs in Hs.
    apply lookup_insert_Some in Hs as [[<- <-]|[_ Hs]]; [|by rewrite lookup_empty in Hs].
    split; [by vm_compute|]. intros schedule _ t (id & o & Ho & _). by rewrite E, lookup_empty in Ho.
  - intros id o Ho. by rewrite E, lookup_empty in Ho.
Qed.

Lemma noon_synced :
  synced (fun s => s) zoneinfo pretty no_cron (CS := calm_store) w.
Proof.
  split.
  - apply noon_ok.
  - cbn. apply NoDup_singleton.
  - intros [|i] jb; [|done]. intros [= <-]. exists Demo.declared_as.
    split; vm_compute; reflexivity.
  - intros j [[d c] (s & Hs & _ & _)%(memory_cursor_Some zoneinfo pretty no_cron)]. cbn [w store] in Hs.
    rewrite noon_jobs in Hs. apply lookup_insert_Some in Hs as [[<- _]|[_ Hs]].
    + cbn. by apply list_elem_of_singleton.
    + by rewrite lookup_empty in Hs.
Qed.

Lemma every_minute_goes_on :
  goes_on zoneinfo no_cron Demo.every_minute (Demo.clock 1 0) (Demo.clock 2 5).
Proof.
  replace (Demo.clock 1 0) with 63921960060000000000%Z by (vm_compute; reflexivity).
  replace (Demo.clock 2 5) with 63921960125000000000%Z by (vm_compute; reflexivity).
  intros t Ht. split.
  - unfold four_digit_year, Date_of. rewrite (local_constant 0) by done. rewrite Z.add_0_r.
    unfold Time.Second. rewrite Z.div_div by lia.
    replace (t / (1000000000 * 86400))%Z with 739837%Z by
      (apply (Z.div_unique t _ _ (t - 739837 * (1000000000 * 86400))); lia).
    vm_compute. split; discriminate.
  - destruct (Next_keeps_cadence zoneinfo no_cron Demo.every_minute t) as (n & Hn & Hlt & _);
      [by vm_compute|done| |by exists n].
    change (t - 63921960000000000000 + 60000000000 <= 9223372036854775807)%Z. lia.
Qed.
End Calm.

Lemma cycle_catches_up_witness :
  exists immediate w',
    @cycle MemoryStore store_error unit
      (MemoryStore_IStore (fun s => s) zoneinfo pretty no_cron) (fun s => s) zoneinfo no_cron
      Calm.random (fun _ => Background) (fun _ st => st) Calm.calm_service
      (CronLease.Demo.clock 2 5) Calm.w = (w', Ok immediate)
    /\ caught_up (fun s => s) zoneinfo pretty no_cron (CS := Calm.calm_store) Calm.calm_service
         (CronLease.Demo.clock 2 5) Calm.w w' immediate 0.
Proof.
  destruct (cycle_catches_up (fun s => s) zoneinfo pretty no_cron Calm.random
    (fun _ => Background) (fun _ st => st) Calm.calm_service (CS := Calm.calm_store)) with
    (now := CronLease.Demo.clock 2 5) (w := Calm.w) as (imm & w' & Hc & _ & _ & Hall).
  - split; [split; [discriminate|cbn; lia]|vm_compute; discriminate|split; vm_compute; [reflexivity|discriminate]|].
    intros n. vm_compute. reflexivity.
  - split; [reflexivity|intros n; exists "0123456789abcdef"; split; reflexivity|].
    intros n st Hok. split; [exact Hok|]. split; [reflexivity|auto].
  - exact Calm.noon_synced.
  - vm_compute. reflexivity.
  - intros [|i] job Hi; [|discriminate Hi]. injection Hi as <-. exact Calm.every_minute_goes_on.
  - exists imm, w'. split; [exact Hc|apply Hall].
Defined.

(** Of the two occurrences that are due it skips the first and runs the second. *)
Lemma catch_up_policy_witness :
  exists w' calls, @cycleJob MemoryStore store_error unit
      (MemoryStore_IStore (fun s => s) zoneinfo pretty no_cron) (fun s => s) zoneinfo no_cron
      Calm.random (fun _ => Background) (fun _ st => st) Calm.calm_service
      (CronLease.Demo.clock 2 5) 0 Calm.w = (w', Ok false)
    /\ trace w' = calls
    /\ Forall2 (call_for (fun s => s) Calm.calm_service "rollup") calls
         [(mkDue (CronLease.Demo.clock 1 0) (CronLease.Demo.clock 2 0), Some "superseded");
          (mkDue (CronLease.Demo.clock 2 0) (CronLease.Demo.clock 3 0), None)].
Proof.
  destruct (@cycleJob MemoryStore store_error unit
      (MemoryStore_IStore (fun s => s) zoneinfo pretty no_cron) (fun s => s) zoneinfo no_cron
      Calm.random (fun _ => Background) (fun _ st => st) Calm.calm_service
      (CronLease.Demo.clock 2 5) 0 Calm.w) as [w' r] eqn:E.
  assert (r = Ok false) as -> by (vm_compute in E; injection E as _ <-; reflexivity).
  destruct (catch_up_policy (fun s => s) zoneinfo no_cron Calm.random (fun _ => Background)
    (fun _ st => st) Calm.calm_service (CronLease.Demo.clock 2 5) 0 Calm.w w' false Calm.job
    eq_refl E) as (due & rest & calls & Hd & _ & Ht & Hall).
  vm_compute in Hd. injection Hd as <- <-. exists w', calls. split; [reflexivity|].
  split; [exact Ht|exact Hall].
Defined.
