(* ===== verification/CronWorker.v ===== *)
(** * Workers, construction, and two schedulers on one store

    What a worker of [pkg/cron/service.go] reports when its handler returns, what [New]
    makes of its options, and a run in which the second of two schedulers on one store
    stops because the first is at work. *)

From Stdlib Require Import Ascii.
From stdpp Require Import pretty.
From S2P Require Import Prelude.
From S2P Require Import GoStd.
From S2P Require Import GoText.
From S2P Require Import GoTime.
From S2P Require Import GoFormat.
From S2P Require Import CronSchedule.
From S2P Require Import CronNext.
From S2P Require Import CronStore.
From S2P Require Import CronLease.
From S2P Require Import CronService.
From S2P Require Import CronKeeps.
From S2P Require Import CronCycle.

(** ** Texts that are valid UTF-8 *)

Definition valid (l : list ascii) : Prop := UTF8.valid_from (length l) l = true.

Lemma valid_rune r : r <> [] -> UTF8.rune_len r = Some (length r) -> valid r.
Proof.
  intros Hr E. unfold valid. destruct r as [|a r]; [done|]. cbn [length UTF8.valid_from].
  rewrite E, drop_all. by destruct (length r).
Qed.

(** What follows valid text in valid text is valid. *)
Lemma valid_rest p r : valid p -> valid (p ++ r) -> valid r.
Proof.
  remember (length p) as k eqn:Ek. assert (length p <= k)%nat as Hk by lia. clear Ek.
  revert p Hk. induction k as [|k IH]; intros p Hk Hp H; [destruct p; [done|simpl in Hk; lia]|].
  destruct p as [|a p]; [done|]. unfold valid in Hp. cbn [length UTF8.valid_from] in Hp.
  destruct (UTF8.rune_len (a :: p)) as [n|] eqn:En; [|done].
  apply UTF8Facts.rune_len_spec in En as (r0 & l' & El & Hr0 & Hn & _ & Hlen).
  assert (length l' <= length p)%nat.
  { assert (length (a :: p) = length r0 + length l')%nat as Hl by (by rewrite El, length_app).
    simpl in Hl. lia. }
  simpl in Hk. apply (IH l'); [lia| |].
  - unfold valid. rewrite El, <-Hr0, drop_app_length in Hp. rewrite <-Hp.
    apply UTF8Facts.valid_from_fuel; lia.
  - unfold valid in H. rewrite El, <-app_assoc in H.
    destruct r0 as [|a' r0]; [simpl in Hr0; lia|]. cbn [app length UTF8.valid_from] in H.
    rewrite (Hlen (l' ++ r) : UTF8.rune_len (a' :: r0 ++ l' ++ r) = Some n) in H.
    change (a' :: r0 ++ l' ++ r) with ((a' :: r0) ++ (l' ++ r)) in H.
    rewrite <-Hr0, drop_app_length in H. unfold valid. rewrite <-H.
    apply UTF8Facts.valid_from_fuel; [done|]. rewrite (length_app r0). lia.
Qed.

Lemma to_valid_valid fuel : forall invalid l, (length l <= fuel)%nat ->
  valid (to_valid fuel invalid l).
Proof.
  induction fuel as [|fuel IH]; intros invalid l Hl; [done|]. cbn [to_valid].
  destruct l as [|a l]; [done|]. simpl in Hl.
  destruct (UTF8.rune_len (a :: l)) as [n|] eqn:En.
  - apply UTF8Facts.rune_len_spec in En as (r & l' & El & Hr & Hn & _ & Hlen).
    rewrite El, <-Hr, take_app_length, drop_app_length.
    apply UTF8Facts.valid_app.
    + apply valid_rune; [by destruct r; [simpl in Hr; lia|]|].
      specialize (Hlen []). by rewrite app_nil_r, <-Hr in Hlen.
    + apply IH. assert (length (a :: l) = length r + length l')%nat as Hl'
        by (by rewrite El, length_app). simpl in Hl'. lia.
  - apply UTF8Facts.valid_app; [by destruct invalid|]. apply IH. lia.
Qed.

Lemma valid_string l : UTF8.ValidString (String.string_of_list_ascii l) = true <-> valid l.
Proof. unfold UTF8.ValidString, valid. by rewrite String.list_ascii_of_string_of_list_ascii. Qed.

Lemma ToValidUTF8_valid s : UTF8.ValidString (ToValidUTF8 s) = true.
Proof. apply valid_string. by apply to_valid_valid. Qed.

Lemma cut_to_valid_spec fuel : forall s, (String.length s <= fuel)%nat ->
  UTF8.ValidString (cut_to_valid fuel s) = true
  /\ (String.length (cut_to_valid fuel s) <= String.length s)%nat.
Proof.
  induction fuel as [|fuel IH]; intros s Hs; cbn [cut_to_valid].
  { destruct s; [done|simpl in Hs; lia]. }
  destruct (UTF8.ValidString s) eqn:Ev; [done|].
  assert (String.length s <> 0)%nat by (by destruct s).
  pose proof (substring_length s (String.length s - 1)) as Hl.
  destruct (IH (String.substring 0 (String.length s - 1) s)) as [H1 H2]; [lia|]. split; [done|lia].
Qed.

(** *** Trimming *)

Lemma trim_with_ind (P : list ascii -> Prop) ps :
  (forall p r, p ∈ ps -> P (p ++ r) -> P r) -> forall n l, P l -> P (trim_with ps n l).
Proof.
  intros H n. induction n as [|n IH]; intros l Hl; [done|]. cbn [trim_with].
  destruct (strip_any ps l) as [r|] eqn:E; [|done]. apply IH.
  clear IH. revert E. induction ps as [|p ps IHp]; [done|]. cbn [strip_any].
  destruct (strip p l) as [r'|] eqn:Es.
  - intros [= <-]. apply strip_Some in Es as ->. apply (H p); [by left|done].
  - apply IHp. intros q r0 Hq. apply H. by right.
Qed.

(** White space is valid, and its first byte starts a rune. *)
Lemma white_space_runes p : p ∈ white_space ->
  valid p /\ exists a p', p = a :: p' /\ UTF8.RuneStart a = true.
Proof.
  intros Hp.
  assert (Forall (fun p => UTF8.valid_from (length p) p && match p with
    | a :: _ => UTF8.RuneStart a | [] => false end = true) white_space) as H.
  { apply (bool_decide_eq_true_1 _). by vm_compute. }
  rewrite Forall_forall in H. specialize (H p Hp). apply andb_true_iff in H as [H1 H2].
  split; [done|]. destruct p as [|a p']; [done|]. eauto.
Qed.

Lemma TrimSpace_valid s : UTF8.ValidString s = true -> UTF8.ValidString (TrimSpace s) = true.
Proof.
  intros Hs. apply valid_string. unfold trim_right, trim_left.
  set (l := String.list_ascii_of_string s) in *.
  assert (valid (trim_with white_space (length l) l)) as H1.
  { apply (trim_with_ind valid); [|done]. intros p r Hp. apply valid_rest.
    by apply white_space_runes. }
  set (l1 := trim_with white_space _ l) in *. clearbody l1. clear Hs l.
  apply (trim_with_ind (fun l => valid (reverse l))).
  - intros p r (q & -> & Hq)%list_elem_of_fmap H. rewrite reverse_app, reverse_involutive in H.
    destruct (white_space_runes q Hq) as (_ & a & q' & -> & Ha).
    apply (UTF8Facts.valid_cut (length (reverse r))) in H.
    + by rewrite take_app_length in H.
    + intros b. rewrite list_lookup_middle by done. by intros [= <-].
  - by rewrite reverse_involutive.
Qed.

Lemma TrimSpace_length s : (String.length (TrimSpace s) <= String.length s)%nat.
Proof.
  assert (forall l, String.length (String.string_of_list_ascii l) = length l) as Hlen.
  { induction l as [|c l IH]; simpl; [done|]. by rewrite IH. }
  assert (String.length s = length (String.list_ascii_of_string s)) as ->
    by (by rewrite <-Hlen, String.string_of_list_ascii_of_string).
  unfold TrimSpace. rewrite Hlen. set (l := String.list_ascii_of_string s).
  assert (forall ps n k, length (trim_with ps n k) <= length k)%nat as Ht.
  { intros ps n k. apply (trim_with_ind (fun l => (length l <= length k)%nat)); [|done].
    intros p r _. rewrite length_app. lia. }
  unfold trim_right, trim_left. rewrite length_reverse.
  pose proof (Ht (reverse <$> white_space) (length (trim_with white_space (length l) l))
    (reverse (trim_with white_space (length l) l))) as Hr.
  rewrite length_reverse in Hr. pose proof (Ht white_space (length l) l). lia.
Qed.

(** An error text that is recorded is valid and fits. *)
Lemma boundedError_fits err : UTF8.ValidString (boundedError err) = true
  /\ (String.length (boundedError err) <= maxStoreTextBytes)%nat.
Proof.
  destruct err as [err|]; [|split; [done|simpl; unfold maxStoreTextBytes; lia]].
  unfold boundedError. set (message := ToValidUTF8 (text err)).
  destruct (Nat.leb_spec (String.length message) maxRecordedError) as [Hl|Hl].
  { split; [apply ToValidUTF8_valid|exact Hl]. }
  pose proof (substring_length message maxRecordedError) as Hs.
  destruct (cut_to_valid_spec maxRecordedError (String.substring 0 maxRecordedError message))
    as [Hv Hc]; [lia|]. split; [by apply TrimSpace_valid|].
  etrans; [apply TrimSpace_length|]. etrans; [exact Hc|]. rewrite Hs.
  change maxStoreTextBytes with maxRecordedError. lia.
Qed.

(** ** A worker's report *)

Lemma invocationStatus_spec err :
  (invocationStatus err = OccurrenceSucceeded <-> err = None)
  /\ (invocationStatus err = OccurrenceCanceled <->
        exists e, err = Some e /\ (canceled e = true \/ deadlineExceeded e = true))
  /\ terminalCompletion (invocationStatus err) = true.
Proof.
  destruct err as [e|]; cbn; [|naive_solver].
  destruct (canceled e || deadlineExceeded e) eqn:E; (split; [done|]); (split; [|done]).
  - split; [|done]. intros _. exists e. split; [done|]. by apply orb_true_iff.
  - split; [done|]. intros (e' & [= <-] & H). apply orb_true_iff in H. congruence.
Qed.

Section worker.
Context (Sum256 : string -> string).

(** C39: what a handler did is recorded, whatever it returned.  While the lease is live,
    the completion a worker sends when its handler returns, fails with any text, is
    cancelled or panics is accepted: the record is [OccurrenceSucceeded] exactly when the
    handler returned no error, [OccurrenceCanceled] exactly for a cancellation, and
    carries a text that is valid UTF-8 and fits the store's bound. *)
Theorem worker_report_is_recorded (st : MemoryStore) (inv : Invocation) (token : string)
  (outcome : string + option job_error) (finishedAt : Time.t) (o : OccurrenceRecord)
  (Hwf : well_formed Sum256 st) (Hheld : held st (i_ID inv) token finishedAt o)
  (Hfin : finishedAt <> 0%Z) (Htok : (String.length token <= maxLeaseTokenBytes)%nat) :
  let err := callJob outcome in
  exists st' r, Complete Background (completion_of inv token err finishedAt) st = Ok st'
    /\ occurrences st' !! i_ID inv = Some r
    /\ (Status r = OccurrenceSucceeded <-> err = None)
    /\ (Status r = OccurrenceCanceled <->
          exists e, err = Some e /\ (canceled e = true \/ deadlineExceeded e = true))
    /\ Status r <> OccurrenceRunning /\ LeaseToken r = ""
    /\ UTF8.ValidString (Error r) = true
    /\ (String.length (Error r) <= maxStoreTextBytes)%nat.
Proof.
  intros err. set (c := completion_of inv token err finishedAt).
  pose proof Hheld as (Ho & Er & Et & _). destruct (proj1 Hwf _ _ Ho) as (_ & Hid & _ & _ & Hst).
  unfold status_fields in Hst. rewrite Er in Hst. destruct Hst as (_ & Htne & _).
  destruct (boundedError_fits err) as [Hv Hl].
  exists (put (i_ID inv) (completedRecord c o) st), (completedRecord c o).
  destruct (invocationStatus_spec err) as (Hok & Hcan & Hterm).
  split; [|split; [apply lookup_insert_eq|]].
  - unfold Complete. cbn [contextError result_bind].
    assert (heldLease (e_OccurrenceID c) (e_LeaseToken c) (e_FinishedAt c) st = Ok o) as ->
      by (by apply heldLease_ok).
    cbn [result_bind]. apply guard_ok. split; [|done].
    cbn [c completion_of e_OccurrenceID e_LeaseToken e_FinishedAt e_Status e_Error].
    rewrite Hterm, !negb_orb, !andb_true_iff, !negb_true_iff, !bool_decide_eq_false,
      !Nat.ltb_ge. unfold Time.IsZero. rewrite Z.eqb_neq. repeat split; try done.
    + rewrite Hid. by intros [=].
    + by rewrite <-Et.
    + destruct (decide (invocationStatus err = OccurrenceSucceeded)) as [E|E].
      * apply Hok in E as ->. by rewrite andb_false_r.
      * by rewrite (bool_decide_false _ E).
  - unfold c. cbn [completedRecord completion_of Status LeaseToken Error e_Status e_Error update].
    split; [done|]. split; [done|]. split; [|done]. intros E. by rewrite E in Hterm.
Qed.
End worker.

(** ** What [New] makes of its options *)

Section new.
Context {St Handler : Type}
        (LoadLocation : string -> option Location) (ParseCron : string -> option RawSchedule).

(** The options of a job, and of a service, that a caller can have. *)
Inductive job_option : JobOption -> Prop :=
| job_WithCatchUp p : job_option (WithCatchUp p)
| job_WithOverlap p : job_option (WithOverlap p).

Inductive service_option : Option St Handler -> Prop :=
| option_WithStore st : service_option (WithStore st)
| option_WithJob n s h os :
    (forall o, Some o ∈ os -> job_option o) ->
    service_option (WithJob LoadLocation ParseCron n s h os)
| option_WithLeaseDuration d : service_option (WithLeaseDuration d)
| option_WithCatchUpLimit l : service_option (WithCatchUpLimit l)
| option_WithLeaseOwner o : service_option (WithLeaseOwner o)
| option_withNow c : service_option (withNow c).

Definition job_config_ok (c : jobConfig) : Prop :=
  catchUp_valid (catchUp c) = true /\ overlap_valid (overlap c) = true.
Definition registered_ok (j : registeredJob Handler) : Prop :=
  validateJobName (name j) = Ok tt /\ Validate LoadLocation ParseCron (schedule j) = Ok tt
  /\ job_config_ok (config j).

(** What every option keeps of the configuration. *)
Record config_ok (c : serviceConfig St Handler) : Prop := {
  co_jobs : Forall registered_ok (g_jobs c);
  co_lease : (Time.Microsecond <= g_leaseDuration c)%Z
             /\ Z.rem (g_leaseDuration c) Time.Microsecond = 0%Z;
  co_limit : (0 < g_catchUpLimit c <= maxCatchUpLimit)%Z;
  co_owner : (String.length (g_leaseOwner c) <= 128)%nat;
}.

Lemma jobOptions_ok n os : (forall o, Some o ∈ os -> job_option o) -> forall c c',
  job_config_ok c -> jobOptions n os c = Ok c' -> job_config_ok c'.
Proof.
  induction os as [|[o|] os IH]; intros Hos c c' Hc; [by intros [= <-]| |done].
  cbn [jobOptions]. intros (c1 & H1 & H)%bind_ok.
  apply IH in H; [done|intros o' Ho'; apply Hos; by right|].
  destruct (Hos o ltac:(left)); apply guard_ok in H1 as [Hv [= <-]]; by destruct Hc.
Qed.

Lemma option_ok o c c' : service_option o -> config_ok c -> o c = Ok c' -> config_ok c'.
Proof.
  intros Ho [Hj Hd Hl Hown] H. destruct Ho as [st|n s h os Hos|d|l|owner|clk].
  - destruct st; [|done]. by injection H as <-.
  - unfold WithJob in H. destruct (validateJobName n) as [[]|] eqn:En; [|done].
    destruct (Validate _ _ s) as [[]|] eqn:Es; [|done]. destruct h as [h|]; [|done].
    apply bind_ok in H as (jc & Hjc & [= <-]). split; [|done..]. cbn.
    apply Forall_app_2; [done|]. constructor; [|constructor]. split; [done|]. split; [done|].
    by eapply jobOptions_ok in Hjc.
  - apply guard_ok in H as [Hg [= <-]]. split; [done| |done|done]. cbn.
    rewrite negb_orb, negb_involutive, andb_true_iff, negb_true_iff, Z.ltb_ge, Z.eqb_eq in Hg. done.
  - apply guard_ok in H as [Hg [= <-]]. split; [done|done| |done]. cbn.
    rewrite negb_orb, andb_true_iff, !negb_true_iff, Z.leb_gt, Z.ltb_ge in Hg. done.
  - apply guard_ok in H as [Hg [= <-]]. split; [done|done|done|]. cbn.
    rewrite negb_orb, andb_true_iff, !negb_true_iff, Nat.ltb_ge in Hg. by destruct Hg.
  - destruct clk as [clk|]; [|done]. by injection H as <-.
Qed.

Lemma registerJobs_ok (js : list (registeredJob Handler)) : forall jobs m,
  registerJobs js jobs = Ok m ->
  NoDup (name <$> js) /\ (forall n, n ∈ name <$> js -> jobs !! n = None)
  /\ forall n, m !! n = match list_find (fun j => name j = n) js with
                        | Some (_, j) => Some j | None => jobs !! n end.
Proof.
  induction js as [|j js IH]; intros jobs m H; cbn [registerJobs] in H.
  { injection H as <-. repeat split; [constructor|set_solver]. }
  apply guard_ok in H as [Hd H]. apply negb_decide, eq_None_not_Some in Hd.
  destruct (IH _ _ H) as (Hnd & Hfresh & Hm). cbn [fmap list_fmap].
  assert (name j ∉ name <$> js) as Hni.
  { intros Hin. apply Hfresh in Hin. by rewrite lookup_insert_eq in Hin. }
  split; [by constructor|]. split.
  - intros n [->|Hn]%elem_of_cons; [done|]. specialize (Hfresh n Hn).
    by rewrite lookup_insert_None in Hfresh; destruct Hfresh.
  - intros n. rewrite Hm. cbn [list_find]. case_decide as En.
    + rewrite <-En. destruct (list_find _ js) as [[k j']|] eqn:Ef.
      * apply list_find_Some in Ef as (Hk & Ej' & _). exfalso. apply Hni. rewrite <-Ej'.
        apply list_elem_of_fmap. exists j'. split; [done|]. by apply list_elem_of_lookup_2 in Hk.
      * by rewrite lookup_insert_eq.
    + destruct (list_find _ js) as [[k j']|]; [done|]. by rewrite lookup_insert_ne.
Qed.

Lemma applyOptions_ok options : (forall o, Some o ∈ options -> service_option o) ->
  forall c c', config_ok c -> applyOptions options c = Ok c' -> config_ok c'.
Proof.
  induction options as [|[o|] options IH]; intros Hos c c' Hc; [by intros [= <-]| |done].
  cbn [applyOptions]. intros (c1 & H1 & H)%bind_ok.
  assert (config_ok c1) by (eapply option_ok; [apply Hos; left|done|done]).
  eapply IH; [intros o' Ho'; apply Hos; by right|done|done].
Qed.

(** What [New] returns can run.  Whatever options it is given, if [New] succeeds the
    service has an owner of 1 to 128 bytes, a lease of whole microseconds and at least
    one, a catch-up limit in range, and at least one job; its job names are distinct and
    are exactly the keys of its map, each of a job with that valid name, a valid schedule
    and valid policies. *)
Theorem New_builds (time_Now : Clock) (options : list (option (Option St Handler)))
  (value : option string) (st : St) (service : Service Handler)
  (Hopts : forall o, Some o ∈ options -> service_option o)
  (Hvalue : forall v, value = Some v -> String.length v = 16)
  (Hnew : New time_Now options value = Ok (st, service)) :
  (leaseOwner service <> "" /\ String.length (leaseOwner service) <= 128)
  /\ ((Time.Microsecond <= leaseDuration service)%Z
      /\ Z.rem (leaseDuration service) Time.Microsecond = 0%Z)
  /\ (0 < catchUpLimit service <= maxCatchUpLimit)%Z
  /\ jobNames service <> [] /\ NoDup (jobNames service)
  /\ (forall n, n ∈ jobNames service <-> is_Some (v_jobs service !! n))
  /\ (forall n j, v_jobs service !! n = Some j -> name j = n /\ registered_ok j).
Proof.
  unfold New in Hnew. apply bind_ok in Hnew as (c & Hc & H).
  apply applyOptions_ok in Hc as [Hj Hd Hl Hown]; [|done|].
  2:{ split; [constructor|by vm_compute|by vm_compute|cbn; lia]. }
  destruct (g_store c) as [st'|]; [|done]. apply guard_ok in H as [Hne H].
  apply bind_ok in H as (owner & Howner & H). apply bind_ok in H as (m & Hm & [= -> <-]).
  cbn [leaseOwner leaseDuration catchUpLimit jobNames v_jobs].
  destruct (registerJobs_ok _ _ _ Hm) as (Hnd & _ & Hlook). split; [|split; [done|split; [done|]]].
  - destruct (decide (g_leaseOwner c = "")) as [E|E].
    + rewrite (bool_decide_true _ E) in Howner.
      destruct value as [v|]; [|done]. injection Howner as <-. split; [done|].
      change (7 + String.length (EncodeToString v) <= 128).
      rewrite EncodeToString_length, (Hvalue v); [lia|done].
    + rewrite (bool_decide_false _ E) in Howner. by injection Howner as <-.
  - assert (forall n j, m !! n = Some j <-> j ∈ g_jobs c /\ name j = n) as Hin.
    { intros n j. rewrite Hlook. destruct (list_find _ _) as [[k j']|] eqn:Ef.
      - apply list_find_Some in Ef as (Hk & En & _). split.
        + intros [= <-]. split; [by eapply list_elem_of_lookup_2|done].
        + intros [Hin Hn]. apply list_elem_of_lookup in Hin as [k' Hk'].
          assert (k = k') as ->; [|congruence].
          eapply NoDup_lookup; [exact Hnd|..]; rewrite list_lookup_fmap.
          * by rewrite Hk.
          * rewrite Hk'. cbn. by rewrite Hn, En.
      - rewrite lookup_empty. split; [done|]. intros [Hin Hn].
        by eapply list_find_None, Forall_forall in Ef; [apply Ef in Hn|done]. }
    split; [|split; [done|split]].
    + intros E. apply (f_equal length) in E. rewrite length_fmap in E.
      by rewrite E in Hne.
    + intros n. rewrite list_elem_of_fmap. split.
      * intros (j & -> & Hj'). exists j. by apply Hin.
      * intros [j Hj']. apply Hin in Hj' as [Hj' <-]. eauto.
    + intros n j [Hj' Hn]%Hin. split; [done|]. rewrite Forall_forall in Hj. by apply Hj.
Qed.
End new.

(** ** Two schedulers on one store *)

Module Race.
Import CronLease.Demo.

(** The second replica, with the defaults but for the policy of its one job; its process
    stands still from noon until five seconds past 12:02. *)
Definition stalled : Clock := fun n => if decide (n < 2) then clock 0 0 else clock 2 5.
Definition options : list (option (Option MemoryStore unit)) :=
  [Some (WithStore (Some NewMemoryStore));
   Some (WithJob zoneinfo no_cron "rollup" every_minute (Some tt)
           [Some (WithCatchUp CatchUpLatest)]);
   Some (WithLeaseOwner "replica-b"); Some (withNow (Some stalled))].

(** Meanwhile the first replica, on time, has claimed the occurrence of 12:01, which
    still runs under a renewed lease, and that of 12:02, which did not start. *)
Definition renewal (now : Time.t) : LeaseRenewal :=
  renewal_of defaultLeaseDuration (OccurrenceID (fun s => s) "rollup" (clock 1 0)) "lease_a" now.
Definition first_replica : list op :=
  [OClaim Background (claim 1 "lease_a" (clock 1 0));
   ORenew Background (renewal (clock 1 20));
   ORenew Background (renewal (clock 1 40));
   OClaim Background (claim 2 "lease_b" (clock 2 0));
   ORenew Background (renewal (clock 2 0))].

(** The store's calls of the second: 0 reconciles, 1 and 2 list the expired leases of the
    two cycles, 3 is the skip of what it has missed. *)
Definition others (n : nat) (st : MemoryStore) : MemoryStore :=
  if decide (n = 2) then run (fun s => s) zoneinfo pretty no_cron first_replica st else st.

Definition is_context (e : store_error) (cause : string) : bool :=
  match e with ErrContext c => bool_decide (c = cause) | _ => false end.
Definition world0 : world MemoryStore unit :=
  {| store := NewMemoryStore; running := false; rjobs := []; workers := []; trace := [];
     reads := 0; draws := 0 |}.
Definition second_replica (service : Service unit) : outcome (E := store_error) :=
  (@Run MemoryStore store_error unit
     (MemoryStore_IStore (fun s => s) zoneinfo pretty no_cron) (fun s => s) zoneinfo pretty
     no_cron (fun _ => Some "0123456789abcdef") (fun _ => Background) others is_context service
     Background [Tick] world0).2.
End Race.

(** A scheduler stops when it is late and another replica is not.  Two replicas share
    a store, for which the overlap policy is made.  The second comes to the occurrence of
    12:01 late and means to skip it as superseded; the first is running it under a live
    lease, so the store answers [ErrOccurrenceRunning].  [cycle] takes that for a failure
    of the store and [Run] returns it: the second replica schedules nothing any more. *)
Theorem late_replica_stops :
  exists service, New (fun _ => 0%Z) Race.options None = Ok (NewMemoryStore, service)
    /\ Race.second_replica service
       = Returned (Some (ErrSkip "rollup"
           (OccurrenceID (fun s => s) "rollup" (CronLease.Demo.clock 1 0)) ErrOccurrenceRunning)).
Proof.
  destruct (New (fun _ => 0%Z) Race.options None) as [[st service]|e] eqn:E;
    [|vm_compute in E; discriminate E].
  exists service. vm_compute in E. injection E as <- <-. split; [reflexivity|].
  vm_compute. reflexivity.
Qed.

(** ** Witnesses *)

(** A handler that panics at 12:01:50, ten seconds after its claim. *)
Definition panicked : string + option job_error := inl "boom".
Definition running_at_noon : Invocation :=
  mkInvocation (OccurrenceID (fun s => s) "rollup" (CronLease.Demo.clock 1 0)) "rollup"
    (CronLease.Demo.clock 1 0) (CronLease.Demo.clock 1 40) 1.
Definition claimed_at_noon : MemoryStore :=
  run (fun s => s) zoneinfo pretty no_cron (take 2 CronLease.Demo.day) NewMemoryStore.

Lemma claimed_well_formed : well_formed (fun s => s) claimed_at_noon.
Proof.
  apply (run_invariant (fun s => s) zoneinfo pretty no_cron (well_formed (fun s => s))).
  - intros st o st'. apply step_well_formed.
  - split; apply map_Forall_empty.
Qed.

Lemma worker_report_is_recorded_witness :
  exists st' r, Complete Background
      (completion_of running_at_noon "lease_a" (callJob panicked) (CronLease.Demo.clock 1 50))
      claimed_at_noon = Ok st'
    /\ occurrences st' !! i_ID running_at_noon = Some r
    /\ Status r <> OccurrenceSucceeded /\ (String.length (Error r) <= maxStoreTextBytes)%nat.
Proof.
  destruct (occurrences claimed_at_noon !! i_ID running_at_noon) as [o|] eqn:E;
    [|vm_compute in E; discriminate E].
  destruct (worker_report_is_recorded (fun s => s) claimed_at_noon running_at_noon "lease_a"
    panicked (CronLease.Demo.clock 1 50) o) as (st' & r & H1 & H2 & Hok & _ & _ & _ & _ & Hl).
  - exact claimed_well_formed.
  - split; [exact E|]. vm_compute in E. injection E as <-. vm_compute. repeat split.
  - vm_compute. discriminate.
  - vm_compute. repeat constructor.
  - exists st', r. split; [exact H1|]. split; [exact H2|]. split; [|exact Hl].
    intros H. apply Hok in H. discriminate H.
Defined.

Lemma New_builds_witness :
  exists st service, New (fun _ => 0%Z) Race.options None = Ok (st, service)
    /\ String.length (leaseOwner service) <= 128
    /\ (0 < catchUpLimit service <= maxCatchUpLimit)%Z
    /\ NoDup (jobNames service) /\ jobNames service <> [].
Proof.
  destruct (New (fun _ => 0%Z) Race.options None) as [[st service]|e] eqn:E;
    [|vm_compute in E; discriminate E].
  destruct (New_builds zoneinfo no_cron (fun _ => 0%Z) Race.options None st service)
    as ((_ & Hl) & _ & Hlim & Hne & Hnd & _).
  - intros o Ho. unfold Race.options in Ho. rewrite !elem_of_cons, elem_of_nil in Ho.
    destruct Ho as [[= ->]|[[= ->]|[[= ->]|[[= ->]|[]]]]]; constructor.
    intros o Ho. rewrite elem_of_cons, elem_of_nil in Ho. destruct Ho as [[= ->]|[]]. constructor.
  - intros v [=].
  - exact E.
  - exists st, service. split; [reflexivity|]. split; [exact Hl|]. split; [exact Hlim|].
    split; [exact Hnd|exact Hne].
Defined.
