(* ===== verification/CronStatus.v ===== *)
(** * The messages of the cron runtime

    [pkg/cron/contract/runtime.go] with the generated refinements of
    [pkg/cron/v1/cron_liquid.pb.go] it calls: job definitions, occurrence records and the
    status of a store, to and from their protobuf form.  Message pointers are options;
    [timestamppb], SHA-256 and what [CronSchedule] leaves open are parameters.  An error is
    the check that refused; the texts are left out.  A slice is sorted by keys, which in a
    store are distinct. *)
From Stdlib Require Import Ascii.
From stdpp Require Import pretty.
From S2P Require Import Prelude.
From S2P Require Import GoStd.
From S2P Require Import GoText.
From S2P Require Import GoTime.
From S2P Require Import GoFormat.
From S2P Require Import CronSchedule.
From S2P Require Import CronDefinition.
From S2P Require Import CronNext.
From S2P Require Import CronContract.
From S2P Require Import CronStore.
From S2P Require Import CronLease.
From S2P Require Import CronKeeps.

Open Scope Z_scope.

(** ** Messages *)

Module Msg.
Section messages.
Context {Timestamp : Type}.

Record JobDefinition := mkJobDefinition {
  Name : string;
  Schedule : option (V1.ScheduleSpec Timestamp);
  CatchUpPolicy : Z;
  OverlapPolicy : Z;
}.

Record Invocation := mkInvocation {
  OccurrenceId : string;
  i_JobName : string;
  i_ScheduledAt : option Timestamp;
  i_StartedAt : option Timestamp;
  i_Attempt : N;
}.

Record RunSummary := mkRunSummary {
  RunInvocation : option Invocation;
  State : Z;
  r_FinishedAt : option Timestamp;
  WorkerId : string;
  ErrorSummary : string;
  r_SkipReason : string;
}.

Record JobStatus := mkJobStatus {
  Definition_ : option JobDefinition;
  j_NextRunAt : option Timestamp;
  IntervalAnchor : option Timestamp;
  ActiveRuns : N;
  LastRun : option RunSummary;
}.

Record StatusSnapshot := mkStatusSnapshot {
  ObservedAt : option Timestamp;
  Jobs : list (option JobStatus);
}.
End messages.
Arguments JobDefinition : clear implicits.
Arguments Invocation : clear implicits.
Arguments RunSummary : clear implicits.
Arguments JobStatus : clear implicits.
Arguments StatusSnapshot : clear implicits.

Definition CATCH_UP_POLICY_NONE : Z := 1.
Definition CATCH_UP_POLICY_LATEST : Z := 2.
Definition CATCH_UP_POLICY_ALL : Z := 3.
Definition OVERLAP_POLICY_SKIP : Z := 1.
Definition OVERLAP_POLICY_ALLOW : Z := 2.
Definition RUN_STATE_UNSPECIFIED : Z := 0.
Definition RUN_STATE_PENDING : Z := 1.
Definition RUN_STATE_RUNNING : Z := 2.
Definition RUN_STATE_SUCCEEDED : Z := 3.
Definition RUN_STATE_FAILED : Z := 4.
Definition RUN_STATE_CANCELED : Z := 5.
Definition RUN_STATE_SKIPPED : Z := 6.
End Msg.
#[export] Instance Rebuild_JobStatus {T} : Rebuild (Msg.JobStatus T) := fun s =>
  Msg.mkJobStatus (Msg.Definition_ s) (Msg.j_NextRunAt s) (Msg.IntervalAnchor s)
    (Msg.ActiveRuns s) (Msg.LastRun s).

(** ** Generated refinements *)

(** [^[a-z][a-z0-9._/-]*$] *)
Definition job_name (s : string) : bool :=
  match String.list_ascii_of_string s with
  | [] => false
  | c :: rest => letter c && forallb name_char rest
  end.

(** [^occ_[0-9a-f]{64}$] *)
Definition lower_hex (c : ascii) : bool :=
  let n := N_of_ascii c in
  (((48 <=? n) && (n <=? 57)) || ((97 <=? n) && (n <=? 102)))%N.
Definition occurrence_id (s : string) : bool :=
  match String.list_ascii_of_string s with
  | "o"%char :: "c"%char :: "c"%char :: "_"%char :: digits =>
      (length digits =? 64)%nat && forallb lower_hex digits
  | _ => false
  end.

Section refinements.
Context {Timestamp : Type}.

Definition ValidateJobDefinition_ (m : Msg.JobDefinition Timestamp) : bool :=
  in_length 1 128 (Msg.Name m) && job_name (Msg.Name m).
Definition ValidateInvocation_ (m : Msg.Invocation Timestamp) : bool :=
  occurrence_id (Msg.OccurrenceId m)
  && (in_length 1 128 (Msg.i_JobName m) && job_name (Msg.i_JobName m)).
Definition ValidateRunSummary_ (m : Msg.RunSummary Timestamp) : bool :=
  in_length 0 128 (Msg.WorkerId m) && in_length 0 4096 (Msg.ErrorSummary m)
  && in_length 0 4096 (Msg.r_SkipReason m).
Definition ValidateJobStatus_ (m : Msg.JobStatus Timestamp) : bool :=
  (Msg.ActiveRuns m <=? 1000000)%N.
End refinements.

(** ** Enumerations *)

Definition catchUpToProto (policy : string) : result string Z :=
  if decide (policy = CatchUpNone) then Ok Msg.CATCH_UP_POLICY_NONE
  else if decide (policy = CatchUpLatest) then Ok Msg.CATCH_UP_POLICY_LATEST
  else if decide (policy = CatchUpAll) then Ok Msg.CATCH_UP_POLICY_ALL
  else Err "catch-up policy".

Definition catchUpFromProto (policy : Z) : result string string :=
  if policy =? Msg.CATCH_UP_POLICY_NONE then Ok CatchUpNone
  else if policy =? Msg.CATCH_UP_POLICY_LATEST then Ok CatchUpLatest
  else if policy =? Msg.CATCH_UP_POLICY_ALL then Ok CatchUpAll
  else Err "catch-up policy".

Definition overlapToProto (policy : string) : result string Z :=
  if decide (policy = OverlapSkip) then Ok Msg.OVERLAP_POLICY_SKIP
  else if decide (policy = OverlapAllow) then Ok Msg.OVERLAP_POLICY_ALLOW
  else Err "overlap policy".

Definition overlapFromProto (policy : Z) : result string string :=
  if policy =? Msg.OVERLAP_POLICY_SKIP then Ok OverlapSkip
  else if policy =? Msg.OVERLAP_POLICY_ALLOW then Ok OverlapAllow
  else Err "overlap policy".

(** The statuses of a record are all known. *)
Definition runStateToProto (status : OccurrenceStatus) : Z :=
  match status with
  | OccurrenceRunning => Msg.RUN_STATE_RUNNING
  | OccurrenceSucceeded => Msg.RUN_STATE_SUCCEEDED
  | OccurrenceFailed => Msg.RUN_STATE_FAILED
  | OccurrenceCanceled => Msg.RUN_STATE_CANCELED
  | OccurrenceSkipped => Msg.RUN_STATE_SKIPPED
  end.

(** ** Conversions *)

Section runtime.
Context (Sum256 : string -> string)
        (LoadLocation : string -> option Location)
        (duration_String : Time.Duration -> string)
        (ParseCron : string -> option RawSchedule)
        {Timestamp : Type} (ts_New : Time.t -> Timestamp) (ts_AsTime : Timestamp -> Time.t)
        (ts_CheckValid : Timestamp -> bool).
#[local] Abbreviation ScheduleFromDefinition :=
  (ScheduleFromDefinition LoadLocation duration_String ParseCron).
#[local] Abbreviation Definition_ := (Definition_ LoadLocation duration_String ParseCron).
#[local] Abbreviation ScheduleToProto :=
  (ScheduleToProto LoadLocation duration_String ParseCron ts_New ts_AsTime ts_CheckValid).
#[local] Abbreviation ScheduleFromProto :=
  (ScheduleFromProto LoadLocation ParseCron ts_AsTime ts_CheckValid).

Definition JobDefinitionFromProto (message : option (Msg.JobDefinition Timestamp))
  : result string JobDefinition :=
  match message with
  | None => Err "job definition is required"
  | Some message =>
      guard! ValidateJobDefinition_ message else "job scalar refinements" in
      match ScheduleFromProto (Msg.Schedule message) with
      | Err _ => Err "schedule"
      | Ok schedule =>
          match Definition_ schedule with
          | Err _ => Err "normalized schedule"
          | Ok scheduleDefinition =>
              let! catchUp := catchUpFromProto (Msg.CatchUpPolicy message) in
              let! overlap := overlapFromProto (Msg.OverlapPolicy message) in
              Ok {| d_Name := Msg.Name message; d_Schedule := scheduleDefinition;
                    CatchUp := catchUp; Overlap := overlap |}
          end
      end
  end.

Definition ValidateJobDefinition (message : option (Msg.JobDefinition Timestamp))
  : result string unit :=
  let! _ := JobDefinitionFromProto message in Ok tt.

Definition JobDefinitionToProto (definition : JobDefinition)
  : result string (Msg.JobDefinition Timestamp) :=
  match ScheduleFromDefinition (d_Schedule definition) with
  | Err _ => Err "job schedule"
  | Ok schedule =>
      match ScheduleToProto schedule with
      | Err _ => Err "schedule"
      | Ok scheduleMessage =>
          let! catchUp := catchUpToProto (CatchUp definition) in
          let! overlap := overlapToProto (Overlap definition) in
          let message :=
            {| Msg.Name := d_Name definition; Msg.Schedule := Some scheduleMessage;
               Msg.CatchUpPolicy := catchUp; Msg.OverlapPolicy := overlap |} in
          let! _ := ValidateJobDefinition (Some message) in
          Ok message
      end
  end.

Definition validateInvocation (message : option (Msg.Invocation Timestamp))
  (allowUnattempted : bool) : result string unit :=
  match message with
  | None => Err "invocation is required"
  | Some m =>
      guard! ValidateInvocation_ m else "invocation scalar refinements" in
      match Msg.i_ScheduledAt m with
      | None => Err "scheduled_at is required"
      | Some scheduled =>
          guard! ts_CheckValid scheduled else "scheduled_at" in
          guard! bool_decide (Msg.OccurrenceId m
                              = OccurrenceID Sum256 (Msg.i_JobName m) (ts_AsTime scheduled))
            else "occurrence_id" in
          guard! negb ((Msg.i_Attempt m =? 0)%N && negb allowUnattempted) else "attempt" in
          if (0 <? Msg.i_Attempt m)%N then
            match Msg.i_StartedAt m with
            | None => Err "started_at is required"
            | Some started => guard! ts_CheckValid started else "started_at" in Ok tt
            end
          else Ok tt
      end
  end.

Definition ValidateInvocation (message : option (Msg.Invocation Timestamp))
  : result string unit := validateInvocation message false.

(** The switch over the states of a run. *)
Definition state_fields (state : Z) (started finished : option Timestamp)
  (workerId skipReason : string) : result string unit :=
  if state =? Msg.RUN_STATE_PENDING then
    guard! negb (bool_decide (is_Some started) || bool_decide (is_Some finished))
      else "pending run" in Ok tt
  else if state =? Msg.RUN_STATE_RUNNING then
    guard! negb (bool_decide (is_Some finished) || bool_decide (workerId = ""))
      else "running run" in Ok tt
  else if (state =? Msg.RUN_STATE_SUCCEEDED) || (state =? Msg.RUN_STATE_FAILED)
          || (state =? Msg.RUN_STATE_CANCELED) then
    guard! bool_decide (is_Some finished) else "terminal run" in Ok tt
  else if state =? Msg.RUN_STATE_SKIPPED then
    guard! bool_decide (is_Some finished) && negb (bool_decide (skipReason = ""))
      else "skipped run" in Ok tt
  else Err "unsupported run state".

Definition ValidateRunSummary (message : option (Msg.RunSummary Timestamp))
  : result string unit :=
  match message with
  | None => Err "run summary is required"
  | Some m =>
      guard! ValidateRunSummary_ m else "run scalar refinements" in
      let state := Msg.State m in
      guard! negb (state =? Msg.RUN_STATE_UNSPECIFIED) else "run state is required" in
      let allowUnattempted :=
        (state =? Msg.RUN_STATE_SKIPPED) || (state =? Msg.RUN_STATE_PENDING) in
      let! _ := validateInvocation (Msg.RunInvocation m) allowUnattempted in
      let finished := Msg.r_FinishedAt m in
      let! _ := state_fields state (Msg.RunInvocation m ≫= Msg.i_StartedAt) finished
                  (Msg.WorkerId m) (Msg.r_SkipReason m) in
      guard! (match finished with Some ts => ts_CheckValid ts | None => true end)
        else "finished_at" in
      guard! negb (negb (state =? Msg.RUN_STATE_FAILED) && negb (state =? Msg.RUN_STATE_CANCELED)
                   && negb (bool_decide (Msg.ErrorSummary m = ""))) else "error_summary" in
      guard! negb (negb (state =? Msg.RUN_STATE_SKIPPED)
                   && negb (bool_decide (Msg.r_SkipReason m = ""))) else "skip_reason" in
      Ok tt
  end.

(** The message of a record. *)
Definition run_summary (record : OccurrenceRecord) : Msg.RunSummary Timestamp :=
  {| Msg.RunInvocation := Some
       {| Msg.OccurrenceId := ID record; Msg.i_JobName := JobName record;
          Msg.i_ScheduledAt := Some (ts_New (ScheduledAt record));
          Msg.i_StartedAt := if Time.IsZero (StartedAt record) then None
                             else Some (ts_New (StartedAt record));
          Msg.i_Attempt := Attempt record |};
     Msg.State := runStateToProto (Status record);
     Msg.r_FinishedAt := if Time.IsZero (FinishedAt record) then None
                         else Some (ts_New (FinishedAt record));
     Msg.WorkerId := LeaseOwner record;
     Msg.ErrorSummary := Error record;
     Msg.r_SkipReason := SkipReason record |}.

Definition OccurrenceToProto (record : OccurrenceRecord)
  : result string (Msg.RunSummary Timestamp) :=
  let! _ := ValidateRunSummary (Some (run_summary record)) in Ok (run_summary record).

(** The loop over the occurrences of one job. *)
Fixpoint add_runs (name : string) (occurrences : list OccurrenceRecord)
  (status : Msg.JobStatus Timestamp) : result string (Msg.JobStatus Timestamp) :=
  match occurrences with
  | [] => Ok status
  | occurrence :: occurrences =>
      if negb (bool_decide (JobName occurrence = name)) then add_runs name occurrences status
      else
        let status :=
          if bool_decide (Status occurrence = OccurrenceRunning)
          then status <| Msg.ActiveRuns ::= fun n => ((n + 1) mod 4294967296)%N |> else status in
        let! run := OccurrenceToProto occurrence in
        add_runs name occurrences (status <| Msg.LastRun := Some run |>)
  end.

Definition job_status (occurrences : list OccurrenceRecord) (state : JobState)
  : result string (Msg.JobStatus Timestamp) :=
  let! definition := JobDefinitionToProto (s_Definition state) in
  let d := d_Schedule (s_Definition state) in
  add_runs (d_Name (s_Definition state)) occurrences
    {| Msg.Definition_ := Some definition; Msg.j_NextRunAt := Some (ts_New (NextRunAt state));
       Msg.IntervalAnchor := if HasAnchor d then Some (ts_New (d_Anchor d)) else None;
       Msg.ActiveRuns := 0; Msg.LastRun := None |}.

Fixpoint job_statuses (occurrences : list OccurrenceRecord) (jobs : list JobState)
  : result string (list (Msg.JobStatus Timestamp)) :=
  match jobs with
  | [] => Ok []
  | state :: jobs =>
      let! status := job_status occurrences state in
      let! statuses := job_statuses occurrences jobs in
      Ok (status :: statuses)
  end.

(** The checks of one job status. *)
Definition validateJobStatus (seen : gset string) (status : option (Msg.JobStatus Timestamp))
  : result string (gset string) :=
  match status with
  | None => Err "nil job status"
  | Some s =>
      guard! ValidateJobStatus_ s else "job status scalar refinements" in
      let! _ := ValidateJobDefinition (Msg.Definition_ s) in
      let name := match Msg.Definition_ s with Some d => Msg.Name d | None => "" end in
      guard! negb (bool_decide (name ∈ seen)) else "duplicate job status" in
      match Msg.j_NextRunAt s with
      | None => Err "next_run_at is required"
      | Some next =>
          guard! ts_CheckValid next else "next_run_at" in
          guard! (match Msg.IntervalAnchor s with Some ts => ts_CheckValid ts | None => true end)
            else "interval_anchor" in
          match Msg.LastRun s with
          | None => Ok ({[name]} ∪ seen)
          | Some run =>
              let! _ := ValidateRunSummary (Some run) in
              guard! bool_decide (Msg.i_JobName <$> Msg.RunInvocation run = Some name)
                else "name mismatch" in
              Ok ({[name]} ∪ seen)
          end
      end
  end.

Fixpoint validateJobStatuses (seen : gset string)
  (statuses : list (option (Msg.JobStatus Timestamp))) : result string unit :=
  match statuses with
  | [] => Ok tt
  | status :: statuses =>
      let! seen := validateJobStatus seen status in validateJobStatuses seen statuses
  end.

Definition ValidateStatusSnapshot (message : option (Msg.StatusSnapshot Timestamp))
  : result string unit :=
  match message with
  | None => Err "status snapshot is required"
  | Some m =>
      match Msg.ObservedAt m with
      | None => Err "observed_at is required"
      | Some observed =>
          guard! ts_CheckValid observed else "observed_at" in
          validateJobStatuses ∅ (Msg.Jobs m)
      end
  end.

Definition StoreSnapshotToProto (snapshot : StoreSnapshot) (observedAt : Time.t)
  : result string (Msg.StatusSnapshot Timestamp) :=
  guard! negb (Time.IsZero observedAt) else "observed_at is required" in
  let occurrences := merge_sort scheduled_le (s_Occurrences snapshot) in
  let jobs := sort_by (fun s => d_Name (s_Definition s)) (s_Jobs snapshot) in
  let! statuses := job_statuses occurrences jobs in
  let message := {| Msg.ObservedAt := Some (ts_New observedAt); Msg.Jobs := Some <$> statuses |} in
  let! _ := ValidateStatusSnapshot (Some message) in
  Ok message.
(** ** Definitions survive the wire *)

Context (ts_AsTime_New : forall t, ts_AsTime (ts_New t) = t)
        (zones_by_name : forall name loc, name <> "" -> LoadLocation name = Some loc ->
                         loc_name loc = name).

Definition valid_instant (t : Time.t) : Prop := ts_CheckValid (ts_New t) = true.

(** What the boundary asks of a definition and the domain does not. *)
Definition portable (d : ScheduleDefinition) : Prop :=
  in_length 1 128 (Timezone d) = true /\ zone_name (Timezone d) = true
  /\ valid_instant (d_Anchor d).

(** What [Reconcile] stores: the projection of a schedule that was restored. *)
Definition normalized (d : ScheduleDefinition) : Prop :=
  exists s, ScheduleFromDefinition d = Ok s /\ Definition_ s = Ok d.

Lemma rule_of_definition_fluent d r : rule_of_definition d = Ok r -> fluent r.
Proof. unfold rule_of_definition. repeat case_decide; intros [= <-]; constructor. Qed.

Lemma restored_declared d s : ScheduleFromDefinition d = Ok s ->
  declared s /\ exists loc, validated LoadLocation ParseCron s loc
    /\ LoadLocation (loc_name loc) = Some loc.
Proof.
  unfold CronSchedule.ScheduleFromDefinition. intros [Hne H]%guard_ok.
  apply negb_true_iff, bool_decide_eq_false in Hne.
  destruct (LoadLocation (Timezone d)) as [loc|] eqn:El; [|done].
  apply bind_ok in H as (r & Hr%rule_of_definition_fluent & H).
  set (s' := if HasAnchor d then _ else _) in H.
  apply bind_ok in H as ([] & Hv & H). apply bind_ok in H as (c & _ & [_ [= <-]]%guard_ok).
  split.
  - unfold s'. destruct (HasAnchor d); [apply declared_Anchor|];
      by apply declared_In, declared_Spec.
  - apply Validate_ok in Hv as [loc' V]. exists loc'. split; [done|].
    pose proof (vs_location _ _ _ _ V) as E.
    assert (location s' = Some loc) as E' by (unfold s'; by destruct (HasAnchor d)).
    assert (loc' = loc) as -> by congruence. by rewrite (zones_by_name _ _ Hne El).
Qed.

Lemma leb_range a b z : a <= z <= b -> (a <=? z) && (z <=? b) = true.
Proof. intros. apply andb_true_iff. rewrite !Z.leb_le. lia. Qed.

(** The arm of a declared schedule is accepted. *)
Lemma arm_accepted s loc d : declared s -> validated LoadLocation ParseCron s loc ->
  Definition_ s = Ok d -> valid_instant (d_Anchor d) ->
  exists r s0, arm_of_definition ts_New d = Ok r
    /\ schedule_of_arm ts_AsTime ts_CheckValid r = Ok s0.
Proof.
  intros Hd V. unfold CronSchedule.Definition_. intros (_ & _ & H)%bind_ok.
  apply bind_ok in H as (canonical & Hcan & [= <-]).
  apply bind_ok in Hcan as (_ & _ & Hcan).
  pose proof (vs_rule _ _ _ _ V) as Hr. unfold validateRule in Hr. intros Hanc.
  pose proof (fluent_in_range _ (declared_fluent s Hd) (vs_err _ _ _ _ V)) as Hin.
  unfold arm_of_definition. unfold in_range in Hin.
  destruct (declared_fluent s Hd) as [a|w a|m a|a|i|e];
    cbn [kind Kind d_Hour d_Minute d_Weekday MonthDay Interval HasAnchor d_Anchor Canonical_
         kind_name Daily Weekly Monthly LastDayOfMonth Every Raw at_ weekday monthDay
         interval raw rule_err canonical_rule] in *;
    repeat first [rewrite decide_True by reflexivity | rewrite decide_False by discriminate].
  - eexists _, _. split; [done|]. unfold schedule_of_arm. cbn [mbind option_bind V1.daily_At].
    by rewrite timeOfDay_again.
  - unfold weekdayToProto. destruct (Z.ltb_spec w 0), (Z.ltb_spec 6 w); try lia.
    eexists _, _. split; [done|]. unfold schedule_of_arm. cbn [V1.Weekday V1.weekly_At].
    unfold weekdayFromProto, V1.WEEKDAY_SUNDAY, V1.WEEKDAY_SATURDAY.
    destruct (Z.ltb_spec (w + 1) 1), (Z.ltb_spec 7 (w + 1)); try lia. cbn [negb orb result_bind].
    by rewrite timeOfDay_again.
  - eexists _, _. split; [done|]. unfold schedule_of_arm. cbn [V1.monthly_At V1.DayOfMonth].
    unfold ValidateMonthlyDaySchedule. cbn [V1.DayOfMonth].
    rewrite uint32_id, leb_range by lia. by rewrite timeOfDay_again.
  - eexists _, _. split; [done|]. unfold schedule_of_arm. cbn [mbind option_bind V1.last_At].
    by rewrite timeOfDay_again.
  - apply guard_ok in Hr as [Hi _]. unfold badInterval in Hi.
    rewrite negb_orb, andb_true_iff, negb_true_iff, Z.ltb_ge in Hi.
    unfold valid_instant in Hanc.
    destruct (hasAnchor s); eexists _, _; (split; [done|]);
      unfold schedule_of_arm, ValidateIntervalSchedule;
      cbn [V1.interval_Anchor V1.IntervalNanoseconds];
      rewrite (proj2 (Z.leb_le 1000 i)) by apply Hi; [by rewrite Hanc|done].
  - injection Hcan as <-. eexists _, _. split; [done|]. unfold schedule_of_arm.
    cbn [V1.Expression V1.Dialect].
    apply bind_ok in Hr as (parsed & Hr & _). unfold parseRaw in Hr. apply guard_ok in Hr as [Hl _].
    rewrite negb_orb, andb_true_iff, !negb_true_iff, Nat.eqb_neq, Nat.ltb_ge in Hl.
    unfold ValidateRawCronSchedule, in_length. cbn [V1.Expression V1.Dialect].
    rewrite (proj2 (Nat.leb_le 1 _)), (proj2 (Nat.leb_le _ 256)) by lia. done.
Qed.

Lemma schedule_accepted s loc d : declared s -> validated LoadLocation ParseCron s loc ->
  LoadLocation (loc_name loc) = Some loc -> Definition_ s = Ok d -> portable d ->
  exists m, ScheduleToProto s = Ok m.
Proof.
  intros Hd V Hz Ed (Hlen & Hzone & Hanc).
  destruct (arm_accepted s loc d Hd V Ed Hanc) as (r & s0 & Er & Es).
  unfold CronContract.ScheduleToProto. rewrite Ed, Er. cbn [result_bind].
  unfold ValidateSchedule, CronContract.ScheduleFromProto, ValidateScheduleSpec.
  cbn [V1.Timezone V1.Rule]. rewrite Hlen, Hzone. cbn [andb].
  assert (Timezone d = loc_name loc) as ->.
  { unfold CronSchedule.Definition_ in Ed. apply bind_ok in Ed as (? & _ & Ed).
    apply bind_ok in Ed as (? & _ & [= <-]). cbn. by rewrite (vs_location _ _ _ _ V). }
  rewrite Hz, Es. cbn [result_bind].
  rewrite (arm_again LoadLocation duration_String ParseCron ts_New ts_AsTime ts_CheckValid
             ts_AsTime_New s loc d r s0 Hd V Ed Er Es).
  rewrite <-(normal_declared s loc Hd (vs_location _ _ _ _ V)), Validate_normal.
  rewrite (proj2 (Validate_ok _ _ _)) by eauto. by eexists.
Qed.

Lemma name_refined name : validateJobName name = Ok tt ->
  in_length 1 128 name = true /\ job_name name = true.
Proof.
  unfold validateJobName, job_name, in_length.
  destruct (String.list_ascii_of_string name) as [|c rest] eqn:E; [done|].
  intros [H [H' _]%guard_ok]%guard_ok. rewrite negb_orb, andb_true_iff, !negb_true_iff,
    negb_false_iff, Nat.ltb_ge in H. destruct H as [Hl Hc]. rewrite Hc, H'. split; [|done].
  rewrite (proj2 (Nat.leb_le _ 128)) by done.
  destruct name; [done|]. by rewrite (proj2 (Nat.leb_le 1 _)) by (cbn; lia).
Qed.

Lemma catchUp_again policy z : catchUpToProto policy = Ok z -> catchUpFromProto z = Ok policy.
Proof.
  unfold catchUpToProto. do 3 (destruct (decide _) as [->|]; [by intros [= <-]|]). done.
Qed.
Lemma overlap_again policy z : overlapToProto policy = Ok z -> overlapFromProto z = Ok policy.
Proof.
  unfold overlapToProto. do 2 (destruct (decide _) as [->|]; [by intros [= <-]|]). done.
Qed.
Lemma catchUp_known policy : catchUp_valid policy = true -> exists z, catchUpToProto policy = Ok z.
Proof.
  unfold catchUp_valid, catchUpToProto. rewrite !orb_true_iff, !bool_decide_eq_true.
  repeat case_decide; eauto; tauto.
Qed.
Lemma overlap_known policy : overlap_valid policy = true -> exists z, overlapToProto policy = Ok z.
Proof.
  unfold overlap_valid, overlapToProto. rewrite !orb_true_iff, !bool_decide_eq_true.
  repeat case_decide; eauto; tauto.
Qed.

(** A definition as the store keeps it. *)
Definition storable (d : JobDefinition) : Prop :=
  validateJobName (d_Name d) = Ok tt /\ catchUp_valid (CatchUp d) = true
  /\ overlap_valid (Overlap d) = true /\ normalized (d_Schedule d).

Lemma definition_converts d : storable d -> portable (d_Schedule d) ->
  exists m, JobDefinitionToProto d = Ok m /\ Msg.Name m = d_Name d
    /\ JobDefinitionFromProto (Some m) = Ok d.
Proof.
  intros (Hn & Hc & Ho & s & Es & Ed) Hp.
  destruct (restored_declared _ _ Es) as (Hd & loc & V & Hz).
  destruct (schedule_accepted s loc _ Hd V Hz Ed Hp) as [sm Esm].
  destruct (catchUp_known _ Hc) as [c Ec], (overlap_known _ Ho) as [o Eo].
  destruct (contract_restores LoadLocation duration_String ParseCron ts_New ts_AsTime ts_CheckValid
              ts_AsTime_New s loc sm Hd (vs_location _ _ _ _ V) Hz Esm) as (_ & _ & Ef).
  set (m := {| Msg.Name := d_Name d; Msg.Schedule := Some sm; Msg.CatchUpPolicy := c;
               Msg.OverlapPolicy := o |}).
  assert (JobDefinitionFromProto (Some m) = Ok d) as Em.
  { unfold JobDefinitionFromProto, ValidateJobDefinition_, m.
    cbn [Msg.Name Msg.Schedule Msg.CatchUpPolicy Msg.OverlapPolicy].
    destruct (name_refined _ Hn) as [-> ->]. cbn [andb].
    rewrite Ef, Definition_normal, Ed, (catchUp_again _ _ Ec), (overlap_again _ _ Eo).
    by destruct d. }
  exists m. split; [|done]. unfold JobDefinitionToProto.
  rewrite Es, Esm, Ec, Eo. cbn [result_bind]. fold m. unfold ValidateJobDefinition. by rewrite Em.
Qed.
(** ** What a store holds converts *)

Context (Sum256_length : forall s, String.length (Sum256 s) = 32%nat).
#[local] Abbreviation OccurrenceID := (OccurrenceID Sum256).
#[local] Abbreviation record_ok := (record_ok Sum256).
#[local] Abbreviation well_formed := (well_formed Sum256).
#[local] Abbreviation apply := (apply Sum256 LoadLocation duration_String ParseCron).
#[local] Abbreviation run := (run Sum256 LoadLocation duration_String ParseCron).

Lemma hex_digit_lower n : (n < 16)%N -> lower_hex (hex_digit n) = true.
Proof.
  intros H. assert (Forall (fun n => lower_hex (hex_digit n) = true) (N.of_nat <$> seq 0 16)) as F
    by (cbn; repeat constructor).
  rewrite Forall_forall in F. apply F. apply list_elem_of_fmap. exists (N.to_nat n).
  split; [lia|]. apply elem_of_seq. lia.
Qed.

Lemma encode_hex_lower l : forallb lower_hex (encode_hex l) = true.
Proof.
  induction l as [|c l IH]; [done|]. cbn [encode_hex forallb]. pose proof (N_ascii_bounded c).
  rewrite !hex_digit_lower, IH; [done|by apply N.mod_lt|].
  apply N.Div0.div_lt_upper_bound. lia.
Qed.

Lemma length_string_of_list l : String.length (String.string_of_list_ascii l) = length l.
Proof. induction l as [|c l IH]; [done|]. cbn. by rewrite IH. Qed.

Lemma OccurrenceID_refined name t : occurrence_id (OccurrenceID name t) = true.
Proof.
  unfold CronStore.OccurrenceID, occurrence_id. set (h := Sum256 _).
  assert (String.length (EncodeToString h) = 64%nat) as Hl
    by (unfold h; by rewrite EncodeToString_length, Sum256_length).
  unfold EncodeToString in *. rewrite length_string_of_list in Hl.
  rewrite list_of_append, String.list_ascii_of_string_of_list_ascii. cbn [String.list_ascii_of_string app].
  by rewrite Hl, encode_hex_lower.
Qed.

(** What the operations bound of a record after [n] of them. *)
Record recordable (n : N) (o : OccurrenceRecord) : Prop := {
  r_owner : (String.length (LeaseOwner o) <= 128)%nat;
  r_error : (String.length (Error o) <= 4096)%nat;
  r_reason : (String.length (SkipReason o) <= 4096)%nat;
  r_attempted : Status o <> OccurrenceSkipped -> (1 <= Attempt o)%N;
  r_started : (1 <= Attempt o)%N -> StartedAt o <> 0;
  r_attempts : (Attempt o <= n)%N;
}.

(** Instants within the years that a message can carry. *)
Definition instants (o : OccurrenceRecord) : Prop :=
  valid_instant (ScheduledAt o) /\ valid_instant (StartedAt o) /\ valid_instant (FinishedAt o).

Lemma in_length_upto hi s : (String.length s <= hi)%nat -> in_length 0 hi s = true.
Proof. intros H. unfold in_length. by rewrite (proj2 (Nat.leb_le _ hi)) by done. Qed.

Lemma invocation_accepted n id o (allow : bool) : record_ok id o -> recordable n o -> instants o ->
  (allow = true \/ Status o <> OccurrenceSkipped) ->
  validateInvocation (Msg.RunInvocation (run_summary o)) allow
  = Ok tt.
Proof.
  intros (E1 & E2 & Hn & Hs & _) R (I1 & I2 & _) Ha. unfold validateInvocation, run_summary.
  cbn [Msg.RunInvocation Msg.i_ScheduledAt Msg.OccurrenceId Msg.i_JobName Msg.i_Attempt
       Msg.i_StartedAt]. unfold ValidateInvocation_.
  cbn [Msg.OccurrenceId Msg.i_JobName]. subst id. rewrite E2 at 1. rewrite OccurrenceID_refined.
  destruct (name_refined _ Hn) as [-> ->]. cbn [andb]. unfold valid_instant in *. rewrite I1.
  rewrite ts_AsTime_New, bool_decide_eq_true_2 by done.
  destruct (N.eqb_spec (Attempt o) 0) as [E0|E0].
  - destruct Ha as [-> |Hst]; [|pose proof (r_attempted n o R Hst); lia].
    cbn [andb negb]. by rewrite E0.
  - cbn [andb negb]. rewrite (proj2 (N.ltb_lt 0 _)) by lia. unfold Time.IsZero.
    pose proof (r_started n o R ltac:(lia)) as Hz%Z.eqb_neq. rewrite Hz. by rewrite I2.
Qed.

Lemma summary_accepted n id o : record_ok id o -> recordable n o -> instants o ->
  OccurrenceToProto o = Ok (run_summary o).
Proof.
  intros Hr R I. unfold OccurrenceToProto, ValidateRunSummary.
  assert (ValidateRunSummary_ (run_summary o) = true) as ->.
  { unfold ValidateRunSummary_, run_summary. cbn [Msg.WorkerId Msg.ErrorSummary Msg.r_SkipReason].
    by rewrite !in_length_upto by apply R. }
  pose proof Hr as (_ & _ & _ & _ & Hf). pose proof I as (_ & _ & I3).
  pose proof (invocation_accepted n id o) as Hi.
  unfold status_fields, unleased in Hf. unfold valid_instant in I3.
  destruct (Status o) eqn:Es; cbn zeta;
    assert (Msg.State (run_summary o) = runStateToProto (Status o)) as -> by done; rewrite Es;
    cbn [runStateToProto]; rewrite Hi by first [done|by right|by left];
    unfold run_summary; cbn [Msg.State Msg.r_FinishedAt Msg.WorkerId Msg.ErrorSummary
      Msg.r_SkipReason]; unfold Time.IsZero.
  - destruct Hf as (H1 & _ & _ & _ & -> & -> & ->). cbn. by rewrite bool_decide_eq_false_2.
  - destruct Hf as ((_ & _ & _ & Hz%Z.eqb_neq) & _ & -> & ->). rewrite Hz. cbn. by rewrite I3.
  - destruct Hf as ((_ & _ & _ & Hz%Z.eqb_neq) & _ & ->). rewrite Hz. cbn. by rewrite I3.
  - destruct Hf as ((_ & _ & _ & Hz%Z.eqb_neq) & _ & ->). rewrite Hz. cbn. by rewrite I3.
  - destruct Hf as ((_ & _ & _ & Hz%Z.eqb_neq) & Hk & ->). rewrite Hz. cbn. rewrite I3.
    by rewrite bool_decide_eq_false_2.
Qed.
(** ** Every run of the store *)

Definition texts_fit (n : N) (st : MemoryStore) : Prop :=
  map_Forall (fun _ o => recordable n o) (occurrences st).
Definition jobs_storable (st : MemoryStore) : Prop :=
  map_Forall (fun _ s => storable (s_Definition s)) (jobs st).

Lemma recordable_later n n' o : (n <= n')%N -> recordable n o -> recordable n' o.
Proof. intros Hn []. by split; try done; etrans. Qed.

Lemma put_texts n id o st : texts_fit n st -> recordable n o -> texts_fit n (put id o st).
Proof. intros H Ho. by apply map_Forall_insert_2. Qed.

Lemma claim_owner q : CronStore.validateClaim Sum256 q = Ok tt ->
  (String.length (c_LeaseOwner q) <= 128)%nat.
Proof.
  unfold CronStore.validateClaim. intros [H _]%guard_ok.
  rewrite !negb_orb, !andb_true_iff, !negb_true_iff, !Nat.ltb_ge in H. unfold maxLeaseOwnerBytes in H.
  tauto.
Qed.

Lemma skip_reason q : CronStore.validateSkip Sum256 q = Ok tt ->
  (String.length (Reason q) <= 4096)%nat.
Proof.
  unfold CronStore.validateSkip. intros [H _]%guard_ok.
  rewrite !negb_orb, !andb_true_iff, !negb_true_iff, !Nat.ltb_ge in H. unfold maxStoreTextBytes in H.
  tauto.
Qed.

Lemma complete_texts ctx q st st' n : Complete ctx q st = Ok st' -> texts_fit n st ->
  texts_fit n st'.
Proof.
  unfold Complete. intros ([] & _ & H)%bind_ok. apply guard_ok in H as [Hg H].
  apply bind_ok in H as (o & (Ho & Er & _)%heldLease_ok & [= <-]). intros Hst.
  apply put_texts; [done|]. pose proof (Hst _ _ Ho) as []. rewrite Er in *.
  rewrite !negb_orb, !negb_involutive, !andb_true_iff, !negb_true_iff, !Nat.ltb_ge in Hg.
  unfold maxStoreTextBytes in Hg.
  assert (1 <= Attempt o)%N by by apply r_attempted0.
  split; cbn; try done; try lia; tauto.
Qed.

(** Every operation but [Complete], whose step forgets the length of the text. *)
Lemma step_texts st o st' n : CronLease.step Sum256 LoadLocation duration_String ParseCron st o st' ->
  (match o with OComplete _ _ => st' = st | _ => True end) -> (n + 1 < 4294967296)%N ->
  texts_fit n st -> texts_fit (n + 1) st'.
Proof.
  intros Hstep Hno Hn Hst.
  assert (texts_fit (n + 1) st) as Hst1.
  { eapply map_Forall_impl; [exact Hst|]. intros id o' Ho'. eapply recordable_later; [|exact Ho']. lia. }
  destruct Hstep as [o|ctx ds now active Ha|ctx q s r Hc Hr|ctx q s r (Hc & _) (Hr & _) Er _ _
    |ctx q s (Hc & _) _ _|ctx q s (Hc & _) _ _ _|ctx q r (Hr & _) Hu|ctx q r (Hr & _) _ _ _
    |ctx q s (Hc & _) _ _|ctx q s r (Hc & _) (Hr & _) Er _]; try exact Hst1;
    try (by rewrite Hno);
    match goal with
    | |- texts_fit _ (claim_advances _ ?s) => change (texts_fit (n + 1) s)
    | |- texts_fit _ (skip_advances _ ?s) => change (texts_fit (n + 1) s)
    | _ => idtac
    end; apply put_texts; try exact Hst1.
  - pose proof (claim_owner _ Hc). apply validateClaim_ok in Hc. destruct (Hst _ _ Hr) as [].
    specialize (r_attempted0 ltac:(congruence)).
    split; cbn; rewrite ?N.mod_small by lia; try lia; tauto.
  - apply validateClaim_ok in Hc. split; cbn; try lia. done.
  - pose proof (claim_owner _ Hc). apply validateClaim_ok in Hc. split; cbn; try lia; tauto.
  - destruct (Hst1 _ _ Hr) as []. by split.
  - pose proof (skip_reason _ Hc). apply validateSkip_ok in Hc. split; cbn; try lia; done.
  - pose proof (skip_reason _ Hc). destruct (Hst1 _ _ Hr) as []. split; cbn; try lia; done.
Qed.

Lemma apply_texts o st n : (n + 1 < 4294967296)%N -> texts_fit n st -> texts_fit (n + 1) (apply o st).
Proof.
  intros Hn Hst.
  destruct o as [ctx ds now|ctx q|ctx q|ctx q|ctx q];
    try (by eapply step_texts; [apply apply_step|..]).
  destruct (Complete ctx q st) as [st'|] eqn:E; cbn; rewrite E.
  - eapply map_Forall_impl; [by eapply complete_texts|].
    intros id o' Ho'. eapply recordable_later; [|exact Ho']. lia.
  - eapply map_Forall_impl; [exact Hst|].
    intros id o' Ho'. eapply recordable_later; [|exact Ho']. lia.
Qed.

Lemma run_texts ops : forall st n, (n + N.of_nat (length ops) < 4294967296)%N -> texts_fit n st ->
  texts_fit (n + N.of_nat (length ops)) (run ops st).
Proof.
  induction ops as [|o ops IH]; intros st n Hn Hst; cbn [CronLease.run].
  - by rewrite N.add_0_r.
  - cbn [length] in *. replace (n + N.of_nat (S (length ops)))%N with (n + 1 + N.of_nat (length ops))%N by lia.
    apply IH; [lia|]. apply apply_texts; [lia|done].
Qed.
Lemma normalized_storable d now d' schedule :
  normalizedDefinition LoadLocation duration_String ParseCron d now = Ok (d', schedule) ->
  storable d'.
Proof.
  unfold normalizedDefinition. intros ([] & Hn & H)%bind_ok.
  apply guard_ok in H as [[Hc Ho]%andb_true_iff H].
  destruct (ScheduleFromDefinition (d_Schedule d)) as [s|] eqn:Es; [|done].
  destruct (restored_declared _ _ Es) as (Hd & loc & V & Hz).
  set (s' := if _ && _ then _ else _) in H.
  destruct (Definition_ s') as [ds|] eqn:Ed; [|done]. injection H as <- <-.
  split_and!; [done..|]. cbn. assert (declared s' /\ location s' = Some loc) as [Hd' Hl].
  { pose proof (vs_location _ _ _ _ V). unfold s'. destruct (_ && _); [|done].
    split; [by apply declared_Anchor|done]. }
  destruct (definition_restores LoadLocation duration_String ParseCron s' loc ds Hd' Hl Hz)
    as (E1 & E2 & _); [|done|by exists (normal s')].
  intros E. unfold CronSchedule.ScheduleFromDefinition in Es. apply guard_ok in Es as [Ht Es].
  apply negb_true_iff, bool_decide_eq_false in Ht.
  destruct (LoadLocation (Timezone (d_Schedule d))) as [loc'|] eqn:El; [|done].
  pose proof (zones_by_name _ _ Ht El) as En. apply bind_ok in Es as (r & _ & Es).
  apply bind_ok in Es as ([] & _ & Es). apply bind_ok in Es as (c & _ & [_ [= <-]]%guard_ok).
  pose proof (vs_location _ _ _ _ V) as E'.
  assert (Some loc' = Some loc) as [= ->] by (rewrite <-E'; by destruct (HasAnchor (d_Schedule d))).
  congruence.
Qed.

Lemma reconciled_storable st d now s :
  reconcileJob LoadLocation duration_String ParseCron st d now = Ok s -> storable (s_Definition s).
Proof.
  unfold reconcileJob. intros ([d' schedule] & Hn%normalized_storable & H)%bind_ok.
  destruct (jobs st !! d_Name d) as [s0|].
  - apply bind_ok in H as (s1 & H1 & H2).
    assert (s_Definition s1 = d') as E1.
    { clear -H1. repeat case_match; try done; by injection H1 as <-. }
    assert (s_Definition s = s_Definition s1) as ->
      by (clear -H2; injection H2 as <-; by case_match).
    by rewrite E1.
  - destruct (Next _ _ _ _); [|done]. by injection H as <-.
Qed.

Lemma step_storable st o st' : CronLease.step Sum256 LoadLocation duration_String ParseCron st o st' ->
  jobs_storable st -> jobs_storable st'.
Proof.
  intros Hstep Hst j s' Hs'.
  assert (~ reconciles o -> storable (s_Definition s')) as Hkept.
  { intros Hr. destruct (step_jobs _ _ _ _ _ _ _ Hstep Hr j s' Hs') as (s & Hs & -> & _).
    by apply (Hst j s). }
  destruct o as [ctx ds now| | | |]; try by apply Hkept; intros [].
  inversion Hstep as [o E1 E2|? ? ? active Ha| | | | | | | |]; subst; [by apply (Hst j s')|].
  destruct (reconcileJobs_ok _ _ _ _ _ _ _ _ Ha j s' Hs') as [H|(d & _ & _ & Hr)]; [done|].
  by eapply reconciled_storable.
Qed.

Lemma run_storable ops st : jobs_storable st -> jobs_storable (run ops st).
Proof. apply run_invariant. apply step_storable. Qed.
(** ** The status of a job *)

Definition runs_of (name : string) (runs : list OccurrenceRecord) : list OccurrenceRecord :=
  base.filter (fun o => JobName o = name) runs.
Definition running_of (name : string) (runs : list OccurrenceRecord) : list OccurrenceRecord :=
  base.filter (fun o => Status o = OccurrenceRunning) (runs_of name runs).

Record kept_fields (j j' : Msg.JobStatus Timestamp) : Prop := {
  kf_definition : Msg.Definition_ j' = Msg.Definition_ j;
  kf_next : Msg.j_NextRunAt j' = Msg.j_NextRunAt j;
  kf_anchor : Msg.IntervalAnchor j' = Msg.IntervalAnchor j;
}.

Lemma add_runs_ok name runs : Forall (fun o => OccurrenceToProto o = Ok (run_summary o)) runs ->
  forall j, (Msg.ActiveRuns j + N.of_nat (length runs) < 4294967296)%N ->
  exists j', add_runs name runs j = Ok j' /\ kept_fields j j'
    /\ Msg.ActiveRuns j' = (Msg.ActiveRuns j + N.of_nat (length (running_of name runs)))%N
    /\ Msg.LastRun j' = match last (runs_of name runs) with
                        | Some o => Some (run_summary o)
                        | None => Msg.LastRun j
                        end.
Proof.
  unfold running_of, runs_of. induction 1 as [|o runs Ho _ IH]; intros j Hj; cbn [add_runs].
  { exists j. split; [done|]. split; [done|]. cbn. split; [lia|done]. }
  cbn [length] in Hj. case_bool_decide as Hn; cbn [negb].
  - rewrite filter_cons_True by done.
    set (j1 := if bool_decide (Status o = OccurrenceRunning) then _ else _).
    assert (kept_fields j j1 /\ Msg.LastRun j1 = Msg.LastRun j
            /\ Msg.ActiveRuns j1 = (Msg.ActiveRuns j
                 + if decide (Status o = OccurrenceRunning) then 1 else 0)%N) as ([] & _ & Ha).
    { unfold j1. case_bool_decide as Hs; [rewrite decide_True by done|rewrite decide_False by done];
        (split; [done|]); (split; [done|]); cbn; [|lia]. rewrite N.mod_small; lia. }
    rewrite Ho. cbn [result_bind].
    destruct (IH (j1 <| Msg.LastRun := Some (run_summary o) |>)) as (j' & E & [] & Ea & El).
    { cbn. rewrite Ha. case_decide; lia. }
    exists j'. split; [done|]. split; [by split; etrans|]. split.
    + change (Msg.ActiveRuns (j1 <| Msg.LastRun := Some (run_summary o) |>))
        with (Msg.ActiveRuns j1) in Ea.
      rewrite Ea, Ha, (filter_cons (fun o => Status o = OccurrenceRunning)).
      case_decide; cbn [length]; lia.
    + rewrite El, last_cons. by destruct (last _).
  - rewrite filter_cons_False by done. apply IH. lia.
Qed.

(** What a status says of a job, given the occurrences that were looked at. *)
Definition says (runs : list OccurrenceRecord) (s : JobState) (j : Msg.JobStatus Timestamp) : Prop :=
  JobDefinitionFromProto (Msg.Definition_ j) = Ok (s_Definition s)
  /\ Msg.j_NextRunAt j = Some (ts_New (NextRunAt s))
  /\ Msg.IntervalAnchor j = (if HasAnchor (d_Schedule (s_Definition s))
                             then Some (ts_New (d_Anchor (d_Schedule (s_Definition s)))) else None)
  /\ Msg.ActiveRuns j = N.of_nat (length (running_of (d_Name (s_Definition s)) runs))
  /\ Msg.LastRun j = run_summary <$> last (runs_of (d_Name (s_Definition s)) runs).

Lemma says_active runs l js : Forall2 (says runs) l js ->
  Msg.ActiveRuns <$> js
  = (fun s => N.of_nat (length (running_of (d_Name (s_Definition s)) runs))) <$> l.
Proof.
  induction 1 as [|s j l js Hs _ IH]; [done|]. cbn [fmap list_fmap]. f_equal; [apply Hs|exact IH].
Qed.

(** A job whose definition and instants a message can carry. *)
Definition carried (s : JobState) : Prop :=
  portable (d_Schedule (s_Definition s)) /\ valid_instant (NextRunAt s).

Lemma job_status_ok runs s : Forall (fun o => OccurrenceToProto o = Ok (run_summary o)) runs ->
  (length runs <= 1000)%nat -> storable (s_Definition s) -> carried s ->
  exists j, job_status runs s = Ok j /\ says runs s j
    /\ exists m, Msg.Definition_ j = Some m /\ Msg.Name m = d_Name (s_Definition s).
Proof.
  intros Hr Hl Hs [Hp _].
  destruct (definition_converts _ Hs Hp) as (m & Em & En & Ef).
  unfold job_status. rewrite Em. cbn [result_bind].
  match goal with |- context [add_runs _ _ ?j] =>
    destruct (add_runs_ok (d_Name (s_Definition s)) runs Hr j) as (j' & E & [E1 E2 E3] & Ea & El)
  end; [cbn; lia|].
  exists j'. split; [exact E|]. cbn in E1, E2, E3, Ea, El.
  split; [|exists m; by rewrite E1]. split_and!; [by rewrite E1|done|done|done|].
  rewrite El. by destruct (last _).
Qed.

(** The check of a status that was made so. *)
Lemma job_status_valid seen runs s j m :
  Forall (fun o => OccurrenceToProto o = Ok (run_summary o)) runs -> (length runs <= 1000)%nat ->
  carried s -> says runs s j -> Msg.Definition_ j = Some m -> Msg.Name m = d_Name (s_Definition s) ->
  d_Name (s_Definition s) ∉ seen ->
  validateJobStatus seen (Some j) = Ok ({[d_Name (s_Definition s)]} ∪ seen).
Proof.
  intros Hr Hl [[_ [_ Hanc]] Hnext] (Ed & En & Ei & Ea & El) Em Ename Hseen.
  unfold validateJobStatus.
  assert (ValidateJobStatus_ j = true) as ->.
  { unfold ValidateJobStatus_. rewrite Ea. apply N.leb_le.
    pose proof (length_filter (fun o => Status o = OccurrenceRunning)
                  (runs_of (d_Name (s_Definition s)) runs)) as H1.
    pose proof (length_filter (fun o => JobName o = d_Name (s_Definition s)) runs) as H2.
    unfold running_of, runs_of in *. lia. }
  unfold ValidateJobDefinition. rewrite Ed. cbn [result_bind]. rewrite Em, Ename.
  rewrite bool_decide_eq_false_2 by done. cbn [negb]. rewrite En. unfold valid_instant in *.
  rewrite Hnext, Ei. assert ((match (if HasAnchor (d_Schedule (s_Definition s))
      then Some (ts_New (d_Anchor (d_Schedule (s_Definition s)))) else None) with
      Some ts => ts_CheckValid ts | None => true end) = true) as ->
    by (by destruct (HasAnchor _)).
  rewrite El. destruct (last (runs_of (d_Name (s_Definition s)) runs)) as [o|] eqn:E; [|done].
  cbn [fmap option_fmap option_map].
  assert (o ∈ runs_of (d_Name (s_Definition s)) runs) as Ho by by apply last_Some_elem_of.
  apply list_elem_of_filter in Ho as [Hn Ho]. rewrite Forall_forall in Hr.
  pose proof (Hr o Ho) as Hv. unfold OccurrenceToProto in Hv. apply bind_ok in Hv as ([] & Hv & _).
  rewrite Hv. cbn [result_bind]. rewrite bool_decide_eq_true_2; [done|]. cbn. by rewrite Hn.
Qed.
(** ** The snapshot *)

#[local] Instance scheduled_le_trans : Transitive scheduled_le.
Proof.
  intros a b c. unfold scheduled_le. intros [H1|[H1 H1']] [H2|[H2 H2']]; [left; lia..|].
  right. split; [lia|by etrans].
Qed.
#[local] Instance scheduled_le_total : Total scheduled_le.
Proof.
  intros a b. unfold scheduled_le. destruct (Z.lt_trichotomy (ScheduledAt a) (ScheduledAt b))
    as [H|[H|H]]; [by left; left| |by right; left].
  destruct (String.le_total (ID a) (ID b)); [left|right]; right; by rewrite H.
Qed.

Lemma sorted_drop {A} (R : relation A) k (l : list A) : StronglySorted R l -> StronglySorted R (drop k l).
Proof.
  intros H. revert k. induction H as [|x l H IH Hx]; intros [|k]; cbn; try constructor; auto.
Qed.

Lemma scheduled_sorted l : StronglySorted scheduled_le l ->
  (forall o o', o ∈ l -> o' ∈ l -> ID o = ID o' -> o = o') -> merge_sort scheduled_le l = l.
Proof.
  intros Hs Hid. apply (StronglySorted_unique_strong scheduled_le).
  - intros o o' Ho Ho' H1 H2. rewrite merge_sort_Permutation in Ho. apply Hid; [done..|].
    unfold scheduled_le in *. destruct H1 as [?|[? H1]], H2 as [?|[? H2]]; try lia.
    by apply (anti_symm String.le).
  - apply (StronglySorted_merge_sort _).
  - done.
  - apply merge_sort_Permutation.
Qed.

Lemma stored_elem (st : MemoryStore) o : o ∈ (map_to_list (occurrences st)).*2 <->
  exists id, occurrences st !! id = Some o.
Proof.
  rewrite list_elem_of_fmap. split.
  - intros ([id o'] & -> & H%elem_of_map_to_list). by exists id.
  - intros [id H]. exists (id, o). split; [done|]. by apply elem_of_map_to_list.
Qed.

Lemma jobs_elem (st : MemoryStore) s : s ∈ jobStatesLocked st <-> exists j, jobs st !! j = Some s.
Proof.
  unfold jobStatesLocked. rewrite sort_by_elem, list_elem_of_fmap. split.
  - intros ([j s'] & -> & H%elem_of_map_to_list). by exists j.
  - intros [j H]. exists (j, s). split; [done|]. by apply elem_of_map_to_list.
Qed.

Lemma jobs_nodup (st : MemoryStore) : well_formed st ->
  NoDup ((fun s => d_Name (s_Definition s)) <$> jobStatesLocked st).
Proof.
  intros [_ Hj]. unfold jobStatesLocked. rewrite sort_by_perm, <-list_fmap_compose.
  assert (((fun s => d_Name (s_Definition s)) ∘ snd) <$> map_to_list (jobs st)
          = (map_to_list (jobs st)).*1) as ->; [|apply NoDup_fst_map_to_list].
  apply list_fmap_ext. intros k [j s] Hk%list_elem_of_lookup_2%elem_of_map_to_list.
  by destruct (Hj _ _ Hk).
Qed.

(** The statuses of a list of jobs with distinct names, made and then checked. *)
Lemma statuses_ok runs l : Forall (fun o => OccurrenceToProto o = Ok (run_summary o)) runs ->
  (length runs <= 1000)%nat -> Forall (fun s => storable (s_Definition s) /\ carried s) l ->
  NoDup ((fun s => d_Name (s_Definition s)) <$> l) ->
  exists js, job_statuses runs l = Ok js /\ Forall2 (says runs) l js
    /\ forall seen, Forall (fun s => d_Name (s_Definition s) ∉ seen) l ->
         validateJobStatuses seen (Some <$> js) = Ok tt.
Proof.
  intros Hr Hlen. induction 1 as [|s l [Hs Hc] _ IH]; intros Hnd.
  { exists []. split; [done|]. by split. }
  apply NoDup_cons in Hnd as [Hnew Hnd]. destruct (IH Hnd) as (js & E & Hjs & Hv).
  destruct (job_status_ok runs s Hr Hlen Hs Hc) as (j & Ej & Hj & m & Em & Hm).
  exists (j :: js). cbn [job_statuses]. rewrite Ej. cbn [result_bind]. rewrite E.
  split; [done|]. split; [by constructor|]. intros seen Hseen.
  apply Forall_cons in Hseen as [Hn Hseen]. cbn [fmap list_fmap validateJobStatuses].
  rewrite (job_status_valid seen runs s j m) by done. cbn [result_bind]. apply Hv.
  rewrite Forall_forall in Hseen |- *. intros s' Hs'. specialize (Hseen s' Hs').
  rewrite elem_of_union, elem_of_singleton. intros [E'|?]; [|done].
  apply Hnew. rewrite <-E'. apply list_elem_of_fmap. by exists s'.
Qed.

(** C28: The status of a scheduler is available and true.  After any run of the store's
    operations, fewer than 2^32 of them, the snapshot of the store has a status message, which
    passes the boundary's own validation: no record and no job that the store accepts is one
    that the message refuses, so no occurrence can make the status of the others disappear.
    Jobs appear once each, in the order of their names; each carries its definition, which
    reads back as the stored one, its next run, its anchor, the number of its occurrences that
    run and the summary of its latest, as far as the snapshot reaches.  Instants must have a
    year that a message carries, and a zone a name of the boundary's form. *)
Theorem status_is_available (ops : list op) (observedAt : Time.t) :
  let st := run ops NewMemoryStore in
  (N.of_nat (length ops) < 4294967296)%N ->
  map_Forall (fun _ o => instants o) (occurrences st) ->
  map_Forall (fun _ s => carried s) (jobs st) ->
  observedAt <> 0 -> valid_instant observedAt ->
  exists snapshot m js, Snapshot Background st = Ok snapshot
    /\ StoreSnapshotToProto snapshot observedAt = Ok m
    /\ ValidateStatusSnapshot (Some m) = Ok tt
    /\ m = {| Msg.ObservedAt := Some (ts_New observedAt); Msg.Jobs := Some <$> js |}
    /\ Forall2 (says (s_Occurrences snapshot)) (jobStatesLocked st) js.
Proof.
  intros st Hn Hi Hc Hz Ho.
  assert (well_formed st) as Hwf.
  { apply run_invariant; [intros *; apply step_well_formed|]. split; apply map_Forall_empty. }
  assert (texts_fit (N.of_nat (length ops)) st) as Ht
    by (apply (run_texts ops _ 0); [done|apply map_Forall_empty]).
  assert (jobs_storable st) as Hst by (apply run_storable, map_Forall_empty).
  clearbody st. unfold Snapshot. cbn [contextError result_bind].
  set (sorted := merge_sort scheduled_le (map_to_list (occurrences st)).*2).
  set (runs := drop (length sorted - SnapshotOccurrenceLimit) sorted).
  assert (forall o, o ∈ runs -> exists id, occurrences st !! id = Some o) as Hruns.
  { intros o H. apply stored_elem. rewrite <-(merge_sort_Permutation scheduled_le).
    fold sorted. rewrite <-(take_drop (length sorted - SnapshotOccurrenceLimit) sorted).
    apply elem_of_app. by right. }
  assert (merge_sort scheduled_le runs = runs) as Esort.
  { apply scheduled_sorted; [apply sorted_drop, (StronglySorted_merge_sort _)|].
    intros o o' [id H]%Hruns [id' H']%Hruns E. destruct Hwf as [Hwf _].
    destruct (Hwf _ _ H) as [E1 _], (Hwf _ _ H') as [E2 _]. congruence. }
  assert (Forall (fun o => OccurrenceToProto o = Ok (run_summary o)) runs) as Hall.
  { apply Forall_forall. intros o [id H]%Hruns. destruct Hwf as [Hwf _].
    eapply summary_accepted; [by apply Hwf|by eapply Ht|by eapply Hi]. }
  assert (length runs <= 1000)%nat as Hlen
    by (unfold runs, SnapshotOccurrenceLimit; rewrite length_drop; lia).
  assert (Forall (fun s => storable (s_Definition s) /\ carried s) (jobStatesLocked st)) as Hjobs.
  { apply Forall_forall. intros s [j H]%jobs_elem. split; [by eapply Hst|by eapply Hc]. }
  destruct (statuses_ok runs _ Hall Hlen Hjobs (jobs_nodup st Hwf)) as (js & E & Hjs & Hv).
  set (m := {| Msg.ObservedAt := Some (ts_New observedAt); Msg.Jobs := Some <$> js |}).
  assert (ValidateStatusSnapshot (Some m) = Ok tt) as Hm.
  { unfold ValidateStatusSnapshot, m. cbn [Msg.ObservedAt Msg.Jobs].
    unfold valid_instant in Ho. rewrite Ho. apply Hv. apply Forall_forall. set_solver. }
  eexists _, m, js. split; [done|]. cbn [s_Jobs s_Occurrences].
  split_and!; [|done..]. unfold StoreSnapshotToProto, Time.IsZero. cbn [s_Jobs s_Occurrences].
  rewrite (proj2 (Z.eqb_neq _ _) Hz). cbn [negb]. rewrite Esort.
  rewrite sort_by_sorted_id; [|by apply jobs_nodup|apply sort_by_sorted].
  rewrite E. cbn [result_bind]. fold m. by rewrite Hm.
Qed.
End runtime.
Close Scope Z_scope.

(** ** Witness *)

Module StatusDemo.
(** A hash of 32 bytes, for one job and a few instants. *)
Definition sum32 (s : string) : string :=
  String.string_of_list_ascii
    (take 32 (rev (String.list_ascii_of_string s) ++ replicate 32 "000"%char)).
Definition in_years (t : Time.t) : bool := (0 <=? t)%Z.

Definition job : JobDefinition :=
  {| d_Name := "rollup"; CatchUp := CatchUpAll; Overlap := OverlapSkip;
     d_Schedule := match Definition_ utc_only pretty no_cron Demo.every_minute with
                   | Ok d => d | Err _ => noDefinition end |}.
Definition claim (mi : Z) (token : string) (now : Time.t) : ClaimRequest :=
  {| c_OccurrenceID := OccurrenceID sum32 "rollup" (Demo.clock mi 0); c_JobName := "rollup";
     c_ScheduledAt := Demo.clock mi 0; c_NextRunAt := Demo.clock (mi + 1)%Z 0;
     c_LeaseOwner := "replica"; c_LeaseToken := token; ClaimedAt := now;
     c_LeaseUntil := (now + 30 * Time.Second)%Z |}.

(** The first occurrence fails, the second runs. *)
Definition ops : list op :=
  [OReconcile Background [job] (Demo.clock 0 0);
   OClaim Background (claim 1 "lease_a" (Demo.clock 1 2));
   OComplete Background
     {| e_OccurrenceID := OccurrenceID sum32 "rollup" (Demo.clock 1 0); e_LeaseToken := "lease_a";
        e_Status := OccurrenceFailed; e_FinishedAt := Demo.clock 1 9; e_Error := "no disk" |};
   OClaim Background (claim 2 "lease_b" (Demo.clock 2 1))].
Definition store : MemoryStore := run sum32 utc_only pretty no_cron ops NewMemoryStore.

Example store_records :
  (fun o => (ScheduledAt o, Status o, Error o))
    <$> merge_sort scheduled_le (map_to_list (occurrences store)).*2
  = [(Demo.clock 1 0, OccurrenceFailed, "no disk"); (Demo.clock 2 0, OccurrenceRunning, "")].
Proof. vm_compute. reflexivity. Qed.

Lemma sum32_length s : String.length (sum32 s) = 32%nat.
Proof.
  unfold sum32. rewrite length_string_of_list, length_take, length_app, length_replicate. lia.
Qed.

Lemma all_values {V} (P : V -> Prop) (f : V -> bool) (m : gmap string V) :
  (forall v, f v = true -> P v) -> forallb f (map_to_list m).*2 = true -> map_Forall (fun _ => P) m.
Proof.
  intros Hf H k v Hk. apply Hf. rewrite forallb_forall in H. apply H, list_elem_of_In.
  apply list_elem_of_fmap. exists (k, v). split; [done|]. by apply elem_of_map_to_list.
Qed.

Definition in_time (o : OccurrenceRecord) : bool :=
  in_years (ScheduledAt o) && in_years (StartedAt o) && in_years (FinishedAt o).
Definition fits (s : JobState) : bool :=
  let d := d_Schedule (s_Definition s) in
  in_length 1 128 (Timezone d) && zone_name (Timezone d) && in_years (d_Anchor d)
  && in_years (NextRunAt s).

Lemma utc_named name loc : name <> "" -> utc_only name = Some loc -> loc_name loc = name.
Proof. unfold utc_only. intros _. case_decide as E; [|done]. by intros [= <-]. Qed.
End StatusDemo.

Lemma status_is_available_witness :
  exists snapshot m js, Snapshot Background StatusDemo.store = Ok snapshot
    /\ StoreSnapshotToProto StatusDemo.sum32 utc_only pretty no_cron (fun t => t) (fun t => t)
         StatusDemo.in_years snapshot (Demo.clock 2 5) = Ok m
    /\ Msg.Jobs m = Some <$> js /\ Msg.ActiveRuns <$> js = [1%N].
Proof.
  destruct (status_is_available StatusDemo.sum32 utc_only pretty no_cron (fun t => t) (fun t => t)
    StatusDemo.in_years (fun _ => eq_refl) StatusDemo.utc_named StatusDemo.sum32_length
    StatusDemo.ops (Demo.clock 2 5)) as (snapshot & m & js & E1 & E2 & _ & -> & Hjs).
  - reflexivity.
  - apply (StatusDemo.all_values _ StatusDemo.in_time); [|vm_compute; reflexivity].
    intros o. unfold StatusDemo.in_time. rewrite !andb_true_iff. intros [[? ?] ?]. by split_and!.
  - apply (StatusDemo.all_values _ StatusDemo.fits); [|vm_compute; reflexivity].
    intros s. unfold StatusDemo.fits. rewrite !andb_true_iff. intros [[[? ?] ?] ?]. by split_and!.
  - vm_compute. discriminate.
  - reflexivity.
  - exists snapshot. eexists. exists js. split; [exact E1|]. split; [exact E2|].
    split; [reflexivity|].
    apply says_active in Hjs. rewrite Hjs.
    vm_compute in E1. injection E1 as <-. vm_compute. reflexivity.
Defined.
