(* ===== verification/OsContract.v ===== *)
(** * CandaceOS: the messages between Core and the node agents

    The messages of [proto/candace/candaceos/v1] that a deployment passes through, as
    records of their fields ([node_control.pb.go], [harness.pb.go]), with the generated
    refinements ([node_control_liquid.pb.go], [harness_liquid.pb.go]).  An enum is its
    number, a message pointer an [option], a map a [gmap]. *)
From Stdlib Require Import Ascii.
From S2P Require Import Prelude.
From S2P Require Import GoStd.
From S2P Require Import GoText.

Open Scope Z_scope.

(** ** Messages *)

Definition DESIRED_STATE_UNSPECIFIED : Z := 0.
Definition DESIRED_STATE_RUNNING : Z := 1.
Definition DESIRED_STATE_STOPPED : Z := 2.

Definition PLACEMENT_MODE_UNSPECIFIED : Z := 0.
Definition PLACEMENT_MODE_EXACT_NODE : Z := 1.
Definition PLACEMENT_MODE_LEADER : Z := 2.
Definition PLACEMENT_MODE_LABELS : Z := 3.

Record Fence := mkFence { f_Term : N; f_LeaderId : string }.

Record Assignment := mkAssignment {
  a_App : string;
  a_Project : string;
  a_Path : string;
  a_DesiredState : Z;
  a_SourceRevision : string;
  a_ContentSha256 : string;
}.

Record Node := mkOsNode { o_Id : string; o_Labels : gmap string string; o_Alive : bool }.

Record Command := mkCommand { Argv : list string }.

Record ReconcileRequest := mkRequest {
  q_Fence : option Fence;
  q_Assignment : option Assignment;
}.

Record ReconcileResponse := mkResponse {
  p_Fence : option Fence;
  p_Assignment : option Assignment;
  p_DryRun : bool;
  p_Commands : list Command;
  p_UpdatedAt : option Time.t;
}.

Record ReconcileIntent := mkIntent {
  i_App : string;
  i_Project : string;
  i_Path : string;
  i_DesiredState : Z;
  i_PlacementMode : Z;
  i_NodeId : string;
  i_Labels : gmap string string;
  i_Replicas : Z;
  i_Stateful : bool;
}.

Record ReconcileRevision := mkRevision {
  rv_Id : string;
  rv_Source : string;
  rv_SourceRevision : string;
  rv_ContentDigest : string;
  rv_ComposePath : string;
}.

Record ReconcileEvidence := mkEvidence {
  ev_DeploymentId : string;
  ev_RevisionId : string;
  ev_RunIds : list string;
  ev_NodeIds : list string;
  ev_ReceiptIds : list Z;
  ev_DryRun : bool;
}.

#[export] Instance Fence_eq_dec : EqDecision Fence.
Proof. solve_decision. Defined.
#[export] Instance Assignment_eq_dec : EqDecision Assignment.
Proof. solve_decision. Defined.
#[export] Instance ReconcileRevision_eq_dec : EqDecision ReconcileRevision.
Proof. solve_decision. Defined.
#[export] Instance Rebuild_Assignment : Rebuild Assignment := fun a =>
  {| a_App := a_App a; a_Project := a_Project a; a_Path := a_Path a;
     a_DesiredState := a_DesiredState a; a_SourceRevision := a_SourceRevision a;
     a_ContentSha256 := a_ContentSha256 a |}.
#[export] Instance Rebuild_Intent : Rebuild ReconcileIntent := fun i =>
  {| i_App := i_App i; i_Project := i_Project i; i_Path := i_Path i;
     i_DesiredState := i_DesiredState i; i_PlacementMode := i_PlacementMode i;
     i_NodeId := i_NodeId i; i_Labels := i_Labels i; i_Replicas := i_Replicas i;
     i_Stateful := i_Stateful i |}.
#[export] Instance Rebuild_Evidence : Rebuild ReconcileEvidence := fun e =>
  {| ev_DeploymentId := ev_DeploymentId e; ev_RevisionId := ev_RevisionId e;
     ev_RunIds := ev_RunIds e; ev_NodeIds := ev_NodeIds e;
     ev_ReceiptIds := ev_ReceiptIds e; ev_DryRun := ev_DryRun e |}.

(** ** Regular expressions *)

Import Regexp.
Definition lower : class := [("a"%char, "z"%char); ("0"%char, "9"%char)].
Definition alnum : class := [("A"%char, "Z"%char); ("a"%char, "z"%char); ("0"%char, "9"%char)].

(** [^[A-Za-z0-9][A-Za-z0-9._:-]*$] *)
Definition IdRe : Regexp.t :=
  Cat (Class alnum) (Star (Class (alnum ++ (one <$> ["."; "_"; ":"; "-"]%char)))).

(** [^[a-z0-9][a-z0-9._-]{0,62}$]: the bound on the repetition is one on the length. *)
Definition AppRe (s : string) : bool :=
  (String.length s <=? 63)%nat
  && MatchString (Cat (Class lower) (Star (Class (lower ++ (one <$> ["."; "_"; "-"]%char))))) s.

(** [^[a-z0-9][a-z0-9_-]{0,62}$] *)
Definition ProjectRe (s : string) : bool :=
  (String.length s <=? 63)%nat
  && MatchString (Cat (Class lower) (Star (Class (lower ++ (one <$> ["_"; "-"]%char))))) s.

(** [^([0-9a-f]{40}|[0-9a-f]{64})$] *)
Definition hex_word (n : nat) (s : string) : bool :=
  (String.length s =? n)%nat
  && MatchString (Star (Class [("0"%char, "9"%char); ("a"%char, "f"%char)])) s.
Definition GitObjectRe (s : string) : bool := hex_word 40 s || hex_word 64 s.

(** [^sha256:[0-9a-f]{64}$] *)
Definition DigestRe (s : string) : bool :=
  match strip (String.list_ascii_of_string "sha256:") (String.list_ascii_of_string s) with
  | Some hex => hex_word 64 (String.string_of_list_ascii hex)
  | None => false
  end.

(** [(^/|/$|//|(^|/)\.\.?(/|$))], unanchored: an empty component, or one of dots. *)
Definition odd_component (s : string) : bool :=
  negb (bool_decide (s = ""))
  && existsb (fun c => bool_decide (c ∈ [""; "."; ".."])) (Split "/" s).
(** The same, or a backslash. *)
Definition PathRe (s : string) : bool := odd_component s || ContainsByte "\" s.

(** [[ \t\r\n]], unanchored *)
Definition BlankRe (s : string) : bool :=
  existsb (fun n => ContainsByte (ascii_of_nat n) s) [32; 9; 13; 10]%nat.

(** [^[\s\p{Z}\x{0085}]] and [[\s\p{Z}\x{0085}]$].  The class is the white space of
    [strings.TrimSpace] but for the vertical tab.  No encoding of one of its code points is
    a proper suffix of another sequence, so the last code point is found from the end. *)
Definition re_space : list (list ascii) :=
  filter (fun p => p <> [ascii_of_nat 11]) white_space.
Definition SpaceStartRe (s : string) : bool :=
  bool_decide (is_Some (strip_any re_space (String.list_ascii_of_string s))).
Definition SpaceEndRe (s : string) : bool :=
  bool_decide (is_Some (strip_any (reverse <$> re_space)
                          (reverse (String.list_ascii_of_string s)))).

(** [strings.ToLower] on ASCII letters *)
Definition lower_ascii (c : ascii) : ascii :=
  let n := nat_of_ascii c in
  if ((65 <=? n) && (n <=? 90))%nat then ascii_of_nat (n + 32) else c.

(** [(?i)^[^\\]*\.ya?ml$] *)
Definition has_suffix (suffix s : list ascii) : bool :=
  bool_decide (is_Some (strip (reverse suffix) (reverse s))).
Definition ComposeRe (s : string) : bool :=
  let l := lower_ascii <$> String.list_ascii_of_string s in
  negb (ContainsByte "\" s)
  && (has_suffix (String.list_ascii_of_string ".yaml") l
      || has_suffix (String.list_ascii_of_string ".yml") l).

(** ** Generated refinements *)

(** The field of the first predicate that fails; [""] for a nil message. *)
Definition within (lo hi : nat) (s : string) : bool :=
  (lo <=? String.length s)%nat && (String.length s <=? hi)%nat.

Definition ValidateFence (message : option Fence) : result string unit :=
  match message with
  | None => Err ""
  | Some m =>
      guard! (1 <=? f_Term m)%N else "term" in
      guard! within 1 128 (f_LeaderId m) && MatchString IdRe (f_LeaderId m) else "leader_id" in
      Ok tt
  end.

Definition valid_path (path : string) : bool :=
  within 1 512 path && (bool_decide (path = ".") || negb (PathRe path)).

Definition ValidateAssignment (message : option Assignment) : result string unit :=
  match message with
  | None => Err ""
  | Some m =>
      guard! AppRe (a_App m) else "app" in
      guard! ProjectRe (a_Project m) else "project" in
      guard! valid_path (a_Path m) else "path" in
      guard! (a_DesiredState m =? 1) || (a_DesiredState m =? 2) else "desired_state" in
      guard! GitObjectRe (a_SourceRevision m) else "source_revision" in
      guard! DigestRe (a_ContentSha256 m) else "content_sha256" in
      Ok tt
  end.

Definition label_key_ok (key : string) : bool :=
  (1 <=? String.length key)%nat && negb (BlankRe key) && negb (SpaceStartRe key)
  && negb (SpaceEndRe key).
Definition label_value_ok (value : string) : bool :=
  (1 <=? String.length value)%nat && negb (SpaceStartRe value) && negb (SpaceEndRe value).
(** The keys are tried in order, but every failure names the one field. *)
Definition labels_ok (labels : gmap string string) : bool :=
  bool_decide (map_Forall (fun key value =>
    label_key_ok key = true /\ label_value_ok value = true) labels).

Definition ValidateNode (message : option Node) : result string unit :=
  match message with
  | None => Err ""
  | Some m =>
      guard! within 1 128 (o_Id m) && MatchString IdRe (o_Id m) else "id" in
      guard! labels_ok (o_Labels m) else "labels" in
      Ok tt
  end.

Definition ValidateReconcileIntent (message : option ReconcileIntent) : result string unit :=
  match message with
  | None => Err ""
  | Some m =>
      guard! AppRe (i_App m) else "app" in
      guard! ProjectRe (i_Project m) else "project" in
      guard! valid_path (i_Path m) else "path" in
      guard! (i_DesiredState m =? 1) || (i_DesiredState m =? 2) else "desired_state" in
      guard! (i_PlacementMode m =? 1) || (i_PlacementMode m =? 2) || (i_PlacementMode m =? 3)
        else "placement_mode" in
      guard! (String.length (i_NodeId m) <=? 128)%nat
             && ((String.length (i_NodeId m) =? 0)%nat || MatchString IdRe (i_NodeId m))
        else "node_id" in
      guard! labels_ok (i_Labels m) else "labels" in
      guard! (0 <=? i_Replicas m) && (i_Replicas m <=? 1000000) else "replicas" in
      Ok tt
  end.

Definition ValidateReconcileRevision (message : option ReconcileRevision)
  : result string unit :=
  match message with
  | None => Err ""
  | Some m =>
      guard! within 1 128 (rv_Id m) && MatchString IdRe (rv_Id m) else "id" in
      guard! within 1 4096 (rv_Source m) && negb (SpaceStartRe (rv_Source m))
             && negb (SpaceEndRe (rv_Source m)) else "source" in
      guard! GitObjectRe (rv_SourceRevision m) else "source_revision" in
      guard! DigestRe (rv_ContentDigest m) else "content_digest" in
      guard! within 1 512 (rv_ComposePath m) && ComposeRe (rv_ComposePath m)
             && negb (odd_component (rv_ComposePath m)) else "compose_path" in
      Ok tt
  end.

Definition ValidateReconcileEvidence (message : option ReconcileEvidence)
  : result string unit :=
  match message with
  | None => Err ""
  | Some m =>
      guard! within 1 128 (ev_DeploymentId m) else "deployment_id" in
      guard! within 1 128 (ev_RevisionId m) else "revision_id" in
      Ok tt
  end.

Example fence_ok : ValidateFence (Some (mkFence 3 "node-1")) = Ok tt.
Proof. vm_compute. reflexivity. Qed.
Example path_refused : valid_path "apps/../etc" = false /\ valid_path "apps/web" = true.
Proof. vm_compute. auto. Qed.
Close Scope Z_scope.
