(* ===== verification/OsTypes.v ===== *)
(** * CandaceOS: desired state and placement

    [services/candaceos]: validate.go, app_revision.go, deployment.go, placement.go and
    errors.go.  A pointer to a time is an [option]; the elements of
    [ClusterSnapshot.Nodes] are never nil (the reconciler builds them), so a node is not an
    [option] here. *)
From Stdlib Require Import Ascii.
From S2P Require Import Prelude.
From S2P Require Import GoStd.
From S2P Require Import GoText.
From S2P Require Import OsContract.

Open Scope Z_scope.

(** ** errors.go: the sentinel and what it wraps *)

Inductive os_error :=
| ErrInvalidNode (index : nat) (field : string)
| ErrInvalidAppRevision (what : string)
| ErrInvalidPlacement (what : string)
| ErrInvalidDeployment (what : string)
| ErrInvalidRun (what : string)
| ErrInvalidApproval (what : string)
| ErrInvalidReceipt (what : string)
| ErrInvalidClusterSnapshot (what : string)
| ErrNotAuthoritative
| ErrNoQuorum
| ErrLeaderUnavailable (id : string)
| ErrPlacementUnsatisfied (what : string)
| ErrReceiptAppend (what : string).

(** The outcome of a check that names what it refuses, wrapped in a sentinel. *)
Definition wrap {A} (sentinel : string -> os_error) (r : result string A) : result os_error A :=
  match r with Ok a => Ok a | Err what => Err (sentinel what) end.

(** ** validate.go *)

(** [strings.TrimSpace(value) == value] *)
Definition is_trimmed (value : string) : bool := bool_decide (TrimSpace value = value).

Definition validateID (field value : string) : result string unit :=
  guard! negb (bool_decide (value = "")) else field in
  guard! is_trimmed value && negb (BlankRe value) else field in
  Ok tt.

(** The keys are tried in order; every failure names the field. *)
Definition validateLabels (field : string) (labels : gmap string string) (requireOne : bool)
  : result string unit :=
  guard! negb (requireOne && bool_decide (labels = ∅)) else field in
  guard! bool_decide (map_Forall (fun key value =>
           negb (bool_decide (key = "")) && is_trimmed key && negb (BlankRe key)
           && negb (bool_decide (value = "")) && is_trimmed value = true) labels) else field in
  Ok tt.

(** ** app_revision.go *)

Record AppRevision := mkAppRevision {
  v_ID : string;
  v_AppID : string;
  v_Source : string;
  v_Revision : string;
  v_Digest : string;
  v_ComposePath : string;
}.

(** [path.Clean]: the components that are left, the last one first. *)
Fixpoint clean_components (rooted : bool) (out comps : list string) : list string :=
  match comps with
  | [] => out
  | c :: comps =>
      if bool_decide (c = "") || bool_decide (c = ".") then clean_components rooted out comps
      else if bool_decide (c = "..") then
        match out with
        | [] => clean_components rooted (if rooted then [] else [".."]) comps
        | o :: out' => if bool_decide (o = "..") then clean_components rooted (".." :: out) comps
                       else clean_components rooted out' comps
        end
      else clean_components rooted (c :: out) comps
  end.
Definition IsAbs (path : string) : bool :=
  match path with String c _ => bool_decide (c = "/"%char) | EmptyString => false end.
Definition Clean (path : string) : string :=
  let comps := Join "/" (reverse (clean_components (IsAbs path) [] (Split "/" path))) in
  if IsAbs path then String "/"%char comps
  else if bool_decide (comps = "") then "." else comps.

(** [path.Ext]: from the last dot of the last element. *)
Definition Ext (path : string) : string :=
  let last_element := default "" (last (Split "/" path)) in
  match CutLast "." last_element with Some (_, ext) => String "."%char ext | None => "" end.

(** [strings.ToLower], which maps nothing else to the letters of an extension *)
Definition ToLower (s : string) : string :=
  String.string_of_list_ascii (lower_ascii <$> String.list_ascii_of_string s).

Definition HasPrefix (prefix s : string) : bool :=
  bool_decide (is_Some (strip (String.list_ascii_of_string prefix)
                          (String.list_ascii_of_string s))).

Definition validateComposePath (composePath : string) : result string unit :=
  guard! negb (bool_decide (composePath = "")) else "compose_path" in
  guard! negb (ContainsByte "\" composePath || IsAbs composePath
               || negb (bool_decide (Clean composePath = composePath))
               || HasPrefix "../" composePath) else "compose_path" in
  let ext := ToLower (Ext composePath) in
  guard! bool_decide (ext = ".yaml") || bool_decide (ext = ".yml") else "compose_path" in
  Ok tt.

Definition AppRevision_Validate (revision : AppRevision) : result os_error unit :=
  wrap ErrInvalidAppRevision (
    let! _ := validateID "id" (v_ID revision) in
    let! _ := validateID "app_id" (v_AppID revision) in
    guard! negb (bool_decide (v_Source revision = "")) && is_trimmed (v_Source revision)
      else "source" in
    guard! GitObjectRe (v_Revision revision) else "revision" in
    guard! DigestRe (v_Digest revision) else "digest" in
    validateComposePath (v_ComposePath revision)).

(** ** deployment.go *)

Definition DesiredStateRunning : string := "running".
Definition DesiredStateStopped : string := "stopped".

Record MatchLabelsPlacement := mkMatchLabels {
  l_Labels : gmap string string;
  l_Replicas : Z;
}.

(** [ExactNode] holds its node ID, [Leader] nothing. *)
Record Placement := mkPlacement {
  ExactNode : option string;
  Leader : option unit;
  MatchLabels : option MatchLabelsPlacement;
}.

Definition set_variants (placement : Placement) : nat :=
  (match ExactNode placement with Some _ => 1 | None => 0 end
   + match Leader placement with Some _ => 1 | None => 0 end
   + match MatchLabels placement with Some _ => 1 | None => 0 end)%nat.

Definition Placement_Validate (placement : Placement) : result os_error unit :=
  guard! (set_variants placement =? 1)%nat else ErrInvalidPlacement "variants" in
  let! _ := match ExactNode placement with
            | Some node => wrap ErrInvalidPlacement (validateID "exact_node.node_id" node)
            | None => Ok tt
            end in
  match MatchLabels placement with
  | Some policy =>
      let! _ := wrap ErrInvalidPlacement
                  (validateLabels "match_labels.labels" (l_Labels policy) true) in
      guard! negb (l_Replicas policy <? 1) else ErrInvalidPlacement "match_labels.replicas" in
      Ok tt
  | None => Ok tt
  end.

Record Deployment := mkDeployment {
  d_ID : string;
  d_AppRevisionID : string;
  d_DesiredState : string;
  d_Placement : Placement;
  d_Stateful : bool;
}.

Definition Deployment_Validate (deployment : Deployment) : result os_error unit :=
  let! _ := wrap ErrInvalidDeployment (validateID "id" (d_ID deployment)) in
  let! _ := wrap ErrInvalidDeployment
              (validateID "app_revision_id" (d_AppRevisionID deployment)) in
  guard! bool_decide (d_DesiredState deployment = DesiredStateRunning)
         || bool_decide (d_DesiredState deployment = DesiredStateStopped)
    else ErrInvalidDeployment "desired_state" in
  let! _ := match Placement_Validate (d_Placement deployment) with
            | Err (ErrInvalidPlacement what) => Err (ErrInvalidDeployment what)
            | r => r
            end in
  guard! negb (d_Stateful deployment
               && bool_decide (ExactNode (d_Placement deployment) = None))
    else ErrInvalidDeployment "stateful" in
  Ok tt.

(** ** placement.go *)

Record ClusterSnapshot := mkClusterSnapshot {
  c_Nodes : list Node;
  c_LeaderNodeID : string;
  c_Authoritative : bool;
  c_HasQuorum : bool;
}.

Fixpoint validateNodes (index : nat) (seen : list string) (nodes : list Node)
  : result os_error unit :=
  match nodes with
  | [] => Ok tt
  | node :: nodes =>
      let! _ := match ValidateNode (Some node) with
                | Ok _ => Ok tt
                | Err field => Err (ErrInvalidNode index field)
                end in
      guard! negb (bool_decide (o_Id node ∈ seen)) else ErrInvalidClusterSnapshot (o_Id node) in
      validateNodes (S index) (o_Id node :: seen) nodes
  end.

Definition ClusterSnapshot_Validate (snapshot : ClusterSnapshot) : result os_error unit :=
  let! _ := validateNodes 0 [] (c_Nodes snapshot) in
  if bool_decide (c_LeaderNodeID snapshot = "") then Ok tt
  else wrap ErrInvalidClusterSnapshot (validateID "leader_node_id" (c_LeaderNodeID snapshot)).

Definition aliveNodesSorted (nodes : list Node) : list Node :=
  sort_by o_Id (List.filter o_Alive nodes).

(** A key the node lacks reads as the empty string. *)
Definition hasExactLabels (actual required : gmap string string) : bool :=
  bool_decide (map_Forall (fun key expected => default "" (actual !! key) = expected) required).

Definition find_node (id : string) (nodes : list Node) : option Node :=
  List.find (fun node => bool_decide (o_Id node = id)) nodes.

Definition ResolvePlacement (deployment : Deployment) (snapshot : ClusterSnapshot)
  : result os_error (list Node) :=
  let! _ := Deployment_Validate deployment in
  let! _ := ClusterSnapshot_Validate snapshot in
  if bool_decide (d_DesiredState deployment = DesiredStateStopped) then Ok []
  else
    guard! c_Authoritative snapshot else ErrNotAuthoritative in
    guard! c_HasQuorum snapshot else ErrNoQuorum in
    let alive := aliveNodesSorted (c_Nodes snapshot) in
    guard! negb (bool_decide (c_LeaderNodeID snapshot = "")) else ErrLeaderUnavailable "" in
    match find_node (c_LeaderNodeID snapshot) alive with
    | None => Err (ErrLeaderUnavailable (c_LeaderNodeID snapshot))
    | Some leader =>
        match ExactNode (d_Placement deployment), Leader (d_Placement deployment),
              MatchLabels (d_Placement deployment) with
        | Some nodeID, _, _ =>
            match find_node nodeID alive with
            | Some node => Ok [node]
            | None => Err (ErrPlacementUnsatisfied nodeID)
            end
        | None, Some _, _ => Ok [leader]
        | None, None, Some policy =>
            let matches :=
              List.filter (fun node => hasExactLabels (o_Labels node) (l_Labels policy)) alive in
            guard! negb (Z.of_nat (length matches) <? l_Replicas policy)
              else ErrPlacementUnsatisfied "match_labels" in
            Ok (take (Z.to_nat (l_Replicas policy)) matches)
        | None, None, None => Err (ErrInvalidPlacement "")
        end
    end.
Close Scope Z_scope.

(** ** Placement *)

Open Scope Z_scope.

Lemma wrap_ok {A} sentinel (r : result string A) a : wrap sentinel r = Ok a <-> r = Ok a.
Proof. destruct r; naive_solver. Qed.

#[local] Opaque ValidateNode.
Lemma validateNodes_ok nodes : forall index seen, validateNodes index seen nodes = Ok tt <->
  Forall (fun node => ValidateNode (Some node) = Ok tt) nodes
  /\ NoDup (o_Id <$> nodes) /\ (forall node, node ∈ nodes -> o_Id node ∉ seen).
Proof.
  induction nodes as [|node nodes IH]; intros index seen.
  { split; [|done]. intros _. split; [constructor|]. split; [constructor|].
    by intros node ?%elem_of_nil. }
  cbn [validateNodes]. rewrite bind_ok. destruct (ValidateNode (Some node)) as [[]|f] eqn:E.
  2:{ split; [by intros (u & [=] & _)|]. intros [H _]. apply Forall_cons in H as [H _]. congruence. }
  setoid_rewrite guard_ok. setoid_rewrite IH. rewrite Forall_cons, fmap_cons, NoDup_cons.
  setoid_rewrite negb_decide. setoid_rewrite list_elem_of_fmap. split.
  - intros (_ & _ & Hs & Hall & Hnd & Hseen). split; [done|]. split.
    + split; [|done]. intros (n & E' & Hn). apply (Hseen n Hn). rewrite <-E'. by left.
    + intros n [->|Hn]%elem_of_cons; [done|]. intros H. apply (Hseen n Hn). by right.
  - intros ([_ Hall] & (Hni & Hnd) & Hseen). exists tt. split; [done|]. split.
    { apply Hseen. by left. }
    split; [done|]. split; [done|]. intros n Hn [E'|H]%elem_of_cons.
    + apply Hni. by exists n.
    + by apply (Hseen n); [right|].
Qed.

Lemma ClusterSnapshot_Validate_ok s : ClusterSnapshot_Validate s = Ok tt ->
  Forall (fun node => ValidateNode (Some node) = Ok tt) (c_Nodes s)
  /\ NoDup (o_Id <$> c_Nodes s).
Proof. intros (u & Hn & _)%bind_ok. destruct u. apply validateNodes_ok in Hn. tauto. Qed.

Lemma find_node_Some id nodes node : find_node id nodes = Some node ->
  node ∈ nodes /\ o_Id node = id.
Proof.
  intros [H1 H2]%List.find_some. apply bool_decide_eq_true in H2.
  by rewrite <-list_elem_of_In in H1.
Qed.

Lemma aliveNodesSorted_elem nodes node :
  node ∈ aliveNodesSorted nodes <-> node ∈ nodes /\ o_Alive node = true.
Proof.
  unfold aliveNodesSorted. rewrite sort_by_elem.
  by rewrite list_elem_of_In, List.filter_In, list_elem_of_In.
Qed.

(** Sublists of nodes with distinct identities. *)
Lemma NoDup_sublist_fmap {A B} (f : A -> B) (k l : list A) :
  sublist k l -> NoDup (f <$> l) -> NoDup (f <$> k).
Proof.
  induction 1 as [|x k l H IH|x k l H IH]; [done|..]; rewrite !fmap_cons, !NoDup_cons.
  - intros [Hn Hd]. split; [|auto]. rewrite list_elem_of_fmap in *.
    intros (y & E & Hy). apply Hn. exists y. split; [done|]. by eapply elem_of_sublist.
  - intros [_ Hd]. auto.
Qed.
Lemma filter_sublist {A} (f : A -> bool) l : sublist (List.filter f l) l.
Proof. induction l as [|x l IH]; [constructor|]. cbn. destruct (f x); by constructor. Qed.

Lemma aliveNodesSorted_perm nodes nodes' : NoDup (o_Id <$> nodes) -> nodes ≡ₚ nodes' ->
  aliveNodesSorted nodes = aliveNodesSorted nodes'.
Proof.
  intros Hnd Hp. unfold aliveNodesSorted. apply sort_by_unique.
  - eapply NoDup_sublist_fmap; [apply filter_sublist|done].
  - rewrite sort_by_perm. clear Hnd. induction Hp; cbn.
    + done.
    + destruct (o_Alive x); by rewrite ?IHHp.
    + destruct (o_Alive x), (o_Alive y); try done. by constructor.
    + by etransitivity.
  - apply sort_by_sorted.
Qed.

(** Labels that pass validation have no empty values, so reading a missing key as the
    empty string cannot match. *)
Lemma hasExactLabels_subset actual required u :
  validateLabels "match_labels.labels" required true = Ok u ->
  hasExactLabels actual required = true <-> required ⊆ actual.
Proof.
  intros (_ & (Hl & _)%guard_ok)%guard_ok. apply bool_decide_eq_true in Hl.
  unfold hasExactLabels. rewrite bool_decide_eq_true, map_subseteq_spec. split.
  - intros H key value Hk. specialize (H key value Hk). cbn in H.
    specialize (Hl key value Hk). cbn in Hl. rewrite !andb_true_iff, !negb_decide in Hl.
    destruct (actual !! key); cbn in H; naive_solver.
  - intros H key value Hk. by rewrite (H key value Hk).
Qed.

Lemma take_sorted_least {A} (key : A -> string) (l : list A) k x y :
  StronglySorted (key_le key) l -> x ∈ take k l -> y ∈ drop k l -> key_le key x y.
Proof.
  rewrite <-(take_drop k l) at 1. intros Hs Hx Hy.
  induction (take k l) as [|a m IH]; [by apply elem_of_nil in Hx|].
  cbn in Hs. apply StronglySorted_inv in Hs as [Hs Ha]. apply elem_of_cons in Hx as [->|Hx].
  - rewrite Forall_app, Forall_forall in Ha. destruct Ha as [_ Ha].
    rewrite Forall_forall in Ha. by apply Ha.
  - by apply IH.
Qed.

Lemma filter_strongly_sorted {A} (R : A -> A -> Prop) (f : A -> bool) l :
  StronglySorted R l -> StronglySorted R (List.filter f l).
Proof.
  induction 1 as [|x l Hs IH Hx]; cbn; [constructor|]. destruct (f x); [|done].
  constructor; [done|]. rewrite Forall_forall in *. intros y Hy.
  apply Hx. rewrite list_elem_of_In, List.filter_In, <-list_elem_of_In in Hy. tauto.
Qed.

(** What the placement policy asks of the targets. *)
Definition follows_policy (d : Deployment) (s : ClusterSnapshot) (targets : list Node) : Prop :=
  match ExactNode (d_Placement d), Leader (d_Placement d), MatchLabels (d_Placement d) with
  | Some nodeID, _, _ => o_Id <$> targets = [nodeID]
  | None, Some _, _ => o_Id <$> targets = [c_LeaderNodeID s]
  | None, None, Some policy =>
      Z.of_nat (length targets) = l_Replicas policy
      /\ (forall node, node ∈ targets -> l_Labels policy ⊆ o_Labels node)
      /\ forall node other, node ∈ targets -> other ∈ c_Nodes s -> o_Alive other = true ->
           l_Labels policy ⊆ o_Labels other -> other ∉ targets ->
           String.le (o_Id node) (o_Id other)
  | None, None, None => False
  end.

(** The branches of a placement that succeeds. *)
Lemma ResolvePlacement_ok d s targets : ResolvePlacement d s = Ok targets ->
  d_DesiredState d = DesiredStateRunning ->
  Deployment_Validate d = Ok tt /\ ClusterSnapshot_Validate s = Ok tt
  /\ c_Authoritative s = true /\ c_HasQuorum s = true
  /\ exists leader, find_node (c_LeaderNodeID s) (aliveNodesSorted (c_Nodes s)) = Some leader
  /\ match ExactNode (d_Placement d), Leader (d_Placement d), MatchLabels (d_Placement d) with
     | Some nodeID, _, _ => exists node,
         find_node nodeID (aliveNodesSorted (c_Nodes s)) = Some node /\ targets = [node]
     | None, Some _, _ => targets = [leader]
     | None, None, Some policy =>
         let matches := List.filter (fun node => hasExactLabels (o_Labels node)
                          (l_Labels policy)) (aliveNodesSorted (c_Nodes s)) in
         l_Replicas policy <= Z.of_nat (length matches)
         /\ targets = take (Z.to_nat (l_Replicas policy)) matches
     | None, None, None => False
     end.
Proof.
  intros (u & Hd & H)%bind_ok Hr. destruct u. apply bind_ok in H as (u & Hs & H). destruct u.
  rewrite Hr, bool_decide_false in H by done.
  apply guard_ok in H as [Ha H]. apply guard_ok in H as [Hq H]. apply guard_ok in H as [_ H].
  do 4 (split; [done|]). destruct (find_node (c_LeaderNodeID s) _) as [leader|]; [|done].
  exists leader. split; [done|].
  destruct (ExactNode (d_Placement d)) as [nodeID|].
  { destruct (find_node nodeID _) as [node|]; [|done]. injection H as <-. eauto. }
  destruct (Leader (d_Placement d)); [by injection H as <-|].
  destruct (MatchLabels (d_Placement d)) as [policy|]; [|done].
  apply guard_ok in H as [Hn [= <-]]. apply negb_true_iff, Z.ltb_ge in Hn. done.
Qed.

Lemma matchLabels_validated d policy : Deployment_Validate d = Ok tt ->
  MatchLabels (d_Placement d) = Some policy ->
  validateLabels "match_labels.labels" (l_Labels policy) true = Ok tt
  /\ 1 <= l_Replicas policy.
Proof.
  intros H Hm. unfold Deployment_Validate in H.
  do 2 (apply bind_ok in H as (? & _ & H)). apply guard_ok in H as [_ H].
  apply bind_ok in H as ([] & H & _).
  assert (Placement_Validate (d_Placement d) = Ok tt) as Hp
    by (by destruct (Placement_Validate _) as [[]|[]]).
  unfold Placement_Validate in Hp. apply guard_ok in Hp as [_ Hp].
  apply bind_ok in Hp as (? & _ & Hp). rewrite Hm in Hp.
  apply bind_ok in Hp as ([] & Hl & Hp). apply wrap_ok in Hl.
  apply guard_ok in Hp as [Hr _]. apply negb_true_iff, Z.ltb_ge in Hr. done.
Qed.

Lemma ResolvePlacement_distinct d s targets : ResolvePlacement d s = Ok targets ->
  d_DesiredState d = DesiredStateRunning -> NoDup (o_Id <$> targets).
Proof.
  intros Hok Hrun. pose proof (ResolvePlacement_ok _ _ _ Hok Hrun)
    as (Hd & Hs & _ & _ & leader & _ & Hbranch).
  apply ClusterSnapshot_Validate_ok in Hs as [_ Hnd].
  assert (NoDup (o_Id <$> aliveNodesSorted (c_Nodes s))) as Ha.
  { unfold aliveNodesSorted. eapply (NoDup_sublist_fmap o_Id) in Hnd; [|apply (filter_sublist o_Alive)].
    by rewrite sort_by_perm. }
  destruct (ExactNode (d_Placement d)); [destruct Hbranch as (node & _ & ->); apply NoDup_singleton|].
  destruct (Leader (d_Placement d)); [subst; apply NoDup_singleton|].
  destruct (MatchLabels (d_Placement d)); [|done]. destruct Hbranch as [_ ->].
  eapply NoDup_sublist_fmap; [etransitivity; [apply sublist_take|apply filter_sublist]|done].
Qed.

(** Where the targets come from: one alive node, or a part of those that match. *)
Lemma placement_alive d s targets : ResolvePlacement d s = Ok targets ->
  d_DesiredState d = DesiredStateRunning ->
  targets <> [] /\ forall node, node ∈ targets -> node ∈ aliveNodesSorted (c_Nodes s).
Proof.
  intros Hok Hrun. pose proof (ResolvePlacement_ok _ _ _ Hok Hrun)
    as (Hd & _ & _ & _ & leader & Hl & Hbranch).
  assert (forall node, node ∈ aliveNodesSorted (c_Nodes s) ->
    [node] <> [] /\ forall n, n ∈ [node] -> n ∈ aliveNodesSorted (c_Nodes s)) as Hone.
  { intros node Hn. split; [done|]. by intros n ->%list_elem_of_singleton. }
  destruct (ExactNode (d_Placement d)).
  { destruct Hbranch as (node & Hn & ->). apply Hone. by apply find_node_Some in Hn as [? _]. }
  destruct (Leader (d_Placement d)).
  { subst. apply Hone. by apply find_node_Some in Hl as [? _]. }
  destruct (MatchLabels (d_Placement d)) as [policy|] eqn:Em; [|done].
  destruct Hbranch as [Hn ->]. destruct (matchLabels_validated _ _ Hd Em) as [_ Hr]. split.
  - intros E. apply (f_equal length) in E. rewrite length_take in E. cbn in E. lia.
  - intros node Hnode. eapply elem_of_sublist; [exact Hnode|].
    etransitivity; [apply sublist_take|apply filter_sublist].
Qed.

Lemma placement_policy d s targets : ResolvePlacement d s = Ok targets ->
  d_DesiredState d = DesiredStateRunning -> follows_policy d s targets.
Proof.
  intros Hok Hrun. pose proof (ResolvePlacement_ok _ _ _ Hok Hrun)
    as (Hd & _ & _ & _ & leader & Hl & Hbranch).
  pose proof (find_node_Some _ _ _ Hl) as [_ Hlid].
  unfold follows_policy. destruct (ExactNode (d_Placement d)) as [nodeID|].
  { destruct Hbranch as (node & Hn & ->). apply find_node_Some in Hn as [_ <-]. done. }
  destruct (Leader (d_Placement d)); [subst; by rewrite <-Hlid|].
  destruct (MatchLabels (d_Placement d)) as [policy|] eqn:Em; [|done].
  destruct Hbranch as [Hn ->]. destruct (matchLabels_validated _ _ Hd Em) as [Hv Hr].
  set (f := fun node => hasExactLabels (o_Labels node) (l_Labels policy)) in *.
  assert (forall node, node ∈ List.filter f (aliveNodesSorted (c_Nodes s)) <->
    (node ∈ c_Nodes s /\ o_Alive node = true) /\ l_Labels policy ⊆ o_Labels node) as Hin.
  { intros node. rewrite list_elem_of_In, List.filter_In, <-list_elem_of_In.
    rewrite aliveNodesSorted_elem. unfold f. by rewrite hasExactLabels_subset. }
  split; [rewrite length_take; lia|]. split.
  - intros node Hnode. eapply Hin, elem_of_sublist; [done|apply sublist_take].
  - intros node other Hnode Ho Hoa Hol Hnot.
    apply (take_sorted_least o_Id (List.filter f (aliveNodesSorted (c_Nodes s)))
             (Z.to_nat (l_Replicas policy))); [|done|].
    + apply filter_strongly_sorted, sort_by_sorted.
    + assert (other ∈ List.filter f (aliveNodesSorted (c_Nodes s))) as H by by apply Hin.
      rewrite <-(take_drop (Z.to_nat (l_Replicas policy)) (List.filter f _)) in H.
      by apply elem_of_app in H as [H|H].
Qed.

Lemma stateful_is_exact d : Deployment_Validate d = Ok tt -> d_Stateful d = true ->
  is_Some (ExactNode (d_Placement d)).
Proof.
  intros Hd Hst. unfold Deployment_Validate in Hd.
  do 2 (apply bind_ok in Hd as (? & _ & Hd)). apply guard_ok in Hd as [_ Hd].
  apply bind_ok in Hd as (? & _ & Hd). apply guard_ok in Hd as [Hd _].
  rewrite Hst in Hd. destruct (ExactNode (d_Placement d)); [by eexists|done].
Qed.

Lemma placement_order d s nodes : ClusterSnapshot_Validate s = Ok tt -> nodes ≡ₚ c_Nodes s ->
  ResolvePlacement d (mkClusterSnapshot nodes (c_LeaderNodeID s) (c_Authoritative s)
                        (c_HasQuorum s)) = ResolvePlacement d s.
Proof.
  intros Hs Hp. pose proof (ClusterSnapshot_Validate_ok _ Hs) as [_ Hnd].
  unfold ResolvePlacement. cbn [c_Nodes c_LeaderNodeID c_Authoritative c_HasQuorum].
  rewrite (aliveNodesSorted_perm nodes (c_Nodes s)); [|by rewrite Hp|done].
  assert (ClusterSnapshot_Validate (mkClusterSnapshot nodes (c_LeaderNodeID s)
    (c_Authoritative s) (c_HasQuorum s)) = ClusterSnapshot_Validate s) as ->; [|done].
  unfold ClusterSnapshot_Validate in *. cbn [c_Nodes c_LeaderNodeID].
  apply bind_ok in Hs as ([] & Hn & _).
  rewrite Hn. assert (validateNodes 0 [] nodes = Ok tt) as ->; [|done].
  apply validateNodes_ok in Hn as (H1 & H2 & H3). apply validateNodes_ok.
  split; [by rewrite Hp|]. split; [by rewrite Hp|]. intros n _; apply not_elem_of_nil.
Qed.

(** C29: a placement is complete, follows the policy, and does not depend on the order of
    the nodes.  When a running deployment is placed, the view was authoritative with a
    quorum and an elected leader that is alive; the targets are distinct alive nodes of the
    view, at least one; exactly the named node, exactly the leader, or as many replicas as
    asked, all with every required label, taken from the least identities of those that
    match; a stateful deployment has a named node.  Any order of the same nodes gives the
    same targets. *)
Theorem placement_follows_policy (d : Deployment) (s : ClusterSnapshot) (targets : list Node)
  (Hok : ResolvePlacement d s = Ok targets) (Hrun : d_DesiredState d = DesiredStateRunning) :
  c_Authoritative s = true /\ c_HasQuorum s = true
  /\ (exists leader, leader ∈ c_Nodes s /\ o_Alive leader = true
        /\ o_Id leader = c_LeaderNodeID s)
  /\ targets <> [] /\ NoDup (o_Id <$> targets)
  /\ (forall node, node ∈ targets -> node ∈ c_Nodes s /\ o_Alive node = true)
  /\ follows_policy d s targets
  /\ (d_Stateful d = true -> is_Some (ExactNode (d_Placement d)))
  /\ forall nodes, nodes ≡ₚ c_Nodes s ->
       ResolvePlacement d (mkClusterSnapshot nodes (c_LeaderNodeID s) (c_Authoritative s)
                             (c_HasQuorum s)) = Ok targets.
Proof.
  pose proof (ResolvePlacement_ok _ _ _ Hok Hrun) as (Hd & Hs & Ha & Hq & leader & Hl & _).
  pose proof (placement_alive _ _ _ Hok Hrun) as [Hne Hal].
  apply find_node_Some in Hl as [Hle%aliveNodesSorted_elem Hlid].
  split; [done|]. split; [done|]. split; [exists leader; naive_solver|]. split; [done|].
  split; [by eapply ResolvePlacement_distinct|].
  split; [intros node Hn; by apply aliveNodesSorted_elem, Hal|].
  split; [by apply placement_policy|]. split; [by apply stateful_is_exact|].
  intros nodes Hp. by rewrite placement_order.
Qed.

(** Two replicas of three candidates; [db-3] is down. *)
Definition demo_fleet : list Node :=
  [mkOsNode "web-2" {["disk" := "ssd"; "zone" := "a"]} true;
   mkOsNode "db-3" {["disk" := "ssd"]} false;
   mkOsNode "web-1" {["disk" := "ssd"]} true;
   mkOsNode "edge-4" {["disk" := "hdd"]} true].
Definition demo_deployment : Deployment :=
  mkDeployment "shop" "shop-rev" DesiredStateRunning
    (mkPlacement None None (Some (mkMatchLabels {["disk" := "ssd"]} 2))) false.

Lemma placement_follows_policy_witness :
  exists targets, ResolvePlacement demo_deployment (mkClusterSnapshot demo_fleet "edge-4" true true)
                  = Ok targets
    /\ o_Id <$> targets = ["web-1"; "web-2"] /\ NoDup (o_Id <$> targets)
    /\ follows_policy demo_deployment (mkClusterSnapshot demo_fleet "edge-4" true true) targets.
Proof.
  destruct (ResolvePlacement demo_deployment (mkClusterSnapshot demo_fleet "edge-4" true true))
    as [targets|e] eqn:E; [|vm_compute in E; discriminate E].
  exists targets. split; [reflexivity|].
  destruct (placement_follows_policy _ _ _ E eq_refl) as (_ & _ & _ & _ & Hnd & _ & Hp & _).
  split; [|split; [exact Hnd|exact Hp]]. vm_compute in E. injection E as <-. reflexivity.
Defined.
Close Scope Z_scope.
