(* ===== verification/OsReceipts.v ===== *)
(** * CandaceOS: the history of a run

    [services/candaceos]: run.go, approval.go and receipt.go.  A status is its string, a
    [*time.Time] an [option]; a log is the sequence of receipts its one operation has
    appended. *)
From Stdlib Require Import Ascii.
From S2P Require Import Prelude.
From S2P Require Import GoStd.
From S2P Require Import GoText.
From S2P Require Import OsContract.
From S2P Require Import OsTypes.

Open Scope Z_scope.

(** ** run.go *)

Definition RunStatusQueued : string := "queued".
Definition RunStatusAwaitingApproval : string := "awaiting_approval".
Definition RunStatusRunning : string := "running".
Definition RunStatusSucceeded : string := "succeeded".
Definition RunStatusFailed : string := "failed".
Definition RunStatusCanceled : string := "canceled".

Record Run := mkRun {
  r_ID : string;
  r_DeploymentID : string;
  r_AppRevisionID : string;
  r_NodeID : string;
  r_Status : string;
  r_RequestedAt : Time.t;
  r_StartedAt : option Time.t;
  r_FinishedAt : option Time.t;
}.

Definition present {A} (o : option A) : bool := bool_decide (is_Some o).

(** [x != nil && x.Before(y)] *)
Definition before_opt (x : option Time.t) (y : Time.t) : bool :=
  match x with Some x => Time.Before x y | None => false end.

Definition Run_Validate (run : Run) : result os_error unit :=
  wrap ErrInvalidRun (
    let! _ := validateID "id" (r_ID run) in
    let! _ := validateID "deployment_id" (r_DeploymentID run) in
    let! _ := validateID "app_revision_id" (r_AppRevisionID run) in
    let! _ := validateID "node_id" (r_NodeID run) in
    guard! negb (Time.IsZero (r_RequestedAt run)) else "requested_at" in
    guard! negb (before_opt (r_StartedAt run) (r_RequestedAt run)) else "started_at" in
    guard! negb (before_opt (r_FinishedAt run) (r_RequestedAt run)) else "finished_at" in
    guard! negb match r_StartedAt run with
                | Some started => before_opt (r_FinishedAt run) started
                | None => false
                end else "finished_at" in
    let started := present (r_StartedAt run) in
    let finished := present (r_FinishedAt run) in
    if bool_decide (r_Status run ∈ [RunStatusQueued; RunStatusAwaitingApproval]) then
      guard! negb (started || finished) else "status" in Ok tt
    else if bool_decide (r_Status run = RunStatusRunning) then
      guard! negb (negb started || finished) else "status" in Ok tt
    else if bool_decide (r_Status run ∈ [RunStatusSucceeded; RunStatusFailed]) then
      guard! negb (negb started || negb finished) else "status" in Ok tt
    else if bool_decide (r_Status run = RunStatusCanceled) then
      guard! finished else "status" in Ok tt
    else Err "status").

(** ** approval.go *)

Definition ApprovalPending : string := "pending".
Definition ApprovalApproved : string := "approved".
Definition ApprovalDenied : string := "denied".

Record Approval := mkApproval {
  w_ID : string;
  w_RunID : string;
  w_Action : string;
  w_Decision : string;
  w_RequestedAt : Time.t;
  w_DecidedAt : option Time.t;
  w_DecidedBy : string;
  w_Reason : string;
}.

Definition Approval_Validate (approval : Approval) : result os_error unit :=
  wrap ErrInvalidApproval (
    let! _ := validateID "id" (w_ID approval) in
    let! _ := validateID "run_id" (w_RunID approval) in
    guard! negb (bool_decide (w_Action approval = "")) else "action" in
    guard! negb (Time.IsZero (w_RequestedAt approval)) else "requested_at" in
    if bool_decide (w_Decision approval = ApprovalPending) then
      guard! negb (present (w_DecidedAt approval)
                   || negb (bool_decide (w_DecidedBy approval = ""))
                   || negb (bool_decide (w_Reason approval = ""))) else "decision" in
      Ok tt
    else if bool_decide (w_Decision approval ∈ [ApprovalApproved; ApprovalDenied]) then
      match w_DecidedAt approval with
      | None => Err "decided_at"
      | Some at_ =>
          guard! negb (Time.Before at_ (w_RequestedAt approval)) else "decided_at" in
          validateID "decided_by" (w_DecidedBy approval)
      end
    else Err "decision").

(** ** receipt.go *)

Definition ReceiptRunQueued : string := "run.queued".
Definition ReceiptApprovalRequested : string := "approval.requested".
Definition ReceiptApprovalApproved : string := "approval.approved".
Definition ReceiptApprovalDenied : string := "approval.denied".
Definition ReceiptRunStarted : string := "run.started".
Definition ReceiptRunSucceeded : string := "run.succeeded".
Definition ReceiptRunFailed : string := "run.failed".
Definition ReceiptRunCanceled : string := "run.canceled".

(** [^[a-z][a-z0-9]*(?:[._-][a-z0-9]+)*$] *)
Import Regexp.
Definition receiptKindPattern : Regexp.t :=
  Cat (Class [("a"%char, "z"%char)])
    (Cat (Star (Class lower))
       (Star (Cat (Class (one <$> ["."; "_"; "-"]%char)) (Plus (Class lower))))).

Record Receipt := mkReceipt {
  x_ID : string;
  x_RunID : string;
  x_Sequence : N;
  x_Kind : string;
  x_At : Time.t;
  x_Summary : string;
}.

Definition Receipt_Validate (receipt : Receipt) : result os_error unit :=
  wrap ErrInvalidReceipt (
    let! _ := validateID "id" (x_ID receipt) in
    let! _ := validateID "run_id" (x_RunID receipt) in
    guard! negb (x_Sequence receipt =? 0)%N else "sequence" in
    guard! MatchString receiptKindPattern (x_Kind receipt) else "kind" in
    guard! negb (Time.IsZero (x_At receipt)) else "at" in
    guard! negb (bool_decide (x_Summary receipt = "")) else "summary" in
    Ok tt).

Record ReceiptLog := mkLog { runID : string; entries : list Receipt }.

Definition NewReceiptLog (runID : string) : result os_error ReceiptLog :=
  let! _ := wrap ErrReceiptAppend (validateID "run_id" runID) in
  Ok {| runID := runID; entries := [] |}.

(** [log.Append(receipt)]; a nil log refuses everything. *)
Definition Append (receipt : Receipt) (log : option ReceiptLog) : result os_error ReceiptLog :=
  match log with
  | None => Err (ErrReceiptAppend "log")
  | Some log =>
      let! _ := match Receipt_Validate receipt with
                | Err (ErrInvalidReceipt what) => Err (ErrReceiptAppend what)
                | r => r
                end in
      guard! bool_decide (x_RunID receipt = runID log) else ErrReceiptAppend "run_id" in
      let expected := u64_add (N.of_nat (length (entries log))) 1 in
      guard! (x_Sequence receipt =? expected)%N else ErrReceiptAppend "sequence" in
      guard! negb (existsb (fun existing => bool_decide (x_ID existing = x_ID receipt))
                     (entries log)) else ErrReceiptAppend "id" in
      guard! negb match last (entries log) with
                  | Some previous => Time.Before (x_At receipt) (x_At previous)
                  | None => false
                  end else ErrReceiptAppend "at" in
      Ok {| runID := runID log; entries := entries log ++ [receipt] |}
  end.

Fixpoint appendAll (receipts : list Receipt) (log : ReceiptLog) : result os_error ReceiptLog :=
  match receipts with
  | [] => Ok log
  | receipt :: receipts => let! log := Append receipt (Some log) in appendAll receipts log
  end.

Definition RestoreReceiptLog (runID : string) (receipts : list Receipt)
  : result os_error ReceiptLog :=
  let! log := NewReceiptLog runID in appendAll receipts log.

Definition Entries (log : option ReceiptLog) : list Receipt :=
  match log with Some log => entries log | None => [] end.
Definition Len (log : option ReceiptLog) : nat := length (Entries log).

(** ** What any use of a log keeps *)

(** One call, whatever it returns, of a program that keeps the log it has. *)
Definition offer (log : ReceiptLog) (receipt : Receipt) : ReceiptLog :=
  match Append receipt (Some log) with Ok log => log | Err _ => log end.

Record well_kept (log : ReceiptLog) : Prop := {
  wk_run : validateID "run_id" (runID log) = Ok tt;
  wk_valid : Forall (fun r => Receipt_Validate r = Ok tt /\ x_RunID r = runID log) (entries log);
  wk_numbered i r : entries log !! i = Some r -> x_Sequence r = N.of_nat (i + 1);
  wk_distinct : NoDup (x_ID <$> entries log);
  wk_ordered : StronglySorted (fun r r' => x_At r <= x_At r') (entries log);
}.

Lemma Append_ok receipt log log' : Append receipt (Some log) = Ok log' <->
  (Receipt_Validate receipt = Ok tt /\ x_RunID receipt = runID log)
  /\ x_Sequence receipt = u64_add (N.of_nat (length (entries log))) 1
  /\ (x_ID receipt ∉ x_ID <$> entries log)
  /\ (forall previous, last (entries log) = Some previous -> x_At previous <= x_At receipt)
  /\ log' = mkLog (runID log) (entries log ++ [receipt]).
Proof.
  cbn [Append].
  assert (forall u, match Receipt_Validate receipt with
                    | Err (ErrInvalidReceipt what) => Err (ErrReceiptAppend what) | r => r end
                    = Ok u <-> Receipt_Validate receipt = Ok tt) as Hv.
  { intros []. destruct (Receipt_Validate receipt) as [[]|[]]; naive_solver. }
  assert (existsb (fun existing => bool_decide (x_ID existing = x_ID receipt)) (entries log)
          = false <-> x_ID receipt ∉ x_ID <$> entries log) as Hid.
  { rewrite <-not_true_iff_false, existsb_exists, list_elem_of_fmap.
    setoid_rewrite bool_decide_eq_true. setoid_rewrite list_elem_of_In. naive_solver. }
  assert (match last (entries log) with
          | Some previous => Time.Before (x_At receipt) (x_At previous) | None => false end
          = false <->
          forall previous, last (entries log) = Some previous ->
            x_At previous <= x_At receipt) as Hat.
  { destruct (last (entries log)) as [p|]; [|naive_solver]. unfold Time.Before.
    rewrite Z.ltb_ge. naive_solver. }
  split.
  - intros (u & Hval & H)%bind_ok. apply Hv in Hval. apply guard_ok in H as [Hr H].
    apply guard_ok in H as [Hs H]. apply guard_ok in H as [Hi H]. apply guard_ok in H as [Ha H].
    apply bool_decide_eq_true in Hr. apply N.eqb_eq in Hs. apply negb_true_iff in Hi, Ha.
    injection H as <-. split; [done|]. split; [done|]. split; [by apply Hid|].
    split; [by apply Hat|done].
  - intros ((Hval & Hr) & Hs & Hi & Ha & ->). apply bind_ok. exists tt.
    split; [by apply Hv|]. rewrite !guard_ok. apply Hid in Hi. apply Hat in Ha.
    rewrite bool_decide_eq_true, N.eqb_eq, Hi, Ha. done.
Qed.

Lemma Append_keeps receipt log log' : Append receipt (Some log) = Ok log' ->
  well_kept log -> Z.of_nat (length (entries log)) < 2 ^ 64 - 1 -> well_kept log'.
Proof.
  intros (Hv & Hseq & Hid & Hat & ->)%Append_ok [Hrun Hval Hnum Hd Hord] Hlen. split; cbn.
  - done.
  - apply Forall_app_2; [done|by constructor].
  - intros i r Hi. apply lookup_app_Some in Hi as [Hi|[Hi Hr]]; [by apply Hnum|].
    apply list_lookup_singleton_Some in Hr as [Hr <-]. rewrite Hseq, u64_add_no_overflow.
    + lia.
    + unfold max_uint64. lia.
  - rewrite fmap_app. apply NoDup_app. split; [done|]. split; [|apply NoDup_singleton].
    intros x Hx ->%list_elem_of_singleton. by apply Hid.
  - clear -Hord Hat. induction (entries log) as [|r l IH]; cbn; [by repeat constructor|].
    apply StronglySorted_inv in Hord as [Hord Hr]. constructor.
    + apply IH; [|done]. intros p Hp. apply Hat. destruct l; [done|exact Hp].
    + apply Forall_app_2; [done|]. constructor; [|constructor].
      destruct (last l) as [p|] eqn:El.
      * transitivity (x_At p); [|apply Hat; by rewrite last_cons, El].
        rewrite Forall_forall in Hr. by apply Hr, last_Some_elem_of.
      * apply Hat. by rewrite last_cons, El.
Qed.

Lemma offers_keep receipts : forall log,
  well_kept log -> Z.of_nat (length (entries log) + length receipts) < 2 ^ 64 ->
  well_kept (foldl offer log receipts)
  /\ exists more, entries (foldl offer log receipts) = entries log ++ more
                  /\ sublist more receipts /\ runID (foldl offer log receipts) = runID log.
Proof.
  induction receipts as [|r receipts IH]; intros log Hk Hlen; cbn in *.
  { split; [done|]. exists []. by rewrite app_nil_r. }
  assert (offer log r = match Append r (Some log) with Ok log => log | Err _ => log end)
    as -> by done.
  destruct (Append r (Some log)) as [log'|e] eqn:E.
  - pose proof (Append_keeps _ _ _ E Hk ltac:(lia)) as Hk'.
    apply Append_ok in E as (_ & _ & _ & _ & ->).
    destruct (IH (mkLog (runID log) (entries log ++ [r])) Hk') as (H1 & more & H2 & H3 & H4).
    { cbn. rewrite length_app. cbn. lia. }
    split; [|exists (r :: more)].
    + done.
    + cbn in *. rewrite H2, <-app_assoc. split; [done|]. split; [by constructor|done].
  - destruct (IH log Hk ltac:(lia)) as (H1 & more & H2 & H3 & H4). split; [done|].
    exists more. split; [done|]. split; [by constructor|done].
Qed.

(** Reading the entries of a well kept log back, one by one. *)
Lemma appendAll_well_kept receipts : forall log,
  well_kept (mkLog (runID log) (entries log ++ receipts)) ->
  Z.of_nat (length (entries log) + length receipts) < 2 ^ 64 ->
  appendAll receipts log = Ok (mkLog (runID log) (entries log ++ receipts)).
Proof.
  induction receipts as [|r receipts IH]; intros [run es] Hk Hlen; cbn [runID entries] in *.
  { by rewrite app_nil_r. }
  cbn [appendAll]. assert (Append r (Some (mkLog run es)) = Ok (mkLog run (es ++ [r]))) as ->.
  - apply Append_ok. cbn [runID entries]. destruct Hk as [Hrun Hval Hnum Hd Hord].
    cbn [runID entries] in *. apply Forall_app in Hval as [_ Hval].
    apply Forall_cons in Hval as [Hr _]. split; [done|]. split.
    { rewrite (Hnum (length es) r) by by rewrite list_lookup_middle.
      rewrite u64_add_no_overflow; [lia|]. unfold max_uint64. cbn in Hlen. lia. }
    rewrite fmap_app in Hd. apply NoDup_app in Hd as (_ & Hd & _). split.
    { intros Hin. apply (Hd _ Hin). by left. }
    split; [|done]. intros p Hp. apply last_Some in Hp as [l ->].
    rewrite <-app_assoc in Hord. clear -Hord. induction l as [|a l IH]; cbn in Hord.
    + apply StronglySorted_inv in Hord as [_ Hp]. by apply Forall_cons in Hp as [Hp _].
    + apply IH. by apply StronglySorted_inv in Hord as [H _].
  - cbn [result_bind]. rewrite IH; cbn [runID entries]; rewrite <-?app_assoc; [done|done|].
    rewrite length_app. cbn in *. lia.
Qed.

(** C32: a receipt log is an append-only history that survives a reload.  Whatever receipts
    are offered to a log, in any order and with whatever gaps, repetitions and foreign
    runs, what it held before stays in front; its entries are valid receipts of its run,
    numbered 1, 2, 3 without gaps, with distinct identities and in order of time; and
    [RestoreReceiptLog] accepts exactly that list and gives the log back. *)
Theorem receipt_log_survives (log : ReceiptLog) (receipts : list Receipt)
  (Hk : well_kept log) (Hlen : Z.of_nat (length (entries log) + length receipts) < 2 ^ 64) :
  let log' := foldl offer log receipts in
  well_kept log' /\ (exists more, entries log' = entries log ++ more)
  /\ RestoreReceiptLog (runID log') (entries log') = Ok log'.
Proof.
  intros log'. destruct (offers_keep receipts log Hk Hlen) as (Hk' & more & E & Hm & Hrun).
  fold log' in Hk', E, Hrun. split; [done|]. split; [by exists more|].
  apply sublist_length in Hm. assert (length (entries log') = length (entries log) + length more)%nat
    as Hl by by rewrite E, length_app.
  unfold RestoreReceiptLog, NewReceiptLog. rewrite (wk_run _ Hk'). cbn [wrap result_bind].
  rewrite appendAll_well_kept; cbn [runID entries app length]; [by destruct log'|by destruct log'|].
  lia.
Qed.

Definition demo_receipt (n : N) (id : string) (at_ : Time.t) : Receipt :=
  mkReceipt id "run-1" n "run.started" at_ "started".

Lemma receipt_log_survives_witness :
  let log := foldl offer (mkLog "run-1" [])
    [demo_receipt 1 "a" 5; demo_receipt 1 "b" 6; demo_receipt 2 "a" 6; demo_receipt 2 "c" 4;
     demo_receipt 2 "d" 7] in
  x_ID <$> entries log = ["a"; "d"] /\ RestoreReceiptLog (runID log) (entries log) = Ok log.
Proof.
  split; [vm_compute; reflexivity|].
  apply (receipt_log_survives (mkLog "run-1" []) [demo_receipt 1 "a" 5; demo_receipt 1 "b" 6;
    demo_receipt 2 "a" 6; demo_receipt 2 "c" 4; demo_receipt 2 "d" 7]).
  - split; cbn; [by vm_compute|constructor|by intros [|i] r|constructor|constructor].
  - vm_compute. reflexivity.
Defined.
Close Scope Z_scope.
