(* ===== verification/OsAgent.v ===== *)
(** * CandaceOS: the node agent

    [app/candaceos-agent/internal/agent]: types.go, store.go (the JSON shape of the state
    file and [FileStore]), runner.go ([Plan] and [Execute] of the Compose runner) and
    reconciler.go.  The file system, Git and the Compose processes are the environment of a
    request: which file names were found, which process failed, and how each write of the
    state file ended.  The state file is the record that [encoding/json] writes and reads
    back.  [ran] is what the process boundary was asked to run, with the request it was
    run for. *)
From Stdlib Require Import Ascii.
From S2P Require Import Prelude.
From S2P Require Import GoStd.
From S2P Require Import GoText.
From S2P Require Import OsContract.
From S2P Require Import OsTypes.

Open Scope Z_scope.

(** ** types.go *)

Record Snapshot := mkSnapshot {
  s_Fence : option Fence;
  s_Assignment : option Assignment;
  s_Commands : list Command;
  s_UpdatedAt : Time.t;
}.
#[export] Instance Rebuild_Snapshot : Rebuild Snapshot := fun s =>
  {| s_Fence := s_Fence s; s_Assignment := s_Assignment s; s_Commands := s_Commands s;
     s_UpdatedAt := s_UpdatedAt s |}.

Definition emptySnapshot : Snapshot :=
  {| s_Fence := None; s_Assignment := None; s_Commands := []; s_UpdatedAt := 0 |}.

(** ** store.go *)

Record persistedFence := mkPersistedFence { pf_Term : N; pf_LeaderID : string }.
Record persistedAssignment := mkPersistedAssignment {
  pa_App : string;
  pa_Project : string;
  pa_Path : string;
  pa_DesiredState : string;
  pa_SourceRevision : option string;
  pa_ContentSHA256 : option string;
}.
Record persistedSnapshot := mkPersisted {
  ps_Fence : option persistedFence;
  ps_Assignment : option persistedAssignment;
  ps_Commands : list Command;
  ps_UpdatedAt : option Time.t;
}.

Definition persistedDesiredState (state : Z) : string :=
  if state =? DESIRED_STATE_RUNNING then "running"
  else if state =? DESIRED_STATE_STOPPED then "stopped" else "".

Definition encodePersistedSnapshot (snapshot : Snapshot) : persistedSnapshot :=
  {| ps_Fence := (fun f => mkPersistedFence (f_Term f) (f_LeaderId f)) <$> s_Fence snapshot;
     ps_Assignment := (fun a =>
       {| pa_App := a_App a; pa_Project := a_Project a; pa_Path := a_Path a;
          pa_DesiredState := persistedDesiredState (a_DesiredState a);
          pa_SourceRevision := Some (a_SourceRevision a);
          pa_ContentSHA256 := Some (a_ContentSha256 a) |}) <$> s_Assignment snapshot;
     ps_Commands := s_Commands snapshot;
     ps_UpdatedAt := if Time.IsZero (s_UpdatedAt snapshot) then None
                     else Some (s_UpdatedAt snapshot) |}.

(** [strings.Repeat("0", n)] *)
Fixpoint zeros (n : nat) : string :=
  match n with O => "" | S n => String "0"%char (zeros n) end.

Definition decodePersistedAssignment (persisted : persistedAssignment) : Assignment * bool :=
  let desiredState :=
    if bool_decide (pa_DesiredState persisted = "running") then DESIRED_STATE_RUNNING
    else if bool_decide (pa_DesiredState persisted = "stopped") then DESIRED_STATE_STOPPED
    else DESIRED_STATE_UNSPECIFIED in
  let assignment :=
    {| a_App := pa_App persisted; a_Project := pa_Project persisted;
       a_Path := pa_Path persisted; a_DesiredState := desiredState;
       a_SourceRevision := default "" (pa_SourceRevision persisted);
       a_ContentSha256 := default "" (pa_ContentSHA256 persisted) |} in
  match pa_SourceRevision persisted, pa_ContentSHA256 persisted with
  | None, None =>
      let legacyProbe := assignment <| a_SourceRevision := zeros 40 |>
                                    <| a_ContentSha256 := "sha256:" +:+ zeros 64 |> in
      (assignment, is_ok (ValidateAssignment (Some legacyProbe)))
  | _, _ => (assignment, false)
  end.

(** What follows [json.Unmarshal] in [decodePersistedSnapshot]. *)
Definition decodePersistedSnapshot (persisted : persistedSnapshot) : Snapshot * bool :=
  let snapshot :=
    {| s_Fence := (fun f => mkFence (pf_Term f) (pf_LeaderID f)) <$> ps_Fence persisted;
       s_Assignment := None; s_Commands := ps_Commands persisted;
       s_UpdatedAt := default 0 (ps_UpdatedAt persisted) |} in
  match ps_Assignment persisted with
  | None => (snapshot, false)
  | Some a =>
      let '(assignment, legacy) := decodePersistedAssignment a in
      (snapshot <| s_Assignment := Some assignment |>, legacy)
  end.

(** How a write of the state file ends: installed; failed with the old file in place; or
    failed after the rename, when the directory could not be opened or synced. *)
Inductive write := Written | NotWritten | WrittenUnsynced.

Definition disk : Type := option persistedSnapshot.

Definition writeSnapshotAtomically (w : write) (snapshot : Snapshot) (d : disk) : disk * bool :=
  match w with
  | Written => (Some (encodePersistedSnapshot snapshot), true)
  | NotWritten => (d, false)
  | WrittenUnsynced => (Some (encodePersistedSnapshot snapshot), false)
  end.

Definition validatePersistedFence (snapshot : Snapshot) : result string unit :=
  match s_Fence snapshot with
  | None => Ok tt
  | Some fence => if (f_Term fence =? 0)%N then Ok tt else ValidateFence (Some fence)
  end.

Definition adoptLegacyFenceOnlySnapshot (w : write) (snapshot : Snapshot) (d : disk)
  : disk * result string (Snapshot * bool) :=
  let snapshot := snapshot <| s_Assignment := None |> <| s_Commands := [] |>
                           <| s_UpdatedAt := 0 |> in
  let '(d, ok) := writeSnapshotAtomically w snapshot d in
  (d, if ok then Ok (snapshot, true) else Err "adopting legacy state file").

Definition Load (w : write) (d : disk) : disk * result string (Snapshot * bool) :=
  match d with
  | None => (d, Ok (emptySnapshot, false))
  | Some persisted =>
      let '(snapshot, legacy) := decodePersistedSnapshot persisted in
      match validatePersistedFence snapshot with
      | Err what => (d, Err what)
      | Ok _ =>
          match s_Assignment snapshot with
          | None => (d, Ok (snapshot, true))
          | Some assignment =>
              if legacy then adoptLegacyFenceOnlySnapshot w snapshot d
              else match ValidateAssignment (Some assignment) with
                   | Err what => (d, Err what)
                   | Ok _ => (d, Ok (snapshot, true))
                   end
          end
      end
  end.

Definition Save (w : write) (snapshot : Snapshot) (d : disk) : disk * bool :=
  writeSnapshotAtomically w snapshot d.

(** ** runner.go *)

Record ComposeInvocation := mkInvocation { ci_Argv : list string; Directory : string }.

Record DockerComposeRunner := mkRunner {
  dockerBin : string;
  workspace : string;
  dryRun : bool;
}.

(** What the file system, Git and the processes do for one plan. *)
Record surroundings := mkSurroundings {
  stopFile : option string;       (* [writeStopComposeFile] *)
  revisionDir : option string;    (* [materializeRevision], in OsSource.v *)
  composeFile : option string;    (* [findComposeFileInMaterializedRevision] *)
  succeeds : ComposeInvocation -> bool;  (* [composeProcess.Run] *)
}.

Definition composePlan (r : DockerComposeRunner) (projectDirectory composeFile : string)
  (assignment : Assignment) (actionArguments : list string) : list Command :=
  let base := [dockerBin r; "compose"; "--project-directory"; projectDirectory;
               "--project-name"; a_Project assignment; "--file"; composeFile] in
  [mkCommand (base ++ ["config"; "--quiet"]); mkCommand (base ++ actionArguments)].

Definition planStoppedAssignment (r : DockerComposeRunner) (s : surroundings)
  (assignment : Assignment) : result string (list Command) :=
  match stopFile s with
  | None => Err "stop-plan"
  | Some file => Ok (composePlan r (workspace r) file assignment ["stop"; a_App assignment])
  end.

Definition planRunningAssignment (r : DockerComposeRunner) (s : surroundings)
  (assignment : Assignment) : result string (list Command) :=
  match revisionDir s with
  | None => Err "revision"
  | Some appDir =>
      match composeFile s with
      | None => Err "Compose file"
      | Some file => Ok (composePlan r appDir file assignment
                           ["up"; "-d"; "--remove-orphans"; a_App assignment])
      end
  end.

Definition Plan (r : DockerComposeRunner) (s : surroundings) (assignment : Assignment)
  : result string (list Command) :=
  let! _ := ValidateAssignment (Some assignment) in
  if a_DesiredState assignment =? DESIRED_STATE_STOPPED then planStoppedAssignment r s assignment
  else planRunningAssignment r s assignment.

Definition isDirectDockerCommand (r : DockerComposeRunner) (command : Command) : bool :=
  match Argv command with bin :: _ => bool_decide (bin = dockerBin r) | [] => false end.

Definition validatedComposeCommands (r : DockerComposeRunner) (plan : list Command)
  : result string (Command * Command) :=
  match plan with
  | [preflight; action] =>
      guard! isDirectDockerCommand r preflight else "invalid Compose preflight command" in
      guard! isDirectDockerCommand r action else "invalid Compose convergence command" in
      Ok (preflight, action)
  | _ => Err "invalid Compose plan"
  end.

Definition invocation_of (r : DockerComposeRunner) (command : Command) : ComposeInvocation :=
  {| ci_Argv := Argv command; Directory := workspace r |}.

(** The processes that are run, each with its outcome, and the result. *)
Definition Execute (r : DockerComposeRunner) (s : surroundings) (plan : list Command)
  : list (ComposeInvocation * bool) * result string unit :=
  match validatedComposeCommands r plan with
  | Err what => ([], Err what)
  | Ok (preflight, action) =>
      let p := invocation_of r preflight in
      if negb (succeeds s p) then ([(p, false)], Err "preflight")
      else if dryRun r then ([(p, true)], Ok tt)
      else
        let a := invocation_of r action in
        ([(p, true); (a, succeeds s a)],
         if succeeds s a then Ok tt else Err "convergence action")
  end.

(** ** reconciler.go *)

Inductive agent_error :=
| InvalidRequest (what : string)
| ErrStaleFence (got highest : N)
| ErrFenceConflict (term : N)
| ErrPersistence (what : string)
| PlanFailed (what : string)
| ErrExecution (what : string).

(** A process run for a request. *)
Record invocation := mkRan {
  ran_fence : Fence;
  ran_assignment : Assignment;
  ran_command : ComposeInvocation;
  ran_ok : bool;
}.

(** The agent: its state file, its memory ([None] while the process is down), and what it
    has run. *)
Record agent := mkAgent {
  file : disk;
  state : option Snapshot;
  ran : list invocation;
}.
#[export] Instance Rebuild_agent : Rebuild agent := fun a =>
  {| file := file a; state := state a; ran := ran a |}.

(** [NewReconciler], when the process starts: without a record the state is empty. *)
Definition NewReconciler (w : write) (a : agent) : agent * result agent_error Snapshot :=
  let '(d, r) := Load w (file a) in
  let a := a <| file := d |> in
  match r with
  | Err what => (a <| state := None |>, Err (ErrPersistence what))
  | Ok (snapshot, ok) =>
      let snapshot := if ok then snapshot else emptySnapshot in
      (a <| state := Some snapshot |>, Ok snapshot)
  end.

Definition validatedOwnedRequest (request : option ReconcileRequest)
  : result agent_error (Fence * Assignment) :=
  match request with
  | None => Err (InvalidRequest "fence")
  | Some owned =>
      match q_Fence owned, q_Assignment owned with
      | None, _ => Err (InvalidRequest "fence")
      | Some _, None => Err (InvalidRequest "assignment")
      | Some fence, Some assignment =>
          match ValidateFence (Some fence), ValidateAssignment (Some assignment) with
          | Err what, _ | Ok _, Err what => Err (InvalidRequest what)
          | Ok _, Ok _ => Ok (fence, assignment)
          end
      end
  end.

Definition persistStateLocked (w : write) (candidate : Snapshot) (a : agent) : agent * bool :=
  let '(d, ok) := Save w candidate (file a) in
  let a := a <| file := d |> in
  (if ok then a <| state := Some candidate |> else a, ok).

Definition acceptFence (w : write) (fence : Fence) (current : Snapshot) (a : agent)
  : agent * result agent_error unit :=
  let persist := fun a =>
    let '(a, ok) := persistStateLocked w (current <| s_Fence := Some fence |>) a in
    (a, if ok then Ok tt else Err (ErrPersistence "accepted fence")) in
  match s_Fence current with
  | None => persist a
  | Some held =>
      if (f_Term fence <? f_Term held)%N then
        (a, Err (ErrStaleFence (f_Term fence) (f_Term held)))
      else if (f_Term fence =? f_Term held)%N then
        if negb (bool_decide (f_LeaderId fence = f_LeaderId held)) then
          (a, Err (ErrFenceConflict (f_Term fence)))
        else (a, Ok tt)
      else persist a
  end.

Definition responseFromSnapshot (snapshot : Snapshot) (dryRun : bool) : ReconcileResponse :=
  {| p_Fence := s_Fence snapshot; p_Assignment := s_Assignment snapshot; p_DryRun := dryRun;
     p_Commands := s_Commands snapshot;
     p_UpdatedAt := if Time.IsZero (s_UpdatedAt snapshot) then None
                    else Some (s_UpdatedAt snapshot) |}.

(** What happens during one request: its two writes, its surroundings, and the clock when
    the plan has been executed. *)
Record weather := mkWeather {
  fenceWrite : write;
  around : surroundings;
  stateWrite : write;
  clockAt : Time.t;
}.

(** [Reconcile]; a request finds [current] in memory under the operation lock. *)
Definition Reconcile (r : DockerComposeRunner) (env : weather)
  (request : option ReconcileRequest) (current : Snapshot) (a : agent)
  : agent * (option ReconcileResponse * option agent_error) :=
  match validatedOwnedRequest request with
  | Err e => (a, (None, Some e))
  | Ok (fence, assignment) =>
      let '(a, accepted) := acceptFence (fenceWrite env) fence current a in
      match accepted with
      | Err e => (a, (None, Some e))
      | Ok _ =>
          match Plan r (around env) assignment with
          | Err what => (a, (None, Some (PlanFailed what)))
          | Ok plan =>
              let candidate := {| s_Fence := Some fence; s_Assignment := Some assignment;
                                  s_Commands := plan; s_UpdatedAt := 0 |} in
              let result := responseFromSnapshot candidate (dryRun r) in
              let '(processes, executed) := Execute r (around env) plan in
              let a := a <| ran ::= fun l =>
                l ++ ((fun p => mkRan fence assignment p.1 p.2) <$> processes) |> in
              match executed with
              | Err what => (a, (Some result, Some (ErrExecution what)))
              | Ok _ =>
                  let candidate := candidate <| s_UpdatedAt := clockAt env |> in
                  let '(a, ok) := persistStateLocked (stateWrite env) candidate a in
                  if ok then (a, (Some (responseFromSnapshot candidate (dryRun r)), None))
                  else (a, (Some result, Some (ErrPersistence "reconciled assignment")))
              end
          end
      end
  end.
Close Scope Z_scope.
