(* ===== verification/OsFence.v ===== *)
(** * CandaceOS: what a node agent guarantees

    Any sequence of requests, stops and starts of a node agent, with any failures of its
    writes and processes: the fence, and what a successful answer means. *)
From S2P Require Import Prelude.
From S2P Require Import GoStd.
From S2P Require Import OsContract.
From S2P Require Import OsTypes.
From S2P Require Import OsAgent.

Open Scope Z_scope.

(** ** The life of an agent *)

(** A stop in the middle of a request is covered: up to any point a request has had the
    effect of one that fails there (a write not made, a plan or a process that failed),
    after which the process stops. *)
Inductive agent_event :=
| Received (env : weather) (request : option ReconcileRequest)
| Stopped
| Started (w : write).

Section agent.
Context (runner : DockerComposeRunner).

Definition agent_step (a : agent) (e : agent_event) : agent :=
  match e with
  | Received env request =>
      match state a with
      | None => a
      | Some current => (Reconcile runner env request current a).1
      end
  | Stopped => a <| state := None |>
  | Started w => (NewReconciler w a).1
  end.
Definition agent_run (a : agent) (es : list agent_event) : agent := foldl agent_step a es.

(** ** The fence *)

(** A fence that comes after, or is, another. *)
Definition follows (g f : Fence) : Prop := (f_Term f < f_Term g)%N \/ g = f.
(** The order of two fences in a history: the later term, or the same term and leader. *)
Definition follows_before (f g : Fence) : Prop := follows g f.
Definition covers (held : option Fence) (f : Fence) : Prop :=
  exists g, held = Some g /\ follows g f.
Definition disk_fence (d : disk) : option Fence :=
  d ≫= fun p => (fun f => mkFence (pf_Term f) (pf_LeaderID f)) <$> ps_Fence p.

(** What has run is in the order of its fences; the disk covers the memory, and both
    whatever has run. *)
Record fenced (a : agent) : Prop := {
  fe_sorted : StronglySorted follows_before (ran_fence <$> ran a);
  fe_disk i : i ∈ ran a -> covers (disk_fence (file a)) (ran_fence i);
  fe_state s i : state a = Some s -> i ∈ ran a -> covers (s_Fence s) (ran_fence i);
  fe_behind s g : state a = Some s -> s_Fence s = Some g -> covers (disk_fence (file a)) g;
}.

Lemma follows_trans f g h : follows f g -> follows g h -> follows f h.
Proof. unfold follows. intros [?| ->] [?| ->]; auto. left. lia. Qed.

Lemma covers_later held g f : covers held g -> follows g f -> covers held f.
Proof. intros (h & E & Hh) Hg. exists h. split; [done|]. by eapply follows_trans. Qed.

Lemma covers_refl f : covers (Some f) f.
Proof. exists f. split; [done|by right]. Qed.

Lemma disk_fence_encode s : disk_fence (Some (encodePersistedSnapshot s)) = s_Fence s.
Proof. cbn. by destruct (s_Fence s) as [[]|]. Qed.

(** A record whose fence covers what has run and what is in memory may be written. *)
Lemma fenced_write w s a : fenced a ->
  (forall i, i ∈ ran a -> covers (s_Fence s) (ran_fence i)) ->
  (forall cur g, state a = Some cur -> s_Fence cur = Some g -> covers (s_Fence s) g) ->
  let res := persistStateLocked w s a in
  fenced res.1 /\ ran res.1 = ran a /\ state res.1 = (if res.2 then Some s else state a)
  /\ (res.2 = true -> file res.1 = Some (encodePersistedSnapshot s)).
Proof.
  intros [Hs Hd Hst Hb] Hran Hcur. unfold persistStateLocked, Save.
  destruct w; cbn; (split; [|done]); split; cbn; try done.
  - intros i Hi. change (covers (disk_fence (Some (encodePersistedSnapshot s))) (ran_fence i)).
    rewrite disk_fence_encode. auto.
  - intros s' i [= <-] Hi. auto.
  - intros s' g [= <-] Eg.
    change (covers (disk_fence (Some (encodePersistedSnapshot s))) g).
    rewrite disk_fence_encode, Eg. apply covers_refl.
  - intros i Hi. change (covers (disk_fence (Some (encodePersistedSnapshot s))) (ran_fence i)).
    rewrite disk_fence_encode. auto.
  - intros s' g E Eg. change (covers (disk_fence (Some (encodePersistedSnapshot s))) g).
    rewrite disk_fence_encode. eauto.
Qed.

Lemma acceptFence_fenced w f cur a : fenced a -> state a = Some cur ->
  let res := acceptFence w f cur a in
  fenced res.1 /\ ran res.1 = ran a
  /\ (is_ok res.2 = true -> exists cur', state res.1 = Some cur' /\ s_Fence cur' = Some f).
Proof.
  intros Hf Hcur. unfold acceptFence.
  assert (forall held, s_Fence cur = held -> (forall g, held = Some g -> f_Term g < f_Term f)%N ->
    let res := persistStateLocked w (cur <| s_Fence := Some f |>) a in
    let res := (res.1, if res.2 then @Ok agent_error unit tt
                       else Err (ErrPersistence "accepted fence")) in
    fenced res.1 /\ ran res.1 = ran a
    /\ (is_ok res.2 = true -> exists cur', state res.1 = Some cur' /\ s_Fence cur' = Some f))
    as Hpersist.
  { intros held <- Hlt. pose proof (fenced_write w (cur <| s_Fence := Some f |>) a Hf) as H.
    assert (forall g h, s_Fence cur = Some g -> follows g h -> covers (Some f) h) as Hc.
    { intros g h Eg Hg. exists f. split; [done|]. left. specialize (Hlt g Eg).
      destruct Hg as [Hg| <-]; lia. }
    destruct H as (H1 & H2 & H3 & _).
    - intros i Hi. destruct (fe_state _ Hf cur i Hcur Hi) as (g & Eg & Hg). by eapply Hc.
    - intros cur' g E Eg. rewrite Hcur in E. injection E as <-. eapply Hc; [done|by right].
    - cbn [fst snd]. split; [done|]. split; [done|]. intros Hok.
      destruct (persistStateLocked _ _ _).2; [|done]. eauto. }
  assert (forall held, s_Fence cur = held -> (forall g, held = Some g -> f_Term g < f_Term f)%N ->
    let res := let '(a, ok) := persistStateLocked w (cur <| s_Fence := Some f |>) a in
      (a, if ok then @Ok agent_error unit tt else Err (ErrPersistence "accepted fence")) in
    fenced res.1 /\ ran res.1 = ran a
    /\ (is_ok res.2 = true -> exists cur', state res.1 = Some cur' /\ s_Fence cur' = Some f))
    as Hpersist'.
  { intros held E Hlt. specialize (Hpersist held E Hlt).
    by destruct (persistStateLocked w (cur <| s_Fence := Some f |>) a) as [a' ok]. }
  destruct (s_Fence cur) as [g|] eqn:Eg; [|by apply (Hpersist' None)].
  destruct (N.ltb_spec (f_Term f) (f_Term g)) as [|Hge]; [by repeat split; try apply Hf|].
  destruct (N.eqb_spec (f_Term f) (f_Term g)) as [Ht|Hne].
  2:{ apply (Hpersist' (Some g)); [done|]. intros ? [= <-]. lia. }
  destruct (decide (f_LeaderId f = f_LeaderId g)) as [El|El].
  - rewrite bool_decide_true by done. cbn. split; [done|]. split; [done|]. intros _.
    exists cur. split; [done|]. rewrite Eg. destruct f, g. cbn in *. by subst.
  - rewrite bool_decide_false by done. cbn. by split; [|split].
Qed.
End agent.
Close Scope Z_scope.

Open Scope Z_scope.
Section fence.
Context (runner : DockerComposeRunner).
#[local] Abbreviation agent_step := (agent_step runner).
#[local] Abbreviation agent_run := (agent_run runner).
#[local] Abbreviation Reconcile := (Reconcile runner).

(** Processes run for a fence that memory holds. *)
Lemma fenced_runs f assignment processes cur a : fenced a -> state a = Some cur ->
  s_Fence cur = Some f ->
  fenced (a <| ran ::= fun l => l ++ ((fun p => mkRan f assignment p.1 p.2) <$> processes) |>).
Proof.
  intros Hf Hcur Ef. pose proof Hf as [Hs Hd Hst Hb].
  assert (forall i, i ∈ ran a -> follows f (ran_fence i)) as Hle.
  { intros i Hi. destruct (Hst _ _ Hcur Hi) as (g & E & Hg). congruence. }
  assert (forall i, i ∈ (fun p => mkRan f assignment p.1 p.2) <$> processes ->
    ran_fence i = f) as Hnew by by intros i (p & -> & _)%list_elem_of_fmap.
  assert (forall i, i ∈ ran a ++ ((fun p => mkRan f assignment p.1 p.2) <$> processes) ->
    follows f (ran_fence i)) as Hall.
  { intros i [Hi|Hi]%elem_of_app; [by apply Hle|]. rewrite (Hnew i Hi). by right. }
  split; cbn; [| |intros s i Es Hi|done].
  - rewrite fmap_app. clear -Hs Hle Hnew. induction (ran a) as [|i l IH]; cbn in *.
    + induction processes as [|p ps IHp]; cbn; [constructor|]. constructor.
      * apply IHp. intros i Hi. apply Hnew. by right.
      * apply Forall_fmap, Forall_forall. intros i Hi. cbn. right. apply Hnew. by right.
    + apply StronglySorted_inv in Hs as [Hs Hi]. constructor.
      * apply IH; [done|]. intros j Hj. apply Hle. by right.
      * apply Forall_app_2; [done|]. apply Forall_fmap, Forall_forall. intros j Hj. cbn.
        rewrite (Hnew j Hj). apply Hle. by left.
  - intros i Hi. eapply covers_later; [by apply (Hb cur f)|]. by apply Hall.
  - rewrite Hcur in Es. injection Es as <-. exists f. split; [done|]. by apply Hall.
Qed.

Lemma Reconcile_fenced env request cur a : fenced a -> state a = Some cur ->
  fenced (Reconcile env request cur a).1.
Proof.
  intros Hf Hcur. unfold OsAgent.Reconcile.
  destruct (validatedOwnedRequest request) as [[f assignment]|e]; [|done].
  pose proof (acceptFence_fenced (fenceWrite env) f cur a Hf Hcur) as (H1 & _ & Hok).
  destruct (acceptFence _ f cur a) as [a1 [[]|e]]; cbn in *; [|done].
  destruct (Hok eq_refl) as (cur' & Hc & Ef). clear Hok.
  destruct (Plan _ _ assignment) as [plan|what]; [|done].
  destruct (Execute _ _ plan) as [processes [u|what]].
  2:{ by eapply fenced_runs. }
  pose proof (fenced_runs f assignment processes cur' a1 H1 Hc Ef) as H2.
  match goal with |- context [persistStateLocked _ ?c ?x] =>
    set (candidate := c); change (fenced x) in H2; set (a2 := x) in * end.
  destruct (fenced_write (stateWrite env) candidate a2) as (H3 & _); [done|..].
  - intros i Hi. destruct (fe_state _ H2 cur' i) as (g & E & Hg); [done|done|].
    exists f. split; [done|]. congruence.
  - intros s g Es Eg. assert (s = cur') as -> by (cbn in Es; congruence).
    exists f. split; [done|]. right. congruence.
  - destruct (persistStateLocked _ candidate a2) as [a3 ok]. by destruct ok.
Qed.

Lemma decode_fence p : s_Fence (decodePersistedSnapshot p).1 = disk_fence (Some p).
Proof.
  unfold decodePersistedSnapshot. destruct (ps_Assignment p) as [x|]; [|done].
  by destruct (decodePersistedAssignment x).
Qed.

Lemma NewReconciler_fenced w a : fenced a -> fenced (NewReconciler w a).1.
Proof.
  intros Hf. pose proof Hf as [Hs Hd Hst Hb]. unfold NewReconciler, Load.
  assert (forall a', ran a' = ran a -> disk_fence (file a') = disk_fence (file a) ->
    (forall s, state a' = Some s -> s_Fence s = disk_fence (file a)) -> fenced a') as Hgo.
  { intros a' Er Ed Es. split; rewrite ?Er, ?Ed; try done.
    - intros s i E Hi. rewrite (Es s E). auto.
    - intros s g E Eg. rewrite <-(Es s E), Eg. apply covers_refl. }
  destruct (file a) as [p|] eqn:Ep.
  2:{ apply Hgo; cbn; [done|done|]. by intros s [= <-]. }
  pose proof (decode_fence p) as Edec.
  destruct (decodePersistedSnapshot p) as [snapshot legacy]. cbn [fst] in Edec.
  destruct (validatePersistedFence snapshot).
  2:{ apply Hgo; cbn; [done|done|done]. }
  destruct (s_Assignment snapshot) as [assignment|].
  2:{ apply Hgo; cbn; [done|done|]. by intros s [= <-]. }
  destruct legacy.
  - unfold adoptLegacyFenceOnlySnapshot, writeSnapshotAtomically. destruct w; apply Hgo; try done.
    all: cbn -[disk_fence]; rewrite ?disk_fence_encode; try done. by intros s [= <-].
  - destruct (ValidateAssignment (Some assignment)); apply Hgo; cbn; try done.
    by intros s [= <-].
Qed.

Lemma agent_step_fenced a e : fenced a -> fenced (agent_step a e).
Proof.
  intros Hf. destruct e as [env request| |w]; cbn.
  - destruct (state a) eqn:E; [by apply Reconcile_fenced|done].
  - destruct Hf. by split.
  - by apply NewReconciler_fenced.
Qed.

Lemma agent_run_fenced es : forall a, fenced a -> fenced (agent_run a es).
Proof. induction es as [|e es IH]; intros a Ha; [done|]. by apply IH, agent_step_fenced. Qed.

(** C10: a node obeys one leader per term and never an old one.  Whatever state file an
    agent starts from, and whatever requests, crashes, restarts and failing writes and
    processes follow, the processes it runs come in the order of their fences: terms never
    decrease, and all processes of one term are run for one leader.  A later request below
    the fence of anything that has run, or of another leader in the same term, is refused
    before it touches the state file or runs anything. *)
Theorem node_obeys_its_fence (d : disk) (es : list agent_event) :
  let a := agent_run (mkAgent d None []) es in
  StronglySorted follows_before (ran_fence <$> ran a)
  /\ forall env request f assignment cur i,
       state a = Some cur -> validatedOwnedRequest request = Ok (f, assignment) -> i ∈ ran a ->
       (f_Term f < f_Term (ran_fence i))%N
       \/ f_Term f = f_Term (ran_fence i) /\ f_LeaderId f <> f_LeaderId (ran_fence i) ->
       exists e, Reconcile env request cur a = (a, (None, Some e))
         /\ ((exists got highest, e = ErrStaleFence got highest)
             \/ exists term, e = ErrFenceConflict term).
Proof.
  intros a. assert (fenced a) as Hf.
  { apply agent_run_fenced. split; cbn; [constructor|..]; try done; by intros i ?%elem_of_nil. }
  split; [apply Hf|]. intros env request f assignment cur i Hcur Hv Hi Hlow.
  destruct (fe_state _ Hf cur i Hcur Hi) as (g & Eg & Hg).
  unfold OsAgent.Reconcile. rewrite Hv. unfold acceptFence. rewrite Eg.
  destruct (N.ltb_spec (f_Term f) (f_Term g)) as [|Hge]; [by eexists; split; [done|eauto]|].
  destruct Hg as [Hg| ->]; [lia|]. destruct Hlow as [|[Ht Hl]]; [lia|].
  rewrite (proj2 (N.eqb_eq _ _) Ht), bool_decide_false by done.
  eexists; split; [done|eauto].
Qed.
End fence.
Close Scope Z_scope.

(** ** What a successful answer means *)

Open Scope Z_scope.

Lemma ValidateAssignment_state m : ValidateAssignment (Some m) = Ok tt ->
  a_DesiredState m = DESIRED_STATE_RUNNING \/ a_DesiredState m = DESIRED_STATE_STOPPED.
Proof.
  intros H. cbn in H. do 3 (apply guard_ok in H as [_ H]). apply guard_ok in H as [H _].
  apply orb_true_iff in H as [H|H]; apply Z.eqb_eq in H; auto.
Qed.

Lemma decode_encode_assignment m : ValidateAssignment (Some m) = Ok tt ->
  decodePersistedAssignment
    {| pa_App := a_App m; pa_Project := a_Project m; pa_Path := a_Path m;
       pa_DesiredState := persistedDesiredState (a_DesiredState m);
       pa_SourceRevision := Some (a_SourceRevision m);
       pa_ContentSHA256 := Some (a_ContentSha256 m) |} = (m, false).
Proof.
  intros Hv. unfold decodePersistedAssignment. cbn.
  destruct (ValidateAssignment_state m Hv) as [E|E]; rewrite E; cbn; rewrite <-E; by destruct m.
Qed.

(** A snapshot that can be restored. *)
Definition storable (s : Snapshot) : Prop :=
  validatePersistedFence s = Ok tt
  /\ forall m, s_Assignment s = Some m -> ValidateAssignment (Some m) = Ok tt.

Lemma Load_encode w s : storable s ->
  Load w (Some (encodePersistedSnapshot s)) = (Some (encodePersistedSnapshot s), Ok (s, true)).
Proof.
  intros [Hf Ha]. cbn [Load].
  assert (decodePersistedSnapshot (encodePersistedSnapshot s) = (s, false)) as ->.
  { unfold decodePersistedSnapshot, encodePersistedSnapshot.
    destruct s as [f m cs t].
    cbn [s_Fence s_Assignment s_Commands s_UpdatedAt ps_Fence ps_Assignment ps_Commands
      ps_UpdatedAt] in *.
    assert ((fun f => mkFence (pf_Term f) (pf_LeaderID f)) <$>
      ((fun f => mkPersistedFence (f_Term f) (f_LeaderId f)) <$> f) = f) as -> by by destruct f as [[]|].
    unfold Time.IsZero. destruct m as [m|]; cbn [fmap option_fmap option_map].
    - rewrite decode_encode_assignment by by apply Ha. by destruct (Z.eqb_spec t 0) as [->|].
    - by destruct (Z.eqb_spec t 0) as [->|]. }
  rewrite Hf. destruct (s_Assignment s) as [m|] eqn:E; [|done].
  by rewrite Ha.
Qed.

Lemma validatedOwnedRequest_ok request f m : validatedOwnedRequest request = Ok (f, m) <->
  (exists q, request = Some q /\ q_Fence q = Some f /\ q_Assignment q = Some m)
  /\ ValidateFence (Some f) = Ok tt /\ ValidateAssignment (Some m) = Ok tt.
Proof.
  unfold validatedOwnedRequest. split.
  - intros H. destruct request as [q|]; [|done].
    destruct (q_Fence q) as [f'|] eqn:Ef, (q_Assignment q) as [m'|] eqn:Em; [|done..].
    destruct (ValidateFence (Some f')) as [[]|] eqn:E1; [|done].
    destruct (ValidateAssignment (Some m')) as [[]|] eqn:E2; [|done].
    injection H as -> ->. split; [by exists q|done].
  - intros ((q & -> & Ef & Em) & E1 & E2). by rewrite Ef, Em, E1, E2.
Qed.

Lemma acceptFence_storable w f cur a : state a = Some cur ->
  ran (acceptFence w f cur a).1 = ran a
  /\ (forall u, (acceptFence w f cur a).2 = Ok u ->
        exists cur', state (acceptFence w f cur a).1 = Some cur' /\ s_Fence cur' = Some f).
Proof.
  intros Hcur. unfold acceptFence, persistStateLocked, Save, writeSnapshotAtomically.
  destruct (s_Fence cur) as [g|] eqn:Eg.
  - destruct (f_Term f <? f_Term g)%N; [done|]. destruct (N.eqb_spec (f_Term f) (f_Term g)).
    + destruct (decide (f_LeaderId f = f_LeaderId g)).
      * rewrite bool_decide_true by done. cbn. split; [done|]. intros _ _. exists cur.
        split; [done|]. rewrite Eg. destruct f, g. cbn in *. by subst.
      * by rewrite bool_decide_false by done.
    + destruct w; cbn; (split; [done|]); intros u [=]. by eexists.
  - destruct w; cbn; (split; [done|]); intros u [=]. by eexists.
Qed.

Lemma Execute_ok runner s plan processes u : Execute runner s plan = (processes, Ok u) ->
  exists preflight action, plan = [preflight; action]
    /\ processes = (invocation_of runner preflight, true)
         :: (if dryRun runner then [] else [(invocation_of runner action, true)]).
Proof.
  unfold Execute, validatedComposeCommands.
  destruct plan as [|preflight [|action [|? ?]]]; [done|done| |done].
  destruct (isDirectDockerCommand runner preflight); [|done].
  destruct (isDirectDockerCommand runner action); [|done].
  destruct (succeeds s (invocation_of runner preflight)); [|done]. cbn [negb].
  destruct (dryRun runner); [intros [= <- _]; by exists preflight, action|].
  destruct (succeeds s (invocation_of runner action)); [|done].
  intros [= <- _]. by exists preflight, action.
Qed.

(** What one request adds to what has run: nothing, or the processes of the plan of its
    assignment, for its fence; a request that succeeds has executed that plan. *)
Lemma Reconcile_ran runner env request cur a a' resp err :
  state a = Some cur -> Reconcile runner env request cur a = (a', (resp, err)) ->
  (ran a' = ran a /\ (err = None -> resp = None))
  \/ exists f m plan, validatedOwnedRequest request = Ok (f, m)
       /\ Plan runner (around env) m = Ok plan
       /\ ran a' = ran a ++ ((fun p => mkRan f m p.1 p.2) <$> (Execute runner (around env) plan).1)
       /\ forall r, resp = Some r -> err = None ->
            (Execute runner (around env) plan).2 = Ok tt /\ p_DryRun r = dryRun runner.
Proof.
  intros Hup H. unfold Reconcile in H.
  destruct (validatedOwnedRequest request) as [[f m]|e] eqn:Ev;
    [|injection H as <- <- <-; by left].
  pose proof (acceptFence_storable (fenceWrite env) f cur a Hup) as [Hran _].
  destruct (acceptFence _ f cur a) as [a1 [u|e]]; cbn [fst] in Hran;
    [|injection H as <- <- <-; by left].
  destruct (Plan runner (around env) m) as [plan|] eqn:Ep; [|injection H as <- <- <-; by left].
  right. exists f, m, plan. split; [done|]. split; [done|].
  destruct (Execute runner (around env) plan) as [processes [[]|what]] eqn:Ex; cbn [fst snd].
  - destruct (persistStateLocked _ _ _) as [a2 ok] eqn:E.
    assert (ran a2 = ran a ++ ((fun p => mkRan f m p.1 p.2) <$> processes)) as Er.
    { unfold persistStateLocked, Save, writeSnapshotAtomically in E.
      destruct (stateWrite env); injection E as <- <-; cbn; by rewrite Hran. }
    destruct ok; injection H as <- <- <-; (split; [done|]); intros r [= <-]; [by intros _|done].
  - injection H as <- <- <-. cbn. rewrite Hran. done.
Qed.

(** C30: a successful answer is about what has been done, and survives a restart.  When
    [Reconcile] returns no error, the answer carries the fence and assignment of the
    request and the plan made for it; the plan's preflight has run with success, and after
    it, unless the agent is in dry-run mode, its action; memory and state file hold the
    request's record; and an agent started from that file, even one whose next write
    fails, is in the same state. *)
Theorem success_is_durable (runner : DockerComposeRunner) (env : weather)
  (request : option ReconcileRequest) (cur : Snapshot) (a a' : agent) (resp : ReconcileResponse)
  (Hup : state a = Some cur)
  (Hok : Reconcile runner env request cur a = (a', (Some resp, None))) :
  exists f m preflight action s,
    validatedOwnedRequest request = Ok (f, m)
    /\ Plan runner (around env) m = Ok [preflight; action]
    /\ p_Fence resp = Some f /\ p_Assignment resp = Some m /\ p_DryRun resp = dryRun runner
    /\ p_Commands resp = [preflight; action]
    /\ ran a' = ran a ++ mkRan f m (invocation_of runner preflight) true
         :: (if dryRun runner then [] else [mkRan f m (invocation_of runner action) true])
    /\ s = mkSnapshot (Some f) (Some m) [preflight; action] (clockAt env)
    /\ state a' = Some s
    /\ forall w, NewReconciler w (a' <| state := None |>) = (a', Ok s).
Proof.
  unfold Reconcile in Hok.
  destruct (validatedOwnedRequest request) as [[f m]|e] eqn:Ev; [|done].
  pose proof (acceptFence_storable (fenceWrite env) f cur a Hup) as [Hran _].
  destruct (acceptFence _ f cur a) as [a1 [u|e]]; [|done]. cbn [fst] in Hran.
  destruct (Plan runner (around env) m) as [plan|] eqn:Ep; [|done].
  destruct (Execute runner (around env) plan) as [processes [u'|]] eqn:Ex; [|done].
  apply Execute_ok in Ex as (preflight & action & -> & ->).
  unfold persistStateLocked, Save, writeSnapshotAtomically in Hok.
  destruct (stateWrite env); [|done..]. cbn -[responseFromSnapshot encodePersistedSnapshot] in Hok.
  injection Hok as <- <-.
  exists f, m, preflight, action, (mkSnapshot (Some f) (Some m) [preflight; action] (clockAt env)).
  split; [done|]. split; [done|]. do 4 (split; [done|]). split.
  { cbn. rewrite Hran. by destruct (dryRun runner). }
  split; [done|]. split; [done|]. intros w. unfold NewReconciler.
  apply validatedOwnedRequest_ok in Ev as (_ & Hf & Hm).
  cbn [file update]. match goal with |- context [Load w ?d] =>
    change d with (Some (encodePersistedSnapshot (mkSnapshot (Some f) (Some m)
      [preflight; action] (clockAt env)))) end.
  rewrite Load_encode; [done|]. split; [|by intros m' [= <-]].
  unfold validatePersistedFence. cbn [s_Fence]. by destruct (f_Term f =? 0)%N.
Qed.
Close Scope Z_scope.

(** ** A node on which a leader is deposed *)

Module NodeDemo.
Definition runner : DockerComposeRunner := mkRunner "docker" "/srv/apps" false.
Definition shop (state : Z) : Assignment :=
  mkAssignment "shop" "shop" "apps/shop" state (zeros 40) ("sha256:" +:+ zeros 64).
Definition calm : surroundings :=
  mkSurroundings (Some "/tmp/stop-shop-shop.yaml") (Some "/srv/revisions/shop")
    (Some "/srv/revisions/shop/compose.yaml") (fun _ => true).
Definition fair : weather := mkWeather Written calm Written 1000%Z.
Definition from (term : N) (leader : string) : option ReconcileRequest :=
  Some (mkRequest (Some (mkFence term leader)) (Some (shop DESIRED_STATE_RUNNING))).
(** The record of term 5 reaches the disk without being confirmed, so term 4 is taken, and
    survives a crash; then term 3 is too late. *)
Definition life : list agent_event :=
  [Started Written; Received fair (from 3 "alpha");
   Received (mkWeather WrittenUnsynced calm Written 2000%Z) (from 5 "gamma");
   Received fair (from 4 "beta"); Stopped; Started Written].
Definition node : agent := agent_run runner (mkAgent None None []) life.
End NodeDemo.

Example node_ran : (fun i => (f_Term (ran_fence i), last (ci_Argv (ran_command i))))
    <$> ran NodeDemo.node
  = [(3, Some "--quiet"); (3, Some "shop"); (4, Some "--quiet"); (4, Some "shop")]%N.
Proof. vm_compute. reflexivity. Qed.

Lemma node_obeys_its_fence_witness :
  exists cur e, state NodeDemo.node = Some cur
    /\ Reconcile NodeDemo.runner NodeDemo.fair (NodeDemo.from 3 "alpha") cur NodeDemo.node
       = (NodeDemo.node, (None, Some e)).
Proof.
  destruct (state NodeDemo.node) as [cur|] eqn:E; [|vm_compute in E; discriminate E].
  destruct (ran NodeDemo.node !! 3) as [i|] eqn:Ei; [|vm_compute in Ei; discriminate Ei].
  destruct (node_obeys_its_fence NodeDemo.runner None NodeDemo.life) as [_ H].
  destruct (H NodeDemo.fair (NodeDemo.from 3 "alpha") (mkFence 3 "alpha")
    (NodeDemo.shop DESIRED_STATE_RUNNING) cur i) as (e & He & _).
  - exact E.
  - vm_compute. reflexivity.
  - eapply list_elem_of_lookup_2. exact Ei.
  - left. vm_compute in Ei. injection Ei as <-. reflexivity.
  - exists cur, e. split; [reflexivity|exact He].
Defined.

Lemma success_is_durable_witness :
  exists a' s, NewReconciler NotWritten (a' <| state := None |>) = (a', Ok s)
    /\ s_UpdatedAt s = 1000%Z /\ length (ran a') = 2%nat.
Proof.
  destruct (Reconcile NodeDemo.runner NodeDemo.fair (NodeDemo.from 3 "alpha") emptySnapshot
    (mkAgent None (Some emptySnapshot) [])) as [a' [[resp|] [e|]]] eqn:E;
    try (vm_compute in E; discriminate E).
  destruct (success_is_durable NodeDemo.runner NodeDemo.fair
    (NodeDemo.from 3 "alpha") emptySnapshot (mkAgent None (Some emptySnapshot) []) a' resp
    eq_refl E)
    as (f & m & p & a & s & _ & _ & _ & _ & _ & _ & Hran & -> & _ & H).
  exists a'. eexists. split; [apply H|]. split; [reflexivity|].
  rewrite Hran. reflexivity.
Defined.
