(* ===== verification/OsFleet.v ===== *)
(** * CandaceOS: the fleet as Warden shows it

    [services/candaceos/fleet]: client.go and configured.go.  An HTTP round trip is its
    outcome, a decoded status or an error text; [decoded] is Warden's own view after its
    JSON encoding, whose field names the two sides share.  The last section composes the
    two programs. *)
From S2P Require Import Prelude.
From S2P Require WardenTypes.
From S2P Require WardenManager.
From S2P Require WardenMembership.
From S2P Require WardenCluster.
From S2P Require WardenSafety.
From S2P Require WardenNode.
From S2P Require WardenWatchdog.

(** ** client.go *)

Record wardenNode := mkWardenNode { wn_ID : string; wn_Addr : string }.
Record peerView := mkPeerView {
  pv_Node : wardenNode;
  pv_Status : string;
  pv_LastSeen : Time.t;
  pv_Member : string;
}.
Record membership := mkMembership {
  mb_Version : N;
  mb_CreatedInTerm : N;
  mb_Voters : list wardenNode;
}.
Record clusterView := mkClusterView {
  cv_Self : string;
  cv_Role : string;
  cv_Term : N;
  cv_LeaderID : string;
  cv_Authoritative : bool;
  cv_UpdatedAt : Time.t;
  cv_Peers : list peerView;
  cv_Membership : membership;
}.

Module Fleet.
Record Node := mkNode {
  n_ID : string;
  n_Name : string;
  n_Role : string;
  n_Status : string;
  n_Address : string;
  n_LastSeen : Time.t;
}.

Record Snapshot := mkSnapshot {
  Self : string;
  LeaderID : string;
  Term : N;
  Authoritative : bool;
  HasQuorum : bool;
  Online : nat;
  Required : nat;
  Nodes : list Node;
  UpdatedAt : Time.t;
  Error : string;
}.
#[export] Instance Rebuild_Snapshot : Rebuild Snapshot := fun s =>
  {| Self := Self s; LeaderID := LeaderID s; Term := Term s;
     Authoritative := Authoritative s; HasQuorum := HasQuorum s; Online := Online s;
     Required := Required s; Nodes := Nodes s; UpdatedAt := UpdatedAt s; Error := Error s |}.

Definition CanMutate (s : Snapshot) : bool :=
  Authoritative s && negb (bool_decide (LeaderID s = "")) && HasQuorum s.

Definition voterSet (view : clusterView) : gset string :=
  list_to_set (wn_ID <$> mb_Voters (cv_Membership view)).

Definition node_of (view : clusterView) (peer : peerView) : Node :=
  {| n_ID := wn_ID (pv_Node peer); n_Name := wn_ID (pv_Node peer);
     n_Role := if bool_decide (wn_ID (pv_Node peer) = cv_LeaderID view) then "leader"
               else "worker";
     n_Status := pv_Status peer; n_Address := wn_Addr (pv_Node peer);
     n_LastSeen := pv_LastSeen peer |}.

Definition online_voter (view : clusterView) (peer : peerView) : bool :=
  bool_decide (wn_ID (pv_Node peer) ∈ voterSet view) && bool_decide (pv_Status peer = "alive").

Definition normalize (view : clusterView) : Snapshot :=
  let required := size (voterSet view) / 2 + 1 in
  let online :=
    foldl (fun online peer => if online_voter view peer then S online else online)
      0 (cv_Peers view) in
  {| Self := cv_Self view; LeaderID := cv_LeaderID view; Term := cv_Term view;
     Authoritative := cv_Authoritative view;
     HasQuorum := (0 <? required) && (required <=? online);
     Online := online; Required := required;
     Nodes := sort_by n_ID (node_of view <$> cv_Peers view);
     UpdatedAt := cv_UpdatedAt view; Error := "" |}.

(** [recordError], at the time it reads. *)
Definition recordError (err : string) (at_ : Time.t) (snapshot : Snapshot) : Snapshot :=
  snapshot <| Authoritative := false |> <| HasQuorum := false |> <| Error := err |>
           <| UpdatedAt := at_ |>.

(** What one poll of the endpoint ends in. *)
Inductive poll := Unsent | Failed (err : string) (at_ : Time.t) | Decoded (view : clusterView).

(** [Refresh]: the snapshot that is kept and the one that is returned; a request that could
    not be built leaves the kept one and returns the zero value. *)
Definition zero : Snapshot :=
  {| Self := ""; LeaderID := ""; Term := 0; Authoritative := false; HasQuorum := false;
     Online := 0; Required := 0; Nodes := []; UpdatedAt := 0%Z; Error := "" |}.
Definition Refresh (outcome : poll) (kept : Snapshot) : Snapshot * Snapshot :=
  match outcome with
  | Unsent => (kept, zero)
  | Failed err at_ => let s := recordError err at_ kept in (s, s)
  | Decoded view => let s := normalize view in (s, s)
  end.
End Fleet.

(** ** configured.go *)

Record ConfiguredNode := mkConfiguredNode {
  cn_ID : string;
  cn_Name : string;
  cn_Role : string;
  cn_Labels : gmap string string;
  cn_Status : string;
  cn_Address : string;
  cn_LastSeen : Time.t;
}.

Definition nodeRoleLabel : string := "role".
Definition deploymentRole (labels : gmap string string) : string :=
  let role := default "" (labels !! nodeRoleLabel) in
  if bool_decide (role = "") then "worker" else role.

(** The nodes of [WithConfiguration]; its other fields are those of the snapshot. *)
Definition WithConfiguration (snapshot : Fleet.Snapshot)
  (configured : gmap string (gmap string string)) : list ConfiguredNode :=
  (fun observed =>
     let labels := default ∅ (configured !! Fleet.n_ID observed) in
     {| cn_ID := Fleet.n_ID observed; cn_Name := Fleet.n_Name observed;
        cn_Role := deploymentRole labels; cn_Labels := labels;
        cn_Status := Fleet.n_Status observed; cn_Address := Fleet.n_Address observed;
        cn_LastSeen := Fleet.n_LastSeen observed |}) <$> Fleet.Nodes snapshot.

(** ** Warden's view, as Core decodes it *)

Definition decoded_node (n : WardenTypes.Node) : wardenNode :=
  {| wn_ID := WardenTypes.ID n; wn_Addr := WardenTypes.Addr n |}.
Definition decoded_peer (p : WardenTypes.PeerView) : peerView :=
  {| pv_Node := decoded_node (WardenTypes.pv_Node p); pv_Status := WardenTypes.pv_Status p;
     pv_LastSeen := WardenTypes.pv_LastSeen p; pv_Member := WardenTypes.pv_Member p |}.
Definition decoded (v : WardenTypes.ClusterView) : clusterView :=
  {| cv_Self := WardenTypes.cv_Self v; cv_Role := WardenTypes.cv_Role v;
     cv_Term := WardenTypes.cv_Term v; cv_LeaderID := WardenTypes.cv_LeaderID v;
     cv_Authoritative := WardenTypes.cv_Authoritative v;
     cv_UpdatedAt := WardenTypes.cv_UpdatedAt v;
     cv_Peers := decoded_peer <$> WardenTypes.cv_Peers v;
     cv_Membership :=
       {| mb_Version := WardenTypes.Version (WardenTypes.cv_Membership v);
          mb_CreatedInTerm := WardenTypes.CreatedInTerm (WardenTypes.cv_Membership v);
          mb_Voters := decoded_node <$> WardenTypes.Voters (WardenTypes.cv_Membership v) |} |}.

(** ** Counting rows *)

Definition count {A} (b : A -> bool) (l : list A) : nat :=
  length (base.filter (fun x => b x = true) l).

Section count.
Context {A : Type}.
Implicit Types (b : A -> bool) (l : list A).

Lemma count_cons b x l : count b (x :: l) = (if b x then 1 else 0) + count b l.
Proof. unfold count. rewrite filter_cons. by destruct (b x). Qed.

Lemma foldl_counts (g : nat -> A -> nat) b l :
  (forall x n, x ∈ l -> g n x = if b x then S n else n) ->
  forall k, foldl g k l = k + count b l.
Proof.
  induction l as [|x l IH]; intros H k; simpl; [by rewrite Nat.add_0_r|].
  rewrite count_cons, H, IH; [destruct (b x); lia| |]; set_solver.
Qed.

Lemma count_ext b b' l : (forall x, x ∈ l -> b x = b' x) -> count b l = count b' l.
Proof.
  induction l as [|x l IH]; intros H; [done|]. rewrite !count_cons, IH, (H x); [done|set_solver|].
  intros y Hy. apply H. set_solver.
Qed.

(** One element apart: when the keys are distinct and the element keyed [me] is counted. *)
Lemma count_but (key : A -> string) (me : string) b l :
  NoDup (key <$> l) -> (exists x, x ∈ l /\ key x = me) ->
  (forall x, x ∈ l -> key x = me -> b x = true) ->
  count b l = S (count (fun x => b x && negb (bool_decide (key x = me))) l).
Proof.
  induction l as [|x l IH]; intros Hnd [y [Hy Hk]] Hb; [set_solver|].
  rewrite fmap_cons in Hnd. apply NoDup_cons in Hnd as [Hx Hnd]. rewrite !count_cons.
  destruct (decide (key x = me)) as [E|E].
  - rewrite (bool_decide_eq_true_2 _ E), (Hb x) by (done || set_solver). simpl. f_equal.
    apply count_ext. intros z Hz. rewrite bool_decide_eq_false_2, andb_true_r; [done|].
    intros Ez. apply Hx. rewrite E, <-Ez. apply list_elem_of_fmap. eauto.
  - rewrite (bool_decide_eq_false_2 _ E), andb_true_r, IH; [lia|done| |].
    + exists y. split; [|done]. apply elem_of_cons in Hy as [->|]; done.
    + intros z Hz. apply Hb. set_solver.
Qed.
End count.

(** ** The quorum Core sees and the quorum Warden's watchdog sees *)

Section agree.
Import WardenTypes.
Implicit Types (v : ClusterView).

(** A view whose author counts itself among the living. *)
Record candid v : Prop := {
  cd_voters : Voters (cv_Membership v) <> [];
  cd_distinct : NoDup (ID <$> Voters (cv_Membership v));
  cd_rows : NoDup (WardenNode.row_ids v);
  cd_member : forall p, p ∈ cv_Peers v -> HasVoter (cv_Membership v) (ID (pv_Node p)) = true ->
    pv_Member p = MemberVoter;
  cd_listed : HasVoter (cv_Membership v) (cv_Self v) = true ->
    cv_Self v ∈ WardenNode.row_ids v;
  cd_self : forall p, p ∈ cv_Peers v -> ID (pv_Node p) = cv_Self v -> pv_Status p = StatusAlive;
}.

Lemma voterSet_decoded v : Fleet.voterSet (decoded v) = voter_ids (cv_Membership v).
Proof. unfold Fleet.voterSet, voter_ids. simpl. by rewrite <-list_fmap_compose. Qed.

Lemma online_decoded v p :
  Fleet.online_voter (decoded v) (decoded_peer p) =
  HasVoter (cv_Membership v) (ID (pv_Node p)) && bool_decide (pv_Status p = StatusAlive).
Proof.
  unfold Fleet.online_voter. rewrite voterSet_decoded. simpl. f_equal.
  destruct (HasVoter _ _) eqn:E;
    [apply HasVoter_spec in E; by apply bool_decide_eq_true_2
    |apply HasVoter_false in E; by apply bool_decide_eq_false_2].
Qed.

Lemma online_count v :
  Fleet.Online (Fleet.normalize (decoded v)) =
  count (fun p => HasVoter (cv_Membership v) (ID (pv_Node p))
                  && bool_decide (pv_Status p = StatusAlive)) (cv_Peers v).
Proof.
  cbn [Fleet.Online Fleet.normalize decoded OsFleet.cv_Peers]. erewrite foldl_counts by done.
  simpl. induction (cv_Peers v) as [|p ps IH]; [done|].
  by rewrite fmap_cons, !count_cons, IH, online_decoded.
Qed.

Lemma live_count v :
  candid v -> (WardenWatchdog.liveQuorum v).2 = Fleet.Online (Fleet.normalize (decoded v)).
Proof.
  intros C. rewrite online_count. unfold WardenWatchdog.liveQuorum.
  destruct (decide _) as [_|Hn];
    [|pose proof (cd_voters _ C); destruct (Voters (cv_Membership v)); simpl in *; [done|lia]].
  set (b := fun p => HasVoter (cv_Membership v) (ID (pv_Node p)) && _).
  set (me := fun p => ID (pv_Node p)).
  transitivity ((if HasVoter (cv_Membership v) (cv_Self v) then 1 else 0)
    + count (fun p => b p && negb (bool_decide (me p = cv_Self v))) (cv_Peers v)).
  - simpl. apply foldl_counts. intros p n Hp. subst b me. simpl.
    destruct (bool_decide (_ = cv_Self v)) eqn:E; simpl; [by rewrite andb_false_r|].
    rewrite andb_true_r. destruct (HasVoter _ (ID (pv_Node p))) eqn:Hv; simpl;
      [|by destruct (negb _)].
    by rewrite (cd_member _ C p Hp Hv).
  - destruct (HasVoter _ (cv_Self v)) eqn:Hv; symmetry.
    + rewrite (count_but me (cv_Self v)); [done|apply (cd_rows _ C)| |].
      * pose proof (cd_listed _ C Hv) as Hin. apply list_elem_of_fmap in Hin as (p & -> & Hp). eauto.
      * intros p Hp E. unfold b, me in *. rewrite E, Hv. simpl. apply bool_decide_eq_true_2.
        by apply (cd_self _ C).
    + simpl. apply count_ext. intros p _. unfold b, me.
      destruct (bool_decide (_ = cv_Self v)) eqn:E; [|by rewrite andb_true_r].
      apply bool_decide_eq_true in E. by rewrite E, Hv.
Qed.

Lemma required_quorum v :
  candid v -> Fleet.Required (Fleet.normalize (decoded v)) =
              Quorum (WardenWatchdog.liveQuorum v).1.
Proof.
  intros C. cbn [Fleet.Required Fleet.normalize]. rewrite voterSet_decoded.
  unfold voter_ids, Quorum, WardenWatchdog.liveQuorum.
  rewrite size_list_to_set, length_fmap by apply (cd_distinct _ C).
  destruct (decide _) as [_|Hn]; [done|].
  pose proof (cd_voters _ C). destruct (Voters (cv_Membership v)); simpl in *; [done|lia].
Qed.

Lemma quorum_agrees v :
  candid v -> Fleet.HasQuorum (Fleet.normalize (decoded v)) = WardenWatchdog.sees_quorum v.
Proof.
  intros C. unfold WardenWatchdog.sees_quorum.
  rewrite (live_count _ C), <-(required_quorum _ C).
  set (s := Fleet.normalize _).
  change (Fleet.HasQuorum s) with ((0 <? Fleet.Required s) && (Fleet.Required s <=? Fleet.Online s)).
  rewrite (required_quorum _ C : Fleet.Required s = _).
  pose proof (Quorum_pos (WardenWatchdog.liveQuorum v).1).
  rewrite Nat.leb_antisym. by destruct (Nat.ltb_spec 0 (Quorum (WardenWatchdog.liveQuorum v).1)); [|lia].
Qed.

(** The view a leader authors is candid. *)
Lemma leaderView_candid m t :
  WardenMembership.membership_wf m -> Voters (WardenManager.membership m) <> [] ->
  candid (WardenManager.leaderView m t).
Proof.
  intros Hwf Hne.
  assert (WardenNode.row_ids (WardenManager.leaderView m t) ≡ₚ
    (ID <$> Voters (WardenManager.membership m)) ++
    (if WardenManager.discoveryMode m then (map_to_list (WardenManager.candidates m)).*1 else []))
    as Hids.
  { unfold WardenNode.row_ids. simpl. destruct (WardenNode.SortPeers_ids
      ((WardenManager.leaderRow m t <$> Voters (WardenManager.membership m))
       ++ WardenManager.candidateRows m t)) as [_ ->].
    by rewrite fmap_app, WardenNode.voterRows_ids, WardenNode.candidateRows_ids
      by auto using WardenNode.leaderRow_node. }
  assert (forall p, p ∈ cv_Peers (WardenManager.leaderView m t) ->
    (exists n, n ∈ Voters (WardenManager.membership m) /\ p = WardenManager.leaderRow m t n) \/
    (HasVoter (WardenManager.membership m) (ID (pv_Node p)) = false
     /\ ID (pv_Node p) <> ID (WardenManager.self m))) as Hrow.
  { intros p Hp. simpl in Hp. unfold SortPeers in Hp. rewrite sort_by_elem, elem_of_app in Hp.
    destruct Hp as [Hp|Hp]; [left; by apply list_elem_of_fmap in Hp as (n & -> & ?); eauto|right].
    unfold WardenManager.candidateRows in Hp. case_match; [|by apply elem_of_nil in Hp].
    apply list_elem_of_fmap in Hp as (c & -> & Hc). apply list_elem_of_fmap in Hc as ([id c'] & -> & Hc).
    apply elem_of_map_to_list in Hc.
    destruct (WardenMembership.mw_candidates _ Hwf _ _ Hc) as (E & Hn & Hv).
    rewrite WardenNode.candidateRow_node. simpl. by rewrite E. }
  constructor; simpl in *; rewrite ?Clone_id; try done.
  - apply Hwf.
  - rewrite Hids. by apply (WardenNode.known_rows m _ Hwf).
  - intros p Hp Hv. destruct (Hrow p Hp) as [(n & _ & ->)|[E _]]; [|by rewrite E in Hv].
    unfold WardenManager.leaderRow. by case_decide.
  - intros Hv. rewrite Hids, elem_of_app. left. apply HasVoter_spec in Hv.
    unfold voter_ids in Hv. by rewrite elem_of_list_to_set in Hv.
  - intros p Hp E. destruct (Hrow p Hp) as [(n & _ & ->)|[_ Hn]]; [|done].
    rewrite WardenNode.leaderRow_node in E. unfold WardenManager.leaderRow.
    by rewrite decide_True by done.
Qed.

(** C23: What Core may act on.  Polling the leader's own node, Core counts the voters online
    and the quorum as Warden's watchdog does, and may mutate exactly when the watchdog
    trusts what it sees, in the leader's name and term.  Polling any other node, it may
    mutate only on a fresh authoritative view of the leader that node follows.  A poll that
    fails takes the authority away and keeps the nodes last seen. *)
Theorem fleet_authority (m : WardenManager.Manager) (kept : Fleet.Snapshot)
  (err : string) (at_ : Time.t)
  (Hwf : WardenMembership.membership_wf m)
  (Hne : Voters (WardenManager.membership m) <> [])
  (Hid : ID (WardenManager.self m) <> "") :
  let v := WardenManager.snapshotView m in
  let s := (Fleet.Refresh (Fleet.Decoded (decoded v)) kept).1 in
  (WardenManager.role m = RoleLeader ->
     Fleet.CanMutate s = WardenWatchdog.sees_quorum v
     /\ Fleet.Online s = (WardenWatchdog.liveQuorum v).2
     /\ Fleet.Required s = Quorum (WardenWatchdog.liveQuorum v).1
     /\ Fleet.LeaderID s = ID (WardenManager.self m)
     /\ Fleet.Term s = WardenManager.currentTerm m)
  /\ (WardenManager.role m <> RoleLeader -> Fleet.CanMutate s = true ->
     exists c, WardenManager.freshCachedView m (WardenManager.Now m) = Some c
       /\ cv_Authoritative c = true /\ cv_LeaderID c = WardenManager.leaderID m
       /\ WardenManager.leaderID m <> "")
  /\ (let f := (Fleet.Refresh (Fleet.Failed err at_) kept).1 in
     Fleet.CanMutate f = false /\ Fleet.Nodes f = Fleet.Nodes kept).
Proof.
  intros v s. split; [|split].
  - intros Hr. assert (v = WardenManager.leaderView m (WardenManager.Now m)) as Ev
      by (unfold v, WardenManager.snapshotView; by rewrite decide_True).
    pose proof (leaderView_candid m (WardenManager.Now m) Hwf Hne) as C. rewrite <-Ev in C.
    split; [|split; [by symmetry; apply live_count|split; [by apply required_quorum|]]].
    + rewrite <-(quorum_agrees _ C). unfold Fleet.CanMutate. subst s. rewrite Ev. cbn.
      by rewrite bool_decide_eq_false_2.
    + subst s. by rewrite Ev.
  - intros Hr Hcan. unfold Fleet.CanMutate in Hcan.
    apply andb_true_iff in Hcan as [[Ha _]%andb_true_iff _]. subst s v.
    unfold WardenManager.snapshotView in Ha. rewrite decide_False in Ha by done.
    unfold WardenManager.followerView in Ha.
    destruct (WardenManager.freshCachedView _ _) as [c|] eqn:E; [|done].
    exists c. split; [done|]. split; [exact Ha|]. unfold WardenManager.freshCachedView in E.
    repeat case_match; simplify_eq. naive_solver.
  - unfold Fleet.CanMutate. done.
Qed.
End agree.

(** [a] leads a static cluster of three in which [c] never answered. *)
Lemma fleet_authority_witness :
  exists m, WardenCluster.nodes WardenSafety.Scenario.static_end !! "a" = Some m
    /\ let s := Fleet.normalize (decoded (WardenManager.snapshotView m)) in
       Fleet.CanMutate s = WardenWatchdog.sees_quorum (WardenManager.snapshotView m)
       /\ Fleet.LeaderID s = "a" /\ Fleet.Required s = 2.
Proof.
  destruct (WardenSafety.node_at (fun m => (WardenMembership.wf_check m, WardenManager.role m,
      WardenTypes.ID (WardenManager.self m),
      length (WardenTypes.Voters (WardenManager.membership m)),
      (WardenWatchdog.liveQuorum (WardenManager.snapshotView m)).1))
    WardenSafety.Scenario.static_end "a" (true, WardenTypes.RoleLeader, "a", 3, 3))
    as (m & Hm & E); [by vm_compute|].
  injection E as Ewf Er Eid En El. exists m. split; [done|].
  assert (WardenTypes.Voters (WardenManager.membership m) <> []) as Hne.
  { destruct (WardenTypes.Voters _); simpl in En; congruence. }
  assert (WardenTypes.ID (WardenManager.self m) <> "") as Hid by congruence.
  pose proof (fleet_authority m Fleet.zero "" 0%Z (WardenMembership.wf_check_sound _ Ewf) Hne Hid)
    as [H _].
  destruct (H Er) as (Hc & _ & Hq & Hl & _). clear H.
  cbn [Fleet.Refresh fst] in Hc, Hq, Hl. rewrite Eid in Hl. rewrite El in Hq.
  split; [exact Hc|]. split; [exact Hl|exact Hq].
Defined.
