(* ===== verification/OsStore.v ===== *)
(** * CandaceOS: the control-plane tables

    [services/candaceos/internal/storedb] and [services/candaceos/store]: the tables that
    the migrations declare, the statements of queries.sql as functions on them, and the
    transactions of store.go.  [None] is a statement that PostgreSQL refuses (a key taken,
    a reference missing, a check that fails); any other failure of a statement or of the
    connection is part of how a transaction ends.  A stored instant has the precision of
    TIMESTAMPTZ.  Identifiers compare as bytes: those that decide an order are UUIDs.  The
    tables [candaceos_nodes] and [candaceos_node_labels], which nothing here reads, are in
    OsFleetRecord.v. *)
From S2P Require Import Prelude.

Open Scope Z_scope.

(** ** Tables *)

(** pgx truncates to microseconds. *)
Definition stamp (t : Time.t) : Time.t := t / Time.Microsecond * Time.Microsecond.

Record OperatorRun := mkOperatorRun {
  or_SessionID : string;
  or_Title : string;
  or_Prompt : string;
  or_Status : string;
  or_StartedAt : Time.t;
  or_FinishedAt : option Time.t;
}.
#[export] Instance Rebuild_OperatorRun : Rebuild OperatorRun := fun r =>
  mkOperatorRun (or_SessionID r) (or_Title r) (or_Prompt r) (or_Status r) (or_StartedAt r)
    (or_FinishedAt r).

Record OperatorApproval := mkOperatorApproval {
  oa_RunID : option string;
  oa_ToolCallID : option string;
  oa_RequestKind : string;
  oa_Title : string;
  oa_Detail : string;
  oa_Risk : string;
  oa_PayloadSha256 : string;
  oa_Status : string;
  oa_RequestedAt : Time.t;
  oa_ExpiresAt : Time.t;
  oa_ResolvedAt : option Time.t;
  oa_ResolvedBy : option string;
}.
#[export] Instance Rebuild_OperatorApproval : Rebuild OperatorApproval := fun a =>
  mkOperatorApproval (oa_RunID a) (oa_ToolCallID a) (oa_RequestKind a) (oa_Title a)
    (oa_Detail a) (oa_Risk a) (oa_PayloadSha256 a) (oa_Status a) (oa_RequestedAt a)
    (oa_ExpiresAt a) (oa_ResolvedAt a) (oa_ResolvedBy a).

Record ActivityReceipt := mkActivityReceipt {
  ar_EntityType : string;
  ar_EntityID : string;
  ar_Kind : string;
  ar_Summary : string;
  ar_PayloadSha256 : option string;
  ar_OccurredAt : Time.t;
}.

Record AppRevisionRow := mkAppRevisionRow {
  av_AppName : string;
  av_SourceRepository : string;
  av_SourceRevision : string;
  av_SourceSha256 : string;
  av_ComposeFile : string;
  av_CreatedAt : Time.t;
}.

Record DeploymentRow := mkDeploymentRow {
  de_AppRevisionID : string;
  de_ProjectName : string;
  de_WorkspacePath : string;
  de_DesiredState : string;
  de_PlacementMode : string;
  de_ExactNodeID : option string;
  de_Replicas : Z;
  de_Stateful : bool;
  de_CreatedAt : Time.t;
  de_UpdatedAt : Time.t;
}.
#[export] Instance Rebuild_DeploymentRow : Rebuild DeploymentRow := fun d =>
  mkDeploymentRow (de_AppRevisionID d) (de_ProjectName d) (de_WorkspacePath d)
    (de_DesiredState d) (de_PlacementMode d) (de_ExactNodeID d) (de_Replicas d)
    (de_Stateful d) (de_CreatedAt d) (de_UpdatedAt d).

Record RolloutRow := mkRolloutRow {
  ro_DeploymentID : string;
  ro_AppRevisionID : string;
  ro_DesiredState : string;
  ro_RequestedAt : Time.t;
}.

Record DeploymentRunRow := mkDeploymentRunRow {
  dr_DeploymentID : string;
  dr_AppRevisionID : string;
  dr_NodeID : string;
  dr_WardenTerm : Z;
  dr_LeaderID : string;
  dr_Status : string;
  dr_DryRun : option bool;
  dr_ErrorMessage : option string;
  dr_RequestedAt : Time.t;
  dr_FinishedAt : option Time.t;
  dr_RolloutID : string;
  dr_DesiredState : string;
}.
#[export] Instance Rebuild_DeploymentRunRow : Rebuild DeploymentRunRow := fun r =>
  mkDeploymentRunRow (dr_DeploymentID r) (dr_AppRevisionID r) (dr_NodeID r)
    (dr_WardenTerm r) (dr_LeaderID r) (dr_Status r) (dr_DryRun r) (dr_ErrorMessage r)
    (dr_RequestedAt r) (dr_FinishedAt r) (dr_RolloutID r) (dr_DesiredState r).

(** Tables by primary key; [receipt_seq] is the sequence of [receipt_id]. *)
Record database := mkDatabase {
  operator_runs : gmap string OperatorRun;
  operator_approvals : gmap string OperatorApproval;
  activity_receipts : gmap Z ActivityReceipt;
  receipt_seq : Z;
  app_revisions : gmap string AppRevisionRow;
  deployments : gmap string DeploymentRow;
  deployment_labels : gmap (string * string) string;
  deployment_rollouts : gmap string RolloutRow;
  deployment_runs : gmap string DeploymentRunRow;
}.
#[export] Instance Rebuild_database : Rebuild database := fun d =>
  mkDatabase (operator_runs d) (operator_approvals d) (activity_receipts d) (receipt_seq d)
    (app_revisions d) (deployments d) (deployment_labels d) (deployment_rollouts d)
    (deployment_runs d).

Definition empty_database : database :=
  {| operator_runs := ∅; operator_approvals := ∅; activity_receipts := ∅; receipt_seq := 0;
     app_revisions := ∅; deployments := ∅; deployment_labels := ∅; deployment_rollouts := ∅;
     deployment_runs := ∅ |}.

Notation "'check!' b 'in' k" := (if b then k else None)
  (at level 10, b at level 100, k at level 200, only parsing) : go_scope.

Definition fresh {A} (key : string) (table : gmap string A) : bool :=
  bool_decide (table !! key = None).
Definition exists_row {A} (key : string) (table : gmap string A) : bool :=
  negb (fresh key table).
Definition one_of (value : string) (values : list string) : bool := bool_decide (value ∈ values).

(** ** Statements on runs, approvals and receipts *)

Definition CreateRun (run_id : string) (row : OperatorRun) (d : database) : option database :=
  check! fresh run_id (operator_runs d) in
  check! one_of (or_Status row)
           ["queued"; "running"; "waiting"; "succeeded"; "failed"; "aborted"] in
  Some (d <| operator_runs ::= <[run_id := row <| or_StartedAt := stamp (or_StartedAt row) |>
                             <| or_FinishedAt := None |>]> |>).

Definition UpdateRunStatus (run_id status : string) (finished_at : option Time.t) (d : database)
  : option (database * Z) :=
  match operator_runs d !! run_id with
  | None => Some (d, 0)
  | Some row =>
      check! one_of status ["queued"; "running"; "waiting"; "succeeded"; "failed"; "aborted"] in
      Some (d <| operator_runs ::=
                <[run_id := row <| or_Status := status |>
                                <| or_FinishedAt := stamp <$> finished_at |>]> |>, 1)
  end.

Definition CreateApproval (approval_id : string) (row : OperatorApproval) (d : database)
  : option database :=
  check! fresh approval_id (operator_approvals d) in
  check! match oa_RunID row with
         | Some run_id => exists_row run_id (operator_runs d)
         | None => true
         end in
  check! one_of (oa_Risk row) ["low"; "medium"; "high"] in
  Some (d <| operator_approvals ::=
            <[approval_id := row <| oa_Status := "pending" |> <| oa_ResolvedAt := None |>
                                 <| oa_ResolvedBy := None |>
                                 <| oa_RequestedAt := stamp (oa_RequestedAt row) |>
                                 <| oa_ExpiresAt := stamp (oa_ExpiresAt row) |>]> |>).

Definition ResolveApproval (status : string) (resolved_at : Time.t) (resolved_by : option string)
  (approval_id : string) (d : database) : option (database * Z) :=
  match operator_approvals d !! approval_id with
  | Some row =>
      if bool_decide (oa_Status row = "pending") then
        check! one_of status ["pending"; "approved"; "rejected"; "expired"] in
        Some (d <| operator_approvals ::=
                  <[approval_id := row <| oa_Status := status |>
                                       <| oa_ResolvedAt := Some (stamp resolved_at) |>
                                       <| oa_ResolvedBy := resolved_by |>]> |>, 1)
      else Some (d, 0)
  | None => Some (d, 0)
  end.

(** [store.AppendReceipt] over the statement of that name. *)
Definition optionalText (value : string) : option string :=
  if bool_decide (value = "") then None else Some value.
Definition AppendReceipt (entityType entityID kind summary payloadSHA256 : string)
  (at_ : Time.t) (d : database) : database * Z :=
  let id := receipt_seq d + 1 in
  (d <| activity_receipts ::=
       <[id := {| ar_EntityType := entityType; ar_EntityID := entityID; ar_Kind := kind;
                  ar_Summary := summary; ar_PayloadSha256 := optionalText payloadSHA256;
                  ar_OccurredAt := stamp at_ |}]> |> <| receipt_seq := id |>, id).

(** ** Statements on deployments *)

Definition UpsertAppRevision (app_revision_id : string) (row : AppRevisionRow) (d : database)
  : option database :=
  if exists_row app_revision_id (app_revisions d) then Some d
  else
    check! bool_decide (map_Forall (fun _ other =>
             ~ (av_AppName other = av_AppName row
                /\ av_SourceRevision other = av_SourceRevision row
                /\ av_SourceSha256 other = av_SourceSha256 row)) (app_revisions d)) in
    Some (d <| app_revisions ::= <[app_revision_id := row]> |>).

Definition deployment_checks (row : DeploymentRow) (d : database) : bool :=
  exists_row (de_AppRevisionID row) (app_revisions d)
  && one_of (de_DesiredState row) ["running"; "stopped"]
  && one_of (de_PlacementMode row) ["node"; "leader"; "labels"]
  && (0 <? de_Replicas row)
  && Bool.eqb (bool_decide (de_PlacementMode row = "node"))
              (negb (bool_decide (de_ExactNodeID row = None)))
  && (negb (de_Stateful row) || bool_decide (de_PlacementMode row = "node")).

Definition UpsertDeployment (deployment_id : string) (row : DeploymentRow) (d : database)
  : option database :=
  check! deployment_checks row d in
  let row := match deployments d !! deployment_id with
             | None => row
             | Some old => row <| de_CreatedAt := de_CreatedAt old |>
             end in
  Some (d <| deployments ::= <[deployment_id := row]> |>).

Definition CreateDeploymentRollout (rollout_id : string) (row : RolloutRow) (d : database)
  : option database :=
  check! fresh rollout_id (deployment_rollouts d) in
  check! exists_row (ro_DeploymentID row) (deployments d)
         && exists_row (ro_AppRevisionID row) (app_revisions d) in
  check! one_of (ro_DesiredState row) ["running"; "stopped"] in
  Some (d <| deployment_rollouts ::= <[rollout_id := row]> |>).

Definition DeleteDeploymentLabels (deployment_id : string) (d : database) : database :=
  d <| deployment_labels ::= base.filter (fun kv => kv.1.1 <> deployment_id) |>.

Definition UpsertDeploymentLabel (deployment_id key value : string) (d : database)
  : option database :=
  check! exists_row deployment_id (deployments d) in
  Some (d <| deployment_labels ::= <[(deployment_id, key) := value]> |>).

(** The columns a run is created with.  The trigger of migration 004 adds a rollout that is
    missing. *)
Definition CreateDeploymentRun (run_id : string) (row : DeploymentRunRow) (d : database)
  : option database :=
  let row := row <| dr_Status := "running" |> <| dr_DryRun := None |>
                 <| dr_ErrorMessage := None |> <| dr_FinishedAt := None |> in
  let d := if exists_row (dr_RolloutID row) (deployment_rollouts d) then d
           else d <| deployment_rollouts ::=
                    <[dr_RolloutID row :=
                        mkRolloutRow (dr_DeploymentID row) (dr_AppRevisionID row)
                          (dr_DesiredState row) (dr_RequestedAt row)]> |> in
  check! fresh run_id (deployment_runs d) in
  check! exists_row (dr_DeploymentID row) (deployments d)
         && exists_row (dr_AppRevisionID row) (app_revisions d) in
  check! (0 <? dr_WardenTerm row) && one_of (dr_DesiredState row) ["running"; "stopped"] in
  Some (d <| deployment_runs ::= <[run_id := row]> |>).

Definition FinishDeploymentRun (status : string) (dry_run : option bool)
  (error_message : option string) (finished_at : Time.t) (run_id : string) (d : database)
  : option (database * Z) :=
  match deployment_runs d !! run_id with
  | Some row =>
      if bool_decide (dr_Status row = "running") then
        check! one_of status ["running"; "succeeded"; "failed"] in
        Some (d <| deployment_runs ::=
                  <[run_id := row <| dr_Status := status |> <| dr_DryRun := dry_run |>
                                  <| dr_ErrorMessage := error_message |>
                                  <| dr_FinishedAt := Some (stamp finished_at) |>]> |>, 1)
      else Some (d, 0)
  | None => Some (d, 0)
  end.

Record DeploymentForReconcile := mkForReconcile {
  fr_DeploymentID : string;
  fr_Deployment : DeploymentRow;
  fr_Revision : AppRevisionRow;
}.
Definition GetDeploymentForReconcile (deployment_id : string) (d : database)
  : option DeploymentForReconcile :=
  row ← deployments d !! deployment_id;
  revision ← app_revisions d !! de_AppRevisionID row;
  Some (mkForReconcile deployment_id row revision).

Definition ListDeploymentLabels (deployment_id : string) (d : database)
  : list (string * string) :=
  sort_by fst ((fun kv => (kv.1.2, kv.2)) <$>
    base.filter (fun kv => kv.1.1 = deployment_id) (map_to_list (deployment_labels d))).

(** ** The view of possibly active nodes *)

(** [requested_at DESC, rollout_id DESC, run_id DESC] *)
Definition newer (a b : string * DeploymentRunRow) : bool :=
  let '(ia, ra) := a in let '(ib, rb) := b in
  if dr_RequestedAt ra =? dr_RequestedAt rb then
    if bool_decide (dr_RolloutID ra = dr_RolloutID rb) then string_lt ib ia
    else string_lt (dr_RolloutID rb) (dr_RolloutID ra)
  else dr_RequestedAt rb <? dr_RequestedAt ra.

(** The attempts the view looks at. *)
Definition attempt (deployment_id node_id : string) (row : DeploymentRunRow) : bool :=
  bool_decide (dr_DeploymentID row = deployment_id) && bool_decide (dr_NodeID row = node_id)
  && negb (bool_decide (dr_DryRun row = Some true)).

Definition latest_attempt (deployment_id node_id : string) (d : database)
  : option (string * DeploymentRunRow) :=
  foldl (fun best kv => match best with
                        | Some b => if newer kv b then Some kv else best
                        | None => Some kv
                        end) None
    (List.filter (fun kv => attempt deployment_id node_id kv.2)
       (map_to_list (deployment_runs d))).

Definition possibly_active (deployment_id node_id : string) (d : database) : bool :=
  match latest_attempt deployment_id node_id d with
  | Some (_, row) => negb (bool_decide (dr_Status row = "succeeded"))
                     || bool_decide (dr_DesiredState row = "running")
  | None => false
  end.

Definition ListPossiblyActiveDeploymentNodes (deployment_id : string) (d : database)
  : list string :=
  sort_by (fun n => n)
    (List.filter (fun node_id => possibly_active deployment_id node_id d)
       (elements (list_to_set (dr_NodeID <$> (map_to_list (deployment_runs d)).*2) : gset string))).

(** ** Transactions *)

(** How a transaction ends once its statements have been accepted: committed; lost before
    the commit, having drawn receipt identifiers; or with a failed commit, which
    PostgreSQL may have performed. *)
Inductive ending := Committed | Aborted (drawn : Z) | CommitFailed (performed : bool).

Inductive tx_error := StatementFailed (what : string) | TransactionCommitError.

Definition IsTransactionCommitError (e : tx_error) : bool :=
  match e with TransactionCommitError => true | StatementFailed _ => false end.

Definition WithTx {A} (w : ending) (fn : database -> result string (database * A))
  (d : database) : database * result tx_error A :=
  match fn d with
  | Err what => (d, Err (StatementFailed what))
  | Ok (d', a) =>
      match w with
      | Committed => (d', Ok a)
      | Aborted drawn =>
          (d <| receipt_seq ::= Z.add (Z.max 0 drawn) |>, Err (StatementFailed "connection"))
      | CommitFailed true => (d', Err TransactionCommitError)
      | CommitFailed false => (d <| receipt_seq := receipt_seq d' |>, Err TransactionCommitError)
      end
  end.

(** A statement that must be accepted. *)
Definition stmt {A} (what : string) (o : option A) : result string A :=
  match o with Some a => Ok a | None => Err what end.

(** ** Recovery when Core starts *)

Definition interrupted_run (row : OperatorRun) : bool :=
  one_of (or_Status row) ["queued"; "running"; "waiting"].
Definition FailInterruptedOperatorRuns (interrupted_at : Time.t) (d : database)
  : database * list string :=
  (d <| operator_runs ::= fmap (fun row =>
       if interrupted_run row
       then row <| or_Status := "failed" |> <| or_FinishedAt := Some (stamp interrupted_at) |>
       else row) |>,
   (map_to_list (base.filter (fun kv => interrupted_run kv.2 = true) (operator_runs d))).*1).

Definition restarted : string :=
  "CandaceOS Core restarted before the node outcome was recorded".
Definition FailInterruptedDeploymentRuns (interrupted_at : Time.t) (d : database)
  : database * list string :=
  (d <| deployment_runs ::= fmap (fun row =>
       if bool_decide (dr_Status row = "running")
       then row <| dr_Status := "failed" |> <| dr_ErrorMessage := Some restarted |>
                <| dr_FinishedAt := Some (stamp interrupted_at) |>
       else row) |>,
   (map_to_list (base.filter (fun kv => dr_Status kv.2 = "running") (deployment_runs d))).*1).

Definition ExpirePendingApprovalsOnRestart (interrupted_at : Time.t) (d : database)
  : database * list (string * string) :=
  (d <| operator_approvals ::= fmap (fun row =>
       if bool_decide (oa_Status row = "pending")
       then row <| oa_Status := "expired" |> <| oa_ResolvedAt := Some (stamp interrupted_at) |>
                <| oa_ResolvedBy := Some "core-restart" |>
       else row) |>,
   (fun kv => (kv.1, oa_PayloadSha256 kv.2)) <$>
     map_to_list (base.filter (fun kv => oa_Status kv.2 = "pending") (operator_approvals d))).

Record StartupRecovery := mkRecovery {
  InterruptedRuns : nat;
  InterruptedDeploymentRuns : nat;
  ExpiredApprovals : nat;
  ReceiptIDs : list Z;
}.

(** One receipt for each of [ids], in their order. *)
Fixpoint append_receipts (entityType kind summary : string) (at_ : Time.t)
  (ids : list (string * string)) (d : database) {struct ids} : database * list Z :=
  match ids with
  | [] => (d, [])
  | (id, payload) :: ids =>
      let '(d, receiptID) := AppendReceipt entityType id kind summary payload at_ d in
      let '(d, rest) := append_receipts entityType kind summary at_ ids d in
      (d, receiptID :: rest)
  end.

Definition recover (interruptedAt : Time.t) (d : database)
  : result string (database * StartupRecovery) :=
  let '(d, runIDs) := FailInterruptedOperatorRuns interruptedAt d in
  let runIDs := sort_by (fun s => s) runIDs in
  let '(d, deploymentRunIDs) := FailInterruptedDeploymentRuns interruptedAt d in
  let deploymentRunIDs := sort_by (fun s => s) deploymentRunIDs in
  let '(d, approvals) := ExpirePendingApprovalsOnRestart interruptedAt d in
  let approvals := sort_by fst approvals in
  let '(d, r1) := append_receipts "operator_run" "run.interrupted"
    "Agent run interrupted by CandaceOS Core restart" interruptedAt
    ((fun id => (id, "")) <$> runIDs) d in
  let '(d, r2) := append_receipts "deployment_run" "deployment.interrupted"
    "Node outcome was unknown when CandaceOS Core restarted" interruptedAt
    ((fun id => (id, "")) <$> deploymentRunIDs) d in
  let '(d, r3) := append_receipts "approval" "approval.expired"
    "Pending approval expired during CandaceOS Core restart" interruptedAt approvals d in
  Ok (d, {| InterruptedRuns := length runIDs;
            InterruptedDeploymentRuns := length deploymentRunIDs;
            ExpiredApprovals := length approvals;
            ReceiptIDs := r1 ++ r2 ++ r3 |}).

Definition RecoverInterruptedOperatorWork (w : ending) (interruptedAt : Time.t) (d : database)
  : database * result tx_error StartupRecovery :=
  if Time.IsZero interruptedAt then (d, Err (StatementFailed "interruption time is required"))
  else WithTx w (recover interruptedAt) d.

(** ** The latest attempt *)

Lemma string_lt_or a b : a <> b -> string_lt a b = true \/ string_lt b a = true.
Proof.
  intros Hn. destruct (string_lt a b) eqn:E; [by left|right].
  destruct (string_lt b a) eqn:E'; [done|]. apply string_lt_le in E, E'.
  exfalso. apply Hn. by apply (anti_symm String.le).
Qed.

Lemma newer_irrefl a : newer a a = false.
Proof.
  destruct a as [i r]. unfold newer. rewrite Z.eqb_refl, bool_decide_eq_true_2 by done.
  apply string_lt_irrefl.
Qed.

Lemma newer_total a b : a.1 <> b.1 -> newer a b = true \/ newer b a = true.
Proof.
  destruct a as [i r], b as [k s]. cbn. intros Hn. unfold newer.
  rewrite (Z.eqb_sym (dr_RequestedAt s)). destruct (Z.eqb_spec (dr_RequestedAt r) (dr_RequestedAt s)).
  - rewrite (bool_decide_ext (dr_RolloutID s = dr_RolloutID r) (dr_RolloutID r = dr_RolloutID s)) by done.
    case_bool_decide as E; [destruct (string_lt_or k i); auto|].
    destruct (string_lt_or (dr_RolloutID s) (dr_RolloutID r)); auto.
  - rewrite !Z.ltb_lt. lia.
Qed.

Lemma newer_trans a b c : newer a b = true -> newer b c = true -> newer a c = true.
Proof.
  destruct a as [i r], b as [k s], c as [m t]. unfold newer.
  destruct (Z.eqb_spec (dr_RequestedAt r) (dr_RequestedAt s)) as [E1|E1],
    (Z.eqb_spec (dr_RequestedAt s) (dr_RequestedAt t)) as [E2|E2];
    rewrite ?Z.ltb_lt; intros H1 H2.
  - destruct (Z.eqb_spec (dr_RequestedAt r) (dr_RequestedAt t)) as [_|]; [|lia].
    destruct (decide (dr_RolloutID r = dr_RolloutID s)) as [F1|F1],
      (decide (dr_RolloutID s = dr_RolloutID t)) as [F2|F2];
      rewrite ?(bool_decide_eq_true_2 _ F1), ?(bool_decide_eq_false_2 _ F1) in H1;
      rewrite ?(bool_decide_eq_true_2 _ F2), ?(bool_decide_eq_false_2 _ F2) in H2.
    + rewrite bool_decide_eq_true_2 by congruence. eauto using string_lt_trans.
    + by rewrite F1, (bool_decide_eq_false_2 _ F2).
    + by rewrite <-F2, (bool_decide_eq_false_2 _ F1).
    + pose proof (string_lt_trans _ _ _ H2 H1) as H3.
      rewrite bool_decide_eq_false_2; [done|]. intros F. rewrite F in H3.
      by rewrite string_lt_irrefl in H3.
  - destruct (Z.eqb_spec (dr_RequestedAt r) (dr_RequestedAt t)); [lia|]. apply Z.ltb_lt. lia.
  - destruct (Z.eqb_spec (dr_RequestedAt r) (dr_RequestedAt t)); [lia|]. apply Z.ltb_lt. lia.
  - destruct (Z.eqb_spec (dr_RequestedAt r) (dr_RequestedAt t)); [lia|]. apply Z.ltb_lt. lia.
Qed.

Lemma newer_antisym a b : newer a b = true -> newer b a = false.
Proof.
  intros H. destruct (newer b a) eqn:E; [|done].
  pose proof (newer_trans _ _ _ H E) as F. by rewrite newer_irrefl in F.
Qed.

(** The fold keeps the newest of what it has seen. *)
Lemma fold_newest l : forall best,
  NoDup (from_option (fun b => [b.1]) [] best ++ l.*1) ->
  match foldl (fun best kv => match best with
                              | Some b => if newer kv b then Some kv else best
                              | None => Some kv
                              end) best l with
  | Some kv => (best = Some kv \/ kv ∈ l)
      /\ forall x, best = Some x \/ x ∈ l -> x.1 <> kv.1 -> newer kv x = true
  | None => best = None /\ l = []
  end.
Proof.
  induction l as [|x l IH]; intros best Hnd; cbn.
  { destruct best as [b|]; [|done]. split; [by left|].
    intros y [[= ->]|Hy]; [done|by apply elem_of_nil in Hy]. }
  assert (forall b, best = Some b -> b.1 <> x.1) as Hne.
  { intros b ->. cbn in Hnd. apply NoDup_cons in Hnd as [Hb _]. set_solver. }
  assert (NoDup (x.1 :: l.*1) /\ NoDup (from_option (fun b => [b.1]) [] best ++ l.*1)) as [H1 H2].
  { destruct best as [b|]; cbn in *; [|by split; [|apply NoDup_cons in Hnd as [_ ?]]].
    apply NoDup_cons in Hnd as [Hb Hnd]. split; [done|].
    apply NoDup_cons in Hnd as [_ Hnd]. apply NoDup_cons. set_solver. }
  set (best' := match best with Some b => if newer x b then Some x else best | None => Some x end).
  assert (best' = Some x \/ best' = best) as Hor by (subst best'; repeat case_match; auto).
  specialize (IH best'). destruct (foldl _ best' l) as [kv|] eqn:E.
  - destruct IH as [Hin Hall]; [destruct Hor as [-> | ->]; done|]. split.
    + destruct Hin as [Hb|Hl]; [|right; by right]. destruct Hor as [Hx|Hx].
      * right. apply elem_of_cons. left. congruence.
      * left. congruence.
    + intros y Hy Hk.
      assert (newer kv y = true \/ best' = Some y \/ y ∈ l) as [?|Hy']; [|done|by apply Hall].
      destruct Hy as [->|[->|Hy]%elem_of_cons]; [| |by right; right].
      * cbn in best'. destruct (newer x y) eqn:F; [|by right; left].
        left. destruct (decide (x.1 = kv.1)) as [Ex|Ex].
        -- destruct Hin as [[= <-]|Hin]; [done|].
           apply NoDup_cons in H1 as [H1 _]. exfalso. apply H1. rewrite Ex.
           apply list_elem_of_fmap. eauto.
        -- eapply newer_trans; [|done]. apply Hall; [by left|done].
      * destruct best as [b|]; cbn in best'; [|by right; left].
        destruct (newer x b) eqn:F; [by right; left|]. left.
        assert (newer b x = true) as Hbx.
        { destruct (newer_total b x) as [?|?]; [by apply Hne|done|congruence]. }
        destruct (decide (b.1 = kv.1)) as [Eb|Eb].
        -- destruct Hin as [[= <-]|Hin]; [done|].
           cbn in H2. apply NoDup_cons in H2 as [H2 _]. exfalso. apply H2. rewrite Eb.
           apply list_elem_of_fmap. eauto.
        -- eapply newer_trans; [|done]. apply Hall; [by left|done].
  - destruct IH as [Hb _]; [destruct Hor as [-> | ->]; done|]. exfalso.
    destruct best as [b|]; subst best'; [destruct (newer x b)|]; done.
Qed.

(** An attempt that leaves a node possibly active. *)
Definition undecided (row : DeploymentRunRow) : bool :=
  negb (bool_decide (dr_Status row = "succeeded")) || bool_decide (dr_DesiredState row = "running").

Section latest.
Context (p n : string).
Implicit Types (d : database).

Lemma attempts_elem d id row :
  (id, row) ∈ List.filter (fun kv => attempt p n kv.2) (map_to_list (deployment_runs d)) <->
  deployment_runs d !! id = Some row /\ attempt p n row = true.
Proof. by rewrite list_elem_of_In, List.filter_In, <-list_elem_of_In, elem_of_map_to_list. Qed.

Lemma attempts_nodup d :
  NoDup (List.filter (fun kv => attempt p n kv.2) (map_to_list (deployment_runs d))).*1.
Proof.
  pose proof (NoDup_fst_map_to_list (deployment_runs d)) as H.
  induction (map_to_list (deployment_runs d)) as [|[id row] l IH]; cbn; [constructor|].
  rewrite fmap_cons in H. apply NoDup_cons in H as [Hn H]. specialize (IH H).
  destruct (attempt p n row); [|done]. rewrite fmap_cons. apply NoDup_cons. split; [|done].
  intros (x & E & Hx)%list_elem_of_fmap. apply Hn. rewrite E. apply list_elem_of_fmap.
  exists x. split; [done|]. by rewrite list_elem_of_In, List.filter_In, <-list_elem_of_In in Hx; destruct Hx.
Qed.

Lemma latest_attempt_spec d :
  match latest_attempt p n d with
  | Some (id, row) => deployment_runs d !! id = Some row /\ attempt p n row = true
      /\ forall id' row', deployment_runs d !! id' = Some row' -> attempt p n row' = true ->
           id' <> id -> newer (id, row) (id', row') = true
  | None => forall id row, deployment_runs d !! id = Some row -> attempt p n row = false
  end.
Proof.
  unfold latest_attempt.
  pose proof (fold_newest (List.filter (fun kv => attempt p n kv.2)
    (map_to_list (deployment_runs d))) None (attempts_nodup d)) as H.
  destruct (foldl _ None _) as [[id row]|].
  - destruct H as [[[=]|Hin] Hall]. apply attempts_elem in Hin as [Hr Ha].
    split; [done|split; [done|]]. intros id' row' Hr' Ha' Hne. apply Hall; [right|done].
    by apply attempts_elem.
  - destruct H as [_ Hnil]. intros id row Hr. destruct (attempt p n row) eqn:E; [|done].
    assert ((id, row) ∈ ([] : list (string * DeploymentRunRow))) as Hin
      by (rewrite <-Hnil; by apply attempts_elem).
    by apply elem_of_nil in Hin.
Qed.

(** A node is possibly active when its newest attempt leaves it so. *)
Lemma possibly_active_spec d : possibly_active p n d = true <->
  exists id row, deployment_runs d !! id = Some row /\ attempt p n row = true
    /\ undecided row = true
    /\ forall id' row', deployment_runs d !! id' = Some row' -> attempt p n row' = true ->
         id' <> id -> newer (id, row) (id', row') = true.
Proof.
  unfold possibly_active. pose proof (latest_attempt_spec d) as H.
  destruct (latest_attempt p n d) as [[id row]|].
  - destruct H as (Hr & Ha & Hall). split; [by eauto 10|].
    intros (id' & row' & Hr' & Ha' & Hu & Hall').
    destruct (decide (id' = id)) as [->|Hne]; [by simplify_eq|].
    pose proof (Hall id' row' Hr' Ha' Hne) as H1.
    pose proof (Hall' id row Hr Ha (not_eq_sym Hne)) as H2.
    by rewrite (newer_antisym _ _ H1) in H2.
  - split; [done|]. intros (id & row & Hr & Ha & _). by rewrite (H id row Hr) in Ha.
Qed.

Lemma ListPossiblyActive_elem d :
  n ∈ ListPossiblyActiveDeploymentNodes p d <-> possibly_active p n d = true.
Proof.
  unfold ListPossiblyActiveDeploymentNodes.
  rewrite sort_by_elem, list_elem_of_In, List.filter_In, <-list_elem_of_In.
  split; [by intros []|]. intros H. split; [|done].
  apply possibly_active_spec in H as (id & row & Hr & Ha & _).
  rewrite elem_of_elements, elem_of_list_to_set. unfold attempt in Ha.
  rewrite !andb_true_iff, !bool_decide_eq_true in Ha. destruct Ha as [[_ <-] _].
  apply list_elem_of_fmap. exists row. split; [done|]. apply list_elem_of_fmap.
  exists (id, row). split; [done|]. by apply elem_of_map_to_list.
Qed.

(** What the order of attempts reads of a row. *)
Definition same_place (row row' : DeploymentRunRow) : Prop :=
  dr_RequestedAt row' = dr_RequestedAt row /\ dr_RolloutID row' = dr_RolloutID row.

Lemma newer_same_place i r i' r' k s k' s' :
  i' = i -> k' = k -> same_place r r' -> same_place s s' ->
  newer (i', r') (k', s') = newer (i, r) (k, s).
Proof. intros -> -> [E1 E2] [E3 E4]. unfold newer. by rewrite E1, E2, E3, E4. Qed.

(** Updating rows in place so that an attempt stays one, and an undecided one undecided,
    keeps the node possibly active. *)
Lemma possibly_active_update d d' :
  (forall id row', deployment_runs d' !! id = Some row' ->
     exists row, deployment_runs d !! id = Some row /\ same_place row row'
       /\ attempt p n row' = attempt p n row
       /\ (attempt p n row = true -> undecided row = true -> undecided row' = true)) ->
  (forall id row, deployment_runs d !! id = Some row -> is_Some (deployment_runs d' !! id)) ->
  possibly_active p n d = true -> possibly_active p n d' = true.
Proof.
  intros Hback Hforth (id & row & Hr & Ha & Hu & Hall)%possibly_active_spec.
  apply possibly_active_spec. destruct (Hforth id row Hr) as [row' Hr'].
  destruct (Hback id row' Hr') as (row0 & Hr0 & Hp & Ea & Hun). assert (row0 = row) as -> by congruence.
  exists id, row'. split; [done|]. split; [by rewrite Ea|]. split; [by apply Hun|].
  intros id2 row2' Hr2' Ha2' Hne. destruct (Hback id2 row2' Hr2') as (row2 & Hr2 & Hp2 & Ea2 & _).
  rewrite (newer_same_place id row id row' id2 row2 id2 row2'); auto.
  apply Hall; [done|by rewrite <-Ea2|done].
Qed.

(** The attempts of a node decide, and nothing else. *)
Lemma possibly_active_ext d d' :
  (forall id row, attempt p n row = true ->
     deployment_runs d !! id = Some row <-> deployment_runs d' !! id = Some row) ->
  possibly_active p n d = true -> possibly_active p n d' = true.
Proof.
  intros H (id & row & Hr & Ha & Hu & Hall)%possibly_active_spec. apply possibly_active_spec.
  exists id, row. split; [by apply H|]. split; [done|]. split; [done|].
  intros id' row' Hr' Ha'. apply Hall; [by apply H|done].
Qed.

(** An undecided attempt later than all those before it. *)
Lemma possibly_active_added d d' :
  (exists id row, deployment_runs d' !! id = Some row /\ attempt p n row = true
     /\ deployment_runs d !! id = None) ->
  (forall id row, deployment_runs d' !! id = Some row -> deployment_runs d !! id = None ->
     attempt p n row = true -> undecided row = true
     /\ forall id0 row0, deployment_runs d !! id0 = Some row0 -> attempt p n row0 = true ->
          dr_RequestedAt row0 < dr_RequestedAt row) ->
  (forall id row, deployment_runs d !! id = Some row -> deployment_runs d' !! id = Some row) ->
  possibly_active p n d' = true.
Proof.
  intros (id & row & Hr & Ha & Hnew) Hadd Hold. unfold possibly_active.
  pose proof (latest_attempt_spec d') as H.
  destruct (latest_attempt p n d') as [[id' row']|]; [|by rewrite (H id row Hr) in Ha].
  destruct H as (Hr' & Ha' & Hall).
  destruct (deployment_runs d !! id') as [row0|] eqn:E; [|by apply (Hadd id' row')].
  exfalso. pose proof (Hold _ _ E) as E'. assert (row0 = row') as -> by congruence.
  destruct (Hadd id row Hr Hnew Ha) as [_ Hlt]. specialize (Hlt id' row' E Ha').
  destruct (decide (id = id')) as [->|Hne]; [congruence|].
  specialize (Hall id row Hr Ha Hne). cbn in Hall.
  destruct (Z.eqb_spec (dr_RequestedAt row') (dr_RequestedAt row)); [lia|].
  apply Z.ltb_lt in Hall. lia.
Qed.
End latest.

(** ** Recovery *)

(** The receipt of one record of a batch. *)
Definition receipt_for (entityType kind summary : string) (at_ : Time.t)
  (entity payload : string) : ActivityReceipt :=
  {| ar_EntityType := entityType; ar_EntityID := entity; ar_Kind := kind;
     ar_Summary := summary; ar_PayloadSha256 := optionalText payload;
     ar_OccurredAt := stamp at_ |}.

(** The receipts of a batch: one each, in order, with identifiers of its own; nothing else
    of the tables changes. *)
Record receipted (entityType kind summary : string) (at_ : Time.t)
  (ids : list (string * string)) (d d' : database) (receiptIDs : list Z) : Prop := {
  rc_runs : operator_runs d' = operator_runs d;
  rc_approvals : operator_approvals d' = operator_approvals d;
  rc_deployment_runs : deployment_runs d' = deployment_runs d;
  rc_ids : receiptIDs = seqZ (receipt_seq d + 1) (Z.of_nat (length ids));
  rc_seq : receipt_seq d' = receipt_seq d + Z.of_nat (length ids);
  rc_old id : id <= receipt_seq d -> activity_receipts d' !! id = activity_receipts d !! id;
  rc_new k entity payload : ids !! k = Some (entity, payload) ->
    activity_receipts d' !! (receipt_seq d + 1 + Z.of_nat k)
    = Some (receipt_for entityType kind summary at_ entity payload);
}.

Lemma append_receipts_spec entityType kind summary at_ ids : forall d,
  let res := append_receipts entityType kind summary at_ ids d in
  receipted entityType kind summary at_ ids d res.1 res.2.
Proof.
  induction ids as [|[id payload] ids IH]; intros d; cbn [append_receipts].
  { split; try done; cbn; try lia. }
  destruct (AppendReceipt _ _ _ _ _ _ d) as [d1 receiptID] eqn:E.
  specialize (IH d1). destruct (append_receipts _ _ _ _ ids d1) as [d2 rest] eqn:E2.
  unfold AppendReceipt in E. injection E as E1 <-. destruct IH as [Hr Ha Hd Hi Hs Ho Hn].
  cbn in *. subst d1. cbn in *.
  split; cbn; try done.
  - rewrite Nat2Z.inj_succ, seqZ_cons, Hi by lia. f_equal. f_equal; lia.
  - lia.
  - intros k Hk. rewrite Ho by lia. by rewrite lookup_insert_ne by lia.
  - intros [|k] entity payload' Hk; cbn in Hk.
    + injection Hk as -> ->. by rewrite Ho, Z.add_0_r, lookup_insert_eq by lia.
    + rewrite <-(Hn k entity payload' Hk). f_equal. lia.
Qed.

(** The receipts of a batch, once later batches have been added. *)
Lemma receipted_elem entityType kind summary at_ ids d d' d2 receiptIDs k receipt :
  receipted entityType kind summary at_ ids d d' receiptIDs ->
  (forall id, id <= receipt_seq d' -> activity_receipts d2 !! id = activity_receipts d' !! id) ->
  k ∈ receiptIDs -> activity_receipts d2 !! k = Some receipt ->
  exists entity payload, (entity, payload) ∈ ids
    /\ receipt = receipt_for entityType kind summary at_ entity payload.
Proof.
  intros [_ _ _ -> Hs _ Hn] Hold Hk%elem_of_seqZ Hr.
  destruct (lookup_lt_is_Some_2 ids (Z.to_nat (k - (receipt_seq d + 1)))) as [[entity payload] He]; [lia|].
  exists entity, payload. split; [by eapply list_elem_of_lookup_2|].
  rewrite Hold in Hr by lia. specialize (Hn _ _ _ He).
  replace (receipt_seq d + 1 + Z.of_nat (Z.to_nat (k - (receipt_seq d + 1)))) with k in Hn by lia.
  congruence.
Qed.

Lemma receipted_has entityType kind summary at_ ids d d' d2 receiptIDs entity payload :
  receipted entityType kind summary at_ ids d d' receiptIDs ->
  (forall id, id <= receipt_seq d' -> activity_receipts d2 !! id = activity_receipts d' !! id) ->
  (entity, payload) ∈ ids ->
  exists k, k ∈ receiptIDs
    /\ activity_receipts d2 !! k = Some (receipt_for entityType kind summary at_ entity payload).
Proof.
  intros [_ _ _ -> Hs _ Hn] Hold [k Hk]%list_elem_of_lookup.
  exists (receipt_seq d + 1 + Z.of_nat k). pose proof (lookup_lt_Some _ _ _ Hk).
  rewrite elem_of_seqZ, Hold by lia. split; [lia|]. by apply Hn.
Qed.

(** A record that a restart interrupts, and what its receipt says. *)
Inductive open_record (at_ : Time.t) (d : database) : ActivityReceipt -> Prop :=
| open_operator_run id row :
    operator_runs d !! id = Some row -> or_Status row ∈ ["queued"; "running"; "waiting"] ->
    open_record at_ d (receipt_for "operator_run" "run.interrupted"
      "Agent run interrupted by CandaceOS Core restart" at_ id "")
| open_deployment_run id row :
    deployment_runs d !! id = Some row -> dr_Status row = "running" ->
    open_record at_ d (receipt_for "deployment_run" "deployment.interrupted"
      "Node outcome was unknown when CandaceOS Core restarted" at_ id "")
| open_approval id row :
    operator_approvals d !! id = Some row -> oa_Status row = "pending" ->
    open_record at_ d (receipt_for "approval" "approval.expired"
      "Pending approval expired during CandaceOS Core restart" at_ id (oa_PayloadSha256 row)).

(** The identifiers a statement returns, with the payloads of their receipts. *)
Lemma returned_elem {A} (P : string * A -> Prop) `{!forall kv, Decision (P kv)}
  (m : gmap string A) id payload :
  (id, payload) ∈ (fun id => (id, "")) <$> sort_by (fun s => s)
    (map_to_list (base.filter P m)).*1
  <-> payload = "" /\ exists row, m !! id = Some row /\ P (id, row).
Proof.
  rewrite list_elem_of_fmap. setoid_rewrite sort_by_elem. setoid_rewrite list_elem_of_fmap.
  setoid_rewrite elem_of_map_to_list'. setoid_rewrite map_lookup_filter_Some. split.
  - intros (? & [= -> ->] & [id' row] & -> & ?). eauto.
  - intros (-> & row & ?). exists id. split; [done|]. by exists (id, row).
Qed.

Lemma expired_elem (m : gmap string OperatorApproval) id payload :
  (id, payload) ∈ sort_by fst ((fun kv => (kv.1, oa_PayloadSha256 kv.2)) <$>
    map_to_list (base.filter (fun kv => oa_Status kv.2 = "pending") m))
  <-> exists row, m !! id = Some row /\ oa_Status row = "pending" /\ payload = oa_PayloadSha256 row.
Proof.
  rewrite sort_by_elem, list_elem_of_fmap. setoid_rewrite elem_of_map_to_list'.
  setoid_rewrite map_lookup_filter_Some. split.
  - intros ([id' row] & [= -> ->] & ?). naive_solver.
  - intros (row & ? & ? & ->). by exists (id, row).
Qed.

(** What a recovery leaves. *)
Record recovered (at_ : Time.t) (d d' : database) (r : StartupRecovery) : Prop := {
  rv_runs : operator_runs d' = operator_runs (FailInterruptedOperatorRuns at_ d).1;
  rv_deployment_runs : deployment_runs d' = deployment_runs (FailInterruptedDeploymentRuns at_ d).1;
  rv_approvals : operator_approvals d' = operator_approvals (ExpirePendingApprovalsOnRestart at_ d).1;
  rv_counts : InterruptedRuns r
      = size (base.filter (fun kv => interrupted_run kv.2 = true) (operator_runs d))
    /\ InterruptedDeploymentRuns r
      = size (base.filter (fun kv => dr_Status kv.2 = "running") (deployment_runs d))
    /\ ExpiredApprovals r
      = size (base.filter (fun kv => oa_Status kv.2 = "pending") (operator_approvals d));
  rv_new : ReceiptIDs r = seqZ (receipt_seq d + 1)
    (Z.of_nat (InterruptedRuns r + InterruptedDeploymentRuns r + ExpiredApprovals r));
  rv_old k : k <= receipt_seq d -> activity_receipts d' !! k = activity_receipts d !! k;
  rv_receipts receipt : open_record at_ d receipt <->
    exists k, k ∈ ReceiptIDs r /\ activity_receipts d' !! k = Some receipt;
}.

(** The receipts of batches that follow each other. *)
Definition batch := (string * string * string * list (string * string))%type.
Definition written (at_ : Time.t) (b : batch) (receipt : ActivityReceipt) : Prop :=
  let '(entityType, kind, summary, ids) := b in
  exists entity payload, (entity, payload) ∈ ids
    /\ receipt = receipt_for entityType kind summary at_ entity payload.
Definition batch_receipted (at_ : Time.t) (b : batch) : database -> database -> list Z -> Prop :=
  let '(entityType, kind, summary, ids) := b in receipted entityType kind summary at_ ids.

Lemma batch_written at_ b d d' d2 receiptIDs receipt :
  batch_receipted at_ b d d' receiptIDs ->
  (forall k, k <= receipt_seq d' -> activity_receipts d2 !! k = activity_receipts d' !! k) ->
  (exists k, k ∈ receiptIDs /\ activity_receipts d2 !! k = Some receipt) <-> written at_ b receipt.
Proof.
  destruct b as [[[ty kind] summary] ids]. intros Hb Hold. split.
  - intros (k & Hk & Hr). by eapply receipted_elem.
  - intros (entity & payload & He & ->). by eapply receipted_has.
Qed.

(** What the batches leave of the database, and the receipts they write. *)
Record batched (at_ : Time.t) (bs : list batch) (d d' : database) (receiptIDs : list Z) : Prop := {
  bt_runs : operator_runs d' = operator_runs d;
  bt_approvals : operator_approvals d' = operator_approvals d;
  bt_deployment_runs : deployment_runs d' = deployment_runs d;
  bt_ids : receiptIDs = seqZ (receipt_seq d + 1) (receipt_seq d' - receipt_seq d);
  bt_seq : receipt_seq d' = receipt_seq d + Z.of_nat (sum_list_with (fun b => length b.2) bs);
  bt_old k : k <= receipt_seq d -> activity_receipts d' !! k = activity_receipts d !! k;
  bt_written receipt : (exists k, k ∈ receiptIDs /\ activity_receipts d' !! k = Some receipt)
    <-> exists b, b ∈ bs /\ written at_ b receipt;
}.

Lemma batched_nil at_ d : batched at_ [] d d [].
Proof.
  split; try done; cbn; try lia.
  - by rewrite Z.sub_diag.
  - intros receipt. split; [by intros (? & ?%elem_of_nil & _)|by intros (? & ?%elem_of_nil & _)].
Qed.

Lemma batched_cons at_ b bs d d1 d2 r1 r2 :
  batch_receipted at_ b d d1 r1 -> batched at_ bs d1 d2 r2 -> batched at_ (b :: bs) d d2 (r1 ++ r2).
Proof.
  intros Hb [R A D I S O W].
  assert (forall receipt, (exists k, k ∈ r1 /\ activity_receipts d2 !! k = Some receipt)
    <-> written at_ b receipt) as Hw by (intros; by eapply batch_written).
  destruct b as [[[ty kind] summary] ids], Hb as [Rb Ab Db Ib Sb Ob _].
  split; [congruence..| | | |]; cbn [sum_list_with snd] in *.
  - rewrite Ib, I, Sb.
    replace (receipt_seq d2 - receipt_seq d)
      with (Z.of_nat (length ids) + (receipt_seq d2 - (receipt_seq d + Z.of_nat (length ids)))) by lia.
    rewrite seqZ_app by lia. do 2 f_equal. lia.
  - lia.
  - intros k Hk. rewrite O by lia. by apply Ob.
  - intros receipt. setoid_rewrite elem_of_app. setoid_rewrite elem_of_cons.
    specialize (Hw receipt). specialize (W receipt). naive_solver.
Qed.

(** The batches of a recovery: a receipt for each open record. *)
Definition interruption_batches (d : database) : list batch :=
  [("operator_run", "run.interrupted", "Agent run interrupted by CandaceOS Core restart",
    (fun id => (id, "")) <$> sort_by (fun s => s) (FailInterruptedOperatorRuns 0 d).2);
   ("deployment_run", "deployment.interrupted",
    "Node outcome was unknown when CandaceOS Core restarted",
    (fun id => (id, "")) <$> sort_by (fun s => s) (FailInterruptedDeploymentRuns 0 d).2);
   ("approval", "approval.expired", "Pending approval expired during CandaceOS Core restart",
    sort_by fst (ExpirePendingApprovalsOnRestart 0 d).2)].

Lemma open_written at_ d receipt :
  open_record at_ d receipt <-> exists b, b ∈ interruption_batches d /\ written at_ b receipt.
Proof.
  split.
  - intros [id row Hr Hs|id row Hr Hs|id row Hr Hs].
    + eexists. split; [by left|]. exists id, "". split; [|done]. apply returned_elem.
      split; [done|]. exists row. split; [done|]. by apply bool_decide_eq_true.
    + eexists. split; [by right; left|]. exists id, "". split; [|done]. apply returned_elem. eauto.
    + eexists. split; [by right; right; left|]. exists id, (oa_PayloadSha256 row).
      split; [|done]. apply expired_elem. eauto.
  - intros (b & [->|[->|[->|[]%elem_of_nil]%elem_of_cons]%elem_of_cons]%elem_of_cons & Hb);
      cbn [written] in Hb; destruct Hb as (id & payload & He & ->).
    + apply returned_elem in He as (-> & row & Hr & Hs%bool_decide_eq_true).
      by eapply open_operator_run.
    + apply returned_elem in He as (-> & row & Hr & Hs). by eapply open_deployment_run.
    + apply expired_elem in He as (row & Hr & Hs & ->). by apply open_approval.
Qed.

Lemma recover_spec at_ d d' r : recover at_ d = Ok (d', r) -> recovered at_ d d' r.
Proof.
  unfold recover. destruct (FailInterruptedOperatorRuns at_ d) as [d1 runs] eqn:E1.
  destruct (FailInterruptedDeploymentRuns at_ d1) as [d2 druns] eqn:E2.
  destruct (ExpirePendingApprovalsOnRestart at_ d2) as [d3 approvals] eqn:E3.
  pose proof (append_receipts_spec "operator_run" "run.interrupted"
    "Agent run interrupted by CandaceOS Core restart" at_
    ((fun id => (id, "")) <$> sort_by (fun s => s) runs) d3) as H1.
  destruct (append_receipts "operator_run" _ _ at_ _ d3) as [d4 r1]. cbn [fst snd] in H1.
  pose proof (append_receipts_spec "deployment_run" "deployment.interrupted"
    "Node outcome was unknown when CandaceOS Core restarted" at_
    ((fun id => (id, "")) <$> sort_by (fun s => s) druns) d4) as H2.
  destruct (append_receipts "deployment_run" _ _ at_ _ d4) as [d5 r2]. cbn [fst snd] in H2.
  pose proof (append_receipts_spec "approval" "approval.expired"
    "Pending approval expired during CandaceOS Core restart" at_ (sort_by fst approvals) d5) as H3.
  destruct (append_receipts "approval" _ _ at_ _ d5) as [d6 r3]. cbn [fst snd] in H3.
  injection E1 as <- <-. injection E2 as <- <-. injection E3 as <- <-.
  intros [= <- <-].
  match type of H1 with receipted _ _ _ _ _ ?d3 _ _ =>
    assert (batched at_ (interruption_batches d) d3 d6 (r1 ++ r2 ++ r3 ++ [])) as [R A D I S O W] end.
  { do 3 (eapply batched_cons; [eassumption|]). apply batched_nil. }
  clear H1 H2 H3. rewrite app_nil_r in *. cbn -[sort_by] in S. rewrite !length_fmap in S.
  cbn in R, A, D, I, S, O.
  split; cbn [InterruptedRuns InterruptedDeploymentRuns ExpiredApprovals ReceiptIDs]; try done.
  - by rewrite !sort_by_length, !length_fmap, !length_map_to_list.
  - rewrite I. cbn. f_equal. lia.
  - intros receipt. by rewrite W, <-open_written.
Qed.

(** A run that an interruption failed was undecided, and stays so. *)
Lemma interrupted_active at_ d d' p n :
  deployment_runs d' = deployment_runs (FailInterruptedDeploymentRuns at_ d).1 ->
  possibly_active p n d = true -> possibly_active p n d' = true.
Proof.
  intros E. cbn in E. apply possibly_active_update; rewrite E.
  - intros id row'. rewrite lookup_fmap, fmap_Some. intros (row & Hr & ->). exists row.
    split; [done|]. case_bool_decide as Hs; [|by split].
    split; [done|split; [done|]]. intros _. done.
  - intros id row Hr. by rewrite lookup_fmap, Hr.
Qed.

(** C21: Nothing is left open across a restart.  When Core has recovered, no operator run is
    queued, running or waiting, no deployment run is running and no approval is pending;
    no row has gone, and each is as it was unless it was open, when it is closed as of the
    recovery and keeps all else.  The receipts the recovery reports continue the log, no
    earlier one is touched, and what they say is exactly what was open: for each such run,
    deployment run and approval one that names it, says what befell it and, for an approval,
    its payload, and none for anything else.  And a node that may have been running a
    deployment still counts as such. *)
Theorem startup_recovery_closes_all (w : ending) (at_ : Time.t) (d d' : database)
  (r : StartupRecovery)
  (H : RecoverInterruptedOperatorWork w at_ d = (d', Ok r)) :
  map_Forall (fun _ row => or_Status row ∉ ["queued"; "running"; "waiting"]) (operator_runs d')
  /\ map_Forall (fun _ row => dr_Status row <> "running") (deployment_runs d')
  /\ map_Forall (fun _ row => oa_Status row <> "pending") (operator_approvals d')
  /\ dom (operator_runs d') = dom (operator_runs d)
  /\ dom (deployment_runs d') = dom (deployment_runs d)
  /\ dom (operator_approvals d') = dom (operator_approvals d)
  /\ (forall id row row', operator_runs d !! id = Some row -> operator_runs d' !! id = Some row' ->
        row' = row \/ or_Status row ∈ ["queued"; "running"; "waiting"]
          /\ row' = row <| or_Status := "failed" |> <| or_FinishedAt := Some (stamp at_) |>)
  /\ (forall id row row', deployment_runs d !! id = Some row -> deployment_runs d' !! id = Some row' ->
        row' = row \/ dr_Status row = "running"
          /\ row' = row <| dr_Status := "failed" |> <| dr_ErrorMessage := Some restarted |>
                       <| dr_FinishedAt := Some (stamp at_) |>)
  /\ (forall id row row', operator_approvals d !! id = Some row ->
        operator_approvals d' !! id = Some row' ->
        row' = row \/ oa_Status row = "pending"
          /\ row' = row <| oa_Status := "expired" |> <| oa_ResolvedAt := Some (stamp at_) |>
                       <| oa_ResolvedBy := Some "core-restart" |>)
  /\ InterruptedRuns r
     = size (base.filter (fun kv => interrupted_run kv.2 = true) (operator_runs d))
  /\ InterruptedDeploymentRuns r
     = size (base.filter (fun kv => dr_Status kv.2 = "running") (deployment_runs d))
  /\ ExpiredApprovals r
     = size (base.filter (fun kv => oa_Status kv.2 = "pending") (operator_approvals d))
  /\ ReceiptIDs r = seqZ (receipt_seq d + 1)
       (Z.of_nat (InterruptedRuns r + InterruptedDeploymentRuns r + ExpiredApprovals r))
  /\ (forall k, k <= receipt_seq d -> activity_receipts d' !! k = activity_receipts d !! k)
  /\ (forall receipt, open_record at_ d receipt <->
        exists k, k ∈ ReceiptIDs r /\ activity_receipts d' !! k = Some receipt)
  /\ (forall p n, possibly_active p n d = true -> possibly_active p n d' = true).
Proof.
  unfold RecoverInterruptedOperatorWork in H. destruct (Time.IsZero at_); [done|].
  assert (recover at_ d = Ok (d', r)) as Hrec.
  { unfold WithTx in H. destruct (recover at_ d) as [[d1 r1]|]; [|done].
    by destruct w as [| |[]]; simplify_eq. }
  destruct (recover_spec _ _ _ _ Hrec) as [E1 E2 E3 (N1 & N2 & N3) Hids Hold Hreceipts].
  pose proof (fun p n => interrupted_active at_ d d' p n E2) as Hact. cbn in E1, E2, E3.
  rewrite E1, E2, E3, !dom_fmap_L.
  split; [|split; [|split; [|do 3 (split; [done|]); split; [|split; [|split; [|auto 9]]]]]].
  - intros id row. rewrite lookup_fmap, fmap_Some. intros (row0 & _ & ->).
    destruct (interrupted_run row0) eqn:F; [cbn; set_solver|].
    by apply bool_decide_eq_false in F.
  - intros id row. rewrite lookup_fmap, fmap_Some. intros (row0 & _ & ->). by case_bool_decide.
  - intros id row. rewrite lookup_fmap, fmap_Some. intros (row0 & _ & ->). by case_bool_decide.
  - intros id row row' Hr. rewrite lookup_fmap, Hr. intros [= <-].
    destruct (interrupted_run row) eqn:F; [right|by left]. by apply bool_decide_eq_true in F.
  - intros id row row' Hr. rewrite lookup_fmap, Hr. intros [= <-].
    case_bool_decide; [by right|by left].
  - intros id row row' Hr. rewrite lookup_fmap, Hr. intros [= <-].
    case_bool_decide; [by right|by left].
Qed.

(** A Core that stopped during a rollout, with an approval pending. *)
Definition interrupted_database : database :=
  empty_database
    <| operator_runs := {["op" := mkOperatorRun "s" "t" "p" "waiting" 1 None]} |>
    <| operator_approvals := {["ap" := mkOperatorApproval (Some "op") None "k" "t" "d" "high"
         "sha" "pending" 1 9 None None]} |>
    <| deployment_runs := {["r1" := mkDeploymentRunRow "shop" "shop-1" "n1" 3 "n1" "running"
         None None 5000 None "o1" "stopped"]} |>.

Lemma startup_recovery_closes_all_witness :
  exists d' r, RecoverInterruptedOperatorWork Committed 10000 interrupted_database = (d', Ok r)
    /\ length (ReceiptIDs r) = 3%nat
    /\ (exists k, k ∈ ReceiptIDs r /\ activity_receipts d' !! k
          = Some (mkActivityReceipt "approval" "ap" "approval.expired"
              "Pending approval expired during CandaceOS Core restart" (Some "sha") (stamp 10000)))
    /\ possibly_active "shop" "n1" d' = true.
Proof.
  destruct (RecoverInterruptedOperatorWork Committed 10000 interrupted_database) as [d' [r|e]]
    eqn:E; [|by vm_compute in E].
  exists d', r. split; [done|].
  destruct (startup_recovery_closes_all _ _ _ _ _ E)
    as (_ & _ & _ & _ & _ & _ & _ & _ & _ & N1 & N2 & N3 & Hids & _ & Hr & Ha).
  split; [by rewrite Hids, N1, N2, N3|]. split; [|by apply Ha; vm_compute].
  apply Hr, (open_approval _ _ "ap" (mkOperatorApproval (Some "op") None "k" "t" "d" "high"
    "sha" "pending" 1 9 None None)); by vm_compute.
Defined.
Close Scope Z_scope.
