(* ===== verification/OsReconcile.v ===== *)
(** * CandaceOS: the reconciler

    [services/candaceos/reconcile]: service.go and approval.go, with
    [services/candaceos/agentclient].  What Git and the file system say about an app, the
    fleet snapshot, the clock and the identifiers drawn are given to an operation; the
    tables are [OsStore] and the agents that requests reach are those of [OsAgent].  The
    last section splits an operation where the code has an effect, so that operations,
    agents and restarts interleave. *)
From Stdlib Require Import Ascii.
From S2P Require Import Prelude.
From S2P Require Import GoStd.
From S2P Require Import GoText.
From S2P Require Import OsContract.
From S2P Require Import OsTypes.
From S2P Require Import OsStore.
From S2P Require OsAgent.
From S2P Require Import OsFleet.

Open Scope Z_scope.

(** ** agentclient: one hop to a node *)

Definition JoinHostPort (host port : string) : string :=
  if ContainsByte ":"%char host || ContainsByte "%"%char host
  then "[" +:+ host +:+ "]:" +:+ port else host +:+ ":" +:+ port.

Record Client := mkClient { overrideURL : string; agentPort : string }.

Definition baseURL (c : Client) (wardenAddress : string) : result string string :=
  if negb (bool_decide (overrideURL c = "")) then Ok (overrideURL c)
  else match SplitHostPort wardenAddress with
       | None => Err "deriving agent endpoint"
       | Some (host, _) => Ok ("http://" +:+ JoinHostPort host (agentPort c))
       end.

Record HealthResponse := mkHealth { h_Status : string; h_NodeId : string }.
Definition ValidateHealthResponse (message : option HealthResponse) : result string unit :=
  match message with
  | None => Err ""
  | Some m =>
      guard! bool_decide (h_Status m = "ok") else "status" in
      guard! within 1 128 (h_NodeId m) && Regexp.MatchString IdRe (h_NodeId m) else "node_id" in
      Ok tt
  end.

(** What is behind a URL during one call: its health reply, whether the request then gets
    there, what the agent meets, and whether its reply gets back. *)
Record endpoint := mkEndpoint {
  healthReply : option HealthResponse;
  requestArrives : bool;
  met : OsAgent.weather;
  replyArrives : bool;
}.

(** [timestamppb.Timestamp.CheckValid]: the years 1 to 9999 *)
Definition CheckValid (t : Time.t) : bool := (0 <=? t) && (t <? 315537897600 * Time.Second).

Abbreviation agents := (gmap string OsAgent.agent).

(** An agent handles a request when its process is up. *)
Definition deliver (runner : OsAgent.DockerComposeRunner) (nodeID : string)
  (env : OsAgent.weather) (request : ReconcileRequest) (fleet : agents)
  : agents * option (option ReconcileResponse * option OsAgent.agent_error) :=
  match fleet !! nodeID with
  | None => (fleet, None)
  | Some a =>
      match OsAgent.state a with
      | None => (fleet, None)
      | Some current =>
          let '(a, reply) := OsAgent.Reconcile runner env (Some request) current a in
          (<[nodeID := a]> fleet, Some reply)
      end
  end.

Definition checked_reply (request : ReconcileRequest) (response : ReconcileResponse)
  : result string ReconcileResponse :=
  guard! negb (bool_decide (p_Fence response = None))
         && negb (bool_decide (p_Assignment response = None))
         && bool_decide (p_Fence response = q_Fence request)
         && bool_decide (p_Assignment response = q_Assignment request)
    else "different assignment or fence" in
  match p_UpdatedAt response with
  | Some t => guard! CheckValid t else "completion timestamp" in Ok response
  | None => Err "completion timestamp"
  end.

Section service.
Context (runner : string -> OsAgent.DockerComposeRunner) (client : Client).

(** [Client.Reconcile]; [reach] is what answers at each URL. *)
Definition call (reach : string -> option endpoint) (nodeID wardenAddress : string)
  (request : ReconcileRequest) (fleet : agents)
  : agents * result string ReconcileResponse :=
  match baseURL client wardenAddress with
  | Err what => (fleet, Err what)
  | Ok url =>
      match reach url with
      | None => (fleet, Err "calling agent health")
      | Some there =>
          match ValidateHealthResponse (healthReply there), healthReply there with
          | Ok _, Some health =>
              if negb (bool_decide (h_NodeId health = nodeID)) then
                (fleet, Err "agent identity mismatch")
              else if negb (requestArrives there) then (fleet, Err "calling agent")
              else
                let '(fleet, reply) := deliver (runner nodeID) nodeID (met there) request fleet in
                (fleet,
                 match reply with
                 | Some (Some response, None) =>
                     if replyArrives there then checked_reply request response
                     else Err "reading agent reconciliation"
                 | Some (_, Some _) => Err "agent reconciliation returned"
                 | Some (None, None) | None => Err "calling agent"
                 end)
          | _, _ => (fleet, Err "agent health")
          end
      end
  end.

(** ** service.go: an app at HEAD *)

(** What Git and the file system answer about the workspace.  [withoutUser] is the text of
    a URL that has a scheme, a host and a user, less the user. *)
Record gitview := mkGitview {
  inside : string -> bool;                  (* [resolveInside] *)
  statusOutput : string -> option string;   (* git status --porcelain *)
  headOutput : option string;               (* git rev-parse HEAD *)
  materialize : string -> string -> result string string;  (* [MaterializeGitAppSource] *)
  regular : string -> bool;                 (* a regular file in the extracted tree *)
  originOutput : option string;             (* git config --get remote.origin.url *)
  withoutUser : string -> option string;
}.

Definition findCompose (git : gitview) (relative : string) : result string string :=
  match List.find (regular git)
          ["compose.yaml"; "compose.yml"; "docker-compose.yaml"; "docker-compose.yml"] with
  | Some name => Ok (Clean (relative +:+ "/" +:+ name))
  | None => Err "no standard Compose file"
  end.

Definition stripURLUserinfo (git : gitview) (source : string) : string :=
  default source (withoutUser git source).

Definition revision (git : gitview) (app relativePath : string)
  : result string (AppRevision * string) :=
  guard! inside git relativePath else "resolving app path" in
  match statusOutput git relativePath with
  | None => Err "checking app source status"
  | Some status =>
      guard! bool_decide (TrimSpace status = "") else "uncommitted changes" in
      match headOutput git with
      | None => Err "reading immutable Git revision"
      | Some head =>
          let revisionSHA := TrimSpace head in
          let! digest := materialize git revisionSHA relativePath in
          let! composePath := findCompose git relativePath in
          let source :=
            match originOutput git with
            | None => ""
            | Some text => stripURLUserinfo git (TrimSpace text)
            end in
          let source := if bool_decide (source = "") then "local://candaceos-workspace"
                        else source in
          let r := {| v_ID := app +:+ "-" +:+ revisionSHA; v_AppID := app; v_Source := source;
                      v_Revision := revisionSHA; v_Digest := digest;
                      v_ComposePath := composePath |} in
          guard! is_ok (AppRevision_Validate r) else "app revision" in
          Ok (r, composePath)
      end
  end.

(** ** service.go: intents *)

Definition ownedReconcileIntent (input : option ReconcileIntent)
  : result string ReconcileIntent :=
  match input with
  | None => Err "reconcile intent"
  | Some owned => let! _ := ValidateReconcileIntent (Some owned) in Ok owned
  end.

Definition desiredStateFrom (value : Z) : result string string :=
  if value =? DESIRED_STATE_RUNNING then Ok DesiredStateRunning
  else if value =? DESIRED_STATE_STOPPED then Ok DesiredStateStopped
  else Err "desired_state must be running or stopped".

(** The placement, its column, the exact node and the replicas. *)
Definition placementFrom (input : ReconcileIntent)
  : result string (Placement * string * string * Z) :=
  if i_PlacementMode input =? PLACEMENT_MODE_EXACT_NODE then
    Ok (mkPlacement (Some (i_NodeId input)) None None, "node", i_NodeId input, 1)
  else if i_PlacementMode input =? PLACEMENT_MODE_LEADER then
    Ok (mkPlacement None (Some tt) None, "leader", "", 1)
  else if i_PlacementMode input =? PLACEMENT_MODE_LABELS then
    Ok (mkPlacement None None (Some (mkMatchLabels (i_Labels input) (i_Replicas input))),
        "labels", "", i_Replicas input)
  else Err "placement_mode must be exact_node, leader, or labels".

Definition assignmentFrom (input : ReconcileIntent) (r : AppRevision)
  : result string (Assignment * string) :=
  let! domainState := desiredStateFrom (i_DesiredState input) in
  let assignment :=
    {| a_App := i_App input; a_Project := i_Project input; a_Path := i_Path input;
       a_DesiredState := i_DesiredState input; a_SourceRevision := v_Revision r;
       a_ContentSha256 := v_Digest r |} in
  guard! UTF8.ValidString (i_Path input) else "path must be valid UTF-8" in
  let! _ := ValidateAssignment (Some assignment) in
  Ok (assignment, domainState).

Definition persistedStopInput (request : ReconcileIntent) (d : database)
  : result string (ReconcileIntent * AppRevision * string) :=
  match GetDeploymentForReconcile (i_Project request) d with
  | None => Err "loading deployment for stop"
  | Some persisted =>
      let row := fr_Deployment persisted in
      let rev := fr_Revision persisted in
      guard! bool_decide (i_App request = av_AppName rev)
             && bool_decide (i_Project request = de_ProjectName row)
             && bool_decide (i_Path request = de_WorkspacePath row)
        else "stop request does not match persisted deployment" in
      let labels := ListDeploymentLabels (fr_DeploymentID persisted) d in
      let base :=
        {| i_App := av_AppName rev; i_Project := de_ProjectName row;
           i_Path := de_WorkspacePath row; i_DesiredState := DESIRED_STATE_STOPPED;
           i_PlacementMode := PLACEMENT_MODE_UNSPECIFIED; i_NodeId := ""; i_Labels := ∅;
           i_Replicas := de_Replicas row; i_Stateful := de_Stateful row |} in
      let! effective :=
        if bool_decide (de_PlacementMode row = "node") then
          Ok (base <| i_PlacementMode := PLACEMENT_MODE_EXACT_NODE |>
                   <| i_NodeId := default "" (de_ExactNodeID row) |>)
        else if bool_decide (de_PlacementMode row = "leader") then
          Ok (base <| i_PlacementMode := PLACEMENT_MODE_LEADER |>)
        else if bool_decide (de_PlacementMode row = "labels") then
          Ok (base <| i_PlacementMode := PLACEMENT_MODE_LABELS |>
                   <| i_Labels := list_to_map labels |>)
        else Err "invalid placement mode" in
      let! _ := ValidateReconcileIntent (Some effective) in
      let r := {| v_ID := de_AppRevisionID row; v_AppID := av_AppName rev;
                  v_Source := av_SourceRepository rev; v_Revision := av_SourceRevision rev;
                  v_Digest := av_SourceSha256 rev; v_ComposePath := av_ComposeFile rev |} in
      guard! is_ok (AppRevision_Validate r) else "validating persisted app revision" in
      Ok (effective, r, av_ComposeFile rev)
  end.

Definition resolveInput (git : gitview) (input : ReconcileIntent) (d : database)
  : result string (ReconcileIntent * AppRevision * string) :=
  let! desiredState := desiredStateFrom (i_DesiredState input) in
  if bool_decide (desiredState = DesiredStateStopped) then persistedStopInput input d
  else
    let! resolved := revision git (i_App input) (i_Path input) in
    Ok (input, resolved.1, resolved.2).

(** ** approval.go *)

Definition approvedRevision (r : AppRevision) (composePath : string) : ReconcileRevision :=
  {| rv_Id := v_ID r; rv_Source := v_Source r; rv_SourceRevision := v_Revision r;
     rv_ContentDigest := v_Digest r; rv_ComposePath := composePath |}.

Definition Prepare (git : gitview) (input : option ReconcileIntent) (d : database)
  : result string ReconcileRevision :=
  let! input := ownedReconcileIntent input in
  let! resolved := resolveInput git input d in
  let '(effective, r, composePath) := resolved in
  let! _ := assignmentFrom effective r in
  let result := approvedRevision r composePath in
  let! _ := ValidateReconcileRevision (Some result) in
  Ok result.

(** ** service.go: an operation up to its first write *)

(** What [reconcile] has established when it writes. *)
Record job := mkJob {
  j_Input : ReconcileIntent;
  j_Revision : AppRevision;
  j_ComposePath : string;
  j_Assignment : Assignment;
  j_Deployment : Deployment;
  j_Mode : string;
  j_ExactNode : string;
  j_Replicas : Z;
  j_Fleet : Fleet.Snapshot;
  j_Active : list string;
  j_Targets : list Node;
}.

(** The nodes of the snapshot by ID, the last one winning. *)
Definition nodesByID (s : Fleet.Snapshot) : gmap string Fleet.Node :=
  foldl (fun m n => <[Fleet.n_ID n := n]> m) ∅ (Fleet.Nodes s).

Definition clusterOf (labels : gmap string (gmap string string)) (s : Fleet.Snapshot)
  : ClusterSnapshot :=
  {| c_Nodes := (fun n => {| o_Id := Fleet.n_ID n;
                             o_Labels := default ∅ (labels !! Fleet.n_ID n);
                             o_Alive := bool_decide (Fleet.n_Status n = "alive") |})
                <$> Fleet.Nodes s;
     c_LeaderNodeID := Fleet.LeaderID s; c_Authoritative := Fleet.Authoritative s;
     c_HasQuorum := Fleet.HasQuorum s |}.

Definition max_int64_N : N := 9223372036854775807.

(** [reads] is whether the statements that only read succeed. *)
Definition begin (labels : gmap string (gmap string string)) (git : gitview) (reads : bool)
  (fleetSnapshot : Fleet.Snapshot) (input : option ReconcileIntent)
  (expected : option ReconcileRevision) (d : database) : result string job :=
  let! input := ownedReconcileIntent input in
  guard! reads else "store" in
  let! resolved := resolveInput git input d in
  let '(input, r, composePath) := resolved in
  guard! match expected with
         | Some e => bool_decide (approvedRevision r composePath = e)
         | None => true
         end else "app revision changed after approval" in
  let! assigned := assignmentFrom input r in
  let '(assignment, desiredState) := assigned in
  let! placed := placementFrom input in
  let '(placement, placementMode, exactNode, replicas) := placed in
  let deployment :=
    {| d_ID := i_Project input; d_AppRevisionID := v_ID r; d_DesiredState := desiredState;
       d_Placement := placement; d_Stateful := i_Stateful input |} in
  guard! is_ok (Deployment_Validate deployment) else "deployment" in
  guard! Fleet.CanMutate fleetSnapshot else "fleet mutation blocked" in
  guard! (Fleet.Term fleetSnapshot <=? max_int64_N)%N else "term exceeds the fence range" in
  let possiblyActiveNodeIDs := ListPossiblyActiveDeploymentNodes (d_ID deployment) d in
  let! targets :=
    if bool_decide (desiredState = DesiredStateRunning) then
      match ResolvePlacement deployment (clusterOf labels fleetSnapshot) with
      | Ok targets => Ok targets
      | Err _ => Err "resolving placement"
      end
    else Ok [] in
  Ok {| j_Input := input; j_Revision := r; j_ComposePath := composePath;
        j_Assignment := assignment; j_Deployment := deployment; j_Mode := placementMode;
        j_ExactNode := exactNode; j_Replicas := replicas; j_Fleet := fleetSnapshot;
        j_Active := possiblyActiveNodeIDs; j_Targets := targets |}.

Record deploymentRun := mkRun { r_ID : string; r_NodeID : string; r_DesiredState : string }.

(** [planDeploymentRuns]; [ids] are the identifiers drawn, in order. *)
Definition planDeploymentRuns (ids : nat -> string) (activeNodeIDs : list string)
  (targets : list Node) : list deploymentRun :=
  let wanted := ((fun t => (o_Id t, DesiredStateRunning)) <$> targets)
    ++ ((fun n => (n, DesiredStateStopped)) <$>
          List.filter (fun n => negb (bool_decide (n ∈ o_Id <$> targets))) activeNodeIDs) in
  imap (fun i w => mkRun (ids i) w.1 w.2) wanted.

(** ** service.go: writes *)

Fixpoint each {A} (f : A -> database -> option database) (l : list A) (d : database)
  {struct l} : option database :=
  match l with
  | [] => Some d
  | x :: l => d ← f x d; each f l d
  end.

(** The statements of [persistIntent], and the receipt of a plan with no runs. *)
Definition intent_statements (j : job) (rolloutID : string) (runs : list deploymentRun)
  (at_ : Time.t) (d : database) : result string (database * option Z) :=
  let r := j_Revision j in
  let deployment := j_Deployment j in
  let input := j_Input j in
  let! d := stmt "storing app revision" (UpsertAppRevision (v_ID r)
    {| av_AppName := v_AppID r; av_SourceRepository := v_Source r;
       av_SourceRevision := v_Revision r; av_SourceSha256 := v_Digest r;
       av_ComposeFile := j_ComposePath j; av_CreatedAt := stamp at_ |} d) in
  let! d := stmt "storing deployment" (UpsertDeployment (d_ID deployment)
    {| de_AppRevisionID := v_ID r; de_ProjectName := i_Project input;
       de_WorkspacePath := i_Path input; de_DesiredState := d_DesiredState deployment;
       de_PlacementMode := j_Mode j; de_ExactNodeID := optionalText (j_ExactNode j);
       de_Replicas := j_Replicas j; de_Stateful := d_Stateful deployment;
       de_CreatedAt := stamp at_; de_UpdatedAt := stamp at_ |} d) in
  let! d := stmt "storing deployment rollout" (CreateDeploymentRollout rolloutID
    {| ro_DeploymentID := d_ID deployment; ro_AppRevisionID := v_ID r;
       ro_DesiredState := d_DesiredState deployment; ro_RequestedAt := stamp at_ |} d) in
  let d := DeleteDeploymentLabels (d_ID deployment) d in
  let! d := stmt "storing deployment label" (each
    (fun kv => UpsertDeploymentLabel (d_ID deployment) kv.1 kv.2)
    (sort_by fst (map_to_list (i_Labels input))) d) in
  let! d := stmt "storing deployment run" (each
    (fun run => CreateDeploymentRun (r_ID run)
      {| dr_DeploymentID := d_ID deployment; dr_AppRevisionID := v_ID r;
         dr_NodeID := r_NodeID run; dr_WardenTerm := Z.of_N (Fleet.Term (j_Fleet j));
         dr_LeaderID := Fleet.LeaderID (j_Fleet j); dr_Status := "running";
         dr_DryRun := None; dr_ErrorMessage := None; dr_RequestedAt := stamp at_;
         dr_FinishedAt := None; dr_RolloutID := rolloutID;
         dr_DesiredState := r_DesiredState run |}) runs d) in
  match runs with
  | [] =>
      let '(d, id) := AppendReceipt "deployment_rollout" rolloutID "deployment.noop"
        "Deployment already matched the approved desired state" (v_Digest r) at_ d in
      Ok (d, Some id)
  | _ :: _ => Ok (d, None)
  end.

Definition persistIntent (w : ending) (j : job) (rolloutID : string)
  (runs : list deploymentRun) (at_ : Time.t) (d : database)
  : database * result tx_error (option Z) :=
  WithTx w (intent_statements j rolloutID runs at_) d.

(** The statements of [finishRun]; [failure] is the text of the error of the call. *)
Definition finish_statements (runID : string) (dryRun : bool) (failure : option string)
  (at_ : Time.t) (d : database) : result string (database * Z) :=
  let '(status, kind, summary) :=
    match failure with
    | Some _ => ("failed", "deployment.failed",
                 "Node agent rejected or failed the approved assignment")
    | None =>
        if dryRun then
          ("succeeded", "deployment.dry_run",
           "Node agent validated the approved assignment without mutation")
        else ("succeeded", "deployment.succeeded",
              "Node agent reconciled the approved assignment")
    end in
  let! res := stmt "finishing deployment run" (FinishDeploymentRun status (Some dryRun)
    (failure ≫= optionalText) at_ runID d) in
  let '(d, rows) := res in
  guard! rows =? 1 else "expected one row" in
  Ok (AppendReceipt "deployment_run" runID kind summary "" at_ d).

Definition finishRun (w : ending) (runID : string) (dryRun : bool) (failure : option string)
  (at_ : Time.t) (d : database) : database * result tx_error Z :=
  WithTx w (finish_statements runID dryRun failure at_) d.

(** ** service.go: one run *)

Definition request_of (j : job) (run : deploymentRun) : ReconcileRequest :=
  {| q_Fence := Some (mkFence (Fleet.Term (j_Fleet j)) (Fleet.LeaderID (j_Fleet j)));
     q_Assignment := Some (
       if bool_decide (r_DesiredState run = DesiredStateStopped)
       then (j_Assignment j) <| a_DesiredState := DESIRED_STATE_STOPPED |>
       else j_Assignment j) |}.

(** The address of a node the snapshot lacks is empty. *)
Definition address_of (j : job) (run : deploymentRun) : string :=
  match nodesByID (j_Fleet j) !! r_NodeID run with
  | Some node => Fleet.n_Address node
  | None => ""
  end.

Definition call_run (reach : string -> option endpoint) (j : job) (run : deploymentRun)
  (fleet : agents) : agents * result string ReconcileResponse :=
  call reach (r_NodeID run) (address_of j run) (request_of j run) fleet.

(** The dry-run flag and the error that are recorded. *)
Definition outcome_of (called : result string ReconcileResponse) : bool * option string :=
  match called with
  | Ok response => (p_DryRun response, None)
  | Err what => (false, Some what)
  end.

(** ** [reconcile] in one piece *)

Record world := mkWorld { db : database; nodes : agents }.
#[local] Instance Rebuild_world : Rebuild world := fun w => mkWorld (db w) (nodes w).

(** What an operation meets: the clock and the identifiers drawn, how its transactions end
    and what is behind each URL, by run. *)
Record occasion := mkOccasion {
  git : gitview;
  reads : bool;
  snapshot : Fleet.Snapshot;
  persistedAt : Time.t;
  rolloutID : string;
  runIDs : nat -> string;
  intentEnding : ending;
  reachOf : nat -> string -> option endpoint;
  finishedAt : nat -> Time.t;
  finishEnding : nat -> ending;
}.

(** The loop over the runs, from the [i]th on. *)
Fixpoint converge (o : occasion) (j : job) (i : nat) (runs : list deploymentRun)
  (w : world) (output : ReconcileEvidence) {struct runs}
  : world * ReconcileEvidence * list string :=
  match runs with
  | [] => (w, output, [])
  | run :: runs =>
      let '(fleet, called) := call_run (reachOf o i) j run (nodes w) in
      let '(dryRun, failure) := outcome_of called in
      let '(d, recorded) :=
        finishRun (finishEnding o i) (r_ID run) dryRun failure (finishedAt o i) (db w) in
      let w := {| db := d; nodes := fleet |} in
      match failure with
      | Some what =>
          let '(w, output, errors) := converge o j (S i) runs w output in
          (w, output, what :: errors)
      | None =>
          match recorded with
          | Err _ =>
              let '(w, output, errors) := converge o j (S i) runs w output in
              (w, output, "record" :: errors)
          | Ok receiptID =>
              converge o j (S i) runs w
                (output <| ev_RunIds ::= (.++ [r_ID run]) |>
                        <| ev_NodeIds ::= (.++ [r_NodeID run]) |>
                        <| ev_ReceiptIds ::= (.++ [receiptID]) |>
                        <| ev_DryRun ::= fun b => b && dryRun |>)
          end
      end
  end.

Definition reconcile (labels : gmap string (gmap string string)) (o : occasion)
  (input : option ReconcileIntent) (expected : option ReconcileRevision) (w : world)
  : world * (option ReconcileEvidence * option string) :=
  match begin labels (git o) (reads o) (snapshot o) input expected (db w) with
  | Err what => (w, (None, Some what))
  | Ok j =>
      let runs := planDeploymentRuns (runIDs o) (j_Active j) (j_Targets j) in
      let '(d, persisted) :=
        persistIntent (intentEnding o) j (rolloutID o) runs (persistedAt o) (db w) in
      let w := w <| db := d |> in
      match persisted with
      | Err _ => (w, (None, Some "persisting intent"))
      | Ok noOpReceiptID =>
          let output :=
            {| ev_DeploymentId := d_ID (j_Deployment j); ev_RevisionId := v_ID (j_Revision j);
               ev_RunIds := []; ev_NodeIds := [];
               ev_ReceiptIds := match noOpReceiptID with Some id => [id] | None => [] end;
               ev_DryRun := (0 <? length runs)%nat |} in
          let '(w, output, errors) := converge o j 0 runs w output in
          match ValidateReconcileEvidence (Some output) with
          | Err _ => (w, (None, Some "reconcile evidence"))
          | Ok _ =>
              (w, (Some output,
                   if (0 <? length errors)%nat
                   then Some "one or more node reconciliations failed" else None))
          end
      end
  end.

Definition Reconcile (labels : gmap string (gmap string string)) (o : occasion)
  (input : option ReconcileIntent) (w : world)
  : world * (option ReconcileEvidence * option string) :=
  reconcile labels o input None w.

Definition ReconcileApproved (labels : gmap string (gmap string string)) (o : occasion)
  (input : option ReconcileIntent) (expected : option ReconcileRevision) (w : world)
  : world * (option ReconcileEvidence * option string) :=
  match ValidateReconcileRevision expected, expected with
  | Ok _, Some ownedExpected => reconcile labels o input (Some ownedExpected) w
  | _, _ => (w, (None, Some "approved app revision"))
  end.
End service.

(** ** What the writes do to the table of runs *)

Lemma stmt_ok {A} what (o : option A) a : stmt what o = Ok a <-> o = Some a.
Proof. destruct o; naive_solver. Qed.

Lemma check_some {A} (b : bool) (k : option A) a : (check! b in k) = Some a <-> b = true /\ k = Some a.
Proof. destruct b; naive_solver. Qed.

Lemma UpsertAppRevision_runs id row d d' :
  UpsertAppRevision id row d = Some d' -> deployment_runs d' = deployment_runs d.
Proof.
  unfold UpsertAppRevision. destruct (exists_row _ _); [by intros [= ->]|].
  by intros [_ [= <-]]%check_some.
Qed.

Lemma UpsertDeployment_runs id row d d' :
  UpsertDeployment id row d = Some d' -> deployment_runs d' = deployment_runs d.
Proof. by intros [_ [= <-]]%check_some. Qed.

Lemma CreateDeploymentRollout_runs id row d d' :
  CreateDeploymentRollout id row d = Some d' -> deployment_runs d' = deployment_runs d.
Proof. by intros (_ & (_ & (_ & [= <-])%check_some)%check_some)%check_some. Qed.

Lemma labels_runs id l : forall d d',
  each (fun kv : string * string => UpsertDeploymentLabel id kv.1 kv.2) l d = Some d' ->
  deployment_runs d' = deployment_runs d.
Proof.
  induction l as [|kv l IH]; intros d d'; cbn; [by intros [= ->]|].
  intros (d1 & H1 & H)%bind_Some. rewrite (IH _ _ H). by apply check_some in H1 as [_ [= <-]].
Qed.

Definition row_of (j : job) (rolloutID : string) (at_ : Time.t) (run : deploymentRun)
  : DeploymentRunRow :=
  {| dr_DeploymentID := d_ID (j_Deployment j); dr_AppRevisionID := v_ID (j_Revision j);
     dr_NodeID := r_NodeID run; dr_WardenTerm := Z.of_N (Fleet.Term (j_Fleet j));
     dr_LeaderID := Fleet.LeaderID (j_Fleet j); dr_Status := "running"; dr_DryRun := None;
     dr_ErrorMessage := None; dr_RequestedAt := stamp at_; dr_FinishedAt := None;
     dr_RolloutID := rolloutID; dr_DesiredState := r_DesiredState run |}.

(** The table of runs with the rows of a plan added. *)
Record runs_added (j : job) (rolloutID : string) (at_ : Time.t) (runs : list deploymentRun)
  (d d' : database) : Prop := {
  ra_old id row : deployment_runs d !! id = Some row -> deployment_runs d' !! id = Some row;
  ra_each run : run ∈ runs ->
    deployment_runs d !! r_ID run = None
    /\ deployment_runs d' !! r_ID run = Some (row_of j rolloutID at_ run);
  ra_only id row : deployment_runs d' !! id = Some row -> deployment_runs d !! id = None ->
    exists run, run ∈ runs /\ row = row_of j rolloutID at_ run;
}.

Lemma create_runs j rolloutID at_ runs : forall d d',
  each (fun run => CreateDeploymentRun (r_ID run) (row_of j rolloutID at_ run)) runs d = Some d' ->
  runs_added j rolloutID at_ runs d d'.
Proof.
  induction runs as [|run runs IH]; intros d d'; cbn [each].
  { intros [= ->]. split; [done|by intros ? ?%elem_of_nil|congruence]. }
  intros (d1 & H1 & H)%bind_Some. destruct (IH _ _ H) as [Hold Heach Honly]. clear IH H.
  set (row := row_of j rolloutID at_ run) in *.
  assert (deployment_runs d !! r_ID run = None
          /\ deployment_runs d1 = <[r_ID run := row]> (deployment_runs d)) as [Hf E].
  { unfold CreateDeploymentRun in H1. destruct (exists_row (dr_RolloutID _) _); cbn in H1;
      apply check_some in H1 as (Hf%bool_decide_eq_true & (_ & (_ & [= <-])%check_some)%check_some);
      cbn in Hf; done. }
  split.
  - intros id row0 Hr. apply Hold. rewrite E, lookup_insert_ne; [done|congruence].
  - intros run' [->|Hin]%elem_of_cons.
    + split; [done|]. apply Hold. by rewrite E, lookup_insert_eq.
    + destruct (Heach run' Hin) as [Hn Hr]. split; [|done]. rewrite E in Hn.
      by apply lookup_insert_None in Hn as [Hn _].
  - intros id row0 Hr Hn. destruct (decide (id = r_ID run)) as [->|Hne].
    + exists run. split; [by left|]. specialize (Hold (r_ID run) row).
      rewrite E, lookup_insert_eq in Hold. rewrite Hold in Hr by done. by injection Hr.
    + destruct (Honly id row0 Hr) as (run' & Hin & ->); [by rewrite E, lookup_insert_ne|].
      exists run'. split; [by right|done].
Qed.

Lemma intent_statements_runs j rolloutID runs at_ d d' r :
  intent_statements j rolloutID runs at_ d = Ok (d', r) ->
  runs_added j rolloutID at_ runs d d'.
Proof.
  unfold intent_statements. intros H.
  apply bind_ok in H as (d1 & H1%stmt_ok & H). apply bind_ok in H as (d2 & H2%stmt_ok & H).
  apply bind_ok in H as (d3 & H3%stmt_ok & H). apply bind_ok in H as (d4 & H4%stmt_ok & H).
  apply bind_ok in H as (d5 & H5%stmt_ok & H).
  apply UpsertAppRevision_runs in H1. apply UpsertDeployment_runs in H2.
  apply CreateDeploymentRollout_runs in H3. apply labels_runs in H4. cbn in H4.
  assert (deployment_runs d4 = deployment_runs d) as E by congruence.
  apply create_runs in H5.
  assert (deployment_runs d' = deployment_runs d5) as E' by (by destruct runs; simplify_eq/=).
  destruct H5 as [Hold Heach Honly]. rewrite E in Hold, Heach, Honly.
  split; setoid_rewrite E'; done.
Qed.

(** A transaction leaves the tables alone, or its statements were accepted. *)
Lemma WithTx_cases {A} w (fn : database -> result string (database * A)) d d' r :
  WithTx w fn d = (d', r) ->
  (deployment_runs d' = deployment_runs d /\ (forall a, r <> Ok a))
  \/ exists a, fn d = Ok (d', a).
Proof.
  unfold WithTx. destruct (fn d) as [[d1 a]|what].
  - destruct w as [| |[]]; intros [= <- <-]; eauto.
  - intros [= <- <-]. by left.
Qed.

Lemma finish_statements_runs runID dryRun failure at_ d d' r :
  finish_statements runID dryRun failure at_ d = Ok (d', r) ->
  exists row, deployment_runs d !! runID = Some row /\ dr_Status row = "running"
    /\ deployment_runs d' = <[runID := row
         <| dr_Status := match failure with Some _ => "failed" | None => "succeeded" end |>
         <| dr_DryRun := Some dryRun |> <| dr_ErrorMessage := failure ≫= optionalText |>
         <| dr_FinishedAt := Some (stamp at_) |>]> (deployment_runs d).
Proof.
  unfold finish_statements.
  set (k := match failure with Some _ => _ | None => _ end).
  assert (k.1.1 = match failure with Some _ => "failed" | None => "succeeded" end) as Ek
    by (by subst k; destruct failure, dryRun).
  destruct k as [[status kind] summary]. cbn in Ek.
  intros ([d1 rows] & H1%stmt_ok & H)%bind_ok. apply guard_ok in H as [Hrows [= <- _]].
  unfold FinishDeploymentRun in H1. destruct (deployment_runs d !! runID) as [row|]; [|by simplify_eq].
  case_bool_decide as Hs; [|by simplify_eq]. apply check_some in H1 as [_ [= <- _]].
  exists row. split; [done|]. split; [done|]. cbn. by rewrite <-Ek.
Qed.
(** ** What holds of a job *)

Lemma desiredStateFrom_ok v s : desiredStateFrom v = Ok s ->
  (v = DESIRED_STATE_RUNNING /\ s = DesiredStateRunning)
  \/ (v = DESIRED_STATE_STOPPED /\ s = DesiredStateStopped).
Proof.
  unfold desiredStateFrom. destruct (Z.eqb_spec v DESIRED_STATE_RUNNING) as [->|]; [naive_solver|].
  destruct (Z.eqb_spec v DESIRED_STATE_STOPPED) as [->|]; naive_solver.
Qed.

(** What [resolveInput] works on is what was asked for. *)
Lemma resolveInput_ok git i d eff r path : resolveInput git i d = Ok (eff, r, path) ->
  i_App eff = i_App i /\ i_Project eff = i_Project i /\ i_DesiredState eff = i_DesiredState i.
Proof.
  intros (st & Hst%desiredStateFrom_ok & H)%bind_ok. case_bool_decide as E.
  2:{ apply bind_ok in H as ([r' p'] & _ & [= <- _ _]). done. }
  assert (i_DesiredState i = DESIRED_STATE_STOPPED) as Es by (destruct Hst as [[_ ->]|[? _]]; done).
  unfold persistedStopInput in H. destruct (GetDeploymentForReconcile _ d) as [fr|]; [|done].
  apply guard_ok in H as [Hsame H]. rewrite !andb_true_iff, !bool_decide_eq_true in Hsame.
  destruct Hsame as [[E1 E2] E3]. apply bind_ok in H as (e & He & H).
  apply bind_ok in H as ([] & _ & H). apply guard_ok in H as [_ [= <- _ _]].
  repeat case_bool_decide; try done; injection He as <-; by rewrite Es.
Qed.

Lemma begin_ok labels git reads s input expected d j :
  begin labels git reads s input expected d = Ok j ->
  exists i, input = Some i /\ Fleet.CanMutate s = true /\ j_Fleet j = s
    /\ a_App (j_Assignment j) = i_App i /\ a_Project (j_Assignment j) = i_Project i
    /\ d_ID (j_Deployment j) = i_Project i
    /\ a_DesiredState (j_Assignment j) = i_DesiredState i
    /\ (forall r, expected = Some r -> a_SourceRevision (j_Assignment j) = rv_SourceRevision r
          /\ a_ContentSha256 (j_Assignment j) = rv_ContentDigest r)
    /\ j_Active j = ListPossiblyActiveDeploymentNodes (i_Project i) d
    /\ (i_DesiredState i = DESIRED_STATE_RUNNING
        \/ i_DesiredState i = DESIRED_STATE_STOPPED /\ j_Targets j = [])
    /\ NoDup (o_Id <$> j_Targets j).
Proof.
  intros (i & Hi & H)%bind_ok. apply guard_ok in H as [_ H].
  apply bind_ok in H as ([[eff r] path] & Hres & H). apply guard_ok in H as [Hexp H].
  apply bind_ok in H as ([m st] & Hm & H). apply bind_ok in H as ([[[p md] en] rp] & _ & H).
  apply guard_ok in H as [_ H]. apply guard_ok in H as [Hcan H]. apply guard_ok in H as [_ H].
  apply bind_ok in H as (targets & Ht & [= <-]). cbn.
  exists i. assert (input = Some i) as ->.
  { unfold ownedReconcileIntent in Hi. destruct input; [|done].
    by apply bind_ok in Hi as ([] & _ & [= ->]). }
  apply resolveInput_ok in Hres as (Ea & Ep & Ed).
  apply bind_ok in Hm as (st' & Hst%desiredStateFrom_ok & Hm). apply guard_ok in Hm as [_ Hm].
  apply bind_ok in Hm as ([] & _ & [= <- <-]). cbn. rewrite Ea, Ep, Ed.
  do 7 (split; [done|]). split.
  - intros e ->. apply bool_decide_eq_true in Hexp. by rewrite <-Hexp.
  - split; [done|]. rewrite Ed in Hst. destruct Hst as [[? ->]|[? ->]]; cbn in Ht.
    + split; [by left|]. destruct (ResolvePlacement _ _) as [ts|] eqn:Ep'; [|done].
      injection Ht as <-. by eapply ResolvePlacement_distinct.
    + injection Ht as <-. split; [by right|constructor].
Qed.

Close Scope Z_scope.
