(* ===== verification/OsRollout.v ===== *)
(** * CandaceOS: operations, agents and restarts interleaved

    The operations of the reconciler as threads that stop wherever the code has an effect:
    an operation reads and decides, writes its intent, and then for each of its runs calls
    the agent and records the outcome.  Any number of them interleave with one another,
    with agents that stop and start, and with restarts of Core.  A request reaches an agent
    during its call or not at all: the transport delivers in order. *)
From S2P Require Import Prelude.
From S2P Require Import GoStd.
From S2P Require Import OsContract.
From S2P Require Import OsTypes.
From S2P Require Import OsStore.
From S2P Require OsAgent.
From S2P Require OsFence.
From S2P Require Import OsFleet.
From S2P Require Import OsReconcile.

Open Scope Z_scope.

(** ** The machine *)

Inductive stage :=
| Begun (j : job)
| Converging (j : job) (runs : list deploymentRun)
| Recording (j : job) (run : deploymentRun) (called : result string ReconcileResponse)
    (runs : list deploymentRun).

Record core := mkCore { all : world; ops : gmap nat stage }.

Inductive event :=
| Begins (op : nat) (git : gitview) (reads : bool) (s : Fleet.Snapshot)
    (input : option ReconcileIntent) (expected : option ReconcileRevision)
| Persists (op : nat) (w : ending) (rolloutID : string) (ids : nat -> string) (at_ : Time.t)
| Calls (op : nat) (reach : string -> option endpoint)
| Records (op : nat) (w : ending) (at_ : Time.t)
| CoreRestarts (w : ending) (at_ : Time.t)
| NodeStops (n : string)
| NodeStarts (n : string) (w : OsAgent.write).

Section machine.
Context (runner : string -> OsAgent.DockerComposeRunner) (client : Client).
Context (labels : gmap string (gmap string string)).

(** An operation that has no run left is over. *)
Definition remaining (j : job) (runs : list deploymentRun) (op : nat) (m : gmap nat stage)
  : gmap nat stage :=
  match runs with [] => delete op m | _ :: _ => <[op := Converging j runs]> m end.

Definition step (c : core) (e : event) : core :=
  let d := db (all c) in
  let fleet := nodes (all c) in
  match e with
  | Begins op git reads s input expected =>
      match ops c !! op, begin labels git reads s input expected d with
      | None, Ok j => mkCore (all c) (<[op := Begun j]> (ops c))
      | _, _ => c
      end
  | Persists op w rolloutID ids at_ =>
      match ops c !! op with
      | Some (Begun j) =>
          let runs := planDeploymentRuns ids (j_Active j) (j_Targets j) in
          let '(d, r) := persistIntent w j rolloutID runs at_ d in
          mkCore (mkWorld d fleet)
            (match r with Ok _ => remaining j runs op (ops c) | Err _ => delete op (ops c) end)
      | _ => c
      end
  | Calls op reach =>
      match ops c !! op with
      | Some (Converging j (run :: runs)) =>
          let '(fleet, called) := call_run runner client reach j run fleet in
          mkCore (mkWorld d fleet) (<[op := Recording j run called runs]> (ops c))
      | _ => c
      end
  | Records op w at_ =>
      match ops c !! op with
      | Some (Recording j run called runs) =>
          let '(dryRun, failure) := outcome_of called in
          let '(d, _) := finishRun w (r_ID run) dryRun failure at_ d in
          mkCore (mkWorld d fleet) (remaining j runs op (ops c))
      | _ => c
      end
  | CoreRestarts w at_ =>
      mkCore (mkWorld (RecoverInterruptedOperatorWork w at_ d).1 fleet) ∅
  | NodeStops n =>
      mkCore (mkWorld d (alter (fun a => OsFence.agent_step (runner n) a OsFence.Stopped) n fleet))
        (ops c)
  | NodeStarts n w =>
      mkCore (mkWorld d (alter (fun a =>
        OsFence.agent_step (runner n) a (OsFence.Started w)) n fleet)) (ops c)
  end.

Definition run (c : core) (es : list event) : core := foldl step c es.

(** ** What a process run on a node owes to an operation *)

(** An operation that began with this event, in its direction. *)
Definition intended_by (e : event) (f : Fence) (m : Assignment) : Prop :=
  match e with
  | Begins _ _ _ s (Some input) expected =>
      Fleet.CanMutate s = true /\ f = mkFence (Fleet.Term s) (Fleet.LeaderID s)
      /\ a_Project m = i_Project input /\ a_App m = i_App input
      /\ (a_DesiredState m = DESIRED_STATE_STOPPED \/ i_DesiredState input = DESIRED_STATE_RUNNING)
      /\ forall r, expected = Some r ->
           a_SourceRevision m = rv_SourceRevision r /\ a_ContentSha256 m = rv_ContentDigest r
  | _ => False
  end.

(** A run of the tables for a process on a node. *)
Definition recorded_as (d : database) (n : string) (f : Fence) (m : Assignment) : Prop :=
  exists id row, deployment_runs d !! id = Some row
    /\ dr_NodeID row = n /\ dr_DeploymentID row = a_Project m
    /\ dr_WardenTerm row = Z.of_N (f_Term f) /\ dr_LeaderID row = f_LeaderId f
    /\ (dr_DesiredState row = DesiredStateRunning <-> a_DesiredState m = DESIRED_STATE_RUNNING).

(** ** The invariant of accountability

    [P] is what the events up to now intend. *)
Section accountable.
Context (P : Fence -> Assignment -> Prop).

Definition fence_of (j : job) : Fence := mkFence (Fleet.Term (j_Fleet j)) (Fleet.LeaderID (j_Fleet j)).

Record job_ok (j : job) : Prop := {
  jo_project : a_Project (j_Assignment j) = d_ID (j_Deployment j);
  jo_run : j_Targets j <> [] -> a_DesiredState (j_Assignment j) = DESIRED_STATE_RUNNING;
  jo_stop : P (fence_of j) ((j_Assignment j) <| a_DesiredState := DESIRED_STATE_STOPPED |>);
  jo_self : P (fence_of j) (j_Assignment j);
}.

(** The parts of a row that are never written again. *)
Definition same_run (row row' : DeploymentRunRow) : Prop :=
  dr_DeploymentID row' = dr_DeploymentID row /\ dr_NodeID row' = dr_NodeID row
  /\ dr_WardenTerm row' = dr_WardenTerm row /\ dr_LeaderID row' = dr_LeaderID row
  /\ dr_DesiredState row' = dr_DesiredState row.
Definition keeps (d d' : database) : Prop := forall id row,
  deployment_runs d !! id = Some row ->
  exists row', deployment_runs d' !! id = Some row' /\ same_run row row'.

Definition run_ok (d : database) (j : job) (r : deploymentRun) : Prop :=
  ((r_DesiredState r = DesiredStateRunning
    /\ a_DesiredState (j_Assignment j) = DESIRED_STATE_RUNNING)
   \/ r_DesiredState r = DesiredStateStopped)
  /\ exists row, deployment_runs d !! r_ID r = Some row
    /\ dr_DeploymentID row = d_ID (j_Deployment j) /\ dr_NodeID row = r_NodeID r
    /\ dr_WardenTerm row = Z.of_N (Fleet.Term (j_Fleet j))
    /\ dr_LeaderID row = Fleet.LeaderID (j_Fleet j)
    /\ dr_DesiredState row = r_DesiredState r.

Definition stage_job (st : stage) : job :=
  match st with Begun j | Converging j _ | Recording j _ _ _ => j end.
Definition stage_runs (st : stage) : list deploymentRun :=
  match st with
  | Begun _ => []
  | Converging _ runs => runs
  | Recording _ r _ runs => r :: runs
  end.
Definition stage_ok (d : database) (st : stage) : Prop :=
  job_ok (stage_job st) /\ Forall (run_ok d (stage_job st)) (stage_runs st).

Record accountable (c : core) : Prop := {
  ac_stage op st : ops c !! op = Some st -> stage_ok (db (all c)) st;
  ac_ran n a i : nodes (all c) !! n = Some a -> i ∈ OsAgent.ran a ->
    P (OsAgent.ran_fence i) (OsAgent.ran_assignment i)
    /\ recorded_as (db (all c)) n (OsAgent.ran_fence i) (OsAgent.ran_assignment i);
}.

Lemma run_ok_keeps d d' j r : keeps d d' -> run_ok d j r -> run_ok d' j r.
Proof.
  intros Hk (Hd & row & Hr & E1 & E2 & E3 & E4 & E5). split; [done|].
  destruct (Hk _ _ Hr) as (row' & Hr' & F1 & F2 & F3 & F4 & F5). exists row'.
  split; [done|]. rewrite F1, F2, F3, F4, F5. done.
Qed.

Lemma recorded_keeps d d' n f m : keeps d d' -> recorded_as d n f m -> recorded_as d' n f m.
Proof.
  intros Hk (id & row & Hr & E1 & E2 & E3 & E4 & E5).
  destruct (Hk _ _ Hr) as (row' & Hr' & F1 & F2 & F3 & F4 & F5). exists id, row'.
  split; [done|]. rewrite F1, F2, F3, F4, F5. done.
Qed.

Lemma keeps_trans d d1 d2 : keeps d d1 -> keeps d1 d2 -> keeps d d2.
Proof.
  intros H1 H2 id row Hr. destruct (H1 _ _ Hr) as (row1 & Hr1 & S1).
  destruct (H2 _ _ Hr1) as (row2 & Hr2 & S2). exists row2. split; [done|].
  destruct S1 as (A1 & A2 & A3 & A4 & A5), S2 as (B1 & B2 & B3 & B4 & B5).
  unfold same_run. by rewrite B1, B2, B3, B4, B5.
Qed.

Lemma keeps_runs d d' : deployment_runs d' = deployment_runs d -> keeps d d'.
Proof. intros E id row H. rewrite E. exists row. repeat split. done. Qed.

(** A step that writes the tables and moves one operation on. *)
Lemma accountable_write c d' m op :
  accountable c -> keeps (db (all c)) d' ->
  (forall op' st, op' <> op -> m !! op' = Some st -> ops c !! op' = Some st) ->
  (forall st, m !! op = Some st -> stage_ok d' st) ->
  accountable (mkCore (mkWorld d' (nodes (all c))) m).
Proof.
  intros [Hst Hran] Hk Hm Hop. split; cbn.
  - intros op' st H. destruct (decide (op' = op)) as [->|Hne]; [by apply Hop|].
    destruct (Hst op' st) as [Hj Hr]; [by apply Hm|]. split; [done|].
    eapply Forall_impl; [done|]. intros r. by apply run_ok_keeps.
  - intros n a i Ha Hi. destruct (Hran n a i Ha Hi) as [? Hrec]. split; [done|].
    by eapply recorded_keeps.
Qed.
End accountable.

(** ** Steps keep it *)

Lemma planDeploymentRuns_elem ids active targets r :
  r ∈ planDeploymentRuns ids active targets ->
  (r_DesiredState r = DesiredStateRunning /\ exists t, t ∈ targets /\ r_NodeID r = o_Id t)
  \/ (r_DesiredState r = DesiredStateStopped /\ r_NodeID r ∈ active).
Proof.
  unfold planDeploymentRuns. intros (k & [n st] & -> & Hk)%elem_of_lookup_imap.
  apply list_elem_of_lookup_2, elem_of_app in Hk. cbn.
  destruct Hk as [(t & [= -> ->] & Ht)%list_elem_of_fmap|(n' & [= -> ->] & Hn)%list_elem_of_fmap].
  - left. eauto.
  - right. rewrite list_elem_of_In, List.filter_In, <-list_elem_of_In in Hn. naive_solver.
Qed.

Lemma planDeploymentRuns_covers ids active targets n :
  n ∈ active -> exists r, r ∈ planDeploymentRuns ids active targets /\ r_NodeID r = n.
Proof.
  intros Hn. unfold planDeploymentRuns.
  match goal with |- context [imap _ ?l] => set (wanted := l) end.
  assert (exists st, (n, st) ∈ wanted) as (st & Hin).
  { destruct (decide (n ∈ o_Id <$> targets)) as [Ht|Ht].
    - exists DesiredStateRunning. apply elem_of_app. left.
      apply list_elem_of_fmap in Ht as (t & -> & Ht). apply list_elem_of_fmap. eauto.
    - exists DesiredStateStopped. apply elem_of_app. right. apply list_elem_of_fmap.
      exists n. split; [done|]. rewrite list_elem_of_In, List.filter_In, <-list_elem_of_In.
      by rewrite bool_decide_eq_false_2. }
  apply list_elem_of_lookup in Hin as [k Hk]. exists (mkRun (ids k) n st). split; [|done].
  apply elem_of_lookup_imap. by exists k, (n, st).
Qed.

Lemma remaining_ne j runs op m op' st : op' <> op ->
  remaining j runs op m !! op' = Some st -> m !! op' = Some st.
Proof.
  intros Hne. destruct runs; cbn; [by rewrite lookup_delete_ne|by rewrite lookup_insert_ne].
Qed.

Lemma remaining_eq j runs op m st :
  remaining j runs op m !! op = Some st -> runs <> [] /\ st = Converging j runs.
Proof.
  destruct runs; cbn; [by rewrite lookup_delete_eq|]. rewrite lookup_insert_eq. by intros [= <-].
Qed.

Lemma persist_keeps w j ro runs at_ d d' r :
  persistIntent w j ro runs at_ d = (d', r) -> keeps d d'.
Proof.
  intros [[E _]|[a Hs]]%WithTx_cases; [by apply keeps_runs|].
  apply intent_statements_runs in Hs as [Hold _ _]. intros id row Hr.
  exists row. by repeat split; try apply Hold.
Qed.

Lemma persist_ok w j ro runs at_ d d' a : persistIntent w j ro runs at_ d = (d', Ok a) ->
  runs_added j ro at_ runs d d'.
Proof.
  intros [[_ H]|[b Hs]]%WithTx_cases; [by destruct (H a)|]. by eapply intent_statements_runs.
Qed.

Lemma finish_keeps w id dry failure at_ d d' r :
  finishRun w id dry failure at_ d = (d', r) -> keeps d d'.
Proof.
  intros [[E _]|[a Hs]]%WithTx_cases; [by apply keeps_runs|].
  apply finish_statements_runs in Hs as (row & Hr & _ & E). intros id0 row0 Hr0. rewrite E.
  destruct (decide (id0 = id)) as [->|Hne].
  - rewrite lookup_insert_eq. assert (row0 = row) as -> by congruence.
    eexists. split; [done|]. by repeat split.
  - rewrite lookup_insert_ne by done. exists row0. by repeat split.
Qed.

Lemma recovery_cases w at_ d d' r : RecoverInterruptedOperatorWork w at_ d = (d', r) ->
  deployment_runs d' = deployment_runs d
  \/ deployment_runs d' = deployment_runs (FailInterruptedDeploymentRuns at_ d).1.
Proof.
  unfold RecoverInterruptedOperatorWork. destruct (Time.IsZero at_); [intros [= <- _]; by left|].
  intros [[E _]|[a Hs]]%WithTx_cases; [by left|]. right. by apply recover_spec in Hs as [_ ? _ _ _ _ _].
Qed.

Lemma recovery_keeps w at_ d d' r :
  RecoverInterruptedOperatorWork w at_ d = (d', r) -> keeps d d'.
Proof.
  intros [E|E]%recovery_cases; [by apply keeps_runs|]. intros id row Hr. rewrite E. cbn.
  rewrite lookup_fmap, Hr. eexists. split; [done|]. by case_bool_decide.
Qed.

(** What one call adds to what has run on nodes: the processes of its own request, on its
    own node. *)
Lemma call_run_ran reach j r fleet fleet' called :
  call_run runner client reach j r fleet = (fleet', called) ->
  (fleet' = fleet /\ forall reply, called <> Ok reply)
  \/ exists a a' cur there resp err, fleet !! r_NodeID r = Some a /\ OsAgent.state a = Some cur
       /\ OsAgent.Reconcile (runner (r_NodeID r)) (met there) (Some (request_of j r)) cur a
          = (a', (resp, err))
       /\ fleet' = <[r_NodeID r := a']> fleet
       /\ forall reply, called = Ok reply -> resp = Some reply /\ err = None.
Proof.
  unfold call_run, call. destruct (baseURL _ _) as [url|]; [|intros [= <- <-]; by left].
  destruct (reach url) as [there|]; [|intros [= <- <-]; by left].
  destruct (ValidateHealthResponse _) as [[]|]; [|intros [= <- <-]; by left].
  destruct (healthReply there) as [health|]; [|intros [= <- <-]; by left].
  destruct (negb (bool_decide _)); [intros [= <- <-]; by left|].
  destruct (negb (requestArrives there)); [intros [= <- <-]; by left|].
  unfold deliver. destruct (fleet !! r_NodeID r) as [a|] eqn:Ea; [|intros [= <- <-]; by left].
  destruct (OsAgent.state a) as [cur|] eqn:Es; [|intros [= <- <-]; by left].
  destruct (OsAgent.Reconcile _ _ _ cur a) as [a' [resp err]] eqn:Er.
  intros [= <- <-]. right. exists a, a', cur, there, resp, err.
  split; [done|]. split; [done|]. split; [done|]. split; [done|].
  intros reply. destruct resp as [resp|], err; try done.
  destruct (replyArrives there); [|done]. unfold checked_reply.
  intros [_ H]%guard_ok. destruct (p_UpdatedAt resp); [|done].
  by apply guard_ok in H as [_ [= ->]].
Qed.

Section keeps.
Context (P : Fence -> Assignment -> Prop).

Lemma call_accountable c op j r runs reach :
  accountable P c -> ops c !! op = Some (Converging j (r :: runs)) ->
  let res := call_run runner client reach j r (nodes (all c)) in
  accountable P (mkCore (mkWorld (db (all c)) res.1) (<[op := Recording j r res.2 runs]> (ops c))).
Proof.
  intros [Hst Hran] Hop. destruct (Hst _ _ Hop) as [Hj Hruns]. cbn in Hj, Hruns.
  destruct (call_run _ _ reach j r _) as [fleet' called] eqn:E. cbn. split; cbn.
  - intros op' st. rewrite lookup_insert. case_decide; [intros [= <-]; by split|by apply Hst].
  - intros n a i Ha Hi. apply call_run_ran in E.
    destruct E as [[-> _]|(a0 & a1 & cur & there & resp & err & Ha0 & Hs & Hrec & -> & _)];
      [by apply (Hran n a)|].
    rewrite lookup_insert in Ha. case_decide as En; [|by apply (Hran n a)]. injection Ha as <-.
    apply OsFence.Reconcile_ran in Hrec; [|done].
    destruct Hrec as [[Er _]|(f & m & plan & Hv & _ & Er & _)]; rewrite Er in Hi.
    { apply (Hran n a0); [by rewrite <-En|done]. }
    apply elem_of_app in Hi as [Hi|(p & -> & _)%list_elem_of_fmap];
      [apply (Hran n a0); [by rewrite <-En|done]|].
    cbn. apply OsFence.validatedOwnedRequest_ok in Hv as ((q & [= <-] & [= <-] & [= <-]) & _).
    apply Forall_cons in Hruns as [(Hd & row & Hr & E1 & E2 & E3 & E4 & E5) _].
    split.
    + case_bool_decide; [apply (jo_stop _ _ Hj)|apply (jo_self _ _ Hj)].
    + exists (r_ID r), row. split; [done|]. split; [congruence|]. split; [|split; [done|split; [done|]]].
      * rewrite E1, <-(jo_project _ _ Hj). by case_bool_decide.
      * rewrite E5. case_bool_decide as Ed; [rewrite Ed; by split|].
        destruct Hd as [[Ed' Ha]|?]; [|done]. by rewrite Ed', Ha.
Qed.

Lemma agent_start_ran rn a w : OsAgent.ran (OsFence.agent_step rn a (OsFence.Started w)) = OsAgent.ran a.
Proof.
  cbn. unfold OsAgent.NewReconciler. destruct (OsAgent.Load w (OsAgent.file a)) as [d' [[s b]|e]]; [|done].
  by destruct b.
Qed.

(** A step of a node's process. *)
Lemma node_accountable c n (g : OsAgent.agent -> OsAgent.agent) :
  (forall a, OsAgent.ran (g a) = OsAgent.ran a) -> accountable P c ->
  accountable P (mkCore (mkWorld (db (all c)) (alter g n (nodes (all c)))) (ops c)).
Proof.
  intros Hg [Hst Hran]. split; cbn; [done|]. intros n' a i Ha Hi.
  destruct (decide (n = n')) as [->|Hne].
  - rewrite lookup_alter_eq in Ha. apply fmap_Some in Ha as (a0 & Ha0 & ->).
    rewrite Hg in Hi. by apply (Hran n' a0).
  - rewrite lookup_alter_ne in Ha by done. by apply (Hran n' a).
Qed.

Lemma step_accountable c e :
  (forall f m, intended_by e f m -> P f m) -> accountable P c -> accountable P (step c e).
Proof.
  intros HP Hc. destruct e as [op git reads s input expected|op w ro ids at_|op reach|op w at_|w at_|n|n w];
    cbn [step].
  - destruct (ops c !! op) eqn:Eop; [done|].
    destruct (begin _ _ _ _ _ _ _) as [j|] eqn:E; [|done].
    apply begin_ok in E as (i & -> & Hcan & Hs & Ea & Ep & Ed & Est & Hexp & _ & Ht & _).
    destruct c as [[d fleet] m]. apply (accountable_write P (mkCore (mkWorld d fleet) m) d _ op);
      [done|by apply keeps_runs| |].
    + intros op' st Hne. by rewrite lookup_insert_ne.
    + intros st. rewrite lookup_insert_eq. intros [= <-]. split; cbn; [|constructor].
      split.
      * congruence.
      * destruct Ht as [Ht|[_ Ht]]; [by rewrite Est|done].
      * apply HP. cbn. unfold fence_of. rewrite Hs, Ep, Ea. repeat (split; [done|]).
        split; [by left|done].
      * apply HP. cbn. unfold fence_of. rewrite Hs, Ep, Ea, Est. repeat (split; [done|]).
        split; [|done]. destruct Ht as [Ht|[Ht _]]; auto.
  - destruct (ops c !! op) as [[j| |]|] eqn:Eop; [|done..].
    destruct (persistIntent _ _ _ _ _ _) as [d' r] eqn:E.
    apply (accountable_write P c d' _ op); [done|by eapply persist_keeps| |].
    + intros op' st Hne. destruct r; [|by rewrite lookup_delete_ne].
      by apply remaining_ne.
    + intros st. destruct r as [a|]; [|by rewrite lookup_delete_eq].
      intros (_ & ->)%remaining_eq. destruct (ac_stage _ _ Hc _ _ Eop) as [Hj _]. split; [done|].
      cbn. apply Forall_forall. intros r Hr. apply persist_ok in E as [_ Heach _].
      destruct (Heach r Hr) as [_ Hrow]. split.
      * apply planDeploymentRuns_elem in Hr as [(Er & t & Ht & _)|[Er _]]; [left|by right].
        split; [done|]. apply (jo_run _ _ Hj). cbn. intros En. rewrite En in Ht. by apply elem_of_nil in Ht.
      * eexists. by split; [exact Hrow|].
  - destruct (ops c !! op) as [[|j [|r runs]|]|] eqn:Eop; try done.
    pose proof (call_accountable c op j r runs reach Hc Eop) as H.
    by destruct (call_run _ _ reach j r _).
  - destruct (ops c !! op) as [[| |j r called runs]|] eqn:Eop; try done.
    destruct (outcome_of called) as [dry failure].
    destruct (finishRun _ _ _ _ _ _) as [d' res] eqn:E. apply finish_keeps in E.
    apply (accountable_write P c d' _ op); [done|done| |].
    + intros op' st. apply remaining_ne.
    + intros st (_ & ->)%remaining_eq. destruct (ac_stage _ _ Hc _ _ Eop) as [Hj Hr].
      split; [done|]. cbn in *. apply Forall_cons in Hr as [_ Hr].
      eapply Forall_impl; [done|]. intros x. by apply run_ok_keeps.
  - destruct (RecoverInterruptedOperatorWork _ _ _) as [d' res] eqn:E. apply recovery_keeps in E.
    apply (accountable_write P c d' ∅ 0%nat); [done|done| |]; intros; by simplify_map_eq.
  - by apply node_accountable.
  - apply node_accountable; [|done]. intros a. apply agent_start_ran.
Qed.
End keeps.

(** C3: Nothing runs on a node unaccounted for.  Whatever operations, agents and restarts of
    Core interleave, and however their transactions and requests fail, each process that
    a node's agent has run is for an operation that began while Warden's view was
    authoritative, with a leader and a quorum, in that leader's name and term; it is about
    the project and app of that operation's intent, and of the approved revision if there
    was one; it starts an app only if the intent was to run it; and the tables hold a run
    for that project and node, with that term, leader and direction. *)
Theorem nothing_runs_unaccounted (d : database) (fleet : agents) (es : list event)
  (n : string) (a : OsAgent.agent) (i : OsAgent.invocation)
  (Hnew : map_Forall (fun _ a => OsAgent.ran a = []) fleet)
  (Ha : nodes (all (run (mkCore (mkWorld d fleet) ∅) es)) !! n = Some a)
  (Hi : i ∈ OsAgent.ran a) :
  (exists e, e ∈ es /\ intended_by e (OsAgent.ran_fence i) (OsAgent.ran_assignment i))
  /\ recorded_as (db (all (run (mkCore (mkWorld d fleet) ∅) es))) n
       (OsAgent.ran_fence i) (OsAgent.ran_assignment i).
Proof.
  set (P := fun f m => exists e, e ∈ es /\ intended_by e f m).
  assert (forall es' c, es' ⊆ es -> accountable P c -> accountable P (run c es')) as Hrun.
  { induction es' as [|e es' IH]; intros c Hsub Hc; cbn; [done|].
    apply IH; [set_solver|]. apply step_accountable; [|done].
    intros f m He. exists e. split; [set_solver|done]. }
  destruct (Hrun es (mkCore (mkWorld d fleet) ∅)) as [_ H]; [done| |by apply (H n a i)].
  split; cbn; [by intros op st|]. intros n' a' i' Ha' Hi'. rewrite (Hnew n' a' Ha') in Hi'.
  by apply elem_of_nil in Hi'.
Qed.
End machine.

(** ** Two nodes *)

Module RolloutDemo.
Definition runner (n : string) : OsAgent.DockerComposeRunner := OsFence.NodeDemo.runner.
Definition client : Client := mkClient "" "7800".
Definition labels : gmap string (gmap string string) := ∅.
Definition alive (id address : string) : Fleet.Node :=
  {| Fleet.n_ID := id; Fleet.n_Name := id; Fleet.n_Role := "worker"; Fleet.n_Status := "alive";
     Fleet.n_Address := address; Fleet.n_LastSeen := 1 |}.
Definition seen : Fleet.Snapshot :=
  Fleet.mkSnapshot "n1" "n1" 3 true true 2 2 [alive "n1" "10.0.0.1:7717"; alive "n2" "10.0.0.2:7717"]
    1 "".
Definition git : gitview :=
  mkGitview (fun _ => true) (fun _ => Some "") (Some (OsAgent.zeros 40))
    (fun _ path => Ok ("sha256:" +:+ OsAgent.zeros 63 +:+ (if bool_decide (path = "apps/shop") then "a" else "b")))
    (fun name => bool_decide (name = "compose.yaml")) None (fun _ => None).
Definition intent (app project path : string) (state : Z) (node : string) : option ReconcileIntent :=
  Some (mkIntent app project path state PLACEMENT_MODE_EXACT_NODE node ∅ 1 false).
Definition there (id : string) : endpoint :=
  mkEndpoint (Some (mkHealth "ok" id)) true OsFence.NodeDemo.fair true.
Definition reach (url : string) : option endpoint :=
  if bool_decide (url = "http://10.0.0.1:7800") then Some (there "n1")
  else if bool_decide (url = "http://10.0.0.2:7800") then Some (there "n2") else None.
Definition ids (rollout : string) (k : nat) : string :=
  rollout +:+ (if bool_decide (k = 0%nat) then "-0" else "-1").

Definition begins (op : nat) (input : option ReconcileIntent) : event :=
  Begins op git true seen input None.
Definition persists (op : nat) (rollout : string) (at_ : Time.t) : event :=
  Persists op Committed rollout (ids rollout) at_.
(** One run of an operation, and its record. *)
Definition converges (op : nat) (at_ : Time.t) : list event :=
  [Calls op reach; Records op Committed at_].

Definition start : core :=
  mkCore (mkWorld empty_database
    {["n1" := OsAgent.mkAgent None None []; "n2" := OsAgent.mkAgent None None []]}) ∅.
Definition boot : list event := [NodeStarts "n1" OsAgent.Written; NodeStarts "n2" OsAgent.Written].
Definition play (es : list event) : core := run runner client labels start (boot ++ es).

(** The last words of the processes a node has run. *)
Definition words (n : string) (c : core) : list (option string) :=
  match nodes (all c) !! n with
  | Some a => (fun i => last (OsAgent.ci_Argv (OsAgent.ran_command i))) <$> OsAgent.ran a
  | None => []
  end.

Definition deploy : list event :=
  [begins 1 (intent "shop" "shop" "apps/shop" DESIRED_STATE_RUNNING "n1"); persists 1 "o1" 1000000]
  ++ converges 1 2000000.
(** Moved to the other node. *)
Definition move : list event :=
  [begins 2 (intent "shop" "shop" "apps/shop" DESIRED_STATE_RUNNING "n2"); persists 2 "o2" 3000000]
  ++ converges 2 4000000 ++ converges 2 5000000.
End RolloutDemo.
Import RolloutDemo.

Example deploys : words "n1" (play deploy) = [Some "--quiet"; Some "shop"]
  /\ ListPossiblyActiveDeploymentNodes "shop" (db (all (play deploy))) = ["n1"].
Proof. vm_compute. auto. Qed.
Example moves :
  ListPossiblyActiveDeploymentNodes "shop" (db (all (play (deploy ++ move)))) = ["n2"]
  /\ words "n1" (play (deploy ++ move)) = [Some "--quiet"; Some "shop"; Some "--quiet"; Some "shop"].
Proof. vm_compute. auto. Qed.

Lemma nothing_runs_unaccounted_witness :
  exists a i, nodes (all (play deploy)) !! "n1" = Some a /\ i ∈ OsAgent.ran a
    /\ recorded_as (db (all (play deploy))) "n1" (OsAgent.ran_fence i) (OsAgent.ran_assignment i).
Proof.
  destruct (nodes (all (play deploy)) !! "n1") as [a|] eqn:Ea; [|vm_compute in Ea; discriminate Ea].
  destruct (OsAgent.ran a) as [|i l] eqn:Er.
  { assert (OsAgent.ran <$> nodes (all (play deploy)) !! "n1" <> Some []) as H
      by (vm_compute; discriminate). exfalso. apply H. rewrite Ea. cbn. by rewrite Er. }
  exists a, i. split; [done|]. split; [rewrite Er; by left|].
  eapply (nothing_runs_unaccounted runner client labels empty_database (nodes (all start))
    (boot ++ deploy) "n1" a i); [|exact Ea|rewrite Er; by left].
  apply map_Forall_insert_2; [done|]. by apply map_Forall_singleton.
Defined.
Close Scope Z_scope.
