(* ===== verification/OsTracking.v ===== *)
(** * CandaceOS: which nodes may run an app

    The view of possibly active nodes against what nodes have really run, and what can
    defeat it. *)
From S2P Require Import Prelude.
From S2P Require Import GoStd.
From S2P Require Import OsContract.
From S2P Require Import OsTypes.
From S2P Require Import OsStore.
From S2P Require OsAgent.
From S2P Require OsFence.
From S2P Require Import OsFleet.
From S2P Require Import OsReconcile.
From S2P Require Import OsRollout.

Open Scope Z_scope.

(** ** What may be running on a node

    [docker compose up] starts a service, and may have started it when it fails; a
    [docker compose stop] of the service that succeeds stops it; a preflight does neither. *)
Definition after (project app : string) (running : bool) (i : OsAgent.invocation) : bool :=
  let argv := OsAgent.ci_Argv (OsAgent.ran_command i) in
  let action := drop 8 argv in
  if bool_decide (argv !! 5%nat = Some project) then
    if bool_decide (action = ["up"; "-d"; "--remove-orphans"; app]) then true
    else if bool_decide (action = ["stop"; app]) && OsAgent.ran_ok i then false
    else running
  else running.
Definition may_run (project app : string) (a : OsAgent.agent) : bool :=
  foldl (after project app) false (OsAgent.ran a).

(** What the processes of one plan do to that. *)
Lemma executed_after r s m plan f project app running :
  OsAgent.Plan r s m = Ok plan ->
  let res := OsAgent.Execute r s plan in
  let running' := foldl (after project app) running ((fun p => OsAgent.mkRan f m p.1 p.2) <$> res.1) in
  (running' = running \/ (project = a_Project m /\ app = a_App m))
  /\ (OsAgent.dryRun r = true -> running' = running)
  /\ (a_DesiredState m = DESIRED_STATE_STOPPED -> running' = true -> running = true)
  /\ (a_DesiredState m = DESIRED_STATE_STOPPED -> res.2 = Ok tt -> OsAgent.dryRun r = false ->
      project = a_Project m -> app = a_App m -> running' = false).
Proof.
  intros Hp.
  assert (exists dir file action, plan = OsAgent.composePlan r dir file m action
    /\ (action = ["stop"; a_App m] \/
        (action = ["up"; "-d"; "--remove-orphans"; a_App m]
         /\ a_DesiredState m <> DESIRED_STATE_STOPPED))) as (dir & file & action & -> & Haction).
  { unfold OsAgent.Plan in Hp. apply bind_ok in Hp as ([] & _ & Hp).
    destruct (Z.eqb_spec (a_DesiredState m) DESIRED_STATE_STOPPED).
    - unfold OsAgent.planStoppedAssignment in Hp. destruct (OsAgent.stopFile s); [|done].
      injection Hp as <-. eauto 10.
    - unfold OsAgent.planRunningAssignment in Hp. destruct (OsAgent.revisionDir s); [|done].
      destruct (OsAgent.composeFile s); [|done]. injection Hp as <-. eauto 10. }
  unfold OsAgent.Execute, OsAgent.validatedComposeCommands, OsAgent.composePlan,
    OsAgent.isDirectDockerCommand. cbn -[after].
  rewrite bool_decide_eq_true_2 by done.
  set (pre := OsAgent.invocation_of r _).
  set (act := OsAgent.invocation_of r (mkCommand (OsAgent.dockerBin r :: _))).
  assert (forall run ok, after project app run (OsAgent.mkRan f m pre ok) = run) as Hpre.
  { intros run ok. unfold after. cbn. case_bool_decide; [|done].
    by rewrite !bool_decide_eq_false_2. }
  assert (forall run ok, after project app run (OsAgent.mkRan f m act ok) =
    if bool_decide (Some (a_Project m) = Some project) then
      if bool_decide (action = ["up"; "-d"; "--remove-orphans"; app]) then true
      else if bool_decide (action = ["stop"; app]) && ok then false else run
    else run) as Hact by done.
  clearbody pre act.
  destruct (OsAgent.succeeds s pre); cbn -[after]; [|rewrite Hpre; naive_solver].
  destruct (OsAgent.dryRun r); cbn -[after]; [rewrite Hpre; naive_solver|].
  rewrite Hpre, Hact. clear Hpre Hact.
  destruct Haction as [-> | [-> Hne]].
  - rewrite (bool_decide_eq_false_2 (_ = ["up"; _; _; _])) by done.
    destruct (decide (project = a_Project m)) as [->|Hpr].
    + rewrite bool_decide_eq_true_2 by done. case_bool_decide as Ea; cbn; [|naive_solver].
      injection Ea as ->. destruct (OsAgent.succeeds s act); cbn; naive_solver.
    + rewrite bool_decide_eq_false_2 by congruence. naive_solver.
  - destruct (decide (project = a_Project m)) as [->|Hpr];
      [|rewrite bool_decide_eq_false_2 by congruence; naive_solver].
    rewrite bool_decide_eq_true_2 by done.
    rewrite (bool_decide_eq_false_2 (_ = ["stop"; _])) by done. cbn.
    case_bool_decide as Ea; [injection Ea as ->|]; naive_solver.
Qed.

Section tracking.
Context (runner : string -> OsAgent.DockerComposeRunner) (client : Client).
Context (labels : gmap string (gmap string string)).
#[local] Abbreviation run := (OsRollout.run runner client labels).
#[local] Abbreviation step := (OsRollout.step runner client labels).
#[local] Abbreviation call_run := (OsReconcile.call_run runner client).

(** The assignment a run is called with. *)
Definition asked (j : job) (r : deploymentRun) : Assignment :=
  if bool_decide (r_DesiredState r = DesiredStateStopped)
  then (j_Assignment j) <| a_DesiredState := DESIRED_STATE_STOPPED |> else j_Assignment j.

(** What one call changes of what may be running. *)
Lemma call_after reach j r fleet fleet' called n a' :
  call_run reach j r fleet = (fleet', called) -> fleet' !! n = Some a' ->
  exists a, fleet !! n = Some a /\ forall p app,
    (may_run p app a' = may_run p app a
     \/ (n = r_NodeID r /\ p = a_Project (asked j r) /\ app = a_App (asked j r)))
    /\ (OsAgent.dryRun (runner n) = true -> may_run p app a' = may_run p app a)
    /\ (n = r_NodeID r -> a_DesiredState (asked j r) = DESIRED_STATE_STOPPED ->
        may_run p app a' = true -> may_run p app a = true)
    /\ (forall reply, called = Ok reply -> n = r_NodeID r ->
          a_DesiredState (asked j r) = DESIRED_STATE_STOPPED ->
          OsAgent.dryRun (runner n) = false -> p = a_Project (asked j r) ->
          app = a_App (asked j r) -> may_run p app a' = false).
Proof.
  intros [[-> Hno]|(a & a1 & cur & there & resp & err & Ha & Hs & Hrec & -> & Hok)]%call_run_ran Hn.
  { exists a'. split; [done|]. intros p app. split; [by left|]. split; [done|]. split; [done|].
    intros reply E. by apply Hno in E. }
  rewrite lookup_insert in Hn. case_decide as En.
  2:{ exists a'. split; [done|]. intros p app. split; [by left|]. split; [done|].
      split; intros; congruence. }
  injection Hn as <-. subst n. exists a. split; [done|]. intros p app. unfold may_run.
  apply OsFence.Reconcile_ran in Hrec; [|done].
  destruct Hrec as [[Er Hnone]|(f & m & plan & Hv & Hp & Er & Hex)]; rewrite Er.
  { split; [by left|]. split; [done|]. split; [done|]. intros reply E _.
    destruct (Hok reply E) as [-> ->]. by specialize (Hnone eq_refl). }
  apply OsFence.validatedOwnedRequest_ok in Hv as ((q & [= <-] & _ & [= <-]) & _).
  rewrite foldl_app. fold (asked j r) in *.
  destruct (executed_after _ _ _ _ f p app (foldl (after p app) false (OsAgent.ran a)) Hp)
    as (H1 & H2 & H3 & H4).
  split; [naive_solver|]. split; [done|]. split; [done|].
  intros reply E _. destruct (Hok reply E) as [-> ->]. destruct (Hex reply eq_refl eq_refl) as [Hx _].
  intros. by apply H4.
Qed.

Lemma call_dry reach j r fleet fleet' reply :
  call_run reach j r fleet = (fleet', Ok reply) ->
  p_DryRun reply = OsAgent.dryRun (runner (r_NodeID r)).
Proof.
  intros [[_ Hno]|(a & a1 & cur & there & resp & err & _ & Hs & Hrec & _ & Hok)]%call_run_ran;
    [by destruct (Hno reply)|].
  destruct (Hok reply eq_refl) as [-> ->]. apply OsFence.Reconcile_ran in Hrec; [|done].
  destruct Hrec as [[_ Hnone]|(f & m & plan & _ & _ & _ & Hex)]; [by specialize (Hnone eq_refl)|].
  by apply (Hex reply).
Qed.

(** ** The invariant *)

Context (app_of : string -> string).

Definition quiet (d : database) : Prop := forall id row,
  deployment_runs d !! id = Some row -> dr_Status row = "running" -> dr_DryRun row = None.

Definition stage_tracked (c : core) (st : stage) : Prop :=
  let j := stage_job st in
  let p := d_ID (j_Deployment j) in
  a_App (j_Assignment j) = app_of p
  /\ NoDup (o_Id <$> j_Targets j) /\ NoDup (j_Active j)
  /\ NoDup (r_NodeID <$> stage_runs st)
  /\ Forall (fun r => possibly_active p (r_NodeID r) (db (all c)) = true) (stage_runs st)
  /\ match st with
     | Recording _ r (Ok reply) _ =>
         p_DryRun reply = OsAgent.dryRun (runner (r_NodeID r))
         /\ (r_DesiredState r = DesiredStateStopped -> p_DryRun reply = false ->
             forall a, nodes (all c) !! r_NodeID r = Some a -> may_run p (app_of p) a = false)
     | _ => True
     end.

Record tracked (c : core) : Prop := {
  tk_acc : accountable (fun _ _ => True) c;
  tk_quiet : quiet (db (all c));
  tk_one op st : ops c !! op = Some st -> ops c = {[op := st]};
  tk_stage op st : ops c !! op = Some st -> stage_tracked c st;
  tk_run n a p app : nodes (all c) !! n = Some a -> may_run p app a = true ->
    app = app_of p /\ OsAgent.dryRun (runner n) = false
    /\ possibly_active p n (db (all c)) = true;
}.

(** One operation at a time, each project with an app of its own, and a clock that has
    moved on by a microsecond since the last rollout of the project. *)
Definition orderly (c : core) (e : event) : Prop :=
  match e with
  | Begins _ _ _ _ input _ =>
      ops c = ∅ /\ forall i, input = Some i -> i_App i = app_of (i_Project i)
  | Persists op _ _ _ at_ => forall j, ops c !! op = Some (Begun j) ->
      forall id row, deployment_runs (db (all c)) !! id = Some row ->
        dr_DeploymentID row = d_ID (j_Deployment j) -> dr_RequestedAt row < stamp at_
  | _ => True
  end.
Fixpoint orderly_run (c : core) (es : list event) {struct es} : Prop :=
  match es with [] => True | e :: es => orderly c e /\ orderly_run (step c e) es end.

(** ** What the writes do to the view *)

Lemma attempt_true p n row : attempt p n row = true <->
  (dr_DeploymentID row = p /\ dr_NodeID row = n) /\ dr_DryRun row <> Some true.
Proof. unfold attempt. by rewrite !andb_true_iff, !bool_decide_eq_true, negb_decide. Qed.

Lemma added_active j ro at_ runs d d' p n :
  runs_added j ro at_ runs d d' ->
  (forall id row, deployment_runs d !! id = Some row ->
     dr_DeploymentID row = d_ID (j_Deployment j) -> dr_RequestedAt row < stamp at_) ->
  possibly_active p n d = true \/ (p = d_ID (j_Deployment j) /\ n ∈ r_NodeID <$> runs) ->
  possibly_active p n d' = true.
Proof.
  intros [Hold Heach Honly] Hlt Hor.
  destruct (decide (p = d_ID (j_Deployment j) /\ n ∈ r_NodeID <$> runs))
    as [[-> (r & -> & Hr)%list_elem_of_fmap]|Hno].
  - destruct (Heach r Hr) as [Hn Hrow]. eapply possibly_active_added; [| |exact Hold].
    + exists (r_ID r), (row_of j ro at_ r). split; [done|]. split; [|done].
      by apply attempt_true.
    + intros id row Hrow' Hn' _. destruct (Honly id row Hrow' Hn') as (r' & _ & ->).
      split; [done|]. intros id0 row0 Hr0 [[Ha0 _] _]%attempt_true. by apply (Hlt id0 row0).
  - destruct Hor as [Hor|?]; [|done]. eapply possibly_active_ext; [|done]. intros id row Ha.
    split; [by apply Hold|]. intros Hr. destruct (deployment_runs d !! id) as [row0|] eqn:E.
    + rewrite (Hold _ _ E) in Hr. done.
    + exfalso. destruct (Honly id row Hr E) as (r & Hin & ->). apply Hno.
      apply attempt_true in Ha as [[<- <-] _]. split; [done|]. apply list_elem_of_fmap. eauto.
Qed.

(** Recording an outcome can only clear the node it is about, and only when a stop has
    succeeded, or a dry run has. *)
Lemma finish_active w id dry failure at_ d d' res p n :
  quiet d -> finishRun w id dry failure at_ d = (d', res) ->
  (forall row, deployment_runs d !! id = Some row ->
     (dr_DeploymentID row = p /\ dr_NodeID row = n) ->
     dry = false /\ (failure <> None \/ dr_DesiredState row = DesiredStateRunning)) ->
  possibly_active p n d = true -> possibly_active p n d' = true.
Proof.
  intros Hq [[E _]|[a Hs]]%WithTx_cases Hrow.
  { apply possibly_active_ext. intros. by rewrite E. }
  apply finish_statements_runs in Hs as (row & Hr & Hst & E).
  apply possibly_active_update; rewrite E; intros id0 row0.
  - rewrite lookup_insert. case_decide as En; [|by exists row0].
    intros [= <-]. subst id0. exists row. split; [done|]. split; [done|].
    split.
    + apply Bool.eq_iff_eq_true. rewrite !attempt_true. cbn. rewrite (Hq _ _ Hr Hst).
      split; intros [Hpl _]; (split; [done|]); [done|].
      destruct (Hrow row Hr Hpl) as [-> _]. done.
    + intros Ha%attempt_true _. destruct (Hrow row Hr) as [_ Hd]; [by destruct Ha|].
      unfold undecided. cbn. destruct failure; [done|].
      destruct Hd as [Hd| ->]; [done|]. by rewrite orb_true_r.
  - intros H. rewrite lookup_insert. case_decide; [done|]. by rewrite H.
Qed.

Lemma planDeploymentRuns_distinct ids active targets :
  NoDup (o_Id <$> targets) -> NoDup active ->
  NoDup (r_NodeID <$> planDeploymentRuns ids active targets).
Proof.
  intros Ht Ha. unfold planDeploymentRuns.
  match goal with |- context [imap _ ?l] => set (wanted := l) end.
  assert (r_NodeID <$> imap (fun k w => mkRun (ids k) w.1 w.2) wanted = wanted.*1) as ->.
  { apply list_eq. intros k. rewrite !list_lookup_fmap, list_lookup_imap.
    by destruct (wanted !! k). }
  subst wanted. rewrite fmap_app, <-!list_fmap_compose.
  apply NoDup_app. split; [done|]. split.
  - intros n Hn (n' & -> & Hn')%list_elem_of_fmap. cbn in *.
    rewrite list_elem_of_In, List.filter_In, negb_decide, <-list_elem_of_In in Hn'. tauto.
  - erewrite list_fmap_ext; [rewrite list_fmap_id|by intros]. by apply NoDup_ListNoDup, List.NoDup_filter, NoDup_ListNoDup.
Qed.

Lemma ListPossiblyActive_distinct p d : NoDup (ListPossiblyActiveDeploymentNodes p d).
Proof.
  unfold ListPossiblyActiveDeploymentNodes. rewrite sort_by_perm.
  apply NoDup_ListNoDup, List.NoDup_filter, NoDup_ListNoDup, NoDup_elements.
Qed.

Lemma asked_same j r :
  a_Project (asked j r) = a_Project (j_Assignment j) /\ a_App (asked j r) = a_App (j_Assignment j)
  /\ (r_DesiredState r = DesiredStateStopped -> a_DesiredState (asked j r) = DESIRED_STATE_STOPPED).
Proof. unfold asked. by case_bool_decide. Qed.

Lemma begin_tracked c op git reads s input expected :
  tracked c -> orderly c (Begins op git reads s input expected) ->
  tracked (step c (Begins op git reads s input expected)).
Proof.
  intros Hc [Hempty Happ]. pose proof (step_accountable runner client labels (fun _ _ => True) c
    (Begins op git reads s input expected) ltac:(done) (tk_acc _ Hc)) as Hacc.
  unfold OsRollout.step in *. destruct (ops c !! op) eqn:Eop; [done|].
  destruct (begin _ _ _ _ _ _ _) as [j|] eqn:E; [|done].
  apply begin_ok in E as (i & -> & _ & _ & Ea & _ & Ed & _ & _ & El & _ & Ht).
  rewrite Hempty in *. split; cbn; [done|apply Hc| | |apply Hc].
  - intros op' st. rewrite insert_empty, lookup_singleton. by case_decide; [intros [= <-]; subst|].
  - intros op' st. rewrite insert_empty, lookup_singleton. case_decide; [intros [= <-]|done].
    split; cbn; [by rewrite Ea, Ed, (Happ i)|]. split; [done|].
    split; [rewrite El; apply ListPossiblyActive_distinct|]. repeat constructor.
Qed.

Lemma one_remaining j runs op st st' op' m : m = {[op := st]} ->
  remaining j runs op m !! op' = Some st' ->
  remaining j runs op m = {[op' := st']} /\ op' = op /\ runs <> [] /\ st' = Converging j runs.
Proof.
  intros -> H. destruct (decide (op' = op)) as [->|Hne].
  - destruct (remaining_eq _ _ _ _ _ H) as [Hr ->]. split; [|done].
    destruct runs; [done|]. cbn. by rewrite insert_singleton_eq.
  - apply remaining_ne in H; [|done]. by rewrite lookup_singleton_ne in H by done.
Qed.

Lemma persist_tracked c op w ro ids at_ :
  tracked c -> orderly c (Persists op w ro ids at_) -> tracked (step c (Persists op w ro ids at_)).
Proof.
  intros Hc Hord. pose proof (step_accountable runner client labels (fun _ _ => True) c
    (Persists op w ro ids at_) ltac:(done) (tk_acc _ Hc)) as Hacc.
  unfold OsRollout.step in *. destruct (ops c !! op) as [[j| |]|] eqn:Eop; [|done..].
  destruct (tk_stage _ Hc _ _ Eop) as (Happ & Ht & Ha & _). cbn [stage_job] in *.
  specialize (Hord j Eop). pose proof (tk_one _ Hc _ _ Eop) as Eone.
  destruct (persistIntent _ _ _ _ _ _) as [d' r] eqn:E.
  assert (deployment_runs d' = deployment_runs (db (all c))
    \/ runs_added j ro at_ (planDeploymentRuns ids (j_Active j) (j_Targets j)) (db (all c)) d') as Hcases.
  { apply WithTx_cases in E as [[E _]|[x Hs]]; [by left|right]. by eapply intent_statements_runs. }
  assert (forall p n, possibly_active p n (db (all c)) = true -> possibly_active p n d' = true) as Hact.
  { intros p n Hp. destruct Hcases as [E'|Hadd].
    - eapply possibly_active_ext; [|done]. intros. by rewrite E'.
    - eapply added_active; [done|done|by left]. }
  split; cbn; [done| | | |].
  - destruct Hcases as [E'|[Hold _ Honly]]; intros id row; [rewrite E'; by apply (tk_quiet _ Hc)|].
    intros Hr Hs. destruct (deployment_runs (db (all c)) !! id) as [row0|] eqn:E0.
    + rewrite (Hold _ _ E0) in Hr. injection Hr as <-. by apply (tk_quiet _ Hc id).
    + by destruct (Honly id row Hr E0) as (r0 & _ & ->).
  - intros op' st. destruct r as [x|]; [by intros [? _]%(one_remaining _ _ _ _ _ _ _ Eone)|].
    rewrite Eone, delete_singleton_eq. done.
  - intros op' st. destruct r as [x|]; [|rewrite Eone, delete_singleton_eq; done].
    intros (_ & -> & _ & ->)%(one_remaining _ _ _ _ _ _ _ Eone).
    split; [done|]. split; [done|]. split; [done|]. cbn.
    split; [by apply planDeploymentRuns_distinct|]. split; [|done].
    apply Forall_forall. intros r Hr. apply persist_ok in E. eapply added_active; [done|done|].
    right. split; [done|]. apply list_elem_of_fmap. eauto.
  - intros n a p app Hn Hm. destruct (tk_run _ Hc n a p app Hn Hm) as (? & ? & ?). auto.
Qed.

Lemma call_tracked c op reach : tracked c -> tracked (step c (Calls op reach)).
Proof.
  intros Hc. pose proof (step_accountable runner client labels (fun _ _ => True) c
    (Calls op reach) ltac:(done) (tk_acc _ Hc)) as Hacc.
  unfold OsRollout.step in *. destruct (ops c !! op) as [[|j [|r runs]|]|] eqn:Eop; try done.
  destruct (tk_stage _ Hc _ _ Eop) as (Happ & Ht & Ha & Hnd & Hact & _). cbn [stage_job stage_runs] in *.
  pose proof (jo_project _ _ (proj1 (ac_stage _ _ (tk_acc _ Hc) _ _ Eop))) as Hp. cbn in Hp.
  destruct (call_run reach j r _) as [fleet called] eqn:E.
  destruct (asked_same j r) as (Ep & Ea & Est). rewrite Hp in Ep. rewrite Happ in Ea.
  split; cbn; [done|apply Hc| | |].
  - intros op' st. rewrite (tk_one _ Hc _ _ Eop), insert_singleton_eq, lookup_singleton.
    by case_decide as Eo; [intros [= <-]; subst|].
  - intros op' st. rewrite (tk_one _ Hc _ _ Eop), insert_singleton_eq, lookup_singleton.
    case_decide as Eo; [intros [= <-]|done]. do 5 (split; [done|]). destruct called as [reply|]; [|done].
    cbn. pose proof (call_dry _ _ _ _ _ _ E) as Hd.
    split; [done|]. intros Hs Hdry a Hn.
    destruct (call_after _ _ _ _ _ _ _ _ E Hn) as (a0 & _ & H).
    destruct (H (d_ID (j_Deployment j)) (app_of (d_ID (j_Deployment j)))) as (_ & _ & _ & H4).
    apply (H4 reply); [done|done|by apply Est|by rewrite <-Hd|done|done].
  - intros n a p app Hn Hm. destruct (call_after _ _ _ _ _ _ _ _ E Hn) as (a0 & Hn0 & H).
    destruct (H p app) as (H1 & H2 & _). destruct H1 as [H1|(-> & -> & ->)].
    { rewrite H1 in Hm. by apply (tk_run _ Hc n a0). }
    rewrite Ep, Ea. split; [done|]. split; [|by apply Forall_cons in Hact as [? _]].
    destruct (OsAgent.dryRun (runner (r_NodeID r))) eqn:Ed; [|done].
    rewrite (H2 eq_refl) in Hm. destruct (tk_run _ Hc _ _ _ _ Hn0 Hm) as (_ & Hd & _). congruence.
Qed.

Lemma record_tracked c op w at_ : tracked c -> tracked (step c (Records op w at_)).
Proof.
  intros Hc. pose proof (step_accountable runner client labels (fun _ _ => True) c
    (Records op w at_) ltac:(done) (tk_acc _ Hc)) as Hacc.
  unfold OsRollout.step in *. destruct (ops c !! op) as [[| |j r called runs]|] eqn:Eop; try done.
  destruct (tk_stage _ Hc _ _ Eop) as (Happ & Ht & Ha & Hnd & Hact & Hcalled).
  cbn [stage_job stage_runs] in *. rewrite fmap_cons in Hnd.
  apply NoDup_cons in Hnd as [Hnew Hnd]. apply Forall_cons in Hact as [_ Hact].
  destruct (ac_stage _ _ (tk_acc _ Hc) _ _ Eop) as [_ Hruns]. cbn in Hruns.
  apply Forall_cons in Hruns as [(Hdir & row & Hr & E1 & E2 & _ & _ & E5) _].
  pose proof (tk_one _ Hc _ _ Eop) as Eone.
  destruct (outcome_of called) as [dry failure] eqn:Eo.
  destruct (finishRun _ _ _ _ _ _) as [d' res] eqn:E.
  split; cbn; [done| | | |].
  - apply WithTx_cases in E as [[E _]|[x Hs]]; intros id row0; [rewrite E; apply (tk_quiet _ Hc)|].
    apply finish_statements_runs in Hs as (row1 & _ & _ & ->). rewrite lookup_insert.
    case_decide; [|apply (tk_quiet _ Hc)]. intros [= <-]. cbn. by destruct failure.
  - intros op' st. by intros [? _]%(one_remaining _ _ _ _ _ _ _ Eone).
  - intros op' st (_ & -> & _ & ->)%(one_remaining _ _ _ _ _ _ _ Eone).
    do 3 (split; [done|]). cbn. split; [done|]. split; [|done].
    rewrite Forall_forall in Hact |- *. intros r' Hr'.
    eapply finish_active; [apply Hc|exact E| |by apply Hact].
    intros row' Hrow' [_ En]. assert (row' = row) as -> by congruence. exfalso. apply Hnew.
    rewrite <-E2, En. apply list_elem_of_fmap. eauto.
  - intros n a p app Hn Hm. destruct (tk_run _ Hc n a p app Hn Hm) as (-> & Hd & Hp).
    split; [done|]. split; [done|]. eapply finish_active; [apply Hc|exact E| |done].
    intros row' Hrow' [Ep En]. assert (row' = row) as -> by congruence. rewrite E5.
    assert (n = r_NodeID r) as -> by congruence. assert (p = d_ID (j_Deployment j)) as -> by congruence.
    destruct called as [reply|what]; injection Eo as <- <-; [|by split; [|left]].
    destruct Hcalled as [Hdry Hstop]. rewrite Hd in Hdry. split; [done|]. right.
    destruct Hdir as [[? _]|Hs]; [done|]. by rewrite (Hstop Hs Hdry a Hn) in Hm.
Qed.

Lemma restart_tracked c w at_ : tracked c -> tracked (step c (CoreRestarts w at_)).
Proof.
  intros Hc. pose proof (step_accountable runner client labels (fun _ _ => True) c
    (CoreRestarts w at_) ltac:(done) (tk_acc _ Hc)) as Hacc.
  unfold OsRollout.step in *.
  destruct (RecoverInterruptedOperatorWork w at_ _) as [d' res] eqn:E.
  apply recovery_cases in E. split; cbn; [done| |by intros op' st..|].
  - destruct E as [E|E]; intros id row; rewrite E; [apply (tk_quiet _ Hc)|]. cbn.
    rewrite lookup_fmap, fmap_Some. intros (row0 & Hr & ->). case_bool_decide; [done|].
    by apply (tk_quiet _ Hc id).
  - intros n a p app Hn Hm. destruct (tk_run _ Hc n a p app Hn Hm) as (? & ? & Hp).
    split; [done|]. split; [done|]. destruct E as [E|E]; [|by eapply interrupted_active].
    eapply possibly_active_ext; [|done]. intros. by rewrite E.
Qed.

(** A node's process that stops or starts runs nothing. *)
Lemma node_tracked c n (g : OsAgent.agent -> OsAgent.agent) :
  (forall a, OsAgent.ran (g a) = OsAgent.ran a) -> tracked c ->
  tracked (mkCore (mkWorld (db (all c)) (alter g n (nodes (all c)))) (ops c)).
Proof.
  intros Hg Hc.
  assert (forall n' a, alter g n (nodes (all c)) !! n' = Some a ->
    exists a0, nodes (all c) !! n' = Some a0 /\ OsAgent.ran a = OsAgent.ran a0) as Hback.
  { intros n' a Ha. destruct (decide (n = n')) as [->|Hne].
    - rewrite lookup_alter_eq in Ha. apply fmap_Some in Ha as (a0 & ? & ->). eauto.
    - rewrite lookup_alter_ne in Ha by done. eauto. }
  split; cbn; [by apply node_accountable, Hc|apply Hc|apply Hc| |].
  - intros op st Hst. destruct (tk_stage _ Hc op st Hst) as (H1 & H2 & H3 & H4 & H5 & H6).
    do 5 (split; [done|]). destruct st as [|?|j r [reply|what] runs]; try done.
    destruct H6 as [H6 H7]. split; [done|]. intros Hs Hd a Ha.
    destruct (Hback _ _ Ha) as (a0 & Ha0 & E). unfold may_run. rewrite E. by apply (H7 Hs Hd a0).
  - intros n' a p app Ha Hm. destruct (Hback _ _ Ha) as (a0 & Ha0 & E).
    apply (tk_run _ Hc n' a0 p app Ha0). unfold may_run. by rewrite <-E.
Qed.

Lemma step_tracked c e : tracked c -> orderly c e -> tracked (step c e).
Proof.
  intros Hc Ho. destruct e as [| | | | |n|n w]; [by apply begin_tracked|by apply persist_tracked|by apply call_tracked
    |by apply record_tracked|by apply restart_tracked| |]; cbn.
  - by apply node_tracked.
  - apply node_tracked; [|done]. intros a. exact (agent_start_ran (runner n) a w).
Qed.

Lemma run_tracked es : forall c, tracked c -> orderly_run c es -> tracked (run c es).
Proof.
  induction es as [|e es IH]; intros c Hc; cbn; [done|]. intros [He Hes].
  apply IH; [by apply step_tracked|done].
Qed.

(** C4: No node is forgotten by operations that take turns.  Start from tables without runs
    and agents that have run nothing, and suppose that an operation begins
    only when no other is under way, of whatever project; that each project has one app;
    that a rollout is stamped later than the project's rollouts before; and that a request
    arrives during its call or not at all.  Then every node on which an app may be running
    is among the possibly active nodes of its project, whatever requests are lost, replies
    fail to arrive, commits stay in doubt, and agents and Core restart: so the next rollout
    of the project reaches it, to start the app again or to stop it.  (The first two
    conditions are needed: see [overlapping_operations_lose_a_node] and
    [renamed_app_runs_on].) *)
Theorem no_node_is_forgotten (d : database) (fleet : agents) (es : list event)
  (n project app : string) (a : OsAgent.agent)
  (Hfresh : deployment_runs d = ∅)
  (Hnew : map_Forall (fun _ a => OsAgent.ran a = []) fleet)
  (Hord : orderly_run (mkCore (mkWorld d fleet) ∅) es)
  (Ha : nodes (all (run (mkCore (mkWorld d fleet) ∅) es)) !! n = Some a)
  (Hrun : may_run project app a = true) :
  let c := run (mkCore (mkWorld d fleet) ∅) es in
  n ∈ ListPossiblyActiveDeploymentNodes project (db (all c))
  /\ app = app_of project
  /\ forall git reads s input expected j ids,
       begin labels git reads s input expected (db (all c)) = Ok j ->
       d_ID (j_Deployment j) = project ->
       exists r, r ∈ planDeploymentRuns ids (j_Active j) (j_Targets j) /\ r_NodeID r = n.
Proof.
  intros c. assert (tracked c) as Hc.
  { apply run_tracked; [|done]. split; cbn; try (by intros op st).
    - split; cbn; [by intros op st|]. intros n' a' i Ha' Hi. rewrite (Hnew n' a' Ha') in Hi.
      by apply elem_of_nil in Hi.
    - intros id row. by rewrite Hfresh.
    - intros n' a' p x Ha'. unfold may_run. by rewrite (Hnew n' a' Ha'). }
  destruct (tk_run _ Hc n a project app Ha Hrun) as (-> & _ & Hp).
  apply ListPossiblyActive_elem in Hp. split; [done|]. split; [done|].
  intros git reads s input expected j ids (i & _ & _ & _ & _ & _ & Ed & _ & _ & El & _)%begin_ok E.
  rewrite E in Ed. subst project. rewrite <-El in Hp. by apply planDeploymentRuns_covers.
Qed.

(** ** An operation in one piece *)

(** The events of an operation with [k] runs from the [i]th on. *)
Definition run_events (o : occasion) (i k : nat) : list event :=
  flat_map (fun i => [Calls 0 (reachOf o i); Records 0 (finishEnding o i) (finishedAt o i)])
    (seq i k).
Definition operation_events (o : occasion) (input : option ReconcileIntent)
  (expected : option ReconcileRevision) (k : nat) : list event :=
  Begins 0 (git o) (reads o) (snapshot o) input expected
  :: Persists 0 (intentEnding o) (rolloutID o) (runIDs o) (persistedAt o)
  :: run_events o 0 k.

#[local] Abbreviation converge := (OsReconcile.converge runner client).
#[local] Abbreviation reconcile := (OsReconcile.reconcile runner client labels).

Lemma idle_run_events o k w : forall i, run (mkCore w ∅) (run_events o i k) = mkCore w ∅.
Proof. induction k as [|k IH]; intros i; cbn; [done|]. apply IH. Qed.

Lemma step_calls c op reach st j r runs : st = Converging j (r :: runs) -> ops c !! op = Some st ->
  step c (Calls op reach) =
  mkCore (mkWorld (db (all c)) (call_run reach j r (nodes (all c))).1)
    (<[op := Recording j r (call_run reach j r (nodes (all c))).2 runs]> (ops c)).
Proof. intros -> E. cbn. rewrite E. by destruct (call_run _ _ _ _). Qed.

Lemma step_records c op w at_ st j r called runs : st = Recording j r called runs ->
  ops c !! op = Some st ->
  step c (Records op w at_) =
  mkCore (mkWorld (finishRun w (r_ID r) (outcome_of called).1 (outcome_of called).2 at_ (db (all c))).1
    (nodes (all c))) (remaining j runs op (ops c)).
Proof.
  intros -> E. cbn. rewrite E. destruct (outcome_of called). by destruct (finishRun _ _ _ _ _ _).
Qed.

Lemma step_persists c op w ro ids at_ st j : st = Begun j -> ops c !! op = Some st ->
  let runs := planDeploymentRuns ids (j_Active j) (j_Targets j) in
  let res := persistIntent w j ro runs at_ (db (all c)) in
  step c (Persists op w ro ids at_) =
  mkCore (mkWorld res.1 (nodes (all c)))
    (match res.2 with Ok _ => remaining j runs op (ops c) | Err _ => delete op (ops c) end).
Proof. intros -> E. cbn. rewrite E. by destruct (persistIntent _ _ _ _ _ _). Qed.

Lemma converge_is_a_run o j runs : forall i w output,
  run (mkCore w (remaining j runs 0 ∅)) (run_events o i (length runs))
  = mkCore (converge o j i runs w output).1.1 ∅.
Proof.
  induction runs as [|r runs IH]; intros i w output; [done|].
  change (run_events o i (length (r :: runs)))
    with (Calls 0 (reachOf o i) :: Records 0 (finishEnding o i) (finishedAt o i)
          :: run_events o (S i) (length runs)).
  cbn [OsRollout.run foldl remaining OsReconcile.converge].
  destruct (call_run (reachOf o i) j r (nodes w)) as [fleet called] eqn:E.
  erewrite step_calls; [|done|apply lookup_insert_eq]. cbn [all]. rewrite E. cbn [fst snd].
  erewrite step_records; [|done|apply lookup_insert_eq].
  cbn [all db nodes ops]. rewrite !insert_insert_eq.
  destruct (outcome_of called) as [dry failure]. cbn [fst snd].
  destruct (finishRun _ _ _ _ _ _) as [d res]. cbn [fst].
  assert (remaining j runs 0 (<[0%nat:=Recording j r called runs]> ∅) = remaining j runs 0 ∅) as ->.
  { destruct runs; cbn; [by rewrite delete_insert_eq, delete_empty|by rewrite insert_insert_eq]. }
  destruct failure as [what|].
  - specialize (IH (S i) (mkWorld d fleet) output).
    by destruct (converge o j (S i) runs _ output) as [[w' out'] errs].
  - destruct res as [receiptID|e].
    + apply IH.
    + specialize (IH (S i) (mkWorld d fleet) output).
      by destruct (converge o j (S i) runs _ output) as [[w' out'] errs].
Qed.

(** [reconcile] is one of those operations.  What the code does in one call leaves the
    world as the interleaved machine leaves it when the steps of that one operation follow
    one another, and no operation is then under way, so what is proved of interleavings
    holds of calls. *)
Theorem reconcile_is_a_run (o : occasion) (input : option ReconcileIntent)
  (expected : option ReconcileRevision) (w : world) :
  exists k, run (mkCore w ∅) (operation_events o input expected k)
            = mkCore (reconcile o input expected w).1 ∅.
Proof.
  unfold operation_events, OsReconcile.reconcile.
  destruct (begin labels (git o) (reads o) (snapshot o) input expected (db w)) as [j|what] eqn:E.
  2:{ exists 0%nat. cbn. by rewrite E. }
  set (runs := planDeploymentRuns (runIDs o) (j_Active j) (j_Targets j)).
  destruct (persistIntent (intentEnding o) j (rolloutID o) runs (persistedAt o) (db w))
    as [d persisted] eqn:Ep.
  exists (length runs). cbn [OsRollout.run foldl].
  assert (step (mkCore w ∅) (Begins 0 (git o) (reads o) (snapshot o) input expected)
          = mkCore w (<[0%nat := Begun j]> ∅)) as -> by (cbn; by rewrite E).
  erewrite step_persists; [|done|apply lookup_insert_eq]. cbn [ops all db nodes].
  fold runs. rewrite Ep. cbn [fst snd]. destruct persisted as [noop|e].
  - assert (remaining j runs 0 (<[0%nat:=Begun j]> ∅) = remaining j runs 0 ∅) as ->.
    { destruct runs; cbn; [by rewrite delete_insert_eq, delete_empty|by rewrite insert_insert_eq]. }
    change (w <| db := d |>) with (mkWorld d (nodes w)).
    match goal with |- context [converge o j 0 runs ?x ?out] =>
      pose proof (converge_is_a_run o j runs 0 x out) as H;
      destruct (converge o j 0 runs x out) as [[w' out'] errs] end.
    etransitivity; [exact H|].
    cbn [fst]. by destruct (ValidateReconcileEvidence (Some out')).
  - rewrite delete_insert_eq, delete_empty. exact (idle_run_events o _ (mkWorld d (nodes w)) 0).
Qed.

(** ** What the evidence says *)

Definition succeeded (d : database) (r : deploymentRun) : Prop :=
  exists row, deployment_runs d !! r_ID r = Some row /\ dr_Status row = "succeeded".

Lemma finish_keeps_done w id dry failure at_ d d' res r :
  finishRun w id dry failure at_ d = (d', res) -> succeeded d r -> succeeded d' r.
Proof.
  intros [[E _]|[a Hs]]%WithTx_cases (row & Hr & Hst); [exists row; by rewrite E|].
  apply finish_statements_runs in Hs as (row0 & Hr0 & Hst0 & E). exists row. split; [|done].
  rewrite E, lookup_insert_ne; [done|]. intros ->. congruence.
Qed.

Lemma finish_ok w id dry at_ d d' a : finishRun w id dry None at_ d = (d', Ok a) ->
  exists row, deployment_runs d' !! id = Some row /\ dr_Status row = "succeeded".
Proof.
  intros [[_ H]|[b Hs]]%WithTx_cases; [by destruct (H a)|].
  apply finish_statements_runs in Hs as (row & _ & _ & ->). rewrite lookup_insert_eq. by eexists.
Qed.

Lemma converge_evidence o j runs : forall i w output w' output' errs,
  converge o j i runs w output = (w', output', errs) ->
  exists done, sublist done runs
    /\ ev_RunIds output' = ev_RunIds output ++ (r_ID <$> done)
    /\ ev_NodeIds output' = ev_NodeIds output ++ (r_NodeID <$> done)
    /\ ev_DeploymentId output' = ev_DeploymentId output
    /\ (errs = [] -> done = runs)
    /\ Forall (succeeded (db w')) done
    /\ (forall r, succeeded (db w) r -> succeeded (db w') r)
    /\ keeps (db w) (db w').
Proof.
  induction runs as [|r runs IH]; intros i w output w' output' errs; cbn.
  { intros [= -> -> <-]. exists []. cbn. rewrite !app_nil_r. do 5 (split; [done|]).
    split; [constructor|]. split; [done|]. intros id row Hr. exists row. by repeat split. }
  destruct (call_run (reachOf o i) j r (nodes w)) as [fleet called].
  destruct (outcome_of called) as [dry failure].
  destruct (finishRun _ _ _ _ _ _) as [d res] eqn:Ef.
  assert (forall w1 out1 errs1 what, converge o j (S i) runs (mkWorld d fleet) output = (w1, out1, errs1) ->
    (w1, out1, what :: errs1) = (w', output', errs) -> exists done, sublist done (r :: runs)
      /\ ev_RunIds output' = ev_RunIds output ++ (r_ID <$> done)
      /\ ev_NodeIds output' = ev_NodeIds output ++ (r_NodeID <$> done)
      /\ ev_DeploymentId output' = ev_DeploymentId output
      /\ (errs = [] -> done = r :: runs) /\ Forall (succeeded (db w')) done
      /\ (forall r, succeeded (db w) r -> succeeded (db w') r) /\ keeps (db w) (db w')) as Hskip.
  { intros w1 out1 errs1 what E [= <- <- <-].
    destruct (IH _ _ _ _ _ _ E) as (done & Hs & E1 & E2 & E3 & _ & Hd & Hk & Hkeep).
    exists done. split; [by constructor|]. do 3 (split; [done|]). split; [done|]. split; [done|].
    split; [intros r' Hr'; apply Hk; exact (finish_keeps_done _ _ _ _ _ _ _ _ _ Ef Hr')|].
    eapply keeps_trans; [exact (finish_keeps _ _ _ _ _ _ _ _ Ef)|exact Hkeep]. }
  destruct failure as [what|].
  { destruct (converge o j (S i) runs _ output) as [[w1 out1] errs1] eqn:E. by apply Hskip. }
  destruct res as [receiptID|e].
  2:{ destruct (converge o j (S i) runs _ output) as [[w1 out1] errs1] eqn:E. by apply Hskip. }
  clear Hskip. intros E. destruct (IH _ _ _ _ _ _ E) as (done & Hs & E1 & E2 & E3 & Ee & Hd & Hk & Hkeep).
  cbn in E1, E2, E3. exists (r :: done). split; [by constructor|].
  rewrite <-!app_assoc in E1, E2. do 3 (split; [done|]). split; [intros He; by rewrite (Ee He)|].
  split; [constructor; [|done]; apply Hk; by eapply finish_ok|].
  split; [intros r' Hr'; apply Hk; exact (finish_keeps_done _ _ _ _ _ _ _ _ _ Ef Hr')|].
  eapply keeps_trans; [exact (finish_keeps _ _ _ _ _ _ _ _ Ef)|exact Hkeep].
Qed.

(** A run that is recorded as succeeded and whose record was reported as failed. *)
Lemma finish_succeeded w id dry failure at_ d d' res row row' :
  finishRun w id dry failure at_ d = (d', res) ->
  deployment_runs d !! id = Some row -> dr_Status row = "running" ->
  deployment_runs d' !! id = Some row' -> dr_Status row' = "succeeded" ->
  failure = None /\ (w = CommitFailed true \/ exists a, res = Ok a).
Proof.
  unfold finishRun, WithTx. destruct (finish_statements id dry failure at_ d) as [[d1 a]|e] eqn:E.
  - apply finish_statements_runs in E as (row0 & _ & _ & E).
    intros H Hr Hst Hr' Hst'. destruct w as [| |[]]; injection H as <- <-; cbn in Hr'; try congruence.
    all: rewrite E, lookup_insert_eq in Hr'; injection Hr' as <-; cbn in Hst';
      destruct failure; [done|]; eauto.
  - intros [= <- <-]. congruence.
Qed.

Lemma finish_other w id dry failure at_ d d' res id' : id' <> id ->
  finishRun w id dry failure at_ d = (d', res) ->
  deployment_runs d' !! id' = deployment_runs d !! id'.
Proof.
  intros Hne [[E _]|[a Hs]]%WithTx_cases; [by rewrite E|].
  apply finish_statements_runs in Hs as (row & _ & _ & ->). by rewrite lookup_insert_ne.
Qed.

(** The runs of a plan not yet called are in no evidence and have rows that run. *)
Definition waiting_run (d : database) (r : deploymentRun) : Prop :=
  exists row, deployment_runs d !! r_ID r = Some row /\ dr_Status row = "running".

(** What the rest of the loop leaves of a row and of the evidence. *)
Lemma converge_other o j runs id : forall i w output w' output' errs,
  converge o j i runs w output = (w', output', errs) -> id ∉ r_ID <$> runs ->
  deployment_runs (db w') !! id = deployment_runs (db w) !! id
  /\ (id ∈ ev_RunIds output -> id ∈ ev_RunIds output').
Proof.
  induction runs as [|r runs IH]; intros i w output w' output' errs; cbn [converge].
  { by intros [= -> -> _]. }
  destruct (call_run _ _ _ _) as [fleet called]. destruct (outcome_of called) as [dry failure].
  destruct (finishRun _ _ _ _ _ _) as [d res] eqn:Ef.
  intros E Hid. rewrite fmap_cons, not_elem_of_cons in Hid. destruct Hid as [Hne Hid].
  rewrite <-(finish_other _ _ _ _ _ _ _ _ id Hne Ef).
  assert (forall w1 out1 errs1 what,
    converge o j (S i) runs (mkWorld d fleet) output = (w1, out1, errs1) ->
    (w1, out1, what :: errs1) = (w', output', errs) ->
    deployment_runs (db w') !! id = deployment_runs d !! id
    /\ (id ∈ ev_RunIds output -> id ∈ ev_RunIds output')) as Hskip.
  { intros w1 out1 errs1 what E1 [= <- <- _]. exact (IH _ _ _ _ _ _ E1 Hid). }
  destruct failure as [what|].
  { destruct (converge o j (S i) runs _ output) as [[w1 out1] errs1] eqn:E1. by eapply Hskip. }
  destruct res as [receiptID|e].
  2:{ destruct (converge o j (S i) runs _ output) as [[w1 out1] errs1] eqn:E1. by eapply Hskip. }
  destruct (IH _ _ _ _ _ _ E Hid) as [E' Hin]. split; [done|].
  intros H. apply Hin. cbn. apply elem_of_app. by left.
Qed.

Lemma converge_complete o j runs : forall i w output w' output' errs,
  converge o j i runs w output = (w', output', errs) ->
  NoDup (r_ID <$> runs) -> Forall (waiting_run (db w)) runs ->
  forall k r, runs !! k = Some r -> succeeded (db w') r ->
    r_ID r ∈ ev_RunIds output' \/ finishEnding o (i + k) = CommitFailed true.
Proof.
  induction runs as [|r runs IH]; intros i w output w' output' errs; cbn [converge]; [done|].
  destruct (call_run _ _ _ _) as [fleet called]. destruct (outcome_of called) as [dry failure].
  destruct (finishRun _ _ _ _ _ _) as [d res] eqn:Ef.
  rewrite fmap_cons. intros E [Hid Hnd]%NoDup_cons [(row & Hr & Hst) Hrest]%Forall_cons.
  assert (Forall (waiting_run d) runs) as Hrest'.
  { rewrite Forall_forall in Hrest |- *. intros x Hx. destruct (Hrest x Hx) as (rx & Hrx & Hsx).
    exists rx. split; [|done]. rewrite <-Hrx. eapply finish_other; [|exact Ef].
    intros En. apply Hid. rewrite <-En. by apply list_elem_of_fmap_2. }
  assert (exists out1 errs1, converge o j (S i) runs (mkWorld d fleet) out1 = (w', output', errs1)
    /\ (failure = None -> (exists a, res = Ok a) -> r_ID r ∈ ev_RunIds out1)) as (out1 & errs1 & E1 & Hin).
  { destruct failure as [what|].
    { destruct (converge o j (S i) runs _ output) as [[w1 o1] errs1] eqn:E1. simplify_eq.
      eexists _, _. by split; [exact E1|]. }
    destruct res as [receiptID|e].
    - eexists _, _. split; [exact E|]. intros _ _. cbn. apply elem_of_app. right. by left.
    - destruct (converge o j (S i) runs _ output) as [[w1 o1] errs1] eqn:E1. simplify_eq.
      eexists _, _. split; [exact E1|]. by intros _ []. }
  intros [|k] x Hx Hs; cbn in Hx.
  - injection Hx as <-. rewrite Nat.add_0_r. destruct Hs as (row' & Hr' & Hst').
    destruct (converge_other _ _ _ _ _ _ _ _ _ _ E1 Hid) as [Eq Hmono]. rewrite Eq in Hr'. cbn in Hr'.
    destruct (finish_succeeded _ _ _ _ _ _ _ _ _ _ Ef Hr Hst Hr' Hst') as [Hf [Hw|Hok]]; auto.
  - replace (i + S k)%nat with (S i + k)%nat by lia. by eapply IH.
Qed.

Lemma NoDup_fmap_along {A B C} (f : A -> B) (g : A -> C) (l : list A) :
  (forall x y, x ∈ l -> y ∈ l -> f x = f y -> g x = g y) -> NoDup (g <$> l) -> NoDup (f <$> l).
Proof.
  induction l as [|x l IH]; intros Hf; [constructor|]. rewrite !fmap_cons, !NoDup_cons.
  intros [Hx Hl]. split; [|apply IH; [by intros a b Ha Hb; apply Hf; right|done]].
  intros (y & E & Hy)%list_elem_of_fmap. apply Hx.
  rewrite (Hf x y); [by apply list_elem_of_fmap_2|by left|by right|done].
Qed.

Lemma planDeploymentRuns_targets ids active targets t :
  t ∈ targets -> o_Id t ∈ r_NodeID <$> planDeploymentRuns ids active targets.
Proof.
  intros Ht. unfold planDeploymentRuns. apply list_elem_of_fmap.
  assert ((o_Id t, DesiredStateRunning) ∈ (fun t => (o_Id t, DesiredStateRunning)) <$> targets)
    as Hin by (apply list_elem_of_fmap; eauto).
  apply list_elem_of_lookup in Hin as [k Hk].
  exists (mkRun (ids k) (o_Id t) DesiredStateRunning). split; [done|].
  apply elem_of_lookup_imap. exists k, (o_Id t, DesiredStateRunning). split; [done|].
  by apply lookup_app_l_Some.
Qed.

(** A plan that has been persisted: its rows run, under identifiers of their own. *)
Lemma persisted_plan w j ro ids at_ d d' a :
  let runs := planDeploymentRuns ids (j_Active j) (j_Targets j) in
  NoDup (o_Id <$> j_Targets j) -> NoDup (j_Active j) ->
  persistIntent w j ro runs at_ d = (d', Ok a) ->
  NoDup (r_ID <$> runs) /\ Forall (waiting_run d') runs.
Proof.
  intros runs Ht Ha [_ Heach _]%persist_ok. split.
  - apply (NoDup_fmap_along r_ID r_NodeID); [|by apply planDeploymentRuns_distinct].
    intros x y [_ Hx]%Heach [_ Hy]%Heach En. rewrite En, Hy in Hx. by injection Hx.
  - apply Forall_forall. intros r [_ Hr]%Heach. by eexists.
Qed.

(** C22: The evidence is the record.  The runs and nodes that [reconcile] returns are, in
    order, runs of the plan it derived from the request and the tables, and each has a row
    that says it succeeded, for that node and direction.  Conversely every run of the plan
    has a row for its node and direction, and one that says it succeeded is in the evidence
    unless the commit of its transaction was reported as failed though PostgreSQL performed
    it.  When no error is returned the evidence is the whole plan, which has each node of
    the placement and each node that may have been running the project. *)
Theorem evidence_is_the_record (o : occasion) (input : option ReconcileIntent)
  (expected : option ReconcileRevision) (w w' : world) (ev : ReconcileEvidence)
  (err : option string)
  (H : reconcile o input expected w = (w', (Some ev, err))) :
  exists j done, begin labels (git o) (reads o) (snapshot o) input expected (db w) = Ok j
    /\ let runs := planDeploymentRuns (runIDs o) (j_Active j) (j_Targets j) in
    sublist done runs
    /\ ev_DeploymentId ev = d_ID (j_Deployment j)
    /\ ev_RunIds ev = r_ID <$> done /\ ev_NodeIds ev = r_NodeID <$> done
    /\ (forall r, r ∈ runs -> exists row, deployment_runs (db w') !! r_ID r = Some row
          /\ dr_NodeID row = r_NodeID r /\ dr_DeploymentID row = ev_DeploymentId ev
          /\ dr_DesiredState row = r_DesiredState r
          /\ (r ∈ done -> dr_Status row = "succeeded"))
    /\ (forall k r, runs !! k = Some r -> succeeded (db w') r ->
          r ∈ done \/ finishEnding o k = CommitFailed true)
    /\ (err = None -> done = runs)
    /\ (forall n, err = None -> n ∈ o_Id <$> j_Targets j -> n ∈ ev_NodeIds ev)
    /\ (forall n, n ∈ ListPossiblyActiveDeploymentNodes (ev_DeploymentId ev) (db w) ->
          err = None -> n ∈ ev_NodeIds ev).
Proof.
  unfold OsReconcile.reconcile in H.
  destruct (begin labels (git o) (reads o) (snapshot o) input expected (db w)) as [j|what] eqn:E; [|done].
  set (runs := planDeploymentRuns (runIDs o) (j_Active j) (j_Targets j)) in *.
  destruct (persistIntent (intentEnding o) j (rolloutID o) runs (persistedAt o) (db w))
    as [d [noop|e]] eqn:Ep; [|done].
  pose proof E as (i & _ & _ & _ & _ & _ & Ed & _ & _ & El & _ & Ht)%begin_ok.
  destruct (persisted_plan _ _ _ _ _ _ _ _ Ht ltac:(rewrite El; apply ListPossiblyActive_distinct) Ep)
    as [Hids Hrun].
  match type of H with context [converge o j 0 runs ?x ?out] =>
    pose proof (converge_evidence o j runs 0 x out) as Hc;
    pose proof (converge_complete o j runs 0 x out) as Hcc;
    destruct (converge o j 0 runs x out) as [[w1 out1] errs] end.
  destruct (ValidateReconcileEvidence (Some out1)); [|done]. injection H as <- <- He.
  destruct (Hc _ _ _ eq_refl) as (done & Hs & E1 & E2 & E3 & Ee & Hd & _ & Hk). cbn in E1, E2, E3, Hk.
  specialize (Hcc _ _ _ eq_refl Hids Hrun). cbn in Hcc.
  assert (err = None -> done = runs) as Hall.
  { intros Hn. apply Ee. rewrite <-He in Hn. by destruct errs. }
  exists j, done. split; [done|]. cbv zeta. do 4 (split; [done|]).
  split; [|split; [|split; [done|split]]].
  - intros r Hr. apply persist_ok in Ep as [_ Heach _]. destruct (Heach r Hr) as [_ Hrow0].
    destruct (Hk _ _ Hrow0) as (row & Hrow & F1 & F2 & _ & _ & F5). cbn in F1, F2, F5.
    exists row. rewrite E3. do 4 (split; [done|]). rewrite Forall_forall in Hd.
    intros (row' & Hrow' & Hst)%Hd. congruence.
  - subst runs. intros k r Hk' Hsr. destruct (Hcc k r Hk' Hsr) as [Hin|]; [left|by right].
    rewrite E1 in Hin. apply list_elem_of_fmap in Hin as (x & Ex & Hx).
    assert (x = r) as <-; [|done].
    assert (x ∈ planDeploymentRuns (runIDs o) (j_Active j) (j_Targets j)) as [k' Hk'']%list_elem_of_lookup by (by eapply elem_of_sublist).
    assert (k' = k) as ->; [|congruence]. eapply NoDup_lookup; [exact Hids| |].
    all: by rewrite list_lookup_fmap, ?Hk', ?Hk''; cbn; rewrite ?Ex.
  - intros n Hn (t & -> & Htn)%list_elem_of_fmap. rewrite E2, (Hall Hn).
    by apply planDeploymentRuns_targets.
  - intros n Hn Hnone. rewrite E2, (Hall Hnone). rewrite E3, Ed, <-El in Hn.
    destruct (planDeploymentRuns_covers (runIDs o) (j_Active j) (j_Targets j) n Hn) as (r & Hr & <-).
    apply list_elem_of_fmap. eauto.
Qed.
End tracking.

(** ** What defeats it *)

Module TrackingDemo.
Import RolloutDemo.

(** The reply of the agent is lost, and the run is recorded as failed. *)
Definition deaf (url : string) : option endpoint :=
  (fun e => mkEndpoint (healthReply e) (requestArrives e) (met e) false) <$> reach url.
Definition lost_reply : list event :=
  [begins 1 (intent "shop" "shop" "apps/shop" DESIRED_STATE_RUNNING "n1");
   persists 1 "o1" 1000000; Calls 1 deaf; Records 1 Committed 2000000].

(** Two operations overlap: the start is recorded first, and called last. *)
Definition overlap : list event :=
  [begins 1 (intent "shop" "shop" "apps/shop" DESIRED_STATE_RUNNING "n1");
   persists 1 "o1" 1000000;
   begins 2 (intent "shop" "shop" "apps/shop" DESIRED_STATE_STOPPED "n1");
   persists 2 "o2" 2000000]
  ++ converges 2 3000000 ++ converges 1 4000000.

(** The project is given another app, on the other node. *)
Definition renamed : list event :=
  deploy
  ++ [begins 2 (intent "cart" "shop" "apps/cart" DESIRED_STATE_RUNNING "n2");
      persists 2 "o2" 3000000]
  ++ converges 2 4000000 ++ converges 2 5000000.

(** A second project of the same app, from another path of the same commit. *)
Definition second_path : list event :=
  deploy
  ++ [begins 2 (intent "shop" "other" "apps/other" DESIRED_STATE_RUNNING "n2");
      persists 2 "o2" 3000000]
  ++ converges 2 4000000.

Definition running_at (project app n : string) (c : core) : option bool :=
  may_run project app <$> nodes (all c) !! n.
Definition active (project : string) (c : core) : list string :=
  ListPossiblyActiveDeploymentNodes project (db (all c)).

Definition app_of (project : string) : string := "shop".
Definition once : occasion :=
  mkOccasion git true seen 1000000 "o1" (ids "o1") Committed (fun _ => reach)
    (fun _ => 2000000) (fun _ => Committed).
End TrackingDemo.
Import RolloutDemo TrackingDemo.

Lemma no_node_is_forgotten_witness :
  "n1" ∈ ListPossiblyActiveDeploymentNodes "shop" (db (all (play lost_reply)))
  /\ running_at "shop" "shop" "n1" (play lost_reply) = Some true.
Proof.
  assert (running_at "shop" "shop" "n1" (play lost_reply) = Some true) as Hrun by (by vm_compute).
  split; [|done]. unfold running_at in Hrun. apply fmap_Some in Hrun as (a & Ha & Hm).
  eapply (no_node_is_forgotten runner client labels app_of empty_database (nodes (all start))
    (boot ++ lost_reply) "n1" "shop" "shop" a); [done| | |exact Ha|done].
  - apply map_Forall_insert_2; [done|]. by apply map_Forall_singleton.
  - assert (db (all (play [begins 1 (intent "shop" "shop" "apps/shop" DESIRED_STATE_RUNNING "n1")]))
      = empty_database) as Hd by (by vm_compute).
    cbn [app boot lost_reply orderly_run]. do 2 (split; [done|]).
    split; [split; [by vm_compute|by intros i [= <-]]|]. split; [|by repeat split].
    intros j _ id row Hrow. exfalso.
    match type of Hrow with deployment_runs (db (all ?c)) !! _ = _ =>
      change c with (play [begins 1 (intent "shop" "shop" "apps/shop" DESIRED_STATE_RUNNING "n1")]) in Hrow
    end. by rewrite Hd in Hrow.
Defined.

Lemma evidence_is_the_record_witness :
  exists w ev, OsReconcile.reconcile runner client labels once
      (intent "shop" "shop" "apps/shop" DESIRED_STATE_RUNNING "n1") None (all (play []))
    = (w, (Some ev, None))
    /\ ev_NodeIds ev = ["n1"]
    /\ forall r, r ∈ ev_RunIds ev -> is_Some (deployment_runs (db w) !! r).
Proof.
  destruct (OsReconcile.reconcile runner client labels once
    (intent "shop" "shop" "apps/shop" DESIRED_STATE_RUNNING "n1") None (all (play [])))
    as [w [[ev|] [err|]]] eqn:E; try (vm_compute in E; discriminate E).
  exists w, ev. split; [done|].
  destruct (evidence_is_the_record runner client labels app_of _ _ _ _ _ _ _ E)
    as (j & done & _ & Hsub & _ & Er & _ & Hd & _).
  split; [vm_compute in E; injection E as _ <-; reflexivity|].
  rewrite Er. intros r (x & -> & Hx)%list_elem_of_fmap.
  destruct (Hd x) as (row & Hrow & _); [by eapply elem_of_sublist|]. by exists row.
Defined.

(** The exception is real: the record of the only run is committed and reported as failed,
    so the evidence names no node and the tables say that the run succeeded. *)
Example unreported_success :
  let o := mkOccasion git true seen 1000000 "o1" (ids "o1") Committed (fun _ => reach)
    (fun _ => 2000000) (fun _ => CommitFailed true) in
  let '(w, (ev, err)) := OsReconcile.reconcile runner client labels o
    (intent "shop" "shop" "apps/shop" DESIRED_STATE_RUNNING "n1") None (all (play [])) in
  (ev_NodeIds <$> ev, err) = (Some [], Some "one or more node reconciliations failed")
  /\ (fun kv => dr_Status kv.2) <$> map_to_list (deployment_runs (db w)) = ["succeeded"].
Proof. vm_compute. split; reflexivity. Qed.

(** Operations that overlap can lose a node.  The two calls of [reconcile] do not exclude
    each other between the write of an intent and the call of its runs: here a start that
    is recorded before a stop reaches the node after it, and the app runs on a node that
    the tables no longer list, so no later operation of the project reaches it. *)
Theorem overlapping_operations_lose_a_node :
  running_at "shop" "shop" "n1" (play overlap) = Some true
  /\ active "shop" (play overlap) = [] /\ ops (play overlap) = ∅.
Proof. vm_compute. auto. Qed.

(** A project whose app is renamed: the stop of the node it leaves names the new app, so
    the old one runs on, unlisted. *)
Theorem renamed_app_runs_on :
  running_at "shop" "shop" "n1" (play renamed) = Some true
  /\ active "shop" (play renamed) = ["n2"]
  /\ (r ← deployment_runs (db (all (play renamed))) !! "o2-1"; Some (dr_NodeID r, dr_DesiredState r, dr_Status r))
     = Some ("n1", "stopped", "succeeded").
Proof. vm_compute. auto. Qed.

(** The revision of an app at a commit is recorded once, whatever its path: the second
    deployment is recorded with the content of the first one's path. *)
Theorem second_path_is_misrecorded :
  (r ← GetDeploymentForReconcile "other" (db (all (play second_path)));
   Some (av_SourceSha256 (fr_Revision r), av_ComposeFile (fr_Revision r)))
  = Some ("sha256:" +:+ OsAgent.zeros 63 +:+ "a", "apps/shop/compose.yaml")
  /\ (a ← nodes (all (play second_path)) !! "n2"; i ← last (OsAgent.ran a);
      Some (a_ContentSha256 (OsAgent.ran_assignment i), a_Path (OsAgent.ran_assignment i)))
  = Some ("sha256:" +:+ OsAgent.zeros 63 +:+ "b", "apps/other").
Proof. vm_compute. auto. Qed.
Close Scope Z_scope.
