(* ===== verification/OsApprovals.v ===== *)
(** * CandaceOS: approvals

    [services/candaceos/operator/approvals.go].  [ApprovalQueue] is shared by goroutines that hold its
    lock only for parts of a call: a request is recorded, published and then waits; a
    decision claims the approval, calls the durability hook without the lock, and sends the
    result.  Each part is a step here, with the outcome of a hook, the clock and the state
    of a context as its inputs, so that every interleaving is a list of steps.  The JSON
    of a payload and the hash are parameters. *)
From S2P Require Import Prelude.
From S2P Require Import OsContract.

Open Scope Z_scope.

(** ** Data *)

Definition DecisionApprove : string := "approve".
Definition DecisionReject : string := "reject".
Definition DecisionExpired : string := "expired".

Definition approvalActorOperatorKey : string := "operator".
Definition approvalActorRuntimeKey : string := "runtime".
Definition approvalActorTimeoutKey : string := "timeout".
Definition approvalActorAbortKey : string := "abort".
Definition approvalActorWebOperatorKey : string := "web-operator".

(** [Payload] is its JSON, if it has one. *)
Record ApprovalRequest := mkApprovalRequest {
  rq_RunID : string;
  rq_ToolCallID : string;
  rq_Kind : string;
  rq_Title : string;
  rq_Detail : string;
  rq_Risk : string;
  rq_Payload : option string;
  rq_RequiresFleetQuorum : bool;
}.

Record Approval := mkQueueApproval {
  ID : string;
  RunID : string;
  ToolCallID : string;
  Kind : string;
  Title : string;
  Detail : string;
  Risk : string;
  PayloadSHA256 : string;
  RequiresFleetQuorum : bool;
  RequestedAt : Time.t;
  ExpiresAt : Time.t;
}.

Record ApprovalResolution := mkResolution {
  r_Approval : Approval;
  Decision : string;
  Actor : string;
  At : Time.t;
}.

Record pendingApproval := mkPending {
  approval : Approval;
  resolving : bool;
  invalidatedBy : string;
}.
#[export] Instance Rebuild_pendingApproval : Rebuild pendingApproval := fun p =>
  mkPending (approval p) (resolving p) (invalidatedBy p).

(** A result and whether the hook failed. *)
Record approvalResult := mkResult { resolution : ApprovalResolution; hookFailed : bool }.

Inductive approvalFinishState :=
| approvalFinishMissing | approvalFinishRecording | approvalFinishResolving.

(** How a request ends: with a result, with a result and an error, or with an error. *)
Inductive outcome := Answered (result : approvalResult) | Failed.

(** The goroutine of a request. *)
Inductive waiter :=
| Recording
| Voiding (r : ApprovalResolution) (contextDone : bool)
| Waiting
| Ending (byContext : bool)
| Draining
| Done (o : outcome).

(** A call of [finish] that has claimed its approval and is in the hook, with the rest of
    the approvals an [ExpireRun] has listed; or an [ExpireRun] between two calls. *)
Inductive finisher :=
| Claimed (id : string) (r : ApprovalResolution) (rest : list string)
| Expiring (ids : list string).

(** The queue, its goroutines, and what the hook has been called with.  A finisher is keyed
    by the request it belongs to, or by a number; [voided] are the approvals an
    [ExpireRun] found being recorded. *)
Record queue := mkQueue {
  recording : gmap string pendingApproval;
  pending : gmap string pendingApproval;
  channel : gmap string (list approvalResult);
  waiters : gmap string waiter;
  finishers : gmap (string + nat) finisher;
  resolved : list approvalResult;
  voided : gset string;
}.
#[export] Instance Rebuild_queue : Rebuild queue := fun q =>
  mkQueue (recording q) (pending q) (channel q) (waiters q) (finishers q) (resolved q) (voided q).

Definition NewApprovalQueue : queue :=
  {| recording := ∅; pending := ∅; channel := ∅; waiters := ∅; finishers := ∅;
     resolved := []; voided := ∅ |}.

Definition sent (q : queue) (id : string) : list approvalResult := default [] (channel q !! id).

(** ** finish *)

Definition finish_claim (id decision actor : string) (at_ : Time.t) (q : queue)
  : queue * (approvalFinishState + ApprovalResolution) :=
  match recording q !! id with
  | Some _ => (q, inl approvalFinishRecording)
  | None =>
      match pending q !! id with
      | None => (q, inl approvalFinishMissing)
      | Some p =>
          if resolving p then (q, inl approvalFinishResolving)
          else
            let '(decision, actor) :=
              if negb (bool_decide (decision = DecisionExpired))
                 && negb (Time.Before at_ (ExpiresAt (approval p)))
              then (DecisionExpired, approvalActorTimeoutKey) else (decision, actor) in
            (q <| pending ::= <[id := p <| resolving := true |>]> |>,
             inr (mkResolution (approval p) decision actor at_))
      end
  end.

(** From the hook on: [pending.result <- result] does not block while the channel is empty. *)
Definition finish_end (id : string) (r : ApprovalResolution) (failed : bool) (q : queue)
  : queue * approvalResult :=
  let result := mkResult r failed in
  (q <| resolved ::= (.++ [result]) |> <| pending ::= delete id |>
     <| channel ::= <[id := sent q id ++ [result]]> |>, result).

Section queue.
Context (timeout : Time.Duration) (hash : string -> string).

(** ** The calls, in steps *)

Definition acceptable (request : ApprovalRequest) : bool :=
  negb (bool_decide (rq_Kind request = "")) && negb (bool_decide (rq_Title request = ""))
  && negb (bool_decide (rq_Detail request = ""))
  && (bool_decide (rq_Risk request = "low") || bool_decide (rq_Risk request = "medium")
      || bool_decide (rq_Risk request = "high")).

(** [Request] up to its entry in [recording]. *)
Definition Request (id : string) (request : ApprovalRequest) (now : Time.t)
  (deadline : option Time.t) (q : queue) : queue :=
  if negb (acceptable request) then q
  else match rq_Payload request with
       | None => q
       | Some payload =>
           let expiresAt := Time.Add now timeout in
           let expiresAt := match deadline with
                            | Some d => if Time.Before d expiresAt then d else expiresAt
                            | None => expiresAt
                            end in
           let a := {| ID := id; RunID := rq_RunID request; ToolCallID := rq_ToolCallID request;
                       Kind := rq_Kind request; Title := rq_Title request;
                       Detail := rq_Detail request; Risk := rq_Risk request;
                       PayloadSHA256 := hash payload;
                       RequiresFleetQuorum := rq_RequiresFleetQuorum request;
                       RequestedAt := now; ExpiresAt := expiresAt |} in
           q <| recording ::= <[id := mkPending a false ""]> |>
             <| waiters ::= <[id := Recording]> |>
       end.

(** [OnRequested] has returned. *)
Definition Requested (id : string) (failed contextDone : bool) (now : Time.t) (q : queue) : queue :=
  match waiters q !! id, recording q !! id with
  | Some Recording, Some p =>
      let q := q <| recording ::= delete id |> in
      if failed then q <| waiters ::= <[id := Done Failed]> |>
      else if bool_decide (invalidatedBy p = "") && negb contextDone then
        q <| pending ::= <[id := p]> |> <| waiters ::= <[id := Waiting]> |>
      else
        let invalidatedBy := if bool_decide (invalidatedBy p = "") then approvalActorRuntimeKey
                             else invalidatedBy p in
        q <| waiters ::= <[id := Voiding
               (mkResolution (approval p) DecisionExpired invalidatedBy now) contextDone]> |>
  | _, _ => q
  end.

(** The hook of a request that is not published has returned. *)
Definition Voided (id : string) (failed : bool) (q : queue) : queue :=
  match waiters q !! id with
  | Some (Voiding r contextDone) =>
      q <| resolved ::= (.++ [mkResult r failed]) |>
        <| waiters ::= <[id := Done (if contextDone then Failed else Answered (mkResult r failed))]> |>
  | _ => q
  end.

(** The select: the result, the context, the timer. *)
Definition Receive (id : string) (q : queue) : queue :=
  match waiters q !! id, sent q id with
  | Some Waiting, result :: rest | Some Draining, result :: rest =>
      q <| channel ::= <[id := rest]> |> <| waiters ::= <[id := Done (Answered result)]> |>
  | _, _ => q
  end.

Definition ContextDone (id : string) (at_ : Time.t) (q : queue) : queue :=
  match waiters q !! id with
  | Some Waiting =>
      let '(q, claim) := finish_claim id DecisionExpired approvalActorRuntimeKey at_ q in
      match claim with
      | inl _ => q <| waiters ::= <[id := Done Failed]> |>
      | inr r => q <| waiters ::= <[id := Ending true]> |>
                   <| finishers ::= <[inl id := Claimed id r []]> |>
      end
  | _ => q
  end.

Definition TimerFires (id : string) (at_ : Time.t) (q : queue) : queue :=
  match waiters q !! id with
  | Some Waiting =>
      let '(q, claim) := finish_claim id DecisionExpired approvalActorTimeoutKey at_ q in
      match claim with
      | inl _ => q <| waiters ::= <[id := Draining]> |>
      | inr r => q <| waiters ::= <[id := Ending false]> |>
                   <| finishers ::= <[inl id := Claimed id r []]> |>
      end
  | _ => q
  end.

(** [Resolve]: a decision of another kind is refused. *)
Definition Resolve (k : nat) (id decision actor : string) (at_ : Time.t) (q : queue)
  : queue * option approvalFinishState :=
  if negb (bool_decide (decision = DecisionApprove) || bool_decide (decision = DecisionReject))
  then (q, None)
  else
    let actor := if bool_decide (actor = "") then approvalActorOperatorKey else actor in
    let '(q, claim) := finish_claim id decision actor at_ q in
    match claim with
    | inl state => (q, Some state)
    | inr r => (q <| finishers ::= <[inr k := Claimed id r []]> |>, None)
    end.

(** [ExpireRun], up to the list of approvals it is going to expire, and its next one. *)
Definition ExpireRun (k : nat) (runID actor : string) (q : queue) : queue :=
  if bool_decide (runID = "") then q
  else
    let actor := if bool_decide (actor = "") then approvalActorAbortKey else actor in
    let ids := (map_to_list (base.filter (fun kv => RunID (approval kv.2) = runID) (pending q))).*1 in
    q <| recording ::= fmap (fun p =>
           if bool_decide (RunID (approval p) = runID) && bool_decide (invalidatedBy p = "")
           then p <| invalidatedBy := actor |> else p) |>
      <| voided ::= fun v => v ∪ dom (base.filter (fun kv => RunID (approval kv.2) = runID) (recording q)) |>
      <| finishers ::= <[inr k := Expiring (sort_by (fun s => s) ids)]> |>.

Definition ExpireNext (k : nat) (actor : string) (at_ : Time.t) (q : queue) : queue :=
  match finishers q !! inr k with
  | Some (Expiring (id :: rest)) =>
      let actor := if bool_decide (actor = "") then approvalActorAbortKey else actor in
      let '(q, claim) := finish_claim id DecisionExpired actor at_ q in
      match claim with
      | inl _ => q <| finishers ::= <[inr k := Expiring rest]> |>
      | inr r => q <| finishers ::= <[inr k := Claimed id r rest]> |>
      end
  | Some (Expiring []) => q <| finishers ::= delete (inr k) |>
  | _ => q
  end.

(** The hook of a claimed approval has returned. *)
Definition Hooked (k : string + nat) (failed : bool) (q : queue) : queue :=
  match finishers q !! k with
  | Some (Claimed id r rest) =>
      let '(q, result) := finish_end id r failed q in
      match k with
      | inl own =>
          let byContext := match waiters q !! own with Some (Ending b) => b | _ => true end in
          q <| finishers ::= delete k |>
            <| waiters ::= <[own := Done (if byContext then Failed else Answered result)]> |>
      | inr _ =>
          q <| finishers ::= match rest with
                             | [] => delete k
                             | _ :: _ => <[k := Expiring rest]>
                             end |>
      end
  | _ => q
  end.

Definition earlier (a b : Approval) : Prop := RequestedAt a <= RequestedAt b.
#[export] Instance earlier_dec : RelDecision earlier := fun a b => Z_le_dec _ _.
Definition Pending (q : queue) : list Approval :=
  merge_sort earlier (approval <$> (map_to_list (pending q)).*2).

Definition Get (id : string) (q : queue) : option Approval :=
  match pending q !! id with
  | Some p => if resolving p then None else Some (approval p)
  | None => None
  end.

(** ** Runs *)

Inductive event :=
| ERequest (id : string) (request : ApprovalRequest) (now : Time.t) (deadline : option Time.t)
| ERequested (id : string) (failed contextDone : bool) (now : Time.t)
| EVoided (id : string) (failed : bool)
| EReceive (id : string)
| EContextDone (id : string) (at_ : Time.t)
| ETimerFires (id : string) (at_ : Time.t)
| EResolve (k : nat) (id decision actor : string) (at_ : Time.t)
| EExpireRun (k : nat) (runID actor : string)
| EExpireNext (k : nat) (actor : string) (at_ : Time.t)
| EHooked (k : string + nat) (failed : bool).

(** Identifiers are drawn afresh, and a goroutine makes one call at a time. *)
Definition possible (q : queue) (e : event) : Prop :=
  match e with
  | ERequest id _ _ _ => waiters q !! id = None
  | EResolve k _ _ _ _ | EExpireRun k _ _ => finishers q !! inr k = None
  | _ => True
  end.

Definition step (q : queue) (e : event) : queue :=
  match e with
  | ERequest id request now deadline => Request id request now deadline q
  | ERequested id failed contextDone now => Requested id failed contextDone now q
  | EVoided id failed => Voided id failed q
  | EReceive id => Receive id q
  | EContextDone id at_ => ContextDone id at_ q
  | ETimerFires id at_ => TimerFires id at_ q
  | EResolve k id decision actor at_ => (Resolve k id decision actor at_ q).1
  | EExpireRun k runID actor => ExpireRun k runID actor q
  | EExpireNext k actor at_ => ExpireNext k actor at_ q
  | EHooked k failed => Hooked k failed q
  end.

Inductive reachable : queue -> list event -> Prop :=
| reach_new : reachable NewApprovalQueue []
| reach_step q es e : reachable q es -> possible q e -> reachable (step q e) (es ++ [e]).
End queue.

(** ** The life of an approval *)

Definition about (res : approvalResult) : string := ID (r_Approval (resolution res)).
Definition claims (q : queue) (id : string) (k : string + nat) (r : ApprovalResolution) : Prop :=
  exists rest, finishers q !! k = Some (Claimed id r rest).
Definition logged (q : queue) (id : string) (res : approvalResult) : Prop :=
  res ∈ resolved q /\ about res = id.

(** An approval goes through only before its deadline. *)
Definition timely (r : ApprovalResolution) : Prop :=
  Decision r <> DecisionExpired -> At r < ExpiresAt (r_Approval r).

Record untouched (q : queue) (id : string) : Prop := {
  un_sent : sent q id = [];
  un_claims k r : ~ claims q id k r;
  un_logged res : ~ logged q id res;
}.

Inductive life (q : queue) (id : string) : Prop :=
| unborn :
    waiters q !! id = None -> recording q !! id = None -> pending q !! id = None ->
    untouched q id -> id ∉ voided q -> life q id
| recorded p :
    waiters q !! id = Some Recording -> recording q !! id = Some p -> pending q !! id = None ->
    untouched q id -> ID (approval p) = id -> resolving p = false ->
    (id ∈ voided q -> invalidatedBy p <> "") -> life q id
| voiding r contextDone :
    waiters q !! id = Some (Voiding r contextDone) -> recording q !! id = None ->
    pending q !! id = None -> untouched q id -> ID (r_Approval r) = id ->
    Decision r = DecisionExpired -> life q id
| open p :
    waiters q !! id = Some Waiting -> recording q !! id = None -> pending q !! id = Some p ->
    untouched q id -> ID (approval p) = id -> resolving p = false -> id ∉ voided q -> life q id
| claimed p k r w :
    waiters q !! id = Some w -> recording q !! id = None -> pending q !! id = Some p ->
    sent q id = [] -> (forall res, ~ logged q id res) -> ID (approval p) = id ->
    resolving p = true -> id ∉ voided q ->
    claims q id k r -> (forall k' r', claims q id k' r' -> k' = k) ->
    r_Approval r = approval p -> timely r ->
    match k with
    | inl own => own = id /\ exists b, w = Ending b
    | inr _ => w = Waiting \/ w = Draining \/ w = Done Failed
    end -> life q id
| over w :
    waiters q !! id = Some w -> recording q !! id = None -> pending q !! id = None ->
    (forall k r, ~ claims q id k r) ->
    (forall res, res ∈ sent q id -> logged q id res) ->
    (length (sent q id) <= 1)%nat ->
    match w with
    | Waiting | Draining => sent q id <> []
    | Done (Answered res) => logged q id res
    | Done Failed => True
    | _ => False
    end -> life q id.

(** The log: one entry for an approval, timely, and expired if the approval is voided. *)
Record log_ok (q : queue) : Prop := {
  lo_once : NoDup (about <$> resolved q);
  lo_timely res : res ∈ resolved q -> timely (resolution res);
  lo_voided res : res ∈ resolved q -> about res ∈ voided q ->
    Decision (resolution res) = DecisionExpired;
}.

Record inv (q : queue) : Prop := {
  in_life id : life q id;
  in_log : log_ok q;
  in_own own f : finishers q !! inl own = Some f -> exists r, f = Claimed own r [];
}.

(** Two queues that agree about an approval. *)
Record same_at (q q' : queue) (id : string) : Prop := {
  sa_waiter : waiters q' !! id = waiters q !! id;
  sa_recording : recording q' !! id = recording q !! id;
  sa_pending : pending q' !! id = pending q !! id;
  sa_sent : sent q' id = sent q id;
  sa_voided : id ∈ voided q' <-> id ∈ voided q;
  sa_claims k r : claims q' id k r <-> claims q id k r;
  sa_logged res : logged q' id res <-> logged q id res;
}.

Lemma untouched_frame q q' id : same_at q q' id -> untouched q id -> untouched q' id.
Proof.
  intros S [H1 H2 H3]. split.
  - by rewrite (sa_sent _ _ _ S).
  - intros k r. by rewrite (sa_claims _ _ _ S).
  - intros res. by rewrite (sa_logged _ _ _ S).
Qed.

Lemma life_frame q q' id : same_at q q' id -> life q id -> life q' id.
Proof.
  intros S [?? Hp U Hv|p ?? Hp U ?? Hv|r c ?? Hp U|p ?? Hp U ?? Hv
    |p k r w ?? Hp Hs Hl ?? Hv Hc Hu ???|w ?? Hp Hc Hs Hl Hw].
  - apply unborn; try (by apply untouched_frame with q); rewrite ?(sa_waiter _ _ _ S),
      ?(sa_recording _ _ _ S), ?(sa_pending _ _ _ S), ?(sa_voided _ _ _ S); done.
  - apply (recorded _ _ p); try (by apply untouched_frame with q); rewrite ?(sa_waiter _ _ _ S),
      ?(sa_recording _ _ _ S), ?(sa_pending _ _ _ S), ?(sa_voided _ _ _ S); done.
  - apply (voiding _ _ r c); try (by apply untouched_frame with q); rewrite ?(sa_waiter _ _ _ S),
      ?(sa_recording _ _ _ S), ?(sa_pending _ _ _ S), ?(sa_voided _ _ _ S); done.
  - apply (open _ _ p); try (by apply untouched_frame with q); rewrite ?(sa_waiter _ _ _ S),
      ?(sa_recording _ _ _ S), ?(sa_pending _ _ _ S), ?(sa_voided _ _ _ S); done.
  - apply (claimed _ _ p k r w); rewrite ?(sa_waiter _ _ _ S), ?(sa_recording _ _ _ S),
      ?(sa_pending _ _ _ S), ?(sa_voided _ _ _ S), ?(sa_sent _ _ _ S), ?(sa_claims _ _ _ S); try done.
    + intros res. by rewrite (sa_logged _ _ _ S).
    + intros k' r'. rewrite (sa_claims _ _ _ S). apply Hu.
  - apply (over _ _ w); rewrite ?(sa_waiter _ _ _ S), ?(sa_recording _ _ _ S),
      ?(sa_pending _ _ _ S), ?(sa_sent _ _ _ S); try done.
    + intros k r. by rewrite (sa_claims _ _ _ S).
    + intros res. rewrite (sa_logged _ _ _ S). apply Hs.
    + destruct w as [| | | | |[res|]]; try done. by rewrite (sa_logged _ _ _ S).
Qed.

(** ** Steps keep it *)

Lemma finish_claim_spec id decision actor at_ q q' claim :
  finish_claim id decision actor at_ q = (q', claim) ->
  match claim with
  | inl _ => q' = q /\ forall p, recording q !! id = None -> pending q !! id = Some p -> resolving p = true
  | inr r => exists p, pending q !! id = Some p /\ resolving p = false
      /\ q' = q <| pending ::= <[id := p <| resolving := true |>]> |>
      /\ r_Approval r = approval p /\ timely r
      /\ At r = at_ /\ (Decision r = decision \/ Decision r = DecisionExpired)
  end.
Proof.
  unfold finish_claim. destruct (recording q !! id) eqn:Er; [by intros [= <- <-]|].
  destruct (pending q !! id) as [p|] eqn:Ep; [|by intros [= <- <-]].
  destruct (resolving p) eqn:Es; [intros [= <- <-]; split; [done|]; by intros ? _ [= <-]|].
  destruct (negb (bool_decide (decision = DecisionExpired)) && negb (Time.Before at_ _)) eqn:El;
    intros [= <- <-]; exists p; repeat (split; [done|]).
  - split; [by intros H|split; [done|by right]].
  - split; [|split; [done|by left]]. intros Hne. cbn in *. rewrite bool_decide_eq_false_2 in El by done.
    cbn in El. apply negb_false_iff, Z.ltb_lt in El. done.
Qed.

(** Two queues agree about an approval that a step does not touch. *)
Lemma same_elsewhere q q' id id' :
  id' <> id ->
  (forall x, x <> id -> waiters q' !! x = waiters q !! x) ->
  (forall x, x <> id -> recording q' !! x = recording q !! x) ->
  (forall x, x <> id -> pending q' !! x = pending q !! x) ->
  (forall x, x <> id -> channel q' !! x = channel q !! x) ->
  voided q' = voided q ->
  (forall k r rest, finishers q' !! k = Some (Claimed id' r rest) <->
     finishers q !! k = Some (Claimed id' r rest)) ->
  (forall res, about res = id' -> res ∈ resolved q' <-> res ∈ resolved q) ->
  same_at q q' id'.
Proof.
  intros Hne Hw Hr Hp Hc Hv Hf Hl. split; try (by auto).
  - unfold sent. by rewrite Hc.
  - by rewrite Hv.
  - intros k r. unfold claims. by setoid_rewrite Hf.
  - intros res. unfold logged. naive_solver.
Qed.

(** A finisher that does not claim [id'], put in the place of one that does not either. *)
Lemma finisher_elsewhere (m : gmap (string + nat) finisher) k0 f id' :
  (forall r rest, f <> Some (Claimed id' r rest)) ->
  (forall r rest, m !! k0 <> Some (Claimed id' r rest)) ->
  forall k r rest, partial_alter (fun _ => f) k0 m !! k = Some (Claimed id' r rest) <->
    m !! k = Some (Claimed id' r rest).
Proof.
  intros Hf Hm k r rest. destruct (decide (k = k0)) as [->|Hne].
  - rewrite lookup_partial_alter_eq. split; intros H; [by apply Hf in H|by apply Hm in H].
  - by rewrite lookup_partial_alter_ne.
Qed.

Ltac elsewhere id :=
  lazymatch goal with
  | Hne : ?x <> id |- life _ ?x =>
      eapply life_frame; [|by eauto];
      apply (same_elsewhere _ _ id x Hne); cbn;
      [intros; by rewrite ?lookup_insert_ne by done
      |intros; by rewrite ?lookup_delete_ne, ?lookup_insert_ne by done
      |intros; by rewrite ?lookup_delete_ne, ?lookup_insert_ne by done
      |intros; by rewrite ?lookup_insert_ne by done
      |done| |]
  end.

(** One more entry in the log. *)
Lemma log_append q q' res :
  log_ok q -> resolved q' = resolved q ++ [res] -> voided q' = voided q ->
  (forall x, ~ logged q (about res) x) -> timely (resolution res) ->
  (about res ∈ voided q -> Decision (resolution res) = DecisionExpired) -> log_ok q'.
Proof.
  intros [H1 H2 H3] E Ev Hnew Ht Hv. split; rewrite E, ?Ev.
  - rewrite fmap_app. apply NoDup_app. split; [done|]. split; [|apply NoDup_singleton].
    intros x (y & -> & Hy)%list_elem_of_fmap. cbn. rewrite list_elem_of_singleton.
    intros Ex. by apply (Hnew y).
  - intros x [Hx| ->%list_elem_of_singleton]%elem_of_app; [by apply H2|done].
  - intros x [Hx| ->%list_elem_of_singleton]%elem_of_app; [by apply H3|done].
Qed.

Lemma log_same q q' :
  log_ok q -> resolved q' = resolved q ->
  (forall res, res ∈ resolved q -> about res ∈ voided q' -> about res ∈ voided q) -> log_ok q'.
Proof. intros [H1 H2 H3] E Ev. split; rewrite E; auto. Qed.

Section steps.
Context (timeout : Time.Duration) (hash : string -> string).

Lemma request_keeps q id request now deadline :
  inv q -> waiters q !! id = None -> inv (Request timeout hash id request now deadline q).
Proof.
  intros I Hw. unfold Request. destruct (negb (acceptable request)); [done|].
  destruct (rq_Payload request) as [payload|]; [|done].
  split; cbn; [|by eapply log_same; [apply I| |]|apply I].
  intros id'. destruct (decide (id' = id)) as [->|Hne].
  - destruct (in_life _ I id) as [_ _ Hp [U1 U2 U3] Hv| | | | |]; try congruence.
    eapply recorded; cbn; [by rewrite lookup_insert_eq|by rewrite lookup_insert_eq|done| |done|done|done].
    split; [done|done|done].
  - pose proof (in_life _ I id'). by elsewhere id.
Qed.

Lemma requested_keeps q id failed contextDone now :
  inv q -> inv (Requested id failed contextDone now q).
Proof.
  intros I. unfold Requested. destruct (waiters q !! id) as [[]|] eqn:Hw; try done.
  destruct (recording q !! id) as [p|] eqn:Hr; [|done].
  destruct (in_life _ I id) as [|p' _ Hr' Hp [U1 U2 U3] Hi Hs Hv| | | |]; try congruence.
  assert (p' = p) as -> by congruence.
  assert (forall q', finishers q' = finishers q -> resolved q' = resolved q -> voided q' = voided q ->
    life q' id -> (forall id', id' <> id -> life q' id') -> inv q') as Hinv.
  { intros q' E1 E2 E3 Hid Hel. split; [|by eapply log_same; [apply I|done|rewrite E3]|rewrite E1; apply I].
    intros id'. destruct (decide (id' = id)) as [->|]; auto. }
  destruct failed; [|destruct (bool_decide (invalidatedBy p = "") && negb contextDone) eqn:El].
  - apply Hinv; try done.
    + eapply over; cbn; [by rewrite lookup_insert_eq|by rewrite lookup_delete_eq|done|done| | |done];
        unfold sent in *; cbn; rewrite U1; [by intros res ?%elem_of_nil|cbn; lia].
    + intros id' Hne. pose proof (in_life _ I id'). by elsewhere id.
  - apply Hinv; try done.
    + apply andb_true_iff in El as [El%bool_decide_eq_true _].
      eapply open; cbn; [by rewrite lookup_insert_eq|by rewrite lookup_delete_eq
        |by rewrite lookup_insert_eq|done|done|done|]. intros Hin. by apply Hv in Hin.
    + intros id' Hne. pose proof (in_life _ I id'). by elsewhere id.
  - apply Hinv; try done.
    + eapply voiding; cbn; [by rewrite lookup_insert_eq|by rewrite lookup_delete_eq|done|done|done|done].
    + intros id' Hne. pose proof (in_life _ I id'). by elsewhere id.
Qed.

Lemma voided_keeps q id failed : inv q -> inv (Voided id failed q).
Proof.
  intros I. unfold Voided. destruct (waiters q !! id) as [[|r c| | | |]|] eqn:Hw; try done.
  destruct (in_life _ I id) as [| |r' c' Hw' Hr Hp [U1 U2 U3] Hi Hd|
    |p' k' r' w Hw' ? ? ? ? ? ? ? ? ? ? ? Hm|w Hw' ? ? ? ? ? Hm]; try congruence;
    [|destruct k'; naive_solver congruence|destruct w; try done; congruence].
  assert (r' = r) as -> by congruence.
  assert (about (mkResult r failed) = id) as Ha by done.
  split; cbn; [|eapply log_append; [apply I|done|done|by rewrite Ha|by intros ?|done]|apply I].
  intros id'. destruct (decide (id' = id)) as [->|Hne].
  - eapply over; cbn; [by rewrite lookup_insert_eq|done|done|done| | |];
      unfold sent in *; cbn; rewrite ?U1; [by intros res ?%elem_of_nil|cbn; lia|].
    destruct c; [done|]. split; [|done]. apply elem_of_app. right. by apply list_elem_of_singleton.
  - pose proof (in_life _ I id'). elsewhere id; [done|].
    intros res Hres. rewrite elem_of_app, list_elem_of_singleton. split; [|by left].
    intros [?|Er]; [done|]. congruence.
Qed.

Lemma receive_keeps q id : inv q -> inv (Receive id q).
Proof.
  intros I. unfold Receive.
  destruct (sent q id) as [|result rest] eqn:Es; [by destruct (waiters q !! id) as [[]|]|].
  assert (inv (q <| channel ::= <[id := rest]> |> <| waiters ::= <[id := Done (Answered result)]> |>)
    \/ (waiters q !! id <> Some Waiting /\ waiters q !! id <> Some Draining)) as [H|[H1 H2]];
    [|by destruct (waiters q !! id) as [[]|]|by destruct (waiters q !! id) as [[]|]].
  destruct (in_life _ I id) as [Hw|p Hw|r c Hw|p Hw Hr Hp U|p k r w Hw ? Hp Hs|w Hw Hr Hp Hc Hl Hn Hm];
    [right; by rewrite Hw|right; by rewrite Hw|right; by rewrite Hw|by rewrite (un_sent _ _ U) in Es
    |congruence|left].
  split; cbn; [|by eapply log_same; [apply I| |]|apply I].
  intros id'. destruct (decide (id' = id)) as [->|Hne].
  - rewrite Es in Hl, Hn. cbn in Hn. destruct rest as [|? ?]; [|cbn in Hn; lia].
    eapply over; cbn; [by rewrite lookup_insert_eq|done|done|done| | |];
      unfold sent; cbn; rewrite ?lookup_insert_eq; cbn; [by intros res ?%elem_of_nil|lia|].
    apply Hl. by left.
  - pose proof (in_life _ I id'). by elsewhere id.
Qed.

(** A goroutine claims an open approval: its own, or another one. *)
Lemma claim_keeps q id p k r rest (w : option waiter) :
  inv q -> recording q !! id = None -> pending q !! id = Some p -> untouched q id ->
  ID (approval p) = id -> resolving p = false -> id ∉ voided q ->
  waiters q !! id = Some Waiting ->
  r_Approval r = approval p -> timely r ->
  (forall x y z, finishers q !! k <> Some (Claimed x y z)) ->
  match k with
  | inl own => own = id /\ rest = [] /\ exists b, w = Some (Ending b)
  | inr _ => w = None
  end ->
  inv (q <| pending ::= <[id := p <| resolving := true |>]> |>
         <| waiters ::= fun m => match w with Some w => <[id := w]> m | None => m end |>
         <| finishers ::= <[k := Claimed id r rest]> |>).
Proof.
  intros I Hr Hp [U1 U2 U3] Hi Hs Hv Hw Ha Ht Hk Hkw.
  split; cbn; [|by eapply log_same; [apply I| |]|].
  - intros id'. destruct (decide (id' = id)) as [->|Hne].
    + assert (forall k' r', claims (q <| pending ::= <[id := p <| resolving := true |>]> |>
        <| waiters ::= fun m => match w with Some w => <[id := w]> m | None => m end |>
        <| finishers ::= <[k := Claimed id r rest]> |>) id k' r' -> k' = k) as Hu.
      { intros k' r' [rest' Hc]. cbn in Hc. destruct (decide (k' = k)); [done|].
        rewrite lookup_insert_ne in Hc by done. by destruct (U2 k' r'); exists rest'. }
      eapply (claimed _ _ (p <| resolving := true |>) k r (default Waiting w)); cbn; try done.
      * destruct w; cbn; [by rewrite lookup_insert_eq|done].
      * by rewrite lookup_insert_eq.
      * exists rest. cbn. by rewrite lookup_insert_eq.
      * destruct k; [destruct Hkw as (-> & _ & b & ->); eauto|subst w; by left].
    + pose proof (in_life _ I id') as L. eapply life_frame; [|exact L].
      apply (same_elsewhere _ _ id id' Hne); cbn; try done.
      * intros x Hx. destruct w; [by rewrite lookup_insert_ne|done].
      * intros x Hx. by rewrite lookup_insert_ne.
      * apply (finisher_elsewhere (finishers q) k (Some (Claimed id r rest)) id'); [congruence|].
        intros. apply Hk.
  - intros own f. rewrite lookup_insert. case_decide as Ek; [|apply I].
    intros [= <-]. subst k. destruct Hkw as (-> & -> & _). by exists r.
Qed.

(** The goroutine of a request stops waiting for one that is claimed or over. *)
Lemma waiter_moves q id w :
  inv q -> waiters q !! id = Some Waiting -> (forall p, pending q !! id = Some p -> resolving p = true) ->
  w = Draining \/ w = Done Failed -> inv (q <| waiters ::= <[id := w]> |>).
Proof.
  intros I Hw Hres Hor.
  split; cbn; [|by eapply log_same; [apply I| |]|apply I].
  intros id'. destruct (decide (id' = id)) as [->|Hne].
  2:{ pose proof (in_life _ I id'). by elsewhere id. }
  destruct (in_life _ I id) as [|p|r c|p ? ? Hp ? ? Hs|p k r w' Hw' Hr Hp Hs Hl Hi Hre Hv Hc Hu Ha Ht Hk
    |w' Hw' Hr Hp Hc Hl Hn Hm]; try congruence.
  - by rewrite (Hres p Hp) in Hs.
  - assert (w' = Waiting) as -> by congruence.
    eapply (claimed _ _ p k r w); cbn; try done; [by rewrite lookup_insert_eq|].
    destruct k; [by destruct Hk as (_ & b & ?)|]. destruct Hor as [-> | ->]; auto.
  - assert (w' = Waiting) as -> by congruence.
    eapply (over _ _ w); cbn; try done; [by rewrite lookup_insert_eq|].
    destruct Hor as [-> | ->]; done.
Qed.

(** An approval that can be claimed is open. *)
Lemma life_free q id p : life q id -> pending q !! id = Some p -> resolving p = false ->
  waiters q !! id = Some Waiting /\ recording q !! id = None /\ untouched q id
  /\ ID (approval p) = id /\ id ∉ voided q.
Proof.
  intros L Hp Hs. destruct L as [|p'|r c|p'|p' k r w|w]; try congruence.
  assert (p' = p) as -> by congruence. done.
Qed.

Lemma waiting_unrecorded q id : inv q -> waiters q !! id = Some Waiting -> recording q !! id = None.
Proof. intros I Hw. destruct (in_life _ I id); congruence. Qed.

Lemma own_free q id : inv q -> waiters q !! id = Some Waiting ->
  forall x y z, finishers q !! inl id <> Some (Claimed x y z).
Proof.
  intros I Hw x y z Hf. destruct (in_own _ I _ _ Hf) as [r [= -> -> ->]].
  destruct (in_life _ I id) as [? _ _ [_ U _]|p ? _ _ [_ U _]|r' c ? _ _ [_ U _]|p ? _ _ [_ U _]
    |p k r' w ? _ _ _ _ _ _ _ _ Hu _ _ Hk|w _ _ _ Hc]; try congruence.
  - by destruct (U (inl id) r); exists [].
  - assert (inl id = k) as <- by (apply (Hu _ r); by exists []).
    destruct Hk as (_ & b & ->). congruence.
  - by destruct (Hc (inl id) r); exists [].
Qed.

Lemma context_keeps q id at_ : inv q -> inv (ContextDone id at_ q).
Proof.
  intros I. unfold ContextDone. destruct (waiters q !! id) as [[]|] eqn:Hw; try done.
  destruct (finish_claim _ _ _ _ _) as [q' [st|r]] eqn:E; apply finish_claim_spec in E.
  - destruct E as [-> Hp]. apply waiter_moves; [done|done| |by right].
    intros p Hpe. apply Hp; [by apply waiting_unrecorded|done].
  - destruct E as (p & Hp & Hs & -> & Ha & Ht & _).
    destruct (life_free _ _ _ (in_life _ I id) Hp Hs) as (_ & Hr & U & Hi & Hv).
    apply (claim_keeps q id p (inl id) r [] (Some (Ending true))); eauto using own_free.
Qed.

Lemma timer_keeps q id at_ : inv q -> inv (TimerFires id at_ q).
Proof.
  intros I. unfold TimerFires. destruct (waiters q !! id) as [[]|] eqn:Hw; try done.
  destruct (finish_claim _ _ _ _ _) as [q' [st|r]] eqn:E; apply finish_claim_spec in E.
  - destruct E as [-> Hp]. apply waiter_moves; [done|done| |by left].
    intros p Hpe. apply Hp; [by apply waiting_unrecorded|done].
  - destruct E as (p & Hp & Hs & -> & Ha & Ht & _).
    destruct (life_free _ _ _ (in_life _ I id) Hp Hs) as (_ & Hr & U & Hi & Hv).
    apply (claim_keeps q id p (inl id) r [] (Some (Ending false))); eauto using own_free.
Qed.

Lemma other_claim q k id decision actor at_ q' r rest :
  inv q -> finish_claim id decision actor at_ q = (q', inr r) ->
  (forall x y z, finishers q !! inr k <> Some (Claimed x y z)) ->
  inv (q' <| finishers ::= <[inr k := Claimed id r rest]> |>).
Proof.
  intros I E Hk. apply finish_claim_spec in E as (p & Hp & Hs & -> & Ha & Ht & _).
  destruct (life_free _ _ _ (in_life _ I id) Hp Hs) as (Hw & Hr & U & Hi & Hv).
  exact (claim_keeps q id p (inr k) r rest None I Hr Hp U Hi Hs Hv Hw Ha Ht Hk eq_refl).
Qed.

Lemma resolve_keeps q k id decision actor at_ :
  inv q -> finishers q !! inr k = None -> inv (Resolve k id decision actor at_ q).1.
Proof.
  intros I Hk. unfold Resolve. destruct (negb _); [done|].
  destruct (finish_claim _ _ _ _ _) as [q' [st|r]] eqn:E.
  - by apply finish_claim_spec in E as [-> _].
  - eapply other_claim; [done|exact E|]. intros. by rewrite Hk.
Qed.

(** A finisher that claims nothing is put in the place of one that does not either. *)
Lemma finisher_moves q k f :
  inv q -> (forall x y z, finishers q !! inr k <> Some (Claimed x y z)) ->
  (forall x y z, f <> Some (Claimed x y z)) ->
  inv (q <| finishers ::= partial_alter (fun _ => f) (inr k) |>).
Proof.
  intros I Hk Hf. split; cbn; [|by eapply log_same; [apply I| |]|].
  - intros id. eapply life_frame; [|apply (in_life _ I id)]. split; try done. intros k' r.
    unfold claims. cbn.
    by setoid_rewrite (finisher_elsewhere (finishers q) (inr k) f id (Hf id) (Hk id)).
  - intros own g. rewrite lookup_partial_alter_ne by done. apply I.
Qed.

Lemma expire_next_keeps q k actor at_ : inv q -> inv (ExpireNext k actor at_ q).
Proof.
  intros I. unfold ExpireNext. destruct (finishers q !! inr k) as [[|[|id rest]]|] eqn:Hk; try done.
  - apply (finisher_moves q k None I); [|done]. intros. by rewrite Hk.
  - destruct (finish_claim _ _ _ _ _) as [q' [st|r]] eqn:E.
    + apply finish_claim_spec in E as [-> _].
      apply (finisher_moves q k (Some (Expiring rest)) I); [|done]. intros. by rewrite Hk.
    + eapply other_claim; [done|exact E|]. intros. by rewrite Hk.
Qed.

Lemma mark_keeps q runID actor :
  inv q -> actor <> "" ->
  inv (q <| recording ::= fmap (fun p =>
           if bool_decide (RunID (approval p) = runID) && bool_decide (invalidatedBy p = "")
           then p <| invalidatedBy := actor |> else p) |>
         <| voided ::= fun v =>
              v ∪ dom (base.filter (fun kv => RunID (approval kv.2) = runID) (recording q)) |>).
Proof.
  intros I Ha. set (f := fun p => if _ && _ then _ else p).
  assert (forall id, recording q !! id = None ->
    id ∈ voided q ∪ dom (base.filter (fun kv : string * pendingApproval => RunID (approval kv.2) = runID)
      (recording q)) <-> id ∈ voided q) as Hvoid.
  { intros id Hr. rewrite elem_of_union, elem_of_dom. split; [|by left]. intros [?|[p Hp]]; [done|].
    apply map_lookup_filter_Some in Hp as [Hp _]. congruence. }
  split; cbn; [|eapply log_same; [apply I|done|]|apply I].
  - intros id. destruct (recording q !! id) as [p|] eqn:Hr.
    + destruct (in_life _ I id) as [|p' Hw Hr' Hp [U1 U2 U3] Hi Hs Hv| | | |]; try congruence.
      assert (p' = p) as -> by congruence.
      eapply (recorded _ _ (f p)); cbn; [done|by rewrite lookup_fmap, Hr|done|done| | |];
        subst f; cbn beta.
      * by destruct (_ && _).
      * by destruct (_ && _).
      * rewrite elem_of_union, elem_of_dom. intros Hin.
        destruct (decide (invalidatedBy p = "")) as [Hn|Hn].
        -- destruct Hin as [Hin|[p' Hf]]; [by apply Hv in Hin|].
           apply map_lookup_filter_Some in Hf as [Hp' Hrun].
           assert (p' = p) as -> by congruence. cbn in Hrun.
           by rewrite !bool_decide_eq_true_2.
        -- by rewrite (bool_decide_eq_false_2 _ Hn), andb_false_r.
    + eapply life_frame; [|apply (in_life _ I id)]. split; try done; cbn; [by rewrite lookup_fmap, Hr|].
      by apply Hvoid.
  - intros res Hres Hin. cbn in Hin.
    destruct (recording q !! about res) as [p|] eqn:Hr; [|by apply Hvoid].
    destruct (in_life _ I (about res)) as [|p' Hw Hr' Hp [U1 U2 U3] Hi Hs Hv| | | |]; try congruence.
    by destruct (U3 res).
Qed.

Lemma expire_run_keeps q k runID actor :
  inv q -> finishers q !! inr k = None -> inv (ExpireRun k runID actor q).
Proof.
  intros I Hk. unfold ExpireRun. destruct (bool_decide (runID = "")); [done|].
  set (actor' := if bool_decide (actor = "") then approvalActorAbortKey else actor).
  assert (actor' <> "") as Ha by (subst actor'; by case_bool_decide).
  match goal with |- context [Expiring ?l] => set (ids := l) end.
  pose proof (finisher_moves q k (Some (Expiring ids)) I ltac:(intros; by rewrite Hk) ltac:(done)) as I'.
  exact (mark_keeps _ runID actor' I' Ha).
Qed.

Lemma hooked_keeps q k failed : inv q -> inv (Hooked k failed q).
Proof.
  intros I. unfold Hooked. destruct (finishers q !! k) as [[id r rest|ids]|] eqn:Hk; try done.
  assert (claims q id k r) as Hc by (by exists rest).
  destruct (in_life _ I id) as [_ _ _ [_ U _]|p _ _ _ [_ U _]|r' c _ _ _ [_ U _]|p _ _ _ [_ U _]
    |p k0 r0 w Hw Hr Hp Hs Hl Hi Hre Hv Hc0 Hu Ha Ht Hkw|w _ _ _ U];
    [by destruct (U k r)..| |by destruct (U k r)].
  pose proof (Hu k r Hc) as ->.
  assert (r0 = r) as -> by (destruct Hc as [? Hc], Hc0 as [? Hc0]; congruence).
  unfold finish_end. rewrite Hs. cbn [app]. set (result := mkResult r failed).
  assert (about result = id) as Hab by (unfold about; cbn; by rewrite Ha).
  set (q' := q <| resolved ::= (.++ [result]) |> <| pending ::= delete id |>
               <| channel ::= <[id := [result]]> |>).
  assert (forall f w', (forall x y z, f <> Some (Claimed x y z)) ->
    match w' with
    | Done (Answered res) => res = result
    | Waiting | Draining | Done Failed => True
    | _ => False
    end ->
    (forall own f', k0 = inl own -> f <> Some f') ->
    inv (q' <| finishers ::= partial_alter (fun _ => f) k0 |> <| waiters ::= <[id := w']> |>)) as Hinv.
  { intros f w' Hf Hw' Hown. split; cbn.
    - intros id'. destruct (decide (id' = id)) as [->|Hne].
      + apply (over _ _ w'); cbn; [by rewrite lookup_insert_eq|done|by rewrite lookup_delete_eq| | | |];
          unfold claims, sent, logged; cbn; rewrite ?lookup_insert_eq; cbn.
        * intros k r' [rest' Hf']. destruct (decide (k = k0)) as [->|Hne].
          -- rewrite lookup_partial_alter_eq in Hf'. by apply Hf in Hf'.
          -- rewrite lookup_partial_alter_ne in Hf' by done. apply Hne, (Hu k r').
             by exists rest'.
        * intros res ->%list_elem_of_singleton. split; [|done]. apply elem_of_app. right.
          by apply list_elem_of_singleton.
        * lia.
        * destruct w' as [| | | | |[res|]]; try done. subst res. split; [|done]. apply elem_of_app.
          right. by apply list_elem_of_singleton.
      + pose proof (in_life _ I id') as L. eapply life_frame; [|exact L].
        apply (same_elsewhere _ _ id id' Hne); cbn; try done.
        * intros x Hx. by rewrite lookup_insert_ne.
        * intros x Hx. by rewrite lookup_delete_ne.
        * intros x Hx. by rewrite lookup_insert_ne.
        * apply finisher_elsewhere; [done|]. intros r' rest'. rewrite Hk. congruence.
        * intros res Hres. rewrite elem_of_app, list_elem_of_singleton. split; [|by left].
          intros [?|Er]; [done|]. congruence.
    - eapply log_append; [apply I|done|done|by rewrite Hab|done|]. rewrite Hab. done.
    - intros own f'. destruct (decide (inl own = k0)) as [<-|Hne].
      + rewrite lookup_partial_alter_eq. intros E. by apply (Hown own f') in E.
      + rewrite lookup_partial_alter_ne by done. apply I. }
  destruct k0 as [own|k].
  - destruct Hkw as (-> & b & ->). change (waiters q') with (waiters q). rewrite Hw.
    apply (Hinv None (Done (if b then Failed else Answered result))); [done|by destruct b|done].
  - specialize (Hinv (match rest with [] => None | _ :: _ => Some (Expiring rest) end) w).
    assert (q' <| finishers ::= partial_alter (fun _ => match rest with [] => None | _ :: _ => Some (Expiring rest) end) (inr k) |>
      <| waiters ::= <[id := w]> |> = q' <| finishers ::= match rest with
        | [] => delete (inr k) | _ :: _ => <[inr k := Expiring rest]> end |>) as <-.
    { destruct rest; cbn; rewrite (insert_id (waiters q) id w Hw); reflexivity. }
    apply Hinv; [by destruct rest| |done]. destruct Hkw as [->|[->| ->]]; done.
Qed.

Lemma new_inv : inv NewApprovalQueue.
Proof.
  split; [|split; [constructor|by intros res ?%elem_of_nil|by intros res ?%elem_of_nil]|done].
  intros id. apply unborn; [done|done|done| |set_solver]. split; [done| |].
  - by intros k r [rest H].
  - by intros res [H%elem_of_nil _].
Qed.

Lemma step_inv q e : possible q e -> inv q -> inv (step timeout hash q e).
Proof.
  intros Hp I. destruct e; cbn [step];
    [by apply request_keeps|by apply requested_keeps|by apply voided_keeps|by apply receive_keeps
    |by apply context_keeps|by apply timer_keeps|by apply resolve_keeps|by apply expire_run_keeps
    |by apply expire_next_keeps|by apply hooked_keeps].
Qed.

Lemma queue_reachable_inv q es : reachable timeout hash q es -> inv q.
Proof. induction 1; [apply new_inv|by apply step_inv]. Qed.

(** ** Who approves *)

(** Whatever is or is being approved, an operator has approved, at that time. *)
Record by_operator (es : list event) (q : queue) : Prop := {
  bo_claims k id r rest : finishers q !! k = Some (Claimed id r rest) ->
    Decision r = DecisionApprove ->
    exists k' actor, EResolve k' id DecisionApprove actor (At r) ∈ es;
  bo_log res : res ∈ resolved q -> Decision (resolution res) = DecisionApprove ->
    exists k' actor, EResolve k' (about res) DecisionApprove actor (At (resolution res)) ∈ es;
}.

(** A step that adds no entry to the log, and no claim but one that is accounted for. *)
Lemma by_operator_step es es' q q' :
  by_operator es q -> es ⊆ es' -> resolved q' = resolved q ->
  (forall k id r rest, finishers q' !! k = Some (Claimed id r rest) ->
     (exists rest', finishers q !! k = Some (Claimed id r rest'))
     \/ (Decision r = DecisionApprove ->
         exists k' actor, EResolve k' id DecisionApprove actor (At r) ∈ es')) ->
  by_operator es' q'.
Proof.
  intros [H1 H2] Hes E Hf. split.
  - intros k id r rest Hk Hd. destruct (Hf _ _ _ _ Hk) as [[rest' Hk']|Hn]; [|by apply Hn].
    destruct (H1 _ _ _ _ Hk' Hd) as (k' & actor & ?). eauto.
  - intros res Hres Hd. rewrite E in Hres. destruct (H2 _ Hres Hd) as (k' & actor & ?). eauto.
Qed.

(** A claim made for any other reason than an operator's approval. *)
Lemma claim_by_operator es q id decision actor at_ q1 r k rest w :
  by_operator es q -> finish_claim id decision actor at_ q = (q1, inr r) ->
  (decision = DecisionApprove -> exists k' a, EResolve k' id DecisionApprove a at_ ∈ es) ->
  by_operator es (q1 <| waiters := w |> <| finishers ::= <[k := Claimed id r rest]> |>).
Proof.
  intros B E Hd. apply finish_claim_spec in E as (p & _ & _ & -> & _ & _ & Eat & Hor).
  eapply by_operator_step; [exact B|done|done|]. cbn. intros k0 id0 r0 rest0.
  rewrite lookup_insert. case_decide; [|by intros ?; left; eexists].
  intros [= <- <- <-]. right. intros Ha. rewrite Eat. apply Hd. destruct Hor as [<-|E']; [done|].
  by rewrite E' in Ha.
Qed.

Lemma step_by_operator es q e : inv q -> by_operator es q ->
  by_operator (es ++ [e]) (step timeout hash q e).
Proof.
  intros I B. assert (by_operator (es ++ [e]) q) as B'.
  { eapply by_operator_step; [exact B|set_solver|done|]. intros k id r rest Hk. left. eauto. }
  assert (forall q', finishers q' = finishers q -> resolved q' = resolved q ->
    by_operator (es ++ [e]) q') as Hsame.
  { intros q' E1 E2. eapply by_operator_step; [exact B'|done|done|]. rewrite E1. left. eauto. }
  destruct e as [id request now deadline|id failed cd now|id failed|id|id at_|id at_
    |k id decision actor at_|k runID actor|k actor at_|k failed]; cbn [step].
  - apply Hsame; unfold Request; destruct (negb _); try done; by destruct (rq_Payload request).
  - apply Hsame; unfold Requested; destruct (waiters q !! id) as [[]|]; try done;
      destruct (recording q !! id); try done; destruct failed; try done; by destruct (_ && _).
  - unfold Voided. destruct (waiters q !! id) as [[|r c| | | |]|] eqn:Hw; try by apply Hsame.
    split; cbn; [apply B'|]. intros res [Hres| ->%list_elem_of_singleton]%elem_of_app; [by apply B'|].
    cbn. intros Hd. exfalso. destruct (in_life _ I id) as [| |r' c' Hw' _ _ _ _ Hd'| |p k r' w Hw' _ _ _ _ _ _ _ _ _ _ _ Hk
      |w Hw' _ _ _ _ _ Hm]; try congruence.
    + assert (r' = r) as -> by congruence. by rewrite Hd' in Hd.
    + destruct k; naive_solver congruence.
    + destruct w; try done; congruence.
  - apply Hsame; unfold Receive; destruct (waiters q !! id) as [[]|]; try done; by destruct (sent q id).
  - unfold ContextDone. destruct (waiters q !! id) as [[]|]; try by apply Hsame.
    destruct (finish_claim _ _ _ _ _) as [q' [st|r]] eqn:E.
    + apply finish_claim_spec in E as [-> _]. by apply Hsame.
    + eapply (claim_by_operator _ q id _ _ _ _ _ _ _ _ B' E). done.
  - unfold TimerFires. destruct (waiters q !! id) as [[]|]; try by apply Hsame.
    destruct (finish_claim _ _ _ _ _) as [q' [st|r]] eqn:E.
    + apply finish_claim_spec in E as [-> _]. by apply Hsame.
    + eapply (claim_by_operator _ q id _ _ _ _ _ _ _ _ B' E). done.
  - unfold Resolve. destruct (negb _); [done|].
    destruct (finish_claim _ _ _ _ _) as [q' [st|r]] eqn:E.
    + apply finish_claim_spec in E as [-> _]. done.
    + eapply (claim_by_operator _ q id _ _ _ _ _ (inr k) [] (waiters q')) in E; [|exact B'|].
      * by destruct q'.
      * intros ->. exists k, actor. set_solver.
  - unfold ExpireRun. destruct (bool_decide _); [done|].
    eapply by_operator_step; [exact B'|done|done|]. cbn. intros k0 id0 r0 rest0.
    rewrite lookup_insert. case_decide; [done|]. left. eauto.
  - unfold ExpireNext. destruct (finishers q !! inr k) as [[|[|id rest]]|] eqn:Hk; try done.
    + eapply by_operator_step; [exact B'|done|done|]. cbn. intros k0 id0 r0 rest0.
      rewrite lookup_delete. case_decide; [done|]. left. eauto.
    + destruct (finish_claim _ _ _ _ _) as [q' [st|r]] eqn:E.
      * apply finish_claim_spec in E as [-> _]. eapply by_operator_step; [exact B'|done|done|]. cbn.
        intros k0 id0 r0 rest0. rewrite lookup_insert. case_decide; [done|]. left. eauto.
      * eapply (claim_by_operator _ q id _ _ _ _ _ (inr k) rest (waiters q')) in E; [|exact B'|done].
        by destruct q'.
  - unfold Hooked. destruct (finishers q !! k) as [[id r rest|ids]|] eqn:Hk; try done.
    assert (about (mkResult r failed) = id) as Hab.
    { destruct (in_life _ I id) as [_ _ _ [_ U _]|p _ _ _ [_ U _]|r' c _ _ _ [_ U _]|p _ _ _ [_ U _]
        |p k0 r0 w _ _ _ _ _ Hi _ _ Hc Hu Ha _ _|w _ _ _ U];
        [by destruct (U k r); exists rest..| |by destruct (U k r); exists rest].
      assert (k = k0) as -> by (apply (Hu k r); by exists rest).
      destruct Hc as [rest' Hc]. assert (r0 = r) as -> by congruence. unfold about. cbn. by rewrite Ha. }
    assert (forall q', resolved q' = resolved q ++ [mkResult r failed] ->
      (forall k0 id0 r0 rest0, finishers q' !! k0 = Some (Claimed id0 r0 rest0) ->
         finishers q !! k0 = Some (Claimed id0 r0 rest0)) -> by_operator (es ++ [EHooked k failed]) q') as Hlog.
    { intros q' E Hf. split; [intros k0 id0 r0 rest0 Hk0; apply Hf in Hk0; by eapply B'|].
      rewrite E. intros res [Hres| ->%list_elem_of_singleton]%elem_of_app; [by apply B'|].
      rewrite Hab. cbn. intros Hd. by eapply (bo_claims _ _ B'). }
    unfold finish_end. destruct k as [own|k]; apply Hlog; try done; cbn.
    + intros k0 id0 r0 rest0. rewrite lookup_delete. by case_decide.
    + destruct rest; intros k0 id0 r0 rest0; rewrite ?lookup_delete, ?lookup_insert; by case_decide.
Qed.

Lemma reachable_by_operator q es : reachable timeout hash q es -> by_operator es q.
Proof.
  induction 1 as [|q es e Hr IH Hp].
  - split; cbn; [done|]. by intros res ?%elem_of_nil.
  - apply step_by_operator; [by eapply queue_reachable_inv|done].
Qed.

(** C9: An approval is an operator's, once and in time.  In every interleaving of requests,
    decisions, deadlines, cancelled contexts, expired runs and failing hooks, the
    durability hook is called at most once for an approval; and a request that ends with an
    approval was approved by a call of [Resolve] before its deadline, is the one that the
    hook was given, and was not being recorded when its run was expired. *)
Theorem approval_is_an_operators (q : queue) (es : list event) (id : string)
  (res : approvalResult)
  (Hr : reachable timeout hash q es)
  (Hdone : waiters q !! id = Some (Done (Answered res)))
  (Happ : Decision (resolution res) = DecisionApprove) :
  NoDup (about <$> resolved q) /\ res ∈ resolved q /\ about res = id
  /\ At (resolution res) < ExpiresAt (r_Approval (resolution res))
  /\ (id ∉ voided q)
  /\ exists k actor, EResolve k id DecisionApprove actor (At (resolution res)) ∈ es.
Proof.
  pose proof (queue_reachable_inv _ _ Hr) as I. pose proof (reachable_by_operator _ _ Hr) as B.
  destruct (in_log _ I) as [Hnd Ht Hv].
  assert (res ∈ resolved q /\ about res = id) as [Hin Hab].
  { destruct (in_life _ I id) as [| | | |p k r w Hw _ _ _ _ _ _ _ _ _ _ _ Hk|w Hw _ _ _ _ _ Hm]; try congruence.
    - destruct k; naive_solver congruence.
    - assert (w = Done (Answered res)) as -> by congruence. done. }
  split; [done|]. split; [done|]. split; [done|]. split.
  - apply (Ht res Hin). by rewrite Happ.
  - split.
    + intros Hvo. rewrite <-Hab in Hvo. by rewrite (Hv res Hin Hvo) in Happ.
    + rewrite <-Hab. by apply (bo_log _ _ B).
Qed.

(** ** Requests end *)

(** Steps that wait for no decision. *)
Definition unattended (failed : bool) (id : string) (e : event) : Prop :=
  match e with
  | ERequested i f _ _ | EVoided i f => i = id /\ f = failed
  | EReceive i | ETimerFires i _ => i = id
  | EHooked _ f => f = failed
  | _ => False
  end.
Definition ends (q : queue) (id : string) : Prop := exists o, waiters q !! id = Some (Done o).

(** What happens within [n] steps that wait for nobody. *)
Definition soon_ends (failed : bool) (n : nat) (q : queue) (id : string) : Prop :=
  exists es, (length es <= n)%nat /\ Forall (unattended failed id) es
    /\ ends (foldl (step timeout hash) q es) id.

Lemma soon_weaken failed n n' q id : (n <= n')%nat ->
  soon_ends failed n q id -> soon_ends failed n' q id.
Proof. intros Hn (es & Hl & He). exists es. split; [lia|done]. Qed.

Lemma soon_step failed n q id e : unattended failed id e ->
  soon_ends failed n (step timeout hash q e) id -> soon_ends failed (S n) q id.
Proof. intros He (es & Hl & Hu & H). exists (e :: es). cbn. split; [lia|]. by split; [constructor|]. Qed.

Lemma soon_now failed q id : ends q id -> soon_ends failed 0 q id.
Proof. intros H. exists []. cbn. split; [lia|]. by split; [constructor|]. Qed.

(** A claimed approval: the hook returns, and the request receives the result or has it. *)
Lemma claimed_ends q id k r failed :
  inv q -> claims q id k r -> sent q id = [] /\ soon_ends failed 2 q id.
Proof.
  intros I Hc.
  destruct (in_life _ I id) as [_ _ _ [_ U _]|p _ _ _ [_ U _]|r' c _ _ _ [_ U _]|p _ _ _ [_ U _]
    |p k0 r0 w Hw Hr Hp Hs _ _ _ _ _ Hu _ _ Hk|w _ _ _ U];
    [by destruct (U k r)..| |by destruct (U k r)].
  split; [done|]. pose proof (Hu k r Hc) as ->. destruct Hc as [rest Hc].
  assert (Hooked k0 failed q = Hooked k0 failed q) as E by done.
  unfold Hooked in E at 2. rewrite Hc in E. unfold finish_end in E. rewrite Hs in E. cbn [app] in E.
  destruct k0 as [own|k].
  - destruct Hk as (-> & b & ->). exists [EHooked (inl id) failed]. cbn. split; [lia|].
    split; [by repeat constructor|]. rewrite E. eexists. cbn. by rewrite lookup_insert_eq.
  - assert (w = Done Failed \/ w = Waiting \/ w = Draining) as [->|Hww] by tauto.
    { exists []. cbn. split; [lia|]. split; [constructor|]. by eexists. }
    exists [EHooked (inr k) failed; EReceive id]. cbn. split; [lia|]. split; [by repeat constructor|].
    rewrite E. unfold Receive, sent. cbn. rewrite Hw, lookup_insert_eq. cbn.
    eexists. destruct Hww as [-> | ->]; cbn; by rewrite lookup_insert_eq.
Qed.

(** The timer of a request that nobody has decided claims it, and its own hook ends it. *)
Lemma timer_claims q id p now :
  waiters q !! id = Some Waiting -> recording q !! id = None -> pending q !! id = Some p ->
  resolving p = false ->
  exists r, finishers (TimerFires id now q) !! inl id = Some (Claimed id r []).
Proof.
  intros Hw Hr Hp Hs. unfold TimerFires, finish_claim. rewrite Hw, Hr, Hp, Hs.
  case_bool_decide; [|done]. eexists. cbn. by rewrite lookup_insert_eq.
Qed.

Lemma own_hook_ends q id r rest failed :
  finishers q !! inl id = Some (Claimed id r rest) -> ends (Hooked (inl id) failed q) id.
Proof. intros H. unfold Hooked. rewrite H. eexists. cbn. by rewrite lookup_insert_eq. Qed.

Lemma waiting_ends failed (now : Time.t) q id : inv q -> waiters q !! id = Some Waiting ->
  soon_ends failed 2 q id.
Proof.
  intros I Hw.
  destruct (in_life _ I id) as [|p|r c|p _ Hr Hp U Hi Hs Hv|p k r w _ _ _ _ _ _ _ _ Hc|w Hw' _ _ _ _ _ Hm];
    try congruence.
  - apply (soon_step _ _ _ _ (ETimerFires id now)); [done|].
    apply (soon_step _ _ _ _ (EHooked (inl id) failed)); [done|]. apply soon_now.
    destruct (timer_claims q id p now) as [r Hf]; try done. by apply (own_hook_ends _ id r []).
  - by apply (claimed_ends q id k r failed I Hc).
  - assert (w = Waiting) as -> by congruence. destruct (sent q id) as [|res rest] eqn:Es; [done|].
    apply (soon_weaken _ 1); [lia|]. apply (soon_step _ _ _ _ (EReceive id)); [done|].
    apply soon_now. cbn. unfold Receive. rewrite Hw, Es. eexists. cbn. by rewrite lookup_insert_eq.
Qed.

Lemma voided_ends failed q id r c : waiters q !! id = Some (Voiding r c) ->
  soon_ends failed 1 q id.
Proof.
  intros Hw. apply (soon_step _ _ _ _ (EVoided id failed)); [done|]. apply soon_now.
  cbn. unfold Voided. rewrite Hw. eexists. cbn. by rewrite lookup_insert_eq.
Qed.

Lemma recording_ends failed (now : Time.t) q id p : inv q -> waiters q !! id = Some Recording ->
  recording q !! id = Some p -> soon_ends failed 3 q id.
Proof.
  intros I Hw Hp. assert (unattended failed id (ERequested id failed false now)) as Hu by done.
  apply (soon_step _ _ _ _ _ Hu).
  assert (inv (step timeout hash q (ERequested id failed false now))) as I1 by by apply step_inv.
  revert I1. cbn. unfold Requested. rewrite Hw, Hp. destruct failed.
  - intros _. apply (soon_weaken _ 0); [lia|]. apply soon_now. eexists. cbn. by rewrite lookup_insert_eq.
  - destruct (bool_decide _ && _); intros I1.
    + apply (waiting_ends _ now); [done|]. cbn. by rewrite lookup_insert_eq.
    + eapply soon_weaken, voided_ends; [lia|]. cbn. by rewrite lookup_insert_eq.
Qed.

(** C19: A request always ends.  Whatever has happened, and however the hooks that are called
    from now on return, a request that has not ended does so within three steps that wait
    for nobody's decision: its hook or the hook of the call that has claimed it returns, it
    receives the result that is there, or its timer fires.  And the call that has claimed an
    approval finds the result channel empty, so it does not block on it. *)
Theorem request_always_ends (q : queue) (es : list event) (id : string) (w : waiter)
  (failed : bool) (now : Time.t)
  (Hr : reachable timeout hash q es) (Hw : waiters q !! id = Some w) :
  (exists es', (length es' <= 3)%nat /\ Forall (unattended failed id) es'
     /\ ends (foldl (step timeout hash) q es') id)
  /\ forall k r, claims q id k r -> sent q id = [].
Proof.
  pose proof (queue_reachable_inv _ _ Hr) as I.
  split; [|by intros k r Hc; eapply (claimed_ends q id k r failed)].
  change (soon_ends failed 3 q id).
  assert (waiters q !! id = Some Waiting -> soon_ends failed 3 q id) as Hwait
    by (intros Hq; apply (soon_weaken _ 2); [lia|by apply (waiting_ends _ now)]).
  destruct (in_life _ I id) as [|p Hw' Hrec Hp U Hi Hs Hv|r c Hw' _ _ _ _ _|p Hw'|p k r w' Hw' _ _ _ _ _ _ _ Hc
    |w' Hw' _ _ _ _ _ Hm]; try congruence.
  - by apply (recording_ends _ now _ _ p).
  - eapply soon_weaken, voided_ends; [lia|done].
  - by apply Hwait.
  - apply (soon_weaken _ 2); [lia|]. by apply (claimed_ends q id k r failed I Hc).
  - destruct w' as [| | | | |o]; try done; [by apply Hwait| |].
    + apply (soon_weaken _ 2); [lia|].
      destruct (sent q id) as [|res rest] eqn:Es; [done|].
      apply (soon_weaken _ 1); [lia|]. apply (soon_step _ _ _ _ (EReceive id)); [done|].
      apply soon_now. cbn. unfold Receive. rewrite Hw', Es. eexists. cbn. by rewrite lookup_insert_eq.
    + eapply soon_weaken, soon_now; [lia|]. by eexists.
Qed.

(** ** A run *)

#[export] Instance possible_dec q e : base.Decision (possible q e).
Proof. destruct e; cbn; solve_decision. Defined.
Fixpoint playable (q : queue) (es : list event) : bool :=
  match es with
  | [] => true
  | e :: rest => bool_decide (possible q e) && playable (step timeout hash q e) rest
  end.
Lemma reachable_play q es es' : reachable timeout hash q es -> playable q es' = true ->
  reachable timeout hash (foldl (step timeout hash) q es') (es ++ es').
Proof.
  revert q es. induction es' as [|e es' IH]; intros q es Hr Hp; [by rewrite app_nil_r|].
  cbn in Hp. apply andb_prop in Hp as [He Hp].
  change (e :: es') with ([e] ++ es'). rewrite (app_assoc es).
  apply IH; [|done]. apply reach_step; [done|by apply bool_decide_eq_true in He].
Qed.
End steps.

Module ApprovalDemo.
Definition deploys : ApprovalRequest :=
  {| rq_RunID := "run-1"; rq_ToolCallID := "call-1"; rq_Kind := "custom-tool";
     rq_Title := "Reconcile shop"; rq_Detail := "{}"; rq_Risk := "high"; rq_Payload := Some "{}";
     rq_RequiresFleetQuorum := true |}.
(** Approved one second before the deadline; the timer fires while the hook is called. *)
Definition asked : list event :=
  [ERequest "a" deploys 0 None; ERequested "a" false false 1].
Definition approved : list event :=
  asked ++ [EResolve 0 "a" DecisionApprove "ana" 9; ETimerFires "a" 10;
            EHooked (inr 0%nat) false; EReceive "a"].
Definition after (es : list event) : queue := foldl (step 10 id) NewApprovalQueue es.
Definition answer : approvalResult :=
  default (mkResult (mkResolution (mkQueueApproval "" "" "" "" "" "" "" "" false 0 0) "" "" 0) true)
    (head (resolved (after approved))).
End ApprovalDemo.
Import ApprovalDemo.

Example late_is_expired :
  Decision <$> (resolution <$> resolved (after (asked ++
    [EResolve 0 "a" DecisionApprove "ana" 10; EHooked (inr 0%nat) false]))) = [DecisionExpired].
Proof. vm_compute. reflexivity. Qed.

Lemma approval_is_an_operators_witness :
  Actor (resolution answer) = "ana"
  /\ exists k actor, EResolve k "a" DecisionApprove actor 9 ∈ approved.
Proof.
  split; [vm_compute; reflexivity|].
  destruct (approval_is_an_operators 10 id (after approved) approved "a" answer)
    as (_ & _ & _ & _ & _ & H).
  - apply (reachable_play 10 id NewApprovalQueue []); [constructor|vm_compute; reflexivity].
  - vm_compute. reflexivity.
  - vm_compute. reflexivity.
  - exact H.
Defined.

Lemma request_always_ends_witness :
  exists es, (length es <= 3)%nat /\ ends (foldl (step 10 id) (after asked) es) "a".
Proof.
  destruct (request_always_ends 10 id (after asked) asked "a" Waiting true 4)
    as [(es & Hl & _ & He) _].
  - apply (reachable_play 10 id NewApprovalQueue []); [constructor|vm_compute; reflexivity].
  - vm_compute. reflexivity.
  - exists es. split; [exact Hl|exact He].
Defined.

Close Scope Z_scope.
