(* ===== verification/OsController.v ===== *)
(** * CandaceOS: the operator's controller

    [services/candaceos/operator/controller.go] and lifecycle.go: the session of one agent
    harness, the run that it works on, and the approvals that wait to be dispatched.  The
    fields of [Controller] that its lock protects are a record, and each part of a call
    that holds the lock is a function on it; OsOperator.v puts the parts in order.  A
    context is a number, and [cancelled] the contexts that are done; a channel of a
    subscriber is its capacity of one signal. *)
From Stdlib Require Import Ascii.
From S2P Require Import Prelude.
From S2P Require Import GoStd.
From S2P Require Import GoText.
From S2P Require Import OsContract.

Open Scope Z_scope.

(** ** lifecycle.go *)

Inductive controllerPhase :=
| controllerStarting | controllerIdle | controllerRunning | controllerAborting
| controllerPersisting | controllerStopped.
#[export] Instance controllerPhase_eq_dec : EqDecision controllerPhase.
Proof. solve_decision. Defined.

Definition controllerPhase_String (phase : controllerPhase) : string :=
  match phase with
  | controllerStarting => "starting"
  | controllerIdle => "idle"
  | controllerRunning => "running"
  | controllerAborting => "aborting"
  | controllerPersisting => "persisting"
  | controllerStopped => "stopped"
  end.

Inductive runPhase :=
| runUnset | runRunning | runAborting | runSucceeded | runFailed | runAborted.
#[export] Instance runPhase_eq_dec : EqDecision runPhase.
Proof. solve_decision. Defined.

Definition runPhase_String (phase : runPhase) : string :=
  match phase with
  | runUnset => ""
  | runRunning => "running"
  | runAborting => "aborting"
  | runSucceeded => "succeeded"
  | runFailed => "failed"
  | runAborted => "aborted"
  end.

(** ** Data *)

(** A run, but for its timeline. *)
Record RunState := mkRunState {
  run_ID : string;
  run_SessionID : string;
  run_Title : string;
  run_Prompt : string;
  run_Status : string;
  run_StartedAt : Time.t;
  run_CanAbort : bool;
}.
#[export] Instance Rebuild_RunState : Rebuild RunState := fun r =>
  mkRunState (run_ID r) (run_SessionID r) (run_Title r) (run_Prompt r) (run_Status r)
    (run_StartedAt r) (run_CanAbort r).
Definition no_run : RunState := mkRunState "" "" "" "" "" 0 false.

Record RunStarted := mkRunStarted {
  rs_RunID : string;
  rs_SessionID : string;
  rs_Title : string;
  rs_Prompt : string;
  rs_At : Time.t;
}.

Definition HARNESS_DELIVERY_IMMEDIATE : Z := 1.
Definition HARNESS_DELIVERY_ENQUEUE : Z := 2.
Record HarnessPrompt := mkPrompt { hp_RunId : string; hp_Content : string; hp_Delivery : Z }.

Definition ValidateHarnessPrompt (m : HarnessPrompt) : bool :=
  within 1 128 (hp_RunId m) && Regexp.MatchString IdRe (hp_RunId m)
  && ((1 <=? String.length (hp_Content m))%nat
      && (Z.of_nat (String.length (hp_Content m)) <=? 12000))
  && ((hp_Delivery m =? 1) || (hp_Delivery m =? 2)).

Inductive eventKind :=
| eventKindSessionStart | eventKindSessionIdle | eventKindSessionError | eventKindUserMessage
| eventKindAssistantDelta | eventKindAssistantMessage | eventKindAssistantIdle
| eventKindToolExecutionStart | eventKindToolExecutionComplete | eventKindSessionShutdown
| eventKindSessionWarning | eventKindSessionCompactionComplete | eventKindSessionTruncation
| eventKindOther (name : string).
#[export] Instance eventKind_eq_dec : EqDecision eventKind.
Proof. solve_decision. Defined.

Definition endsRun (kind : eventKind) : bool :=
  match kind with
  | eventKindSessionError | eventKindSessionShutdown => true
  | _ => false
  end.

(** A value of the type [any]: nil, a string, or the JSON of another one. *)
Inductive any := Nil | Str (s : string) | Json (encoded : string).

Record eventRecord := mkEvent {
  e_ID : string;
  e_ParentID : string;
  e_Type : eventKind;
  e_Timestamp : Time.t;
  e_Data : gmap string any;
  e_Ephemeral : bool;
}.
(** What a map gives for a key that it does not have. *)
Definition zero_event : eventRecord := mkEvent "" "" (eventKindOther "") 0 ∅ false.

(** [ap_Approval], the approval it was stored for, is not kept by the code. *)
Record approvedReconcile := mkApproved {
  inputSHA256 : string;
  ap_Revision : ReconcileRevision;
  expiresAt : Time.t;
  ap_Approval : string;
}.

Record controller := mkController {
  sessionID : string;
  status : controllerPhase;
  c_runPhase : runPhase;
  startedAt : Time.t;
  currentRun : RunState;
  events : gmap string eventRecord;
  eventOrder : list string;
  streams : gmap string string;
  subscribers : gmap nat bool;
  c_approved : gmap string approvedReconcile;
  lifecycle : option nat;
  cancel : option nat;
  cancelled : gset nat;
}.
#[export] Instance Rebuild_controller : Rebuild controller := fun c =>
  mkController (sessionID c) (status c) (c_runPhase c) (startedAt c) (currentRun c) (events c)
    (eventOrder c) (streams c) (subscribers c) (c_approved c) (lifecycle c) (cancel c)
    (cancelled c).

Definition NewController : controller :=
  mkController "" controllerStarting runUnset 0 no_run ∅ [] ∅ ∅ ∅ None None ∅.

(** ** Strings *)

Definition summarizePrompt (prompt : string) : string :=
  let maximum := 72%nat in
  let first := TrimSpace (default "" (head (Split "010"%char prompt))) in
  if (String.length first <=? maximum)%nat then first
  else String.substring 0 (maximum - 1) first +:+ "…".

Definition text (value : any) : string :=
  match value with
  | Str result => result
  | _ => ""
  end.
Definition data (event : eventRecord) (key : string) : any := default Nil (e_Data event !! key).

Definition promptDelivery (value : any) : string :=
  if bool_decide (text value = "steering") || bool_decide (text value = "queued") then text value
  else "".

(** ** Subscribers *)

Definition notify (c : controller) : controller := c <| subscribers ::= fmap (fun _ => true) |>.
Definition Subscribe (k : nat) (c : controller) : controller :=
  c <| subscribers ::= <[k := false]> |>.
Definition Unsubscribe (k : nat) (c : controller) : controller :=
  c <| subscribers ::= delete k |>.
(** A subscriber takes its signal. *)
Definition Take (k : nat) (c : controller) : controller :=
  c <| subscribers ::= alter (fun _ => false) k |>.

(** ** The session *)

Definition cancel_lifecycle (c : controller) : controller :=
  match cancel c with
  | Some l => c <| cancelled ::= fun s => {[l]} ∪ s |>
  | None => c
  end.

(** [Start] up to the harness, which gives it a context, and from there on. *)
Definition Start_begin (l : nat) (c : controller) : controller :=
  (cancel_lifecycle c) <| lifecycle := Some l |> <| cancel := Some l |> <| c_approved := ∅ |>.
Definition Start_end (session : string) (now : Time.t) (c : controller) : controller :=
  c <| sessionID := session |> <| status := controllerIdle |> <| startedAt := now |>.

Definition Close (c : controller) : controller :=
  (cancel_lifecycle (c <| status := controllerStopped |> <| c_approved := ∅ |>)) <| cancel := None |>.

(** ** Runs *)

Definition setRunPhaseLocked (phase : runPhase) (c : controller) : controller :=
  c <| c_runPhase := phase |> <| currentRun ::= fun r => r <| run_Status := runPhase_String phase |> |>.
Definition setCanAbort (b : bool) (c : controller) : controller :=
  c <| currentRun ::= fun r => r <| run_CanAbort := b |> |>.

Inductive admission_error := ErrSessionConflict | ErrRunConflict | ErrRunNotActive | ErrBusy.

Definition requireTargets (expectedSessionID expectedRunID : string) (c : controller)
  : result admission_error unit :=
  guard! negb (bool_decide (expectedSessionID = ""))
         && bool_decide (expectedSessionID = sessionID c) else ErrSessionConflict in
  guard! negb (bool_decide (expectedRunID = ""))
         && bool_decide (expectedRunID = run_ID (currentRun c)) else ErrRunConflict in
  Ok tt.

Definition validateHarnessDelivery (delivery : Z) : bool :=
  (delivery =? HARNESS_DELIVERY_IMMEDIATE) || (delivery =? HARNESS_DELIVERY_ENQUEUE).

(** What [startRunLocked] and [SendToSession] read before they start a run, and what the
    latter and [Steer] read before they steer one. *)
Definition may_start (c : controller) : bool :=
  bool_decide (status c = controllerIdle) && negb (bool_decide (c_runPhase c = runRunning))
  && negb (bool_decide (c_runPhase c = runAborting)).
Definition may_steer (c : controller) : bool :=
  bool_decide (status c = controllerRunning) && bool_decide (c_runPhase c = runRunning).

Definition begin_run (runID session prompt : string) (now : Time.t) (c : controller) : controller :=
  c <| streams := ∅ |>
    <| currentRun := mkRunState runID session (summarizePrompt prompt) prompt
                       (runPhase_String runRunning) now true |>
    <| c_runPhase := runRunning |> <| status := controllerRunning |>.

(** A run that could not be recorded, or whose prompt could not be sent. *)
Definition finishRun (phase : runPhase) (c : controller) : controller :=
  (setCanAbort false (setRunPhaseLocked phase c)) <| status := controllerIdle |>.

(** [abortLocked] up to the harness. *)
Definition abort_begin (c : controller) : option controller :=
  if bool_decide (run_ID (currentRun c) = "") || negb (bool_decide (c_runPhase c = runRunning))
  then None
  else Some ((setCanAbort false (setRunPhaseLocked runAborting c)) <| status := controllerAborting |> <| c_approved := ∅ |>).

(** The run whose end the hook is then told. *)
Definition finishAbort (c : controller) : controller * option string :=
  if negb (bool_decide (c_runPhase c = runAborting)) then (c, None)
  else (setCanAbort false (setRunPhaseLocked runAborted c), Some (run_ID (currentRun c))).

Definition restoreRunningAfterAbortFailure (c : controller) : controller * option string :=
  if negb (bool_decide (c_runPhase c = runAborting)) then (c, None)
  else match status c with
       | controllerIdle =>
           ((setCanAbort false (setRunPhaseLocked runSucceeded c)) <| status := controllerPersisting |>,
            Some (run_ID (currentRun c)))
       | controllerStopped => (c, None)
       | _ => ((setCanAbort true (setRunPhaseLocked runRunning c)) <| status := controllerRunning |>,
               None)
       end.

(** The end of a persisted run, in [finishPublishedEvent] and after a failed abort. *)
Definition persisted (runID : string) (c : controller) : controller :=
  if bool_decide (run_ID (currentRun c) = runID) && bool_decide (status c = controllerPersisting)
  then c <| status := controllerIdle |> else c.

(** ** Events *)

Definition record_event (event : eventRecord) (c : controller) : controller :=
  if e_Ephemeral event && bool_decide (e_Type event = eventKindAssistantDelta) then
    let messageID := text (data event "messageId") in
    let messageID := if bool_decide (messageID = "") then "active" else messageID in
    c <| streams ::= fun s =>
           <[messageID := default "" (s !! messageID) +:+ text (data event "deltaContent")]> s |>
  else if negb (e_Ephemeral event) then
    let c := match events c !! e_ID event with
             | Some _ => c
             | None => c <| events ::= <[e_ID event := event]> |>
                         <| eventOrder ::= (.++ [e_ID event]) |>
             end in
    if bool_decide (e_Type event = eventKindAssistantMessage)
    then c <| streams ::= delete (text (data event "messageId")) |> else c
  else c.

(** The run that the event ends, and how. *)
Definition ingestLocked (event : eventRecord) (c : controller)
  : controller * option (string * runPhase) :=
  if bool_decide (status c = controllerStopped) then (c, None)
  else
    let c := record_event event c in
    if bool_decide (e_Type event = eventKindSessionIdle) then
      if negb (bool_decide (run_ID (currentRun c) = "")) && bool_decide (c_runPhase c = runRunning)
      then ((setCanAbort false (setRunPhaseLocked runSucceeded c)) <| status := controllerPersisting |>,
            Some (run_ID (currentRun c), runSucceeded))
      else (c <| status := controllerIdle |>, None)
    else if endsRun (e_Type event) && negb (bool_decide (run_ID (currentRun c) = ""))
            && (bool_decide (c_runPhase c = runRunning) || bool_decide (c_runPhase c = runAborting))
    then ((setCanAbort false (setRunPhaseLocked runFailed c)) <| status := controllerPersisting |>,
          Some (run_ID (currentRun c), runFailed))
    else (c, None).

(** The fence of an event of an embedded harness, in the same critical section. *)
Definition publishHarnessEvent (runID : string) (event : eventRecord) (c : controller)
  : option (controller * option (string * runPhase)) :=
  if negb (bool_decide (e_Type event = eventKindSessionStart))
     && (bool_decide (runID = "") || negb (bool_decide (runID = run_ID (currentRun c))))
  then None else Some (ingestLocked event c).

(** ** The timeline *)

Record TimelineEntry := mkEntry {
  t_ID : string;
  t_Kind : string;
  t_Role : string;
  t_Name : string;
  t_Text : string;
  t_Detail : string;
  t_Status : string;
  t_At : Time.t;
}.
#[export] Instance Rebuild_TimelineEntry : Rebuild TimelineEntry := fun t =>
  mkEntry (t_ID t) (t_Kind t) (t_Role t) (t_Name t) (t_Text t) (t_Detail t) (t_Status t) (t_At t).

(** [sort.SliceStable]: what stays equal keeps its order. *)
Fixpoint insert_stable {A} (key : A -> Time.t) (x : A) (l : list A) : list A :=
  match l with
  | [] => [x]
  | y :: l' => if Time.Before (key y) (key x) then y :: insert_stable key x l' else x :: l
  end.
Definition SliceStable {A} (key : A -> Time.t) (l : list A) : list A :=
  foldr (insert_stable key) [] l.

Definition notice (id : string) (event : eventRecord) (status message : string) : TimelineEntry :=
  mkEntry id "notice" "" "Claw" message "" status (e_Timestamp event).
Definition shutdownReason (event : eventRecord) : string :=
  let reason := text (data event "errorReason") in
  if bool_decide (reason = "") then "The agent runtime stopped."
  else "The agent runtime stopped: " +:+ reason.

Section timeline.
(** [json.Marshal] of a string and of the data of an event. *)
Context (quote : string -> string) (encode : gmap string any -> string).

Definition compactJSON (value : any) : string :=
  match value with
  | Nil => ""
  | Str s => quote s
  | Json encoded => encoded
  end.

Definition message (id role name text status : string) (at_ : Time.t) : TimelineEntry :=
  mkEntry id "message" role name text "" status at_.

(** One event: the entries so far, and the index of the entry of each tool call. *)
Definition timeline_step (acc : list TimelineEntry * gmap string nat) (id_event : string * eventRecord)
  : list TimelineEntry * gmap string nat :=
  let '(entries, tools) := acc in
  let '(id, event) := id_event in
  let at_ := e_Timestamp event in
  let add e := (entries ++ [e], tools) in
  match e_Type event with
  | eventKindUserMessage =>
      add (message id "user" "You" (text (data event "content"))
             (promptDelivery (data event "delivery")) at_)
  | eventKindAssistantMessage =>
      add (message id "assistant" "Claw" (text (data event "content")) "" at_)
  | eventKindToolExecutionStart =>
      (entries ++ [mkEntry id "tool" "" (text (data event "toolName")) ""
                     (compactJSON (data event "arguments")) "running" at_],
       <[text (data event "toolCallId") := length entries]> tools)
  | eventKindToolExecutionComplete =>
      match tools !! text (data event "toolCallId") with
      | Some index =>
          let status := if bool_decide (text (data event "error") = "") then "complete" else "failed" in
          (alter (fun e => e <| t_Status := status |> <| t_Detail := encode (e_Data event) |>)
             index entries, tools)
      | None => acc
      end
  | eventKindSessionError =>
      add (mkEntry id "error" "" "Claw" (text (data event "message")) "" "failed" at_)
  | eventKindSessionShutdown => add (notice id event "stopped" (shutdownReason event))
  | eventKindSessionWarning => add (notice id event "warning" (text (data event "message")))
  | eventKindSessionCompactionComplete =>
      add (notice id event "compacted"
             "Compacted the conversation to stay inside the model context window.")
  | eventKindSessionTruncation =>
      add (notice id event "truncated"
             "Dropped earlier conversation to stay inside the model context window.")
  | _ => acc
  end.

Definition ordered (c : controller) : list (string * eventRecord) :=
  SliceStable (fun p => e_Timestamp p.2)
    ((fun id => (id, default zero_event (events c !! id))) <$> eventOrder c).

(** The streams come last, in the order of the map. *)
Definition timelineLocked (now : Time.t) (c : controller) : list TimelineEntry :=
  (foldl timeline_step ([], ∅) (ordered c)).1
  ++ ((fun kv => message ("stream-" +:+ kv.1) "assistant" "Claw" kv.2 "streaming" now)
        <$> map_to_list (streams c)).

Definition Run (now : Time.t) (c : controller) : RunState * list TimelineEntry :=
  (currentRun c, timelineLocked now c).
End timeline.
Close Scope Z_scope.
