(* ===== verification/OsOperator.v ===== *)
(** * CandaceOS: the operator's controller and its approvals, running

    The calls of [services/candaceos/operator/controller.go] as steps of one system: the
    controller of OsController.v, the queue of OsApprovals.v, the goroutine that holds
    [sendMu], the harness's events on their way, and the harness's requests for permission.
    Between two steps a goroutine holds no lock, so every interleaving is a list of events.
    What the harness, the hooks, the reconciler and the file system answer are inputs. *)
From S2P Require Import Prelude.
From S2P Require Import GoStd.
From S2P Require Import OsContract.
From S2P Require Import OsApprovals.
From S2P Require Import OsController.

Open Scope Z_scope.

(** ** The reconcile tool *)

Record reconcileToolInput := mkToolInput {
  ti_App : string;
  ti_Project : string;
  ti_Path : string;
  ti_DesiredState : string;
  ti_PlacementMode : string;
  ti_NodeID : string;
  ti_Labels : gmap string string;
  ti_Replicas : Z;
  ti_Stateful : bool;
}.

Definition reconcileDesiredState (value : string) : result string Z :=
  if bool_decide (value = "running") then Ok DESIRED_STATE_RUNNING
  else if bool_decide (value = "stopped") then Ok DESIRED_STATE_STOPPED
  else Err "desired_state must be running or stopped".

Definition reconcilePlacementMode (value : string) : result string Z :=
  if bool_decide (value = "exact_node") then Ok PLACEMENT_MODE_EXACT_NODE
  else if bool_decide (value = "leader") then Ok PLACEMENT_MODE_LEADER
  else if bool_decide (value = "labels") then Ok PLACEMENT_MODE_LABELS
  else Err "placement_mode must be exact_node, leader, or labels".

Definition reconcileDesiredStateName (value : Z) : string :=
  if value =? DESIRED_STATE_RUNNING then "running"
  else if value =? DESIRED_STATE_STOPPED then "stopped" else "".

Definition reconcilePlacementModeName (value : Z) : string :=
  if value =? PLACEMENT_MODE_EXACT_NODE then "exact_node"
  else if value =? PLACEMENT_MODE_LEADER then "leader"
  else if value =? PLACEMENT_MODE_LABELS then "labels" else "".

(** The value that a harness gives: a message, or what its JSON decodes to. *)
Inductive reconcileArgs :=
| ArgsIntent (input : option ReconcileIntent)
| ArgsJson (input : option reconcileToolInput).

Definition reconcileIntent (value : reconcileArgs) : result string ReconcileIntent :=
  match value with
  | ArgsIntent input =>
      let! _ := ValidateReconcileIntent input in
      match input with Some i => Ok i | None => Err "" end
  | ArgsJson None => Err "json"
  | ArgsJson (Some input) =>
      let! desiredState := reconcileDesiredState (ti_DesiredState input) in
      let! placementMode := reconcilePlacementMode (ti_PlacementMode input) in
      let intent := {| i_App := ti_App input; i_Project := ti_Project input;
                       i_Path := ti_Path input; i_DesiredState := desiredState;
                       i_PlacementMode := placementMode; i_NodeId := ti_NodeID input;
                       i_Labels := ti_Labels input; i_Replicas := ti_Replicas input;
                       i_Stateful := ti_Stateful input |} in
      let! _ := ValidateReconcileIntent (Some intent) in
      Ok intent
  end.

Definition reconcileToolInputFromIntent (intent : ReconcileIntent) : reconcileToolInput :=
  {| ti_App := i_App intent; ti_Project := i_Project intent; ti_Path := i_Path intent;
     ti_DesiredState := reconcileDesiredStateName (i_DesiredState intent);
     ti_PlacementMode := reconcilePlacementModeName (i_PlacementMode intent);
     ti_NodeID := i_NodeId intent; ti_Labels := i_Labels intent;
     ti_Replicas := i_Replicas intent; ti_Stateful := i_Stateful intent |}.

(** ** Data *)

(** The fields that the policy reads; a payload is its JSON, if it has one. *)
Record harnessPermission := mkPermission {
  pm_kind : string;
  pm_toolCallID : string;
  pm_title : string;
  pm_risk : string;
  pm_payload : option string;
  pm_requiresFleetQuorum : bool;
  pm_requiresManagedApproval : bool;
  pm_requestSandboxBypass : bool;
  pm_path : string;
  pm_reconcileArgs : reconcileArgs;
}.

Inductive harnessPermissionDecision :=
| harnessPermissionApprove | harnessPermissionReject | harnessPermissionUnavailable.

(** The goroutine of a call of [handlePermissionContext]; [ctx] is none for a context that
    is never done. *)
Inductive permission :=
| Entered (request : harnessPermission) (life ctx : option nat)
| Preparing (request : harnessPermission) (life ctx : option nat) (input : ReconcileIntent)
| ToAsk (request : harnessPermission) (life ctx : option nat) (payload : option string)
    (prepared : option approvedReconcile)
| Asking (request : harnessPermission) (life ctx : option nat) (payload : option string)
    (prepared : option approvedReconcile) (runID : string)
| Awaiting (id : string) (life ctx : option nat) (prepared : option approvedReconcile)
| Answer (decision : harnessPermissionDecision).

(** The goroutine that holds [sendMu]. *)
Inductive turn :=
| ToStart (prompt : string) (delivery : Z)
| Choosing (fence : string * string) (prompt : string) (delivery : Z)
| Checking (fence : string * string) (prompt : string) (delivery : Z)
| Naming (prompt : string) (delivery : Z)
| Beginning (run : RunStarted) (delivery : Z)
| Reporting (run : RunStarted) (delivery : Z)
| ToSteer (fence : string * string) (prompt : string) (delivery : Z)
| Prompting (fresh : bool) (runID : string)
| Telling (runID : string) (phase : runPhase)
| ToAbort
| Stopping (runID : string)
| Expirations (runID : string) (k : nat)
| Restored (runID : string)
| Settling (runID : string).

(** An event that ended a run, before and after the hook is told. *)
Inductive publishing := Concluded (runID : string) (phase : runPhase) | Told (runID : string).

(** A goroutine in [reconcileApproved] that has taken an approval, with the phase that the
    controller had then, and not dispatched it yet. *)
Record taken_approval := mkTaken {
  tk_ToolCallID : string;
  tk_Input : ReconcileIntent;
  tk_Approved : approvedReconcile;
  tk_Status : controllerPhase;
}.

(** A call of [IReconciler.ReconcileApproved], with the approval that it was stored for and
    the phase that the controller had when that was taken. *)
Record dispatch := mkDispatch {
  dp_ToolCallID : string;
  dp_Input : ReconcileIntent;
  dp_Revision : ReconcileRevision;
  dp_Approval : string;
  dp_At : Time.t;
  dp_Status : controllerPhase;
}.

(** [asked] are the steps of the queue; the last fields but [taken] are the calls out of the
    controller: of [harness.Send], with the session and run that the caller had seen if it
    steered, of [OnRunStarted], of [OnRunStatus] and of the reconciler. *)
Record operator := mkOperator {
  ctl : controller;
  queue_ : OsApprovals.queue;
  asked : list OsApprovals.event;
  sender : option turn;
  publishers : gmap nat publishing;
  permissions : gmap nat permission;
  prompts : list (HarnessPrompt * option (string * string));
  started : list RunStarted;
  statuses : list (string * runPhase);
  taken : gmap nat taken_approval;
  dispatches : list dispatch;
}.
#[export] Instance Rebuild_operator : Rebuild operator := fun o =>
  mkOperator (ctl o) (queue_ o) (asked o) (sender o) (publishers o) (permissions o) (prompts o)
    (started o) (statuses o) (taken o) (dispatches o).

Definition NewOperator : operator :=
  mkOperator NewController NewApprovalQueue [] None ∅ ∅ [] [] [] ∅ [].

Section operator.
Context (timeout : Time.Duration) (hash : string -> string).
(** [inWorkspace], [reconcileInputDigest], and the JSON of an approval's payload. *)
Context (inWorkspace : string -> bool) (digest : ReconcileIntent -> option string)
  (payload_json : reconcileToolInput -> ReconcileRevision -> option string).

(** A request that is published and a hook that returns without an error signal the
    subscribers. *)
Definition signals (e : OsApprovals.event) (q : OsApprovals.queue) : bool :=
  match e with
  | ERequested id _ _ _ =>
      match waiters q !! id, waiters (OsApprovals.step timeout hash q e) !! id with
      | Some Recording, Some Waiting => true
      | _, _ => false
      end
  | EVoided _ failed | EHooked _ failed => negb failed
  | _ => false
  end.
Definition on_queue (e : OsApprovals.event) (o : operator) : operator :=
  o <| queue_ ::= fun q => OsApprovals.step timeout hash q e |> <| asked ::= (.++ [e]) |>
    <| ctl ::= fun c => if signals e (queue_ o) then notify c else c |>.

(** ** The goroutine that holds [sendMu] *)

Definition ESend_ (prompt : string) (delivery : Z) (o : operator) : operator :=
  match sender o with
  | Some _ => o
  | None =>
      let prompt := TrimSpace prompt in
      if bool_decide (prompt = "") || negb (validateHarnessDelivery delivery) then o
      else o <| sender := Some (ToStart prompt delivery) |>
  end.

(** [SendToSession] and [Steer]. *)
Definition EFenced_ (steer : bool) (session run prompt : string) (delivery : Z) (o : operator)
  : operator :=
  match sender o with
  | Some _ => o
  | None =>
      let prompt := TrimSpace prompt in
      if bool_decide (prompt = "") || negb (validateHarnessDelivery delivery)
         || negb (is_ok (requireTargets session run (ctl o))) then o
      else o <| sender := Some (if steer then Checking (session, run) prompt delivery
                                else Choosing (session, run) prompt delivery) |>
  end.

(** [Abort] and [AbortRun]. *)
Definition EAbort_ (fence : option (string * string)) (o : operator) : operator :=
  match sender o with
  | Some _ => o
  | None =>
      if match fence with
         | Some (session, run) => is_ok (requireTargets session run (ctl o))
         | None => true
         end
      then o <| sender := Some ToAbort |> else o
  end.

Definition send_prompt (p : HarnessPrompt) (fence : option (string * string)) (o : operator)
  : operator :=
  o <| prompts ::= (.++ [(p, fence)]) |>.

(** The next step of the goroutine: [failed] is what the hook or the harness answers, [id]
    and [now] an identifier and a time that are drawn, [k] the key of an [ExpireRun]. *)
Definition turn_next (failed : bool) (id : string) (now : Time.t) (k : nat) (t : turn)
  (o : operator) : operator :=
  let c := ctl o in
  let done_ := o <| sender := None |> in
  let to t := o <| sender := Some t |> in
  match t with
  | ToStart prompt delivery => if may_start c then to (Naming prompt delivery) else done_
  | Choosing fence prompt delivery =>
      if may_steer c then to (ToSteer fence prompt delivery)
      else if may_start c then to (ToStart prompt delivery) else done_
  | Checking fence prompt delivery =>
      if may_steer c then to (ToSteer fence prompt delivery) else done_
  | Naming prompt delivery =>
      to (Beginning (mkRunStarted id (sessionID c) (summarizePrompt prompt) prompt now) delivery)
  | Beginning run delivery =>
      (to (Reporting run delivery))
        <| ctl ::= begin_run (rs_RunID run) (rs_SessionID run) (rs_Prompt run) (rs_At run) |>
        <| started ::= (.++ [run]) |>
  | Reporting run delivery =>
      if failed then done_ <| ctl ::= fun c => notify (finishRun runFailed c) |>
      else
        let request := mkPrompt (rs_RunID run) (rs_Prompt run) delivery in
        if ValidateHarnessPrompt request
        then (send_prompt request None (to (Prompting true (rs_RunID run)))) <| ctl ::= notify |>
        else (to (Telling (run_ID (currentRun c)) runFailed))
               <| ctl ::= fun c => finishRun runFailed (notify c) |>
  | ToSteer fence prompt delivery =>
      let request := mkPrompt (run_ID (currentRun c)) prompt delivery in
      if ValidateHarnessPrompt request
      then send_prompt request (Some fence) (to (Prompting false (run_ID (currentRun c))))
      else done_
  | Prompting fresh runID =>
      if failed && fresh
      then (to (Telling (run_ID (currentRun c)) runFailed)) <| ctl ::= finishRun runFailed |>
      else done_
  | Telling runID phase =>
      (if bool_decide (runID = "") then done_
       else done_ <| statuses ::= (.++ [(runID, phase)]) |>) <| ctl ::= notify |>
  | ToAbort =>
      match abort_begin c with
      | None => done_
      | Some c' => (to (Stopping (run_ID (currentRun c)))) <| ctl := notify c' |>
      end
  | Stopping runID =>
      if failed then
        let '(c', completed) := restoreRunningAfterAbortFailure c in
        match completed with
        | Some runID' => (to (Restored runID')) <| ctl := c' |>
        | None => done_ <| ctl := notify c' |>
        end
      else if bool_decide (finishers (queue_ o) !! inr k = None)
      then on_queue (EExpireRun k runID approvalActorAbortKey) (to (Expirations runID k))
      else o
  | Expirations runID k =>
      match finishers (queue_ o) !! inr k with
      | Some _ => o
      | None =>
          let '(c', completed) := finishAbort c in
          match completed with
          | Some runID' => (to (Telling runID' runAborted)) <| ctl := c' |>
          | None => done_ <| ctl := c' |>
          end
      end
  | Restored runID => (to (Settling runID)) <| statuses ::= (.++ [(runID, runSucceeded)]) |>
  | Settling runID => done_ <| ctl ::= fun c => notify (persisted runID c) |>
  end.

(** ** The harness's events *)

(** An event of an embedded harness carries the run it belongs to; another one has none. *)
Definition EIngest_ (k : nat) (fence : option string) (event : eventRecord) (o : operator) : operator :=
  match publishers o !! k with
  | Some _ => o
  | None =>
      match match fence with
            | Some runID => publishHarnessEvent runID event (ctl o)
            | None => Some (ingestLocked event (ctl o))
            end with
      | None => o
      | Some (c, None) => o <| ctl := notify c |>
      | Some (c, Some (runID, phase)) =>
          o <| ctl := c |> <| publishers ::= <[k := Concluded runID phase]> |>
      end
  end.

(** [finishPublishedEvent]: the hook, then the lock. *)
Definition publisher_next (k : nat) (o : operator) : operator :=
  match publishers o !! k with
  | Some (Concluded runID phase) =>
      o <| statuses ::= (.++ [(runID, phase)]) |> <| publishers ::= <[k := Told runID]> |>
  | Some (Told runID) =>
      o <| ctl ::= fun c => notify (persisted runID c) |> <| publishers ::= delete k |>
  | None => o
  end.

(** ** The harness's requests *)

Definition safeToApprove (request : harnessPermission) : bool :=
  negb (pm_requiresManagedApproval request)
  && (bool_decide (pm_kind request = "read") || bool_decide (pm_kind request = "write"))
  && negb (pm_requestSandboxBypass request) && inWorkspace (pm_path request).

(** [handlePermissionContext] up to the lifecycle. *)
Definition EPermission_ (k : nat) (ctx : option nat) (request : harnessPermission) (o : operator)
  : operator :=
  match permissions o !! k with
  | Some _ => o
  | None =>
      let life := lifecycle (ctl o) in
      let ctx := match ctx with Some _ => ctx | None => life end in
      o <| permissions ::= <[k := if safeToApprove request then Answer harnessPermissionApprove
                                  else Entered request life ctx]> |>
  end.

Definition done_context (ctx : option nat) (c : controller) : bool :=
  match ctx with
  | Some l => bool_decide (l ∈ cancelled c)
  | None => false
  end.

(** Whether an approval may still be kept for dispatch. *)
Definition may_keep (life ctx : option nat) (c : controller) : bool :=
  match life with
  | None => false
  | Some l =>
      bool_decide (lifecycle c = Some l) && negb (bool_decide (l ∈ cancelled c))
      && negb (done_context ctx c)
      && negb (bool_decide (status c = controllerAborting))
      && negb (bool_decide (status c = controllerStopped))
  end.

(** The end of [handlePermissionContext], given what [Request] returns. *)
Definition decide_permission (life ctx : option nat) (prepared : option approvedReconcile)
  (answer : OsApprovals.outcome) (c : controller) : controller * harnessPermissionDecision :=
  match answer with
  | Failed => (c, harnessPermissionUnavailable)
  | Answered res =>
      let r := resolution res in
      if hookFailed res || bool_decide (Decision r = DecisionExpired)
      then (c, harnessPermissionUnavailable)
      else if negb (bool_decide (Decision r = DecisionApprove)) then (c, harnessPermissionReject)
      else match prepared with
           | None => (c, harnessPermissionApprove)
           | Some p =>
               if may_keep life ctx c
               then (c <| c_approved ::= <[ToolCallID (r_Approval r) :=
                            mkApproved (inputSHA256 p) (ap_Revision p) (ExpiresAt (r_Approval r))
                              (ID (r_Approval r))]> |>, harnessPermissionApprove)
               else (c, harnessPermissionUnavailable)
           end
  end.

(** The next step of the goroutine.  [revision] is what [Prepare] answers; [id], [now] and
    [deadline] are the approval's. *)
Definition permission_next (k : nat) (revision : option ReconcileRevision) (id : string)
  (now : Time.t) (deadline : option Time.t) (o : operator) : operator :=
  let c := ctl o in
  let to p := o <| permissions ::= <[k := p]> |> in
  let unavailable := to (Answer harnessPermissionUnavailable) in
  match permissions o !! k with
  | Some (Entered request life ctx) =>
      if negb (pm_requiresFleetQuorum request) then to (ToAsk request life ctx (pm_payload request) None)
      else if bool_decide (pm_toolCallID request = "") then unavailable
      else match reconcileIntent (pm_reconcileArgs request) with
           | Err _ => unavailable <| ctl ::= fun c => c <| c_approved ::= delete (pm_toolCallID request) |> |>
           | Ok input =>
               (to (Preparing request life ctx input))
                 <| ctl ::= fun c => c <| c_approved ::= delete (pm_toolCallID request) |> |>
           end
  | Some (Preparing request life ctx input) =>
      match revision, ValidateReconcileRevision revision, digest input with
      | Some ownedRevision, Ok _, Some inputSHA256 =>
          to (ToAsk request life ctx
                (payload_json (reconcileToolInputFromIntent input) ownedRevision)
                (Some (mkApproved inputSHA256 ownedRevision 0 "")))
      | _, _, _ => unavailable
      end
  | Some (ToAsk request life ctx payload prepared) =>
      to (Asking request life ctx payload prepared (run_ID (currentRun c)))
  | Some (Asking request life ctx payload prepared runID) =>
      match waiters (queue_ o) !! id with
      | Some _ => o
      | None =>
          let o' := on_queue (ERequest id
            {| rq_RunID := runID; rq_ToolCallID := pm_toolCallID request;
               rq_Kind := pm_kind request; rq_Title := pm_title request;
               rq_Detail := default "" payload; rq_Risk := pm_risk request;
               rq_Payload := payload;
               rq_RequiresFleetQuorum := pm_requiresFleetQuorum request |} now deadline) o in
          match waiters (queue_ o') !! id with
          | None => unavailable
          | Some _ => o' <| permissions ::= <[k := Awaiting id life ctx prepared]> |>
          end
      end
  | Some (Awaiting id life ctx prepared) =>
      match waiters (queue_ o) !! id with
      | Some (Done answer) =>
          let '(c', decision) := decide_permission life ctx prepared answer c in
          (to (Answer decision)) <| ctl := c' |>
      | _ => o
      end
  | _ => o
  end.

(** [reconcileApproved] up to the end of its critical section: the approval is taken. *)
Definition reconcileApproved_take (n : nat) (input : option ReconcileIntent) (toolCallID : string)
  (o : operator) : operator :=
  match taken o !! n with
  | Some _ => o
  | None =>
      if bool_decide (toolCallID = "") then o
      else
        match input, ValidateReconcileIntent input with
        | Some ownedInput, Ok _ =>
            let o' := o <| ctl ::= fun c => c <| c_approved ::= delete toolCallID |> |> in
            match c_approved (ctl o) !! toolCallID with
            | None => o'
            | Some approved =>
                o' <| taken ::= <[n := mkTaken toolCallID ownedInput approved (status (ctl o))]> |>
            end
        | _, _ => o
        end
  end.

(** The rest, without the lock: the deadline, the digest, and the call. *)
Definition reconcileApproved_dispatch (n : nat) (now : Time.t) (o : operator) : operator :=
  match taken o !! n with
  | None => o
  | Some t =>
      let approved := tk_Approved t in
      let o' := o <| taken ::= delete n |> in
      if Time.After now (expiresAt approved) then o'
      else match digest (tk_Input t) with
           | Some inputSHA256' =>
               if bool_decide (inputSHA256' = inputSHA256 approved)
               then o' <| dispatches ::= (.++ [mkDispatch (tk_ToolCallID t) (tk_Input t)
                            (ap_Revision approved) (ap_Approval approved) now (tk_Status t)]) |>
               else o'
           | None => o'
           end
  end.

(** ** Runs *)

Inductive event :=
| EStart (l : nat)
| EStarted (session : string) (now : Time.t)
| EClose
| ECancel (l : nat)
| ESend (prompt : string) (delivery : Z)
| EFenced (steer : bool) (session run prompt : string) (delivery : Z)
| EAbort (fence : option (string * string))
| ETurn (failed : bool) (id : string) (now : Time.t) (k : nat)
| EIngest (k : nat) (fence : option string) (event : eventRecord)
| EPublisher (k : nat)
| EPermission (k : nat) (ctx : option nat) (request : harnessPermission)
| EAsk (k : nat) (revision : option ReconcileRevision) (id : string) (now : Time.t)
    (deadline : option Time.t)
| EQueue (e : OsApprovals.event)
| ETake (n : nat) (input : option ReconcileIntent) (toolCallID : string)
| EDispatch (n : nat) (now : Time.t).

(** Requests and the expiration of a run are the controller's own. *)
Definition outside (e : OsApprovals.event) : bool :=
  match e with
  | ERequest _ _ _ _ | EExpireRun _ _ _ => false
  | _ => true
  end.

(** Contexts and runs are new, and a decision has a goroutine of its own. *)
Definition possible (o : operator) (e : event) : Prop :=
  match e with
  | EStart l => (l ∉ cancelled (ctl o)) /\ lifecycle (ctl o) <> Some l
  | ETurn _ id _ _ => id <> "" /\ (id ∉ rs_RunID <$> started o) /\ id <> run_ID (currentRun (ctl o))
  | EQueue e => outside e = true /\ OsApprovals.possible (queue_ o) e
  | _ => True
  end.

Definition step (o : operator) (e : event) : operator :=
  match e with
  | EStart l => o <| ctl ::= Start_begin l |>
  | EStarted session now => o <| ctl ::= fun c => notify (Start_end session now c) |>
  | EClose => o <| ctl ::= Close |>
  | ECancel l => o <| ctl ::= fun c => c <| cancelled ::= fun s => {[l]} ∪ s |> |>
  | ESend prompt delivery => ESend_ prompt delivery o
  | EFenced steer session run prompt delivery => EFenced_ steer session run prompt delivery o
  | EAbort fence => EAbort_ fence o
  | ETurn failed id now k =>
      match sender o with
      | Some t => turn_next failed id now k t o
      | None => o
      end
  | EIngest k fence event => EIngest_ k fence event o
  | EPublisher k => publisher_next k o
  | EPermission k ctx request => EPermission_ k ctx request o
  | EAsk k revision id now deadline => permission_next k revision id now deadline o
  | EQueue e => on_queue e o
  | ETake n input toolCallID => reconcileApproved_take n input toolCallID o
  | EDispatch n now => reconcileApproved_dispatch n now o
  end.

Inductive reachable : operator -> Prop :=
| reach_new : reachable NewOperator
| reach_step o e : reachable o -> possible o e -> reachable (step o e).
End operator.

(** ** The phase of a run *)

Definition ended (phase : runPhase) : Prop :=
  phase <> runRunning /\ phase <> runAborting.
Definition run_view (c : controller) : string * runPhase := (run_ID (currentRun c), c_runPhase c).

(** The life of the runs of a session, one after the other. *)
Inductive moves : string * runPhase -> string * runPhase -> Prop :=
| stays v : moves v v
| starts id id' phase : ended phase -> id' <> id -> moves (id, phase) (id', runRunning)
| succeeds id : moves (id, runRunning) (id, runSucceeded)
| fails id phase : phase = runRunning \/ phase = runAborting -> moves (id, phase) (id, runFailed)
| stops id : moves (id, runRunning) (id, runAborting)
| aborts id : moves (id, runAborting) (id, runAborted)
| resumes id : moves (id, runAborting) (id, runRunning)
| idles id : moves (id, runAborting) (id, runSucceeded).

(** What is shown of the run, and what is kept for dispatch. *)
Record coherent (c : controller) : Prop := {
  co_status : run_Status (currentRun c) = runPhase_String (c_runPhase c);
  co_abort : run_CanAbort (currentRun c) = bool_decide (c_runPhase c = runRunning);
  co_kept : status c = controllerAborting \/ status c = controllerStopped -> c_approved c = ∅;
}.

(** What the goroutine that holds [sendMu] knows. *)
Definition held (o : operator) : Prop :=
  match sender o with
  | None | Some (ToStart _ _) | Some ToAbort => True
  | Some (Choosing fence _ _) | Some (Checking fence _ _) | Some (ToSteer fence _ _) =>
      run_ID (currentRun (ctl o)) = fence.2
  | Some (Naming _ _) => ended (c_runPhase (ctl o))
  | Some (Beginning run _) =>
      ended (c_runPhase (ctl o)) /\ rs_RunID run <> "" /\ (rs_RunID run ∉ rs_RunID <$> started o)
      /\ rs_RunID run <> run_ID (currentRun (ctl o))
  | Some (Reporting run _) => run_ID (currentRun (ctl o)) = rs_RunID run
  | Some (Prompting _ r) | Some (Telling r _) | Some (Stopping r) | Some (Expirations r _)
  | Some (Restored r) | Some (Settling r) => run_ID (currentRun (ctl o)) = r
  end.

(** The goroutine is in a call that may still fail the run that it has started. *)
Definition starting (o : operator) : Prop :=
  match sender o with
  | Some (Reporting _ _) | Some (Prompting true _) => True
  | _ => False
  end.
Close Scope Z_scope.
