(* ===== verification/OsTurns.v ===== *)
(** * CandaceOS: the runs of a session, one after the other

    What holds of the controller of OsController.v in every run of OsOperator.v: the run it
    shows, the phases a run goes through, whom a message reaches, and what an aborted turn
    can still do. *)
From S2P Require Import Prelude.
From S2P Require Import GoStd.
From S2P Require Import GoText.
From S2P Require Import OsContract.
From S2P Require Import OsApprovals.
From S2P Require Import OsController.
From S2P Require Import OsOperator.

Open Scope Z_scope.

(** ** The parts of a call *)

(** A part that leaves the run alone. *)
Record same_run (c c' : controller) : Prop := {
  sr_run : currentRun c' = currentRun c;
  sr_phase : c_runPhase c' = c_runPhase c;
}.

Lemma same_view c c' : same_run c c' -> run_view c' = run_view c.
Proof. intros [E1 E2]. unfold run_view. by rewrite E1, E2. Qed.

Lemma same_notify c : same_run c (notify c).
Proof. by split. Qed.
Lemma same_cancel c : same_run c (cancel_lifecycle c).
Proof. unfold cancel_lifecycle. by destruct (cancel c). Qed.
Lemma same_persisted r c : same_run c (persisted r c).
Proof. unfold persisted. by destruct (_ && _). Qed.
Lemma same_record e c : same_run c (record_event e c) /\ status (record_event e c) = status c
  /\ c_approved (record_event e c) = c_approved c.
Proof.
  unfold record_event. destruct (e_Ephemeral e && _); [done|].
  destruct (negb _); [|done]. by destruct (events c !! e_ID e); destruct (bool_decide _).
Qed.

(** A part that changes neither the run nor what is kept, and stops nothing. *)
Lemma coherent_same c c' : same_run c c' -> (c_approved c = ∅ -> c_approved c' = ∅) ->
  (status c' = controllerAborting \/ status c' = controllerStopped ->
     c_approved c' = ∅ \/ status c = status c') ->
  coherent c -> coherent c'.
Proof.
  intros [E1 E2] Ha Hs [H1 H2 H3]. split; rewrite ?E1, ?E2; [done..|].
  intros Hst. destruct (Hs Hst) as [?|Es]; [done|]. rewrite <-Es in Hst. by apply Ha, H3.
Qed.

Lemma coherent_phase c phase b s :
  coherent c -> b = bool_decide (phase = runRunning) ->
  (s = controllerAborting \/ s = controllerStopped -> c_approved c = ∅) ->
  coherent ((setCanAbort b (setRunPhaseLocked phase c)) <| status := s |>).
Proof. intros [H1 H2 H3] -> Hs. by split. Qed.

Lemma ingest_run e c :
  (same_run c (ingestLocked e c).1 /\ (ingestLocked e c).2 = None)
  \/ exists phase, c_runPhase (ingestLocked e c).1 = phase
     /\ run_ID (currentRun (ingestLocked e c).1) = run_ID (currentRun c)
     /\ ((c_runPhase c = runRunning /\ phase = runSucceeded)
         \/ ((c_runPhase c = runRunning \/ c_runPhase c = runAborting) /\ phase = runFailed)).
Proof.
  unfold ingestLocked. destruct (bool_decide _); [by left|].
  destruct (same_record e c) as ([E1 E2] & _). cbv zeta.
  set (c1 := record_event e c) in *. destruct (bool_decide _).
  - destruct (negb _ && _) eqn:Hg; [|by left; split].
    apply andb_prop in Hg as [_ Hg%bool_decide_eq_true]. right. exists runSucceeded.
    cbn. rewrite E1, <-E2. auto.
  - destruct (endsRun _ && _ && _) eqn:Hg; [|by left; split].
    apply andb_prop in Hg as [_ Hg%orb_prop]. right. exists runFailed. cbn. rewrite E1, <-E2.
    split_and!; [done..|]. right. split; [|done].
    destruct Hg as [Hg%bool_decide_eq_true|Hg%bool_decide_eq_true]; auto.
Qed.

Lemma ingest_coherent e c : coherent c -> coherent (ingestLocked e c).1.
Proof.
  intros Hc. unfold ingestLocked. destruct (bool_decide _) eqn:Hst; [done|].
  apply bool_decide_eq_false in Hst. destruct (same_record e c) as (Hr & Es & Ea). cbv zeta.
  assert (coherent (record_event e c)) as Hc1.
  { eapply coherent_same; [exact Hr|by rewrite Ea|by right|done]. }
  set (c1 := record_event e c) in *. destruct (bool_decide _).
  - destruct (negb _ && _); cbn; [apply coherent_phase; [done|done|by intros []]|].
    by eapply (coherent_same c1); [| |intros []|].
  - destruct (endsRun _ && _ && _); cbn; [|done]. apply coherent_phase; [done|done|by intros []].
Qed.

Lemma restore_run c c' r : restoreRunningAfterAbortFailure c = (c', r) ->
  run_ID (currentRun c') = run_ID (currentRun c) /\ moves (run_view c) (run_view c')
  /\ (forall id, r = Some id -> id = run_ID (currentRun c)) /\ (coherent c -> coherent c').
Proof.
  unfold restoreRunningAfterAbortFailure, run_view. destruct (bool_decide _) eqn:Hp; cbn.
  - apply bool_decide_eq_true in Hp.
    assert (coherent c -> forall b ph s, b = bool_decide (ph = runRunning) ->
      s = controllerPersisting \/ s = controllerRunning ->
      coherent ((setCanAbort b (setRunPhaseLocked ph c)) <| status := s |>)) as Hc.
    { intros Hc b ph s Hb Hs. apply coherent_phase; [done|done|]. by destruct Hs as [-> | ->]; intros []. }
    destruct (status c); intros [= <- <-]; cbn; rewrite ?Hp; split_and!; try done;
      try (by constructor); try (by intros id [= <-]); intros Hcc; by apply Hc; auto.
  - intros [= <- <-]. split_and!; [done|constructor|done|done].
Qed.

Lemma finishAbort_run c c' r : finishAbort c = (c', r) ->
  run_ID (currentRun c') = run_ID (currentRun c) /\ moves (run_view c) (run_view c')
  /\ (forall id, r = Some id -> id = run_ID (currentRun c)) /\ (coherent c -> coherent c').
Proof.
  unfold finishAbort, run_view. destruct (bool_decide _) eqn:Hp; cbn; intros [= <- <-].
  - apply bool_decide_eq_true in Hp. split_and!; [done| |by intros id [= <-]|].
    + cbn. rewrite Hp. constructor.
    + intros [H1 H2 H3]. split; done.
  - split_and!; [done|constructor|done|done].
Qed.

(** ** The steps *)

(** A message goes to a run that was started, and a steering one to the run its sender saw. *)
Definition addressed (o : operator) : Prop :=
  forall p fence, (p, fence) ∈ prompts o ->
    hp_RunId p ∈ (rs_RunID <$> started o)
    /\ forall session run, fence = Some (session, run) -> hp_RunId p = run.

Record turns (o : operator) : Prop := {
  tu_held : held o;
  tu_coherent : coherent (ctl o);
  tu_run : run_ID (currentRun (ctl o)) = "" \/ run_ID (currentRun (ctl o)) ∈ (rs_RunID <$> started o);
  tu_once : NoDup (rs_RunID <$> started o);
  tu_addressed : addressed o;
}.

(** How a step changes the run. *)
Definition advances (o o' : operator) : Prop :=
  moves (run_view (ctl o)) (run_view (ctl o'))
  \/ (starting o /\ run_view (ctl o') = (run_ID (currentRun (ctl o)), runFailed)).

(** A step of any other goroutine. *)
Lemma turns_aside o o' :
  turns o -> sender o' = sender o -> started o' = started o -> prompts o' = prompts o ->
  run_ID (currentRun (ctl o')) = run_ID (currentRun (ctl o)) ->
  (ended (c_runPhase (ctl o)) -> ended (c_runPhase (ctl o'))) ->
  coherent (ctl o') -> turns o'.
Proof.
  intros [Hh _ Hr Hn Ha] Es Et Ep Er Hd Hc. split; [|done|by rewrite Er, Et|by rewrite Et|].
  - unfold held in *. rewrite Es, Er, ?Et. destruct (sender o) as [[]|]; naive_solver.
  - unfold addressed. by rewrite Ep, Et.
Qed.

Lemma turns_same o o' :
  turns o -> sender o' = sender o -> started o' = started o -> prompts o' = prompts o ->
  same_run (ctl o) (ctl o') ->
  (c_approved (ctl o) = ∅ -> c_approved (ctl o') = ∅) ->
  (status (ctl o') = controllerAborting \/ status (ctl o') = controllerStopped ->
     c_approved (ctl o') = ∅ \/ status (ctl o) = status (ctl o')) ->
  turns o' /\ advances o o'.
Proof.
  intros Ht Es Et Ep Hs Ha Hst. split; [|left; rewrite (same_view _ _ Hs); constructor].
  destruct Hs as [E1 E2].
  eapply turns_aside; [exact Ht|done..|by rewrite E1|by rewrite E2|].
  by eapply coherent_same; [| | |apply Ht].
Qed.

(** A step of the goroutine that lets go of [sendMu] or goes on to [t]. *)
Lemma turns_next o o' :
  turns o -> started o' = started o -> prompts o' = prompts o ->
  run_ID (currentRun (ctl o')) = run_ID (currentRun (ctl o)) -> coherent (ctl o') -> held o' ->
  turns o'.
Proof.
  intros [Hh _ Hr Hn Ha] Et Ep Er Hc Hh'.
  split; [done|done|by rewrite Er, Et|by rewrite Et|unfold addressed; by rewrite Ep, Et].
Qed.

Lemma addressed_snoc o o' p fence :
  addressed o -> started o' = started o -> prompts o' = prompts o ++ [(p, fence)] ->
  hp_RunId p ∈ (rs_RunID <$> started o) ->
  (forall session run, fence = Some (session, run) -> hp_RunId p = run) -> addressed o'.
Proof.
  intros Ha Et Ep Hp Hf p' f' Hin. rewrite Ep in Hin. rewrite Et.
  apply elem_of_app in Hin as [Hin|Hin]; [by apply Ha|].
  apply list_elem_of_singleton in Hin as [= -> ->]. by split.
Qed.

Lemma finishRun_coherent c : coherent c -> coherent (finishRun runFailed c).
Proof. intros Hc. apply coherent_phase; [done|done|by intros []]. Qed.
Lemma notify_coherent c : coherent c -> coherent (notify c).
Proof. intros []. by split. Qed.

Lemma sent_run m : ValidateHarnessPrompt m = true -> hp_RunId m <> "".
Proof. unfold ValidateHarnessPrompt. intros H E. by rewrite E in H. Qed.

Lemma turns_next_same o o' :
  turns o -> started o' = started o -> prompts o' = prompts o ->
  same_run (ctl o) (ctl o') -> coherent (ctl o') -> held o' -> turns o' /\ advances o o'.
Proof.
  intros Ht Et Ep Hs Hc Hh. split; [|left; rewrite (same_view _ _ Hs); constructor].
  eapply turns_next; try done. by destruct Hs as [-> _].
Qed.

Lemma may_start_ended c : may_start c = true -> ended (c_runPhase c).
Proof.
  unfold may_start. intros [[_ H1]%andb_prop H2]%andb_prop.
  apply negb_true_iff, bool_decide_eq_false in H1, H2. done.
Qed.

Lemma persisted_coherent r c : coherent c -> coherent (persisted r c).
Proof.
  intros Hc. unfold persisted. destruct (_ && _); [|done].
  by apply (coherent_same c); [| |intros []|].
Qed.

Section turns.
Context (timeout : Time.Duration) (hash : string -> string).

Lemma turn_turns failed id now k t o :
  turns o -> sender o = Some t -> id <> "" -> (id ∉ rs_RunID <$> started o) ->
  id <> run_ID (currentRun (ctl o)) ->
  turns (turn_next timeout hash failed id now k t o)
  /\ advances o (turn_next timeout hash failed id now k t o).
Proof.
  intros Ht Es Hid Hfresh Hcur. pose proof Ht as [Hh Hc Hr Hn Ha].
  unfold held in Hh. rewrite Es in Hh.
  assert (forall t', held (o <| sender := t' |>) -> turns (o <| sender := t' |>)
    /\ advances o (o <| sender := t' |>)) as Hgo by (intros t' Hh'; by apply turns_next_same).
  destruct t as [prompt delivery|fence prompt delivery|fence prompt delivery|prompt delivery
    |run delivery|run delivery|fence prompt delivery|fresh runID|runID phase| |runID|runID k'|runID|runID];
    cbn [turn_next].
  - destruct (may_start _) eqn:Hm; apply Hgo; [by apply may_start_ended|done].
  - destruct (may_steer _); [by apply Hgo|]. by destruct (may_start _); apply Hgo.
  - by destruct (may_steer _); apply Hgo.
  - apply Hgo. done.
  - destruct Hh as (He & Hne & Hnin & Hneq). split; [|left; by constructor].
    split; cbn; [done| | | |].
    + split; [done..|]. by intros [].
    + right. rewrite fmap_app. apply elem_of_app. right. by left.
    + rewrite fmap_app. apply NoDup_app. split_and!; [done| |apply NoDup_singleton].
      intros x Hx ->%list_elem_of_singleton. done.
    + intros p f Hp. cbn. rewrite fmap_app. destruct (Ha p f Hp) as [H1 H2]. split; [|done].
      apply elem_of_app. by left.
  - destruct failed.
    { split; [|right; split; [unfold starting; by rewrite Es|done]].
      eapply turns_next; try done. by apply notify_coherent, finishRun_coherent. }
    destruct (ValidateHarnessPrompt _) eqn:Hv.
    + split; [|left; constructor]. split; try done; [by apply notify_coherent|].
      eapply addressed_snoc; [exact Ha|done|done| |done]. cbn.
      destruct Hr as [E|Hr]; [|by rewrite <-Hh].
      apply sent_run in Hv. cbn in Hv. congruence.
    + split; [|right; split; [unfold starting; by rewrite Es|done]].
      eapply turns_next; try done. by apply finishRun_coherent, notify_coherent.
  - destruct (ValidateHarnessPrompt _) eqn:Hv; [|by apply Hgo].
    split; [|left; constructor]. split; try done.
    eapply addressed_snoc; [exact Ha|done|done| |].
    + cbn. destruct Hr as [E|Hr]; [|done]. apply sent_run in Hv. done.
    + intros session run [= ->]. done.
  - destruct failed, fresh; cbn [andb]; try by apply Hgo.
    split; [|right; split; [unfold starting; by rewrite Es|done]].
    eapply turns_next; try done. by apply finishRun_coherent.
  - destruct (bool_decide _); (eapply turns_next_same; [done..|by apply notify_coherent|done]).
  - destruct (abort_begin _) as [c'|] eqn:Hb; [|by apply Hgo]. unfold abort_begin in Hb.
    destruct (_ || _) eqn:Hg; [done|]. injection Hb as <-.
    apply orb_false_iff in Hg as [_ Hg%negb_false_iff%bool_decide_eq_true].
    split; [|left; unfold run_view; cbn; rewrite Hg; constructor].
    eapply turns_next; try done.
  - destruct failed.
    + destruct (restoreRunningAfterAbortFailure _) as [c' [id'|]] eqn:Hre;
        apply restore_run in Hre as (Hid' & Hmv & Hsome & Hco); (split; [|by left]);
        (eapply turns_next; try done); [by apply Hco| |by apply notify_coherent, Hco].
      unfold held. cbn. rewrite Hid'. symmetry. by apply Hsome.
    + destruct (bool_decide _); [|split; [done|left; constructor]].
      apply turns_next_same; try done.
  - destruct (finishers _ !! _); [split; [done|left; constructor]|].
    destruct (finishAbort _) as [c' [id'|]] eqn:Hre;
      apply finishAbort_run in Hre as (Hid' & Hmv & Hsome & Hco); (split; [|by left]);
      (eapply turns_next; try done); [by apply Hco| |by apply Hco].
    unfold held. cbn. rewrite Hid'. symmetry. by apply Hsome.
  - by apply turns_next_same.
  - apply turns_next_same; try done; [|by apply notify_coherent, persisted_coherent].
    cbn. destruct (same_persisted runID (ctl o)). by split.
Qed.

Context (inWorkspace : string -> bool) (digest : ReconcileIntent -> option string)
  (payload_json : reconcileToolInput -> ReconcileRevision -> option string).
Abbreviation step := (step timeout hash inWorkspace digest payload_json).

Lemma cancel_kept c : c_approved (cancel_lifecycle c) = c_approved c
  /\ status (cancel_lifecycle c) = status c.
Proof. unfold cancel_lifecycle. by destruct (cancel c). Qed.

Lemma ingest_turns k fence e o : turns o ->
  turns (EIngest_ k fence e o) /\ advances o (EIngest_ k fence e o).
Proof.
  intros Ht. assert (turns o /\ advances o o) as Hid by (split; [done|left; constructor]).
  unfold EIngest_. destruct (publishers o !! k); [done|].
  assert (match fence with
          | Some runID => publishHarnessEvent runID e (ctl o)
          | None => Some (ingestLocked e (ctl o))
          end = None
    \/ match fence with
       | Some runID => publishHarnessEvent runID e (ctl o)
       | None => Some (ingestLocked e (ctl o))
       end = Some (ingestLocked e (ctl o))) as [-> | ->]; [|done|].
  { destruct fence; [|by right]. unfold publishHarnessEvent. destruct (_ && _); [by left|by right]. }
  pose proof (ingest_run e (ctl o)) as Hrun. pose proof (ingest_coherent e _ (tu_coherent _ Ht)) as Hco.
  destruct (ingestLocked e (ctl o)) as [c' r]. cbn [fst snd] in *.
  destruct Hrun as [[Hs ->]|(phase & Hp & Eid & Hor)].
  - split; [|left; cbn; rewrite <-(same_view _ _ Hs); constructor].
    eapply turns_aside; [exact Ht|done..|by destruct Hs as [E _]; cbn; rewrite E
      |by destruct Hs as [_ E]; cbn; rewrite E|by apply notify_coherent].
  - assert (forall o', ctl o' = c' \/ ctl o' = notify c' -> sender o' = sender o ->
      started o' = started o -> prompts o' = prompts o -> turns o' /\ advances o o') as Hgo.
    { intros o' Ec E1 E2 E3.
      assert (run_view (ctl o') = (run_ID (currentRun (ctl o)), phase) /\ coherent (ctl o')) as [Ev Hc'].
      { unfold run_view. destruct Ec as [-> | ->]; (split; [by rewrite <-Hp, <-Eid|]); [done|by apply notify_coherent]. }
      split.
      - injection Ev as Ev1 Ev2. eapply turns_aside; [exact Ht|done..| |done]. rewrite Ev2.
        intros [H1 H2]. destruct Hor as [[? _]|[[?|?] _]]; done.
      - left. rewrite Ev. unfold run_view. destruct Hor as [[-> ->]|[Hor ->]]; by constructor. }
    destruct r as [[id ph]|]; apply Hgo; auto.
Qed.

Lemma permission_turns k revision id now deadline o : turns o ->
  turns (permission_next timeout hash digest payload_json k revision id now deadline o)
  /\ advances o (permission_next timeout hash digest payload_json k revision id now deadline o).
Proof.
  intros Ht. assert (turns o /\ advances o o) as Hid by (split; [done|left; constructor]).
  assert (forall p, turns (o <| permissions := p |>) /\ advances o (o <| permissions := p |>)) as Hp
    by (intros p; by apply turns_same; [..|right]).
  unfold permission_next. destruct (permissions o !! k) as [[request life ctx|request life ctx input
    |request life ctx payload prepared|request life ctx payload prepared runID|id' life ctx prepared|d]|]; try done.
  - destruct (negb _); [by apply Hp|]. destruct (bool_decide _); [by apply Hp|].
    destruct (reconcileIntent _); (apply turns_same; try done; cbn; [intros ->; apply delete_empty|by right]).
  - destruct revision; [|by apply Hp]. destruct (ValidateReconcileRevision _); [|by apply Hp].
    by destruct (digest input); apply Hp.
  - by apply Hp.
  - destruct (waiters _ !! _); [done|]. destruct (waiters _ !! _); [|by apply Hp].
    by apply turns_same; [..|right].
  - destruct (waiters _ !! _) as [[]|]; try done.
    destruct (decide_permission _ _ _ _ _) as [c' d] eqn:Hd.
    assert (c' = ctl o \/ exists x, c' = (ctl o) <| c_approved := x |> /\ may_keep life ctx (ctl o) = true) as Hc'.
    { unfold decide_permission in Hd. destruct o0 as [res|]; [|left; congruence].
      destruct (_ || _); [left; congruence|]. destruct (negb _); [left; congruence|].
      destruct prepared; [|left; congruence]. destruct (may_keep _ _ _) eqn:Hk; [|left; congruence].
      right. injection Hd as <- _. by eexists. }
    destruct Hc' as [-> |(x & -> & Hk)]; [by apply turns_same; [..|right]|].
    split; [|left; constructor]. eapply turns_aside; [exact Ht|done..|].
    destruct (tu_coherent _ Ht) as [H1 H2 H3]. split; [done..|]. cbn. intros Hst. exfalso.
    unfold may_keep in Hk. destruct life; [|done].
    apply andb_prop in Hk as [[_ Hk1]%andb_prop Hk2].
    apply negb_true_iff, bool_decide_eq_false in Hk1, Hk2. by destruct Hst.
Qed.

Lemma step_turns o e : turns o -> possible o e -> turns (step o e) /\ advances o (step o e).
Proof.
  intros Ht Hp. assert (turns o /\ advances o o) as Hid by (split; [done|left; constructor]).
  destruct e as [l|session now| |l|prompt delivery|steer session run prompt delivery|fence
    |failed id now k|k fence e|k|k ctx request|k revision id now deadline|e|n input tool|n now]; cbn [step].
  - apply turns_same; try done; [|by left]. by destruct (same_cancel (ctl o)).
  - by apply turns_same; [| | | | | |intros []].
  - apply turns_same; try done; cbn; unfold Close, cancel_lifecycle; cbn;
      destruct (cancel (ctl o)); by auto.
  - by apply turns_same; [| | | | | |right].
  - unfold ESend_. destruct (sender o) eqn:Es; [done|]. destruct (_ || _); [done|].
    apply turns_next_same; try done. apply Ht.
  - unfold EFenced_. destruct (sender o) eqn:Es; [done|]. destruct (_ || _) eqn:Hg; [done|].
    apply orb_false_iff in Hg as [_ Hg%negb_false_iff]. apply turns_next_same; try done; [apply Ht|].
    unfold requireTargets in Hg. destruct (negb _ && _); [|done].
    destruct (negb _ && _) eqn:Hr in Hg; [|done].
    apply andb_prop in Hr as [_ Hr%bool_decide_eq_true]. by destruct steer.
  - unfold EAbort_. destruct (sender o) eqn:Es; [done|]. destruct fence as [[session run]|];
      [destruct (is_ok _); [|done]|]; (apply turns_next_same; try done; apply Ht).
  - destruct (sender o) as [t|] eqn:Es; [|done]. destruct Hp as (? & ? & ?). by apply turn_turns.
  - by apply ingest_turns.
  - unfold publisher_next. destruct (publishers o !! k) as [[]|]; [by apply turns_same; [..|right]| |done].
    split; [|left; cbn; rewrite <-(same_view _ _ (same_persisted runID (ctl o))); constructor].
    destruct (same_persisted runID (ctl o)) as [E1 E2].
    eapply turns_aside; [exact Ht|done..|by cbn; rewrite E1|by cbn; rewrite E2|].
    by apply notify_coherent, persisted_coherent, Ht.
  - unfold EPermission_. destruct (permissions o !! k); [done|]. by apply turns_same; [..|right].
  - by apply permission_turns.
  - unfold on_queue. apply turns_same; try done; cbn; destruct (signals _ _ _ _); by auto.
  - unfold reconcileApproved_take. destruct (taken o !! n); [done|].
    destruct (bool_decide _); [done|]. destruct input as [i|]; [|done].
    destruct (ValidateReconcileIntent _); [|done].
    destruct (c_approved (ctl o) !! tool);
      (apply turns_same; try done; cbn; [intros ->; apply delete_empty|by right]).
  - unfold reconcileApproved_dispatch. destruct (taken o !! n) as [t|]; [|done].
    destruct (Time.After _ _); [|destruct (digest (tk_Input t)); [destruct (bool_decide _)|]];
      (apply turns_same; try done; by right).
Qed.

Lemma reachable_turns o : reachable timeout hash inWorkspace digest payload_json o -> turns o.
Proof.
  induction 1 as [|o e Hr IH Hp]; [|by apply step_turns].
  split; [done| |by left|constructor|by intros p f ?%elem_of_nil].
  split; [done..|]. done.
Qed.

(** ** Theorems *)

(** C13: Runs follow one another.  In every interleaving, a step takes the run that the
    controller shows along the life of a run, and a new run begins only when the one before
    has ended; the exception is a call that has started a run and fails, which marks it
    failed whatever it has become.  The status that is shown is the phase, a run can be
    aborted exactly while it runs, run identifiers are not used twice, and every message
    that the harness is given belongs to a run that was started, a steering one to the run
    that its sender saw. *)
Theorem runs_one_after_another (o : operator) (e : event)
  (Hr : reachable timeout hash inWorkspace digest payload_json o) (Hp : possible o e) :
  let o' := step o e in
  (moves (run_view (ctl o)) (run_view (ctl o'))
   \/ (starting o /\ run_view (ctl o') = (run_ID (currentRun (ctl o)), runFailed)))
  /\ run_Status (currentRun (ctl o')) = runPhase_String (c_runPhase (ctl o'))
  /\ run_CanAbort (currentRun (ctl o')) = bool_decide (c_runPhase (ctl o') = runRunning)
  /\ NoDup (rs_RunID <$> started o') /\ addressed o'.
Proof.
  destruct (step_turns o e (reachable_turns o Hr) Hp) as [[_ [H1 H2 _] _ H3 H4] Ha].
  by split_and!.
Qed.

(** The harness may say that it is idle, or its session begins. *)
Definition idles (e : event) : bool :=
  match e with
  | EStarted _ _ => true
  | EIngest _ _ event => bool_decide (e_Type event = eventKindSessionIdle)
  | _ => false
  end.

(** A turn that was aborted and may still be heard of. *)
Definition quiet (o : operator) : Prop :=
  c_runPhase (ctl o) = runAborted
  /\ (status (ctl o) = controllerAborting \/ status (ctl o) = controllerStopped)
  /\ c_approved (ctl o) = ∅
  /\ match sender o with
     | None | Some (ToStart _ _) | Some (Choosing _ _ _) | Some (Checking _ _ _) | Some ToAbort
     | Some (Telling _ _) => True
     | _ => False
     end.

(** The call that a taken approval may still lead to. *)
Definition call_of (t : taken_approval) (d : dispatch) : Prop :=
  dp_ToolCallID d = tk_ToolCallID t /\ dp_Input d = tk_Input t
  /\ dp_Revision d = ap_Revision (tk_Approved t) /\ dp_Approval d = ap_Approval (tk_Approved t)
  /\ dp_Status d = tk_Status t.

(** Of the approvals that are taken, some are used up, and nothing else is dispatched. *)
Definition drains (o o' : operator) : Prop :=
  taken o' ⊆ taken o
  /\ exists ds, dispatches o' = dispatches o ++ ds
     /\ Forall (fun d => exists n t, taken o !! n = Some t /\ taken o' !! n = None /\ call_of t d) ds.

Lemma drains_same o o' : taken o' = taken o -> dispatches o' = dispatches o -> drains o o'.
Proof. intros E1 E2. unfold drains. rewrite E1, E2. split; [done|]. exists []. by rewrite app_nil_r. Qed.

Lemma drains_trans o o1 o2 : drains o o1 -> drains o1 o2 -> drains o o2.
Proof.
  intros (S1 & ds1 & E1 & H1) (S2 & ds2 & E2 & H2). split; [by etrans|].
  exists (ds1 ++ ds2). rewrite E2, E1, <-app_assoc. split; [done|]. apply Forall_app_2.
  - eapply Forall_impl; [exact H1|]. intros d (n & t & Ht & Hn & Hd). exists n, t.
    split; [done|]. split; [|done]. destruct (taken o2 !! n) eqn:E; [|done].
    by rewrite (lookup_weaken _ _ _ _ E S2) in Hn.
  - eapply Forall_impl; [exact H2|]. intros d (n & t & Ht & Hn & Hd). exists n, t.
    split; [by eapply lookup_weaken|done].
Qed.

Definition same_work (o o' : operator) : Prop :=
  run_view (ctl o') = run_view (ctl o) /\ started o' = started o /\ prompts o' = prompts o
  /\ drains o o'.

Lemma quiet_turn_same o o' : quiet o -> same_run (ctl o) (ctl o') -> c_approved (ctl o') = ∅ ->
  (status (ctl o') = status (ctl o) \/ status (ctl o') = controllerStopped) ->
  sender o' = sender o \/ sender o' = None -> started o' = started o -> prompts o' = prompts o ->
  taken o' = taken o -> dispatches o' = dispatches o -> quiet o' /\ same_work o o'.
Proof.
  intros (Hp & Hs & Ha & Hsend) Hrun Ha' Hst Hse E1 E2 E3 E4.
  split; [|split; [by apply same_view|]; do 2 (split; [done|]); by apply drains_same]. split; [by destruct Hrun as [_ ->]|].
  split; [destruct Hst as [-> | ->]; auto|]. split; [done|]. by destruct Hse as [-> | ->].
Qed.

Lemma quiet_busy o : quiet o -> may_start (ctl o) = false /\ may_steer (ctl o) = false
  /\ (forall life ctx, may_keep life ctx (ctl o) = false) /\ abort_begin (ctl o) = None
  /\ forall r, persisted r (ctl o) = ctl o.
Proof.
  intros (Hp & Hs & _). unfold may_start, may_steer, may_keep, abort_begin, persisted. rewrite Hp.
  split_and!.
  - by destruct Hs as [-> | ->].
  - by destruct Hs as [-> | ->].
  - intros [l|] ctx; [|done]. destruct Hs as [-> | ->]; cbn; by rewrite ?andb_false_r.
  - cbn. by rewrite orb_true_r.
  - intros r. destruct Hs as [-> | ->]; cbn; by rewrite andb_false_r.
Qed.

Lemma quiet_ingest e c : c_runPhase c = runAborted -> e_Type e <> eventKindSessionIdle ->
  (ingestLocked e c).2 = None /\ status (ingestLocked e c).1 = status c
  /\ c_approved (ingestLocked e c).1 = c_approved c.
Proof.
  intros Hp He. unfold ingestLocked. destruct (bool_decide _); [done|].
  destruct (same_record e c) as ([_ Ep] & Es & Ea). cbv zeta.
  rewrite (bool_decide_eq_false_2 _ He), Ep, Hp. cbn. rewrite andb_false_r. done.
Qed.

(** Permissions, and the two parts of a dispatch, leave an aborted turn alone. *)
Lemma quiet_permission k revision id now deadline o : quiet o ->
  let o' := permission_next timeout hash digest payload_json k revision id now deadline o in
  quiet o' /\ same_work o o'.
Proof.
  intros Hq. pose proof (quiet_busy o Hq) as (_ & _ & Hmk & _ & _).
  pose proof Hq as (_ & _ & Ha & _). cbn zeta.
  assert (quiet o /\ same_work o o) as Hid by by apply quiet_turn_same; auto.
  assert (forall p, quiet (o <| permissions := p |>) /\ same_work o (o <| permissions := p |>)) as Hperm
    by (intros p; by apply quiet_turn_same; auto).
  assert (forall k, delete k (c_approved (ctl o)) = ∅) as Hdel by (intros ?; by rewrite Ha, delete_empty).
  unfold permission_next. destruct (permissions o !! k) as [[request life ctx|request life ctx input
    |request life ctx payload prepared|request life ctx payload prepared runID|id' life ctx prepared|d]|]; try done.
  - destruct (negb _); [done|]. destruct (bool_decide _); [done|].
    destruct (reconcileIntent _); (apply quiet_turn_same; auto; cbn; done).
  - destruct revision; [|done]. destruct (ValidateReconcileRevision _); [|done]. by destruct (digest input).
  - destruct (waiters _ !! _); [done|]. destruct (waiters _ !! _); [|done]. by apply quiet_turn_same; auto.
  - destruct (waiters _ !! _) as [[]|]; try done. unfold decide_permission.
    destruct o0 as [res|]; [|by apply quiet_turn_same; auto].
    destruct (_ || _); [by apply quiet_turn_same; auto|]. destruct (negb _); [by apply quiet_turn_same; auto|].
    destruct prepared; rewrite ?Hmk; by apply quiet_turn_same; auto.
Qed.

Lemma quiet_approval_take n input tool o : quiet o ->
  quiet (reconcileApproved_take n input tool o)
  /\ same_work o (reconcileApproved_take n input tool o).
Proof.
  intros Hq. pose proof Hq as (_ & _ & Ha & _).
  assert (quiet o /\ same_work o o) as Hid by by apply quiet_turn_same; auto.
  unfold reconcileApproved_take. destruct (taken o !! n); [done|].
  destruct (bool_decide _); [done|]. destruct input as [i|]; [|done].
  destruct (ValidateReconcileIntent _); [|done]. rewrite Ha, lookup_empty.
  by apply quiet_turn_same; auto; cbn; rewrite Ha, delete_empty.
Qed.

Lemma quiet_approval_dispatch n now o : quiet o ->
  quiet (reconcileApproved_dispatch digest n now o)
  /\ same_work o (reconcileApproved_dispatch digest n now o).
Proof.
  intros Hq. pose proof Hq as (_ & _ & Ha & _).
  assert (quiet o /\ same_work o o) as Hid by by apply quiet_turn_same; auto.
  unfold reconcileApproved_dispatch. destruct (taken o !! n) as [t|] eqn:Et; [|done].
  assert (forall o', ctl o' = ctl o -> sender o' = sender o -> started o' = started o ->
    prompts o' = prompts o -> drains o o' -> quiet o' /\ same_work o o') as Hd.
  { intros o' E1 E2 E3 E4 E5. unfold quiet, same_work. by rewrite E1, E2, E3, E4. }
  pose proof (delete_subseteq (taken o) n) as Hsub.
  assert (drains o (o <| taken ::= delete n |>)) as Hn
    by (split; [done|]; exists []; by rewrite app_nil_r).
  destruct (Time.After _ _); [by apply Hd|]. destruct (digest (tk_Input t)); [|by apply Hd].
  destruct (bool_decide _); [|by apply Hd]. apply Hd; try done. split; [done|].
  eexists. split; [reflexivity|]. apply Forall_singleton. exists n, t.
  split; [done|]. by split; [apply lookup_delete_eq|].
Qed.

Lemma quiet_step o e : quiet o -> idles e = false -> quiet (step o e) /\ same_work o (step o e).
Proof.
  intros Hq He. pose proof (quiet_busy o Hq) as (Hms & Hmt & _ & Hab & Hpe).
  pose proof Hq as (Hp & Hs & Ha & Hse).
  assert (quiet o /\ same_work o o) as Hid by by apply quiet_turn_same; auto.
  assert (forall p, quiet (o <| permissions := p |>) /\ same_work o (o <| permissions := p |>)) as Hperm
    by (intros p; by apply quiet_turn_same; auto).
  assert (forall t, match t with ToStart _ _ | Choosing _ _ _ | Checking _ _ _ | ToAbort
      | Telling _ _ => True | _ => False end ->
    quiet (o <| sender := Some t |>) /\ same_work o (o <| sender := Some t |>)) as Hsend.
  { intros t Ht. split; [by split|]. do 3 (split; [done|]). by apply drains_same. }
  destruct e as [l|session now| |l|prompt delivery|steer session run prompt delivery|fence
    |failed id now k|k fence e|k|k ctx request|k revision id now deadline|e|n input tool|n now]; cbn [step]; try done.
  - apply quiet_turn_same; auto; [by destruct (same_cancel (ctl o))|]. left. apply cancel_kept.
  - apply quiet_turn_same; auto; cbn; unfold Close, cancel_lifecycle; cbn; destruct (cancel (ctl o)); by auto.
  - unfold ESend_. destruct (sender o) eqn:Esn; [done|]. destruct (_ || _); [done|].
    by apply Hsend.
  - unfold EFenced_. destruct (sender o) eqn:Esn; [done|]. destruct (_ || _); [done|].
    by destruct steer; apply Hsend.
  - unfold EAbort_. destruct (sender o) eqn:Esn; [done|].
    destruct fence as [[session run]|]; [destruct (is_ok _); [|done]|]; by apply Hsend.
  - destruct (sender o) as [t|] eqn:Et; [|done].
    destruct t; try done; cbn [turn_next]; rewrite ?Hms, ?Hmt, ?Hab; try by apply quiet_turn_same; auto.
    destruct (bool_decide _); by apply quiet_turn_same; auto.
  - cbn in He. apply bool_decide_eq_false in He.
    destruct (quiet_ingest e (ctl o) Hp He) as (E1 & E2 & E3).
    pose proof (ingest_run e (ctl o)) as [[Hrun _]|(ph & _ & _ & Hor)];
      [|destruct Hor as [[? _]|[[?|?] _]]; congruence].
    unfold EIngest_, publishHarnessEvent. destruct (publishers o !! k); [done|].
    destruct fence; [destruct (_ && _); [done|]|]; destruct (ingestLocked e (ctl o)) as [c' r];
      cbn in *; subst r; (apply quiet_turn_same; auto; cbn; [by destruct Hrun|congruence]).
  - unfold publisher_next. destruct (publishers o !! k) as [[]|]; [by apply quiet_turn_same; auto| |done].
    apply quiet_turn_same; auto; cbn; by rewrite ?Hpe; auto.
  - unfold EPermission_. by destruct (permissions o !! k).
  - by apply quiet_permission.
  - unfold on_queue. destruct (signals _ _ _ _); by apply quiet_turn_same; auto.
  - by apply quiet_approval_take.
  - by apply quiet_approval_dispatch.
Qed.

(** C18: An aborted turn is over.  Once a run has been aborted and until the harness says
    that it is idle, whatever is sent, published, approved or closed, no other run begins,
    the harness is given no message, and no approval can be taken for dispatch.  A call of
    the reconciler that still comes is that of a goroutine which had taken its approval,
    for that tool call, input and revision, before; without such a goroutine nothing is
    dispatched. *)
Theorem aborted_turn_is_over (o : operator) (es : list event)
  (Hr : reachable timeout hash inWorkspace digest payload_json o)
  (Hp : c_runPhase (ctl o) = runAborted) (Hs : status (ctl o) = controllerAborting)
  (Hse : sender o = None) (Hes : Forall (fun e => idles e = false) es) :
  let o' := foldl step o es in
  run_view (ctl o') = run_view (ctl o) /\ started o' = started o /\ prompts o' = prompts o
  /\ c_approved (ctl o') = ∅ /\ drains o o'
  /\ (taken o = ∅ -> dispatches o' = dispatches o).
Proof.
  intros o'. assert (quiet o) as Hq.
  { split; [done|]. split; [by left|]. split; [|by rewrite Hse].
    apply (tu_coherent _ (reachable_turns o Hr)). by left. }
  assert (quiet o' /\ same_work o o') as [(_ & _ & Ha & _) (W1 & W2 & W3 & W4)].
  { subst o'. clear Hr Hp Hs Hse. revert o Hq. induction Hes as [|e es He Hes IH]; intros o Hq.
    { split; [done|]. do 3 (split; [done|]). by apply drains_same. }
    destruct (quiet_step o e Hq He) as [Hq' (W1 & W2 & W3 & W4)].
    destruct (IH _ Hq') as [Hq2 (V1 & V2 & V3 & V4)]. cbn. split; [done|]. unfold same_work.
    split_and!; try congruence. by eapply drains_trans. }
  split_and!; try done. intros E. destruct W4 as (_ & ds & -> & Hds).
  destruct ds as [|d ds]; [by rewrite app_nil_r|].
  apply Forall_cons in Hds as [(n & t & Ht & _) _]. by rewrite E, lookup_empty in Ht.
Qed.
End turns.

(** ** Runs *)

Module OperatorDemo.
Definition can_happen (o : operator) (e : event) : bool :=
  match e with
  | EStart l => bool_decide (l ∉ cancelled (ctl o)) && bool_decide (lifecycle (ctl o) <> Some l)
  | ETurn _ id _ _ => bool_decide (id <> "") && bool_decide (id ∉ rs_RunID <$> started o)
                      && bool_decide (id <> run_ID (currentRun (ctl o)))
  | EQueue e => outside e && bool_decide (OsApprovals.possible (queue_ o) e)
  | _ => true
  end.

(** The workspace is empty, a digest is the name of the app, and a payload its path. *)
Definition digest (i : ReconcileIntent) : option string := Some (i_App i).
Definition payload_json (i : reconcileToolInput) (r : ReconcileRevision) : option string :=
  Some (ti_Path i).
Definition one_step : operator -> event -> operator :=
  step 10 id (fun _ => false) digest payload_json.
Definition play (es : list event) : operator := foldl one_step NewOperator es.
Fixpoint playable (o : operator) (es : list event) : bool :=
  match es with
  | [] => true
  | e :: rest => can_happen o e && playable (one_step o e) rest
  end.
Definition reached : operator -> Prop := reachable 10 id (fun _ => false) digest payload_json.

Lemma can_happen_possible o e : can_happen o e = true -> possible o e.
Proof.
  destruct e; cbn; try done; rewrite ?andb_true_iff, ?bool_decide_eq_true; tauto.
Qed.
Lemma reached_from o es : reached o -> playable o es = true -> reached (foldl one_step o es).
Proof.
  revert o. induction es as [|e es IH]; intros o Hr Hp; [done|].
  cbn in Hp. apply andb_prop in Hp as [He Hp]. apply IH; [|done].
  apply reach_step; [done|by apply can_happen_possible].
Qed.
Lemma reached_play es : playable NewOperator es = true -> reached (play es).
Proof. apply reached_from. constructor. Qed.

Definition boot : list event := [EStart 0; EStarted "session" 1].
Definition next : event := ETurn false "idle" 2 0.
Definition fail : event := ETurn true "idle" 2 0.
(** A prompt, up to the harness's answer. *)
Definition sends (run prompt : string) : list event :=
  [ESend prompt 1; next; ETurn false run 2 0; next; next].
Definition says (kind : eventKind) (id : string) : eventRecord := mkEvent id "" kind 3 ∅ false.
Definition aborts : list event :=
  [EAbort None; next; next; EQueue (EExpireNext 0 approvalActorAbortKey 3); next; next].
End OperatorDemo.
Import OperatorDemo.

Example works : run_view (ctl (play (boot ++ sends "r1" "build it"))) = ("r1", runRunning).
Proof. vm_compute. reflexivity. Qed.
Example steers : prompts (play (boot ++ sends "r1" "build it" ++ [next]
    ++ [EFenced true "session" "r1" "faster" 1; next; next; next]
    ++ [EFenced true "session" "r0" "stale" 1; next; next; next]))
  = [(mkPrompt "r1" "build it" 1, None); (mkPrompt "r1" "faster" 1, Some ("session", "r1"))].
Proof. vm_compute. reflexivity. Qed.

Lemma runs_one_after_another_witness :
  let o := play (boot ++ sends "r1" "build it" ++ [next]) in
  let o' := one_step o (EIngest 0 (Some "r1") (says eventKindSessionIdle "e1")) in
  run_view (ctl o') = ("r1", runSucceeded) /\ run_CanAbort (currentRun (ctl o')) = false.
Proof.
  split; [vm_compute; reflexivity|].
  destruct (runs_one_after_another 10 id (fun _ => false) digest payload_json
    (play (boot ++ sends "r1" "build it" ++ [next]))
    (EIngest 0 (Some "r1") (says eventKindSessionIdle "e1"))) as (_ & _ & H & _).
  - apply reached_play. vm_compute. reflexivity.
  - exact Logic.I.
  - etransitivity; [exact H|vm_compute; reflexivity].
Defined.

(** An aborted turn; another prompt, and a last word of the harness. *)
Lemma aborted_turn_is_over_witness :
  let o := play (boot ++ sends "r1" "build it" ++ [next] ++ aborts) in
  let o' := foldl one_step o (sends "r2" "again"
       ++ [EIngest 0 None (says eventKindAssistantMessage "e1"); EAbort None; next; next]) in
  statuses o = [("r1", runAborted)]
  /\ run_view (ctl o') = ("r1", runAborted) /\ prompts o' = prompts o
  /\ dispatches o' = dispatches o.
Proof.
  split; [vm_compute; reflexivity|].
  destruct (aborted_turn_is_over 10 id (fun _ => false) digest payload_json
    (play (boot ++ sends "r1" "build it" ++ [next] ++ aborts))
    (sends "r2" "again"
       ++ [EIngest 0 None (says eventKindAssistantMessage "e1"); EAbort None; next; next]))
    as (H1 & _ & H2 & _ & _ & H3).
  - apply reached_play. vm_compute. reflexivity.
  - vm_compute. reflexivity.
  - vm_compute. reflexivity.
  - vm_compute. reflexivity.
  - repeat constructor.
  - split; [etransitivity; [exact H1|vm_compute; reflexivity]|]. split; [exact H2|].
    apply H3. vm_compute. reflexivity.
Defined.

(** Findings. *)

(** A harness that reports the end of a turn and then fails the call that sent the prompt
    has its run recorded twice, and the failure last. *)
Theorem ended_run_is_recorded_failed :
  let o := play (boot ++ sends "r1" "build it"
    ++ [EIngest 0 (Some "r1") (says eventKindSessionIdle "e1"); EPublisher 0; EPublisher 0; fail; next]) in
  statuses o = [("r1", runSucceeded); ("r1", runFailed)]
  /\ run_view (ctl o) = ("r1", runFailed).
Proof. vm_compute. auto. Qed.

(** A controller that was closed while a prompt was being sent is idle again, and takes
    another prompt. *)
Theorem closed_controller_takes_prompts :
  let o := play (boot ++ sends "r1" "build it" ++ [EClose; fail; next]) in
  status (ctl o) = controllerIdle
  /\ (hp_RunId <$> (prompts (foldl one_step o (sends "r2" "again"))).*1) = ["r1"; "r2"].
Proof. vm_compute. auto. Qed.

(** The title of a run is cut inside a character, and is then no text: the row that
    records the run, and so the run, is refused. *)
Definition long_prompt : string :=
  "aaaaaaaaaaaaaaaaaaaaaaaaaaaaaaaaaaaaaaaaaaaaaaaaaaaaaaaaaaaaaaaaaaaaaaébc".
Theorem title_is_cut_inside_a_character :
  UTF8.ValidString long_prompt = true /\ UTF8.ValidString (summarizePrompt long_prompt) = false.
Proof. vm_compute. auto. Qed.
Close Scope Z_scope.
