(* ===== verification/OsGate.v ===== *)
(** * CandaceOS: what an approval lets through

    The gate between the operator and the reconciler: an approval of OsApprovals.v, kept by
    the controller of OsOperator.v, is dispatched once, for the input and the revision that
    the operator was shown. *)
From S2P Require Import Prelude.
From S2P Require Import GoStd.
From S2P Require Import OsContract.
From S2P Require Import OsAgent.
From S2P Require Import OsApprovals.
From S2P Require Import OsController.
From S2P Require Import OsOperator.
From S2P Require Import OsTurns.

Open Scope Z_scope.

(** ** An approval stays what was requested *)

(** [a] is somewhere in the queue as the approval of [id]. *)
Inductive bears (q : queue) (id : string) : Approval -> Prop :=
| borne_recording p : recording q !! id = Some p -> bears q id (approval p)
| borne_pending p : pending q !! id = Some p -> bears q id (approval p)
| borne_voiding r c : waiters q !! id = Some (Voiding r c) -> bears q id (r_Approval r)
| borne_claim k r rest : finishers q !! k = Some (Claimed id r rest) -> bears q id (r_Approval r)
| borne_log res : res ∈ resolved q -> about res = id -> bears q id (r_Approval (resolution res)).

Lemma bears_sub q q' id :
  (forall p, recording q' !! id = Some p -> bears q id (approval p)) ->
  (forall p, pending q' !! id = Some p -> bears q id (approval p)) ->
  (forall r c, waiters q' !! id = Some (Voiding r c) -> bears q id (r_Approval r)) ->
  (forall k r rest, finishers q' !! k = Some (Claimed id r rest) -> bears q id (r_Approval r)) ->
  (forall res, res ∈ resolved q' -> about res = id -> bears q id (r_Approval (resolution res))) ->
  forall a, bears q' id a -> bears q id a.
Proof. intros H1 H2 H3 H4 H5 a []; eauto. Qed.

Create HintDb bears.
#[local] Hint Resolve borne_recording borne_pending borne_voiding borne_claim borne_log : bears.

(** The steps that touch nothing but the entries of [id0] in these maps. *)
Ltac bears_lookup :=
  repeat match goal with
  | |- forall _, _ => intro
  | H : <[_ := _]> _ !! _ = Some _ |- _ => apply lookup_insert_Some in H as [[? ?]|[? ?]]; simplify_eq
  | H : delete _ _ !! _ = Some _ |- _ => apply lookup_delete_Some in H as [? ?]
  end; cbn; eauto with bears.

Lemma bears_claim q id0 decision actor at_ q1 r k rest w id a :
  finish_claim id0 decision actor at_ q = (q1, inr r) ->
  (forall r c, w !! id = Some (Voiding r c) -> waiters q !! id = Some (Voiding r c)) ->
  bears (q1 <| waiters := w |> <| finishers ::= <[k := Claimed id0 r rest]> |>) id a -> bears q id a.
Proof.
  intros E Hw. apply finish_claim_spec in E as (p & Hp & _ & -> & Ha & _).
  apply bears_sub; cbn; bears_lookup.
  rewrite Ha. eauto with bears.
Qed.

Lemma bears_hooked q k failed id a : OsApprovals.inv q -> is_Some (waiters q !! id) ->
  bears (Hooked k failed q) id a -> bears q id a.
Proof.
  intros I Hw.
  unfold Hooked. destruct (finishers q !! k) as [[id1 r rest|ids]|] eqn:Hk; try done.
  assert (about (mkResult r failed) = id1) as Hab.
  { destruct (in_life _ I id1) as [_ _ _ [_ U _]|p _ _ _ [_ U _]|r' c _ _ _ [_ U _]|p _ _ _ [_ U _]
      |p k0 r0 w _ _ _ _ _ Hi _ _ Hc Hu Ha _ _|w _ _ _ U];
      [by destruct (U k r); exists rest..| |by destruct (U k r); exists rest].
    assert (k = k0) as -> by (apply (Hu k r); by exists rest).
    destruct Hc as [rest' Hc]. assert (r0 = r) as -> by congruence. unfold about. cbn. by rewrite Ha. }
  assert (forall q', (forall p, recording q' !! id = Some p -> bears q id (approval p)) ->
    (forall p, pending q' !! id = Some p -> bears q id (approval p)) ->
    (forall r c, waiters q' !! id = Some (Voiding r c) -> bears q id (r_Approval r)) ->
    (forall k r rest, finishers q' !! k = Some (Claimed id r rest) -> bears q id (r_Approval r)) ->
    resolved q' = resolved q ++ [mkResult r failed] -> bears q' id a -> bears q id a) as Hgo.
  { intros q' H1 H2 H3 H4 El. apply bears_sub; try done. rewrite El.
    intros res [Hres| ->%list_elem_of_singleton]%elem_of_app; [eauto with bears|].
    rewrite Hab. intros <-. cbn. eauto with bears. }
  unfold finish_end. destruct k as [own|k]; [|destruct rest]; apply Hgo; try done; cbn; bears_lookup.
Qed.

Lemma bears_step timeout hash q e id a :
  OsApprovals.inv q -> is_Some (waiters q !! id) ->
  (forall request now deadline, e <> ERequest id request now deadline) ->
  bears (OsApprovals.step timeout hash q e) id a -> bears q id a.
Proof.
  intros I Hw He. destruct e as [id0 request now deadline|id0 failed cd now|id0 failed|id0|id0 at_|id0 at_
    |k id0 decision actor at_|k runID actor|k actor at_|k failed]; cbn [OsApprovals.step].
  - assert (id0 <> id) as Hne by (intros ->; by eapply He).
    unfold Request. destruct (negb _); [done|]. destruct (rq_Payload request); [|done].
    apply bears_sub; cbn; bears_lookup.
  - unfold Requested. destruct (waiters q !! id0) as [[]|]; try done.
    destruct (recording q !! id0) eqn:Er; [|done].
    destruct failed; [|destruct (_ && _)]; apply bears_sub; cbn; bears_lookup.
  - unfold Voided. destruct (waiters q !! id0) as [[|r c| | | |]|] eqn:Ew; try done.
    apply bears_sub; cbn; bears_lookup.
    match goal with H : _ ∈ _ ++ [_] |- _ => apply elem_of_app in H as [H|H%list_elem_of_singleton] end;
      [eauto with bears|]. subst. cbn.
    assert (about (mkResult r failed) = id0) as <-; [|eauto with bears].
    destruct (in_life _ I id0); unfold about; cbn; try congruence.
    + destruct k; naive_solver congruence.
    + naive_solver congruence.
  - unfold Receive. destruct (waiters q !! id0) as [[]|]; try done; destruct (sent q id0); try done;
      apply bears_sub; cbn; bears_lookup.
  - unfold ContextDone. destruct (waiters q !! id0) as [[]|]; try done.
    destruct (finish_claim _ _ _ _ _) as [q' [st|r]] eqn:E.
    + apply finish_claim_spec in E as [-> _]. apply bears_sub; cbn; bears_lookup.
    + eapply bears_claim; [exact E|].
      apply finish_claim_spec in E as (p & _ & _ & -> & _). cbn. bears_lookup.
  - unfold TimerFires. destruct (waiters q !! id0) as [[]|]; try done.
    destruct (finish_claim _ _ _ _ _) as [q' [st|r]] eqn:E.
    + apply finish_claim_spec in E as [-> _]. apply bears_sub; cbn; bears_lookup.
    + eapply bears_claim; [exact E|].
      apply finish_claim_spec in E as (p & _ & _ & -> & _). cbn. bears_lookup.
  - unfold Resolve. destruct (negb _); [done|].
    destruct (finish_claim _ _ _ _ _) as [q' [st|r]] eqn:E.
    + apply finish_claim_spec in E as [-> _]. done.
    + intros Hb. eapply (bears_claim _ _ _ _ _ _ _ (inr k) [] (waiters q')); [exact E| |by destruct q'].
      apply finish_claim_spec in E as (p & _ & _ & -> & _). done.
  - unfold ExpireRun. destruct (bool_decide _); [done|]. apply bears_sub; cbn; bears_lookup.
    match goal with H : (_ <$> _) !! _ = Some _ |- _ => rewrite lookup_fmap in H;
      apply fmap_Some in H as (p0 & Hp0 & ->) end.
    destruct (_ && _); cbn; eauto with bears.
  - unfold ExpireNext. destruct (finishers q !! inr k) as [[|[|id1 rest]]|]; try done.
    + apply bears_sub; cbn; bears_lookup.
    + destruct (finish_claim _ _ _ _ _) as [q' [st|r]] eqn:E.
      * apply finish_claim_spec in E as [-> _]. apply bears_sub; cbn; bears_lookup.
      * intros Hb. eapply (bears_claim _ _ _ _ _ _ _ (inr k) rest (waiters q')); [exact E| |by destruct q'].
        apply finish_claim_spec in E as (p & _ & _ & -> & _). done.
  - by apply bears_hooked.
Qed.

Lemma resolved_grows timeout hash q e res :
  res ∈ resolved q -> res ∈ resolved (OsApprovals.step timeout hash q e).
Proof.
  intros Hres. destruct e as [id request now deadline|id failed cd now|id failed|id|id at_|id at_
    |k id decision actor at_|k runID actor|k actor at_|k failed]; cbn [OsApprovals.step].
  - unfold Request. destruct (negb _); [done|]. by destruct (rq_Payload request).
  - unfold Requested. destruct (waiters q !! id) as [[]|]; try done.
    destruct (recording q !! id); [|done]. destruct failed; [done|]. by destruct (_ && _).
  - unfold Voided. destruct (waiters q !! id) as [[]|]; try done. cbn. apply elem_of_app. by left.
  - unfold Receive. destruct (waiters q !! id) as [[]|]; try done; by destruct (sent q id).
  - unfold ContextDone. destruct (waiters q !! id) as [[]|]; try done.
    destruct (finish_claim _ _ _ _ _) as [q' [st|r]] eqn:E;
      [by apply finish_claim_spec in E as [-> _]|by apply finish_claim_spec in E as (p & _ & _ & -> & _)].
  - unfold TimerFires. destruct (waiters q !! id) as [[]|]; try done.
    destruct (finish_claim _ _ _ _ _) as [q' [st|r]] eqn:E;
      [by apply finish_claim_spec in E as [-> _]|by apply finish_claim_spec in E as (p & _ & _ & -> & _)].
  - unfold Resolve. destruct (negb _); [done|].
    destruct (finish_claim _ _ _ _ _) as [q' [st|r]] eqn:E;
      [by apply finish_claim_spec in E as [-> _]|by apply finish_claim_spec in E as (p & _ & _ & -> & _)].
  - unfold ExpireRun. by destruct (bool_decide _).
  - unfold ExpireNext. destruct (finishers q !! inr k) as [[|[|id rest]]|]; try done.
    destruct (finish_claim _ _ _ _ _) as [q' [st|r]] eqn:E;
      [by apply finish_claim_spec in E as [-> _]|by apply finish_claim_spec in E as (p & _ & _ & -> & _)].
  - unfold Hooked. destruct (finishers q !! k) as [[id r rest|ids]|]; try done.
    unfold finish_end. destruct k; cbn; apply elem_of_app; by left.
Qed.

(** A goroutine once there does not go away. *)
Lemma waiter_stays timeout hash q e id :
  is_Some (waiters q !! id) -> is_Some (waiters (OsApprovals.step timeout hash q e) !! id).
Proof.
  intros Hw. assert (forall x w, is_Some (<[x := w]> (waiters q) !! id)) as Hins.
  { intros x w. rewrite lookup_insert. case_decide; [by eexists|done]. }
  destruct e as [id0 request now deadline|id0 failed cd now|id0 failed|id0|id0 at_|id0 at_
    |k id0 decision actor at_|k runID actor|k actor at_|k failed]; cbn [OsApprovals.step].
  - unfold Request. destruct (negb _); [done|]. destruct (rq_Payload request); [apply Hins|done].
  - unfold Requested. destruct (waiters q !! id0) as [[]|]; try done.
    destruct (recording q !! id0); [|done]. destruct failed; [apply Hins|]. destruct (_ && _); apply Hins.
  - unfold Voided. destruct (waiters q !! id0) as [[]|]; try done. apply Hins.
  - unfold Receive. destruct (waiters q !! id0) as [[]|]; try done; destruct (sent q id0); try done; apply Hins.
  - unfold ContextDone. destruct (waiters q !! id0) as [[]|]; try done.
    destruct (finish_claim _ _ _ _ _) as [q' [st|r]] eqn:E;
      [apply finish_claim_spec in E as [-> _]|apply finish_claim_spec in E as (p & _ & _ & -> & _)]; apply Hins.
  - unfold TimerFires. destruct (waiters q !! id0) as [[]|]; try done.
    destruct (finish_claim _ _ _ _ _) as [q' [st|r]] eqn:E;
      [apply finish_claim_spec in E as [-> _]|apply finish_claim_spec in E as (p & _ & _ & -> & _)]; apply Hins.
  - unfold Resolve. destruct (negb _); [done|].
    destruct (finish_claim _ _ _ _ _) as [q' [st|r]] eqn:E;
      [by apply finish_claim_spec in E as [-> _]|by apply finish_claim_spec in E as (p & _ & _ & -> & _)].
  - unfold ExpireRun. by destruct (bool_decide _).
  - unfold ExpireNext. destruct (finishers q !! inr k) as [[|[|id1 rest]]|]; try done.
    destruct (finish_claim _ _ _ _ _) as [q' [st|r]] eqn:E;
      [by apply finish_claim_spec in E as [-> _]|by apply finish_claim_spec in E as (p & _ & _ & -> & _)].
  - unfold Hooked. destruct (finishers q !! k) as [[id1 r rest|ids]|]; try done.
    unfold finish_end. destruct k; [apply Hins|done].
Qed.

(** What a request puts into the queue. *)
Lemma request_bears timeout hash q id request now deadline a :
  OsApprovals.inv q -> waiters q !! id = None ->
  bears (Request timeout hash id request now deadline q) id a ->
  exists payload, rq_Payload request = Some payload /\ PayloadSHA256 a = hash payload
    /\ RequiresFleetQuorum a = rq_RequiresFleetQuorum request.
Proof.
  intros I Hw Hb.
  assert (forall a, ~ bears q id a) as Hno.
  { intros a0 H0. destruct (in_life _ I id) as [_ Hr Hp [_ Hc Hl]| | | | |]; try congruence.
    destruct H0 as [| | |k r rest Hk|res Hres Hab]; try congruence.
    - by eapply (Hc k r); exists rest.
    - by eapply (Hl res). }
  unfold Request in Hb. destruct (negb _); [by apply Hno in Hb|].
  destruct (rq_Payload request) as [payload|]; [|by apply Hno in Hb].
  exists payload. split; [done|].
  inversion Hb as [p Hp|p Hp|r c Hp|k r rest Hp|res Hp Hab]; subst; cbn in Hp.
  - rewrite lookup_insert_eq in Hp. by injection Hp as <-.
  - by destruct (Hno _ (borne_pending _ _ _ Hp)).
  - by rewrite lookup_insert_eq in Hp.
  - by destruct (Hno _ (borne_claim _ _ _ _ _ Hp)).
  - by destruct (Hno _ (borne_log _ _ _ Hp eq_refl)).
Qed.

(** ** The gate *)

Section gate.
Context (timeout : Time.Duration) (hash : string -> string).
Context (inWorkspace : string -> bool) (digest : ReconcileIntent -> option string)
  (payload_json : reconcileToolInput -> ReconcileRevision -> option string).
Abbreviation step := (step timeout hash inWorkspace digest payload_json).
Abbreviation reachable := (reachable timeout hash inWorkspace digest payload_json).

(** The operator was shown this revision, with an input of this digest. *)
Definition shown (a : Approval) (sha : string) (revision : ReconcileRevision) : Prop :=
  RequiresFleetQuorum a = true
  /\ exists input payload, digest input = Some sha
     /\ payload_json (reconcileToolInputFromIntent input) revision = Some payload
     /\ PayloadSHA256 a = hash payload.

Definition permission_ok (q : queue) (p : permission) : Prop :=
  match p with
  | Preparing request _ _ _ => pm_requiresFleetQuorum request = true
  | ToAsk request _ _ payload (Some pr) | Asking request _ _ payload (Some pr) _ =>
      pm_requiresFleetQuorum request = true
      /\ exists input, digest input = Some (inputSHA256 pr)
         /\ payload = payload_json (reconcileToolInputFromIntent input) (ap_Revision pr)
  | Awaiting id _ _ prepared =>
      forall pr a, prepared = Some pr -> bears q id a -> shown a (inputSHA256 pr) (ap_Revision pr)
  | _ => True
  end.

Definition kept_ok (q : queue) (tool : string) (ap : approvedReconcile) : Prop :=
  exists res, res ∈ resolved q /\ about res = ap_Approval ap /\ hookFailed res = false
    /\ Decision (resolution res) = DecisionApprove
    /\ ExpiresAt (r_Approval (resolution res)) = expiresAt ap
    /\ ToolCallID (r_Approval (resolution res)) = tool
    /\ shown (r_Approval (resolution res)) (inputSHA256 ap) (ap_Revision ap).

Definition gone_ok (q : queue) (d : dispatch) : Prop :=
  exists ap, kept_ok q (dp_ToolCallID d) ap /\ dp_Approval d = ap_Approval ap
    /\ dp_Revision d = ap_Revision ap /\ digest (dp_Input d) = Some (inputSHA256 ap)
    /\ dp_At d <= expiresAt ap
    /\ dp_Status d <> controllerAborting /\ dp_Status d <> controllerStopped.

Definition taken_ok (q : queue) (t : taken_approval) : Prop :=
  kept_ok q (tk_ToolCallID t) (tk_Approved t)
  /\ tk_Status t <> controllerAborting /\ tk_Status t <> controllerStopped.

(** Where an approval is. *)
Inductive place :=
| AtPermission (k : nat) | Kept (tool : string) | Taken (n : nat) | Gone (n : nat).
Definition holds (o : operator) (id : string) (x : place) : Prop :=
  match x with
  | AtPermission k => exists life ctx pr, permissions o !! k = Some (Awaiting id life ctx pr)
  | Kept tool => exists ap, c_approved (ctl o) !! tool = Some ap /\ ap_Approval ap = id
  | Taken n => exists t, taken o !! n = Some t /\ ap_Approval (tk_Approved t) = id
  | Gone n => exists d, dispatches o !! n = Some d /\ dp_Approval d = id
  end.

Record gate (o : operator) : Prop := {
  g_queue : OsApprovals.reachable timeout hash (queue_ o) (asked o);
  g_permission k p : permissions o !! k = Some p -> permission_ok (queue_ o) p;
  g_kept tool ap : c_approved (ctl o) !! tool = Some ap -> kept_ok (queue_ o) tool ap;
  g_taken n t : taken o !! n = Some t -> taken_ok (queue_ o) t;
  g_gone d : d ∈ dispatches o -> gone_ok (queue_ o) d;
  g_there id x : holds o id x -> is_Some (waiters (queue_ o) !! id);
  g_once id x y : holds o id x -> holds o id y -> x = y;
}.

(** An approval moves from one place to another, or appears. *)
Lemma once_move (h h' : string -> place -> Prop) id0 x0 x1 :
  (forall id x y, h id x -> h id y -> x = y) -> h id0 x0 ->
  (forall id x, h' id x -> (h id x /\ x <> x0) \/ (x = x1 /\ id = id0)) ->
  forall id x y, h' id x -> h' id y -> x = y.
Proof.
  intros Ho H0 Hm id x y Hx Hy.
  destruct (Hm _ _ Hx) as [[Hx1 Hx2]|[-> ->]], (Hm _ _ Hy) as [[Hy1 Hy2]|[Ey Ey']];
    subst; eauto; [destruct Hx2|destruct Hy2]; eauto.
Qed.

Lemma once_new (h h' : string -> place -> Prop) id0 x1 :
  (forall id x y, h id x -> h id y -> x = y) -> (forall x, ~ h id0 x) ->
  (forall id x, h' id x -> h id x \/ (x = x1 /\ id = id0)) ->
  forall id x y, h' id x -> h' id y -> x = y.
Proof.
  intros Ho H0 Hm id x y Hx Hy.
  destruct (Hm _ _ Hx) as [Hx1|[-> ->]], (Hm _ _ Hy) as [Hy1|[Ey Ey']]; subst; eauto.
  - by destruct (H0 x).
  - by destruct (H0 y).
Qed.

(** A step that only takes approvals away. *)
Lemma gate_less o o' : gate o -> queue_ o' = queue_ o -> asked o' = asked o ->
  (forall k p, permissions o' !! k = Some p -> permissions o !! k = Some p
     \/ (permission_ok (queue_ o) p /\ forall id life ctx pr, p <> Awaiting id life ctx pr)) ->
  c_approved (ctl o') ⊆ c_approved (ctl o) -> taken o' ⊆ taken o ->
  dispatches o' = dispatches o -> gate o'.
Proof.
  intros [H1 H2 H3 Ht H4 H5 H6] Eq Ea Hp Hk Hsub Ed.
  assert (forall id x, holds o' id x -> holds o id x) as Hh.
  { intros id [k|tool|n|n]; cbn.
    - intros (life & ctx & pr & Hl). destruct (Hp _ _ Hl) as [?|[_ Hn]]; [by eauto|by destruct (Hn id life ctx pr)].
    - intros (ap & Hl & Hap). exists ap. split; [by eapply lookup_weaken|done].
    - intros (t & Hl & Hap). exists t. split; [by eapply lookup_weaken|done].
    - by rewrite Ed. }
  split; rewrite ?Eq, ?Ea, ?Ed; [done| | | |done| |].
  - intros k p Hl. destruct (Hp _ _ Hl) as [?|[? _]]; [by eapply H2|done].
  - intros tool ap Hl. apply H3. by eapply lookup_weaken.
  - intros n t Hl. eapply Ht. by eapply lookup_weaken.
  - intros id x Hx. by eapply H5, Hh.
  - intros id x y Hx Hy. by eapply H6; apply Hh.
Qed.

Lemma kept_grows e q tool ap : kept_ok q tool ap ->
  kept_ok (OsApprovals.step timeout hash q e) tool ap.
Proof. intros (res & H1 & H2). exists res. split; [by apply resolved_grows|done]. Qed.
Lemma gone_grows e q d : gone_ok q d -> gone_ok (OsApprovals.step timeout hash q e) d.
Proof. intros (ap & H1 & H2). exists ap. split; [by apply kept_grows|done]. Qed.

(** A step of the queue that leaves the controller's goroutines where they are. *)
Lemma gate_queue o e : gate o -> OsApprovals.possible (queue_ o) e ->
  (forall k id life ctx pr, permissions o !! k = Some (Awaiting id life ctx pr) ->
     forall request now deadline, e <> ERequest id request now deadline) ->
  gate (on_queue timeout hash e o).
Proof.
  intros [H1 H2 H3 Ht H4 H5 H6] Hp He.
  split; cbn; [by constructor| | | | | |].
  - intros k p Hl. pose proof (H2 k p Hl) as Hok. destruct p as [| | | |id life ctx pr|]; try done.
    intros pr0 a -> Hb. apply (Hok pr0 a eq_refl).
    eapply bears_step; [by eapply queue_reachable_inv| |by eapply He|exact Hb].
    apply (H5 id (AtPermission k)). cbn. eauto.
  - intros tool ap Hl. apply kept_grows, H3. by destruct (signals _ _ _ _).
  - intros n t Hl. destruct (Ht n t Hl) as [Hok Hst]. by split; [apply kept_grows|].
  - intros d Hd. by apply gone_grows, H4.
  - intros id x Hx. apply waiter_stays, (H5 id x). destruct x; try done. cbn in *.
    by destruct (signals _ _ _ _).
  - intros id x y Hx Hy. apply (H6 id); [destruct x; try done|destruct y; try done];
      cbn in *; by destruct (signals _ _ _ _).
Qed.

Lemma put_permission k p o : gate o -> permission_ok (queue_ o) p ->
  (forall id life ctx pr, p <> Awaiting id life ctx pr) ->
  gate (o <| permissions ::= <[k := p]> |>).
Proof.
  intros Hg Hok Hn. apply (gate_less o); try done. cbn. intros k0 p0.
  rewrite lookup_insert. case_decide; [|by left]. intros [= <-]. by right.
Qed.

Lemma gate_ask k id life ctx request now deadline pr o : gate o ->
  permissions o !! k <> None -> (forall i l c r, permissions o !! k <> Some (Awaiting i l c r)) ->
  waiters (queue_ o) !! id = None ->
  waiters (queue_ (on_queue timeout hash (ERequest id request now deadline) o)) !! id <> None ->
  (forall p, pr = Some p -> rq_RequiresFleetQuorum request = true
     /\ exists input, digest input = Some (inputSHA256 p)
        /\ rq_Payload request = payload_json (reconcileToolInputFromIntent input) (ap_Revision p)) ->
  gate ((on_queue timeout hash (ERequest id request now deadline) o)
          <| permissions ::= <[k := Awaiting id life ctx pr]> |>).
Proof.
  intros Hg Hk Hk' Hw Hw' Hpr.
  assert (forall x, ~ holds o id x) as Hno.
  { intros x Hx. pose proof (g_there _ Hg _ _ Hx) as [? ?]. congruence. }
  pose proof (gate_queue o (ERequest id request now deadline) Hg Hw) as Hg'.
  destruct Hg' as [H1 H2 H3 Ht H4 H5 H6].
  { intros k0 id0 l0 c0 p0 Hl r0 n0 d0 [= <- _ _ _]. apply (Hno (AtPermission k0)). cbn. eauto. }
  set (o1 := on_queue timeout hash (ERequest id request now deadline) o) in *.
  assert (forall i x, holds (o1 <| permissions ::= <[k := Awaiting id life ctx pr]> |>) i x ->
    holds o1 i x \/ (x = AtPermission k /\ i = id)) as Hh.
  { intros i [k0|tool|n|n] Hx; [|by left..]. destruct Hx as (l0 & c0 & p0 & Hl). cbn in Hl.
    rewrite lookup_insert in Hl. case_decide as Ek; [|by left; cbn; eauto].
    injection Hl as <- _ _ _. right. by rewrite Ek. }
  split; [done| |done|done|done| |].
  - intros k0 p0 Hl. cbn in Hl. rewrite lookup_insert in Hl. case_decide; [|by eapply H2].
    injection Hl as <-. intros p a Ep Hb. destruct (Hpr p Ep) as (Hq & input & Hd & Hpay).
    destruct (request_bears timeout hash (queue_ o) id request now deadline a) as (payload & E1 & E2 & E3);
      [by eapply queue_reachable_inv, Hg|done|done|].
    split; [congruence|]. exists input, payload. split_and!; [done|congruence|done].
  - intros i x Hx. destruct (Hh i x Hx) as [Hx'|[-> ->]]; [by eapply H5|].
    cbn. by apply not_eq_None_Some.
  - eapply (once_new (holds o1)); [exact H6| |exact Hh].
    intros [k0|tool|n|n] Hx; [apply (Hno (AtPermission k0))|apply (Hno (Kept tool))
      |apply (Hno (Taken n))|apply (Hno (Gone n))];
      cbn in *; done.
Qed.

Lemma answered_logged q id res : OsApprovals.inv q ->
  waiters q !! id = Some (Done (Answered res)) -> logged q id res.
Proof.
  intros I Hw. destruct (in_life _ I id) as [| | | |p k r w Hw' _ _ _ _ _ _ _ _ _ _ _ Hk|w Hw' _ _ _ _ _ Hm];
    try congruence.
  - destruct k; naive_solver congruence.
  - assert (w = Done (Answered res)) as -> by congruence. done.
Qed.

(** A permission is decided; its approval may then be kept. *)
Lemma gate_decide k id life ctx prepared answer c' d o : gate o ->
  permissions o !! k = Some (Awaiting id life ctx prepared) ->
  waiters (queue_ o) !! id = Some (Done answer) ->
  decide_permission life ctx prepared answer (ctl o) = (c', d) ->
  gate (o <| permissions ::= <[k := Answer d]> |> <| ctl := c' |>).
Proof.
  intros Hg Hk Hw Hd.
  pose proof (put_permission k (Answer d) o Hg Logic.I ltac:(done)) as Hg'.
  assert (c' = ctl o -> gate (o <| permissions ::= <[k := Answer d]> |> <| ctl := c' |>)) as Hsame.
  { intros ->. exact Hg'. }
  unfold decide_permission in Hd. destruct answer as [res|]; [|apply Hsame; congruence].
  destruct (hookFailed res || _) eqn:Hf; [apply Hsame; congruence|].
  destruct (bool_decide (Decision (resolution res) = DecisionApprove)) eqn:Ha; cbn in Hd;
    [|apply Hsame; congruence].
  destruct prepared as [pr|]; [|apply Hsame; congruence].
  destruct (may_keep life ctx (ctl o)); [|apply Hsame; congruence].
  injection Hd as <- _. apply bool_decide_eq_true in Ha. apply orb_false_iff in Hf as [Hf _].
  pose proof Hg as [H1 H2 H3 Ht H4 H5 H6].
  destruct (answered_logged _ id res (queue_reachable_inv _ _ _ _ H1) Hw) as [Hin Hab].
  set (tool := ToolCallID (r_Approval (resolution res))) in *.
  set (ap := mkApproved (inputSHA256 pr) (ap_Revision pr) (ExpiresAt (r_Approval (resolution res)))
               (ID (r_Approval (resolution res)))) in *.
  assert (kept_ok (queue_ o) tool ap) as Hok.
  { exists res. split_and!; try done. cbn. apply (H2 _ _ Hk pr); [done|]. by constructor. }
  assert (holds o id (AtPermission k)) as Hheld by (cbn; eauto).
  set (o' := o <| permissions ::= <[k := Answer d]> |>
    <| ctl := (ctl o) <| c_approved ::= <[tool := ap]> |> |>).
  assert (forall i x, holds o' i x -> (holds o i x /\ x <> AtPermission k) \/ (x = Kept tool /\ i = id)) as Hh.
  { intros i [k0|tool0|n|n]; cbn; [| |by left..].
    - intros (l0 & c0 & p0 & Hl). rewrite lookup_insert in Hl. case_decide as Ek; [done|].
      left. split; [eauto|congruence].
    - intros (ap0 & Hl & Hap). rewrite lookup_insert in Hl. case_decide as Ek; [|by left; eauto].
      injection Hl as <-. right. rewrite Ek. by rewrite <-Hap. }
  split; [done| | |done|done| |].
  - intros k0 p0 Hl. cbn in Hl. rewrite lookup_insert in Hl. case_decide; [by injection Hl as <-|].
    by eapply H2.
  - intros tool0 ap0 Hl. cbn in Hl. rewrite lookup_insert in Hl. case_decide as Ek; [|by apply H3].
    injection Hl as <-. by rewrite <-Ek.
  - intros i x Hx. destruct (Hh i x Hx) as [[Hx' _]|[_ ->]]; [by eapply H5|]. cbn. rewrite Hw. by eexists.
  - eapply (once_move (holds o)); [exact H6|exact Hheld|exact Hh].
Qed.

Lemma gate_permission k revision id now deadline o : gate o ->
  gate (permission_next timeout hash digest payload_json k revision id now deadline o).
Proof.
  intros Hg. unfold permission_next.
  assert (forall d, gate (o <| permissions ::= <[k := Answer d]> |>)) as Hans by (intros d; by apply put_permission).
  destruct (permissions o !! k) as [[request life ctx|request life ctx input
    |request life ctx payload prepared|request life ctx payload prepared runID|id' life ctx prepared|d]|] eqn:Hk; try done.
  - assert (forall p, permission_ok (queue_ o) p -> (forall id life ctx pr, p <> Awaiting id life ctx pr) ->
      gate (o <| permissions ::= <[k := p]> |> <| ctl ::= fun c => c <| c_approved ::= delete (pm_toolCallID request) |> |>)) as Hdel.
    { intros p Hok Hn. eapply (gate_less (o <| permissions ::= <[k := p]> |>)); try done; [by apply put_permission|by left|].
      cbn. apply delete_subseteq. }
    destruct (negb _) eqn:Hq; [by apply put_permission|]. apply negb_false_iff in Hq.
    destruct (bool_decide _); [by apply Hans|]. destruct (reconcileIntent _); by apply Hdel.
  - destruct revision; [|by apply Hans]. destruct (ValidateReconcileRevision _); [|by apply Hans].
    destruct (digest input) as [sha|] eqn:Ed; [|by apply Hans]. apply put_permission; try done.
    split; [by apply (g_permission _ Hg _ _ Hk)|by exists input].
  - apply put_permission; try done. by apply (g_permission _ Hg _ _ Hk).
  - destruct (waiters (queue_ o) !! id) eqn:Hw; [done|].
    destruct (waiters (queue_ (on_queue _ _ _ _)) !! id) eqn:Hw'; [|by apply Hans].
    apply gate_ask; try done; rewrite ?Hk, ?Hw'; try done.
    intros p ->. by apply (g_permission _ Hg _ _ Hk).
  - destruct (waiters (queue_ o) !! id') as [[]|] eqn:Hw; try done.
    destruct (decide_permission _ _ _ _ _) as [c' d] eqn:Hd. by eapply gate_decide.
Qed.

(** An approval is taken; nothing is taken while a turn is aborted or after the end. *)
Lemma gate_take n input tool o : gate o -> turns o -> gate (reconcileApproved_take n input tool o).
Proof.
  intros Hg Htu. unfold reconcileApproved_take. destruct (taken o !! n) eqn:En; [done|].
  destruct (bool_decide _); [done|].
  destruct input as [i|]; [|done]. destruct (ValidateReconcileIntent _); [|done].
  destruct (c_approved (ctl o) !! tool) as [ap|] eqn:Hap;
    [|apply (gate_less o); try done; [by left|apply delete_subseteq]].
  pose proof Hg as [H1 H2 H3 Ht H4 H5 H6].
  assert (holds o (ap_Approval ap) (Kept tool)) as Hheld by (cbn; eauto).
  set (o' := o <| ctl ::= _ |> <| taken ::= _ |>).
  assert (forall id x, holds o' id x ->
    (holds o id x /\ x <> Kept tool) \/ (x = Taken n /\ id = ap_Approval ap)) as Hh.
  { intros id [k|tool0|m|m]; cbn; [by left| | |by left].
    - intros (ap0 & Hl & Hid). apply lookup_delete_Some in Hl as [Hne Hl]. left. split; [eauto|congruence].
    - intros (t & Hl & Hid). apply lookup_insert_Some in Hl as [[-> <-]|[Hne Hl]]; [by right|].
      left. split; [eauto|done]. }
  split; cbn; [done|done| | |done| |].
  - intros tool0 ap0 Hl. apply lookup_delete_Some in Hl as [_ Hl]. by apply H3.
  - intros m t Hl. apply lookup_insert_Some in Hl as [[-> <-]|[_ Hl]]; [|by eapply Ht].
    split; [by apply H3|]. cbn. pose proof (co_kept _ (tu_coherent _ Htu)) as Hk.
    split; intros Es; rewrite Hk in Hap; try done; [by left|by right].
  - intros id x Hx. destruct (Hh id x Hx) as [[Hx' _]|[_ ->]]; [by eapply H5|by eapply H5].
  - eapply (once_move (holds o)); [exact H6|exact Hheld|exact Hh].
Qed.

(** What was taken is dispatched, or dropped. *)
Lemma gate_dispatch n now o : gate o -> gate (reconcileApproved_dispatch digest n now o).
Proof.
  intros Hg. unfold reconcileApproved_dispatch. destruct (taken o !! n) as [t|] eqn:En; [|done].
  assert (gate (o <| taken ::= delete n |>)) as Hdel
    by (apply (gate_less o); try done; [by left|apply delete_subseteq]).
  destruct (Time.After now _) eqn:Hlate; [done|].
  destruct (digest (tk_Input t)) as [sha|] eqn:Hd; [|done].
  destruct (bool_decide (sha = inputSHA256 (tk_Approved t))) eqn:Esha; [|done].
  apply bool_decide_eq_true in Esha as ->.
  pose proof Hg as [H1 H2 H3 Ht H4 H5 H6].
  assert (holds o (ap_Approval (tk_Approved t)) (Taken n)) as Hheld by (cbn; eauto).
  set (o' := o <| taken ::= _ |> <| dispatches ::= _ |>).
  assert (forall id x, holds o' id x -> (holds o id x /\ x <> Taken n)
    \/ (x = Gone (length (dispatches o)) /\ id = ap_Approval (tk_Approved t))) as Hh.
  { intros id [k|tool0|m|m]; cbn; [by left|by left| |].
    - intros (t0 & Hl & Hid). apply lookup_delete_Some in Hl as [Hne Hl]. left. split; [eauto|congruence].
    - intros (d & Hl & Hid). apply lookup_app_Some in Hl as [Hl|[Hge Hl]]; [left; by eauto|].
      apply list_lookup_singleton_Some in Hl as [Hn <-]. right. split; [f_equal; lia|done]. }
  destruct (Ht n t En) as (Hkept & Hst1 & Hst2).
  split; cbn; [done|done|done| | | |].
  - intros m t0 Hl. apply lookup_delete_Some in Hl as [_ Hl]. by eapply Ht.
  - intros d [Hin| ->%list_elem_of_singleton]%elem_of_app; [by apply H4|].
    exists (tk_Approved t). split; [done|]. cbn. split_and!; try done.
    unfold Time.After in Hlate. lia.
  - intros id x Hx. destruct (Hh id x Hx) as [[Hx' _]|[_ ->]]; [by eapply H5|by eapply H5].
  - eapply (once_move (holds o)); [exact H6|exact Hheld|exact Hh].
Qed.

(** A step of the controller alone. *)
Lemma gate_same o o' : gate o -> queue_ o' = queue_ o -> asked o' = asked o ->
  permissions o' = permissions o ->
  (c_approved (ctl o') = c_approved (ctl o) \/ c_approved (ctl o') = ∅) ->
  taken o' = taken o -> dispatches o' = dispatches o -> gate o'.
Proof.
  intros Hg E1 E2 E3 E4 E5 E6. apply (gate_less o); try done; [rewrite E3; by left| |by rewrite E5].
  destruct E4 as [-> | ->]; [done|apply map_empty_subseteq].
Qed.

Lemma ingest_approved e c : c_approved (ingestLocked e c).1 = c_approved c.
Proof.
  unfold ingestLocked. destruct (bool_decide _); [done|].
  destruct (same_record e c) as (_ & _ & Ea). cbv zeta.
  destruct (bool_decide _); destruct (_ && _); done.
Qed.
Lemma persisted_approved r c : c_approved (persisted r c) = c_approved c.
Proof. unfold persisted. by destruct (_ && _). Qed.

Lemma gate_turn failed id now k t o : gate o -> gate (turn_next timeout hash failed id now k t o).
Proof.
  intros Hg.
  assert (forall o', queue_ o' = queue_ o -> asked o' = asked o -> permissions o' = permissions o ->
    (c_approved (ctl o') = c_approved (ctl o) \/ c_approved (ctl o') = ∅) ->
    taken o' = taken o -> dispatches o' = dispatches o -> gate o') as Hgo by (intros; by eapply gate_same).
  destruct t; cbn [turn_next].
  - by destruct (may_start _); apply Hgo; auto.
  - destruct (may_steer _); [|destruct (may_start _)]; by apply Hgo; auto.
  - by destruct (may_steer _); apply Hgo; auto.
  - by apply Hgo; auto.
  - by apply Hgo; auto.
  - destruct failed; [|destruct (ValidateHarnessPrompt _)]; by apply Hgo; auto.
  - destruct (ValidateHarnessPrompt _); by apply Hgo; auto.
  - destruct (_ && _); by apply Hgo; auto.
  - destruct (bool_decide _); by apply Hgo; auto.
  - destruct (abort_begin _) as [c'|] eqn:Hb; [|by apply Hgo; auto]. unfold abort_begin in Hb.
    destruct (_ || _); [done|]. injection Hb as <-. by apply Hgo; auto.
  - destruct failed.
    + destruct (restoreRunningAfterAbortFailure _) as [c' r] eqn:Hre.
      assert (c_approved c' = c_approved (ctl o)) as Ea.
      { unfold restoreRunningAfterAbortFailure in Hre. destruct (negb _); [by injection Hre as <- _|].
        destruct (status (ctl o)); by injection Hre as <- _. }
      destruct r; apply Hgo; auto.
    + destruct (bool_decide _) eqn:Hf; [|done]. apply bool_decide_eq_true in Hf.
      apply (gate_queue (o <| sender := _ |>)); [by apply Hgo; auto|done|done].
  - destruct (finishers _ !! _); [done|]. destruct (finishAbort _) as [c' r] eqn:Hre.
    assert (c_approved c' = c_approved (ctl o)) as Ea.
    { unfold finishAbort in Hre. destruct (negb _); by injection Hre as <- _. }
    destruct r; apply Hgo; auto.
  - by apply Hgo; auto.
  - apply Hgo; auto. left. apply persisted_approved.
Qed.

Lemma gate_step o e : gate o -> turns o -> possible o e -> gate (step o e).
Proof.
  intros Hg Ht Hp.
  assert (forall o', queue_ o' = queue_ o -> asked o' = asked o -> permissions o' = permissions o ->
    (c_approved (ctl o') = c_approved (ctl o) \/ c_approved (ctl o') = ∅) ->
    taken o' = taken o -> dispatches o' = dispatches o -> gate o') as Hgo by (intros; by eapply gate_same).
  destruct e as [l|session now| |l|prompt delivery|steer session run prompt delivery|fence
    |failed id now k|k fence e|k|k ctx request|k revision id now deadline|e|n input tool|n now]; cbn [OsOperator.step].
  - by apply Hgo; auto.
  - by apply Hgo; auto.
  - apply Hgo; auto. right. unfold Close, cancel_lifecycle. cbn. by destruct (cancel (ctl o)).
  - by apply Hgo; auto.
  - unfold ESend_. destruct (sender o); [done|]. destruct (_ || _); [done|]. by apply Hgo; auto.
  - unfold EFenced_. destruct (sender o); [done|]. destruct (_ || _); [done|]. by apply Hgo; auto.
  - unfold EAbort_. destruct (sender o); [done|].
    destruct fence as [[session run]|]; [destruct (is_ok _); [|done]|]; by apply Hgo; auto.
  - destruct (sender o); [|done]. by apply gate_turn.
  - unfold EIngest_, publishHarnessEvent. destruct (publishers o !! k); [done|].
    pose proof (ingest_approved e (ctl o)) as Ea.
    destruct fence; [destruct (_ && _); [done|]|]; destruct (ingestLocked e (ctl o)) as [c' [[r ph]|]];
      apply Hgo; auto.
  - unfold publisher_next. destruct (publishers o !! k) as [[]|]; [by apply Hgo; auto| |done].
    apply Hgo; auto. left. apply persisted_approved.
  - unfold EPermission_. destruct (permissions o !! k); [done|].
    by destruct (safeToApprove _ _); apply put_permission.
  - by apply gate_permission.
  - destruct Hp as [Ho Hp]. apply gate_queue; [done|done|]. by intros ? ? ? ? ? ? ? ? ? ->.
  - by apply gate_take.
  - by apply gate_dispatch.
Qed.

Lemma reachable_gate o : reachable o -> gate o.
Proof.
  induction 1 as [|o e Hr IH Hp]; [|apply gate_step; [done|by eapply reachable_turns|done]].
  assert (forall id x, ~ holds NewOperator id x) as Hno.
  { intros id [k|tool|n|n]; cbn; [intros (l & c & pr & Hl)|intros (ap & Hl & _)|intros (t & Hl & _)
      |intros (d & Hl & _)];
      by rewrite lookup_empty in Hl || done. }
  split; cbn; [constructor|done|done|done|by intros d ?%elem_of_nil| |].
  - by intros id x ?%Hno.
  - by intros id x y ?%Hno.
Qed.

(** C2: What is deployed was approved.  In every interleaving of the harness's requests and
    dispatches, the operator's decisions, deadlines, failing hooks, aborts and restarts, a
    call of [ReconcileApproved] is backed by an approval of its own: requested for that tool
    call with the fleet's quorum required, approved by a call of [Resolve] before its
    deadline, recorded by the durability hook, and not past its deadline when it is used.
    The revision that is deployed is the one whose payload the operator was shown, and the
    input has the digest of the one shown.  The approval was taken while no turn was being
    aborted and the controller was not closed. *)
Theorem what_is_deployed_was_approved (o : operator) (Hr : reachable o) :
  NoDup (dp_Approval <$> dispatches o)
  /\ forall d, d ∈ dispatches o ->
     exists res k actor input payload,
       mkResult res false ∈ resolved (queue_ o) /\ ID (r_Approval res) = dp_Approval d
       /\ Decision res = DecisionApprove
       /\ EResolve k (dp_Approval d) DecisionApprove actor (At res) ∈ asked o
       /\ At res < ExpiresAt (r_Approval res) /\ dp_At d <= ExpiresAt (r_Approval res)
       /\ ToolCallID (r_Approval res) = dp_ToolCallID d
       /\ RequiresFleetQuorum (r_Approval res) = true
       /\ payload_json (reconcileToolInputFromIntent input) (dp_Revision d) = Some payload
       /\ PayloadSHA256 (r_Approval res) = hash payload
       /\ digest input = digest (dp_Input d)
       /\ dp_Status d <> controllerAborting /\ dp_Status d <> controllerStopped.
Proof.
  pose proof (reachable_gate o Hr) as [H1 _ _ _ H4 _ H6]. split.
  - apply NoDup_alt. intros i j x Hi Hj. rewrite list_lookup_fmap in Hi, Hj.
    apply fmap_Some in Hi as (d1 & Hi & ->), Hj as (d2 & Hj & E).
    assert (Gone i = Gone j) as [= ->]; [|done]. eapply (H6 (dp_Approval d1)); cbn; eauto.
  - intros d Hd. destruct (H4 d Hd) as (ap & (res & Hin & Hab & Hf & Hdec & Hex & Htool & Hq & input & payload & Hdig & Hpay & Hsha)
      & Eap & Erev & Edig & Hat & Hst1 & Hst2).
    destruct (bo_log _ _ (reachable_by_operator _ _ _ _ H1) res Hin Hdec) as (k & actor & Hres).
    exists (resolution res), k, actor, input, payload. destruct res as [res hf]. cbn in *. subst hf.
    split_and!; try done; try congruence; try by rewrite Hex.
    + by rewrite Eap, <-Hab.
    + apply (lo_timely _ (in_log _ (queue_reachable_inv _ _ _ _ H1)) _ Hin). cbn. by rewrite Hdec.
Qed.
End gate.

(** The operator is shown what is dispatched.  The tool input that an approval's payload
    carries decodes, through the provider's adapter, to the very intent that was prepared. *)
Theorem shown_intent_decodes (i : ReconcileIntent)
  (Hv : ValidateReconcileIntent (Some i) = Ok tt) :
  reconcileIntent (ArgsJson (Some (reconcileToolInputFromIntent i))) = Ok i.
Proof.
  assert ((i_DesiredState i = 1 \/ i_DesiredState i = 2)
    /\ (i_PlacementMode i = 1 \/ i_PlacementMode i = 2 \/ i_PlacementMode i = 3)) as [Hd Hm].
  { cbn in Hv. repeat (destruct (AppRe _ && _) || destruct (AppRe (i_App i)); [|done]).
    destruct (ProjectRe _); [|done]. destruct (valid_path _); [|done].
    destruct ((i_DesiredState i =? 1) || _) eqn:E1; [|done].
    destruct ((i_PlacementMode i =? 1) || _ || _) eqn:E2; [|done]. lia. }
  assert (reconcileDesiredState (reconcileDesiredStateName (i_DesiredState i)) = Ok (i_DesiredState i)) as Ed
    by (by destruct Hd as [-> | ->]).
  assert (reconcilePlacementMode (reconcilePlacementModeName (i_PlacementMode i)) = Ok (i_PlacementMode i)) as Em
    by (by destruct Hm as [-> | [-> | ->]]).
  unfold reconcileIntent, reconcileToolInputFromIntent.
  cbn [ti_App ti_Project ti_Path ti_DesiredState ti_PlacementMode ti_NodeID ti_Labels ti_Replicas ti_Stateful].
  rewrite Ed, Em. destruct i. cbn -[ValidateReconcileIntent] in *. by rewrite Hv.
Qed.

(** ** A run *)

Module GateDemo.
Import OperatorDemo.
Definition wanted : ReconcileIntent :=
  mkIntent "shop" "shop" "apps/shop" DESIRED_STATE_RUNNING PLACEMENT_MODE_LEADER "" ∅ 0 false.
Definition prepared : option ReconcileRevision :=
  Some (mkRevision "shop-1" "git" (OsAgent.zeros 40) ("sha256:" +:+ OsAgent.zeros 64) "compose.yaml").
Definition reconcile : harnessPermission :=
  {| pm_kind := "custom_tool"; pm_toolCallID := "call-1"; pm_title := "Use candace_reconcile_app";
     pm_risk := "high"; pm_payload := None; pm_requiresFleetQuorum := true;
     pm_requiresManagedApproval := false; pm_requestSandboxBypass := false; pm_path := "";
     pm_reconcileArgs := ArgsIntent (Some wanted) |}.
(** The harness asks, the revision is prepared, the request is recorded and published. *)
Definition ask (k : nat) (id : string) : list event :=
  [EPermission k None reconcile; EAsk k None "" 3 None; EAsk k prepared "" 3 None;
   EAsk k None "" 3 None; EAsk k None id 3 None; EQueue (ERequested id false false 3)].
Definition approve (k : nat) (id : string) : list event :=
  [EQueue (EResolve 7 id DecisionApprove "ana" 5); EQueue (EHooked (inr 7%nat) false);
   EQueue (EReceive id); EAsk k None "" 5 None].
Definition turn : list event := boot ++ sends "r1" "deploy the shop" ++ [next].
Definition deploys : list event := turn ++ ask 0 "a" ++ approve 0 "a".
(** The tool is called: an approval is taken, and used at [now]. *)
Definition calls (n : nat) (input : ReconcileIntent) (now : Time.t) : list event :=
  [ETake n (Some input) "call-1"; EDispatch n now].
End GateDemo.
Import OperatorDemo GateDemo.

(** Another input, a second use, an aborted turn and a late one dispatch nothing; but an
    approval that a call has taken is used when the turn is aborted meanwhile. *)
Example dispatched_once :
  let run es := (fun d => (dp_ToolCallID d, dp_Approval d)) <$> dispatches (play (deploys ++ es)) in
  run (calls 0 wanted 6 ++ calls 1 wanted 6) = [("call-1", "a")]
  /\ run (calls 0 (wanted <| i_App := "other" |>) 6) = []
  /\ run (calls 0 wanted 14) = []
  /\ run ([EAbort None; next] ++ calls 0 wanted 6) = []
  /\ run ([ETake 0 (Some wanted) "call-1"; EAbort None; next; next; EDispatch 0 6])
     = [("call-1", "a")].
Proof. vm_compute. auto. Qed.

Lemma what_is_deployed_was_approved_witness :
  exists res k actor, EResolve k "a" DecisionApprove actor (At res)
    ∈ asked (play (deploys ++ calls 0 wanted 6))
  /\ ToolCallID (r_Approval res) = "call-1".
Proof.
  destruct (what_is_deployed_was_approved 10 id (fun _ => false) digest payload_json
    (play (deploys ++ calls 0 wanted 6))) as [_ H].
  - apply reached_play. vm_compute. reflexivity.
  - destruct (H (mkDispatch "call-1" wanted (default (mkRevision "" "" "" "" "") prepared) "a" 6
      controllerRunning)) as (res & k & actor & _ & _ & _ & _ & _ & Hres & _ & _ & Htool & _).
    + apply list_elem_of_In. vm_compute. left. reflexivity.
    + exists res, k, actor. split; [exact Hres|exact Htool].
Defined.

Lemma shown_intent_decodes_witness :
  ValidateReconcileIntent (Some wanted) = Ok tt
  /\ reconcileIntent (ArgsJson (Some (reconcileToolInputFromIntent wanted))) = Ok wanted.
Proof.
  split; [vm_compute; reflexivity|apply shown_intent_decodes; vm_compute; reflexivity].
Defined.
Close Scope Z_scope.
