(* ===== verification/OsFleetRecord.v ===== *)
(** * CandaceOS: the record of the fleet

    [RecordFleetContext] of [services/candaceos/control/runtime.go]: every poll of Warden
    is offered to the database, and one that changes nothing is left out.  The tables are
    [candaceos_nodes] and [candaceos_node_labels]; the times that a call reads, the end of
    its transaction and whether a read gets through afterwards are inputs. *)
From Stdlib Require Import Ascii.
From stdpp Require Import pretty.
From S2P Require Import Prelude.
From S2P Require Import OsFleet.
From S2P Require Import OsStore.

Open Scope Z_scope.

(** ** Tables *)

Record NodeRow := mkNodeRow {
  nr_Address : string;
  nr_Role : string;
  nr_Status : string;
  nr_WardenTerm : Z;
  nr_LastSeenAt : option Time.t;
  nr_ObservedAt : Time.t;
}.
#[export] Instance NodeRow_eq_dec : EqDecision NodeRow.
Proof. solve_decision. Defined.

Record fleet_tables := mkFleetTables {
  node_rows : gmap string NodeRow;
  node_labels : gmap (string * string) string;
}.
#[export] Instance Rebuild_fleet_tables : Rebuild fleet_tables := fun t =>
  mkFleetTables (node_rows t) (node_labels t).

Definition UpsertNode (node_id : string) (row : NodeRow) (t : fleet_tables) : option fleet_tables :=
  if 0 <=? nr_WardenTerm row then Some (t <| node_rows ::= <[node_id := row]> |>) else None.
Definition DeleteNodeLabels (node_id : string) (t : fleet_tables) : fleet_tables :=
  t <| node_labels ::= base.filter (fun kv => kv.1.1 <> node_id) |>.
Definition UpsertNodeLabel (node_id key value : string) (t : fleet_tables) : fleet_tables :=
  t <| node_labels ::= <[(node_id, key) := value]> |>.

Definition postgresTimestamp (value : Time.t) : option Time.t :=
  if Time.IsZero value then None else Some (stamp value).

(** ** The key *)

(** Decimal digits, as [strconv.Itoa] and [strconv.FormatUint] write them. *)
Definition writeFleetKeyPart (value : string) : string :=
  pretty (N.of_nat (String.length value)) +:+ String ":"%char value.

Definition sorted_labels (labels : gmap string string) : list (string * string) :=
  sort_by fst (map_to_list labels).

Definition concat_ (ss : list string) : string := foldr String.append "" ss.

Definition label_key (kv : string * string) : string :=
  writeFleetKeyPart kv.1 +:+ writeFleetKeyPart kv.2.
Definition node_key (node : ConfiguredNode) : string :=
  let labels := sorted_labels (cn_Labels node) in
  concat_ (writeFleetKeyPart <$>
    [cn_ID node; cn_Address node; cn_Role node; cn_Status node; pretty (N.of_nat (length labels))])
  +:+ concat_ (label_key <$> labels).

Definition fleetPersistenceKey (term : N) (nodes : list ConfiguredNode) : string :=
  writeFleetKeyPart (pretty term) +:+ concat_ (node_key <$> sort_by cn_ID nodes).

(** ** The write *)

Definition node_statements (term : Z) (observed : Time.t) (node : ConfiguredNode)
  (t : fleet_tables) : option fleet_tables :=
  t ← UpsertNode (cn_ID node)
        (mkNodeRow (cn_Address node) (cn_Role node) (cn_Status node) term
           (postgresTimestamp (cn_LastSeen node)) observed) t;
  Some (foldl (fun t kv => UpsertNodeLabel (cn_ID node) kv.1 kv.2 t)
          (DeleteNodeLabels (cn_ID node) t) (map_to_list (cn_Labels node))).

Definition fleet_statements (term : Z) (observed : Time.t) (nodes : list ConfiguredNode)
  (t : fleet_tables) : option fleet_tables :=
  foldl (fun t node => t ← t; node_statements term observed node t) (Some t) nodes.

(** The transaction: the tables, and an error, which is one of the commit or another. *)
Definition fleet_transaction (w : ending) (fn : fleet_tables -> option fleet_tables)
  (t : fleet_tables) : fleet_tables * option tx_error :=
  match fn t with
  | None => (t, Some (StatementFailed "upserting fleet node"))
  | Some t' =>
      match w with
      | Committed => (t', None)
      | Aborted _ => (t, Some (StatementFailed "connection"))
      | CommitFailed performed => (if performed then t' else t, Some TransactionCommitError)
      end
  end.

(** [fleetObservationPersisted], when its reads get through. *)
Definition row_persisted (term : Z) (observed : Time.t) (t : fleet_tables) (node : ConfiguredNode) : bool :=
  match node_rows t !! cn_ID node with
  | Some row =>
      bool_decide (row = mkNodeRow (cn_Address node) (cn_Role node) (cn_Status node) term
                           (postgresTimestamp (cn_LastSeen node)) observed)
      && bool_decide (base.filter (fun kv => kv.1.1 = cn_ID node) (node_labels t)
                      = kmap (fun k => (cn_ID node, k)) (cn_Labels node))
  | None => false
  end.
Definition fleetObservationPersisted (term : Z) (observed : Time.t) (nodes : list ConfiguredNode)
  (t : fleet_tables) : bool :=
  negb (bool_decide (nodes = [])) && forallb (row_persisted term observed t) nodes.

(** [reconcileCommitError]: the error stands unless a read finds what was to be written. *)
Definition reconcileCommitError (readable found : bool) (e : option tx_error) : option tx_error :=
  match e with
  | Some e => if IsTransactionCommitError e && readable && found then None else Some e
  | None => None
  end.

(** ** The runtime's part *)

Definition faultFleet : string := "fleet_observation".
Abbreviation faults_map := (gmap string tx_error).
Definition rememberError (key : string) (err : option tx_error) (faults : faults_map) : faults_map :=
  match err with
  | Some e => <[key := e]> faults
  | None => delete key faults
  end.

Record recorder := mkRecorder {
  tables : fleet_tables;
  faults : faults_map;
  lastFleetKey : string;
  lastFleetWriteAt : Time.t;
  lastFleetFailure : Time.t;
}.
#[export] Instance Rebuild_recorder : Rebuild recorder := fun r =>
  mkRecorder (tables r) (faults r) (lastFleetKey r) (lastFleetWriteAt r) (lastFleetFailure r).
Definition new_recorder (t : fleet_tables) : recorder := mkRecorder t ∅ "" 0 0.

(** What one call meets: the time it starts at, the one it observes at if the snapshot has
    none, the end of the transaction, whether a read gets through, the time it ends at. *)
Record offer := mkOffer {
  of_Snapshot : Fleet.Snapshot;
  of_Now : Time.t;
  of_Observed : Time.t;
  of_Ending : ending;
  of_Readable : bool;
  of_Done : Time.t;
}.

Section record.
Context (persistenceWindow : Time.Duration) (labels : gmap string (gmap string string)).

Definition configured (o : offer) : list ConfiguredNode := WithConfiguration (of_Snapshot o) labels.
Definition key_of (o : offer) : string :=
  fleetPersistenceKey (Fleet.Term (of_Snapshot o)) (configured o).
Definition term_of (o : offer) : Z := Z.of_N (Fleet.Term (of_Snapshot o)).
Definition observed_of (o : offer) : Time.t :=
  default (stamp (of_Observed o)) (postgresTimestamp (Fleet.UpdatedAt (of_Snapshot o))).

Definition recordFleetContext (o : offer) (r : recorder) : recorder :=
  if max_int64 <? term_of o
  then r <| faults ::= rememberError faultFleet (Some (StatementFailed "term")) |>
  else if bool_decide (key_of o = lastFleetKey r)
          && (Time.Sub (of_Now o) (lastFleetWriteAt r) <? persistenceWindow)
  then r <| lastFleetFailure := 0 |> <| faults ::= rememberError faultFleet None |>
  else if negb (Time.IsZero (lastFleetFailure r))
          && (Time.Sub (of_Now o) (lastFleetFailure r) <? persistenceWindow)
  then r
  else
    let '(t, err) := fleet_transaction (of_Ending o)
                       (fleet_statements (term_of o) (observed_of o) (configured o)) (tables r) in
    let err := reconcileCommitError (of_Readable o)
                 (fleetObservationPersisted (term_of o) (observed_of o) (configured o) t) err in
    let r := r <| tables := t |> in
    let r := match err with
             | None => r <| lastFleetKey := key_of o |> <| lastFleetWriteAt := of_Done o |>
                         <| lastFleetFailure := 0 |>
             | Some _ => r <| lastFleetFailure := of_Done o |>
             end in
    r <| faults ::= rememberError faultFleet err |>.
End record.

(** ** Keys *)

Fixpoint no_colon (s : string) : Prop :=
  match s with
  | EmptyString => True
  | String c s => c <> ":"%char /\ no_colon s
  end.
Lemma append_colon (a b s t : string) :
  no_colon a -> no_colon b -> a +:+ String ":"%char s = b +:+ String ":"%char t -> a = b /\ s = t.
Proof.
  revert b. induction a as [|x a IH]; intros [|y b] Ha Hb H; cbn in *.
  - by injection H as ->.
  - injection H as <- H. by destruct Hb.
  - injection H as -> H. by destruct Ha.
  - injection H as -> H. destruct (IH b) as [-> ->]; naive_solver.
Qed.

Lemma no_colon_digit n : pretty_N_char n <> ":"%char.
Proof.
  unfold pretty_N_char. repeat match goal with |- context [match ?x with _ => _ end] => destruct x end; done.
Qed.
Lemma no_colon_pretty (n : N) : no_colon (pretty n).
Proof.
  unfold pretty, pretty_N. case_decide; [done|].
  assert (forall x s, no_colon s -> no_colon (pretty_N_go x s)) as Hgo; [|by apply Hgo].
  intros x. induction (N.lt_wf_0 x) as [x _ IH]. intros s Hs.
  destruct (decide (0 < x)%N) as [Hx|Hx].
  - rewrite pretty_N_go_step by done. apply IH.
    + by apply N.div_lt.
    + split; [apply no_colon_digit|done].
  - assert (x = 0%N) as -> by lia. by rewrite pretty_N_go_0.
Qed.

Lemma part_inj v w s t :
  writeFleetKeyPart v +:+ s = writeFleetKeyPart w +:+ t -> v = w /\ s = t.
Proof.
  unfold writeFleetKeyPart. rewrite !str_append_assoc. intros H.
  apply append_colon in H as [H1 H2]; [|apply no_colon_pretty..].
  apply (inj pretty) in H1. apply (inj N.of_nat) in H1. by apply append_same_length.
Qed.

(** What the tables keep of a node, but for its times. *)
Definition topology (node : ConfiguredNode)
  : string * string * string * string * gmap string string :=
  (cn_ID node, cn_Address node, cn_Role node, cn_Status node, cn_Labels node).

Lemma labels_inj l1 l2 s t : length l1 = length l2 ->
  concat_ (label_key <$> l1) +:+ s = concat_ (label_key <$> l2) +:+ t -> l1 = l2 /\ s = t.
Proof.
  revert l2. induction l1 as [|[k v] l1 IH]; intros [|[k' v'] l2] Hl H; try done.
  cbn in Hl. injection Hl as Hl. rewrite !fmap_cons in H. cbn [concat_ foldr label_key fst snd] in H.
  unfold label_key in H at 1 3. cbn [fst snd] in H. rewrite !str_append_assoc in H.
  apply part_inj in H as [-> H]. apply part_inj in H as [-> H].
  by destruct (IH l2 Hl H) as [-> ->].
Qed.

Lemma sorted_labels_inj (m1 m2 : gmap string string) :
  sorted_labels m1 = sorted_labels m2 -> m1 = m2.
Proof.
  intros E. rewrite <-(list_to_map_to_list m1), <-(list_to_map_to_list m2).
  assert (map_to_list m1 ≡ₚ map_to_list m2) as Hp.
  { rewrite <-(sort_by_perm fst (map_to_list m1)), <-(sort_by_perm fst (map_to_list m2)).
    unfold sorted_labels in E. by rewrite E. }
  apply list_to_map_proper; [apply NoDup_fst_map_to_list|done].
Qed.

Lemma node_key_inj a b s t :
  node_key a +:+ s = node_key b +:+ t -> topology a = topology b /\ s = t.
Proof.
  unfold node_key. rewrite !str_append_assoc. cbn [fmap list_fmap concat_ foldr].
  rewrite !str_append_assoc. intros H.
  apply part_inj in H as [E1 H]. apply part_inj in H as [E2 H].
  apply part_inj in H as [E3 H]. apply part_inj in H as [E4 H].
  apply part_inj in H as [E5 H]. apply (inj pretty) in E5. apply (inj N.of_nat) in E5.
  apply (labels_inj _ _ s t E5) in H as [E6%sorted_labels_inj ->].
  unfold topology. by rewrite E1, E2, E3, E4, E6.
Qed.

Lemma node_key_nonempty a s : node_key a +:+ s <> "".
Proof.
  unfold node_key. cbn [fmap list_fmap concat_ foldr]. unfold writeFleetKeyPart at 1.
  by destruct (pretty (N.of_nat (String.length (cn_ID a)))).
Qed.

Lemma node_keys_inj l1 l2 :
  concat_ (node_key <$> l1) = concat_ (node_key <$> l2) -> topology <$> l1 = topology <$> l2.
Proof.
  revert l2. induction l1 as [|a l1 IH]; intros [|b l2] H; [done|..].
  - by destruct (node_key_nonempty b (concat_ (node_key <$> l2))).
  - by destruct (node_key_nonempty a (concat_ (node_key <$> l1))).
  - rewrite !fmap_cons in *. cbn [concat_ foldr] in H. apply node_key_inj in H as [-> H].
    f_equal. by apply IH.
Qed.

Lemma node_key_topology a b : topology a = topology b -> node_key a = node_key b.
Proof. unfold topology, node_key. by intros [= -> -> -> -> ->]. Qed.

Lemma fleet_key_inj term1 term2 nodes1 nodes2 :
  fleetPersistenceKey term1 nodes1 = fleetPersistenceKey term2 nodes2 ->
  term1 = term2 /\ topology <$> sort_by cn_ID nodes1 = topology <$> sort_by cn_ID nodes2.
Proof. intros [E1%(inj pretty) E2]%part_inj. by apply node_keys_inj in E2. Qed.

(** The key of a fleet is its topology.  Two observations have the same key exactly when
    they are of the same term and, in the order of their identifiers, have the same nodes
    with the same addresses, roles, statuses and labels: the lengths written before the
    parts keep any text in a label or an address from being taken for something else. *)
Theorem fleet_key_is_topology (term1 term2 : N) (nodes1 nodes2 : list ConfiguredNode) :
  fleetPersistenceKey term1 nodes1 = fleetPersistenceKey term2 nodes2 <->
  term1 = term2
  /\ topology <$> sort_by cn_ID nodes1 = topology <$> sort_by cn_ID nodes2.
Proof.
  split; [apply fleet_key_inj|]. unfold fleetPersistenceKey.
  - intros [-> E]. f_equal. f_equal.
    revert E. generalize (sort_by cn_ID nodes2) as l2. generalize (sort_by cn_ID nodes1) as l1.
    induction l1 as [|a l1 IH]; intros [|b l2] E; try done. rewrite !fmap_cons in *.
    injection E as E1 E2 E3 E4 E5 E6. f_equal; [|by apply IH].
    apply node_key_topology. unfold topology. by rewrite E1, E2, E3, E4, E5.
Qed.

(** ** The rows of a fleet *)

(** The tables have a node as it was observed. *)
Definition has_node (term : Z) (t : fleet_tables) (node : ConfiguredNode) : Prop :=
  (exists row, node_rows t !! cn_ID node = Some row /\ nr_Address row = cn_Address node
     /\ nr_Role row = cn_Role node /\ nr_Status row = cn_Status node /\ nr_WardenTerm row = term)
  /\ forall key, node_labels t !! (cn_ID node, key) = cn_Labels node !! key.
Definition has_fleet (term : Z) (nodes : list ConfiguredNode) (t : fleet_tables) : Prop :=
  Forall (has_node term t) nodes.

Lemma has_node_topology term t a b : topology a = topology b -> has_node term t a -> has_node term t b.
Proof. unfold topology, has_node. by intros [= -> -> -> -> ->]. Qed.

(** One has the fleet if one has another of the same topology. *)
Lemma has_fleet_topology term t nodes1 nodes2 :
  topology <$> sort_by cn_ID nodes1 = topology <$> sort_by cn_ID nodes2 ->
  has_fleet term nodes1 t -> has_fleet term nodes2 t.
Proof.
  unfold has_fleet. rewrite !Forall_forall. intros E H b Hb.
  assert (topology b ∈ topology <$> sort_by cn_ID nodes1) as (a & Ea & Ha)%list_elem_of_fmap.
  { rewrite E. apply list_elem_of_fmap. exists b. split; [done|]. by apply sort_by_elem. }
  eapply has_node_topology; [symmetry; exact Ea|]. apply H. by eapply sort_by_elem.
Qed.

Lemma labels_written id l : forall t, NoDup l.*1 ->
  node_rows (foldl (fun t kv => UpsertNodeLabel id kv.1 kv.2 t) t l) = node_rows t
  /\ forall id' key, node_labels (foldl (fun t kv => UpsertNodeLabel id kv.1 kv.2 t) t l) !! (id', key)
     = if decide (id' = id) then
         match (list_to_map l : gmap string string) !! key with
         | Some v => Some v
         | None => node_labels t !! (id', key)
         end
       else node_labels t !! (id', key).
Proof.
  induction l as [|[k v] l IH]; intros t Hn; cbn [foldl].
  - split; [done|]. intros id' key. by case_decide; rewrite ?lookup_empty.
  - apply NoDup_cons in Hn as [Hk Hn]. destruct (IH (UpsertNodeLabel id k v t) Hn) as [E1 E2].
    split; [exact E1|]. intros id' key. etransitivity; [apply E2|]. cbn.
    assert ((list_to_map l : gmap string string) !! k = None) as Hkl by (by apply not_elem_of_list_to_map_1).
    rewrite (lookup_insert (list_to_map l)). repeat case_decide; subst; rewrite ?Hkl;
      rewrite ?lookup_insert_eq, ?lookup_insert_ne by congruence; done.
Qed.

(** The tables have exactly what an observation writes of a node. *)
Definition wrote (term : Z) (observed : Time.t) (t : fleet_tables) (node : ConfiguredNode) : Prop :=
  node_rows t !! cn_ID node = Some (mkNodeRow (cn_Address node) (cn_Role node) (cn_Status node) term
                                      (postgresTimestamp (cn_LastSeen node)) observed)
  /\ forall key, node_labels t !! (cn_ID node, key) = cn_Labels node !! key.

Lemma wrote_has term observed t node : wrote term observed t node -> has_node term t node.
Proof. intros [E1 E2]. split; [by eexists|done]. Qed.

Lemma node_statements_spec term observed node t t' :
  node_statements term observed node t = Some t' ->
  wrote term observed t' node
  /\ (forall id, id <> cn_ID node -> node_rows t' !! id = node_rows t !! id)
  /\ (forall id key, id <> cn_ID node -> node_labels t' !! (id, key) = node_labels t !! (id, key)).
Proof.
  unfold node_statements, UpsertNode. destruct (0 <=? _); cbn; [|done]. intros [= <-].
  set (t1 := DeleteNodeLabels _ _). destruct (labels_written (cn_ID node) (map_to_list (cn_Labels node)) t1)
    as [E1 E2]; [apply NoDup_fst_map_to_list|].
  split_and!.
  - split.
    + rewrite E1. cbn. by rewrite lookup_insert_eq.
    + intros key. rewrite E2. rewrite decide_True by done. rewrite list_to_map_to_list.
      destruct (cn_Labels node !! key); [done|]. cbn.
      rewrite (map_lookup_filter_None _ _ (cn_ID node, key)). right. intros x _ Hne. by apply Hne.
  - intros id Hne. rewrite E1. cbn. by rewrite lookup_insert_ne.
  - intros id key Hne. rewrite E2, decide_False by done. cbn.
    destruct (node_labels t !! (id, key)) as [v|] eqn:El.
    + apply map_lookup_filter_Some. done.
    + apply map_lookup_filter_None. by left.
Qed.

Lemma wrote_frame term observed t t' node :
  node_rows t' !! cn_ID node = node_rows t !! cn_ID node ->
  (forall key, node_labels t' !! (cn_ID node, key) = node_labels t !! (cn_ID node, key)) ->
  wrote term observed t node -> wrote term observed t' node.
Proof. intros E1 E2 [H1 H2]. split; [by rewrite E1|]. intros key. by rewrite E2. Qed.

Lemma fleet_statements_spec term observed nodes : forall t t', NoDup (cn_ID <$> nodes) ->
  fleet_statements term observed nodes t = Some t' ->
  Forall (wrote term observed t') nodes
  /\ (forall id, id ∉ (cn_ID <$> nodes) -> node_rows t' !! id = node_rows t !! id)
  /\ (forall id key, id ∉ (cn_ID <$> nodes) -> node_labels t' !! (id, key) = node_labels t !! (id, key)).
Proof.
  unfold fleet_statements. induction nodes as [|n nodes IH]; intros t t' Hn H.
  - injection H as ->. split; [constructor|done].
  - rewrite fmap_cons in *. apply NoDup_cons in Hn as [Hni Hn]. cbn [foldl] in H. cbn [mbind option_bind] in H.
    destruct (node_statements term observed n t) as [t1|] eqn:E1.
    + destruct (node_statements_spec _ _ _ _ _ E1) as (A1 & A2 & A3).
      destruct (IH t1 t' Hn H) as (B1 & B2 & B3). split_and!.
      * constructor; [|done]. apply (wrote_frame _ _ t1); [by apply B2|intros key; by apply B3|done].
      * intros id [Hne Hni']%not_elem_of_cons. rewrite B2 by done. by apply A2.
      * intros id key [Hne Hni']%not_elem_of_cons. rewrite B3 by done. by apply A3.
    + exfalso. clear -H. induction nodes; done.
Qed.

Lemma row_persisted_has term observed t node : row_persisted term observed t node = true ->
  has_node term t node.
Proof.
  unfold row_persisted. destruct (node_rows t !! cn_ID node) as [row|] eqn:Er; [|done].
  intros [H1%bool_decide_eq_true H2%bool_decide_eq_true]%andb_prop. split.
  - exists row. by subst row.
  - intros key. transitivity (base.filter (fun kv => kv.1.1 = cn_ID node) (node_labels t) !! (cn_ID node, key)).
    + destruct (node_labels t !! (cn_ID node, key)) as [v|] eqn:El; symmetry.
      * by apply map_lookup_filter_Some.
      * apply map_lookup_filter_None. by left.
    + rewrite H2. apply (lookup_kmap (fun k => (cn_ID node, k))).
Qed.

Lemma wrote_persisted term observed t node :
  wrote term observed t node -> row_persisted term observed t node = true.
Proof.
  intros [E1 E2]. unfold row_persisted. rewrite E1, !bool_decide_eq_true_2; [done| |done].
  apply map_eq. intros [id key]. destruct (decide (id = cn_ID node)) as [->|Hne].
  - rewrite (lookup_kmap (fun k => (cn_ID node, k))), <-E2.
    destruct (node_labels t !! (cn_ID node, key)) as [v|] eqn:El.
    + by apply map_lookup_filter_Some.
    + apply map_lookup_filter_None. by left.
  - transitivity (@None string); [|symmetry].
    + apply map_lookup_filter_None. right. intros x _. cbn. done.
    + apply lookup_kmap_None; [apply _|]. intros k. congruence.
Qed.

Section current.
Context (persistenceWindow : Time.Duration) (labels : gmap string (gmap string string)).
Abbreviation record := (recordFleetContext persistenceWindow labels).

(** The commit of the write is not both performed and unknown. *)
Definition confirmed (o : offer) : Prop :=
  of_Ending o = CommitFailed true -> of_Readable o = true.

Record recorded (r : recorder) : Prop := {
  rc_key : lastFleetKey r = "" \/ exists term nodes,
    lastFleetKey r = fleetPersistenceKey term nodes /\ has_fleet (Z.of_N term) nodes (tables r);
  rc_fault : Time.IsZero (lastFleetFailure r) = false -> is_Some (faults r !! faultFleet);
}.

Lemma key_nonempty term nodes : fleetPersistenceKey term nodes <> "".
Proof.
  unfold fleetPersistenceKey, writeFleetKeyPart at 1.
  by destruct (pretty (N.of_nat (String.length (pretty term)))).
Qed.

(** A transaction and the reads after it: either it is known to be there, or it is not. *)
Lemma transaction_known o t t' e : NoDup (cn_ID <$> configured labels o) -> confirmed o ->
  fleet_transaction (of_Ending o)
    (fleet_statements (term_of o) (observed_of o) (configured labels o)) t = (t', e) ->
  match reconcileCommitError (of_Readable o)
          (fleetObservationPersisted (term_of o) (observed_of o) (configured labels o) t') e with
  | None => has_fleet (term_of o) (configured labels o) t'
  | Some _ => t' = t
  end.
Proof.
  intros Hn Hc. unfold fleet_transaction.
  destruct (fleet_statements _ _ _ t) as [t1|] eqn:Es; [|by intros [= <- <-]].
  apply fleet_statements_spec in Es as Hs; [|done]. destruct Hs as (Hw & _).
  assert (has_fleet (term_of o) (configured labels o) t1) as Hf
    by (eapply Forall_impl; [exact Hw|apply wrote_has]).
  destruct (of_Ending o) as [|drawn|[|]] eqn:Ee; intros [= <- <-]; cbn; try done.
  - rewrite (Hc Ee). cbn. destruct (fleetObservationPersisted _ _ _ _) eqn:Ep; [done|].
    unfold fleetObservationPersisted in Ep. case_bool_decide as Enil.
    + rewrite Enil in Es. by injection Es.
    + cbn in Ep. assert (forallb (row_persisted (term_of o) (observed_of o) t1) (configured labels o) = true)
        as E; [|congruence].
      apply forallb_forall. intros n Hin%list_elem_of_In. apply wrote_persisted.
      rewrite Forall_forall in Hw. by apply Hw.
  - destruct (of_Readable o && fleetObservationPersisted _ _ _ _) eqn:Ep; [|done].
    apply andb_prop in Ep as [_ [_ Ep]%andb_prop]. apply Forall_forall. intros n Hin.
    eapply row_persisted_has. rewrite forallb_forall in Ep. apply Ep. by apply list_elem_of_In.
Qed.

Lemma record_recorded o r : NoDup (cn_ID <$> configured labels o) -> confirmed o -> recorded r ->
  recorded (record o r)
  /\ (faults (record o r) !! faultFleet = None ->
        has_fleet (term_of o) (configured labels o) (tables (record o r))).
Proof.
  intros Hn Hc [Hk Hf]. unfold recordFleetContext. destruct (max_int64 <? term_of o).
  { split; [split; [done|]|]; cbn.
    - intros _. rewrite lookup_insert_eq. by eexists.
    - by rewrite lookup_insert_eq. }
  destruct (bool_decide _ && _) eqn:Esame.
  { apply andb_prop in Esame as [Esame%bool_decide_eq_true _]. split; [split; [done|]; cbn; done|].
    intros _. cbn. destruct Hk as [Hk|(term & nodes & Hk & Hh)].
    - rewrite Hk in Esame. by apply key_nonempty in Esame.
    - rewrite Hk in Esame. apply fleet_key_inj in Esame as [Et Etopo].
      unfold term_of. rewrite Et. by eapply has_fleet_topology. }
  destruct (negb _ && _) eqn:Eback.
  { apply andb_prop in Eback as [Eback%negb_true_iff _]. split; [done|].
    intros Hnone. specialize (Hf Eback) as [? ?]. congruence. }
  destruct (fleet_transaction _ _ _) as [t' e] eqn:Et.
  pose proof (transaction_known o (tables r) t' e Hn Hc Et) as Hknown.
  destruct (reconcileCommitError _ _ _) as [err|]; cbn.
  - split; [|by rewrite lookup_insert_eq]. split; cbn; [by rewrite Hknown|].
    intros _. rewrite lookup_insert_eq. by eexists.
  - split; [|done]. split; cbn; [|done]. right. by exists (Fleet.Term (of_Snapshot o)), (configured labels o).
Qed.

(** The record of the fleet is current.  However the polls of Warden are coalesced,
    delayed after a failure or met by a failing database, a call that leaves no fault of the
    fleet leaves every node it was offered in the tables, with its address, role, status,
    term and labels: what is left out is already there.  A commit that was performed and can
    not be confirmed is the exception. *)
Theorem fleet_rows_are_current (t0 : fleet_tables) (offers : list offer) (o : offer)
  (Hn : Forall (fun o => NoDup (cn_ID <$> configured labels o)) (offers ++ [o]))
  (Hc : Forall confirmed (offers ++ [o])) :
  let r := foldl (fun r o => record o r) (new_recorder t0) (offers ++ [o]) in
  faults r !! faultFleet = None -> has_fleet (term_of o) (configured labels o) (tables r).
Proof.
  cbv zeta. rewrite foldl_app. cbn [foldl].
  apply Forall_app in Hn as [Hn [Hno _]%Forall_cons_1], Hc as [Hc [Hco _]%Forall_cons_1].
  enough (recorded (foldl (fun r o => record o r) (new_recorder t0) offers)) as Hr
    by (by apply record_recorded).
  assert (recorded (new_recorder t0)) as H0 by (split; [by left|intros H; discriminate H]).
  revert H0. generalize (new_recorder t0) as r. clear Hno Hco.
  induction offers as [|o1 offers IH]; intros r Hr; [done|].
  apply Forall_cons in Hn as [Hn1 Hn], Hc as [Hc1 Hc]. cbn [foldl].
  apply IH; [done..|]. by apply record_recorded.
Qed.
End current.

(** ** Polls *)

Module FleetDemo.
Definition seen (term : N) (status : string) : Fleet.Snapshot :=
  Fleet.mkSnapshot "n1" "n1" term true true 1 1
    [Fleet.mkNode "n1" "n1" "worker" status "10.0.0.1:7717" 5000] 6000 "".
Definition labels : gmap string (gmap string string) := {["n1" := {["disk" := "ssd"]}]}.
Definition poll (term : N) (status : string) (now : Time.t) (w : ending) (readable : bool) : offer :=
  mkOffer (seen term status) now now w readable now.
Definition play (os : list offer) : recorder :=
  foldl (fun r o => recordFleetContext 100 labels o r) (new_recorder (mkFleetTables ∅ ∅)) os.
Definition status_of (r : recorder) : option string := nr_Status <$> node_rows (tables r) !! "n1".
End FleetDemo.
Import FleetDemo.

Lemma fleet_rows_are_current_witness :
  has_fleet 3 (WithConfiguration (seen 3 "dead") labels)
    (tables (play [poll 3 "alive" 10 Committed true; poll 3 "alive" 20 Committed true;
                   poll 3 "dead" 30 (CommitFailed true) true])).
Proof.
  apply (fleet_rows_are_current 100 labels (mkFleetTables ∅ ∅)
    [poll 3 "alive" 10 Committed true; poll 3 "alive" 20 Committed true]
    (poll 3 "dead" 30 (CommitFailed true) true)).
  - repeat constructor; set_solver.
  - repeat constructor; done.
  - vm_compute. reflexivity.
Defined.

(** A finding: a write that was performed and could not be confirmed, then the observation
    before it again: the call finds the key of its last confirmed write, clears the fault and
    leaves the rows of the write in between. *)
Theorem coalescing_leaves_other_rows :
  let r := play [poll 3 "alive" 10 Committed true; poll 3 "dead" 20 (CommitFailed true) false;
                 poll 3 "alive" 30 Committed true] in
  faults r !! faultFleet = None /\ status_of r = Some "dead".
Proof. vm_compute. auto. Qed.
Close Scope Z_scope.
