(* ===== verification/OsControl.v ===== *)
(** * CandaceOS: the control runtime

    [services/candaceos/control/runtime.go]: the hooks that make the controller's events
    durable, the faults that stop the operator's work while they are not, the gate in front
    of an approval, and the projections of the snapshot that a browser renders.  The queue
    of OsApprovals.v and the tables of OsStore.v then run together, a hook failing when its
    record does. *)
From Stdlib Require Import Ascii.
From stdpp Require Import pretty.
From S2P Require Import Prelude.
From S2P Require Import GoStd.
From S2P Require Import OsFleet.
From S2P Require Import OsStore.
From S2P Require Import OsApprovals.
From S2P Require Import OsController.
From S2P Require Import OsTurns.
From S2P Require Import OsGate.
From S2P Require Import OsFleetRecord.

Open Scope Z_scope.

(** ** The hooks *)

Definition faultRunStarted : string := "run_started:".
Definition faultRunStatus : string := "run_status:".
Definition faultApprovalRequested : string := "approval_requested:".
Definition faultApprovalResolution : string := "approval_resolution:".

(** A fault is remembered for good: only the fleet's is ever taken away. *)
Definition rememberRecordError (key : string) (err : option tx_error) (faults : faults_map) : faults_map :=
  match err with
  | Some _ => rememberError key err faults
  | None => faults
  end.

Definition durableFault (faults : faults_map) : option (list string) :=
  if bool_decide (faults = ∅) then None
  else Some (sort_by (fun k => k) (map_to_list faults).*1).

(** The faults before and after the ping. *)
Definition requireDurable (before : faults_map) (ping : bool) (after : faults_map) : bool :=
  bool_decide (durableFault before = None) && ping && bool_decide (durableFault after = None).
Definition Health (ping : bool) (faults : faults_map) : bool :=
  ping && bool_decide (durableFault faults = None).

(** A transaction and what its caller makes of it, given the end, whether the reads after
    an ambiguous commit get through, and what they look for. *)
Definition record_tx (w : ending) (readable : bool) (fn : database -> result string database)
  (found : database -> bool) (d : database) : database * option tx_error :=
  let '(d', out) := WithTx w (fun d => let! d := fn d in Ok (d, tt)) d in
  (d', reconcileCommitError readable (found d')
         (match out with Ok _ => None | Err e => Some e end)).

Definition run_row (event : RunStarted) : OperatorRun :=
  mkOperatorRun (rs_SessionID event) (rs_Title event) (rs_Prompt event) "running" (rs_At event) None.
Definition recordRunStarted (w : ending) (readable : bool) (summary modelDigest : string)
  (event : RunStarted) : database -> database * option tx_error :=
  record_tx w readable
    (fun d =>
       let! d := stmt "run" (CreateRun (rs_RunID event) (run_row event) d) in
       Ok (AppendReceipt "operator_run" (rs_RunID event) "run.started" summary modelDigest
             (rs_At event) d).1)
    (fun d => match operator_runs d !! rs_RunID event with
              | Some row => bool_decide (or_SessionID row = rs_SessionID event)
                            && bool_decide (or_Title row = rs_Title event)
                            && bool_decide (or_Prompt row = rs_Prompt event)
                            && bool_decide (or_Status row = "running")
              | None => false
              end).

Definition recordRunStatus (w : ending) (readable : bool) (runID status : string) (at_ : Time.t)
  : database -> database * option tx_error :=
  record_tx w readable
    (fun d =>
       let! updated := stmt "run" (UpdateRunStatus runID status (Some at_) d) in
       let '(d, rows) := updated in
       guard! rows =? 1 else "expected one operator run" in
       Ok (AppendReceipt "operator_run" runID ("run." +:+ status) ("Agent run " +:+ status) "" at_ d).1)
    (fun d => match operator_runs d !! runID with
              | Some row => bool_decide (or_Status row = status)
                            && bool_decide (is_Some (or_FinishedAt row))
              | None => false
              end).

Definition approval_row (a : Approval) : OperatorApproval :=
  mkOperatorApproval (optionalText (RunID a)) (optionalText (ToolCallID a)) (Kind a) (Title a)
    (Detail a) (Risk a) (PayloadSHA256 a) "pending" (RequestedAt a) (ExpiresAt a) None None.
Definition requested_found (a : Approval) (d : database) : bool :=
  match operator_approvals d !! ID a with
  | Some row => bool_decide (oa_RunID row = optionalText (RunID a))
                && bool_decide (oa_ToolCallID row = optionalText (ToolCallID a))
                && bool_decide (oa_RequestKind row = Kind a) && bool_decide (oa_Title row = Title a)
                && bool_decide (oa_Detail row = Detail a) && bool_decide (oa_Risk row = Risk a)
                && bool_decide (oa_PayloadSha256 row = PayloadSHA256 a)
                && bool_decide (oa_Status row = "pending")
  | None => false
  end.
Definition recordApprovalRequested (w : ending) (readable : bool) (a : Approval)
  : database -> database * option tx_error :=
  record_tx w readable
    (fun d =>
       let! d := stmt "approval" (CreateApproval (ID a) (approval_row a) d) in
       Ok (AppendReceipt "approval" (ID a) "approval.requested" (Title a) (PayloadSHA256 a)
             (RequestedAt a) d).1)
    (requested_found a).

Definition approval_status (decision : string) : string :=
  if bool_decide (decision = DecisionApprove) then "approved"
  else if bool_decide (decision = DecisionReject) then "rejected" else decision.
Definition resolution_found (r : ApprovalResolution) (d : database) : bool :=
  match operator_approvals d !! ID (r_Approval r) with
  | Some row => bool_decide (oa_Status row = approval_status (Decision r))
                && bool_decide (is_Some (oa_ResolvedAt row))
                && bool_decide (oa_ResolvedBy row = optionalText (Actor r))
  | None => false
  end.
Definition recordApprovalResolved (w : ending) (readable : bool) (r : ApprovalResolution)
  : database -> database * option tx_error :=
  let status := approval_status (Decision r) in
  let a := r_Approval r in
  record_tx w readable
    (fun d =>
       let! updated := stmt "approval" (ResolveApproval status (At r) (optionalText (Actor r)) (ID a) d) in
       let '(d, rows) := updated in
       guard! rows =? 1 else "expected one pending approval" in
       Ok (AppendReceipt "approval" (ID a) ("approval." +:+ status) (Title a) (PayloadSHA256 a) (At r) d).1)
    (resolution_found r).

(** The gate of [ResolveApproval] in front of the queue's [Resolve]. *)
Definition approval_blocked (id decision : string) (fleet : Fleet.Snapshot) (q : queue) : bool :=
  bool_decide (decision = DecisionApprove)
  && match Get id q with
     | Some a => RequiresFleetQuorum a && negb (Fleet.CanMutate fleet)
     | None => false
     end.
Definition Runtime_ResolveApproval (k : nat) (id decision : string) (fleet : Fleet.Snapshot)
  (at_ : Time.t) (q : queue) : queue :=
  if approval_blocked id decision fleet q then q
  else (Resolve k id decision approvalActorWebOperatorKey at_ q).1.

(** [describeNonPendingApproval]: what is said of an approval the queue does not have. *)
Inductive not_pending :=
| NoRecord | AlreadyResolved (status : string) (actor : option string) (at_ : Time.t)
| NotOurs (status : string).
Definition describeNonPendingApproval (id : string) (d : database) : not_pending :=
  match operator_approvals d !! id with
  | None => NoRecord
  | Some record =>
      match oa_ResolvedAt record with
      | Some at_ => AlreadyResolved (oa_Status record) (oa_ResolvedBy record) at_
      | None => NotOurs (oa_Status record)
      end
  end.

(** ** The snapshot *)

(** The columns of [ListDeploymentRolloutRows] that the snapshot reads. *)
Record RolloutRowsRow := mkRolloutRowsRow {
  rr_DeploymentID : string;
  rr_AppName : string;
  rr_WorkspacePath : string;
  rr_DesiredState : string;
  rr_SourceRevision : string;
  rr_UpdatedAt : Time.t;
  rr_LatestRolloutID : string;
  rr_LatestStatus : string;
  rr_LatestDryRun : bool;
  rr_LatestFinishedAt : option Time.t;
  rr_PossiblyActiveNodeIds : list string;
}.
Record deploymentRollout := mkDeploymentRollout {
  row : RolloutRowsRow;
  nodeIDs : list string;
  latestStatus : string;
  latestDryRun : bool;
  dryRunSet : bool;
  latestFinishedAt : option Time.t;
}.
#[export] Instance Rebuild_deploymentRollout : Rebuild deploymentRollout := fun r =>
  mkDeploymentRollout (row r) (nodeIDs r) (latestStatus r) (latestDryRun r) (dryRunSet r)
    (latestFinishedAt r).

(** A status that the map does not have is of rank 0. *)
Definition status_rank (status : string) : nat :=
  if bool_decide (status = "succeeded") then 1
  else if bool_decide (status = "running") then 2
  else if bool_decide (status = "failed") then 3 else 0.
Definition aggregateRolloutStatus (current candidate : string) : string :=
  if (status_rank current <? status_rank candidate)%nat then candidate else current.

Definition later (candidate current : option Time.t) : option Time.t :=
  match candidate, current with
  | Some t, None => Some t
  | Some t, Some t' => if Time.After t t' then Some t else Some t'
  | None, _ => current
  end.

Definition new_rollout (r : RolloutRowsRow) : deploymentRollout :=
  mkDeploymentRollout r (rr_PossiblyActiveNodeIds r) "pending" false false None.
Definition add_row (r : RolloutRowsRow) (rollout : deploymentRollout) : deploymentRollout :=
  if bool_decide (rr_LatestRolloutID r = "") then rollout
  else rollout
    <| latestStatus ::= fun s => aggregateRolloutStatus s (rr_LatestStatus r) |>
    <| latestDryRun := if dryRunSet rollout then latestDryRun rollout && rr_LatestDryRun r
                       else rr_LatestDryRun r |>
    <| dryRunSet := true |>
    <| latestFinishedAt ::= later (rr_LatestFinishedAt r) |>.

(** One row: the rollouts so far and the index of the one of each deployment. *)
Definition rollouts_step (acc : list deploymentRollout * gmap string nat) (r : RolloutRowsRow)
  : list deploymentRollout * gmap string nat :=
  let '(rollouts, indexByDeployment) := acc in
  let '(index, rollouts, indexByDeployment) :=
    match indexByDeployment !! rr_DeploymentID r with
    | Some index => (index, rollouts, indexByDeployment)
    | None => (length rollouts, rollouts ++ [new_rollout r],
               <[rr_DeploymentID r := length rollouts]> indexByDeployment)
    end in
  (alter (add_row r) index rollouts, indexByDeployment).
Definition aggregateDeploymentRollouts (rows : list RolloutRowsRow) : list deploymentRollout :=
  (foldl rollouts_step ([], ∅) rows).1.

Definition shortRevision (value : string) : string :=
  if (String.length value <=? 12)%nat then value else String.substring 0 12 value.

Record WebUIApp := mkWebUIApp {
  wa_Id : string;
  wa_Name : string;
  wa_Summary : string;
  wa_Status : string;
  wa_NodeId : string;
  wa_NodeIds : list string;
  wa_Revision : string;
  wa_UpdatedAt : Time.t;
}.
Definition app_view (d : deploymentRollout) : WebUIApp :=
  let status :=
    if latestDryRun d && bool_decide (latestStatus d = "succeeded") then "planned"
    else if bool_decide (latestStatus d = "succeeded") then rr_DesiredState (row d)
    else latestStatus d in
  {| wa_Id := rr_DeploymentID (row d); wa_Name := rr_AppName (row d);
     wa_Summary := "Compose app from " +:+ rr_WorkspacePath (row d); wa_Status := status;
     wa_NodeId := Join ", " (nodeIDs d); wa_NodeIds := nodeIDs d;
     wa_Revision := shortRevision (rr_SourceRevision (row d));
     wa_UpdatedAt := default (rr_UpdatedAt (row d)) (latestFinishedAt d) |}.
(** [appsPerNode] *)
Definition apps_on (node : string) (apps : list WebUIApp) : nat :=
  foldr (fun app n =>
           (if bool_decide (wa_Status app = "stopped") then 0
            else length (filter (fun id => id = node) (wa_NodeIds app))) + n)%nat 0%nat apps.

Definition has_prefix (prefix s : string) : bool := String.prefix prefix s.
Definition has_suffix (suffix s : string) : bool :=
  bool_decide (is_Some (strip (reverse (String.list_ascii_of_string suffix))
                          (reverse (String.list_ascii_of_string s)))).
Definition activityKind (kind : string) : string :=
  if has_prefix "deployment." kind then "deploy"
  else if has_prefix "approval." kind then "approval" else "run".
Definition activityStatus (kind : string) : string :=
  if has_suffix ".failed" kind || has_suffix ".rejected" kind || has_suffix ".expired" kind
     || has_suffix ".interrupted" kind then "failed"
  else if has_suffix ".requested" kind || has_suffix ".started" kind then "pending"
  else if has_suffix ".dry_run" kind then "planned" else "succeeded".

(** [systemView], but for the identity: the status and its summary. *)
Definition systemView (snapshot : Fleet.Snapshot) (c : controllerPhase) (faults : faults_map)
  : string * string :=
  let healthy := ("healthy", pretty (length (Fleet.Nodes snapshot)) +:+ " nodes · quorum healthy") in
  let view :=
    if negb (bool_decide (Fleet.Error snapshot = "")) || negb (Fleet.HasQuorum snapshot)
       || negb (Fleet.Authoritative snapshot) || bool_decide (Fleet.LeaderID snapshot = "")
    then ("warning", "Read-only until Warden has an authoritative leader and quorum") else healthy in
  let view :=
    match c with
    | controllerStarting | controllerStopped =>
        ("unavailable", "Agent runtime is " +:+ controllerPhase_String c)
    | _ => view
    end in
  match durableFault faults with
  | Some _ => ("warning", "A durable control-plane write needs attention")
  | None => view
  end.
Close Scope Z_scope.
