(* ===== verification/OsDesk.v ===== *)
(** * CandaceOS: approvals on record

    The queue of OsApprovals.v with the hooks of OsControl.v: a hook fails when its record
    does, and the row of an approval follows the queue through failed and ambiguous commits. *)
From S2P Require Import Prelude.
From S2P Require Import OsFleet.
From S2P Require Import OsStore.
From S2P Require Import OsApprovals.
From S2P Require Import OsGate.
From S2P Require Import OsFleetRecord.
From S2P Require Import OsControl.

Open Scope Z_scope.

(** ** The system *)

Record desk := mkDesk { desk_queue : queue; desk_db : database; steps : list event }.

(** A step of the queue, with the end of the transaction of its hook, if it has one; or a
    transaction that leaves the approvals alone. *)
Inductive desk_event :=
| Step (e : event) (w : ending) (readable : bool)
| Elsewhere (d : database).

(** The step with the answer of its hook, and the database after it. *)
Definition hooked (e : event) (w : ending) (readable : bool) (q : queue) (d : database)
  : event * database :=
  let failed err := bool_decide (is_Some (A := tx_error) err) in
  match e with
  | ERequested id _ contextDone now =>
      match waiters q !! id, recording q !! id with
      | Some Recording, Some p =>
          let '(d, err) := recordApprovalRequested w readable (approval p) d in
          (ERequested id (failed err) contextDone now, d)
      | _, _ => (e, d)
      end
  | EVoided id _ =>
      match waiters q !! id with
      | Some (Voiding r _) =>
          let '(d, err) := recordApprovalResolved w readable r d in (EVoided id (failed err), d)
      | _ => (e, d)
      end
  | EHooked k _ =>
      match finishers q !! k with
      | Some (Claimed _ r _) =>
          let '(d, err) := recordApprovalResolved w readable r d in (EHooked k (failed err), d)
      | _ => (e, d)
      end
  | _ => (e, d)
  end.

Section desk.
Context (timeout : Time.Duration) (hash : string -> string).

Definition desk_step (s : desk) (e : desk_event) : desk :=
  match e with
  | Step e w readable =>
      let '(e, d) := hooked e w readable (desk_queue s) (desk_db s) in
      mkDesk (step timeout hash (desk_queue s) e) d (steps s ++ [e])
  | Elsewhere d => mkDesk (desk_queue s) d (steps s)
  end.

(** The identifier of a request is new to the table too. *)
Definition desk_possible (s : desk) (e : desk_event) : Prop :=
  match e with
  | Step e _ _ =>
      possible (desk_queue s) e
      /\ match e with
         | ERequest id _ _ _ => operator_approvals (desk_db s) !! id = None
         | _ => True
         end
  | Elsewhere d => operator_approvals d = operator_approvals (desk_db s)
  end.

Inductive desk_reachable : desk -> Prop :=
| desk_new d : desk_reachable (mkDesk NewApprovalQueue d [])
| desk_next s e : desk_reachable s -> desk_possible s e -> desk_reachable (desk_step s e).

(** ** Rows *)

Definition row_pending (d : database) (id : string) (a : Approval) : Prop :=
  exists row, operator_approvals d !! id = Some row /\ oa_Status row = "pending"
    /\ oa_PayloadSha256 row = PayloadSHA256 a /\ oa_ToolCallID row = optionalText (ToolCallID a).
Definition row_resolved (d : database) (id : string) (r : ApprovalResolution) : Prop :=
  exists row, operator_approvals d !! id = Some row
    /\ oa_Status row = approval_status (Decision r)
    /\ oa_ResolvedAt row = Some (stamp (At r)) /\ oa_ResolvedBy row = optionalText (Actor r)
    /\ oa_PayloadSha256 row = PayloadSHA256 (r_Approval r)
    /\ oa_ToolCallID row = optionalText (ToolCallID (r_Approval r)).

(** How a record ends: what it writes is there or not, and if it is said to be there it is,
    or it was found. *)
Lemma record_tx_spec w readable fn found d d' err :
  record_tx w readable fn found d = (d', err) ->
  match fn d with
  | Err _ => d' = d /\ err <> None
  | Ok d1 => operator_approvals d' = operator_approvals d1
             \/ (operator_approvals d' = operator_approvals d /\ (err = None -> found d' = true))
  end.
Proof.
  unfold record_tx, WithTx. destruct (fn d) as [d1|what]; cbn; [|by intros [= <- <-]].
  destruct w as [|drawn|[]]; intros [= <- <-]; auto.
  all: right; split; [done|]; cbn; by destruct readable; [destruct (found _)|].
Qed.

Lemma create_approval_spec a d d1 : CreateApproval (ID a) (approval_row a) d = Some d1 ->
  operator_approvals d !! ID a = None
  /\ exists row, operator_approvals d1 = <[ID a := row]> (operator_approvals d)
     /\ oa_Status row = "pending" /\ oa_PayloadSha256 row = PayloadSHA256 a
     /\ oa_ToolCallID row = optionalText (ToolCallID a).
Proof.
  unfold CreateApproval, fresh. destruct (bool_decide _) eqn:E; [|done].
  apply bool_decide_eq_true in E. destruct (match oa_RunID _ with Some _ => _ | None => _ end); [|done].
  destruct (one_of _ _); [|done]. intros [= <-]. split; [done|]. by eexists.
Qed.

(** A record of a request that does not fail has its row, and no other row is touched. *)
Lemma requested_recorded w readable a d d' err :
  recordApprovalRequested w readable a d = (d', err) ->
  operator_approvals d !! ID a = None ->
  (err = None -> row_pending d' (ID a) a)
  /\ forall id, id <> ID a -> operator_approvals d' !! id = operator_approvals d !! id.
Proof.
  intros H Hnew. apply record_tx_spec in H.
  destruct (CreateApproval (ID a) (approval_row a) d) as [d1|] eqn:Ec; cbn in H.
  - apply create_approval_spec in Ec as (_ & row & E & E1 & E2 & E3).
    destruct H as [H|[H Hf]]; cbn in H; rewrite H.
    + rewrite E. split; [|intros id Hne; by rewrite lookup_insert_ne].
      intros _. exists row. rewrite H, E, lookup_insert_eq. done.
    + split; [|done]. intros He. specialize (Hf He). unfold requested_found in Hf.
      by rewrite H, Hnew in Hf.
  - destruct H as [-> Hne]. done.
Qed.

(** A record of a resolution: the row is resolved, or is as it was and the record failed. *)
Lemma resolved_recorded w readable r d d' err :
  recordApprovalResolved w readable r d = (d', err) ->
  row_pending d (ID (r_Approval r)) (r_Approval r) ->
  (approval_status (Decision r) = "approved" \/ approval_status (Decision r) = "rejected"
   \/ approval_status (Decision r) = "expired") ->
  (row_resolved d' (ID (r_Approval r)) r
   \/ (err <> None /\ operator_approvals d' !! ID (r_Approval r) = operator_approvals d !! ID (r_Approval r)))
  /\ forall id, id <> ID (r_Approval r) -> operator_approvals d' !! id = operator_approvals d !! id.
Proof.
  intros H (row & Hrow & Hst & Hpay & Htool) Hd. apply record_tx_spec in H.
  assert (one_of (approval_status (Decision r)) ["pending"; "approved"; "rejected"; "expired"] = true) as Hone.
  { unfold one_of. apply bool_decide_eq_true. destruct Hd as [-> | [-> | ->]]; set_solver. }
  unfold ResolveApproval in H. rewrite Hrow, bool_decide_eq_true_2 in H by done.
  rewrite Hone in H. cbn in H. destruct H as [H|[H Hf]]; rewrite H.
  - split; [|intros id Hne; by rewrite lookup_insert_ne].
    left. eexists. rewrite H, lookup_insert_eq. done.
  - split; [|done]. right. split; [|done]. intros ->. specialize (Hf eq_refl).
    unfold resolution_found in Hf. rewrite H, Hrow, Hst in Hf.
    destruct Hd as [Hd|[Hd|Hd]]; rewrite Hd in Hf; done.
Qed.

(** ** The rows follow the queue *)

Definition proper (r : ApprovalResolution) : Prop :=
  Decision r = DecisionApprove \/ Decision r = DecisionReject \/ Decision r = DecisionExpired.
Lemma proper_status r : proper r ->
  approval_status (Decision r) = "approved" \/ approval_status (Decision r) = "rejected"
  \/ approval_status (Decision r) = "expired".
Proof. intros [-> | [-> | ->]]; vm_compute; auto. Qed.
Lemma approved_status r : proper r -> approval_status (Decision r) = "approved" ->
  Decision r = DecisionApprove.
Proof. intros [-> | [-> | ->]]; vm_compute; congruence. Qed.

Record followed (q : queue) (d : database) : Prop := {
  fo_new id : waiters q !! id = Some Recording -> operator_approvals d !! id = None;
  fo_pending id p : pending q !! id = Some p -> row_pending d id (approval p);
  fo_voiding id r c : waiters q !! id = Some (Voiding r c) -> proper r /\ row_pending d id (r_Approval r);
  fo_claim k id r rest : finishers q !! k = Some (Claimed id r rest) -> proper r;
  fo_log res : res ∈ resolved q -> proper (resolution res)
    /\ (row_resolved d (about res) (resolution res)
        \/ (hookFailed res = true /\ row_pending d (about res) (r_Approval (resolution res))));
}.

Lemma row_pending_same d d' id a :
  operator_approvals d' !! id = operator_approvals d !! id -> row_pending d id a -> row_pending d' id a.
Proof. intros E (row & H). exists row. by rewrite E. Qed.
Lemma row_resolved_same d d' id r :
  operator_approvals d' !! id = operator_approvals d !! id -> row_resolved d id r -> row_resolved d' id r.
Proof. intros E (row & H). exists row. by rewrite E. Qed.

(** A step that records nothing. *)
Lemma followed_less q q' d : followed q d ->
  (forall id, waiters q' !! id = Some Recording -> waiters q !! id = Some Recording
     \/ operator_approvals d !! id = None) ->
  (forall id p, pending q' !! id = Some p -> exists p', pending q !! id = Some p' /\ approval p' = approval p) ->
  (forall id r c, waiters q' !! id = Some (Voiding r c) -> waiters q !! id = Some (Voiding r c)) ->
  (forall k id r rest, finishers q' !! k = Some (Claimed id r rest) -> proper r) ->
  resolved q' = resolved q -> followed q' d.
Proof.
  intros [H1 H2 H3 H4 H5] Hr Hp Hv Hf Hl. split.
  - intros id Hid. destruct (Hr id Hid); auto.
  - intros id p Hid. destruct (Hp id p Hid) as (p' & Hp' & <-). by apply H2.
  - intros id r c Hid. by eapply H3, Hv.
  - done.
  - intros res. rewrite Hl. apply H5.
Qed.

Lemma followed_claim q d id decision actor at_ q1 r k rest w : followed q d ->
  finish_claim id decision actor at_ q = (q1, inr r) ->
  decision = DecisionApprove \/ decision = DecisionReject \/ decision = DecisionExpired ->
  (forall id, w !! id = Some Recording -> waiters q !! id = Some Recording) ->
  (forall id r c, w !! id = Some (Voiding r c) -> waiters q !! id = Some (Voiding r c)) ->
  followed (q1 <| waiters := w |> <| finishers ::= <[k := Claimed id r rest]> |>) d.
Proof.
  intros F E Hd Hw1 Hw2. apply finish_claim_spec in E as (p & Hp & _ & -> & _ & _ & _ & Hor).
  apply (followed_less q); try done; cbn.
  - intros id0 H0. left. by apply Hw1.
  - intros id0 p0. rewrite lookup_insert. case_decide as Ek; [|by eauto].
    intros [= <-]. exists p. by rewrite <-Ek.
  - intros k0 id0 r0 rest0. rewrite lookup_insert. case_decide; [|apply (fo_claim _ _ F)].
    intros [= <- <- <-]. unfold proper. destruct Hor as [-> | ->]; auto.
Qed.

(** The rows of other approvals. *)
Lemma followed_log q q' d d' res :
  followed q d ->
  (forall id, id <> about res -> operator_approvals d' !! id = operator_approvals d !! id) ->
  (forall id, id = about res -> waiters q' !! id <> Some Recording /\ pending q' !! id = None
     /\ (forall r c, waiters q' !! id <> Some (Voiding r c))) ->
  (forall id, id <> about res -> waiters q' !! id = waiters q !! id /\ pending q' !! id = pending q !! id) ->
  (forall k id r rest, finishers q' !! k = Some (Claimed id r rest) ->
     finishers q !! k = Some (Claimed id r rest)) ->
  resolved q' = resolved q ++ [res] -> (forall x, x ∈ resolved q -> about x <> about res) ->
  proper (resolution res) ->
  (row_resolved d' (about res) (resolution res)
   \/ (hookFailed res = true /\ row_pending d' (about res) (r_Approval (resolution res)))) ->
  followed q' d'.
Proof.
  intros [H1 H2 H3 H4 H5] Hd Hgone Hsame Hf Hl Hnew Hprop Hrow. split.
  - intros id Hid. destruct (decide (id = about res)) as [->|Hne];
      [by destruct (Hgone _ eq_refl) as (? & _)|]. rewrite (Hd _ Hne). apply H1. by rewrite <-(proj1 (Hsame _ Hne)).
  - intros id p Hid. destruct (decide (id = about res)) as [->|Hne];
      [by destruct (Hgone _ eq_refl) as (_ & E & _); rewrite E in Hid|].
    eapply row_pending_same; [by apply Hd|]. apply H2. by rewrite <-(proj2 (Hsame _ Hne)).
  - intros id r c Hid. destruct (decide (id = about res)) as [->|Hne];
      [by destruct (Hgone _ eq_refl) as (_ & _ & E); destruct (E r c)|].
    rewrite (proj1 (Hsame _ Hne)) in Hid. destruct (H3 _ _ _ Hid) as [Hp Hr]. split; [done|].
    eapply row_pending_same; [by apply Hd|done].
  - intros k id r rest Hk. by eapply H4, Hf.
  - rewrite Hl. intros x [Hx| ->%list_elem_of_singleton]%elem_of_app; [|done].
    destruct (H5 x Hx) as [Hp Hor]. split; [done|]. specialize (Hd _ (Hnew x Hx)).
    destruct Hor as [Hor|[Hh Hor]]; [left; by eapply row_resolved_same|right; split; [done|]; by eapply row_pending_same].
Qed.

Ltac lookups :=
  repeat match goal with
  | |- forall _, _ => intro
  | H : <[_ := _]> _ !! _ = Some _ |- _ => apply lookup_insert_Some in H as [[? ?]|[? ?]]; simplify_eq
  | H : delete _ _ !! _ = Some _ |- _ => apply lookup_delete_Some in H as [? ?]
  end.

Lemma followed_requested q d id cd now p w readable d' err :
  inv q -> followed q d -> waiters q !! id = Some Recording -> recording q !! id = Some p ->
  recordApprovalRequested w readable (approval p) d = (d', err) ->
  followed (Requested id (bool_decide (is_Some err)) cd now q) d'.
Proof.
  intros I F Hw Hr Hrec.
  assert (ID (approval p) = id /\ pending q !! id = None /\ untouched q id) as (Hid & Hpn & Hun).
  { destruct (in_life _ I id) as [|p0 Hw0 Hr0 Hp0 U0 Hi0 _ _| | |p0 k r w0 Hw0 Hr0|w0 Hw0 Hr0]; try congruence.
    replace p with p0 by congruence. done. }
  apply requested_recorded in Hrec as [Hrow Hoth]; [|by rewrite Hid; apply (fo_new _ _ F)].
  rewrite Hid in Hrow, Hoth. destruct F as [F1 F2 F3 F4 F5].
  assert (forall q', (forall id', id' <> id -> waiters q' !! id' = waiters q !! id' /\ pending q' !! id' = pending q !! id') ->
    waiters q' !! id <> Some Recording ->
    (forall p', pending q' !! id = Some p' -> row_pending d' id (approval p')) ->
    (forall r c, waiters q' !! id = Some (Voiding r c) -> proper r /\ row_pending d' id (r_Approval r)) ->
    finishers q' = finishers q -> resolved q' = resolved q -> followed q' d') as Hgo.
  { intros q' Hs H1 H2 H3 Ef El. split.
    - intros id' Hid'. destruct (decide (id' = id)) as [->|Hne]; [done|].
      rewrite (Hoth _ Hne). apply F1. by rewrite <-(proj1 (Hs _ Hne)).
    - intros id' p' Hid'. destruct (decide (id' = id)) as [->|Hne]; [by apply H2|].
      eapply row_pending_same; [by apply Hoth|]. apply F2. by rewrite <-(proj2 (Hs _ Hne)).
    - intros id' r c Hid'. destruct (decide (id' = id)) as [->|Hne]; [by eapply H3|].
      rewrite (proj1 (Hs _ Hne)) in Hid'. destruct (F3 _ _ _ Hid'). split; [done|].
      eapply row_pending_same; [by apply Hoth|done].
    - intros k id' r rest. rewrite Ef. apply F4.
    - rewrite El. intros res Hres. destruct (F5 res Hres) as [Hp Hor]. split; [done|].
      assert (about res <> id) as Hne by (intros Ha; by apply (un_logged _ _ Hun res)).
      specialize (Hoth _ Hne). destruct Hor as [Hor|[Hh Hor]];
        [left; by eapply row_resolved_same|right; split; [done|]; by eapply row_pending_same]. }
  unfold Requested. rewrite Hw, Hr. destruct err as [e|]; cbn.
  - apply Hgo; try done; cbn; rewrite ?lookup_insert_eq; try done.
    + intros id' Hne. by rewrite lookup_insert_ne.
    + intros p'. by rewrite Hpn.
  - specialize (Hrow eq_refl). destruct (_ && _); apply Hgo; try done; cbn; rewrite ?lookup_insert_eq; try done.
    + intros id' Hne. by rewrite !lookup_insert_ne.
    + by intros p' [= <-].
    + intros id' Hne. by rewrite lookup_insert_ne.
    + intros p'. by rewrite Hpn.
    + intros r c [= <- _]. split; [right; by right|done].
Qed.

(** A hook of a resolution, for an approval whose row is pending. *)
Lemma resolved_row w readable r d d' err : proper r -> row_pending d (ID (r_Approval r)) (r_Approval r) ->
  recordApprovalResolved w readable r d = (d', err) ->
  (forall id, id <> ID (r_Approval r) -> operator_approvals d' !! id = operator_approvals d !! id)
  /\ (row_resolved d' (ID (r_Approval r)) r
      \/ (bool_decide (is_Some err) = true /\ row_pending d' (ID (r_Approval r)) (r_Approval r))).
Proof.
  intros Hp Hrow H. apply resolved_recorded in H as [Hor Hoth]; [|done|by apply proper_status].
  split; [done|]. destruct Hor as [Hor|[He Hs]]; [by left|right]. split.
  - apply bool_decide_eq_true. by destruct err as [e|]; [exists e|].
  - by eapply row_pending_same.
Qed.

Lemma followed_step q d e w readable e' d' :
  inv q -> followed q d -> possible q e ->
  match e with ERequest id _ _ _ => operator_approvals d !! id = None | _ => True end ->
  hooked e w readable q d = (e', d') -> followed (step timeout hash q e') d'.
Proof.
  intros I F Hpos Hnew. destruct e as [id request now deadline|id failed cd now|id failed|id|id at_|id at_
    |k id decision actor at_|k runID actor|k actor at_|k failed]; cbn [hooked].
  - intros [= <- <-]. cbn. unfold Request. destruct (negb _); [done|]. destruct (rq_Payload request); [|done].
    apply (followed_less q); try done; cbn; [|by eauto|lookups; by eauto|by apply F].
    intros id0 H0. apply lookup_insert_Some in H0 as [[<- _]|[_ ?]]; auto.
  - destruct (waiters q !! id) as [[]|] eqn:Hw; try (intros [= <- <-]; cbn; unfold Requested; by rewrite Hw).
    destruct (recording q !! id) as [p|] eqn:Hr; [|intros [= <- <-]; cbn; unfold Requested; by rewrite Hw, Hr].
    destruct (recordApprovalRequested _ _ _ _) as [d1 err] eqn:Hrec. intros [= <- <-].
    cbn [step]. by eapply followed_requested.
  - destruct (waiters q !! id) as [[|r c| | | |]|] eqn:Hw;
      try (intros [= <- <-]; cbn; unfold Voided; by rewrite Hw).
    destruct (recordApprovalResolved _ _ _ _) as [d1 err] eqn:Hrec. intros [= <- <-]. cbn [step].
    destruct (fo_voiding _ _ F id r c Hw) as [Hp Hrow].
    assert (ID (r_Approval r) = id /\ pending q !! id = None /\ untouched q id) as (Hid & Hpn & Hun).
    { destruct (in_life _ I id) as [| |r0 c0 Hw0 _ Hp0 U0 Hi0 _| |p k r0 w0 Hw0 _ _ _ _ _ _ _ _ _ _ _ Hk
        |w0 Hw0 _ _ _ _ _ Hm]; try congruence.
      - by replace r with r0 by congruence.
      - destruct k; naive_solver congruence.
      - destruct w0; try done; congruence. }
    rewrite <-Hid in Hrow. apply resolved_row in Hrec as [Hoth Hor]; [|done..].
    unfold Voided. rewrite Hw.
    eapply (followed_log q _ d d1 (mkResult r (bool_decide (is_Some err)))); try done; unfold about; cbn; rewrite Hid.
    + intros id0 ->. rewrite lookup_insert_eq. by destruct c.
    + intros id0 Hne. by rewrite lookup_insert_ne.
    + intros x Hx Ha. by apply (un_logged _ _ Hun x).
  - intros [= <- <-]. cbn. unfold Receive.
    destruct (waiters q !! id) as [[]|]; try done; destruct (sent q id); try done;
      apply (followed_less q); try done; cbn; try (lookups; by eauto); apply F.
  - intros [= <- <-]. cbn. unfold ContextDone. destruct (waiters q !! id) as [[]|]; try done.
    destruct (finish_claim _ _ _ _ _) as [q' [st|r]] eqn:E.
    + apply finish_claim_spec in E as [-> _]. apply (followed_less q); try done; cbn; try (lookups; by eauto); apply F.
    + eapply (followed_claim q); [done|exact E|by auto|..];
        apply finish_claim_spec in E as (p & _ & _ & -> & _); cbn; lookups; done.
  - intros [= <- <-]. cbn. unfold TimerFires. destruct (waiters q !! id) as [[]|]; try done.
    destruct (finish_claim _ _ _ _ _) as [q' [st|r]] eqn:E.
    + apply finish_claim_spec in E as [-> _]. apply (followed_less q); try done; cbn; try (lookups; by eauto); apply F.
    + eapply (followed_claim q); [done|exact E|by auto|..];
        apply finish_claim_spec in E as (p & _ & _ & -> & _); cbn; lookups; done.
  - intros [= <- <-]. cbn. unfold Resolve. destruct (negb _) eqn:Hd; [done|].
    apply negb_false_iff, orb_prop in Hd. destruct (finish_claim _ _ _ _ _) as [q' [st|r]] eqn:E.
    + apply finish_claim_spec in E as [-> _]. done.
    + replace (q' <| finishers ::= _ |>) with
        (q' <| waiters := waiters q |> <| finishers ::= <[inr k := Claimed id r []]> |>).
      * eapply (followed_claim q); [done|exact E| |done..].
        by destruct Hd as [Hd%bool_decide_eq_true|Hd%bool_decide_eq_true]; auto.
      * apply finish_claim_spec in E as (p & _ & _ & -> & _). done.
  - intros [= <- <-]. cbn. unfold ExpireRun. destruct (bool_decide _); [done|].
    apply (followed_less q); try done; cbn; [by auto|by eauto|].
    intros k0 id0 r0 rest0 H0. apply lookup_insert_Some in H0 as [[_ ?]|[_ H0]]; [done|by eapply (fo_claim _ _ F)].
  - intros [= <- <-]. cbn. unfold ExpireNext. destruct (finishers q !! inr k) as [[|[|id rest]]|]; try done.
    + apply (followed_less q); try done; cbn; [by auto|by eauto|].
      intros k0 id0 r0 rest0 H0. apply lookup_delete_Some in H0 as [_ H0]. by eapply (fo_claim _ _ F).
    + destruct (finish_claim _ _ _ _ _) as [q' [st|r]] eqn:E.
      * apply finish_claim_spec in E as [-> _]. apply (followed_less q); try done; cbn; [by auto|by eauto|].
        intros k0 id0 r0 rest0 H0. apply lookup_insert_Some in H0 as [[_ ?]|[_ H0]]; [done|by eapply (fo_claim _ _ F)].
      * replace (q' <| finishers ::= _ |>) with
          (q' <| waiters := waiters q |> <| finishers ::= <[inr k := Claimed id r rest]> |>).
        -- eapply (followed_claim q); [done|exact E|by auto|done..].
        -- apply finish_claim_spec in E as (p & _ & _ & -> & _). done.
  - destruct (finishers q !! k) as [[id r rest|ids]|] eqn:Hk;
      try (intros [= <- <-]; cbn; unfold Hooked; by rewrite Hk).
    destruct (recordApprovalResolved _ _ _ _) as [d1 err] eqn:Hrec. intros [= <- <-]. cbn [step].
    pose proof (fo_claim _ _ F k id r rest Hk) as Hp.
    assert (exists p w0, pending q !! id = Some p /\ ID (approval p) = id /\ r_Approval r = approval p
      /\ (forall res, ~ logged q id res) /\ waiters q !! id = Some w0 /\ w0 <> Recording
      /\ (forall r c, w0 <> Voiding r c) /\ (forall own, k = inl own -> own = id)) as
      (p & w0 & Hpend & Hid & Ha & Hlog & Hw0 & Hn1 & Hn2 & Hown).
    { destruct (in_life _ I id) as [_ _ _ [_ U _]|p0 _ _ _ [_ U _]|r' c _ _ _ [_ U _]|p0 _ _ _ [_ U _]
        |p0 k0 r0 w0 Hw0 _ Hp0 _ Hl Hi _ _ Hc Hu Ha _ Hkk|w0 _ _ _ U];
        [by destruct (U k r); exists rest..| |by destruct (U k r); exists rest].
      assert (k = k0) as -> by (apply (Hu k r); by exists rest).
      destruct Hc as [rest' Hc]. assert (r0 = r) as -> by congruence.
      exists p0, w0. split_and!; try done; destruct k0; naive_solver. }
    pose proof (fo_pending _ _ F id p Hpend) as Hrow. rewrite <-Ha in Hrow.
    assert (ID (r_Approval r) = id) as Hid' by congruence. rewrite <-Hid' in Hrow.
    apply resolved_row in Hrec as [Hoth Hor]; [|done..]. rewrite Hid' in Hoth, Hor.
    unfold Hooked. rewrite Hk. unfold finish_end.
    assert (forall q', (waiters q' !! id <> Some Recording) -> (forall r c, waiters q' !! id <> Some (Voiding r c)) ->
      (forall id0, id0 <> id -> waiters q' !! id0 = waiters q !! id0) ->
      pending q' = delete id (pending q) ->
      (forall k id r rest, finishers q' !! k = Some (Claimed id r rest) -> finishers q !! k = Some (Claimed id r rest)) ->
      resolved q' = resolved q ++ [mkResult r (bool_decide (is_Some err))] -> followed q' d1) as Hgo.
    { intros q' A1 A2 A3 A4 A5 A6.
      eapply (followed_log q _ d d1 (mkResult r (bool_decide (is_Some err)))); try done; unfold about; cbn; rewrite Hid'; try done.
      - intros id0 ->. rewrite A4, lookup_delete_eq. done.
      - intros id0 Hne. rewrite A4, lookup_delete_ne by done. by split; [apply A3|].
      - intros x Hx Hab. by apply (Hlog x). }
    destruct k as [own|k]; [|destruct rest]; apply Hgo; try done; cbn.
    + rewrite (Hown own eq_refl), lookup_insert_eq. done.
    + rewrite (Hown own eq_refl), lookup_insert_eq. done.
    + intros id0 Hne. by rewrite (Hown own eq_refl), lookup_insert_ne.
    + lookups. done.
    + rewrite Hw0. congruence.
    + rewrite Hw0. congruence.
    + lookups. done.
    + rewrite Hw0. congruence.
    + rewrite Hw0. congruence.
    + intros k0 id0 r0 rest0 H0. apply lookup_insert_Some in H0 as [[_ ?]|[_ H0]]; done.
Qed.

Lemma desk_followed s : desk_reachable s ->
  OsApprovals.reachable timeout hash (desk_queue s) (steps s) /\ followed (desk_queue s) (desk_db s).
Proof.
  induction 1 as [d|s e Hs [IHr IHf] Hp].
  - split; [constructor|]. split; cbn; try done. by intros res ?%elem_of_nil.
  - destruct e as [e w readable|d]; cbn in *.
    + destruct Hp as [Hp Hnew]. destruct (hooked e w readable (desk_queue s) (desk_db s)) as [e' d'] eqn:E.
      cbn. split; [|eapply (followed_step (desk_queue s) (desk_db s)); [by eapply queue_reachable_inv|done..|exact E]].
      apply reach_step; [done|]. unfold hooked in E. destruct e; repeat case_match; simplify_eq; done.
    + split; [done|]. destruct IHf as [F1 F2 F3 F4 F5]. split; unfold row_pending, row_resolved; rewrite ?Hp; done.
Qed.

(** C14: What is on record was decided, and what was decided is on record.  In every
    interleaving of the queue with failed, aborted and ambiguous transactions, a resolution
    whose hook did not fail has its row in the database, with its decision, time, actor, tool
    call and payload; and an approval of this runtime that the database calls approved was
    approved by an operator's [Resolve]. *)
Theorem approvals_are_on_record (s : desk) (Hs : desk_reachable s) :
  (forall res, res ∈ resolved (desk_queue s) -> hookFailed res = false ->
     row_resolved (desk_db s) (about res) (resolution res))
  /\ forall res row, res ∈ resolved (desk_queue s) ->
     operator_approvals (desk_db s) !! about res = Some row -> oa_Status row = "approved" ->
     exists k actor, EResolve k (about res) DecisionApprove actor (At (resolution res)) ∈ steps s.
Proof.
  destruct (desk_followed s Hs) as [Hr F]. split.
  - intros res Hres Hh. destruct (fo_log _ _ F res Hres) as [_ [H|[Hf _]]]; [done|congruence].
  - intros res row Hres Hrow Hst. destruct (fo_log _ _ F res Hres) as [Hp [H|[_ H]]].
    + destruct H as (row' & E & Hs' & _). assert (row' = row) as -> by congruence.
      rewrite Hst in Hs'. symmetry in Hs'. apply approved_status in Hs'; [|done].
      by apply (bo_log _ _ (reachable_by_operator _ _ _ _ Hr)).
    + destruct H as (row' & E & Hs' & _). assert (row' = row) as -> by congruence. congruence.
Qed.
End desk.

(** ** A run *)

Module DeskDemo.
Definition ok (e : event) : desk_event := Step e Committed true.
(** The request's commit is ambiguous, and found; so is the resolution's. *)
Definition es : list desk_event :=
  [ok (ERequest "a" (mkApprovalRequest "" "call-1" "custom-tool" "Reconcile shop" "{}" "high" (Some "{}") true) 0 None);
   Step (ERequested "a" false false 1) (CommitFailed true) true;
   ok (EResolve 0 "a" DecisionApprove "ana" 9);
   Step (EHooked (inr 0%nat) false) (CommitFailed true) true; ok (EReceive "a")].
Definition play (es : list desk_event) : desk :=
  foldl (desk_step 10 id) (mkDesk NewApprovalQueue empty_database []) es.
End DeskDemo.
Import DeskDemo.

Lemma approvals_are_on_record_witness :
  exists res, about res = "a" /\ Decision (resolution res) = DecisionApprove
  /\ row_resolved (desk_db (play es)) (about res) (resolution res).
Proof.
  exists (default (mkResult (mkResolution (mkQueueApproval "" "" "" "" "" "" "" "" false 0 0) "" "" 0) true)
       (head (resolved (desk_queue (play es))))).
  split; [vm_compute; reflexivity|]. split; [vm_compute; reflexivity|].
  destruct (approvals_are_on_record 10 id (play es)) as [H _].
  - unfold play, es. cbn [foldl].
    repeat first [apply desk_new | apply desk_next; [|vm_compute; auto]].
  - apply H; [apply list_elem_of_In; vm_compute; left; reflexivity|vm_compute; reflexivity].
Defined.
Close Scope Z_scope.
