(* ===== verification/OsSource.v ===== *)
(** * CandaceOS: the source of an app, its digest and its materialization

    [services/candaceos/source_digest.go] and [source_materialization.go], and the cache of
    revisions of the node agent ([app/candaceos-agent/internal/agent/materialize.go]).  A
    directory is the map of the paths under it, the directory itself included, each path
    the list of its names; [WalkDir] visits a directory before its entries and the entries
    by name, which is the order of those lists.  SHA-256, Git and what a file shows when it
    is opened, read to its end and stated again are parameters; a context that is done is
    one of the errors of the walk or of the archive. *)
From Stdlib Require Import Ascii.
From S2P Require Import Prelude.
From S2P Require Import GoStd.
From S2P Require Import GoText.
From S2P Require Import GoFormat.
From S2P Require Import OsContract.

Open Scope Z_scope.

(** ** app_source_liquid.pb.go *)

Record AppSourceLimits := mkLimits { MaxFiles : Z; MaxBytes : Z }.
Record AppSourceSelection := mkSelection { as_Revision : string; as_Path : string }.
Record RevisionLimits := mkRevisionLimits { rl_MaxEntries : Z; rl_MaxBytes : Z }.
#[export] Instance Rebuild_Limits : Rebuild AppSourceLimits := fun l =>
  {| MaxFiles := MaxFiles l; MaxBytes := MaxBytes l |}.

Definition ValidateAppSourceLimits (l : AppSourceLimits) : result string unit :=
  guard! (1 <=? MaxFiles l) && (MaxFiles l <=? 1073741823) else "max_files" in
  guard! (1 <=? MaxBytes l) && (MaxBytes l <=? 1099511627776) else "max_bytes" in Ok tt.

Definition ValidateRevisionLimits (l : RevisionLimits) : result string unit :=
  guard! (1 <=? rl_MaxEntries l) && (rl_MaxEntries l <=? 2147483647) else "max_entries" in
  guard! (1 <=? rl_MaxBytes l) && (rl_MaxBytes l <=? 1099511627776) else "max_bytes" in Ok tt.

Definition ValidateAppSourceSelection (s : AppSourceSelection) : result string unit :=
  guard! GitObjectRe (as_Revision s) else "revision" in
  guard! (1 <=? String.length (as_Path s))%nat && (String.length (as_Path s) <=? 512)%nat
         && (bool_decide (as_Path s = ".") || negb (PathRe (as_Path s))) else "path" in Ok tt.

(** The characters of a name, as [regexp] reads it. *)
Fixpoint runes (skip : nat) (l : list ascii) : nat :=
  match l, skip with
  | [], _ => O
  | _ :: l, S skip => runes skip l
  | c :: l', O => S (runes (pred (default 1%nat (UTF8.rune_len l))) l')
  end.

(** [(^/|/$|//|(^|/)\.\.?(/|$)|\\|(^|/)[^/]{256})] *)
Definition EntryPathRe0 (s : string) : bool :=
  PathRe s
  || existsb (fun name => (256 <=? runes 0 (String.list_ascii_of_string name))%nat) (Split "/" s).
(** [^([^/]+/){64}] *)
Definition EntryPathRe1 (s : string) : bool :=
  let names := Split "/" s in
  (65 <=? length names)%nat
  && forallb (fun name => negb (bool_decide (name = ""))) (take 64 names).

Definition ValidateAppSourceEntry (path : string) : bool :=
  (1 <=? String.length path)%nat && (String.length path <=? 1024)%nat
  && negb (EntryPathRe0 path) && negb (EntryPathRe1 path).

(** ** Directories *)

Inductive node := Directory (mode : N) | Regular (mode : N) (data : string) | Irregular.
Abbreviation path := (list string).
Abbreviation tree := (gmap (list string) node).
#[export] Instance node_eq_dec : EqDecision node.
Proof. solve_decision. Defined.

(** The order of a walk. *)
Fixpoint path_le (p q : path) : bool :=
  match p, q with
  | [], _ => true
  | _, [] => false
  | a :: p, b :: q =>
      if string_lt a b then true else if string_lt b a then false else path_le p q
  end.
Definition before {A} (x y : path * A) : Prop := path_le x.1 y.1 = true.
#[export] Instance before_dec {A} (x y : path * A) : base.Decision (before x y).
Proof. unfold before. apply _. Defined.

Definition WalkDir (t : tree) : list (path * node) := merge_sort before (map_to_list t).

(** The path that a walk names, relative to its root. *)
Definition relative (p : path) : string := Join "/" p.

(** ** source_digest.go *)

Definition appSourceDigestDomainV2 : string :=
  "candaceos.app-source.digest.v2" +:+ String "000"%char "".
Definition defaultAppSourceFiles : Z := 20000.
Definition defaultAppSourceBytes : Z := 268435456.
Definition DefaultAppSourceLimits : AppSourceLimits :=
  {| MaxFiles := defaultAppSourceFiles; MaxBytes := defaultAppSourceBytes |}.

Record appSourceBudget := mkBudget {
  limits : AppSourceLimits;
  entries : gset string;
  files : Z;
  bytes : Z;
}.
#[export] Instance Rebuild_Budget : Rebuild appSourceBudget := fun b =>
  {| limits := limits b; entries := entries b; files := files b; bytes := bytes b |}.

Definition newAppSourceBudget (limits : AppSourceLimits) : result string appSourceBudget :=
  let! _ := ValidateAppSourceLimits limits in
  Ok {| limits := limits; entries := ∅; files := 0; bytes := 0 |}.

(** The loop over the names of a path. *)
Fixpoint admitNames (current : string) (names : list string) (budget : appSourceBudget)
  : result string appSourceBudget :=
  match names with
  | [] => Ok budget
  | component :: names =>
      let current :=
        if bool_decide (current = "") then component else current +:+ "/" +:+ component in
      if bool_decide (current ∈ entries budget) then admitNames current names budget
      else
        guard! negb (2 * MaxFiles (limits budget) <=? Z.of_nat (size (entries budget)))
          else "entry limit" in
        admitNames current names (budget <| entries ::= ({[current]} ∪.) |>)
  end.

Definition admitPath (path : string) (budget : appSourceBudget) : result string appSourceBudget :=
  guard! ValidateAppSourceEntry path else "path" in
  admitNames "" (Split "/" path) budget.

Definition admitFile (fileSize : Z) (budget : appSourceBudget) : result string appSourceBudget :=
  guard! negb ((fileSize <? 0) || (MaxFiles (limits budget) <=? files budget)
               || (MaxBytes (limits budget) - bytes budget <? fileSize)) else "file limit" in
  Ok (budget <| files ::= fun n => n + 1 |> <| bytes ::= fun n => n + fileSize |>).

(** [mode.Perm()&0o111 != 0] *)
Definition executable (mode : N) : bool := negb (N.land mode 73 =? 0)%N.

(** [fs.FileInfo], and what one file shows between its opening and its last [Stat]. *)
Record FileInfo := mkInfo { IsRegular : bool; Size : Z; Perm : N }.
Record reading := mkReading { opened : FileInfo; content : string; afterwards : FileInfo }.

Definition sameAppSourceFile (actual expected : FileInfo) : bool :=
  IsRegular actual && (Size actual =? Size expected)
  && bool_decide (executable (Perm actual) = executable (Perm expected)).

(** [binary.BigEndian.PutUint64] *)
Fixpoint big_endian (width : nat) (value : N) : string :=
  match width with
  | O => ""
  | S width => String (ascii_of_N (N.shiftr value (8 * N.of_nat width) mod 256))
                      (big_endian width value)
  end.
Definition writeDigestUint64 (value : Z) : string :=
  big_endian 8 (Z.to_N (value mod 18446744073709551616)).

Definition flag (b : bool) : string := String (if b then "001"%char else "000"%char) "".

(** The bytes of one record. *)
Definition digest_record (relative : string) (runs : bool) (fileSize : Z) (data : string) : string :=
  flag true +:+ writeDigestUint64 (Z.of_nat (String.length relative)) +:+ relative
  +:+ flag runs +:+ writeDigestUint64 fileSize +:+ data.

Definition writeAppSourceDigestRecord (relative : string) (expected : FileInfo)
  (read : option reading) : result string string :=
  match read with
  | None => Err "open"
  | Some r =>
      guard! sameAppSourceFile (opened r) expected else "changed while hashing" in
      guard! Size (opened r) <=? Z.of_nat (String.length (content r)) else "EOF" in
      guard! (Z.of_nat (String.length (content r)) =? Size (opened r))
             && sameAppSourceFile (afterwards r) (opened r) else "changed while hashing" in
      Ok (digest_record relative (executable (Perm (opened r))) (Size (opened r)) (content r))
  end.

Definition info_of (mode : N) (data : string) : FileInfo :=
  {| IsRegular := true; Size := Z.of_nat (String.length data); Perm := mode |}.

(** A file that nobody changes. *)
Definition quiet (mode : N) (data : string) : reading :=
  {| opened := info_of mode data; content := data; afterwards := info_of mode data |}.

Section digest.
Context (sha256 : string -> string).
(** What opening a file shows that the walk has seen with a mode and contents. *)
Context (reads : string -> N -> string -> option reading).

Fixpoint digestEntries (found : list (path * node)) (budget : appSourceBudget) (hashed : string)
  : result string string :=
  match found with
  | [] => Ok hashed
  | (p, n) :: found =>
      if bool_decide (p = []) then digestEntries found budget hashed
      else
        let! budget := admitPath (relative p) budget in
        match n with
        | Directory _ => digestEntries found budget hashed
        | Irregular => Err "non-regular file"
        | Regular mode data =>
            let! budget := admitFile (Z.of_nat (String.length data)) budget in
            let! record := writeAppSourceDigestRecord (relative p) (info_of mode data)
                             (reads (relative p) mode data) in
            digestEntries found budget (hashed +:+ record)
        end
  end.

Definition digestAppSourceRoot (t : tree) (budget : appSourceBudget) : result string string :=
  let! hashed := digestEntries (WalkDir t) budget appSourceDigestDomainV2 in
  Ok ("sha256:" +:+ EncodeToString (sha256 hashed)).

(** [None] is a root that cannot be opened. *)
Definition DigestAppSourceWithLimits (root : option tree) (limits : AppSourceLimits)
  : result string string :=
  let! budget := newAppSourceBudget limits in
  match root with
  | None => Err "opening source root"
  | Some t => digestAppSourceRoot t budget
  end.
Definition DigestAppSource (root : option tree) : result string string :=
  DigestAppSourceWithLimits root DefaultAppSourceLimits.
End digest.

(** ** source_materialization.go *)

Inductive typeflag := TypeDir | TypeReg | TypeOther.
(** An entry of a tar archive; [h_Data] is what the archive holds of it. *)
Record header := mkHeader {
  h_Name : string;
  h_Typeflag : typeflag;
  h_Size : Z;
  h_Mode : N;
  h_Data : string;
}.
(** The output of [git archive]: its entries, whether they end with an end of file, and
    whether the process ends well. *)
Record archive := mkArchive { headers : list header; complete : bool; exits : bool }.

(** A mode as it is created under a mask. *)
Definition masked (umask mode : N) : N := N.ldiff (N.land mode 511) umask.

(** What is in the directory of revisions, by name; a name that is no directory has its
    root as [Regular] or [Irregular]. *)
Abbreviation cache := (gmap string (gmap (list string) node)).

Section materialize.
Context (umask : N).

(** [Root.MkdirAll]: the directories of a path, those that exist left alone. *)
Fixpoint MkdirAll (parent names : path) (t : tree) : option tree :=
  match names with
  | [] => Some t
  | name :: names =>
      let p := parent ++ [name] in
      match t !! p with
      | Some (Directory _) => MkdirAll p names t
      | Some _ => None
      | None => MkdirAll p names (<[p := Directory (masked umask 493)]> t)
      end
  end.

(** [writeAppArchiveFile], with what it leaves when it fails. *)
Definition writeAppArchiveFile (h : header) (p : path) (t : tree) : tree * bool :=
  match MkdirAll [] (removelast p) t with
  | None => (t, false)
  | Some t =>
      match t !! p with
      | Some _ => (t, false)
      | None =>
          (<[p := Regular (masked umask (h_Mode h))
                    (String.substring 0 (Z.to_nat (h_Size h)) (h_Data h))]> t,
           h_Size h <=? Z.of_nat (String.length (h_Data h)))
      end
  end.

(** [strings.TrimSuffix(header.Name, "/")] *)
Definition trimSlash (name : string) : string :=
  match CutLast "/" name with Some (front, "") => front | _ => name end.

Fixpoint extractAppArchive (hs : list header) (complete : bool) (seen : gset string)
  (budget : appSourceBudget) (t : tree) : tree * bool :=
  match hs with
  | [] => (t, complete)
  | h :: hs =>
      let name := trimSlash (h_Name h) in
      if bool_decide (name = "") then extractAppArchive hs complete seen budget t
      else if bool_decide (name ∈ seen) then (t, false)
      else
        let seen := {[name]} ∪ seen in
        match admitPath name budget with
        | Err _ => (t, false)
        | Ok budget =>
            match h_Typeflag h with
            | TypeDir =>
                match MkdirAll [] (Split "/" name) t with
                | None => (t, false)
                | Some t => extractAppArchive hs complete seen budget t
                end
            | TypeReg =>
                match admitFile (h_Size h) budget with
                | Err _ => (t, false)
                | Ok budget =>
                    let '(t, written) := writeAppArchiveFile h (Split "/" name) t in
                    if written then extractAppArchive hs complete seen budget t else (t, false)
                end
            | TypeOther => (t, false)
            end
        end
  end.

(** A repository: what [rev-parse --verify] prints for a revision, and what [git archive]
    puts out for a commit or a path in it. *)
Record repository := mkRepository {
  rev_parse : string -> option string;
  git_archive : string -> option archive;
}.

Definition requireExactGitCommit (r : repository) (revision : string) : bool :=
  match rev_parse r (revision +:+ "^{commit}") with
  | Some output => bool_decide (TrimSpace output = revision)
  | None => false
  end.

Definition treeish (s : AppSourceSelection) : string :=
  if bool_decide (as_Path s = ".") then as_Revision s
  else as_Revision s +:+ ":" +:+ as_Path s.

Definition materializeGitArchive (r : repository) (selection : AppSourceSelection)
  (budget : appSourceBudget) (destination : tree) : tree * bool :=
  match git_archive r (treeish selection) with
  | None => (destination, false)
  | Some a =>
      let '(t, extracted) := extractAppArchive (headers a) (complete a) ∅ budget destination in
      (t, extracted && exits a)
  end.

(** The empty directory that [MkdirTemp] makes, with mode 0700. *)
Definition empty_directory : tree := {[ [] := Directory 448 ]}.

Definition MaterializeGitAppSourceWithLimits (sha256 : string -> string)
  (reads : string -> N -> string -> option reading) (gitBin : string) (r : option repository)
  (revision relativePath : string) (destination : tree) (limits : AppSourceLimits)
  : tree * result string string :=
  let selection := {| as_Revision := revision; as_Path := relativePath |} in
  match ValidateAppSourceSelection selection with
  | Err what => (destination, Err what)
  | Ok _ =>
      match newAppSourceBudget limits with
      | Err what => (destination, Err what)
      | Ok budget =>
          if bool_decide (TrimSpace gitBin = "") then (destination, Err "Git executable")
          else
            match r with
            | None => (destination, Err "resolving repository")
            | Some r =>
                if negb (bool_decide ((dom destination : gset path) ⊆ {[ [] ]}))
                then (destination, Err "destination must be empty")
                else if negb (requireExactGitCommit r revision)
                then (destination, Err "resolving commit")
                else
                  let '(t, done_) := materializeGitArchive r selection budget destination in
                  (t, if done_ then digestAppSourceRoot sha256 reads t budget
                      else Err "Git archive")
            end
      end
  end.
Definition MaterializeGitAppSource (sha256 : string -> string)
  (reads : string -> N -> string -> option reading) (gitBin : string) (r : option repository)
  (revision relativePath : string) (destination : tree) : tree * result string string :=
  MaterializeGitAppSourceWithLimits sha256 reads gitBin r revision relativePath destination
    DefaultAppSourceLimits.

(** ** materialize.go: the cache of revisions of an agent *)

Definition revisionCachePathHashDomain : string :=
  "candaceos.app-source.path.v1" +:+ String "000"%char "".

(** [strings.TrimPrefix] *)
Definition TrimPrefix (s prefix : string) : string :=
  match strip (String.list_ascii_of_string prefix) (String.list_ascii_of_string s) with
  | Some rest => String.string_of_list_ascii rest
  | None => s
  end.

Definition revisionCachePath (sha256 : string -> string) (a : Assignment) : string :=
  a_SourceRevision a +:+ "-" +:+ TrimPrefix (a_ContentSha256 a) "sha256:" +:+ "-"
  +:+ EncodeToString (sha256 (revisionCachePathHashDomain +:+ a_Path a)).

(** [mode.Perm()&0o222 != 0] *)
Definition writable (n : node) : bool :=
  match n with
  | Directory mode | Regular mode _ => negb (N.land mode 146 =? 0)%N
  | Irregular => true
  end.

Definition verifyMaterializedRevision (sha256 : string -> string)
  (reads : string -> N -> string -> option reading) (root : option tree) (expectedDigest : string)
  : bool :=
  match root with
  | None => false
  | Some t =>
      match t !! [] with
      | Some (Directory _) =>
          match DigestAppSource sha256 reads (Some t) with
          | Err _ => false
          | Ok digest => bool_decide (digest = expectedDigest)
                         && forallb (fun pn => negb (writable pn.2)) (WalkDir t)
          end
      | _ => false
      end
  end.

Definition seal (n : node) : node :=
  match n with
  | Directory _ => Directory 365
  | Regular mode data => Regular (if executable mode then 365 else 292) data
  | Irregular => Irregular
  end.
Definition sealMaterializedTree (t : tree) : tree := seal <$> t.

(** The walk of [revisionCacheUsage], which stops when the bytes are used up. *)
Fixpoint measure (limits : RevisionLimits) (found : list node) (bytesUsed : Z)
  : result string Z :=
  match found with
  | [] => Ok bytesUsed
  | Directory _ :: found => measure limits found bytesUsed
  | Irregular :: _ => Err "non-regular path"
  | Regular _ data :: found =>
      let fileSize := Z.of_nat (String.length data) in
      if (fileSize <? 0) || (rl_MaxBytes limits - bytesUsed <? fileSize)
      then Ok (rl_MaxBytes limits)
      else measure limits found (bytesUsed + fileSize)
  end.

Definition cached_nodes (c : cache) : list node :=
  concat ((fun kt => (WalkDir kt.2).*2) <$> sort_by fst (map_to_list c)).

Definition revisionCacheUsage (limits : RevisionLimits) (c : cache) : result string (Z * Z) :=
  let entryCount := Z.of_nat (size c) in
  if rl_MaxEntries limits <=? entryCount then Ok (entryCount, 0)
  else let! bytesUsed := measure limits (cached_nodes c) 0 in Ok (entryCount, bytesUsed).

(** What one materialization meets: the repository of the revision once it has been
    synchronized, the name of the staging directory, and which of its calls succeed. *)
Record staging := mkStaging {
  synchronized : option repository;
  temporary : string;
  removes : bool;      (* [removeMaterializedTree] of an invalid revision *)
  makes : bool;        (* [os.MkdirTemp] *)
  seals : bool;        (* every [os.Chmod] of [sealMaterializedTree] *)
  renames : bool;      (* [os.Rename] *)
  cleans : bool;       (* the deferred [removeMaterializedTree] *)
}.

Definition reuseOrRemoveInvalidRevision (sha256 : string -> string)
  (reads : string -> N -> string -> option reading) (s : staging) (target expectedDigest : string)
  (c : cache) : cache * result string bool :=
  match c !! target with
  | None => (c, Ok false)
  | Some t =>
      if verifyMaterializedRevision sha256 reads (Some t) expectedDigest then (c, Ok true)
      else if removes s then (delete target c, Ok false)
      else (c, Err "repairing invalid cached app revision")
  end.

Definition installMaterializedRevision (sha256 : string -> string)
  (reads : string -> N -> string -> option reading) (s : staging) (t : tree)
  (target expectedDigest : string) (c : cache) : cache * bool :=
  if renames s then (<[target := t]> c, true)
  else match c !! target with
       | Some t' => (c, verifyMaterializedRevision sha256 reads (Some t') expectedDigest)
       | None => (c, false)
       end.

(** The staging directory is in the cache while it is filled; [left_behind] is what the
    deferred removal leaves of it. *)
Definition left_behind (s : staging) (t : tree) (c : cache) : cache :=
  if cleans s then c else <[temporary s := t]> c.

Definition materializeRevision (sha256 : string -> string)
  (reads : string -> N -> string -> option reading) (gitBin : string) (limits : RevisionLimits)
  (s : staging) (a : Assignment) (c : cache) : cache * result string string :=
  let target := revisionCachePath sha256 a in
  let '(c, reusable) := reuseOrRemoveInvalidRevision sha256 reads s target (a_ContentSha256 a) c in
  match reusable with
  | Err what => (c, Err what)
  | Ok true => (c, Ok target)
  | Ok false =>
      match revisionCacheUsage limits c with
      | Err what => (c, Err what)
      | Ok (entryCount, bytesUsed) =>
          if (rl_MaxEntries limits <=? entryCount) || (rl_MaxBytes limits <=? bytesUsed)
          then (c, Err "revision cache capacity exhausted")
          else
            match synchronized s with
            | None => (c, Err "synchronizing app revision")
            | Some r =>
                let remainingBytes := rl_MaxBytes limits - bytesUsed in
                let materializationLimits :=
                  DefaultAppSourceLimits
                    <| MaxBytes := Z.min remainingBytes (MaxBytes DefaultAppSourceLimits) |> in
                if negb (makes s) then (c, Err "creating staging directory")
                else
                  let '(t, digest) :=
                    MaterializeGitAppSourceWithLimits sha256 reads gitBin (Some r)
                      (a_SourceRevision a) (a_Path a) empty_directory materializationLimits in
                  match digest with
                  | Err what => (left_behind s t c, Err what)
                  | Ok digest =>
                      if negb (bool_decide (digest = a_ContentSha256 a))
                      then (left_behind s t c, Err "digest mismatch")
                      else if negb (seals s) then (left_behind s t c, Err "sealing")
                      else
                        let sealed := sealMaterializedTree t in
                        let '(c, installed) :=
                          installMaterializedRevision sha256 reads s sealed target
                            (a_ContentSha256 a) c in
                        (if renames s then c else left_behind s sealed c,
                         if installed then Ok target else Err "installing")
                  end
            end
      end
  end.
End materialize.
