(* ===== verification/OsDigest.v ===== *)
(** * CandaceOS: what a digest binds and a cache holds

    Theorems about [OsSource]: the digest of a source tree determines its regular files and
    nothing else, so that the revision a node has materialized is the one that was approved;
    and what a node keeps of revisions stays within its limits, whatever fails. *)
From Stdlib Require Import Ascii.
From S2P Require Import Prelude.
From S2P Require Import GoStd.
From S2P Require Import GoText.
From S2P Require Import GoFormat.
From S2P Require Import OsContract.
From S2P Require Import OsSource.

Open Scope Z_scope.

(** ** The order of a walk *)

Lemma path_le_antisym p q : path_le p q = true -> path_le q p = true -> p = q.
Proof.
  revert q. induction p as [|a p IH]; intros [|b q] H1 H2; cbn in *; try done.
  destruct (string_lt a b) eqn:E1.
  - by rewrite (string_lt_asym _ _ E1) in H2.
  - destruct (string_lt b a) eqn:E2; [done|].
    rewrite (string_lt_antisym a b E1 E2). f_equal. by apply IH.
Qed.

Lemma path_le_total p q : path_le p q = true \/ path_le q p = true.
Proof.
  revert q. induction p as [|a p IH]; intros [|b q]; cbn; try (by left); try (by right).
  destruct (string_lt a b) eqn:E1; [by left|].
  destruct (string_lt b a) eqn:E2; [by right|]. apply IH.
Qed.

Lemma path_le_trans p q r : path_le p q = true -> path_le q r = true -> path_le p r = true.
Proof.
  revert q r. induction p as [|a p IH]; intros [|b q] [|c r] H1 H2; cbn in *; try done.
  destruct (string_lt a b) eqn:E1.
  - destruct (string_lt b c) eqn:E2.
    + by rewrite (string_lt_trans _ _ _ E1 E2).
    + destruct (string_lt c b) eqn:E3; [done|].
      by rewrite <-(string_lt_antisym b c E2 E3), E1.
  - destruct (string_lt b a) eqn:E1'; [done|].
    rewrite (string_lt_antisym a b E1 E1').
    destruct (string_lt b c) eqn:E2; [done|]. destruct (string_lt c b) eqn:E3; [done|].
    by apply IH with q.
Qed.

#[export] Instance before_total {A} : Total (before (A:=A)).
Proof. intros x y. apply path_le_total. Qed.
#[export] Instance before_trans {A} : Transitive (before (A:=A)).
Proof. intros x y z. apply path_le_trans. Qed.

Lemma WalkDir_perm t : WalkDir t ≡ₚ map_to_list t.
Proof. apply merge_sort_Permutation. Qed.

Lemma WalkDir_elem t p n : (p, n) ∈ WalkDir t <-> t !! p = Some n.
Proof. rewrite WalkDir_perm. apply (elem_of_map_to_list (M:=gmap path)). Qed.

(** Lists that are walked in the same order are equal when they have the same members. *)
Lemma walk_unique {A} (l k : list (path * A)) :
  NoDup l.*1 -> StronglySorted before l -> StronglySorted before k -> l ≡ₚ k -> l = k.
Proof.
  intros Hnd Hl Hk Hp. apply (StronglySorted_unique_strong before); [|done..].
  intros x y Hx Hy H1 H2. rewrite <-Hp in Hy.
  assert (x.1 = y.1) as E by by apply path_le_antisym.
  destruct x as [p a], y as [q b]. cbn in E. subst q.
  apply (elem_of_list_to_map (M:=gmap path) _ _ _ Hnd) in Hx, Hy. congruence.
Qed.

Lemma sorted_omap {A B} (f : path * A -> option (path * B)) l :
  (forall x y, f x = Some y -> y.1 = x.1) ->
  StronglySorted before l -> StronglySorted before (omap f l).
Proof.
  intros Hf. induction 1 as [|x l Hs IH Hall]; [constructor|]. cbn.
  destruct (f x) as [y|] eqn:E; [|done]. constructor; [done|].
  apply Forall_forall. intros z (x' & Hx' & Hz)%list_elem_of_omap.
  rewrite Forall_forall in Hall. unfold before. rewrite (Hf _ _ E), (Hf _ _ Hz). by apply Hall.
Qed.

(** ** The regular files of a directory *)

Definition file_at (n : node) : option (bool * string) :=
  match n with Regular mode data => Some (executable mode, data) | _ => None end.

(** Path, executable bit and contents of every regular file. *)
Definition regular_files (t : tree) : gmap path (bool * string) := omap file_at t.

(** A directory that can be walked: its root is one, and names are names. *)
Definition plain (name : string) : Prop := name <> "" /\ ContainsByte "/" name = false.
Record directory (t : tree) : Prop := {
  dir_root : exists mode, t !! [] = Some (Directory mode);
  dir_names p n : t !! p = Some n -> Forall plain p;
}.

Definition walked_file (pn : path * node) : option (path * (bool * string)) :=
  pair pn.1 <$> file_at pn.2.
Definition walked_files (t : tree) : list (path * (bool * string)) := omap walked_file (WalkDir t).

Lemma walked_elem t p f : (p, f) ∈ walked_files t <-> regular_files t !! p = Some f.
Proof.
  unfold walked_files, regular_files. rewrite list_elem_of_omap, lookup_omap. split.
  - intros ([q n] & Hq%WalkDir_elem & Hf). unfold walked_file in Hf. cbn in Hf.
    destruct (file_at n) as [g|] eqn:E; [|done]. injection Hf as -> ->. by rewrite Hq.
  - destruct (t !! p) as [n|] eqn:E; [|done]. cbn. intros Hf. exists (p, n).
    split; [by apply WalkDir_elem|]. unfold walked_file. cbn. by rewrite Hf.
Qed.

Lemma walked_fst l : (omap walked_file l).*1 `sublist_of` l.*1.
Proof.
  induction l as [|[p n] l IH]; [done|]. cbn. unfold walked_file at 1. cbn.
  destruct (file_at n); cbn; [by apply sublist_skip|by apply sublist_cons].
Qed.

Lemma walked_nodup t : NoDup (walked_files t).*1.
Proof.
  eapply sublist_NoDup; [|apply walked_fst]. rewrite WalkDir_perm.
  apply NoDup_fst_map_to_list.
Qed.

Lemma walked_unique t1 t2 :
  regular_files t1 = regular_files t2 -> walked_files t1 = walked_files t2.
Proof.
  intros E. apply walk_unique.
  - apply walked_nodup.
  - apply sorted_omap; [|apply (StronglySorted_merge_sort before)].
    intros [p n] y. unfold walked_file. cbn. destruct (file_at n); [|done]. by intros [= <-].
  - apply sorted_omap; [|apply (StronglySorted_merge_sort before)].
    intros [p n] y. unfold walked_file. cbn. destruct (file_at n); [|done]. by intros [= <-].
  - apply NoDup_Permutation.
    + by eapply NoDup_fmap_1, walked_nodup.
    + by eapply NoDup_fmap_1, walked_nodup.
    + intros [p f]. by rewrite !walked_elem, E.
Qed.

(** ** The bytes of a record *)

Lemma big_endian_length w v : String.length (big_endian w v) = w.
Proof. revert v. induction w as [|w IH]; intros v; [done|]. cbn. by rewrite IH. Qed.

(** The value of the low [width] bytes. *)
Lemma big_endian_inj w v v' :
  big_endian w v = big_endian w v' -> (v mod 2 ^ (8 * N.of_nat w) = v' mod 2 ^ (8 * N.of_nat w))%N.
Proof.
  induction w as [|w IH]; intros H.
  - by rewrite !N.mod_1_r.
  - cbn [big_endian] in H. injection H as Hc Hs. specialize (IH Hs).
    apply (f_equal N_of_ascii) in Hc.
    rewrite !N_ascii_embedding in Hc by (apply N.mod_lt; done).
    rewrite !N.shiftr_div_pow2 in Hc.
    replace (8 * N.of_nat (S w))%N with (8 * N.of_nat w + 8)%N by lia.
    rewrite N.pow_add_r. set (m := (2 ^ (8 * N.of_nat w))%N) in *.
    assert (m <> 0%N) by (by apply N.pow_nonzero).
    rewrite !N.Div0.mod_mul_r, IH. by change (2 ^ 8)%N with 256%N; rewrite Hc.
Qed.

Lemma writeDigestUint64_inj v v' s t : 0 <= v < 18446744073709551616 ->
  0 <= v' < 18446744073709551616 ->
  writeDigestUint64 v +:+ s = writeDigestUint64 v' +:+ t -> v = v' /\ s = t.
Proof.
  intros Hv Hv' H. unfold writeDigestUint64 in H.
  apply append_same_length in H as [H ->]; [|by rewrite !big_endian_length].
  apply big_endian_inj in H. rewrite !Z.mod_small in H by done.
  change (8 * N.of_nat 8)%N with 64%N in H.
  rewrite !N.mod_small in H by (change (2 ^ 64)%N with 18446744073709551616%N; lia).
  split; [lia|done].
Qed.

Lemma flag_inj a b s t : flag a +:+ s = flag b +:+ t -> a = b /\ s = t.
Proof. intros [H ->]%append_same_length; [|done]. by destruct a, b. Qed.

(** A record says what it is a record of, whatever follows it. *)
Lemma digest_record_inj p x d p' x' d' s t :
  Z.of_nat (String.length p) < 18446744073709551616 ->
  Z.of_nat (String.length p') < 18446744073709551616 ->
  Z.of_nat (String.length d) < 18446744073709551616 ->
  Z.of_nat (String.length d') < 18446744073709551616 ->
  digest_record p x (Z.of_nat (String.length d)) d +:+ s
  = digest_record p' x' (Z.of_nat (String.length d')) d' +:+ t ->
  p = p' /\ x = x' /\ d = d' /\ s = t.
Proof.
  intros Hp Hp' Hd Hd'. unfold digest_record. rewrite !str_append_assoc. intros H.
  apply flag_inj in H as [_ H].
  apply writeDigestUint64_inj in H as [E H]; [|lia..].
  apply append_same_length in H as [-> H]; [|lia].
  apply flag_inj in H as [-> H].
  apply writeDigestUint64_inj in H as [E' H]; [|lia..].
  apply append_same_length in H as [-> ->]; [done|lia].
Qed.

Lemma relative_inj p q : p <> [] -> q <> [] -> Forall plain p -> Forall plain q ->
  relative p = relative q -> p = q.
Proof.
  intros Hp Hq Pp Pq E. apply (f_equal (Split "/")) in E. unfold relative in E.
  rewrite !Split_Join in E; [done|..];
    by (done || (eapply Forall_impl; [eassumption|by intros ? []])).
Qed.

(** ** What is hashed *)

Definition record_of (pf : path * (bool * string)) : string :=
  digest_record (relative pf.1) pf.2.1 (Z.of_nat (String.length pf.2.2)) pf.2.2.
Fixpoint texts (ss : list string) : string :=
  match ss with [] => "" | s :: ss => s +:+ texts ss end.

(** A file as a digest sees it: the contents that were read. *)
Definition observed (reads : string -> N -> string -> option reading) (pn : path * node)
  : option (path * (bool * string)) :=
  match pn with
  | (p, Regular mode data) =>
      if bool_decide (p = []) then None
      else (fun r => (p, (executable mode, content r))) <$> reads (relative p) mode data
  | _ => None
  end.

Definition small (pf : path * (bool * string)) : Prop :=
  pf.1 <> [] /\ (String.length (relative pf.1) <= 1024)%nat
  /\ Z.of_nat (String.length pf.2.2) < 18446744073709551616.

Definition budget_ok (b : appSourceBudget) : Prop :=
  MaxBytes (limits b) < 18446744073709551616 /\ 0 <= bytes b.

Lemma str_append_nil s : s +:+ "" = s.
Proof. induction s as [|c s IH]; [done|]. exact (f_equal (String c) IH). Qed.

Lemma admitNames_keeps names : forall current b b', admitNames current names b = Ok b' ->
  limits b' = limits b /\ files b' = files b /\ bytes b' = bytes b
  /\ entries b ⊆ entries b'
  /\ (Z.of_nat (size (entries b)) <= 2 * MaxFiles (limits b) ->
      Z.of_nat (size (entries b')) <= 2 * MaxFiles (limits b')).
Proof.
  induction names as [|name names IH]; intros current b b' H; cbn in H; [by simplify_eq|].
  set (next := if bool_decide (current = "") then name else current +:+ "/" +:+ name) in *.
  case_bool_decide; [by apply (IH next)|].
  apply guard_ok in H as [Hn%negb_true_iff%Z.leb_gt H].
  apply IH in H as (E1 & E2 & E3 & E4 & E5). cbn in *.
  do 3 (split; [done|]). split; [set_solver|]. intros _. apply E5.
  rewrite size_union by set_solver. rewrite size_singleton. lia.
Qed.

Lemma admitPath_keeps p b b' : admitPath p b = Ok b' ->
  (String.length p <= 1024)%nat /\ ValidateAppSourceEntry p = true
  /\ limits b' = limits b /\ files b' = files b /\ bytes b' = bytes b
  /\ entries b ⊆ entries b'
  /\ (Z.of_nat (size (entries b)) <= 2 * MaxFiles (limits b) ->
      Z.of_nat (size (entries b')) <= 2 * MaxFiles (limits b')).
Proof.
  unfold admitPath. intros [Hv H]%guard_ok. apply admitNames_keeps in H.
  split; [|done]. unfold ValidateAppSourceEntry in Hv.
  rewrite !andb_true_iff in Hv. destruct Hv as [[[_ Hv%Nat.leb_le] _] _]. done.
Qed.

Lemma admitFile_ok n b b' : admitFile n b = Ok b' ->
  0 <= n /\ files b < MaxFiles (limits b) /\ bytes b + n <= MaxBytes (limits b)
  /\ b' = b <| files ::= fun n => n + 1 |> <| bytes ::= fun m => m + n |>.
Proof.
  unfold admitFile. intros [H [= <-]]%guard_ok. apply negb_true_iff in H.
  rewrite !orb_false_iff, !Z.ltb_ge, Z.leb_gt in H. destruct H as [[? ?] ?].
  repeat split; lia.
Qed.

Lemma record_ok rel mode data r s :
  writeAppSourceDigestRecord rel (info_of mode data) r = Ok s ->
  exists r', r = Some r' /\ Z.of_nat (String.length (content r')) = Z.of_nat (String.length data)
    /\ executable (Perm (opened r')) = executable mode
    /\ sameAppSourceFile (afterwards r') (opened r') = true
    /\ s = digest_record rel (executable mode) (Z.of_nat (String.length (content r'))) (content r').
Proof.
  unfold writeAppSourceDigestRecord. destruct r as [r|]; [|done].
  intros [H1 [_ [H3 [= <-]]%guard_ok]%guard_ok]%guard_ok.
  unfold sameAppSourceFile in H1 at 1. rewrite !andb_true_iff, bool_decide_eq_true in H1.
  destruct H1 as [[_ H1%Z.eqb_eq] H1']. cbn in H1, H1'.
  apply andb_true_iff in H3 as [H3%Z.eqb_eq H4].
  exists r. repeat split; [lia|done|done|]. by rewrite H1', H3.
Qed.

Lemma digestEntries_hashes reads found : forall b acc h, budget_ok b ->
  digestEntries reads found b acc = Ok h ->
  h = acc +:+ texts (record_of <$> omap (observed reads) found)
  /\ Forall small (omap (observed reads) found)
  /\ Forall (fun pn => pn.1 = [] \/ ValidateAppSourceEntry (relative pn.1) = true) found
  /\ Forall (fun pn => pn.1 <> [] -> pn.2 <> Irregular) found.
Proof.
  induction found as [|[p n] found IH]; intros b acc h [B1 B2] H.
  { cbn in *. injection H as <-. split; [|by repeat constructor].
    symmetry. apply str_append_nil. }
  cbn [digestEntries] in H. case_bool_decide as Hp.
  { subst p. apply IH in H as (-> & ? & ? & ?); [|done].
    assert (observed reads ([], n) = None) as E by (by destruct n).
    cbn [omap list_omap]. rewrite E. split; [done|]. split; [done|].
    split; (constructor; [naive_solver|done]). }
  apply bind_ok in H as (b1 & H1 & H). apply admitPath_keeps in H1 as (L & V & E1 & E2 & E3 & _).
  destruct n as [mode|mode data|]; [| |done].
  - apply IH in H as (-> & ? & ? & ?); [|by split; rewrite ?E1, ?E3].
    cbn. split; [done|]. split; [done|]. split; (constructor; [naive_solver|done]).
  - apply bind_ok in H as (b2 & H2 & H). apply admitFile_ok in H2 as (N & _ & M & ->).
    apply bind_ok in H as (rec & H3 & H).
    apply record_ok in H3 as (r & Hr & Hl & _ & _ & ->).
    apply IH in H as (-> & S' & ? & ?); [|split; cbn; rewrite ?E1; lia].
    cbn [omap list_omap observed]. rewrite bool_decide_eq_false_2 by done. rewrite Hr. cbn.
    split; [by rewrite str_append_assoc|]. split; [|split; (constructor; [naive_solver|done])].
    constructor; [|done]. split; [done|]. cbn. split; [done|].
    rewrite Hl. rewrite E1, E3 in M. lia.
Qed.

Definition quiet_reads (_ : string) (mode : N) (data : string) : option reading :=
  Some (quiet mode data).

Lemma observed_quiet (l : list (path * node)) : (forall p n, (p, n) ∈ l -> p = [] -> file_at n = None) ->
  omap (observed quiet_reads) l = omap walked_file l.
Proof.
  induction l as [|[p n] l IH]; intros Hr; [done|]. cbn [omap list_omap].
  rewrite IH by (intros q m Hq; by apply Hr; right).
  unfold walked_file at 1. destruct n as [mode|mode data|]; try done. cbn.
  case_bool_decide as Hp; [|done]. subst p.
  by specialize (Hr [] _ (list_elem_of_here _ _) eq_refl).
Qed.

Lemma directory_root t p n : directory t -> (p, n) ∈ WalkDir t -> p = [] -> file_at n = None.
Proof.
  intros [[mode Hm] _] Hn%WalkDir_elem ->. rewrite Hm in Hn. by injection Hn as <-.
Qed.

(** The file records of a walk, as one text. *)
Definition digest_text (t : tree) : string :=
  appSourceDigestDomainV2 +:+ texts (record_of <$> walked_files t).

Lemma digest_ok sha256 limits t d : directory t ->
  DigestAppSourceWithLimits sha256 quiet_reads (Some t) limits = Ok d ->
  d = "sha256:" +:+ EncodeToString (sha256 (digest_text t)) /\ Forall small (walked_files t).
Proof.
  intros Ht. unfold DigestAppSourceWithLimits, digestAppSourceRoot.
  intros (b & Hb & (h & Hh & [= <-])%bind_ok)%bind_ok.
  apply bind_ok in Hb as (? & Hl & [= <-]). unfold ValidateAppSourceLimits in Hl.
  apply guard_ok in Hl as [_ [Hl _]%guard_ok]. apply andb_true_iff in Hl as [_ Hl%Z.leb_le].
  apply digestEntries_hashes in Hh as (-> & Hs & _); [|split; cbn; lia].
  rewrite observed_quiet in * by (intros ??; by apply directory_root).
  done.
Qed.

Lemma record_of_inj f g s t : small f -> small g ->
  Forall plain f.1 -> Forall plain g.1 ->
  record_of f +:+ s = record_of g +:+ t -> f = g /\ s = t.
Proof.
  destruct f as [p [x d]], g as [q [y e]]. unfold small, record_of. cbn [fst snd].
  intros (N1 & L1 & D1) (N2 & L2 & D2) P1 P2 H.
  apply digest_record_inj in H as (E & -> & -> & ->); [|lia..].
  apply relative_inj in E; [|done..]. by subst q.
Qed.

Lemma records_inj l1 : forall l2,
  Forall small l1 -> Forall small l2 ->
  Forall (fun pf => Forall plain pf.1) l1 -> Forall (fun pf => Forall plain pf.1) l2 ->
  texts (record_of <$> l1) = texts (record_of <$> l2) -> l1 = l2.
Proof.
  induction l1 as [|f l1 IH]; intros [|g l2] S1 S2 P1 P2 H; [done..|].
  apply Forall_cons in S1 as [S1 T1], S2 as [S2 T2], P1 as [P1 Q1], P2 as [P2 Q2].
  rewrite !fmap_cons in H. cbn [texts] in H.
  apply record_of_inj in H as [-> H]; [|done..]. f_equal. by apply IH.
Qed.

Lemma walked_plain t : directory t -> Forall (fun pf => Forall plain pf.1) (walked_files t).
Proof.
  intros Ht. apply Forall_forall. intros [p f] H%walked_elem. cbn.
  unfold regular_files in H. rewrite lookup_omap in H.
  destruct (t !! p) as [n|] eqn:E; [|done]. by apply (dir_names t Ht p n).
Qed.

Section binding.
Context (sha256 : string -> string).

(** Two trees of which the digests agree although what is hashed differs. *)
Definition collision (t1 t2 : tree) : Prop :=
  digest_text t1 <> digest_text t2 /\ sha256 (digest_text t1) = sha256 (digest_text t2).

Lemma sha_text_inj s t :
  "sha256:" +:+ EncodeToString (sha256 s) = "sha256:" +:+ EncodeToString (sha256 t) ->
  sha256 s = sha256 t.
Proof. intros [_ H]%append_same_length; [|done]. by apply EncodeToString_inj in H. Qed.

Lemma text_is_files (t1 t2 : tree) :
  directory t1 -> directory t2 -> Forall small (walked_files t1) -> Forall small (walked_files t2) ->
  digest_text t1 = digest_text t2 <-> regular_files t1 = regular_files t2.
Proof.
  intros H1 H2 S1 S2. split.
  - intros [_ E]%append_same_length; [|done].
    apply records_inj in E; [|by try apply walked_plain..].
    apply map_eq. intros p. apply option_eq. intros f. by rewrite <-!walked_elem, E.
  - intros E. unfold digest_text. by rewrite (walked_unique _ _ E).
Qed.

Lemma digest_is_files (t1 t2 : tree) (limits1 limits2 : AppSourceLimits) (d1 d2 : string) :
  directory t1 -> directory t2 ->
  DigestAppSourceWithLimits sha256 quiet_reads (Some t1) limits1 = Ok d1 ->
  DigestAppSourceWithLimits sha256 quiet_reads (Some t2) limits2 = Ok d2 ->
  d1 = d2 <-> regular_files t1 = regular_files t2 \/ collision t1 t2.
Proof.
  intros H1 H2 E1 E2. apply digest_ok in E1 as [-> S1], E2 as [-> S2]; [|done..].
  pose proof (text_is_files t1 t2 H1 H2 S1 S2) as T. unfold collision. split.
  - intros E%sha_text_inj. destruct (decide (digest_text t1 = digest_text t2)); tauto.
  - intros [H%T|[_ ->]]; [by rewrite H|done].
Qed.

(** C20: A digest is the regular files.  Two source trees that nobody changes while they are
    hashed have the same digest, under whatever limits each is hashed, exactly when they
    have the same regular files, that is the same paths, each with the same contents and the
    same executable bit, or when SHA-256 itself collides on two different texts.  No name,
    boundary between files or length can be taken for another, and modes beyond that bit,
    empty directories and the order of listing do not matter. *)
Theorem digest_binds_the_files (t1 t2 : tree) (limits1 limits2 : AppSourceLimits)
  (d1 d2 : string) (H1 : directory t1) (H2 : directory t2)
  (E1 : DigestAppSourceWithLimits sha256 quiet_reads (Some t1) limits1 = Ok d1)
  (E2 : DigestAppSourceWithLimits sha256 quiet_reads (Some t2) limits2 = Ok d2) :
  d1 = d2 <-> regular_files t1 = regular_files t2 \/ collision t1 t2.
Proof. by eapply digest_is_files. Qed.
End binding.

(** Two directories with one file each, and a reader of their digests. *)
Definition demo_tree (exec : N) (name data : string) : tree :=
  {[ [] := Directory 493; ["src"] := Directory 493; ["src"; name] := Regular exec data ]}.

Lemma demo_directory exec name data : plain name -> directory (demo_tree exec name data).
Proof.
  intros Hn. unfold demo_tree. split.
  - exists 493%N. by rewrite lookup_insert_eq.
  - intros p n Hp. apply lookup_insert_Some in Hp as [[<- _]|[_ Hp]]; [by apply Forall_nil|].
    assert (plain "src") by done.
    apply lookup_insert_Some in Hp as [[<- _]|[_ Hp]]; [by repeat apply Forall_cons_2|].
    apply lookup_singleton_Some in Hp as [<- _]. by repeat apply Forall_cons_2.
Qed.

(** A name and its contents, and the same bytes cut elsewhere. *)
Lemma digest_binds_the_files_witness :
  DigestAppSource id quiet_reads (Some (demo_tree 420 "a" "bc"))
  <> DigestAppSource id quiet_reads (Some (demo_tree 420 "ab" "c")).
Proof.
  assert (directory (demo_tree 420 "a" "bc")) as D1 by by apply demo_directory.
  assert (directory (demo_tree 420 "ab" "c")) as D2 by by apply demo_directory.
  unfold DigestAppSource.
  assert (exists d, DigestAppSourceWithLimits id quiet_reads (Some (demo_tree 420 "a" "bc"))
                      DefaultAppSourceLimits = Ok d) as [d1 E1] by (eexists; vm_compute; reflexivity).
  assert (exists d, DigestAppSourceWithLimits id quiet_reads (Some (demo_tree 420 "ab" "c"))
                      DefaultAppSourceLimits = Ok d) as [d2 E2] by (eexists; vm_compute; reflexivity).
  rewrite E1, E2. intros [= E].
  pose proof (proj1 (digest_binds_the_files id _ _ _ _ _ _ D1 D2 E1 E2) E) as [F|[Hne F]]; [|destruct (Hne F)].
  apply (f_equal (fun m : gmap path (bool * string) => m !! ["src"; "a"])) in F.
  vm_compute in F. discriminate F.
Defined.

(** ** What extraction and sealing keep *)

Lemma Split_fields c s : Forall (fun w => ContainsByte c w = false) (Split c s).
Proof.
  induction s as [|a s IH]; cbn; [by repeat constructor|].
  case_decide as Ha; [by constructor|].
  destruct (Split c s) as [|w ws] eqn:E; [by apply Split_nonempty in E|].
  apply Forall_cons in IH as [Hw Hws]. constructor; [|done].
  unfold ContainsByte in *. cbn. rewrite decide_False by done.
  by destruct (Cut c w) as [[]|].
Qed.

Lemma entry_plain p : ValidateAppSourceEntry p = true -> Forall plain (Split "/" p).
Proof.
  unfold ValidateAppSourceEntry, EntryPathRe0, PathRe, odd_component.
  rewrite !andb_true_iff, !negb_true_iff, !orb_false_iff.
  intros [[[Hl _] [[Ho _] _]] _].
  assert (p <> "") as Hp by (by intros ->).
  rewrite bool_decide_eq_false_2 in Ho by done. cbn in Ho.
  apply Forall_forall. intros w Hw. split.
  - intros ->. assert (existsb (fun c => bool_decide (c ∈ [""; "."; ".."])) (Split "/" p) = true)
      as E; [|by rewrite E in Ho].
    apply existsb_exists. exists "". split; [by apply list_elem_of_In|].
    apply bool_decide_eq_true. set_solver.
  - pose proof (Split_fields "/" p) as F. rewrite Forall_forall in F. by apply F.
Qed.

Definition node_bytes (n : node) : nat :=
  match n with Regular _ data => String.length data | _ => 0%nat end.
Definition tree_bytes (t : tree) : nat := sum_list_with (node_bytes ∘ snd) (map_to_list t).

Lemma tree_bytes_insert t p n : t !! p = None ->
  tree_bytes (<[p := n]> t) = (node_bytes n + tree_bytes t)%nat.
Proof. intros H. unfold tree_bytes. by rewrite map_to_list_insert by done. Qed.

Lemma regular_files_directory t p mode : t !! p = None ->
  regular_files (<[p := Directory mode]> t) = regular_files t.
Proof.
  intros H. apply map_eq. intros q. unfold regular_files. rewrite !lookup_omap.
  destruct (decide (q = p)) as [->|Hq]; [by rewrite lookup_insert_eq, H|].
  by rewrite lookup_insert_ne.
Qed.

Lemma directory_insert t p n : directory t -> p <> [] -> Forall plain p ->
  directory (<[p := n]> t).
Proof.
  intros [[mode Hm] Hn] Hp Pp. split.
  - exists mode. by rewrite lookup_insert_ne.
  - intros q m. destruct (decide (q = p)) as [->|Hq]; [done|].
    rewrite lookup_insert_ne by done. by apply Hn.
Qed.

Section extraction.
Context (umask : N).

Lemma MkdirAll_keeps names : forall parent t t', MkdirAll umask parent names t = Some t' ->
  Forall plain parent -> Forall plain names -> directory t ->
  directory t' /\ tree_bytes t' = tree_bytes t /\ regular_files t' = regular_files t.
Proof.
  induction names as [|name names IH]; intros parent t t' H Pp Pn Ht; cbn in H; [by simplify_eq|].
  apply Forall_cons in Pn as [P1 Pn].
  assert (Forall plain (parent ++ [name])) as Pp' by (apply Forall_app_2; [done|by apply Forall_singleton]).
  destruct (t !! (parent ++ [name])) as [[]|] eqn:E; try done; [by apply IH in H|].
  apply IH in H as (D & B & R); [|done..|].
  - split; [done|]. by rewrite B, R, tree_bytes_insert, regular_files_directory by done.
  - apply directory_insert; [done| |done]. by destruct parent.
Qed.

Lemma writeAppArchiveFile_keeps h p t t' ok : writeAppArchiveFile umask h p t = (t', ok) ->
  p <> [] -> Forall plain p -> directory t ->
  directory t' /\ (tree_bytes t' <= Z.to_nat (h_Size h) + tree_bytes t)%nat.
Proof.
  unfold writeAppArchiveFile. intros H Hp Pp Ht.
  destruct (MkdirAll umask [] (removelast p) t) as [t1|] eqn:E; [|by simplify_eq; split; [|lia]].
  assert (Forall plain (removelast p)) as Pr.
  { rewrite (app_removelast_last "" Hp) in Pp. by apply Forall_app in Pp as [? _]. }
  apply MkdirAll_keeps in E as (D & B & _); [|by (done || constructor)..].
  destruct (t1 !! p) as [n|] eqn:F; [by simplify_eq; split; [|lia]|]. injection H as <- _.
  split; [by apply directory_insert|]. rewrite tree_bytes_insert, B by done. cbn.
  pose proof (substring_length (h_Data h) (Z.to_nat (h_Size h))). lia.
Qed.

(** However extraction ends, what it has written is within its budget. *)
Lemma extract_keeps hs : forall complete seen b t t' ok,
  extractAppArchive umask hs complete seen b t = (t', ok) -> directory t ->
  0 <= bytes b <= MaxBytes (limits b) ->
  directory t' /\ Z.of_nat (tree_bytes t') + bytes b <= Z.of_nat (tree_bytes t) + MaxBytes (limits b).
Proof.
  induction hs as [|h hs IH]; intros complete seen b t t' ok H Ht Hb; cbn in H;
    [by simplify_eq; split; [|lia]|].
  case_bool_decide; [by eapply IH|]. case_bool_decide; [by simplify_eq; split; [|lia]|].
  destruct (admitPath (trimSlash (h_Name h)) b) as [b1|] eqn:E1; [|by simplify_eq; split; [|lia]].
  apply admitPath_keeps in E1 as (_ & V & El & _ & Eb & _). apply entry_plain in V.
  pose proof (Split_nonempty "/" (trimSlash (h_Name h))) as Hne.
  destruct (h_Typeflag h).
  - destruct (MkdirAll umask [] _ t) as [t1|] eqn:E; [|by simplify_eq; split; [|lia]].
    apply MkdirAll_keeps in E as (D & B & _); [|by (done || constructor)..].
    apply IH in H as [? H]; [|done|rewrite El, Eb; lia]. split; [done|]. rewrite El, Eb, B in H. lia.
  - destruct (admitFile (h_Size h) b1) as [b2|] eqn:E2; [|by simplify_eq; split; [|lia]].
    apply admitFile_ok in E2 as (N0 & _ & M & ->).
    destruct (writeAppArchiveFile umask h _ t) as [t1 w] eqn:E.
    apply writeAppArchiveFile_keeps in E as [D B]; [|done..].
    rewrite El, Eb in M. destruct w; [|by simplify_eq; split; [|lia]].
    apply IH in H as [? H]; [|done|cbn; rewrite El, Eb; lia]. split; [done|].
    cbn in H. rewrite El, Eb in H. lia.
  - by simplify_eq; split; [|lia].
Qed.
End extraction.

Lemma executable_seal mode : executable (if executable mode then 365 else 292)%N = executable mode.
Proof. by destruct (executable mode). Qed.

Lemma seal_files t : regular_files (sealMaterializedTree t) = regular_files t.
Proof.
  apply map_eq. intros p. unfold regular_files, sealMaterializedTree.
  rewrite !lookup_omap, lookup_fmap. destruct (t !! p) as [[]|]; [done| |done..]. cbn.
  by rewrite executable_seal.
Qed.

Lemma seal_directory t : directory t -> directory (sealMaterializedTree t).
Proof.
  intros [[mode Hm] Hn]. unfold sealMaterializedTree. split.
  - exists 365%N. by rewrite lookup_fmap, Hm.
  - intros p n. rewrite lookup_fmap, fmap_Some. intros (m & Hp & _). by eapply Hn.
Qed.

Lemma seal_bytes t : tree_bytes (sealMaterializedTree t) = tree_bytes t.
Proof.
  unfold tree_bytes, sealMaterializedTree. rewrite map_to_list_fmap.
  induction (map_to_list t) as [|[p n] l IH]; [done|].
  change (node_bytes (seal n) + sum_list_with (node_bytes ∘ snd) (prod_map id seal <$> l)
          = node_bytes n + sum_list_with (node_bytes ∘ snd) l)%nat.
  rewrite IH. by destruct n.
Qed.

Lemma seal_walk t : WalkDir (sealMaterializedTree t) = prod_map id seal <$> WalkDir t.
Proof.
  apply walk_unique.
  - rewrite WalkDir_perm. apply NoDup_fst_map_to_list.
  - apply (StronglySorted_merge_sort before).
  - assert (StronglySorted before (WalkDir t)) as Hs by apply (StronglySorted_merge_sort before).
    induction Hs as [|x l Hs IH Hall]; cbn; constructor; [done|].
    apply Forall_fmap. eapply Forall_impl; [exact Hall|]. done.
  - unfold sealMaterializedTree. by rewrite !WalkDir_perm, map_to_list_fmap.
Qed.

(** ** Hashing again *)

(** A budget with more room. *)
Record roomier (b b' : appSourceBudget) : Prop := {
  ro_files : MaxFiles (limits b) <= MaxFiles (limits b');
  ro_bytes : MaxBytes (limits b) <= MaxBytes (limits b');
  ro_same : entries b = entries b' /\ files b = files b' /\ bytes b = bytes b';
}.

Lemma admitNames_roomier names : forall current b b' r, roomier b b' ->
  admitNames current names b = Ok r -> exists r', admitNames current names b' = Ok r' /\ roomier r r'.
Proof.
  induction names as [|name names IH]; intros current b b' r Hb H; cbn in *.
  { injection H as <-. by exists b'. }
  destruct (ro_same _ _ Hb) as (E1 & E2 & E3). rewrite <-E1.
  case_bool_decide; [by eapply IH|].
  apply guard_ok in H as [Hn%negb_true_iff%Z.leb_gt H]. pose proof (ro_files _ _ Hb).
  rewrite (proj2 (Z.leb_gt _ _)) by lia. eapply IH; [|exact H].
  split; [done|exact (ro_bytes _ _ Hb)|done].
Qed.

Lemma admitPath_roomier p b b' r : roomier b b' ->
  admitPath p b = Ok r -> exists r', admitPath p b' = Ok r' /\ roomier r r'.
Proof.
  unfold admitPath. intros Hb [Hv H]%guard_ok. rewrite Hv. by eapply admitNames_roomier.
Qed.

Lemma admitFile_roomier n b b' r : roomier b b' ->
  admitFile n b = Ok r -> exists r', admitFile n b' = Ok r' /\ roomier r r'.
Proof.
  intros Hb (N0 & F & B & ->)%admitFile_ok. destruct Hb as [H1 H2 (E1 & E2 & E3)].
  unfold admitFile. rewrite (proj2 (Z.ltb_ge _ _)), (proj2 (Z.leb_gt _ _)), (proj2 (Z.ltb_ge _ _))
    by lia. cbn. eexists. split; [done|]. split; [done..|]. cbn. by rewrite E1, E2, E3.
Qed.

(** The same walk, sealed, within more room, hashes to the same text. *)
Lemma digestEntries_sealed found : forall b b' acc h, roomier b b' ->
  digestEntries quiet_reads found b acc = Ok h ->
  digestEntries quiet_reads (prod_map id seal <$> found) b' acc = Ok h.
Proof.
  induction found as [|[p n] found IH]; intros b b' acc h Hb H; [done|].
  cbn [fmap list_fmap prod_map fst snd digestEntries] in *. change (id p) with p.
  case_bool_decide as Hp; [by eapply IH|].
  apply bind_ok in H as (b1 & (b1' & -> & Hb1)%(admitPath_roomier _ _ _ _ Hb) & H).
  cbn [result_bind]. destruct n as [mode|mode data|]; [by eapply IH| |done].
  apply bind_ok in H as (b2 & (b2' & E2 & Hb2)%(admitFile_roomier _ _ _ _ Hb1) & H).
  apply bind_ok in H as (rec & H3 & H). cbn [seal]. rewrite E2. cbn [result_bind].
  assert (writeAppSourceDigestRecord (relative p)
            (info_of (if executable mode then 365 else 292)%N data)
            (quiet_reads (relative p) (if executable mode then 365 else 292)%N data) = Ok rec) as ->.
  { rewrite <-H3. unfold quiet_reads, writeAppSourceDigestRecord, sameAppSourceFile, digest_record.
    cbn. by rewrite executable_seal, !bool_decide_eq_true_2. }
  by eapply IH.
Qed.

Lemma digest_sealed sha256 t b b' d : roomier b b' ->
  digestAppSourceRoot sha256 quiet_reads t b = Ok d ->
  digestAppSourceRoot sha256 quiet_reads (sealMaterializedTree t) b' = Ok d.
Proof.
  intros Hb (h & H & E)%bind_ok. unfold digestAppSourceRoot. rewrite seal_walk.
  by rewrite (digestEntries_sealed _ _ _ _ _ Hb H).
Qed.

Lemma sealed_read_only n : n <> Irregular -> writable (seal n) = false.
Proof. destruct n as [|mode|]; [done| |done]. intros _. cbn. by destruct (executable mode). Qed.

(** ** The cache of revisions *)

Lemma empty_directory_ok : directory empty_directory.
Proof.
  split; [by exists 448%N|]. unfold empty_directory. intros p n [<- _]%lookup_singleton_Some.
  by apply Forall_nil.
Qed.

Lemma empty_directory_bytes : tree_bytes empty_directory = 0%nat.
Proof. by vm_compute. Qed.

Lemma materialize_keeps umask sha256 reads gitBin r revision relativePath l t res :
  MaterializeGitAppSourceWithLimits umask sha256 reads gitBin r revision relativePath
    empty_directory l = (t, res) ->
  1 <= MaxBytes l ->
  directory t /\ Z.of_nat (tree_bytes t) <= MaxBytes l
  /\ forall d, res = Ok d -> exists b, newAppSourceBudget l = Ok b
       /\ digestAppSourceRoot sha256 reads t b = Ok d.
Proof.
  intros H Hl. pose proof empty_directory_ok as D.
  assert (forall t' res' (e : string), (t', Err e) = (t, res) -> t' = empty_directory ->
            res' = res -> directory t /\ Z.of_nat (tree_bytes t) <= MaxBytes l
            /\ forall d, res = Ok d -> exists b, newAppSourceBudget l = Ok b
                 /\ digestAppSourceRoot sha256 reads t b = Ok d) as Hearly.
  { intros t' res' e [= <- <-] -> _. split; [done|]. split; [rewrite empty_directory_bytes; lia|done]. }
  unfold MaterializeGitAppSourceWithLimits in H.
  destruct (ValidateAppSourceSelection _); [|by eapply Hearly].
  destruct (newAppSourceBudget l) as [b|] eqn:Eb; [|by eapply Hearly].
  case_bool_decide; [by eapply Hearly|]. destruct r as [r|]; [|by eapply Hearly].
  destruct (negb (bool_decide _)); [by eapply Hearly|].
  destruct (negb (requireExactGitCommit _ _)); [by eapply Hearly|].
  destruct (materializeGitArchive _ _ _ _ _) as [t1 ok] eqn:Ea. injection H as -> Hres.
  apply bind_ok in Eb as (? & _ & [= <-]). unfold materializeGitArchive in Ea.
  destruct (git_archive _ _) as [arc|]; [|injection Ea as <- <-; eapply Hearly; [by rewrite <-Hres|done..]].
  destruct (extractAppArchive _ _ _ _ _) as [t2 ex] eqn:E in Ea. injection Ea as -> <-.
  apply extract_keeps in E as [D' B]; [|done|cbn; lia]. split; [done|].
  rewrite empty_directory_bytes in B. split; [cbn in B; lia|]. intros d ->. destruct (ex && exits arc); [|done]. by eexists.
Qed.

Section revisions.
Context (umask : N) (sha256 : string -> string) (gitBin : string) (limits : RevisionLimits).
Abbreviation materialize := (materializeRevision umask sha256 quiet_reads gitBin limits).

Definition names_ok (t : tree) : Prop := forall p n, t !! p = Some n -> Forall plain p.

Lemma verified_ok t d : names_ok t ->
  verifyMaterializedRevision sha256 quiet_reads (Some t) d = true ->
  directory t /\ DigestAppSource sha256 quiet_reads (Some t) = Ok d
  /\ map_Forall (fun _ n => writable n = false) t.
Proof.
  unfold verifyMaterializedRevision. intros Hn H.
  destruct (t !! []) as [[mode| |]|] eqn:Hroot; try done.
  destruct (DigestAppSource sha256 quiet_reads (Some t)) as [d'|] eqn:E; [|done].
  apply andb_true_iff in H as [->%bool_decide_eq_true H].
  split; [split; [by exists mode|done]|]. split; [done|].
  intros p n Hp%WalkDir_elem. rewrite forallb_forall in H.
  apply negb_true_iff. by apply (H (p, n)), list_elem_of_In.
Qed.

Lemma sealed_ok t b d : directory t -> 1 <= MaxFiles (OsSource.limits b) <= defaultAppSourceFiles ->
  MaxBytes (OsSource.limits b) <= defaultAppSourceBytes ->
  newAppSourceBudget (OsSource.limits b) = Ok b ->
  digestAppSourceRoot sha256 quiet_reads t b = Ok d ->
  DigestAppSource sha256 quiet_reads (Some (sealMaterializedTree t)) = Ok d
  /\ map_Forall (fun _ n => writable n = false) (sealMaterializedTree t).
Proof.
  intros Ht Hf Hb Eb H. apply bind_ok in Eb as (? & _ & [= E]). split.
  - unfold DigestAppSource, DigestAppSourceWithLimits. cbn [result_bind newAppSourceBudget].
    change (ValidateAppSourceLimits DefaultAppSourceLimits) with (Ok (E:=string) tt).
    cbn [result_bind]. eapply digest_sealed; [|exact H]. rewrite <-E.
    split; [apply Hf|apply Hb|done].
  - apply bind_ok in H as (h & H & _).
    assert (budget_ok b) as Hok
      by (rewrite <-E; split; cbn; unfold defaultAppSourceBytes in *; lia).
    apply digestEntries_hashes in H as (_ & _ & _ & Hn); [|done].
    intros p n. unfold sealMaterializedTree. rewrite lookup_fmap, fmap_Some.
    intros (m & Hp & ->). apply sealed_read_only. intros ->. rewrite Forall_forall in Hn.
    destruct (decide (p = [])) as [->|Hne].
    + destruct (dir_root t Ht) as [mode Hm]. congruence.
    + by apply WalkDir_elem, Hn in Hp.
Qed.

(** What the cache and the limits were when Git is asked, and what became of it. *)
Definition revision_policy (bytesUsed : Z) : AppSourceLimits :=
  DefaultAppSourceLimits
    <| MaxBytes := Z.min (rl_MaxBytes limits - bytesUsed) (MaxBytes DefaultAppSourceLimits) |>.

Lemma reuse_cases (s : staging) (target d : string) (c c1 : cache) (r : result string bool) :
  reuseOrRemoveInvalidRevision sha256 quiet_reads s target d c = (c1, r) ->
  (c1 = c \/ c1 = delete target c)
  /\ (r = Ok true -> c1 = c /\ exists t, c !! target = Some t
        /\ verifyMaterializedRevision sha256 quiet_reads (Some t) d = true)
  /\ (r = Ok false -> c1 !! target = None).
Proof.
  unfold reuseOrRemoveInvalidRevision. destruct (c !! target) as [t|] eqn:E.
  - destruct (verifyMaterializedRevision _ _ _ _) eqn:V; [|destruct (removes s)];
      intros [= <- <-].
    + split; [by left|]. split; [|done]. intros _. split; [done|]. by exists t.
    + split; [by right|]. split; [done|]. intros _. apply lookup_delete_eq.
    + split; [by left|done].
  - intros [= <- <-]. split; [by left|done].
Qed.

Lemma materialize_cases (s : staging) (a : Assignment) (c c' : cache) (res : result string string) : materialize s a c = (c', res) ->
  exists c1 r, (c1 = c \/ c1 = delete (revisionCachePath sha256 a) c)
  /\ reuseOrRemoveInvalidRevision sha256 quiet_reads s (revisionCachePath sha256 a)
       (a_ContentSha256 a) c = (c1, r)
  /\ ((c' = c1 /\ forall target, res = Ok target -> r = Ok true /\ target = revisionCachePath sha256 a)
      \/ exists used repo t dg,
           revisionCacheUsage limits c1 = Ok (Z.of_nat (size c1), used)
           /\ Z.of_nat (size c1) < rl_MaxEntries limits /\ used < rl_MaxBytes limits
           /\ MaterializeGitAppSourceWithLimits umask sha256 quiet_reads gitBin (Some repo)
                (a_SourceRevision a) (a_Path a) empty_directory (revision_policy used) = (t, dg)
           /\ (((c' = left_behind s t c1 \/ c' = left_behind s (sealMaterializedTree t) c1)
                /\ forall target, res <> Ok target)
               \/ (c' = <[revisionCachePath sha256 a := sealMaterializedTree t]> c1
                   /\ dg = Ok (a_ContentSha256 a) /\ res = Ok (revisionCachePath sha256 a)))).
Proof.
  unfold materializeRevision.
  destruct (reuseOrRemoveInvalidRevision _ _ _ _ _ _) as [c1 r] eqn:Er.
  pose proof (reuse_cases _ _ _ _ _ _ Er) as (Hc1 & _ & Hnone). intros H.
  exists c1, r. split; [done|]. split; [done|].
  destruct r as [[]|].
  { injection H as <- <-. left. split; [done|]. by intros ? [= <-]. }
  2: { injection H as <- <-. by left. }
  specialize (Hnone eq_refl).
  destruct (revisionCacheUsage limits c1) as [[n used]|] eqn:Eu; [|injection H as <- <-; by left].
  assert (n = Z.of_nat (size c1)) as ->.
  { unfold revisionCacheUsage in Eu. destruct (_ <=? _); [congruence|].
    apply bind_ok in Eu as (? & _ & Eu). congruence. }
  destruct (_ || _) eqn:Efull; [injection H as <- <-; by left|].
  apply orb_false_iff in Efull as [Hn%Z.leb_gt Hu%Z.leb_gt].
  destruct (synchronized s) as [repo|]; [|injection H as <- <-; by left].
  destruct (makes s); [|injection H as <- <-; by left]. cbn [negb] in H.
  destruct (MaterializeGitAppSourceWithLimits _ _ _ _ _ _ _ _ _) as [t dg] eqn:Em.
  right. exists used, repo, t, dg. do 4 (split; [done|]).
  destruct dg as [dg|]; [|injection H as <- <-; left; split; [by left|done]].
  case_bool_decide as Hd; cbn [negb] in H; [|injection H as <- <-; left; split; [by left|done]].
  subst dg.
  destruct (seals s); cbn [negb] in H; [|injection H as <- <-; left; split; [by left|done]].
  unfold installMaterializedRevision in H. rewrite Hnone in H.
  destruct (renames s); injection H as <- <-; [by right|]. left. split; [by right|done].
Qed.

Lemma left_behind_all (P : tree -> Prop) (s : staging) (t : tree) (c : cache) :
  map_Forall (fun _ => P) c -> P t -> map_Forall (fun _ => P) (left_behind s t c).
Proof. intros Hc Ht. unfold left_behind. destruct (cleans s); [done|]. by apply map_Forall_insert_2. Qed.

Lemma removed_all (P : tree -> Prop) (k : string) (c c1 : cache) :
  c1 = c \/ c1 = delete k c -> map_Forall (fun _ => P) c -> map_Forall (fun _ => P) c1.
Proof. intros [-> | ->] Hc; [done|]. by apply map_Forall_delete. Qed.

(** C11: What is materialized was approved.  When an agent has materialized the revision of an
    assignment, whether it was in its cache, was there and had to be repaired, or came from
    Git, whatever the cache held and however earlier attempts ended: the cache holds a
    directory at the path that is returned, nothing in it can be written, its digest is the
    one of the assignment, and its regular files are those of every source tree that Core
    may have hashed for the approval, executable bits included, unless SHA-256 collides. *)
Theorem materialized_was_approved (s : staging) (a : Assignment) (c c' : cache) (target : string)
  (Hc : map_Forall (fun _ t => names_ok t) c)
  (H : materialize s a c = (c', Ok target)) :
  target = revisionCachePath sha256 a
  /\ map_Forall (fun _ t => names_ok t) c'
  /\ exists t, c' !! target = Some t /\ directory t
     /\ DigestAppSource sha256 quiet_reads (Some t) = Ok (a_ContentSha256 a)
     /\ map_Forall (fun _ n => writable n = false) t
     /\ forall approved policy, directory approved ->
          DigestAppSourceWithLimits sha256 quiet_reads (Some approved) policy
          = Ok (a_ContentSha256 a) ->
          regular_files t = regular_files approved \/ collision sha256 t approved.
Proof.
  apply materialize_cases in H as (c1 & r & Hc1 & Er & [[-> Hr]|H]).
  - destruct (Hr target eq_refl) as [-> ->].
    pose proof (reuse_cases _ _ _ _ _ _ Er) as (_ & Hreuse & _).
    destruct (Hreuse eq_refl) as (-> & t & Ht & V). pose proof (Hc _ _ Ht) as Hn.
    destruct (verified_ok t _ Hn V) as (D & E & W). split; [done|]. split; [done|].
    exists t. do 4 (split; [done|]). intros approved policy Da Ea.
    by apply (digest_is_files sha256 _ _ _ _ _ _ D Da E Ea).
  - destruct H as (used & repo & t & dg & _ & _ & Hu & Em & [[_ Hne]|(-> & -> & [= ->])]);
      [by destruct (Hne target)|].
    apply materialize_keeps in Em as (D & _ & Hd); [|cbn; unfold defaultAppSourceBytes; lia].
    destruct (Hd _ eq_refl) as (b & Hb & Hdig).
    assert (OsSource.limits b = revision_policy used) as El by (by apply bind_ok in Hb as (? & _ & [= <-])).
    apply sealed_ok in Hdig as [E W]; [|done|rewrite El; cbn; unfold defaultAppSourceFiles; lia
      |rewrite El; cbn; lia|by rewrite El].
    apply seal_directory in D. split; [done|]. split.
    { apply map_Forall_insert_2; [exact (dir_names _ D)|]. by eapply removed_all. }
    exists (sealMaterializedTree t). split; [by rewrite lookup_insert_eq|].
    do 3 (split; [done|]). intros approved policy Da Ea.
    by apply (digest_is_files sha256 _ _ _ _ _ _ D Da E Ea).
Qed.

(** ** What the cache takes up *)

Definition cache_bytes (c : cache) : nat := sum_list_with (tree_bytes ∘ snd) (map_to_list c).

Lemma measure_ok found : forall used r, measure limits found used = Ok r ->
  r < rl_MaxBytes limits -> r = used + Z.of_nat (sum_list_with node_bytes found).
Proof.
  induction found as [|n found IH]; intros used r H Hr; cbn [measure] in H.
  { injection H as <-. cbn. lia. }
  change (sum_list_with node_bytes (n :: found))
    with (node_bytes n + sum_list_with node_bytes found)%nat.
  destruct n as [mode|mode data|]; [|destruct (_ || _) in H|done].
  - by apply IH in H.
  - injection H as <-. lia.
  - apply IH in H; [|done]. cbn [node_bytes]. lia.
Qed.

Lemma cached_bytes (c : cache) : sum_list_with node_bytes (cached_nodes c) = cache_bytes c.
Proof.
  unfold cached_nodes, cache_bytes. rewrite <-(sort_by_perm fst (map_to_list c)) at 2.
  induction (sort_by fst (map_to_list c)) as [|[k t] l IH]; [done|].
  cbn [fmap list_fmap concat]. rewrite sum_list_with_app, IH.
  change (sum_list_with (tree_bytes ∘ snd) ((k, t) :: l))
    with (tree_bytes t + sum_list_with (tree_bytes ∘ snd) l)%nat. f_equal.
  unfold tree_bytes. cbn [snd]. rewrite <-WalkDir_perm.
  induction (WalkDir t) as [|[p n] w IHw]; [done|].
  change (node_bytes n + sum_list_with node_bytes w.*2
          = node_bytes n + sum_list_with (node_bytes ∘ snd) w)%nat. by rewrite IHw.
Qed.

Lemma usage_ok (c : cache) n used : revisionCacheUsage limits c = Ok (n, used) ->
  n < rl_MaxEntries limits -> used < rl_MaxBytes limits -> used = Z.of_nat (cache_bytes c).
Proof.
  unfold revisionCacheUsage. intros H Hn Hu.
  destruct (rl_MaxEntries limits <=? Z.of_nat (size c)) eqn:E.
  - apply Z.leb_le in E. injection H as <- <-. lia.
  - apply bind_ok in H as (u & H & [= <- <-]). apply measure_ok in H; [|done].
    by rewrite cached_bytes in H.
Qed.

Lemma cache_bytes_delete (k : string) (c : cache) :
  (cache_bytes (delete k c) <= cache_bytes c)%nat /\ (size (delete k c) <= size c)%nat.
Proof.
  split; [|rewrite map_size_delete; case_match; unfold id; lia].
  destruct (c !! k) as [t|] eqn:E; [|by rewrite delete_id].
  rewrite <-(insert_delete_id c k t E) at 2. unfold cache_bytes.
  rewrite map_to_list_insert by apply lookup_delete_eq. cbn. lia.
Qed.

Lemma cache_bytes_insert (k : string) (t : tree) (c : cache) :
  (cache_bytes (<[k := t]> c) <= tree_bytes t + cache_bytes c)%nat
  /\ (size (<[k := t]> c) <= S (size c))%nat.
Proof.
  split; [|rewrite map_size_insert; case_match; unfold id; lia].
  rewrite <-insert_delete_eq. unfold cache_bytes at 1.
  rewrite map_to_list_insert by apply lookup_delete_eq.
  pose proof (proj1 (cache_bytes_delete k c)) as H. unfold cache_bytes in *. cbn. lia.
Qed.

Definition within_limits (c : cache) : Prop :=
  Z.of_nat (size c) <= rl_MaxEntries limits /\ Z.of_nat (cache_bytes c) <= rl_MaxBytes limits.

Lemma materialize_within (s : staging) (a : Assignment) (c : cache) : within_limits c -> within_limits (materialize s a c).1.
Proof.
  intros [Hs Hb]. destruct (materialize s a c) as [c' res] eqn:H. cbn.
  apply materialize_cases in H as (c1 & r & Hc1 & _ & H).
  assert ((size c1 <= size c)%nat /\ (cache_bytes c1 <= cache_bytes c)%nat) as [Hs1 Hb1].
  { destruct Hc1 as [-> | ->]; [done|]. pose proof (cache_bytes_delete (revisionCachePath sha256 a) c). tauto. }
  destruct H as [[-> _]|(used & repo & t & dg & Hu & Hn & Hm & Em & H)]; [split; lia|].
  apply usage_ok in Hu as ->; [|done..].
  apply materialize_keeps in Em as (_ & B & _); [|cbn; unfold defaultAppSourceBytes; lia].
  assert (Z.of_nat (tree_bytes t) + Z.of_nat (cache_bytes c1) <= rl_MaxBytes limits) as Hroom
    by (cbn in B; lia).
  assert (forall k t', tree_bytes t' = tree_bytes t -> within_limits (<[k := t']> c1)) as Hadd.
  { intros k t' E. pose proof (cache_bytes_insert k t' c1) as [? ?]. rewrite E in *. split; lia. }
  assert (forall t', tree_bytes t' = tree_bytes t -> within_limits (left_behind s t' c1)) as Hleft.
  { intros t' E. unfold left_behind. destruct (cleans s); [split; lia|by apply Hadd]. }
  destruct H as [[[-> | ->] _]|(-> & _)];
    [by apply Hleft|apply Hleft, seal_bytes|apply Hadd, seal_bytes].
Qed.

(** C31: The cache stays within its limits.  Whatever assignments an agent materializes, whatever
    Git puts out for them, and however the attempts fail and leave their staging
    directories behind, the cache never holds more entries or more bytes of files than its
    limits allow. *)
Theorem cache_stays_within_limits (c : cache) (attempts : list (staging * Assignment))
  (Hc : within_limits c) :
  within_limits (foldl (fun c sa => (materialize sa.1 sa.2 c).1) c attempts).
Proof.
  revert c Hc. induction attempts as [|[s a] attempts IH]; intros c Hc; [done|].
  by apply IH, materialize_within.
Qed.
End revisions.

(** An app of one file, approved and then materialized on a node. *)
Module SourceDemo.
Definition commit : string := "0123456789012345678901234567890123456789".
Definition app_archive : archive :=
  mkArchive [mkHeader "src/" TypeDir 0 509 ""; mkHeader "src/a" TypeReg 2 436 "bc"] true true.
Definition repo : repository :=
  mkRepository (fun _ => Some commit)
    (fun object => if bool_decide (object = commit +:+ ":app") then Some app_archive else None).
Definition approved_digest : string :=
  match DigestAppSource id quiet_reads (Some (demo_tree 420 "a" "bc")) with
  | Ok d => d
  | Err what => what
  end.
Definition assignment : Assignment := mkAssignment "web" "web" "app" 1 commit approved_digest.
Definition attempt (cleans : bool) : staging :=
  mkStaging (Some repo) ".revision-1" true true true true cleans.
Definition limits : RevisionLimits := mkRevisionLimits 4 1000.
Definition materialized : cache * result string string :=
  materializeRevision 18 id quiet_reads "git" limits (attempt true) assignment ∅.
End SourceDemo.

Lemma materialized_was_approved_witness :
  exists t, (SourceDemo.materialized.1 : cache) !! revisionCachePath id SourceDemo.assignment = Some t
    /\ regular_files t = regular_files (demo_tree 420 "a" "bc").
Proof.
  assert (directory (demo_tree 420 "a" "bc")) as D by by apply demo_directory.
  assert (exists target, SourceDemo.materialized.2 = Ok target) as [target E]
    by (eexists; vm_compute; reflexivity).
  assert (DigestAppSourceWithLimits id quiet_reads (Some (demo_tree 420 "a" "bc"))
            DefaultAppSourceLimits = Ok (a_ContentSha256 SourceDemo.assignment)) as Ea
    by (vm_compute; reflexivity).
  pose proof (surjective_pairing SourceDemo.materialized) as H. rewrite E in H.
  destruct (materialized_was_approved 18 id "git" SourceDemo.limits (SourceDemo.attempt true)
              SourceDemo.assignment ∅ _ target (map_Forall_empty _) H)
    as (-> & _ & t & Ht & _ & _ & _ & Hall).
  exists t. split; [exact Ht|]. destruct (Hall _ _ D Ea) as [F|[Hne F]]; [exact F|destruct (Hne F)].
Defined.

(** The same attempt, of which the staging directory is left behind, and a second one. *)
Lemma cache_stays_within_limits_witness :
  within_limits SourceDemo.limits
    (foldl (fun c sa => (materializeRevision 18 id quiet_reads "git" SourceDemo.limits sa.1 sa.2 c).1) ∅
       [(SourceDemo.attempt false, SourceDemo.assignment <| a_ContentSha256 := "sha256:" |>);
        (SourceDemo.attempt true, SourceDemo.assignment)]).
Proof.
  apply (cache_stays_within_limits 18 id "git" SourceDemo.limits).
  split; vm_compute; discriminate.
Defined.
