(* ===== verification/OsHarness.v ===== *)
(** * CandaceOS: the runner of a harness session

    [services/candaceos/harness/runner.go] on [pkg/mailbox]: one goroutine owns the state of
    a provider session and runs the commands of any number of callers one at a time.  A
    command is a function of that state, as in the code; what it sends to others is the list
    of its effects.  A call is named by a number.  Provider operations and the cleanup run on
    goroutines of their own and end when the environment says so; the mailbox is stopped by
    the command that retires the owner, and by nothing else, so a submission is accepted
    exactly while the owner runs. *)
From S2P Require Import Prelude.

Open Scope Z_scope.

(** ** The mailbox *)

Module Mailbox.
Section mailbox.
Context {State Effect : Type}.

(** A command, with what it does to others; [true] retires the owner. *)
Definition Command : Type := State -> State * list Effect * bool.

Record Mailbox := mkMailbox { state : State; stopped : bool }.

Definition New (initial : State) : Mailbox := {| state := initial; stopped := false |}.

(** [Submit], and the turn of [Run] that takes the command. *)
Definition Submit (command : Command) (m : Mailbox) : Mailbox * option (list Effect) :=
  if stopped m then (m, None)
  else let '(s, effects, retires) := command (state m) in
       ({| state := s; stopped := retires |}, Some effects).
End mailbox.
Arguments Command : clear implicits.
Arguments Mailbox : clear implicits.
End Mailbox.

(** ** The owner's commands *)

Definition ErrRunnerClosed : string := "harness runner is closed".
Definition ErrRunnerStarted : string := "harness runner is already started".
Definition ErrRuntimeUnavailable : string := "harness runtime is unavailable".

Section runner.
Context {Event : Type} (eventID : Event -> string).

(** Of the operations that an adapter installs, whether they are there; [cancelled] is the
    lifecycle context that the contexts of operations follow. *)
Record runnerState := mkRunner {
  cancelled : bool;
  send : bool;
  abort : bool;
  cleanup : bool;
  pending : list Event;
  begun : bool;
  installed : bool;
  eventsActive : bool;
  closing : bool;
  cleanupDone : bool;
  inFlight : Z;
  closeErr : option string;
}.
#[local] Instance Rebuild_runnerState : Rebuild runnerState := fun s =>
  mkRunner (cancelled s) (send s) (abort s) (cleanup s) (pending s) (begun s) (installed s)
    (eventsActive s) (closing s) (cleanupDone s) (inFlight s) (closeErr s).

Definition initial : runnerState := mkRunner false false false false [] false false false false
  false 0 None.

Inductive effect :=
| Reply (call : nat) (err : option string)
| Deliver (e : Event)
| Operate (call : nat)                  (* the goroutine of [startOperation] *)
| Clean                                 (* the goroutine of [beginClose] *)
| Publicize (err : option string).      (* [stopErr], before the mailbox stops *)

Abbreviation command := (Mailbox.Command runnerState effect).

Definition finishIfReady (s : runnerState) : list effect * bool :=
  if negb (closing s) || negb (cleanupDone s) || negb (inFlight s =? 0) then ([], false)
  else ([Publicize (closeErr s)], true).

Definition BeginStart (call : nat) : command := fun s =>
  if closing s then (s, [Reply call (Some ErrRunnerClosed)], false)
  else if begun s then (s, [Reply call (Some ErrRunnerStarted)], false)
  else (s <| begun := true |>, [Reply call None], false).

Definition Install (call : nat) (send_ abort_ cleanup_ : bool) : command := fun s =>
  if closing s then (s, [Reply call (Some ErrRunnerClosed)], false)
  else if installed s then (s, [Reply call (Some ErrRunnerStarted)], false)
  else (s <| begun := true |> <| installed := true |> <| send := send_ |> <| abort := abort_ |>
          <| cleanup := cleanup_ |>, [Reply call None], false).

(** One group after the other, under one set of identifiers. *)
Fixpoint deduplicate_from (seen : gset string) (events : list Event) : list Event :=
  match events with
  | [] => []
  | event :: events =>
      let id := eventID event in
      if bool_decide (id = "") then event :: deduplicate_from seen events
      else if bool_decide (id ∈ seen) then deduplicate_from seen events
      else event :: deduplicate_from ({[id]} ∪ seen) events
  end.
Definition deduplicate (groups : list (list Event)) : list Event :=
  deduplicate_from ∅ (concat groups).

Definition Activate (replay : list Event) : command := fun s =>
  if closing s || eventsActive s then (s, [], false)
  else (s <| pending := [] |> <| eventsActive := true |>,
        Deliver <$> deduplicate [replay; pending s], false).

Definition Publish (event : Event) : command := fun s =>
  if closing s then (s, [], false)
  else if negb (eventsActive s) then (s <| pending ::= (.++ [event]) |>, [], false)
  else (s, [Deliver event], false).

(** [done] is what [ctx.Err] returns on the owner's goroutine. *)
Definition operate (available : bool) (call : nat) (done : option string) : command := fun s =>
  match done with
  | Some err => (s, [Reply call (Some err)], false)
  | None =>
      if closing s || negb (installed s) || negb available
      then (s, [Reply call (Some ErrRuntimeUnavailable)], false)
      else (s <| inFlight ::= fun n => n + 1 |>, [Operate call], false)
  end.
Definition Send (call : nat) (done : option string) : command := fun s =>
  operate (send s) call done s.
Definition Abort (call : nat) (done : option string) : command := fun s =>
  operate (abort s) call done s.

Definition finishOperation (call : nat) (err : option string) : command := fun s =>
  let s := s <| inFlight ::= fun n => n - 1 |> in
  let '(effects, retires) := finishIfReady s in
  (s, Reply call err :: effects, retires).

Definition cleaned (err : option string) : command := fun s =>
  let s := s <| cleanupDone := true |> <| closeErr := err |> in
  let '(effects, retires) := finishIfReady s in
  (s, effects, retires).

Definition beginClose : command := fun s =>
  if closing s then (s, [], false)
  else
    let cleanup_ := cleanup s in
    let s := s <| closing := true |> <| eventsActive := false |> <| pending := [] |>
               <| cancelled := true |> <| send := false |> <| abort := false |>
               <| cleanup := false |> in
    if negb cleanup_ then
      let s := s <| cleanupDone := true |> in
      let '(effects, retires) := finishIfReady s in
      (s, effects, retires)
    else (s, [Clean], false).

(** ** Callers, operations and the owner at once *)

Record machine := mkMachine {
  box : Mailbox.Mailbox runnerState;
  stopErr : option string;
  delivered : list Event;                    (* what the host has been shown *)
  operations : gset nat;                     (* provider operations that run *)
  cleanups : nat;                            (* how often the cleanup was started *)
  cleaning : bool;
  calls : gset nat;
  replies : list (nat * option string);
  closers : gset nat;                        (* calls of [Close] that wait *)
  closed : list (nat * option string);       (* and those that returned *)
}.
#[local] Instance Rebuild_machine : Rebuild machine := fun m =>
  mkMachine (box m) (stopErr m) (delivered m) (operations m) (cleanups m) (cleaning m) (calls m)
    (replies m) (closers m) (closed m).

Definition NewRunner : machine :=
  mkMachine (Mailbox.New initial) None [] ∅ 0 false ∅ [] ∅ [].

Definition perform (m : machine) (e : effect) : machine :=
  match e with
  | Reply call err => m <| replies ::= (.++ [(call, err)]) |>
  | Deliver event => m <| delivered ::= (.++ [event]) |>
  | Operate call => m <| operations ::= ({[call]} ∪.) |>
  | Clean => m <| cleanups ::= S |> <| cleaning := true |>
  | Publicize err => m <| stopErr := err |>
  end.

(** A submission; [refused] are the effects of one that the stopped mailbox refuses. *)
Definition submit (c : command) (refused : list effect) (m : machine) : machine :=
  let '(b, effects) := Mailbox.Submit c (box m) in
  foldl perform (m <| box := b |>) (default refused effects).

Inductive event :=
| EBeginStart (call : nat)
| EInstall (call : nat) (send_ abort_ cleanup_ : bool)
| EActivate (replay : list Event)
| EPublish (event : Event)
| ESend (call : nat) (before done : option string)     (* [ctx.Err] before and in the command *)
| EAbort (call : nat) (before done : option string)
| EClose (call : nat)
| EOperationEnds (call : nat) (err : option string)
| ECleanupEnds (err : option string)
| EClosed (call : nat).                                (* a waiting [Close] returns *)

Definition new_call (call : nat) (f : machine -> machine) (m : machine) : machine :=
  if bool_decide (call ∈ calls m) then m else f (m <| calls ::= ({[call]} ∪.) |>).

Definition operation (c : command) (call : nat) (before : option string) (m : machine) : machine :=
  match before with
  | Some err => perform m (Reply call (Some err))
  | None => submit c [Reply call (Some ErrRuntimeUnavailable)] m
  end.

Definition step (m : machine) (e : event) : machine :=
  match e with
  | EBeginStart call =>
      new_call call (submit (BeginStart call) [Reply call (Some ErrRunnerClosed)]) m
  | EInstall call send_ abort_ cleanup_ =>
      new_call call (submit (Install call send_ abort_ cleanup_)
                       [Reply call (Some ErrRunnerClosed)]) m
  | EActivate replay => submit (Activate replay) [] m
  | EPublish event => submit (Publish event) [] m
  | ESend call before done => new_call call (operation (Send call done) call before) m
  | EAbort call before done => new_call call (operation (Abort call done) call before) m
  | EClose call =>
      new_call call (fun m => (submit beginClose [] m) <| closers ::= ({[call]} ∪.) |>) m
  | EOperationEnds call err =>
      if bool_decide (call ∈ operations m) then
        submit (finishOperation call err) [Reply call err] (m <| operations ::= (.∖ {[call]}) |>)
      else m
  | ECleanupEnds err =>
      if cleaning m then submit (cleaned err) [] (m <| cleaning := false |>) else m
  | EClosed call =>
      if bool_decide (call ∈ closers m) && Mailbox.stopped (box m) then
        m <| closers ::= (.∖ {[call]}) |> <| closed ::= (.++ [(call, stopErr m)]) |>
      else m
  end.

Definition run (es : list event) (m : machine) : machine := foldl step m es.
Definition reachable (m : machine) : Prop := exists es, m = run es NewRunner.

(** ** What the owner keeps true *)

Abbreviation owner m := (Mailbox.state (box m)).
Abbreviation retired m := (Mailbox.stopped (box m)).

Record inv (m : machine) : Prop := {
  v_count : inFlight (owner m) = Z.of_nat (size (operations m));
  v_retired : retired m = true <->
    closing (owner m) = true /\ cleanupDone (owner m) = true /\ operations m = ∅;
  v_cleaning : cleaning m = true <-> closing (owner m) = true /\ cleanupDone (owner m) = false;
  v_open : closing (owner m) = false -> cleanups m = O /\ cleanupDone (owner m) = false;
  v_once : (cleanups m <= 1)%nat;
  v_shut : closing (owner m) = true -> eventsActive (owner m) = false /\ pending (owner m) = []
    /\ cancelled (owner m) = true;
  v_err : retired m = true -> stopErr m = closeErr (owner m);
  v_closed : closed m <> [] -> retired m = true;
  v_answers : Forall (fun c => c.2 = stopErr m) (closed m);
  v_fresh : operations m ⊆ calls m;
}.

Lemma runner_starts : inv NewRunner.
Proof. by split; cbn; try naive_solver; constructor. Qed.

(** A step that only says something to a caller or to the host. *)
Definition quiet_step (m m' : machine) : Prop :=
  box m' = box m /\ stopErr m' = stopErr m
  /\ operations m' = operations m /\ cleanups m' = cleanups m /\ cleaning m' = cleaning m
  /\ closed m' = closed m /\ calls m ⊆ calls m'.

Lemma quiet_inv m m' : quiet_step m m' -> inv m -> inv m'.
Proof. 
  intros (E1 & E2 & E3 & E4 & E5 & E6 & E7) [].
  split; rewrite ?E1, ?E2, ?E3, ?E4, ?E5, ?E6; try done. by etrans.
Qed.

Lemma perform_app m es es' : foldl perform m (es ++ es') = foldl perform (foldl perform m es) es'.
Proof. apply foldl_app. Qed.

Lemma deliver_all events : forall m, foldl perform m (Deliver <$> events)
  = m <| delivered ::= (.++ events) |>.
Proof.
  induction events as [|e es IH]; intros m; cbn; [destruct m; cbn; by rewrite app_nil_r|].
  rewrite IH. destruct m; cbn. by rewrite <-app_assoc.
Qed.

(** The owner's state after a command that neither closes nor counts. *)
Record same_life (s s' : runnerState) : Prop := {
  l_closing : closing s' = closing s;
  l_done : cleanupDone s' = cleanupDone s;
  l_flight : inFlight s' = inFlight s;
  l_err : closeErr s' = closeErr s;
  l_shut : closing s = true -> s' = s;
}.

Lemma same_life_refl s : same_life s s.
Proof. done. Qed.

Lemma life_inv m s m' : inv m -> same_life (owner m) s ->
  quiet_step (m <| box := {| Mailbox.state := s; Mailbox.stopped := retired m |} |>) m' -> inv m'.
Proof.
  intros I [L1 L2 L3 L4 L5] Hq. eapply quiet_inv; [exact Hq|]. destruct I.
  split; cbn; rewrite ?L1, ?L2, ?L3, ?L4; try done. intros Hc. rewrite (L5 Hc). by apply v_shut0.
Qed.
Definition spoken (e : effect) : Prop :=
  match e with Reply _ _ | Deliver _ => True | _ => False end.

Lemma spoken_quiet es : Forall spoken es -> forall m, quiet_step m (foldl perform m es).
Proof.
  induction 1 as [|e es He _ IH]; intros m; [done|]. cbn.
  destruct (IH (perform m e)) as (E1 & E2 & E3 & E4 & E5 & E6 & E7).
  unfold quiet_step. rewrite E1, E2, E3, E4, E5, E6. by destruct e.
Qed.

Lemma submit_cases c refused m :
  (retired m = true /\ submit c refused m = foldl perform m refused)
  \/ (retired m = false /\ exists s es b, c (owner m) = (s, es, b)
      /\ submit c refused m
         = foldl perform (m <| box := {| Mailbox.state := s; Mailbox.stopped := b |} |>) es).
Proof.
  unfold submit, Mailbox.Submit. destruct (retired m) eqn:E.
  - left. split; [done|]. destruct m as [[? ?]]. cbn in *. by subst.
  - right. split; [done|]. destruct (c (owner m)) as [[s es] b]. by exists s, es, b.
Qed.

(** Commands that leave the life of the runner alone. *)
Definition lively (c : command) : Prop := forall s, exists s' es, c s = (s', es, false)
  /\ same_life s s' /\ Forall spoken es.

Lemma lively_inv c refused m : lively c -> Forall spoken refused -> inv m ->
  inv (submit c refused m).
Proof.
  intros Hc Hr I. destruct (submit_cases c refused m) as [[_ ->]|(Hs & s & es & b & Ec & ->)].
  - by eapply quiet_inv; [apply spoken_quiet|].
  - destruct (Hc (owner m)) as (s' & es' & Ec' & Hl & He). rewrite Ec in Ec'.
    injection Ec' as -> -> ->. eapply life_inv; [exact I|exact Hl|]. rewrite Hs.
    by apply spoken_quiet.
Qed.

Lemma deliveries_spoken es : Forall spoken (Deliver <$> es).
Proof. apply Forall_fmap, Forall_true. by intros e. Qed.

Ltac lively := intros s; repeat case_match; eexists _, _; (split; [done|]); (split;
  [by split; cbn; try congruence|try apply deliveries_spoken; by repeat constructor]).

Lemma BeginStart_lively call : lively (BeginStart call).
Proof. unfold BeginStart. lively. Qed.
Lemma Install_lively call a b c : lively (Install call a b c).
Proof. unfold Install. lively. Qed.
Lemma Publish_lively e : lively (Publish e).
Proof. unfold Publish. lively. Qed.
Lemma Activate_lively replay : lively (Activate replay).
Proof.
  intros s. unfold Activate. destruct (closing s || eventsActive s) eqn:E; eexists _, _;
    (split; [done|]); [done|]. apply orb_false_iff in E as [E _].
  split; [|apply deliveries_spoken]. split; cbn; congruence.
Qed.
Lemma operate_inv available call done refused m : call ∉ operations m -> call ∈ calls m ->
  Forall spoken refused -> inv m -> inv (submit (fun s => operate (available s) call done s) refused m).
Proof.
  intros Hn Hcalls Hr I.
  destruct (submit_cases (fun s => operate (available s) call done s) refused m)
    as [[_ ->]|(Hs & s & es & b & Ec & ->)]; [by eapply quiet_inv; [apply spoken_quiet|]|].
  unfold operate in Ec. destruct done as [err|].
  { injection Ec as <- <- <-. eapply life_inv; [exact I|apply same_life_refl|]. by rewrite Hs. }
  destruct (closing (owner m) || _ || _) eqn:Eg.
  { injection Ec as <- <- <-. eapply life_inv; [exact I|apply same_life_refl|]. by rewrite Hs. }
  injection Ec as <- <- <-. rewrite !orb_false_iff in Eg. destruct Eg as [[Eg _] _].
  destruct I. split; cbn; try done.
  - rewrite size_union by set_solver. rewrite size_singleton. lia.
  - split; [done|]. rewrite Eg. by intros [? _].
  - by intros H%v_closed0; rewrite Hs in H.
  - set_solver.
Qed.

(** What is left for a closing runner to wait for. *)
Lemma ready_spec s effects retires : finishIfReady s = (effects, retires) ->
  if retires then closing s = true /\ cleanupDone s = true /\ inFlight s = 0
       /\ effects = [Publicize (closeErr s)]
  else effects = [] /\ ~ (closing s = true /\ cleanupDone s = true /\ inFlight s = 0).
Proof.
  unfold finishIfReady. destruct (closing s), (cleanupDone s), (Z.eqb_spec (inFlight s) 0);
    cbn; intros [= <- <-]; naive_solver.
Qed.

(** The owner may stop after a command that left the count right. *)
Lemma ready_inv m s es b : finishIfReady s = (es, b) ->
  retired m = false -> (closed m <> [] -> False) ->
  inFlight s = Z.of_nat (size (operations m)) -> operations m ⊆ calls m ->
  (cleaning m = true <-> closing s = true /\ cleanupDone s = false) ->
  (closing s = false -> cleanups m = O /\ cleanupDone s = false) -> (cleanups m <= 1)%nat ->
  (closing s = true -> eventsActive s = false /\ pending s = [] /\ cancelled s = true) ->
  inv (foldl perform (m <| box := {| Mailbox.state := s; Mailbox.stopped := b |} |>) es).
Proof.
  intros Hready%ready_spec Hs Hc Hn Hsub Hcl Ho H1 Hshut.
  assert (closed m = []) as E by (destruct (closed m); [done|by destruct Hc]).
  assert (inFlight s = 0 <-> operations m = ∅) as Hz.
  { rewrite Hn. rewrite <-leibniz_equiv_iff, <-size_empty_iff. lia. }
  destruct b.
  - destruct Hready as (A1 & A2 & A3 & ->). split; cbn; try done; try (rewrite E; constructor);
      tauto.
  - destruct Hready as (-> & A). split; cbn; try done; try (rewrite E; constructor).
    split; [done|]. rewrite <-Hz. tauto.
Qed.
Lemma not_closed m : inv m -> retired m = false -> closed m <> [] -> False.
Proof. intros I Hs H%(v_closed m I). congruence. Qed.

Lemma finish_inv call err m : inv m -> call ∈ operations m ->
  inv (submit (finishOperation call err) [Reply call err]
         (m <| operations ::= (.∖ {[call]}) |>)).
Proof.
  intros I Hcall. set (m1 := m <| operations ::= _ |>).
  assert (retired m1 = false) as Hs.
  { unfold m1. cbn. destruct (retired m) eqn:E; [|done].
    apply (v_retired m I) in E as (_ & _ & E). rewrite E in Hcall. set_solver. }
  assert (Z.of_nat (size (operations m1)) = inFlight (owner m) - 1) as Hn.
  { rewrite (v_count m I). unfold m1. cbn.
    rewrite size_difference by set_solver. rewrite size_singleton.
    assert (size (operations m) <> 0%nat); [|lia]. intros E%size_empty_inv. set_solver. }
  destruct (submit_cases (finishOperation call err) [Reply call err] m1)
    as [[E _]|(_ & s & es & b & Ec & ->)]; [congruence|].
  unfold finishOperation in Ec. set (s1 := (owner m1) <| inFlight ::= _ |>) in Ec.
  destruct (finishIfReady s1) as [es1 b1] eqn:Er. injection Ec as <- <- <-.
  cbn [foldl]. set (m2 := perform _ (Reply call err)).
  assert (m2 = (m1 <| replies ::= (.++ [(call, err)]) |>)
                 <| box := {| Mailbox.state := s1; Mailbox.stopped := b1 |} |>) as -> by done.
  pose proof (v_fresh m I). destruct I. apply ready_inv; try done; cbn.
  - by apply not_closed.
  - set_solver.
Qed.

Lemma cleaned_inv err m : inv m -> cleaning m = true ->
  inv (submit (cleaned err) [] (m <| cleaning := false |>)).
Proof.
  intros I Hc. set (m1 := m <| cleaning := false |>).
  pose proof (proj1 (v_cleaning m I) Hc) as [Hcl Hd].
  assert (retired m1 = false) as Hs.
  { unfold m1. cbn. destruct (retired m) eqn:E; [|done].
    apply (v_retired m I) in E as (_ & E & _). congruence. }
  destruct (submit_cases (cleaned err) [] m1) as [[E _]|(_ & s & es & b & Ec & ->)]; [congruence|].
  unfold cleaned in Ec. set (s1 := (owner m1) <| cleanupDone := true |> <| closeErr := err |>) in Ec.
  destruct (finishIfReady s1) as [es1 b1] eqn:Er. injection Ec as <- <- <-.
  assert (closing s1 = true /\ cleanupDone s1 = true) as [E1 E2] by done.
  destruct I. apply ready_inv; try done; cbn -[s1].
  - intros H. apply v_closed0 in H. cbn in Hs. congruence.
  - rewrite E2. by split; [|intros [_ ?]].
  - by rewrite E1.
Qed.

(** What the first [Close] makes of the owner's state. *)
Lemma beginClose_spec s : closing s = false -> cleanupDone s = false ->
  exists s' es b, beginClose s = (s', es, b)
  /\ closing s' = true /\ inFlight s' = inFlight s /\ eventsActive s' = false
  /\ pending s' = [] /\ cancelled s' = true
  /\ (if cleanup s then cleanupDone s' = false /\ es = [Clean] /\ b = false
      else cleanupDone s' = true /\ finishIfReady s' = (es, b)).
Proof.
  intros Hc Hd. unfold beginClose. rewrite Hc. destruct (cleanup s); cbn [negb].
  - eexists _, _, _. split; [done|]. by rewrite <-Hd.
  - destruct (finishIfReady _) as [es b] eqn:E. eexists _, es, b. split; [reflexivity|]. done.
Qed.

Lemma beginClose_inv m : inv m -> inv (submit beginClose [] m).
Proof.
  intros I. destruct (submit_cases beginClose [] m) as [[_ ->]|(Hs & s & es & b & Ec & ->)]; [done|].
  destruct (closing (owner m)) eqn:Ecl.
  { unfold beginClose in Ec. rewrite Ecl in Ec. injection Ec as <- <- <-.
    eapply life_inv; [exact I|apply same_life_refl|]. by rewrite Hs. }
  assert (cleaning m = false) as Hcl.
  { destruct (cleaning m) eqn:E; [|done]. apply (v_cleaning m I) in E as [E _]. congruence. }
  destruct (v_open m I Ecl) as [H0 Hd].
  destruct (beginClose_spec _ Ecl Hd) as (s' & es' & b' & E & E1 & E3 & E4 & E5 & E6 & H).
  rewrite E in Ec. injection Ec as -> -> ->. pose proof (v_count m I) as Hn.
  destruct (cleanup (owner m)).
  - destruct H as (E2 & -> & ->). cbn [foldl perform].
    split; cbn; rewrite ?E1, ?E2, ?E3; try done; try apply I.
    + split; [done|]. by intros (_ & ? & _).
    + rewrite H0. lia.
    + intros H. by destruct (not_closed m I Hs H).
  - destruct H as [E2 Er]. apply ready_inv; [exact Er|exact Hs|by apply not_closed|..].
    + by rewrite E3.
    + apply (v_fresh m I).
    + rewrite Hcl, E2. by split; [|intros [_ ?]].
    + by rewrite E1.
    + apply (v_once m I).
    + by intros _.
Qed.

Lemma closers_inv m f : inv m -> inv (m <| closers ::= f |>).
Proof. intros []. by split. Qed.

Lemma step_keeps m e : inv m -> inv (step m e).
Proof.
  intros I.
  assert (forall call f, (call ∉ calls m -> inv (f (m <| calls ::= ({[call]} ∪.) |>))) ->
          inv (new_call call f m)) as Hnew.
  { intros call f H. unfold new_call. case_bool_decide; [done|by apply H]. }
  assert (forall call, inv (m <| calls ::= ({[call]} ∪.) |>)) as Hcalls.
  { intros call. destruct I. split; try done. cbn. set_solver. }
  assert (forall call, Forall spoken [Reply call (Some ErrRunnerClosed)]) as R1
    by by repeat constructor.
  assert (forall call, Forall spoken [Reply call (Some ErrRuntimeUnavailable)]) as R2
    by by repeat constructor.
  pose proof (v_fresh m I) as Hfresh.
  destruct e as [call|call a b c|replay|event|call before done|call before done|call|call err|err|call];
    cbn [step].
  - apply Hnew. intros _. apply lively_inv; [apply BeginStart_lively|done|done].
  - apply Hnew. intros _. apply lively_inv; [apply Install_lively|done|done].
  - apply lively_inv; [apply Activate_lively|done|done].
  - apply lively_inv; [apply Publish_lively|done|done].
  - apply Hnew. intros Hn. unfold operation. destruct before as [err|].
    { eapply quiet_inv; [apply (spoken_quiet [Reply call (Some err)])|done]. by repeat constructor. }
    apply (operate_inv send call done); [set_solver|set_solver|done|done].
  - apply Hnew. intros Hn. unfold operation. destruct before as [err|].
    { eapply quiet_inv; [apply (spoken_quiet [Reply call (Some err)])|done]. by repeat constructor. }
    apply (operate_inv abort call done); [set_solver|set_solver|done|done].
  - apply Hnew. intros _. by apply closers_inv, beginClose_inv.
  - case_bool_decide; [|done]. by apply finish_inv.
  - destruct (cleaning m) eqn:E; [|done]. by apply cleaned_inv.
  - destruct (bool_decide _ && _) eqn:E; [|done]. apply andb_true_iff in E as [_ E].
    destruct I. split; try done. cbn. apply Forall_app_2; [done|]. by repeat constructor.
Qed.

Lemma reachable_keeps m : reachable m -> inv m.
Proof.
  intros [es ->]. unfold run. assert (inv NewRunner) as I by apply runner_starts.
  revert I. generalize NewRunner. induction es as [|e es IH]; intros m I; [done|].
  by apply IH, step_keeps.
Qed.

(** ** After retirement *)

(** What a caller cannot take back: nothing runs, nothing more is shown. *)
Definition at_rest (m m' : machine) : Prop :=
  box m' = box m /\ stopErr m' = stopErr m /\ operations m' = operations m
  /\ cleanups m' = cleanups m /\ cleaning m' = cleaning m /\ delivered m' = delivered m.

#[local] Instance at_rest_preorder : PreOrder at_rest.
Proof. split; [by intros m|]. unfold at_rest. intros m m1 m2. intuition congruence. Qed.

Lemma retired_rests m : inv m -> retired m = true -> operations m = ∅ /\ cleaning m = false.
Proof.
  intros I H. destruct (proj1 (v_retired m I) H) as (_ & Hd & Ho). split; [done|].
  destruct (cleaning m) eqn:E; [|done]. apply (v_cleaning m I) in E as [_ E]. congruence.
Qed.

Lemma refused_submit c refused m : retired m = true -> submit c refused m = foldl perform m refused.
Proof. intros H. destruct (submit_cases c refused m) as [[_ ?]|[? _]]; congruence. Qed.

Lemma rest_step m e : inv m -> retired m = true -> at_rest m (step m e).
Proof.
  intros I H. destruct (retired_rests m I H) as [Ho Hc].
  assert (forall call f, at_rest m (f (m <| calls ::= ({[call]} ∪.) |>)) ->
          at_rest m (new_call call f m)) as Hnew.
  { intros call f Hf. unfold new_call. by case_bool_decide. }
  destruct e as [call|call a b c|replay|event|call before done|call before done|call|call err|err|call];
    cbn [step]; try apply Hnew; unfold operation; try (destruct before as [err|]);
    try by rewrite refused_submit.
  - done.
  - done.
  - rewrite bool_decide_false; [done|]. rewrite Ho. set_solver.
  - by rewrite Hc.
  - by destruct (bool_decide _ && _).
Qed.

Lemma rest_run es : forall m, inv m -> retired m = true -> at_rest m (run es m).
Proof.
  induction es as [|e es IH]; intros m I H; [done|].
  pose proof (rest_step m e I H) as Hr. cbn. etrans; [exact Hr|].
  apply IH; [by apply step_keeps|]. by rewrite (proj1 Hr).
Qed.

Lemma run_keeps es : forall m, inv m -> inv (run es m).
Proof. induction es as [|e es IH]; intros m I; [done|]. by apply IH, step_keeps. Qed.

(** C27: when a call of [Close] returns, every provider operation that was accepted has ended,
    the cleanup was started at most once and has ended, and the call returns the cleanup's
    error; whatever callers do afterwards, no operation starts, the cleanup does not run
    again, the host is shown nothing more, and every other [Close] returns the same error. *)
Theorem close_waits_for_everything m call err es :
  reachable m -> (call, err) ∈ closed m ->
  let m' := run es m in
  operations m = ∅ /\ cleaning m = false /\ (cleanups m <= 1)%nat
  /\ cleanupDone (owner m) = true /\ err = closeErr (owner m)
  /\ operations m' = ∅ /\ cleanups m' = cleanups m /\ delivered m' = delivered m
  /\ (forall call' err', (call', err') ∈ closed m' -> err' = err).
Proof.
  intros I%reachable_keeps Hc m'.
  assert (retired m = true) as Hr by (apply (v_closed m I); intros E; rewrite E in Hc; set_solver).
  destruct (retired_rests m I Hr) as [Ho Hcl].
  assert (err = stopErr m) as -> by (eapply Forall_forall in Hc; [exact Hc|apply (v_answers m I)]).
  destruct (rest_run es m I Hr) as (_ & E2 & E3 & E4 & _ & E6). fold m' in E2, E3, E4, E6.
  rewrite E3, E4, E6. repeat split; try done.
  - apply (v_once m I).
  - by apply (v_retired m I).
  - by apply (v_err m I).
  - intros call' err' H. rewrite <-E2.
    by apply (proj1 (Forall_forall _ _) (v_answers m' (run_keeps es m I))) in H.
Qed.

(** ** While the runner closes *)

(** The projections of a machine that a submission to a closing owner can only let fall. *)
Record winding (m m' : machine) : Prop := {
  w_closing : closing (owner m') = true;
  w_operations : operations m' ⊆ operations m;
  w_cleaning : cleaning m' = true -> cleaning m = true;
}.

Lemma winding_trans m m1 m2 : winding m m1 -> winding m1 m2 -> winding m m2.
Proof. intros [] []. split; [done|set_solver|tauto]. Qed.

Definition idle (e : effect) : Prop :=
  match e with Operate _ | Clean => False | _ => True end.

Lemma idle_keeps es : Forall idle es -> forall m,
  let m' := foldl perform m es in
  box m' = box m /\ operations m' = operations m /\ cleaning m' = cleaning m
  /\ closers m' = closers m /\ closed m' = closed m.
Proof.
  induction 1 as [|e es He _ IH]; intros m m'; [done|].
  destruct (IH (perform m e)) as (E1 & E2 & E3 & E4 & E5). fold m' in E1, E2, E3, E4, E5.
  unfold m'. cbn. rewrite E1, E2, E3, E4, E5. by destruct e.
Qed.

(** A command that a closing owner answers without starting anything. *)
Definition idles (c : command) : Prop := forall s, closing s = true ->
  exists s' es b, c s = (s', es, b) /\ closing s' = true /\ Forall idle es.

Lemma idles_keeps c refused m : idles c -> Forall idle refused -> closing (owner m) = true ->
  let m' := submit c refused m in
  closing (owner m') = true /\ operations m' = operations m /\ cleaning m' = cleaning m
  /\ closers m' = closers m /\ closed m' = closed m.
Proof.
  intros Hc Hr Hcl m'. unfold m'.
  destruct (submit_cases c refused m) as [[_ ->]|(_ & s & es & b & Ec & ->)].
  - destruct (idle_keeps refused Hr m) as (E1 & E2 & E3 & E4 & E5). by rewrite E1, E2, E3, E4, E5.
  - destruct (Hc _ Hcl) as (s' & es' & b' & Ec' & Hcl' & He). rewrite Ec in Ec'.
    injection Ec' as -> -> ->.
    destruct (idle_keeps es' He (m <| box := {| Mailbox.state := s'; Mailbox.stopped := b' |} |>))
      as (E1 & E2 & E3 & E4 & E5). by rewrite E1, E2, E3, E4, E5.
Qed.

Lemma ready_idle s : Forall idle (finishIfReady s).1.
Proof. unfold finishIfReady. case_match; by repeat constructor. Qed.

Ltac idles := intros s H; cbn; rewrite ?H; cbn; eexists _, _, _;
  (split; [reflexivity|]); (split; [done|]); by repeat constructor.

Lemma BeginStart_idles call : idles (BeginStart call).
Proof. unfold BeginStart. idles. Qed.
Lemma Install_idles call a b c : idles (Install call a b c).
Proof. unfold Install. idles. Qed.
Lemma Publish_idles e : idles (Publish e).
Proof. unfold Publish. idles. Qed.
Lemma Activate_idles replay : idles (Activate replay).
Proof. unfold Activate. idles. Qed.
Lemma beginClose_idles : idles beginClose.
Proof. unfold beginClose. idles. Qed.
Lemma operate_idles available call done :
  idles (fun s => operate (available s) call done s).
Proof. unfold operate. destruct done as [err|]; idles. Qed.
Lemma finish_idles call err : idles (finishOperation call err).
Proof.
  intros s H. unfold finishOperation. set (s1 := s <| inFlight ::= _ |>).
  pose proof (ready_idle s1). destruct (finishIfReady s1) as [es b].
  eexists _, _, _. split; [reflexivity|]. split; [done|]. by constructor.
Qed.
Lemma cleaned_idles err : idles (cleaned err).
Proof.
  intros s H. unfold cleaned. set (s1 := _ <| closeErr := err |>).
  pose proof (ready_idle s1). destruct (finishIfReady s1) as [es b].
  by eexists _, _, _.
Qed.

Lemma idles_winds c refused m m1 : idles c -> Forall idle refused -> closing (owner m1) = true ->
  operations m1 ⊆ operations m -> (cleaning m1 = true -> cleaning m = true) ->
  winding m (submit c refused m1).
Proof.
  intros Hc Hr Hcl Ho Hg. destruct (idles_keeps c refused m1 Hc Hr Hcl) as (E1 & E2 & E3 & _).
  split; rewrite ?E2, ?E3; done.
Qed.

Lemma winding_step m e : closing (owner m) = true -> winding m (step m e).
Proof.
  intros Hcl. assert (winding m m) as Hrefl by (by split).
  assert (forall call f, winding m (f (m <| calls ::= ({[call]} ∪.) |>)) ->
          winding m (new_call call f m)) as Hnew.
  { intros call f Hf. unfold new_call. by case_bool_decide. }
  assert (forall call err, Forall idle [Reply call err]) as HR by by repeat constructor.
  destruct e as [call|call a b c|replay|event|call before done|call before done|call|call err|err|call];
    cbn [step]; try apply Hnew.
  - by apply idles_winds; [apply BeginStart_idles|..].
  - by apply idles_winds; [apply Install_idles|..].
  - by apply idles_winds; [apply Activate_idles|..].
  - by apply idles_winds; [apply Publish_idles|..].
  - unfold operation. destruct before as [err|]; [by split|].
    by apply idles_winds; [apply (operate_idles send)|..].
  - unfold operation. destruct before as [err|]; [by split|].
    by apply idles_winds; [apply (operate_idles abort)|..].
  - destruct (idles_winds beginClose [] m (m <| calls ::= ({[call]} ∪.) |>) beginClose_idles)
      as [H1 H2 H3]; try done.
  - case_bool_decide; [|done].
    apply idles_winds; [apply finish_idles|done|done|cbn; set_solver|done].
  - destruct (cleaning m) eqn:E; [|done]. by apply idles_winds; [apply cleaned_idles|..].
  - by destruct (bool_decide _ && _).
Qed.

Lemma winding_run es : forall m, closing (owner m) = true -> winding m (run es m).
Proof.
  induction es as [|e es IH]; intros m Hcl; [by split|]. cbn.
  pose proof (winding_step m e Hcl) as H. eapply winding_trans; [exact H|].
  by apply IH, (w_closing _ _ H).
Qed.

Lemma operation_ends m call err : closing (owner m) = true ->
  call ∉ operations (step m (EOperationEnds call err)).
Proof.
  intros Hcl. cbn [step]. case_bool_decide; [|done].
  destruct (idles_keeps (finishOperation call err) [Reply call err]
              (m <| operations ::= (.∖ {[call]}) |>)) as (_ & -> & _);
    [apply finish_idles|by repeat constructor|done|cbn; set_solver].
Qed.

Lemma cleanup_ends m err : closing (owner m) = true ->
  cleaning (step m (ECleanupEnds err)) = false.
Proof.
  intros Hcl. cbn [step]. destruct (cleaning m) eqn:E; [|done].
  by destruct (idles_keeps (cleaned err) [] (m <| cleaning := false |>))
    as (_ & _ & -> & _); [apply cleaned_idles|..].
Qed.

Lemma run_app es es' m : run (es ++ es') m = run es' (run es m).
Proof. apply foldl_app. Qed.

Lemma closing_ends es m : inv m -> closing (owner m) = true ->
  (forall call, call ∈ operations m -> exists err, EOperationEnds call err ∈ es) ->
  (cleaning m = true -> exists err, ECleanupEnds err ∈ es) ->
  retired (run es m) = true.
Proof.
  intros I Hcl Ho Hg.
  destruct (winding_run es m Hcl) as [W1 W2 W3].
  assert (forall e, e ∈ es -> exists m0, closing (owner m0) = true
            /\ winding (step m0 e) (run es m)) as Hafter.
  { intros e (es1 & es2 & ->)%list_elem_of_split.
    pose proof (w_closing _ _ (winding_run es1 m Hcl)) as H1.
    exists (run es1 m). split; [done|]. rewrite run_app. cbn.
    by apply winding_run, (w_closing _ _ (winding_step _ e H1)). }
  assert (operations (run es m) = ∅) as Eo.
  { apply set_eq. intros call. split; [|set_solver]. intros Hin.
    destruct (Ho call (W2 _ Hin)) as (err & (m0 & H1 & H2)%Hafter).
    exfalso. eapply operation_ends; [exact H1|]. by apply (w_operations _ _ H2). }
  assert (cleaning (run es m) = false) as Eg.
  { apply not_true_is_false. intros E. destruct (Hg (W3 E)) as (err & (m0 & H1 & H2)%Hafter).
    pose proof (w_cleaning _ _ H2 E) as H. rewrite cleanup_ends in H; done. }
  pose proof (run_keeps es m I) as I'. apply (v_retired _ I'). split; [done|]. split; [|done].
  destruct (cleanupDone (owner (run es m))) eqn:E; [done|].
  rewrite <-Eg. by apply (v_cleaning _ I').
Qed.

(** A call of [Close] waits, or has returned. *)
Definition waits (call : nat) (m : machine) : Prop :=
  call ∈ closers m \/ exists err, (call, err) ∈ closed m.

Lemma perform_closers es : forall m, let m' := foldl perform m es in
  closers m' = closers m /\ closed m' = closed m.
Proof.
  induction es as [|e es IH]; intros m m'; [done|]. unfold m'. cbn.
  destruct (IH (perform m e)) as [-> ->]. by destruct e.
Qed.

Lemma submit_closers c refused m :
  closers (submit c refused m) = closers m /\ closed (submit c refused m) = closed m.
Proof.
  destruct (submit_cases c refused m) as [[_ ->]|(_ & s & es & b & _ & ->)];
    [apply perform_closers|].
  by destruct (perform_closers es (m <| box := {| Mailbox.state := s; Mailbox.stopped := b |} |>))
    as [-> ->].
Qed.

Lemma waits_step call m e : waits call m -> waits call (step m e).
Proof.
  intros H. assert (forall m' : machine, closers m' = closers m -> closed m' = closed m ->
    waits call m') as Hsame by (unfold waits; intros m' -> ->; done).
  assert (forall c refused m', closers m' = closers m -> closed m' = closed m ->
    waits call (submit c refused m')) as Hsubmit.
  { intros c refused m' E1 E2. destruct (submit_closers c refused m') as [F1 F2].
    apply Hsame; congruence. }
  assert (forall call' f, waits call (f (m <| calls ::= ({[call']} ∪.) |>)) ->
          waits call (new_call call' f m)) as Hnew.
  { intros call' f Hf. unfold new_call. by case_bool_decide. }
  destruct e; cbn [step]; try apply Hnew; unfold operation;
    repeat (case_bool_decide || case_match); try (by apply Hsubmit); try by apply Hsame.
  - destruct (submit_closers beginClose [] (m <| calls ::= ({[call0]} ∪.) |>)) as [E1 E2].
    destruct H as [H|[err H]].
    + left. change (call ∈ {[call0]} ∪ closers
        (submit beginClose [] (m <| calls ::= ({[call0]} ∪.) |>))). rewrite E1. set_solver.
    + right. exists err. change ((call, err) ∈ closed
        (submit beginClose [] (m <| calls ::= ({[call0]} ∪.) |>))). by rewrite E2.
  - destruct (decide (call = call0)) as [->|Hne].
    + right. exists (stopErr m). cbn. set_solver.
    + destruct H as [H|[err H]]; [left; cbn; set_solver|right; exists err; cbn; set_solver].
Qed.

Lemma waits_run call es : forall m, waits call m -> waits call (run es m).
Proof. induction es as [|e es IH]; intros m H; [done|]. by apply IH, waits_step. Qed.

(** The owner is closing after a call of [Close], whatever it was before. *)
Lemma close_closes m call : inv m -> call ∉ calls m ->
  let m1 := step m (EClose call) in closing (owner m1) = true /\ call ∈ closers m1.
Proof.
  intros I Hn m1. unfold m1. cbn [step]. unfold new_call. rewrite bool_decide_false by done.
  set (m2 := m <| calls ::= _ |>). split; [|cbn; set_solver].
  enough (closing (owner (submit beginClose [] m2)) = true) by done.
  destruct (submit_cases beginClose [] m2) as [[H ->]|(_ & s & es & b & Ec & ->)].
  { by apply (v_retired m I) in H as [? _]. }
  assert (Forall idle es \/ es = [Clean]) as He.
  { unfold beginClose in Ec. repeat case_match; simplify_eq; auto.
    left. match goal with H : finishIfReady ?s = _ |- _ => pose proof (ready_idle s) as G;
      rewrite H in G; done end. }
  assert (closing s = true) as Hs
    by (unfold beginClose in Ec; repeat case_match; by simplify_eq).
  destruct He as [He| ->]; [|done].
  by destruct (idle_keeps es He (m2 <| box := {| Mailbox.state := s; Mailbox.stopped := b |} |>))
    as [-> _].
Qed.

(** A call of [Close] returns.  Provider operations return once their context is cancelled
    and the cleanup returns; in whatever order they do, and whatever else callers ask for in
    between, the owner then retires, and the call returns when it is next scheduled. *)
Theorem close_returns m call es :
  reachable m -> call ∉ calls m ->
  let m1 := step m (EClose call) in
  (forall op, op ∈ operations m1 -> exists err, EOperationEnds op err ∈ es) ->
  (cleaning m1 = true -> exists err, ECleanupEnds err ∈ es) ->
  exists err, (call, err) ∈ closed (run (es ++ [EClosed call]) m1).
Proof.
  intros I%reachable_keeps Hn m1 Ho Hg. destruct (close_closes m call I Hn) as [Hcl Hin].
  fold m1 in Hcl, Hin. pose proof (step_keeps m (EClose call) I) as I1. fold m1 in I1.
  pose proof (closing_ends es m1 I1 Hcl Ho Hg) as Hr. rewrite run_app. cbn [run foldl step].
  destruct (waits_run call es m1 (or_introl Hin)) as [Hw|[err Hw]].
  - rewrite bool_decide_true, Hr by done. cbn. exists (stopErr (run es m1)). set_solver.
  - exists err. by destruct (_ && _); [cbn; set_solver|].
Qed.

(** ** What the host is shown *)

Definition published : list event -> list Event :=
  omap (fun e => match e with EPublish event => Some event | _ => None end).

Definition open_event (e : event) : Prop := match e with EClose _ => False | _ => True end.
Definition mute_event (e : event) : Prop := match e with EActivate _ => False | _ => open_event e end.

(** What a step of an open runner does to the host's view: [es] is what it is shown. *)
Record tells (m m' : machine) (active : bool) (held es : list Event) : Prop := {
  t_closing : closing (owner m') = false;
  t_active : eventsActive (owner m') = active;
  t_pending : pending (owner m') = held;
  t_delivered : delivered m' = delivered m ++ es;
}.

Lemma tells_refl m m' : closing (owner m) = false -> owner m' = owner m ->
  delivered m' = delivered m ->
  tells m m' (eventsActive (owner m)) (pending (owner m)) [].
Proof. intros H E1 E2. split; rewrite ?E1, ?app_nil_r; done. Qed.

Definition hushed (e : effect) : Prop := match e with Deliver _ => False | _ => True end.

Lemma hushed_keeps es : Forall hushed es -> forall m,
  let m' := foldl perform m es in box m' = box m /\ delivered m' = delivered m.
Proof.
  induction 1 as [|e es He _ IH]; intros m m'; [done|]. unfold m'. cbn.
  destruct (IH (perform m e)) as [-> ->]. by destruct e.
Qed.

Lemma hushed_tells m0 c s es b : retired m0 = false -> closing (owner m0) = false ->
  c (owner m0) = (s, es, b) -> Forall hushed es -> closing s = false ->
  eventsActive s = eventsActive (owner m0) -> pending s = pending (owner m0) ->
  forall refused m, box m = box m0 -> delivered m = delivered m0 ->
  tells m0 (submit c refused m) (eventsActive (owner m0)) (pending (owner m0)) [].
Proof.
  intros Hr Hcl Ec He H1 H2 H3 refused m Eb Ed.
  destruct (submit_cases c refused m) as [[E _]|(_ & s' & es' & b' & Ec' & ->)]; [congruence|].
  rewrite Eb, Ec in Ec'. injection Ec' as <- <- <-.
  destruct (hushed_keeps es He (m <| box := {| Mailbox.state := s; Mailbox.stopped := b |} |>))
    as [E1 E2].
  split; rewrite ?E1, ?E2; cbn; by rewrite ?Ed, ?app_nil_r.
Qed.

Lemma not_ready s : closing s = false -> finishIfReady s = ([], false).
Proof. intros H. unfold finishIfReady. by rewrite H. Qed.

Lemma open_runs m : inv m -> closing (owner m) = false -> retired m = false /\ cleaning m = false.
Proof.
  intros I H. split; apply not_true_is_false; intros E.
  - apply (v_retired m I) in E as [E _]. congruence.
  - apply (v_cleaning m I) in E as [E _]. congruence.
Qed.

Lemma mute_tells m e : inv m -> closing (owner m) = false -> mute_event e ->
  match e with EPublish _ => False | _ => True end ->
  tells m (step m e) (eventsActive (owner m)) (pending (owner m)) [].
Proof.
  intros I Hcl Hm Hp. destruct (open_runs m I Hcl) as [Hr Hg].
  assert (forall call f, tells m (f (m <| calls ::= ({[call]} ∪.) |>))
            (eventsActive (owner m)) (pending (owner m)) [] ->
          tells m (new_call call f m) (eventsActive (owner m)) (pending (owner m)) []) as Hnew.
  { intros call f Hf. unfold new_call. case_bool_decide; [by apply tells_refl|done]. }
  assert (forall call err, Forall hushed [Reply call err]) as HR by by repeat constructor.
  assert (forall available call done refused m1, box m1 = box m -> delivered m1 = delivered m ->
    tells m (submit (fun s => operate (available s) call done s) refused m1)
      (eventsActive (owner m)) (pending (owner m)) []) as Hop.
  { intros available call done refused m1 Eb Ed.
    destruct (operate (available (owner m)) call done (owner m)) as [[s es] b] eqn:E.
    eapply hushed_tells; [done|done|exact E|..];
      unfold operate in E; repeat case_match; simplify_eq; cbn; try done; by repeat constructor. }
  destruct e as [call|call a b c|replay|event|call before done|call before done|call|call err|err|call];
    try (by destruct Hm); try (by destruct Hp); cbn [step]; try apply Hnew.
  - destruct (BeginStart call (owner m)) as [[s es] b] eqn:E. eapply hushed_tells; [done|done|exact E|..];
      unfold BeginStart in E; repeat case_match; simplify_eq; cbn; try done; by repeat constructor.
  - destruct (Install call a b c (owner m)) as [[s es] b'] eqn:E.
    eapply hushed_tells; [done|done|exact E|..];
      unfold Install in E; repeat case_match; simplify_eq; cbn; try done; by repeat constructor.
  - unfold operation. destruct before as [err|]; [by apply tells_refl|]. by apply (Hop send).
  - unfold operation. destruct before as [err|]; [by apply tells_refl|]. by apply (Hop abort).
  - case_bool_decide; [|by apply tells_refl].
    destruct (finishOperation call err (owner m)) as [[s es] b] eqn:E.
    eapply hushed_tells; [done|done|exact E|..]; unfold finishOperation in E;
      rewrite not_ready in E by done; simplify_eq; cbn; try done; by repeat constructor.
  - rewrite Hg. by apply tells_refl.
  - destruct (_ && _); by apply tells_refl.
Qed.

Lemma publish_tells m event : inv m -> closing (owner m) = false ->
  tells m (step m (EPublish event)) (eventsActive (owner m))
    (if eventsActive (owner m) then pending (owner m) else pending (owner m) ++ [event])
    (if eventsActive (owner m) then [event] else []).
Proof.
  intros I Hcl. destruct (open_runs m I Hcl) as [Hr _]. cbn [step].
  destruct (submit_cases (Publish event) [] m) as [[E _]|(_ & s & es & b & Ec & ->)]; [congruence|].
  unfold Publish in Ec. rewrite Hcl in Ec.
  destruct (eventsActive (owner m)) eqn:Ea; cbn in Ec; simplify_eq; split; cbn; try done.
  by rewrite app_nil_r.
Qed.

Lemma activate_tells m replay : inv m -> closing (owner m) = false ->
  tells m (step m (EActivate replay)) true
    (if eventsActive (owner m) then pending (owner m) else [])
    (if eventsActive (owner m) then [] else deduplicate [replay; pending (owner m)]).
Proof.
  intros I Hcl. destruct (open_runs m I Hcl) as [Hr _]. cbn [step].
  destruct (submit_cases (Activate replay) [] m) as [[E _]|(_ & s & es & b & Ec & ->)]; [congruence|].
  unfold Activate in Ec. rewrite Hcl in Ec.
  destruct (eventsActive (owner m)) eqn:Ea; cbn [orb] in Ec; injection Ec as <- <- <-.
  - split; cbn; try done. by rewrite app_nil_r.
  - rewrite deliver_all. by split.
Qed.

Lemma mute_run es : forall m, inv m -> closing (owner m) = false ->
  eventsActive (owner m) = false -> Forall mute_event es ->
  tells m (run es m) false (pending (owner m) ++ published es) [].
Proof.
  induction es as [|e es IH]; intros m I Hcl Ha Hes.
  { cbn. rewrite app_nil_r, <-Ha. by apply tells_refl. }
  apply Forall_cons in Hes as [He Hes]. pose proof (step_keeps m e I) as I1.
  assert (tells m (step m e) false (pending (owner m) ++ published [e]) []) as [T1 T2 T3 T4].
  { destruct e; try (cbn [published omap]; rewrite app_nil_r, <-Ha; by apply mute_tells).
    pose proof (publish_tells m event0 I Hcl) as T. by rewrite Ha in T. }
  destruct (IH _ I1 T1 T2 Hes) as [S1 S2 S3 S4].
  change (run (e :: es) m) with (run es (step m e)).
  split; [done|done| |by rewrite S4, T4, !app_nil_r].
  rewrite S3, T3, <-app_assoc. f_equal. by destruct e.
Qed.

Lemma active_run es : forall m, inv m -> closing (owner m) = false ->
  eventsActive (owner m) = true -> pending (owner m) = [] -> Forall open_event es ->
  tells m (run es m) true [] (published es).
Proof.
  induction es as [|e es IH]; intros m I Hcl Ha Hp Hes.
  { rewrite <-Ha, <-Hp. by apply tells_refl. }
  apply Forall_cons in Hes as [He Hes]. pose proof (step_keeps m e I) as I1.
  assert (tells m (step m e) true [] (published [e])) as [T1 T2 T3 T4].
  { destruct e; try (cbn [published omap]; rewrite <-Ha, <-Hp; by apply mute_tells).
    - pose proof (activate_tells m replay I Hcl) as T. by rewrite Ha, Hp in T.
    - pose proof (publish_tells m event0 I Hcl) as T. by rewrite Ha, Hp in T. }
  destruct (IH _ I1 T1 T2 T3 Hes) as [S1 S2 S3 S4].
  change (run (e :: es) m) with (run es (step m e)). split; try done.
  rewrite S4, T4, <-app_assoc. f_equal. by destruct e.
Qed.

(** What survives: the events in their order, each with an identifier of its own or none, and
    of every identifier the first event that had it. *)
Lemma deduplicate_from_spec es : forall seen,
  let out := deduplicate_from seen es in
  out `sublist_of` es
  /\ NoDup (filter (.≠ "") (eventID <$> out))
  /\ (forall e, e ∈ out -> eventID e = "" \/ eventID e ∉ seen)
  /\ (forall e, e ∈ es -> e ∈ out \/ eventID e ∈ seen \/ exists e', e' ∈ out /\ eventID e' = eventID e).
Proof.
  induction es as [|e es IH]; intros seen out.
  { repeat split; try set_solver; constructor. }
  unfold out. cbn [deduplicate_from].
  case_bool_decide as E1; [|case_bool_decide as E2].
  - destruct (IH seen) as (A & B & C & D). split; [by constructor|]. split; [|set_solver].
    cbn [fmap list_fmap]. by rewrite filter_cons_False by (intros H; by apply H).
  - destruct (IH seen) as (A & B & C & D). split; [by constructor|]. set_solver.
  - destruct (IH ({[eventID e]} ∪ seen)) as (A & B & C & D). split; [by constructor|].
    split; [|set_solver].
    cbn [fmap list_fmap]. rewrite filter_cons_True by done. constructor; [|done].
    intros [_ (e' & E & [H|H]%C)%list_elem_of_fmap]%list_elem_of_filter; [congruence|set_solver].
Qed.

(** The host is shown the replay of an earlier session first, then what the provider called
    back before the runner was activated, then every later event, each once and in order; of
    replay and early callbacks together an identifier is shown once, at its first place, and
    events without one are all shown. *)
Theorem replay_comes_first pre replay post :
  Forall mute_event pre -> Forall open_event post ->
  let early := deduplicate [replay; published pre] in
  delivered (run (pre ++ EActivate replay :: post) NewRunner) = early ++ published post
  /\ early `sublist_of` replay ++ published pre
  /\ NoDup (filter (.≠ "") (eventID <$> early))
  /\ (forall e, e ∈ replay ++ published pre ->
        e ∈ early \/ exists e', e' ∈ early /\ eventID e' = eventID e).
Proof.
  intros Hpre Hpost early.
  pose proof (run_keeps pre NewRunner runner_starts) as I.
  destruct (mute_run pre NewRunner runner_starts) as [M1 M2 M3 M4]; try done.
  destruct (activate_tells _ replay I M1) as [T1 T2 T3 T4]. rewrite M2 in T3. rewrite M2, M3 in T4.
  destruct (active_run post _ (step_keeps _ (EActivate replay) I) T1 T2 T3 Hpost)
    as [_ _ _ A4].
  destruct (deduplicate_from_spec (replay ++ published pre) ∅) as (D1 & D2 & _ & D4).
  assert (early = deduplicate_from ∅ (replay ++ published pre)) as ->
    by (unfold early, deduplicate; cbn; by rewrite app_nil_r).
  repeat split; [|done|done|].
  - rewrite run_app. change (run (EActivate replay :: post) (run pre NewRunner))
      with (run post (step (run pre NewRunner) (EActivate replay))).
    rewrite A4, T4, M4. unfold deduplicate. cbn. by rewrite app_nil_r.
  - intros e He. destruct (D4 e He) as [?|[?|?]]; [by left|set_solver|by right].
Qed.
End runner.

(** ** A session *)

Module Session.
(** An event is its identifier. *)
Definition before : list (event (Event := string)) :=
  [EBeginStart 0; EInstall 1 true true true; EPublish "b"; EPublish ""].
Definition after : list (event (Event := string)) :=
  [EPublish "a"; ESend 2 None None; EPublish "c"].
Definition opened := run id (before ++ EActivate ["a"; "b"] :: after) NewRunner.
Definition ended : list (event (Event := string)) :=
  [EClose 4; EPublish "d"; EOperationEnds 2 (Some "context canceled"); ECleanupEnds (Some "busy")].
Definition retires := run id (EClose 3 :: ended ++ [EClosed 3]) opened.

Lemma retires_reachable : reachable id retires.
Proof. eexists. unfold retires, opened, run. rewrite <-foldl_app. reflexivity. Qed.
Lemma opened_reachable : reachable id opened.
Proof. by eexists. Qed.

Lemma close_waits_for_everything_witness : closed retires = [(3%nat, Some "busy")]
  /\ forall call' err', (call', err') ∈ closed (run id [EClosed 4] retires) -> err' = Some "busy".
Proof.
  split; [vm_compute; reflexivity|].
  apply (close_waits_for_everything id retires 3 (Some "busy") [EClosed 4]);
    [apply retires_reachable|].
  assert (closed retires = [(3%nat, Some "busy")]) as -> by (vm_compute; reflexivity).
  by apply list_elem_of_singleton.
Defined.

Lemma close_returns_witness : exists err,
  (3%nat, err) ∈ closed (run id (ended ++ [EClosed 3]) (step id opened (EClose 3))).
Proof.
  apply (close_returns id opened 3 ended opened_reachable).
  - apply (bool_decide_eq_true_1 _). vm_compute. reflexivity.
  - intros op. assert (operations (step id opened (EClose 3)) = {[2%nat]}) as ->
      by (vm_compute; reflexivity).
    intros ->%elem_of_singleton. exists (Some "context canceled"). set_solver.
  - intros _. exists (Some "busy"). set_solver.
Defined.

Lemma replay_comes_first_witness : delivered opened = ["a"; "b"; ""; "a"; "c"].
Proof.
  destruct (replay_comes_first id before ["a"; "b"] after) as [H _];
    [by repeat constructor..|].
  unfold opened. etrans; [exact H|]. vm_compute. reflexivity.
Defined.
End Session.
