(* ===== verification/GotthProtocol.v ===== *)
(** * gotth: the wire protocol of pkg/gotth/internal/protocol.

    [pb] holds the messages of frame.proto as the generated code declares them, with
    the refinement validators of frame_liquid.pb.go; after it come the hand-checked
    invariants (invariants.go, limits.go), the inbound boundary (inbound.go), the
    outbound one (outbound.go) and the frame constructors (frames.go).  Protobuf's
    own encoding is a parameter of the boundaries; an error is a constructor naming
    what was refused, its text is not modelled. *)
From Stdlib Require Import String Ascii NArith Lia.
From stdpp Require Import base list strings.
From S2P Require Import Prelude.
From S2P Require Import GoStd.
From S2P Require Import GoText.
Open Scope N_scope.

Definition len (s : string) : N := N.of_nat (String.length s).

(** ** Messages *)

Module pb.
Record EventField := mkEventField { Key : string; Value : string }.
Record Event := mkEvent {
  Event_ClientRef : N; Event_Name : string; Event_FragmentId : string;
  Event_SeenServerSeq : N; Event_Fields : list EventField }.
Record Ack := mkAck { Ack_ServerSeq : N }.
Record ResyncRequest := mkResyncRequest { LastAppliedSeq : N; Reason : Z }.
Record ClientTelemetry := mkClientTelemetry {
  Telemetry_PatchId : N; MorphMicros : N; ApplyMicros : N }.
Record FragmentUpdate := mkFragmentUpdate {
  Update_FragmentId : string; Update_Op : Z; Update_Html : string }.
Record Origin := mkOrigin {
  Origin_Kind : Z; Origin_EventId : N; Origin_ClientRef : N; Origin_Source : string;
  ContributingEventIds : list N }.
Record Patch := mkPatch {
  Patch_ServerSeq : N; Patch_PatchId : N; Patch_TransitionId : N; Patch_StateVersion : N;
  Patch_Origin : option Origin; Patch_Updates : list FragmentUpdate }.
Record Snapshot := mkSnapshot {
  Snapshot_ServerSeq : N; Snapshot_PatchId : N; Snapshot_TransitionId : N;
  Snapshot_StateVersion : N; Snapshot_Origin : option Origin;
  HeartbeatIntervalMs : N; MaxInboundFrameBytes_ : N; AckWindow_ : N;
  Snapshot_Updates : list FragmentUpdate;
  SupersededFromSeq : N; SupersededThroughSeq : N }.
Record Error := mkError {
  Error_Code : Z; Error_Message : string; Error_EventId : N; Error_ClientRef : N;
  Fatal : bool }.
Record Heartbeat := mkHeartbeat { Nonce : N; IntervalMs : N }.

(** The members of the payload oneof. *)
Inductive payload :=
| Frame_Event (m : Event) | Frame_Ack (m : Ack) | Frame_ClientTelemetry (m : ClientTelemetry)
| Frame_ResyncRequest (m : ResyncRequest) | Frame_Patch (m : Patch)
| Frame_Snapshot (m : Snapshot) | Frame_Error (m : Error) | Frame_Heartbeat (m : Heartbeat).

Record Frame := mkFrame {
  ProtocolVersion : N; SessionId : string; Payload : option payload }.

(** PatchOp *)
Definition MORPH : Z := 1.
Definition APPEND : Z := 2.
Definition PREPEND : Z := 3.
Definition REMOVE : Z := 4.
Definition PatchOp_values : list Z := [0; MORPH; APPEND; PREPEND; REMOVE]%Z.
(** OriginKind *)
Definition CLIENT_EVENT : Z := 1.
Definition EFFECT : Z := 2.
Definition TIMER : Z := 3.
Definition PUBSUB : Z := 4.
Definition MOUNT : Z := 5.
Definition RESYNC : Z := 6.
Definition OriginKind_values : list Z :=
  [0; CLIENT_EVENT; EFFECT; TIMER; PUBSUB; MOUNT; RESYNC]%Z.
(** ResyncReason: GAP, RECONNECT, CLIENT_REQUEST. *)
Definition ResyncReason_values : list Z := [0; 1; 2; 3]%Z.
(** ErrorCode *)
Definition UNSUPPORTED_VERSION : Z := 1.
Definition UNAUTHORIZED : Z := 2.
Definition INVALID_FRAME : Z := 3.
Definition UNKNOWN_EVENT : Z := 4.
Definition UNKNOWN_FRAGMENT : Z := 5.
Definition RATE_LIMITED : Z := 6.
Definition INTERNAL : Z := 7.
Definition RESYNC_FAILED : Z := 8.
Definition ErrorCode_values : list Z := [0; 1; 2; 3; 4; 5; 6; 7; 8]%Z.

(** *** The generated refinements *)

Import Regexp.
Definition lower : ascii * ascii := ("a", "z")%char.
Definition upper : ascii * ascii := ("A", "Z")%char.
Definition number : ascii * ascii := ("0", "9")%char.
(** [^[a-z][a-z0-9_.:-]*$] *)
Definition EventNameRe : Regexp.t :=
  Cat (Class [lower]) (Star (Class [lower; number; one "_"; one "."; one ":"; one "-"]%char)).
(** [^[A-Za-z0-9_:.-]+$] *)
Definition FragmentIdRe : Regexp.t :=
  Plus (Class [upper; lower; number; one "_"; one ":"; one "."; one "-"]%char).
(** [^[A-Za-z0-9_.\[\]-]+$] *)
Definition EventFieldKeyRe : Regexp.t :=
  Plus (Class [upper; lower; number; one "_"; one "."; one "["; one "]"; one "-"]%char).
(** [^[a-z][a-z0-9_.:/-]*$] *)
Definition OriginSourceRe : Regexp.t :=
  Cat (Class [lower])
      (Star (Class [lower; number; one "_"; one "."; one ":"; one "/"; one "-"]%char)).
End pb.
Import pb.

Inductive error :=
| Refined (message field : string)
| EnumUnspecified | EnumUndeclared (n : Z) | ListBound (field : string) | NoListBound (field : string)
| OrphanPatch | OriginEventID | OriginClientRef | ErrorIDs
| SupersededPair | SupersededKind | SupersededEmpty | SupersededEnd
| NoPayload | WrongPayload | MarshalFailed | EmptyFrame.

(** One predicate of a generated validator. *)
Definition refine (b : bool) (message field : string) : result error unit :=
  guard! b else Refined message field in Ok tt.
(** Checks in order; the first failure is the result. *)
Fixpoint checks (l : list (result error unit)) : result error unit :=
  match l with
  | [] => Ok tt
  | c :: l => let! _ := c in checks l
  end.

Definition ValidateFrame (m : Frame) : result error unit :=
  checks [
    refine (0 <? ProtocolVersion m) "Frame" "protocol_version";
    refine (len (SessionId m) =? 16) "Frame" "session_id"].

Definition ValidateEvent (m : Event) : result error unit :=
  checks [
    refine (0 <? Event_ClientRef m) "Event" "client_ref";
    refine ((0 <? len (Event_Name m)) && (len (Event_Name m) <=? 64)
            && Regexp.MatchString EventNameRe (Event_Name m)) "Event" "name";
    refine ((0 <? len (Event_FragmentId m)) && (len (Event_FragmentId m) <=? 64)
            && Regexp.MatchString FragmentIdRe (Event_FragmentId m)) "Event" "fragment_id";
    refine (0 <? Event_SeenServerSeq m) "Event" "seen_server_seq"].

Definition ValidateEventField (m : EventField) : result error unit :=
  checks [
    refine ((0 <? len (Key m)) && (len (Key m) <=? 128)
            && Regexp.MatchString EventFieldKeyRe (Key m)) "EventField" "key";
    refine (len (Value m) <=? 8192) "EventField" "value"].

Definition ValidateAck (m : Ack) : result error unit :=
  refine (0 <? Ack_ServerSeq m) "Ack" "server_seq".

Definition ValidateResyncRequest (m : ResyncRequest) : result error unit :=
  refine (0 <? LastAppliedSeq m) "ResyncRequest" "last_applied_seq".

Definition ValidateClientTelemetry (m : ClientTelemetry) : result error unit :=
  checks [
    refine (0 <? Telemetry_PatchId m) "ClientTelemetry" "patch_id";
    refine (MorphMicros m <=? 60000000) "ClientTelemetry" "morph_micros";
    refine (ApplyMicros m <=? 60000000) "ClientTelemetry" "apply_micros"].

Definition ValidatePatch (m : Patch) : result error unit :=
  checks [
    refine (0 <? Patch_ServerSeq m) "Patch" "server_seq";
    refine (0 <? Patch_PatchId m) "Patch" "patch_id";
    refine (0 <? Patch_TransitionId m) "Patch" "transition_id";
    refine (0 <? Patch_StateVersion m) "Patch" "state_version"].

Definition ValidateSnapshot (m : Snapshot) : result error unit :=
  checks [
    refine (0 <? Snapshot_ServerSeq m) "Snapshot" "server_seq";
    refine (0 <? Snapshot_PatchId m) "Snapshot" "patch_id";
    refine (0 <? Snapshot_TransitionId m) "Snapshot" "transition_id";
    refine (0 <? Snapshot_StateVersion m) "Snapshot" "state_version";
    refine ((1000 <=? HeartbeatIntervalMs m) && (HeartbeatIntervalMs m <=? 300000))
      "Snapshot" "heartbeat_interval_ms";
    refine ((1024 <=? MaxInboundFrameBytes_ m) && (MaxInboundFrameBytes_ m <=? 1048576))
      "Snapshot" "max_inbound_frame_bytes";
    refine ((1 <=? AckWindow_ m) && (AckWindow_ m <=? 256)) "Snapshot" "ack_window"].

Definition ValidateFragmentUpdate (m : FragmentUpdate) : result error unit :=
  checks [
    refine ((0 <? len (Update_FragmentId m)) && (len (Update_FragmentId m) <=? 64)
            && Regexp.MatchString FragmentIdRe (Update_FragmentId m))
      "FragmentUpdate" "fragment_id";
    refine (len (Update_Html m) <=? 1048576) "FragmentUpdate" "html"].

(** A nil message is refused too. *)
Definition ValidateOrigin (m : option Origin) : result error unit :=
  match m with
  | None => Err OrphanPatch
  | Some m =>
      refine ((0 <? len (Origin_Source m)) && (len (Origin_Source m) <=? 64)
              && Regexp.MatchString OriginSourceRe (Origin_Source m)) "Origin" "source"
  end.

Definition ValidateError (m : Error) : result error unit :=
  refine (len (Error_Message m) <=? 512) "Error" "message".

Definition ValidateHeartbeat (m : Heartbeat) : result error unit :=
  checks [
    refine (0 <? Nonce m) "Heartbeat" "nonce";
    refine ((1000 <=? IntervalMs m) && (IntervalMs m <=? 300000)) "Heartbeat" "interval_ms"].

(** ** Hand-checked invariants *)

(** A message as the descriptor walk sees it: its fields in declaration order. *)
Inductive field :=
| FScalar
| FEnum (declared : list Z) (n : Z)
| FList (name : string) (length : N)
| FMessage (m : option (list field))
| FMessages (name : string) (ms : list (list field)).

Definition reflect_EventField (m : EventField) : list field := [FScalar; FScalar].
Definition reflect_Event (m : Event) : list field :=
  [FScalar; FScalar; FScalar; FScalar;
   FMessages "gotthlive.v1.Event.fields" (reflect_EventField <$> Event_Fields m)].
Definition reflect_Origin (m : Origin) : list field :=
  [FEnum OriginKind_values (Origin_Kind m); FScalar; FScalar; FScalar;
   FList "gotthlive.v1.Origin.contributing_event_ids"
     (N.of_nat (length (ContributingEventIds m)))].
Definition reflect_FragmentUpdate (m : FragmentUpdate) : list field :=
  [FScalar; FEnum PatchOp_values (Update_Op m); FScalar].
Definition reflect_Patch (m : Patch) : list field :=
  [FScalar; FScalar; FScalar; FScalar; FMessage (reflect_Origin <$> Patch_Origin m);
   FMessages "gotthlive.v1.Patch.updates" (reflect_FragmentUpdate <$> Patch_Updates m)].
Definition reflect_Snapshot (m : Snapshot) : list field :=
  [FScalar; FScalar; FScalar; FScalar; FMessage (reflect_Origin <$> Snapshot_Origin m);
   FScalar; FScalar; FScalar;
   FMessages "gotthlive.v1.Snapshot.updates" (reflect_FragmentUpdate <$> Snapshot_Updates m);
   FScalar; FScalar].
Definition reflect_payload (p : payload) : list field :=
  match p with
  | Frame_Event m => reflect_Event m
  | Frame_Ack _ => [FScalar]
  | Frame_ClientTelemetry _ => [FScalar; FScalar; FScalar]
  | Frame_ResyncRequest m => [FScalar; FEnum ResyncReason_values (Reason m)]
  | Frame_Patch m => reflect_Patch m
  | Frame_Snapshot m => reflect_Snapshot m
  | Frame_Error m =>
      [FEnum ErrorCode_values (Error_Code m); FScalar; FScalar; FScalar; FScalar]
  | Frame_Heartbeat _ => [FScalar; FScalar]
  end.
(** Of the members of the oneof, the one that is set. *)
Definition reflect_Frame (m : Frame) : list field :=
  [FScalar; FScalar; FMessage (reflect_payload <$> Payload m)].

Definition CoalesceFlushCeiling : N := 1024.

Definition listBounds (name : string) : option N :=
  if decide (name = "gotthlive.v1.Event.fields") then Some 64
  else if decide (name = "gotthlive.v1.Patch.updates") then Some 64
  else if decide (name = "gotthlive.v1.Snapshot.updates") then Some 64
  else if decide (name = "gotthlive.v1.Origin.contributing_event_ids")
    then Some CoalesceFlushCeiling
  else None.

Definition checkListBound (name : string) (length : N) : result error unit :=
  match listBounds name with
  | None => Err (NoListBound name)
  | Some bound => guard! length <=? bound else ListBound name in Ok tt
  end.

Definition checkEnumValue (declared : list Z) (n : Z) : result error unit :=
  guard! negb (n =? 0)%Z else EnumUnspecified in
  guard! bool_decide (n ∈ declared) else EnumUndeclared n in
  Ok tt.

Section each.
Context {A : Type} (f : A -> result error unit).
Fixpoint each (l : list A) : result error unit :=
  match l with
  | [] => Ok tt
  | a :: l => let! _ := f a in each l
  end.
End each.

Fixpoint checkField (f : field) : result error unit :=
  match f with
  | FScalar => Ok tt
  | FEnum declared n => checkEnumValue declared n
  | FList name length => checkListBound name length
  | FMessage None => Ok tt
  | FMessage (Some m) => each checkField m
  | FMessages name ms =>
      let! _ := checkListBound name (N.of_nat (length ms)) in
      each (each checkField) ms
  end.

Definition checkFieldInvariants (m : list field) : result error unit := each checkField m.

Definition eventBearing (kind : Z) : bool :=
  ((kind =? CLIENT_EVENT) || (kind =? RESYNC))%Z.

Definition validateOrigin (o : option Origin) : result error unit :=
  match o with
  | None => Err OrphanPatch
  | Some o =>
      let want := eventBearing (Origin_Kind o) in
      guard! Bool.eqb (negb (Origin_EventId o =? 0)) want else OriginEventID in
      guard! Bool.eqb (negb (Origin_ClientRef o =? 0)) want else OriginClientRef in
      Ok tt
  end.

Definition validateError (e : Error) : result error unit :=
  guard! Bool.eqb (Error_EventId e =? 0) (Error_ClientRef e =? 0) else ErrorIDs in Ok tt.

(** [GetKind] of a nil origin is the zero kind. *)
Definition kindOfOrigin (o : option Origin) : Z :=
  match o with Some o => Origin_Kind o | None => 0%Z end.

Definition validateSnapshot (s : Snapshot) : result error unit :=
  let from := SupersededFromSeq s in
  let through := SupersededThroughSeq s in
  let resync := (kindOfOrigin (Snapshot_Origin s) =? RESYNC)%Z in
  guard! Bool.eqb (from =? 0) (through =? 0) else SupersededPair in
  guard! Bool.eqb (negb (from =? 0)) resync else SupersededKind in
  if from =? 0 then Ok tt
  else
    guard! from <=? through else SupersededEmpty in
    guard! through <? Snapshot_ServerSeq s else SupersededEnd in
    Ok tt.

(** ** Kinds, versions and close codes *)

Definition Version : N := 1.

Inductive Kind :=
| KindUnknown | KindEvent | KindAck | KindHeartbeat | KindClientTelemetry
| KindResyncRequest | KindPatch | KindSnapshot | KindError.
#[export] Instance Kind_eq_dec : EqDecision Kind.
Proof. solve_decision. Defined.

Definition ClientToServer (k : Kind) : bool :=
  match k with
  | KindEvent | KindAck | KindHeartbeat | KindClientTelemetry | KindResyncRequest => true
  | _ => false
  end.

Definition KindOf (f : Frame) : Kind :=
  match Payload f with
  | Some (Frame_Event _) => KindEvent
  | Some (Frame_Ack _) => KindAck
  | Some (Frame_Heartbeat _) => KindHeartbeat
  | Some (Frame_ClientTelemetry _) => KindClientTelemetry
  | Some (Frame_ResyncRequest _) => KindResyncRequest
  | Some (Frame_Patch _) => KindPatch
  | Some (Frame_Snapshot _) => KindSnapshot
  | Some (Frame_Error _) => KindError
  | None => KindUnknown
  end.

Inductive CloseCode :=
| CloseNone | CloseNormal | CloseGoingAway | CloseProtocolViolation
| CloseUnsupportedVersion | CloseUnauthenticated | CloseForbiddenOrigin
| CloseUnauthorized | CloseFrameTooLarge | CloseRateLimited | CloseSlowClient
| CloseHeartbeatTimeout | CloseSessionEvicted | CloseInternalError | CloseResyncFailed.
#[export] Instance CloseCode_eq_dec : EqDecision CloseCode.
Proof. solve_decision. Defined.

(** ** The inbound boundary *)

Definition ReasonRefineFailed : string := "refine_failed".
Definition ReasonOversize : string := "oversize".
Definition ReasonUnknownKind : string := "unknown_kind".
Definition ReasonBadVersion : string := "bad_version".
Definition ReasonSessionMismatch : string := "session_mismatch".
Definition ReasonEnumDomain : string := "enum_domain".
Definition ReasonListBound : string := "list_bound".

(** [Err] is [None] for a nil cause. *)
Record RejectError := mkReject {
  Reject_Reason : string; Code : Z; Close : CloseCode; Cause : option error }.

Definition RejectError_Fatal (e : RejectError) : bool := negb (bool_decide (Close e = CloseNone)).

Record inboundBase := mkBase { frame : Frame; kind : Kind; sessionID : string }.

Inductive IInbound :=
| InboundEvent (base : inboundBase) (clientRef : N) (name fragmentID : string)
    (seenServerSeq : N) (fields : list EventField)
| InboundAck (base : inboundBase) (serverSeq : N)
| InboundHeartbeat (base : inboundBase)
| InboundClientTelemetry (base : inboundBase) (patchID morphMicros applyMicros : N)
| InboundResyncRequest (base : inboundBase) (lastAppliedSeq : N) (reason : Z).

Definition inbound_base (i : IInbound) : inboundBase :=
  match i with
  | InboundEvent b _ _ _ _ _ | InboundAck b _ | InboundHeartbeat b
  | InboundClientTelemetry b _ _ _ | InboundResyncRequest b _ _ => b
  end.

Record Limits := mkLimits { MaxInboundFrameBytes : Z }.

Definition checkVersion (v : N) : result RejectError unit :=
  if v =? Version then Ok tt
  else Err (mkReject ReasonBadVersion UNSUPPORTED_VERSION CloseUnsupportedVersion None).

(** The cause of a refused check, put in a rejection. *)
Definition rejecting {A} (r : result error A) (reason : error -> string) (c : CloseCode)
  : result RejectError A :=
  match r with
  | Ok a => Ok a
  | Err e => Err (mkReject (reason e) INVALID_FRAME c (Some e))
  end.
Definition refined (e : error) : string := ReasonRefineFailed.
(** The reason [checkFieldInvariants] reports with its error. *)
Definition invariant_reason (e : error) : string :=
  match e with
  | EnumUnspecified | EnumUndeclared _ => ReasonEnumDomain
  | _ => ReasonListBound
  end.

(** The switch on the payload. *)
Definition parse_payload (base : inboundBase) (p : option payload)
  : result RejectError IInbound :=
  match p with
  | Some (Frame_Event m) =>
      let! _ := rejecting (ValidateEvent m) refined CloseNone in
      let! _ := rejecting (each ValidateEventField (Event_Fields m)) refined CloseNone in
      Ok (InboundEvent base (Event_ClientRef m) (Event_Name m) (Event_FragmentId m)
            (Event_SeenServerSeq m) (Event_Fields m))
  | Some (Frame_Ack m) =>
      let! _ := rejecting (ValidateAck m) refined CloseNone in
      Ok (InboundAck base (Ack_ServerSeq m))
  | Some (Frame_Heartbeat m) =>
      let! _ := rejecting (ValidateHeartbeat m) refined CloseNone in
      Ok (InboundHeartbeat base)
  | Some (Frame_ClientTelemetry m) =>
      let! _ := rejecting (ValidateClientTelemetry m) refined CloseNone in
      Ok (InboundClientTelemetry base (Telemetry_PatchId m) (MorphMicros m) (ApplyMicros m))
  | Some (Frame_ResyncRequest m) =>
      let! _ := rejecting (ValidateResyncRequest m) refined CloseNone in
      Ok (InboundResyncRequest base (LastAppliedSeq m) (Reason m))
  | _ => Err (mkReject ReasonUnknownKind INVALID_FRAME CloseProtocolViolation None)
  end.

(** [Unmarshal] is protobuf's decoder of a [Frame]. *)
Definition ParseInbound (Unmarshal : string -> option Frame) (b : string) (limits : Limits)
  : result RejectError IInbound :=
  if ((0 <? MaxInboundFrameBytes limits)%Z
      && (MaxInboundFrameBytes limits <? Z.of_N (len b))%Z)
  then Err (mkReject ReasonOversize INVALID_FRAME CloseFrameTooLarge None)
  else
    match Unmarshal b with
    | None => Err (mkReject ReasonRefineFailed INVALID_FRAME CloseProtocolViolation None)
    | Some raw =>
        let! _ := rejecting (ValidateFrame raw) refined CloseProtocolViolation in
        let! _ := checkVersion (ProtocolVersion raw) in
        let kind := KindOf raw in
        guard! ClientToServer kind
          else mkReject ReasonUnknownKind INVALID_FRAME CloseProtocolViolation None in
        let! _ := rejecting (checkFieldInvariants (reflect_Frame raw)) invariant_reason
                    CloseProtocolViolation in
        parse_payload (mkBase raw kind (SessionId raw)) (Payload raw)
    end.

Definition CheckSessionID (i : IInbound) (want : string) : result RejectError unit :=
  if decide (sessionID (inbound_base i) = want) then Ok tt
  else Err (mkReject ReasonSessionMismatch INVALID_FRAME CloseProtocolViolation None).

(** ** The outbound boundary *)

Definition validateOriginAndUpdates (o : option Origin) (updates : list FragmentUpdate)
  : result error unit :=
  checks [ValidateOrigin o; validateOrigin o; each ValidateFragmentUpdate updates].

Definition ValidateOutbound (f : Frame) : result error unit :=
  let! _ := ValidateFrame f in
  let! _ := checkFieldInvariants (reflect_Frame f) in
  match Payload f with
  | Some (Frame_Patch p) =>
      checks [ValidatePatch p; validateOriginAndUpdates (Patch_Origin p) (Patch_Updates p)]
  | Some (Frame_Snapshot s) =>
      checks [ValidateSnapshot s;
              validateOriginAndUpdates (Snapshot_Origin s) (Snapshot_Updates s);
              validateSnapshot s]
  | Some (Frame_Error e) => checks [ValidateError e; validateError e]
  | Some (Frame_Heartbeat h) => ValidateHeartbeat h
  | Some (Frame_Ack a) => ValidateAck a
  | None => Err NoPayload
  | _ => Err WrongPayload
  end.

Inductive send_error := InvalidFrameError (k : Kind) (e : error) | WriteError.

(** What [Encode] hands to [Write]; [enc_frame] is the frame the bytes encode, kept to
    speak of what is on the wire. *)
Record Encoded := mkEncoded { enc_kind : Kind; enc_b : string; enc_frame : Frame }.

(** The transport a framer writes to: how its next writes go ([true] succeeds, and so
    does every write after the list), and the frames written so far. *)
Record Framer := mkFramer { writes : list bool; sent : list Frame }.

Section framer.
Context (Marshal : Frame -> option string).

Definition Encode (f : Frame) : result send_error Encoded :=
  let kind := KindOf f in
  match ValidateOutbound f with
  | Err e => Err (InvalidFrameError kind e)
  | Ok _ =>
      match Marshal f with
      | None => Err (InvalidFrameError kind MarshalFailed)
      | Some b => Ok (mkEncoded kind b f)
      end
  end.

Definition Write (fr : Framer) (e : Encoded) : Framer * result send_error N :=
  if len (enc_b e) =? 0 then (fr, Err (InvalidFrameError (enc_kind e) EmptyFrame))
  else
    match writes fr with
    | false :: ws => (mkFramer ws (sent fr), Err WriteError)
    | ws => (mkFramer (tl ws) (sent fr ++ [enc_frame e]), Ok (len (enc_b e)))
    end.

Definition Send (fr : Framer) (f : Frame) : Framer * result send_error N :=
  match Encode f with
  | Err e => (fr, Err e)
  | Ok e => Write fr e
  end.
End framer.

(** ** Frame constructors *)

Definition SourceMount : string := "mount".
Definition SourceResync : string := "resync".
Definition SourceEventPrefix : string := "event:".
Definition SourceEffectPrefix : string := "effect:".
Definition SourceSlowClient : string := "timer:slow_client".
Definition SourceClientRecovered : string := "timer:client_recovered".
Definition SourceEffectInvalid : string := "effect:invalid_source".

Definition MaxOriginSource : N := 64.

(** The loop over [s[1:]]. *)
Fixpoint valid_source_rest (s : string) : bool :=
  match s with
  | EmptyString => true
  | String c s =>
      let n := N_of_ascii c in
      if ((97 <=? n) && (n <=? 122)) || ((48 <=? n) && (n <=? 57)) then valid_source_rest s
      else if bool_decide (c ∈ ["_"; "."; ":"; "/"; "-"]%char) then valid_source_rest s
      else false
  end.

Definition ValidOriginSource (s : string) : bool :=
  if (len s =? 0) || (MaxOriginSource <? len s) then false
  else
    match s with
    | EmptyString => false
    | String c s =>
        let n := N_of_ascii c in
        if (n <? 97) || (122 <? n) then false else valid_source_rest s
    end.

(** The session-side records, named as in frames.go. *)
Record Causal := mkCausal {
  ServerSeq : N; PatchID : N; TransitionID : N; StateVersion : N }.
Record CausalOrigin := mkCausalOrigin {
  o_Kind : Z; EventID : N; ClientRef : N; Source : string; Contributing : list N }.
Record Update := mkUpdate { FragmentID : string; Op : Z; HTML : string }.
Record SessionParams := mkSessionParams {
  HeartbeatIntervalMS : N; p_MaxInboundFrameBytes : N; p_AckWindow : N }.
Record Supersession := mkSupersession { FromSeq : N; ThroughSeq : N }.

#[export] Instance Rebuild_CausalOrigin : Rebuild CausalOrigin := fun o =>
  mkCausalOrigin (o_Kind o) (EventID o) (ClientRef o) (Source o) (Contributing o).

Definition Origin_proto (o : CausalOrigin) : Origin :=
  {| Origin_Kind := o_Kind o; Origin_EventId := EventID o; Origin_ClientRef := ClientRef o;
     Origin_Source := Source o; ContributingEventIds := Contributing o |}.

Definition updateProtos (us : list Update) : list FragmentUpdate :=
  (fun u => mkFragmentUpdate (FragmentID u) (Op u) (HTML u)) <$> us.

Definition NewPatch (session : string) (c : Causal) (o : CausalOrigin) (updates : list Update)
  : Frame :=
  {| ProtocolVersion := Version; SessionId := session;
     Payload := Some (Frame_Patch
       {| Patch_ServerSeq := ServerSeq c; Patch_PatchId := PatchID c;
          Patch_TransitionId := TransitionID c; Patch_StateVersion := StateVersion c;
          Patch_Origin := Some (Origin_proto o); Patch_Updates := updateProtos updates |}) |}.

Definition NewSnapshot (session : string) (c : Causal) (o : CausalOrigin) (p : SessionParams)
  (s : Supersession) (updates : list Update) : Frame :=
  {| ProtocolVersion := Version; SessionId := session;
     Payload := Some (Frame_Snapshot
       {| Snapshot_ServerSeq := ServerSeq c; Snapshot_PatchId := PatchID c;
          Snapshot_TransitionId := TransitionID c; Snapshot_StateVersion := StateVersion c;
          Snapshot_Origin := Some (Origin_proto o);
          HeartbeatIntervalMs := HeartbeatIntervalMS p;
          MaxInboundFrameBytes_ := p_MaxInboundFrameBytes p; AckWindow_ := p_AckWindow p;
          Snapshot_Updates := updateProtos updates;
          SupersededFromSeq := FromSeq s; SupersededThroughSeq := ThroughSeq s |}) |}.

Definition maxErrorMessage : nat := 512.

(** [for cut > 0 && !utf8.RuneStart(s[cut]) { cut-- }] *)
Fixpoint cut_back (l : list ascii) (cut : nat) : nat :=
  match cut with
  | O => O
  | S cut' =>
      match l !! cut with
      | Some b => if UTF8.RuneStart b then cut else cut_back l cut'
      | None => cut
      end
  end.

Definition truncateMessage (s : string) : string :=
  if decide (String.length s <= maxErrorMessage)%nat then s
  else
    let l := String.list_ascii_of_string s in
    String.string_of_list_ascii (take (cut_back l (maxErrorMessage - 3)) l) +:+ "...".

Definition NewError (session : string) (code : Z) (message : string) (eventID clientRef : N)
  (fatal : bool) : Frame :=
  {| ProtocolVersion := Version; SessionId := session;
     Payload := Some (Frame_Error
       {| Error_Code := code; Error_Message := truncateMessage message;
          Error_EventId := eventID; Error_ClientRef := clientRef; Fatal := fatal |}) |}.

Definition NewHeartbeat (session : string) (nonce intervalMS : N) : Frame :=
  {| ProtocolVersion := Version; SessionId := session;
     Payload := Some (Frame_Heartbeat {| Nonce := nonce; IntervalMs := intervalMS |}) |}.

Definition NewAck (session : string) (serverSeq : N) : Frame :=
  {| ProtocolVersion := Version; SessionId := session;
     Payload := Some (Frame_Ack {| Ack_ServerSeq := serverSeq |}) |}.

(** ** Session parameter ranges *)

Record SessionParamRange := mkRange {
  Field : string; Predicate : string; Min : N; Max : N }.

Definition Contains (r : SessionParamRange) (v : Z) : bool :=
  ((Z.of_N (Min r) <=? v) && (v <=? Z.of_N (Max r)))%Z.

Definition HeartbeatIntervalMSRange : SessionParamRange :=
  mkRange "heartbeat_interval_ms" "this >= 1000 && this <= 300000" 1000 300000.
Definition MaxInboundFrameBytesRange : SessionParamRange :=
  mkRange "max_inbound_frame_bytes" "this >= 1024 && this <= 1048576" 1024 1048576.
Definition AckWindowRange : SessionParamRange :=
  mkRange "ack_window" "this >= 1 && this <= 256" 1 256.
