(* ===== verification/GotthBoundary.v ===== *)
(** * gotth: what the boundaries of the wire protocol let through.

    [ValidOriginSource] against the generated validator of [Origin.source], the cut of
    over-long error messages, the session parameter ranges against the validator of
    [Snapshot], and the frames [ParseInbound] accepts, stated without the
    validators. *)
From Stdlib Require Import String Ascii NArith Lia.
From stdpp Require Import base list strings.
From S2P Require Import Prelude.
From S2P Require Import GoStd.
From S2P Require Import GoText.
From S2P Require Import GotthProtocol.
Import pb.
Open Scope N_scope.

(** ** Lemmas on checks *)

Lemma refine_ok b m f : refine b m f = Ok tt <-> b = true.
Proof. unfold refine. by destruct b. Qed.

Lemma checks_ok l : checks l = Ok tt <-> Forall (fun c => c = Ok tt) l.
Proof.
  induction l as [|c l IH]; cbn; [by split; [constructor|]|].
  rewrite Forall_cons, <- IH. destruct c as [[]|]; cbn; naive_solver.
Qed.

Lemma each_ok {A} (f : A -> result error unit) l :
  each f l = Ok tt <-> Forall (fun a => f a = Ok tt) l.
Proof.
  induction l as [|a l IH]; cbn; [by split; [constructor|]|].
  rewrite Forall_cons, <- IH. destruct (f a) as [[]|]; cbn; naive_solver.
Qed.

Lemma seq_ok {E B} (r : result E unit) (k : result E B) (b : B) :
  result_bind r (fun _ => k) = Ok b <-> r = Ok tt /\ k = Ok b.
Proof. destruct r as [[]|]; cbn; naive_solver. Qed.

Lemma rejecting_ok {A} (r : result error A) reason c a :
  rejecting r reason c = Ok a <-> r = Ok a.
Proof. destruct r; cbn; naive_solver. Qed.

Lemma checkListBound_ok name n bound : listBounds name = Some bound ->
  checkListBound name n = Ok tt <-> n <= bound.
Proof.
  intros E. unfold checkListBound. rewrite E. destruct (N.leb_spec n bound); naive_solver lia.
Qed.

Lemma checkEnumValue_ok declared n :
  checkEnumValue declared n = Ok tt <-> n <> 0%Z /\ n ∈ declared.
Proof.
  unfold checkEnumValue. rewrite !guard_ok.
  destruct (Z.eqb_spec n 0); cbn; rewrite bool_decide_eq_true; naive_solver.
Qed.

(** ** Origin sources *)

Definition lower_case (c : ascii) : Prop := 97 <= N_of_ascii c <= 122.
Definition upper_case (c : ascii) : Prop := 65 <= N_of_ascii c <= 90.
Definition decimal (c : ascii) : Prop := 48 <= N_of_ascii c <= 57.

Lemma in_class_nil c : Regexp.in_class [] c = false.
Proof. done. Qed.

Lemma in_class_one a k c :
  Regexp.in_class (Regexp.one a :: k) c = true <-> c = a \/ Regexp.in_class k c = true.
Proof.
  unfold Regexp.in_class, Regexp.one. cbn. rewrite orb_true_iff, andb_true_iff, !N.leb_le.
  split; (intros [H|H]; [left|by right]).
  - rewrite <- (ascii_N_embedding c), <- (ascii_N_embedding a). f_equal. lia.
  - subst. lia.
Qed.

Lemma in_class_range lo hi k c :
  Regexp.in_class ((lo, hi) :: k) c = true <->
  N_of_ascii lo <= N_of_ascii c <= N_of_ascii hi \/ Regexp.in_class k c = true.
Proof.
  unfold Regexp.in_class. cbn. rewrite orb_true_iff, andb_true_iff, !N.leb_le. done.
Qed.

Lemma len_0 s : len s = 0 <-> s = "".
Proof. destruct s; unfold len; cbn; split; done || lia. Qed.

Lemma valid_source_rest_ok s : valid_source_rest s = true <->
  Forall (fun c => Regexp.in_class
    [lower; number; Regexp.one "_"; Regexp.one "."; Regexp.one ":"; Regexp.one "/";
     Regexp.one "-"]%char c = true) (String.list_ascii_of_string s).
Proof.
  induction s as [|c s IH]; cbn [valid_source_rest String.list_ascii_of_string].
  { split; [constructor|done]. }
  rewrite Forall_cons, <- IH. unfold lower, number.
  rewrite !in_class_range, !in_class_one, in_class_nil.
  change (N_of_ascii "a") with 97. change (N_of_ascii "z") with 122.
  change (N_of_ascii "0") with 48. change (N_of_ascii "9") with 57.
  destruct ((97 <=? N_of_ascii c) && (N_of_ascii c <=? 122)
            || (48 <=? N_of_ascii c) && (N_of_ascii c <=? 57)) eqn:E.
  - rewrite orb_true_iff, !andb_true_iff, !N.leb_le in E. naive_solver.
  - rewrite orb_false_iff, !andb_false_iff, !N.leb_gt in E. case_bool_decide as Hin.
    + assert (c = "_" \/ c = "." \/ c = ":" \/ c = "/" \/ c = "-")%char as Hc by set_solver.
      naive_solver.
    + split; [done|]. intros [H _]. exfalso. apply Hin.
      destruct H as [H|[H|H]]; [lia|lia|]. set_solver.
Qed.

(** The hand-written check of an origin's source and the generated validator agree:
    [ValidOriginSource] accepts exactly the strings that pass [ValidateOrigin] in every
    origin that carries them. *)
Theorem ValidOriginSource_agrees (o : Origin) :
  ValidOriginSource (Origin_Source o) = true <-> ValidateOrigin (Some o) = Ok tt.
Proof.
  unfold ValidateOrigin, ValidOriginSource, OriginSourceRe.
  rewrite refine_ok. set (s := Origin_Source o). clearbody s.
  unfold MaxOriginSource.
  destruct (N.eqb_spec (len s) 0) as [E|E]; cbn [orb].
  { rewrite E. split; done. }
  replace (0 <? len s) with true by (symmetry; apply N.ltb_lt; lia). cbn [andb].
  destruct (N.ltb_spec 64 (len s)) as [Hl|Hl].
  { replace (len s <=? 64) with false by (symmetry; apply N.leb_gt; lia). done. }
  replace (len s <=? 64) with true by (symmetry; apply N.leb_le; lia). cbn [andb].
  rewrite RegexpFacts.MatchString_word. destruct s as [|c s]; [done|].
  cbn [String.list_ascii_of_string]. unfold lower at 1.
  change (N_of_ascii "a") with 97. change (N_of_ascii "z") with 122.
  destruct (N.ltb_spec (N_of_ascii c) 97), (N.ltb_spec 122 (N_of_ascii c)); cbn [orb].
  1-3: split; [done|]; intros (c' & l & [= <- <-] & Hc & _);
    apply in_class_range in Hc as [Hc|Hc]; [|done];
    change (N_of_ascii "a") with 97 in Hc; change (N_of_ascii "z") with 122 in Hc; lia.
  rewrite valid_source_rest_ok. split.
  - intros H1. exists c, (String.list_ascii_of_string s). split; [done|]. split; [|done].
    apply in_class_range. left. change (N_of_ascii "a") with 97. change (N_of_ascii "z") with 122. lia.
  - by intros (c' & l & [= <- <-] & _ & Hl').
Qed.

(** ** Session parameters *)

(** The ranges configuration is held to are the ones the snapshot's validator
    admits. *)
Lemma session_params_agree (s : Snapshot) :
  ValidateSnapshot s = Ok tt <->
  0 < Snapshot_ServerSeq s /\ 0 < Snapshot_PatchId s /\ 0 < Snapshot_TransitionId s
  /\ 0 < Snapshot_StateVersion s
  /\ Contains HeartbeatIntervalMSRange (Z.of_N (HeartbeatIntervalMs s)) = true
  /\ Contains MaxInboundFrameBytesRange (Z.of_N (MaxInboundFrameBytes_ s)) = true
  /\ Contains AckWindowRange (Z.of_N (AckWindow_ s)) = true.
Proof.
  unfold ValidateSnapshot, Contains. rewrite checks_ok, !Forall_cons, !refine_ok. cbn.
  rewrite !andb_true_iff, !N.ltb_lt, !N.leb_le, !Z.leb_le. intuition (lia || constructor).
Qed.

(** ** Error messages *)

Lemma cut_back_spec l n : (cut_back l n <= n)%nat
  /\ (cut_back l n <> O -> forall b, l !! cut_back l n = Some b -> UTF8.RuneStart b = true).
Proof.
  induction n as [|n [IH1 IH2]]; cbn; [by split; [lia|]|].
  destruct (l !! S n) as [b|] eqn:E; [|split; [lia|naive_solver]].
  destruct (UTF8.RuneStart b) eqn:Eb; [split; [lia|naive_solver]|].
  split; [lia|done].
Qed.

Lemma length_list_ascii s : length (String.list_ascii_of_string s) = String.length s.
Proof. induction s; cbn; congruence. Qed.

Lemma list_ascii_app s1 s2 : String.list_ascii_of_string (s1 +:+ s2)
  = String.list_ascii_of_string s1 ++ String.list_ascii_of_string s2.
Proof.
  induction s1 as [|c s1 IH]; [done|].
  change (String c s1 +:+ s2) with (String c (s1 +:+ s2)). cbn. by rewrite IH.
Qed.

(** An error message always fits the wire.  Whatever its length, the truncated
    message is at most 512 bytes, is the message itself when that fits and otherwise
    the message's beginning followed by an ellipsis, and it is valid UTF-8 if the
    message was: the cut never splits a rune. *)
Theorem truncateMessage_fits (s : string) :
  len (truncateMessage s) <= 512
  /\ (len s <= 512 -> truncateMessage s = s)
  /\ (512 < len s -> exists p, truncateMessage s = p +:+ "..." /\ String.prefix p s = true)
  /\ (UTF8.ValidString s = true -> UTF8.ValidString (truncateMessage s) = true).
Proof.
  unfold truncateMessage, maxErrorMessage, len.
  destruct (decide (String.length s <= 512)%nat) as [Hs|Hs]; [split_and!; done || lia|].
  set (l := String.list_ascii_of_string s). set (k := cut_back l (512 - 3)).
  destruct (cut_back_spec l (512 - 3)) as [Hk Hb]. fold k in Hk, Hb.
  assert (length l = String.length s) as Hl by apply length_list_ascii.
  assert (String.list_ascii_of_string (String.string_of_list_ascii (take k l) +:+ "...")
          = take k l ++ ["."; "."; "."]%char) as Elist.
  { by rewrite list_ascii_app, String.list_ascii_of_string_of_list_ascii. }
  split_and!.
  - rewrite <- length_list_ascii, Elist, length_app, length_take. cbn [length]. lia.
  - lia.
  - intros _. eexists. split; [done|].
    rewrite <- (String.string_of_list_ascii_of_string s). fold l.
    rewrite <- (take_drop k l) at 2. generalize (take k l) (drop k l). intros l1 l2.
    induction l1 as [|c l1 IH]; cbn; [by destruct (String.string_of_list_ascii l2)|].
    destruct (ascii_dec c c); [done|congruence].
  - unfold UTF8.ValidString. rewrite Elist. fold l. intros Hv.
    apply UTF8Facts.valid_app; [|done].
    destruct (decide (k = O)) as [->|Hk0]; [done|].
    apply UTF8Facts.valid_cut; [done|by apply Hb].
Qed.

(** ** Frames a client may send *)

(** The character classes of the wire's identifiers. *)
Definition event_char (c : ascii) : Prop :=
  lower_case c \/ decimal c \/ c ∈ ["_"; "."; ":"; "-"]%char.
Definition id_char (c : ascii) : Prop :=
  upper_case c \/ lower_case c \/ decimal c \/ c ∈ ["_"; ":"; "."; "-"]%char.
Definition key_char (c : ascii) : Prop :=
  upper_case c \/ lower_case c \/ decimal c \/ c ∈ ["_"; "."; "["; "]"; "-"]%char.

(** A non-empty string of at most [n] bytes of a class. *)
Definition word_of (P : ascii -> Prop) (n : N) (s : string) : Prop :=
  s <> "" /\ len s <= n /\ Forall P (String.list_ascii_of_string s).
Definition event_name (s : string) : Prop :=
  word_of event_char 64 s /\ exists c t, s = String c t /\ lower_case c.

Inductive inbound_of (base : inboundBase) : payload -> IInbound -> Prop :=
| inbound_event r n f q fs :
    0 < r -> event_name n -> word_of id_char 64 f -> 0 < q ->
    (length fs <= 64)%nat ->
    Forall (fun x => word_of key_char 128 (Key x) /\ len (Value x) <= 8192) fs ->
    inbound_of base (Frame_Event (mkEvent r n f q fs)) (InboundEvent base r n f q fs)
| inbound_ack q : 0 < q -> inbound_of base (Frame_Ack (mkAck q)) (InboundAck base q)
| inbound_heartbeat n i : 0 < n -> 1000 <= i <= 300000 ->
    inbound_of base (Frame_Heartbeat (mkHeartbeat n i)) (InboundHeartbeat base)
| inbound_telemetry p m a : 0 < p -> m <= 60000000 -> a <= 60000000 ->
    inbound_of base (Frame_ClientTelemetry (mkClientTelemetry p m a))
      (InboundClientTelemetry base p m a)
| inbound_resync q r : 0 < q -> (1 <= r <= 3)%Z ->
    inbound_of base (Frame_ResyncRequest (mkResyncRequest q r))
      (InboundResyncRequest base q r).

Ltac class_chars :=
  rewrite ?in_class_range, ?in_class_one, ?in_class_nil;
  change (N_of_ascii "a") with 97 in *; change (N_of_ascii "z") with 122 in *;
  change (N_of_ascii "A") with 65 in *; change (N_of_ascii "Z") with 90 in *;
  change (N_of_ascii "0") with 48 in *; change (N_of_ascii "9") with 57 in *.

Lemma event_char_ok c :
  Regexp.in_class [lower; number; Regexp.one "_"; Regexp.one "."; Regexp.one ":";
                   Regexp.one "-"]%char c = true <-> event_char c.
Proof.
  unfold event_char, lower_case, decimal, lower, number. class_chars.
  rewrite !elem_of_cons, elem_of_nil. naive_solver.
Qed.

Lemma id_char_ok c :
  Regexp.in_class [upper; lower; number; Regexp.one "_"; Regexp.one ":"; Regexp.one ".";
                   Regexp.one "-"]%char c = true <-> id_char c.
Proof.
  unfold id_char, lower_case, upper_case, decimal, lower, upper, number. class_chars.
  rewrite !elem_of_cons, elem_of_nil. naive_solver.
Qed.

Lemma key_char_ok c :
  Regexp.in_class [upper; lower; number; Regexp.one "_"; Regexp.one "."; Regexp.one "[";
                   Regexp.one "]"; Regexp.one "-"]%char c = true <-> key_char c.
Proof.
  unfold key_char, lower_case, upper_case, decimal, lower, upper, number. class_chars.
  rewrite !elem_of_cons, elem_of_nil. naive_solver.
Qed.

Lemma word_of_ok k P n s : (forall c, Regexp.in_class k c = true <-> P c) ->
  (0 <? len s) && (len s <=? n) && Regexp.MatchString (Regexp.Plus (Regexp.Class k)) s = true
  <-> word_of P n s.
Proof.
  intros HP. unfold word_of.
  rewrite !andb_true_iff, N.ltb_lt, N.leb_le, RegexpFacts.MatchString_plus.
  assert (0 < len s <-> s <> "") as -> by (rewrite <- len_0; lia).
  assert (Forall (fun c => Regexp.in_class k c = true) (String.list_ascii_of_string s)
          <-> Forall P (String.list_ascii_of_string s)) as ->.
  { by apply Forall_iff. }
  naive_solver.
Qed.

Lemma event_name_ok s :
  (0 <? len s) && (len s <=? 64) && Regexp.MatchString EventNameRe s = true <-> event_name s.
Proof.
  unfold event_name, word_of, EventNameRe.
  rewrite !andb_true_iff, N.ltb_lt, N.leb_le, RegexpFacts.MatchString_word.
  assert (0 < len s <-> s <> "") as -> by (rewrite <- len_0; lia).
  destruct s as [|c s]; [split; [naive_solver|intros [[]]; done]|].
  cbn [String.list_ascii_of_string].
  assert (Regexp.in_class [lower] c = true <-> lower_case c) as Hc.
  { unfold lower, lower_case. class_chars. naive_solver. }
  split.
  - intros [[_ Hl] (c' & l & [= <- <-] & H1%Hc & H2)]. split; [|by exists c, s].
    split; [done|]. split; [done|]. constructor; [by left|].
    by apply (Forall_iff _ _ _ event_char_ok).
  - intros [(_ & Hl & H2) (c' & t & [= <- <-] & H1)]. split; [done|].
    exists c, (String.list_ascii_of_string s). split; [done|]. split; [by apply Hc|].
    apply Forall_cons in H2 as [_ H2]. by apply (Forall_iff _ _ _ event_char_ok).
Qed.

Lemma ValidateEventField_ok x :
  ValidateEventField x = Ok tt <-> word_of key_char 128 (Key x) /\ len (Value x) <= 8192.
Proof.
  unfold ValidateEventField, EventFieldKeyRe.
  rewrite checks_ok, !Forall_cons, Forall_nil, !refine_ok, N.leb_le.
  rewrite (word_of_ok _ _ _ _ key_char_ok). naive_solver.
Qed.

Lemma ValidateEvent_ok m :
  ValidateEvent m = Ok tt <->
  0 < Event_ClientRef m /\ event_name (Event_Name m) /\ word_of id_char 64 (Event_FragmentId m)
  /\ 0 < Event_SeenServerSeq m.
Proof.
  unfold ValidateEvent, FragmentIdRe.
  rewrite checks_ok, !Forall_cons, Forall_nil, !refine_ok, !N.ltb_lt, event_name_ok.
  rewrite (word_of_ok _ _ _ _ id_char_ok). naive_solver.
Qed.

Lemma bind_tt (r : result error unit) : result_bind r (fun _ => Ok tt) = r.
Proof. by destruct r as [[]|]. Qed.

Lemma field_invariants f p : Payload f = Some p ->
  checkFieldInvariants (reflect_Frame f) = each checkField (reflect_payload p).
Proof.
  intros E. unfold checkFieldInvariants, reflect_Frame. rewrite E. cbn. apply bind_tt.
Qed.

Lemma event_invariants m :
  each checkField (reflect_payload (Frame_Event m)) = Ok tt
  <-> (length (Event_Fields m) <= 64)%nat.
Proof.
  cbn [reflect_payload]. unfold reflect_Event. cbn [each checkField result_bind]. rewrite bind_tt.
  set (bound := checkListBound _ _).
  assert (each (each checkField) (reflect_EventField <$> Event_Fields m) = Ok tt) as ->.
  { apply each_ok, Forall_fmap, Forall_true. done. }
  rewrite bind_tt. unfold bound. rewrite (checkListBound_ok _ _ 64), length_fmap by done. lia.
Qed.

Lemma resync_invariants m :
  each checkField (reflect_payload (Frame_ResyncRequest m)) = Ok tt <-> (1 <= Reason m <= 3)%Z.
Proof.
  cbn [each checkField reflect_payload result_bind]. rewrite bind_tt, checkEnumValue_ok.
  unfold ResyncReason_values. rewrite !elem_of_cons, elem_of_nil. lia.
Qed.

Lemma parse_payload_ok base p i :
  each checkField (reflect_payload p) = Ok tt /\ parse_payload base (Some p) = Ok i
  <-> inbound_of base p i.
Proof.
  destruct p as [m|m|m|m|m|m|m|m].
  1: { rewrite event_invariants. cbn [parse_payload].
       rewrite !seq_ok, !rejecting_ok, ValidateEvent_ok, each_ok.
       split.
       - intros (Hl & (H1 & H2 & H3 & H4) & H5 & [= <-]).
         destruct m. constructor; try done.
         cbn in H5. by apply (Forall_iff _ _ _ ValidateEventField_ok).
       - intros H. inversion H; subst. cbn. split_and!; try done.
         by apply (Forall_iff _ _ _ ValidateEventField_ok). }
  4-6: split; [by intros [_ H]|by intros H; inversion H].
  4: { cbn [parse_payload]. rewrite seq_ok, rejecting_ok. unfold ValidateHeartbeat.
       rewrite checks_ok, !Forall_cons, Forall_nil, !refine_ok, andb_true_iff, N.ltb_lt, !N.leb_le. split.
       - intros (_ & (H1 & H2 & _) & [= <-]). destruct m. by constructor.
       - intros H. inversion H; subst. done. }
  1: { cbn [parse_payload]. rewrite seq_ok, rejecting_ok. unfold ValidateAck.
       rewrite refine_ok, N.ltb_lt. split.
       - intros (_ & H1 & [= <-]). destruct m. by constructor.
       - intros H. inversion H; subst. done. }
  1: { cbn [parse_payload]. rewrite seq_ok, rejecting_ok. unfold ValidateClientTelemetry.
       rewrite checks_ok, !Forall_cons, Forall_nil, !refine_ok, N.ltb_lt, !N.leb_le. split.
       - intros (_ & (H1 & H2 & H3 & _) & [= <-]). destruct m. by constructor.
       - intros H. inversion H; subst. done. }
  rewrite resync_invariants. cbn [parse_payload]. rewrite seq_ok, rejecting_ok.
  unfold ValidateResyncRequest. rewrite refine_ok, N.ltb_lt. split.
  - intros (H0 & H1 & [= <-]). destruct m. by constructor.
  - intros H. inversion H; subst. done.
Qed.

Lemma inbound_client base p i : inbound_of base p i ->
  ClientToServer (KindOf (mkFrame Version "" (Some p))) = true.
Proof. by intros []. Qed.

Lemma checkVersion_ok v : checkVersion v = Ok tt <-> v = Version.
Proof. unfold checkVersion. destruct (N.eqb_spec v Version); naive_solver. Qed.

Section inbound.
Context (Unmarshal : string -> option Frame).

(** What a client can get past the inbound boundary.  [ParseInbound] accepts exactly
    the byte strings that are within the configured size and decode to a frame of
    this protocol version with a sixteen-byte session, carrying one of the five
    client payloads with every scalar, identifier, enum value and list length in
    range; the accepted value holds that payload unchanged. *)
Theorem ParseInbound_accepts (b : string) (limits : Limits) (i : IInbound) :
  ParseInbound Unmarshal b limits = Ok i <->
  (MaxInboundFrameBytes limits <= 0 \/ Z.of_N (len b) <= MaxInboundFrameBytes limits)%Z
  /\ exists f p, Unmarshal b = Some f /\ Payload f = Some p
       /\ ProtocolVersion f = 1 /\ len (SessionId f) = 16
       /\ inbound_of (mkBase f (KindOf f) (SessionId f)) p i.
Proof.
  unfold ParseInbound.
  destruct ((0 <? MaxInboundFrameBytes limits)%Z && _) eqn:Esize.
  { apply andb_true_iff in Esize as [H1%Z.ltb_lt H2%Z.ltb_lt]. split; [done|]. lia. }
  assert (MaxInboundFrameBytes limits <= 0 \/ Z.of_N (len b) <= MaxInboundFrameBytes limits)%Z
    as Hsize by (apply andb_false_iff in Esize; rewrite !Z.ltb_ge in Esize; lia).
  destruct (Unmarshal b) as [f|]; [|naive_solver].
  rewrite !seq_ok, guard_ok, seq_ok, !rejecting_ok, checkVersion_ok.
  assert (ValidateFrame f = Ok tt <-> 0 < ProtocolVersion f /\ len (SessionId f) = 16) as Hvf.
  { unfold ValidateFrame. rewrite checks_ok, !Forall_cons, Forall_nil, !refine_ok.
    rewrite N.ltb_lt, N.eqb_eq. naive_solver. }
  split.
  - intros ([_ Hs]%Hvf & Hv & Hk & Hfi & Hp). split; [done|].
    destruct (Payload f) as [p|] eqn:Ep; [|done].
    exists f, p. split_and!; try done.
    apply parse_payload_ok. rewrite (field_invariants f p Ep) in Hfi. done.
  - intros (_ & f' & p & [= <-] & Ep & Hv & Hs & Hi).
    split; [apply Hvf; rewrite Hv; split; [lia|done]|]. split; [done|].
    pose proof (inbound_client _ _ _ Hi) as Hk.
    assert (KindOf f = KindOf (mkFrame Version "" (Some p))) as Ekind
      by (unfold KindOf; by rewrite Ep).
    split; [by rewrite Ekind|].
    apply parse_payload_ok in Hi as [Hfi Hp].
    rewrite (field_invariants f p Ep), Ep. done.
Qed.

(** Refused frames end the connection, except those whose payload alone is at fault. *)
Lemma ParseInbound_survivable (b : string) (limits : Limits) (e : RejectError) :
  ParseInbound Unmarshal b limits = Err e -> RejectError_Fatal e = false ->
  Reject_Reason e = ReasonRefineFailed /\ exists f p, Unmarshal b = Some f /\ Payload f = Some p
    /\ ProtocolVersion f = 1 /\ ClientToServer (KindOf f) = true
    /\ each checkField (reflect_payload p) = Ok tt.
Proof.
  unfold ParseInbound.
  destruct (_ && _); [by intros [= <-]|].
  destruct (Unmarshal b) as [f|]; [|by intros [= <-]].
  destruct (ValidateFrame f) as [[]|]; cbn [result_bind rejecting]; [|by intros [= <-]].
  unfold checkVersion. destruct (N.eqb_spec (ProtocolVersion f) Version) as [Ev|];
    [cbn [result_bind]|by intros [= <-]].
  destruct (ClientToServer (KindOf f)) eqn:Ek; [|by intros [= <-]].
  destruct (checkFieldInvariants (reflect_Frame f)) as [[]|] eqn:Efi; cbn [result_bind rejecting]; [|by intros [= <-]].
  destruct (Payload f) as [p|] eqn:Ep; [|by intros [= <-]].
  rewrite (field_invariants f p Ep) in Efi. intros H Hf.
  split; [|by exists f, p].
  unfold KindOf in Ek. rewrite Ep in Ek.
  destruct p; try done; cbn in H;
    repeat match type of H with
    | context [rejecting ?r _ _] => destruct r; cbn in H
    end; try done; injection H as <-; done.
Qed.
End inbound.

Definition wheel : EventField := mkEventField "delta[y]" "12".
Definition scroll : Frame :=
  mkFrame 1 "0123456789abcdef"
    (Some (Frame_Event (mkEvent 3 "cart.scroll" "cart" 7 [wheel]))).
Definition scroll_only (b : string) : option Frame :=
  if decide (b = "scroll") then Some scroll else None.

Example scroll_accepted :
  is_ok (ParseInbound scroll_only "scroll" (mkLimits 65536)) = true
  /\ is_ok (ParseInbound scroll_only "scroll" (mkLimits 5)) = false.
Proof. split; by vm_compute. Qed.
