(* ===== verification/GotthWindow.v ===== *)
(** * gotth: a session's limits, token buckets and outbound window
    (pkg/gotth/internal/session/limits.go and window.go).

    The bucket counts in rationals where the code counts in float64: the arithmetic is
    the code's, its rounding is not modelled.  A span reference is abstract data the
    window carries. *)
From Stdlib Require Import String QArith Qreduction Qround Lia Lqa.
From stdpp Require Import base list numbers.
From S2P Require Import Prelude.
From S2P Require Import GotthProtocol.
Open Scope Z_scope.

(** ** Limits *)

Definition MaxEventContributing : N := 64.
Definition MaxCoalesceFlushAt : N := CoalesceFlushCeiling - 1 - MaxEventContributing.

Record Limits := mkLimits {
  MaxInboundFrameBytes : Z;
  MaxEventsPerSecond : Q;
  EventBurst : Z;
  MailboxDepth : Z;
  AckChannelDepth : Z;
  AckWindow : Z;
  CoalesceFlushAt : Z;
  MinResyncInterval : Time.Duration;
  ResyncBurst : Z;
  WriteDeadline : Time.Duration;
  SlowClientGrace : Time.Duration;
  HeartbeatInterval : Time.Duration;
  HeartbeatTimeout : Time.Duration;
  IdleTimeout : Time.Duration;
  EffectDrainTimeout : Time.Duration;
  PanicBudget : Z;
}.

Definition DefaultLimits : Limits :=
  {| MaxInboundFrameBytes := 65536;
     MaxEventsPerSecond := 50;
     EventBurst := 100;
     MailboxDepth := 64;
     AckChannelDepth := 32;
     AckWindow := 16;
     CoalesceFlushAt := 512;
     MinResyncInterval := Time.Second;
     ResyncBurst := 3;
     WriteDeadline := 5 * Time.Second;
     SlowClientGrace := 30 * Time.Second;
     HeartbeatInterval := 20 * Time.Second;
     HeartbeatTimeout := 50 * Time.Second;
     IdleTimeout := 30 * Time.Minute;
     EffectDrainTimeout := 5 * Time.Second;
     PanicBudget := 3 |}.

(** [if v == 0 { v = d }] *)
Definition or_default (v d : Z) : Z := if v =? 0 then d else v.

Definition Normalize (l : Limits) : Limits :=
  let d := DefaultLimits in
  {| MaxInboundFrameBytes := or_default (MaxInboundFrameBytes l) (MaxInboundFrameBytes d);
     MaxEventsPerSecond :=
       if Qeq_bool (MaxEventsPerSecond l) 0 then MaxEventsPerSecond d else MaxEventsPerSecond l;
     EventBurst := or_default (EventBurst l) (EventBurst d);
     MailboxDepth := or_default (MailboxDepth l) (MailboxDepth d);
     AckChannelDepth := or_default (AckChannelDepth l) (AckChannelDepth d);
     AckWindow := or_default (AckWindow l) (AckWindow d);
     CoalesceFlushAt := or_default (CoalesceFlushAt l) (CoalesceFlushAt d);
     MinResyncInterval := or_default (MinResyncInterval l) (MinResyncInterval d);
     ResyncBurst := or_default (ResyncBurst l) (ResyncBurst d);
     WriteDeadline := or_default (WriteDeadline l) (WriteDeadline d);
     SlowClientGrace := or_default (SlowClientGrace l) (SlowClientGrace d);
     HeartbeatInterval := or_default (HeartbeatInterval l) (HeartbeatInterval d);
     HeartbeatTimeout := or_default (HeartbeatTimeout l) (HeartbeatTimeout d);
     IdleTimeout := or_default (IdleTimeout l) (IdleTimeout d);
     EffectDrainTimeout := or_default (EffectDrainTimeout l) (EffectDrainTimeout d);
     PanicBudget := or_default (PanicBudget l) (PanicBudget d) |}.

(** ** Token buckets *)

Record bucket := mkBucket { perSecond : Q; burst : Q; tokens : Q; last_at : Time.t }.

Definition newBucket (perSecond : Q) (burst : Z) (now : Time.t) : bucket :=
  {| perSecond := perSecond; burst := inject_Z burst; tokens := inject_Z burst; last_at := now |}.

(** [Duration.Seconds] *)
Definition Seconds (d : Time.Duration) : Q := Qred (d # 1000000000).

Definition refill (b : bucket) (now : Time.t) : bucket :=
  let elapsed := Time.Sub now (last_at b) in
  if 0 <? elapsed then
    let t := Qred (tokens b + Seconds elapsed * perSecond b)%Q in
    mkBucket (perSecond b) (burst b) (if Qle_bool t (burst b) then t else burst b) now
  else b.

Definition allow (b : bucket) (now : Time.t) : bool * bucket :=
  let b := refill b now in
  if Qle_bool 1 (tokens b) then
    (true, mkBucket (perSecond b) (burst b) (Qred (tokens b - 1)%Q) (last_at b))
  else (false, b).

(** ** The window *)

Definition u64_sub (a b : N) : N := ((a + (18446744073709551616 - b)) mod 18446744073709551616)%N.

Section window.
Context {SpanRef : Type}.

Record slot := mkSlot { s_serverSeq : N; s_patchID : N; span : SpanRef }.

Record window := mkWindow {
  slots : list slot; cap : Z; acked : N; highest : N; fullSince : Time.t }.
#[export] Instance Rebuild_window : Rebuild window := fun w =>
  mkWindow (slots w) (cap w) (acked w) (highest w) (fullSince w).

Definition newWindow (capacity : Z) : window :=
  {| slots := []; cap := capacity; acked := 0; highest := 0; fullSince := 0 |}.

Definition retentionSlots (w : window) : Z := cap w + 1.
Definition ackedSeq (w : window) : N := acked w.
Definition depth (w : window) : Z := i64_wrap (Z.of_N (u64_sub (highest w) (acked w))).
Definition full (w : window) : bool := cap w <=? depth w.
Definition coalescing (w : window) : bool := cap w ÷ 2 <=? depth w.

(** [for len(w.slots) > w.retentionSlots() { w.slots = w.slots[1:] }] *)
Fixpoint evict (l : list slot) (keep : Z) : list slot :=
  match l with
  | [] => []
  | _ :: l' => if keep <? Z.of_nat (length l) then evict l' keep else l
  end.

Definition push (s : slot) (w : window) : window :=
  let w := w <| highest := s_serverSeq s |> <| slots := slots w ++ [s] |> in
  w <| slots := evict (slots w) (retentionSlots w) |>.

(** The error says only which clause of the acknowledgement rule was broken. *)
Inductive ack_error := NeverEmitted | GoesBackwards.

Definition ack (seq : N) (w : window) : result ack_error window :=
  if (highest w <? seq)%N then Err NeverEmitted
  else if (seq <? acked w)%N then Err GoesBackwards
  else Ok (w <| acked := seq |>).

Definition slotFor (patchID : N) (w : window) : option slot :=
  find (fun s => (s_patchID s =? patchID)%N) (slots w).

Definition noteFullness (now : Time.t) (w : window) : Time.t * window :=
  if negb (full w) then (0, w <| fullSince := 0 |>)
  else
    let w := if Time.IsZero (fullSince w) then w <| fullSince := now |> else w in
    (fullSince w, w).
End window.
Arguments slot : clear implicits.
Arguments window : clear implicits.

(** ** What a bucket admits *)

(** How many of the calls at these times are let through. *)
Fixpoint granted (b : bucket) (nows : list Time.t) : Z :=
  match nows with
  | [] => 0
  | t :: ts => let '(ok, b) := allow b t in (if ok then 1 else 0) + granted b ts
  end.

(** Times in order, none before [from]. *)
Fixpoint ordered (from : Time.t) (nows : list Time.t) : Prop :=
  match nows with
  | [] => True
  | t :: ts => from <= t /\ ordered t ts
  end.

Definition seconds (d : Z) : Q := d # 1000000000.

Lemma Seconds_eq d : (Seconds d == seconds d)%Q.
Proof. apply Qred_correct. Qed.

Lemma seconds_add a b : (seconds (a + b) == seconds a + seconds b)%Q.
Proof. unfold seconds. rewrite !Qmake_Qdiv, inject_Z_plus. field. Qed.

Lemma seconds_nonneg d : 0 <= d -> (0 <= seconds d)%Q.
Proof. unfold seconds, Qle. cbn. lia. Qed.

Definition wf_bucket (b : bucket) : Prop := (0 <= perSecond b)%Q /\ (0 <= tokens b <= burst b)%Q.

(** Refilling at a later time. *)
Lemma refill_spec b now : wf_bucket b -> last_at b <= now -> now - last_at b <= max_int64 ->
  let b' := refill b now in
  wf_bucket b' /\ perSecond b' = perSecond b /\ burst b' = burst b /\ last_at b' = now
  /\ (tokens b' <= tokens b + seconds (now - last_at b) * perSecond b)%Q
  /\ (tokens b' == burst b \/ tokens b' == tokens b + seconds (now - last_at b) * perSecond b)%Q.
Proof.
  intros [Hp Ht] Hle Hmax b'.
  assert (0 <= seconds (now - last_at b) * perSecond b)%Q as Hgain.
  { apply Qmult_le_0_compat; [apply seconds_nonneg; lia|done]. } subst b'. unfold refill, Time.Sub.
  assert (min_int64 < 0) by (by vm_compute). rewrite i64_clamp_id by lia.
  destruct (Z.ltb_spec 0 (now - last_at b)) as [H0|H0].
  - set (t := Qred _). assert (t == tokens b + seconds (now - last_at b) * perSecond b)%Q as Et.
    { unfold t. rewrite Qred_correct, Seconds_eq. reflexivity. }
    unfold wf_bucket. cbn. destruct (Qle_bool t (burst b)) eqn:E.
    + apply Qle_bool_iff in E. split_and!; try done; try lra; by right.
    + assert (burst b < t)%Q by (apply Qnot_le_lt; rewrite <- Qle_bool_iff, E; done).
      split_and!; try done; try lra; by left.
  - assert (now = last_at b) as -> by lia. rewrite Z.sub_diag.
    assert (seconds 0 == 0)%Q as E0 by reflexivity. rewrite E0. split_and!; try done; try lra; right; lra.
Qed.

Lemma allow_spec b now : wf_bucket b -> last_at b <= now -> now - last_at b <= max_int64 ->
  let '(ok, b') := allow b now in
  wf_bucket b' /\ perSecond b' = perSecond b /\ burst b' = burst b /\ last_at b' = now
  /\ (inject_Z (if ok then 1 else 0) + tokens b'
      <= tokens b + seconds (now - last_at b) * perSecond b)%Q
  /\ (ok = true <-> 1 <= tokens (refill b now))%Q.
Proof.
  intros Hb Hle Hmax.
  destruct (refill_spec b now Hb Hle Hmax) as ([H1 H2] & H3 & H4 & H5 & H6 & _).
  unfold allow. set (r := refill b now) in *. clearbody r.
  destruct (Qle_bool 1 (tokens r)) eqn:E.
  - apply Qle_bool_iff in E. unfold wf_bucket. cbn. rewrite Qred_correct.
    change (inject_Z 1) with 1%Q. split_and!; try done; lra.
  - split_and!; try done; [change (inject_Z 0) with 0%Q; lra|].
    rewrite <- Qle_bool_iff, E. done.
Qed.

Lemma ordered_weaken from from' nows : from' <= from -> ordered from nows -> ordered from' nows.
Proof. destruct nows as [|t ts]; cbn; [done|]. intros H [H1 H2]. split; [lia|done]. Qed.

Lemma granted_bound nows b until : wf_bucket b -> ordered (last_at b) nows ->
  Forall (fun t => t <= until) nows -> last_at b <= until -> until - last_at b <= max_int64 ->
  (inject_Z (granted b nows) <= tokens b + seconds (until - last_at b) * perSecond b)%Q
  /\ 0 <= granted b nows.
Proof.
  revert b. induction nows as [|t ts IH]; intros b Hb Hord Hu Hlu Hmax; cbn [granted].
  { split; [|done]. destruct Hb as [Hp Ht].
    assert (0 <= seconds (until - last_at b) * perSecond b)%Q; [|change (inject_Z 0) with 0%Q; lra].
    apply Qmult_le_0_compat; [apply seconds_nonneg; lia|done]. }
  destruct Hord as [Ht Hord]. apply Forall_cons in Hu as [Htu Hu].
  pose proof (allow_spec b t Hb Ht ltac:(lia)) as Ha.
  destruct (allow b t) as [ok b'] eqn:Ea. destruct Ha as (Hb' & Hp & Hbu & Hl & Htok & _).
  rewrite <- Hl in Hord. specialize (IH b' Hb' Hord Hu ltac:(lia) ltac:(lia)) as [IH1 IH2].
  split; [|destruct ok; lia].
  rewrite inject_Z_plus. rewrite Hl, Hp in IH1.
  assert (seconds (until - last_at b) == seconds (t - last_at b) + seconds (until - t))%Q as Es.
  { rewrite <- seconds_add. f_equiv. lia. }
  rewrite Es. lra.
Qed.

(** Times at least [1/rate] seconds apart. *)
Fixpoint paced (rate : Q) (from : Time.t) (nows : list Time.t) : Prop :=
  match nows with
  | [] => True
  | t :: ts => (1 <= seconds (t - from) * rate)%Q /\ paced rate t ts
  end.

Lemma newBucket_wf rate n now : (0 <= rate)%Q -> 0 <= n -> wf_bucket (newBucket rate n now).
Proof.
  intros Hr Hn. unfold wf_bucket, newBucket. cbn. split; [done|].
  split; [|lra]. change 0%Q with (inject_Z 0). by rewrite <- Zle_Qle.
Qed.

(** A rate limit limits and does not starve.  Of the calls a fresh bucket sees in
    any stretch of time it lets through at most its depth plus the rate times the
    stretch; and a caller that keeps the calls one period apart is never refused, as
    long as the bucket holds at least one token. *)
Theorem bucket_limits (rate : Q) (depth : Z) (start until : Time.t) (nows : list Time.t)
  (Hrate : (0 <= rate)%Q) (Hdepth : 0 <= depth) (Hord : ordered start nows)
  (Huntil : Forall (fun t => t <= until) nows) (Hstart : start <= until)
  (Hspan : until - start <= max_int64) :
  (inject_Z (granted (newBucket rate depth start) nows)
   <= inject_Z depth + seconds (until - start) * rate)%Q
  /\ (1 <= depth -> paced rate start nows ->
      granted (newBucket rate depth start) nows = Z.of_nat (length nows)).
Proof.
  split.
  { apply (granted_bound nows (newBucket rate depth start) until); try done.
    by apply newBucket_wf. }
  intros H1. set (b := newBucket rate depth start).
  assert (wf_bucket b) as Hb by by apply newBucket_wf.
  assert (1 <= burst b)%Q as Hbu.
  { unfold b. cbn. change 1%Q with (inject_Z 1). by rewrite <- Zle_Qle. }
  assert (perSecond b = rate) as Hp by done. assert (last_at b = start) as Hl by done.
  clearbody b. clear Hdepth H1. revert b start Hord Hstart Hspan Hb Hbu Hp Hl.
  induction nows as [|t ts IH]; intros b start Hord Hstart Hspan Hb Hbu Hp Hl Hpaced; [done|].
  destruct Hord as [Ht Hord]. destruct Hpaced as [Hgap Hpaced].
  apply Forall_cons in Huntil as [Htu Huntil].
  subst start. cbn [granted length].
  destruct (refill_spec b t Hb Ht ltac:(lia)) as (_ & _ & _ & _ & _ & Htok).
  pose proof (allow_spec b t Hb Ht ltac:(lia)) as Ha.
  destruct (allow b t) as [ok b'] eqn:Ea. destruct Ha as (Hb' & Hp' & Hbu' & Hl' & _ & Hok).
  assert (ok = true) as ->.
  { apply Hok. destruct Hb as [_ [Ht0 _]]. rewrite Hp in Htok. destruct Htok; lra. }
  rewrite (IH Huntil b' t Hord Htu ltac:(lia) Hb'); try done; [lia|by rewrite Hbu'|by rewrite Hp'].
Qed.

Lemma bucket_limits_witness :
  granted (newBucket 1 2 0) [0; 0; 0; Time.Second] = 3
  /\ (inject_Z (granted (newBucket 1 2 0%Z) [0; 0; 0; Time.Second]%Z)
      <= inject_Z 2 + seconds (Time.Second - 0)%Z * 1)%Q
  /\ granted (newBucket 1 2 0) [Time.Second; 2 * Time.Second] = 2.
Proof.
  split; [by vm_compute|]. split.
  - apply (proj1 (bucket_limits 1 2 0 Time.Second [0; 0; 0; Time.Second]
      ltac:(by vm_compute) ltac:(lia) ltac:(by vm_compute)
      ltac:(repeat constructor; by vm_compute) ltac:(by vm_compute) ltac:(by vm_compute))).
  - apply (proj2 (bucket_limits 1 2 0 (2 * Time.Second) [Time.Second; 2 * Time.Second]
      ltac:(by vm_compute) ltac:(lia) ltac:(by vm_compute)
      ltac:(repeat constructor; by vm_compute) ltac:(by vm_compute) ltac:(by vm_compute)));
      [lia|by vm_compute].
Defined.

(** ** The window's invariant *)

Section window_facts.
Context {SpanRef : Type}.
Implicit Types (w : window SpanRef) (s : slot SpanRef).

Lemma evict_spec (l : list (slot SpanRef)) keep : 0 <= keep ->
  evict l keep = drop (length l - Z.to_nat keep) l.
Proof.
  intros Hk. induction l as [|s l IH]; [done|].
  cbn [evict]. destruct (Z.ltb_spec keep (Z.of_nat (length (s :: l)))) as [H|H].
  - rewrite IH. cbn [length] in *.
    replace (S (length l) - Z.to_nat keep)%nat with (S (length l - Z.to_nat keep)) by lia. done.
  - replace (length (s :: l) - Z.to_nat keep)%nat with O by lia. done.
Qed.

(** The ring holds the newest of the patches sent so far, as many as it retains. *)
Definition retains w (sent : list (slot SpanRef)) : Prop :=
  0 <= cap w /\ slots w = drop (length sent - Z.to_nat (cap w + 1)) sent
  /\ highest w = match last sent with Some s => s_serverSeq s | None => 0%N end.

Lemma retains_new n : 0 <= n -> retains (newWindow n) [].
Proof. done. Qed.

Lemma retains_push w sent s : retains w sent -> retains (push s w) (sent ++ [s]).
Proof.
  intros (Hc & Hs & Hh). unfold retains, push. cbn.
  split; [done|]. split; [|by rewrite last_snoc].
  unfold retentionSlots. cbn. rewrite evict_spec, Hs by lia.
  rewrite length_app, length_drop, length_app. cbn [length].
  destruct (decide (length sent <= Z.to_nat (cap w + 1))%nat) as [Hl|Hl].
  - replace (length sent - Z.to_nat (cap w + 1))%nat with O by lia. rewrite drop_0.
    f_equal. lia.
  - rewrite <- drop_app_le by lia. rewrite drop_drop. f_equal. lia.
Qed.

Lemma retains_ack w sent n w' : retains w sent -> ack n w = Ok w' -> retains w' sent.
Proof.
  unfold ack. intros H. destruct (highest w <? n)%N; [done|]. destruct (n <? acked w)%N; [done|].
  by intros [= <-].
Qed.

Lemma retains_note w sent now : retains w sent -> retains (noteFullness now w).2 sent.
Proof. unfold noteFullness. intros H. by destruct (full w), (Time.IsZero (fullSince w)). Qed.
End window_facts.
