(* ===== verification/GotthRender.v ===== *)
(** * gotth: fragments and the renderer of a session (pkg/gotth/internal/render).

    The application's functions are total Rocq functions whose panics are values: a
    render gives markup or a failure, a change declaration a boolean or a failure, a
    projection of children a list or a failure.  The seeded hash of a registry is a
    parameter.  A nil function is [None]. *)
From Stdlib Require Import String Ascii NArith Lia.
From stdpp Require Import base list gmap sets strings.
From S2P Require Import Prelude.
From S2P Require Import GotthProtocol.
Open Scope N_scope.

(** ** The dirty set *)

Module Bitset.
(** [make(bitset, (n+63)/64)] *)
Definition new (n : nat) : list N := replicate ((n + 63) / 64) 0.

Definition word (b : list N) (i : nat) : N := default 0 (b !! (i / 64)%nat).
Definition bit (i : nat) : N := N.shiftl 1 (N.of_nat (i mod 64)%nat).

Definition set (i : nat) (b : list N) : list N := <[(i / 64)%nat := N.lor (word b i) (bit i)]> b.
Definition clear (i : nat) (b : list N) : list N := <[(i / 64)%nat := N.ldiff (word b i) (bit i)]> b.
Definition has (i : nat) (b : list N) : bool := negb (N.land (word b i) (bit i) =? 0).
Definition any (b : list N) : bool := existsb (fun w => negb (w =? 0)) b.

Definition setAll (n : nat) (b : list N) : list N :=
  let b := (fun _ => 18446744073709551615) <$> b in
  let rem := (n mod 64)%nat in
  if decide (rem = O) then b
  else <[(length b - 1)%nat := N.shiftl 1 (N.of_nat rem) - 1]> b.
End Bitset.

Section render.
Context {State : Type} (hash : string -> N).

(** ** Declarations *)

Inductive rendered := Markup (html : string) | RenderFailed (value stack : string).
Inductive decided := Changed (b : bool) | DirtyPanicked (value stack : string).

Inductive Fragment := mkFragment {
  ID : string;
  Render : option (State -> rendered);
  Dirty : option (State -> State -> decided);
  Children : option (State -> list Fragment + string * string);
}.

Record Registry := mkRegistry { frags : list Fragment; index : gmap string nat }.

Inductive registry_error :=
| ErrNoFragments | ErrNoID (i : nat) | ErrLongID (i : nat) | ErrIDByte (i : nat)
| ErrNoRender (i : nat) | ErrDuplicate (prev i : nat) | ErrNamespace (other parent : string).

Definition id_byte (c : ascii) : bool :=
  let n := N_of_ascii c in
  ((65 <=? n) && (n <=? 90)) || ((97 <=? n) && (n <=? 122)) || ((48 <=? n) && (n <=? 57))
  || bool_decide (c ∈ ["_"; ":"; "."; "-"]%char).

(** [None] accepts; [Some true] is a length, [Some false] a byte out of bounds. *)
Definition validFragmentID (id : string) : option bool :=
  if 64 <? len id then Some true
  else if forallb id_byte (String.list_ascii_of_string id) then None else Some false.

(** The loop over the fragments, from the [i]-th. *)
Fixpoint index_from (i : nat) (fs : list Fragment) (idx : gmap string nat)
  : result registry_error (gmap string nat) :=
  match fs with
  | [] => Ok idx
  | f :: fs =>
      guard! negb (bool_decide (ID f = "")) else ErrNoID i in
      match validFragmentID (ID f) with
      | Some true => Err (ErrLongID i)
      | Some false => Err (ErrIDByte i)
      | None =>
          match Render f, idx !! ID f with
          | None, _ => Err (ErrNoRender i)
          | _, Some prev => Err (ErrDuplicate prev i)
          | _, None => index_from (S i) fs (<[ID f := i]> idx)
          end
      end
  end.

(** The identifier lies in a parent's namespace. *)
Definition in_namespace (parent id : string) : bool := String.prefix (parent +:+ ":") id.

(** The first fragment, in the order of the two loops, inside another's namespace. *)
Definition overlap (fs : list Fragment) : option (string * string) :=
  head (fs ≫= fun parent =>
    match Children parent with
    | None => []
    | Some _ =>
        (fun other => (ID other, ID parent)) <$>
          List.filter (fun other => negb (bool_decide (ID other = ID parent))
                               && in_namespace (ID parent) (ID other)) fs
    end).

Definition NewRegistry (fs : list Fragment) : result registry_error Registry :=
  match fs with
  | [] => Err ErrNoFragments
  | _ =>
      let! idx := index_from 0 fs ∅ in
      match overlap fs with
      | Some (other, parent) => Err (ErrNamespace other parent)
      | None => Ok (mkRegistry fs idx)
      end
  end.

Definition AdmitsID (r : Registry) (id : string) : bool :=
  match index r !! id with
  | Some _ => true
  | None =>
      existsb (fun parent =>
        match Children parent with
        | None => false
        | Some _ => negb (bool_decide (id = ID parent +:+ ":")) && in_namespace (ID parent) id
        end) (frags r)
  end.

(** ** The renderer *)

(** An update has [OpMorph] always; [toWireUpdates] gives it its wire value. *)
Inductive RenderOp := OpUnspecified | OpMorph | OpAppend | OpPrepend | OpRemove.
Record RUpdate := mkRUpdate { u_FragmentID : string; u_Op : RenderOp; u_HTML : string }.

Record Failure := mkFailure {
  f_FragmentID : string; Site : string; f_Value : string; Stack : string }.

Record collectionCache := mkCache {
  ids : list string; c_hashes : gmap string N; parentCurrent : bool }.
(** The zero value, which a missing entry of the map reads as. *)
Definition noCache : collectionCache := mkCache [] ∅ false.

Record collectionResult := mkCollectionResult {
  cr_index : nat; cr_cache : collectionCache; whole : bool; cr_dirty : list string }.

Record Result := mkResult {
  Updates : list RUpdate;
  Suppressed : list string;
  Failed : list Failure;
  updated : list nat;
  r_hashes : list N;
  r_collections : list collectionResult;
}.
#[export] Instance Rebuild_Result : Rebuild Result := fun r =>
  mkResult (Updates r) (Suppressed r) (Failed r) (updated r) (r_hashes r) (r_collections r).
Definition noResult : Result := mkResult [] [] [] [] [] [].

Record Renderer := mkRenderer {
  reg : Registry;
  hashes : list N;
  dirty : list N;
  collections : gmap nat collectionCache;
  childDirty : gmap nat (gset string);
  parentDirty : list N;
  known : gset string;
}.
#[export] Instance Rebuild_Renderer : Rebuild Renderer := fun v =>
  mkRenderer (reg v) (hashes v) (dirty v) (collections v) (childDirty v) (parentDirty v)
    (known v).

Definition publishIDs (v : Renderer) : Renderer :=
  v <| known :=
    list_to_set ((ID <$> frags (reg v))
                 ++ (map_to_list (collections v) ≫= fun kc => ids kc.2)) |>.

Definition MarkAll (v : Renderer) : Renderer :=
  let n := length (frags (reg v)) in
  v <| dirty ::= Bitset.setAll n |> <| parentDirty ::= Bitset.setAll n |>.

Definition NewRenderer (r : Registry) : Renderer :=
  let n := length (frags r) in
  publishIDs (MarkAll
    {| reg := r; hashes := replicate n 0; dirty := Bitset.new n; collections := ∅;
       childDirty := ∅; parentDirty := Bitset.new n; known := ∅ |}).

Definition KnownID (v : Renderer) (id : string) : bool := bool_decide (id ∈ known v).

Definition Pending (v : Renderer) : bool := Bitset.any (dirty v).

Definition children_of (v : Renderer) (i : nat) : gset string := default ∅ (childDirty v !! i).
Definition cache_of (v : Renderer) (i : nat) : collectionCache :=
  default noCache (collections v !! i).

Definition markDirty (i : nat) (v : Renderer) : Renderer := v <| dirty ::= Bitset.set i |>.
Definition markChild (i : nat) (id : string) (v : Renderer) : Renderer :=
  v <| childDirty ::= <[i := {[id]} ∪ children_of v i]> |>.

(** *** Marking *)

Definition callDirty (f : Fragment) (declared : State -> State -> decided) (prev next : State)
  : bool * list Failure :=
  match declared prev next with
  | Changed b => (b, [])
  | DirtyPanicked value stack => (true, [mkFailure (ID f) "dirty" value stack])
  end.

(** A nil declaration reads as changed. *)
Definition declares (f : Fragment) (prev next : State) : bool * list Failure :=
  match Dirty f with
  | None => (true, [])
  | Some d => callDirty f d prev next
  end.

Definition validCollectionChild (parentID : string) (child : Fragment) (duplicate : bool) : bool :=
  match validFragmentID (ID child) with
  | Some _ => false
  | None =>
      in_namespace parentID (ID child) && negb (bool_decide (ID child = parentID +:+ ":"))
      && negb duplicate
      && match Render child, Children child with Some _, None => true | _, _ => false end
  end.

(** The children seen so far are the first [i]. *)
Fixpoint valid_children (parentID : string) (seen : gset string) (cs : list Fragment) : bool :=
  match cs with
  | [] => true
  | c :: cs =>
      validCollectionChild parentID c (bool_decide (ID c ∈ seen))
      && valid_children parentID ({[ID c]} ∪ seen) cs
  end.

(** Every failure has the site "children"; an invalid child's error text is [""]. *)
Definition collectionChildren (parent : Fragment) (project : State -> list Fragment + string * string)
  (state : State) : result Failure (list Fragment) :=
  match project state with
  | inr (value, stack) => Err (mkFailure (ID parent) "children" value stack)
  | inl cs =>
      if valid_children (ID parent) ∅ cs then Ok cs
      else Err (mkFailure (ID parent) "children" "" "")
  end.

(** The loop over the children of a collection without a pending structural render. *)
Fixpoint mark_children (i : nat) (cs : list Fragment) (prev next : State)
  (v : Renderer) : Renderer * list Failure :=
  match cs with
  | [] => (v, [])
  | c :: cs =>
      let '(changed, fails) := declares c prev next in
      let v := if changed then markDirty i (markChild i (ID c) v) else v in
      let '(v, rest) := mark_children i cs prev next v in
      (v, fails ++ rest)
  end.

Definition markCollection (i : nat) (parent : Fragment)
  (project : State -> list Fragment + string * string) (prev next : State) (v : Renderer)
  : Renderer * list Failure :=
  match collectionChildren parent project next with
  | Err f => (v, [f])
  | Ok children =>
      let '(structural, fails) := declares parent prev next in
      let v :=
        if structural || negb (bool_decide (ID <$> children = ids (cache_of v i)))
        then markDirty i (v <| parentDirty ::= Bitset.set i |>) else v in
      if Bitset.has i (parentDirty v) then (v <| childDirty ::= delete i |>, fails)
      else
        let '(v, rest) := mark_children i children prev next v in
        (v, fails ++ rest)
  end.

Fixpoint mark_from (i : nat) (fs : list Fragment) (prev next : State) (v : Renderer)
  : Renderer * list Failure :=
  match fs with
  | [] => (v, [])
  | f :: fs =>
      let '(v, fails) :=
        match Children f with
        | Some project => markCollection i f project prev next v
        | None =>
            let '(changed, fails) := declares f prev next in
            (if changed then markDirty i v else v, fails)
        end in
      let '(v, rest) := mark_from (S i) fs prev next v in
      (v, fails ++ rest)
  end.

Definition Mark (prev next : State) (v : Renderer) : Renderer * list Failure :=
  mark_from 0 (frags (reg v)) prev next v.

(** [index] maps the static fragments; of the collections, which are disjoint
    namespaces, the one whose last sent members include the identifier. *)
Definition MarkID (id : string) (v : Renderer) : Renderer * bool :=
  match index (reg v) !! id with
  | Some i => (markDirty i (v <| parentDirty ::= Bitset.set i |>), true)
  | None =>
      match List.find (fun kc => bool_decide (is_Some (c_hashes kc.2 !! id)))
              (map_to_list (collections v)) with
      | Some (i, _) => (markDirty i (markChild i id v), true)
      | None => (v, false)
      end
  end.

(** *** Rendering *)

Definition callRender (f : Fragment) (state : State) : string + Failure :=
  match Render f with
  | None => inr (mkFailure (ID f) "render" "" "")
  | Some render =>
      match render state with
      | Markup html => inl html
      | RenderFailed value stack => inr (mkFailure (ID f) "render" value stack)
      end
  end.

Definition fail (f : Failure) (res : Result) : Result := res <| Failed ::= (.++ [f]) |>.
Definition suppress (id : string) (res : Result) : Result := res <| Suppressed ::= (.++ [id]) |>.
Definition emit (id html : string) (res : Result) : Result :=
  res <| Updates ::= (.++ [mkRUpdate id OpMorph html]) |>.
Definition record (i : nat) (sum : N) (res : Result) : Result :=
  res <| updated ::= (.++ [i]) |> <| r_hashes ::= (.++ [sum]) |>.

(** The loop that stages the hashes of every child; the first failure abandons it. *)
Fixpoint stage_children (cs : list Fragment) (state : State) (staged : gmap string N)
  : result Failure (gmap string N) :=
  match cs with
  | [] => Ok staged
  | c :: cs =>
      match callRender c state with
      | inr f => Err f
      | inl html => stage_children cs state (<[ID c := hash html]> staged)
      end
  end.

(** The state of [renderCollectionChildren]'s loop: the cache's hashes, the children
    that changed, the result. *)
Fixpoint render_children (cs : list Fragment) (state : State) (pending : gset string)
  (previous staged : gmap string N) (changed : list string) (res : Result)
  : gmap string N * list string * Result :=
  match cs with
  | [] => (staged, changed, res)
  | c :: cs =>
      if negb (bool_decide (ID c ∈ pending))
      then render_children cs state pending previous staged changed res
      else
        match callRender c state with
        | inr f => render_children cs state pending previous staged changed (fail f res)
        | inl html =>
            let sum := hash html in
            let staged := <[ID c := sum]> staged in
            if sum =? default 0 (previous !! ID c)
            then render_children cs state pending previous staged changed (suppress (ID c) res)
            else render_children cs state pending previous staged (changed ++ [ID c])
                   (emit (ID c) html res)
        end
  end.

Definition renderCollectionChildren (i : nat) (children : list Fragment) (state : State)
  (v : Renderer) (res : Result) : Renderer * Result :=
  let pending := children_of v i in
  let v := v <| childDirty ::= delete i |> in
  let previous := cache_of v i in
  let '(staged, changed, res) :=
    render_children children state pending (c_hashes previous) (c_hashes previous) [] res in
  (v, match changed with
      | [] => res
      | _ => res <| r_collections ::=
               (.++ [mkCollectionResult i (mkCache (ids previous) staged false) false changed]) |>
      end).

Definition renderCollection (i : nat) (parent : Fragment)
  (project : State -> list Fragment + string * string) (all : bool) (state : State)
  (v : Renderer) (res : Result) : Renderer * Result :=
  match collectionChildren parent project state with
  | Err f => (v, fail f res)
  | Ok children =>
      let members := ID <$> children in
      let previous := cache_of v i in
      let initialized := bool_decide (is_Some (collections v !! i)) in
      let sameMembers := bool_decide (ids previous = members) in
      let whole := all || negb initialized || Bitset.has i (parentDirty v) || negb sameMembers in
      let v := v <| parentDirty ::= Bitset.clear i |> in
      if negb whole then renderCollectionChildren i children state v res
      else
        let v := v <| childDirty ::= delete i |> in
        match stage_children children state ∅ with
        | Err f => (v, fail f res)
        | Ok staged =>
            let compareParent :=
              negb all && initialized && parentCurrent previous && sameMembers in
            match callRender parent state with
            | inr f => (v, fail f res)
            | inl html =>
                let sum := hash html in
                if compareParent && (sum =? default 0 (hashes v !! i))
                then (v, suppress (ID parent) res)
                else
                  (v, emit (ID parent) html (record i sum res)
                        <| r_collections ::=
                             (.++ [mkCollectionResult i (mkCache members staged true) true
                                     [ID parent]]) |>)
            end
        end
  end.

Definition renderFragment (i : nat) (f : Fragment) (all : bool) (state : State)
  (v : Renderer) (res : Result) : Renderer * Result :=
  match callRender f state with
  | inr fl => (v, fail fl res)
  | inl html =>
      let sum := hash html in
      if negb all && (sum =? default 0 (hashes v !! i)) then (v, suppress (ID f) res)
      else (v, emit (ID f) html (record i sum res))
  end.

(** One turn of the loop over the fragments. *)
Definition render_one (i : nat) (f : Fragment) (all : bool) (state : State)
  (v : Renderer) (res : Result) : Renderer * Result :=
  if negb all && negb (Bitset.has i (dirty v)) then (v, res)
  else
    let v := v <| dirty ::= Bitset.clear i |> in
    match Children f with
    | Some project => renderCollection i f project all state v res
    | None => renderFragment i f all state v res
    end.

Fixpoint render_from (i : nat) (fs : list Fragment) (all : bool) (state : State)
  (v : Renderer) (res : Result) : Renderer * Result :=
  match fs with
  | [] => (v, res)
  | f :: fs =>
      let '(v, res) := render_one i f all state v res in
      render_from (S i) fs all state v res
  end.

(** [Render] and [RenderAll]. *)
Definition RenderDirty (state : State) (v : Renderer) : Renderer * Result :=
  render_from 0 (frags (reg v)) false state v noResult.
Definition RenderAll (state : State) (v : Renderer) : Renderer * Result :=
  render_from 0 (frags (reg v)) true state v noResult.

(** *** Committing *)

Definition Commit (res : Result) (v : Renderer) : Renderer :=
  let v := v <| hashes ::=
    fun hs => foldl (fun hs ih => <[ih.1 := ih.2]> hs) hs (zip (updated res) (r_hashes res)) |> in
  let v := v <| collections ::=
    fun cs => foldl (fun cs c => <[cr_index c := cr_cache c]> cs) cs (r_collections res) |> in
  match r_collections res with
  | [] => v
  | _ => publishIDs v
  end.

Definition discard_collection (v : Renderer) (c : collectionResult) : Renderer :=
  let v := markDirty (cr_index c) v in
  if whole c then v <| parentDirty ::= Bitset.set (cr_index c) |>
  else foldl (fun v id => markChild (cr_index c) id v) v (cr_dirty c).

Definition Discard (res : Result) (v : Renderer) : Renderer :=
  let v := foldl (fun v i => markDirty i v) v (updated res) in
  foldl discard_collection v (r_collections res).
End render.
Arguments Fragment : clear implicits.
Arguments Registry : clear implicits.
Arguments Renderer : clear implicits.
