(* ===== verification/GotthBitset.v ===== *)
(** * gotth: the renderer's bit set is a set.

    [set], [clear], [has], [any] and [setAll] of renderer.go against membership of the
    indices below the bound the set was made for. *)
From Stdlib Require Import NArith Lia.
From stdpp Require Import base list gmap sets.
From S2P Require Import Prelude.
From S2P Require Import GotthRender.

Definition word_bound : N := 18446744073709551616.

(** A bit set made for [n] indices: enough words, none over 64 bits, no bit past [n]. *)
Definition bits_ok (n : nat) (b : list N) : Prop :=
  length b = ((n + 63) / 64)%nat /\ Forall (fun w => (w < word_bound)%N) b
  /\ forall i, Bitset.has i b = true -> (i < n)%nat.

Lemma has_testbit i b : Bitset.has i b = N.testbit (Bitset.word b i) (N.of_nat (i mod 64)).
Proof.
  unfold Bitset.has, Bitset.bit. rewrite N.shiftl_1_l.
  destruct (N.testbit _ _) eqn:E.
  - destruct (N.eqb_spec (N.land (Bitset.word b i) (2 ^ N.of_nat (i mod 64))) 0) as [H|]; [|done].
    assert (N.testbit (N.land (Bitset.word b i) (2 ^ N.of_nat (i mod 64)))
              (N.of_nat (i mod 64)) = true) as H'
      by (rewrite N.land_spec, E, N.pow2_bits_true; done).
    rewrite H in H'. by rewrite N.bits_0 in H'.
  - replace (N.land _ _) with 0%N; [done|]. symmetry. apply N.bits_inj_0. intros k.
    rewrite N.land_spec. destruct (decide (k = N.of_nat (i mod 64))) as [->|Hk].
    + by rewrite E.
    + rewrite N.pow2_bits_false by congruence. by rewrite andb_false_r.
Qed.

Lemma index_split i j : i = j <-> (i / 64 = j / 64 /\ i mod 64 = j mod 64)%nat.
Proof.
  split; [by intros ->|]. intros [H1 H2].
  rewrite (Nat.div_mod_eq i 64), (Nat.div_mod_eq j 64). lia.
Qed.

Lemma word_lt n b i : bits_ok n b -> (i < n)%nat -> (i / 64 < length b)%nat.
Proof.
  intros (-> & _) Hi. pose proof (Nat.div_mod_eq i 64). pose proof (Nat.div_mod_eq (n + 63) 64).
  pose proof (Nat.mod_upper_bound i 64). pose proof (Nat.mod_upper_bound (n + 63) 64). lia.
Qed.

(** Writing one word. *)
Lemma word_insert b i j w : (i / 64 < length b)%nat ->
  Bitset.word (<[(i / 64)%nat := w]> b) j =
  if decide (i / 64 = j / 64)%nat then w else Bitset.word b j.
Proof.
  intros Hi. unfold Bitset.word. destruct (decide (i / 64 = j / 64)%nat) as [E|E].
  - rewrite <- E. by rewrite list_lookup_insert_eq.
  - by rewrite list_lookup_insert_ne.
Qed.

Lemma has_set n b i j : bits_ok n b -> (i < n)%nat ->
  Bitset.has j (Bitset.set i b) = bool_decide (j = i) || Bitset.has j b.
Proof.
  intros Hb Hi. rewrite !has_testbit. unfold Bitset.set.
  rewrite word_insert by by eapply word_lt.
  destruct (decide (i / 64 = j / 64)%nat) as [E|E].
  - rewrite N.lor_spec. unfold Bitset.bit. rewrite N.shiftl_1_l, N.pow2_bits_eqb.
    assert (Bitset.word b i = Bitset.word b j) as -> by (unfold Bitset.word; by rewrite E).
    rewrite orb_comm. f_equal.
    case_bool_decide as Hj.
    + subst. apply N.eqb_refl.
    + apply N.eqb_neq. intros H%Nat2N.inj. apply Hj. symmetry. by apply index_split.
  - rewrite bool_decide_eq_false_2; [done|]. congruence.
Qed.

Lemma has_clear n b i j : bits_ok n b -> (i < n)%nat ->
  Bitset.has j (Bitset.clear i b) = negb (bool_decide (j = i)) && Bitset.has j b.
Proof.
  intros Hb Hi. rewrite !has_testbit. unfold Bitset.clear.
  rewrite word_insert by by eapply word_lt.
  destruct (decide (i / 64 = j / 64)%nat) as [E|E].
  - rewrite N.ldiff_spec. unfold Bitset.bit. rewrite N.shiftl_1_l, N.pow2_bits_eqb.
    assert (Bitset.word b i = Bitset.word b j) as -> by (unfold Bitset.word; by rewrite E).
    rewrite andb_comm. f_equal. f_equal.
    case_bool_decide as Hj.
    + subst. apply N.eqb_refl.
    + apply N.eqb_neq. intros H%Nat2N.inj. apply Hj. symmetry. by apply index_split.
  - rewrite bool_decide_eq_false_2; [done|]. congruence.
Qed.

Lemma word_bounded n b i : bits_ok n b -> (Bitset.word b i < word_bound)%N.
Proof.
  intros (_ & Hw & _). unfold Bitset.word.
  destruct (b !! (i / 64)%nat) as [w|] eqn:E; cbn; [|done].
  by eapply Forall_lookup in Hw.
Qed.

Lemma bound_log2 w : (w < word_bound)%N <-> (w = 0 \/ N.log2 w < 64)%N.
Proof.
  destruct (decide (w = 0)%N) as [->|Hw]; [split; [by left|done]|].
  change word_bound with (2 ^ 64)%N. rewrite N.log2_lt_pow2 by lia. naive_solver.
Qed.

Lemma lor_bounded a b : (a < word_bound)%N -> (b < word_bound)%N -> (N.lor a b < word_bound)%N.
Proof.
  rewrite !bound_log2. intros Ha Hb. right. rewrite N.log2_lor.
  destruct Ha as [->|Ha], Hb as [->|Hb]; cbn; lia.
Qed.

Lemma bit_bounded i : (Bitset.bit i < word_bound)%N.
Proof.
  apply bound_log2. right. unfold Bitset.bit. rewrite N.shiftl_1_l, N.log2_pow2 by lia.
  pose proof (Nat.mod_upper_bound i 64). lia.
Qed.

Lemma ldiff_bounded a b : (a < word_bound)%N -> (N.ldiff a b < word_bound)%N.
Proof. intros H. pose proof (N.ldiff_le_l a b). lia. Qed.

Lemma bits_ok_insert n b i w : bits_ok n b -> (i < n)%nat -> (w < word_bound)%N ->
  (forall j, (i / 64 = j / 64)%nat -> N.testbit w (N.of_nat (j mod 64)) = true -> (j < n)%nat) ->
  bits_ok n (<[(i / 64)%nat := w]> b).
Proof.
  intros Hb Hi Hw Hj. pose proof Hb as (Hl & Hall & Hn). unfold bits_ok.
  split; [by rewrite length_insert|]. split; [by apply Forall_insert|].
  intros j. rewrite has_testbit, word_insert by by eapply word_lt.
  destruct (decide _) as [E|E]; [by apply Hj|]. rewrite <- has_testbit. apply Hn.
Qed.

Lemma bits_ok_set n b i : bits_ok n b -> (i < n)%nat -> bits_ok n (Bitset.set i b).
Proof.
  intros Hb Hi. pose proof Hb as (_ & _ & Hn).
  apply bits_ok_insert; [done..| |].
  - apply lor_bounded; [by eapply word_bounded|apply bit_bounded].
  - intros j E Ht. pose proof (has_set n b i j Hb Hi) as Hs. rewrite has_testbit in Hs.
    unfold Bitset.set in Hs. rewrite word_insert, decide_True in Hs by (done || by eapply word_lt).
    rewrite Ht in Hs. symmetry in Hs. apply orb_true_iff in Hs as [->%bool_decide_eq_true|H];
      [done|by apply Hn].
Qed.

Lemma bits_ok_clear n b i : bits_ok n b -> (i < n)%nat -> bits_ok n (Bitset.clear i b).
Proof.
  intros Hb Hi. pose proof Hb as (_ & _ & Hn).
  apply bits_ok_insert; [done..| |].
  - apply ldiff_bounded. by eapply word_bounded.
  - intros j E Ht. pose proof (has_clear n b i j Hb Hi) as Hs. rewrite has_testbit in Hs.
    unfold Bitset.clear in Hs. rewrite word_insert, decide_True in Hs by (done || by eapply word_lt).
    rewrite Ht in Hs. symmetry in Hs. apply andb_true_iff in Hs as [_ H]. by apply Hn.
Qed.

Lemma any_has n b : bits_ok n b -> Bitset.any b = true <-> exists i, (i < n)%nat /\ Bitset.has i b = true.
Proof.
  intros Hb. pose proof Hb as (_ & Hw & Hn). unfold Bitset.any. rewrite existsb_exists. split.
  - intros (w & Hin & Hne). apply list_elem_of_In, list_elem_of_lookup in Hin as [k Hk].
    apply negb_true_iff, N.eqb_neq in Hne.
    assert (N.log2 w < 64)%N as Hlog.
    { eapply Forall_lookup in Hw; [|exact Hk]. apply bound_log2 in Hw. tauto. }
    remember (k * 64 + N.to_nat (N.log2 w))%nat as i eqn:Ei.
    assert (i / 64 = k)%nat as Ei1 by (symmetry; apply (Nat.div_unique i 64 k (N.to_nat (N.log2 w))); lia).
    assert (i mod 64 = N.to_nat (N.log2 w))%nat as Ei2
      by (symmetry; apply (Nat.mod_unique i 64 k); lia).
    assert (Bitset.has i b = true) as Hi.
    { rewrite has_testbit. unfold Bitset.word. rewrite Ei1, Ei2, N2Nat.id, Hk. cbn.
      by apply N.bit_log2. }
    exists i. split; [by apply Hn|done].
  - intros (i & _ & Hi). rewrite has_testbit in Hi. unfold Bitset.word in Hi.
    destruct (b !! (i / 64)%nat) as [w|] eqn:E; cbn in Hi; [|done].
    exists w. split; [apply list_elem_of_In; by eapply list_elem_of_lookup_2|].
    apply negb_true_iff, N.eqb_neq. intros ->. by rewrite N.bits_0 in Hi.
Qed.

Lemma has_new n i : Bitset.has i (Bitset.new n) = false.
Proof.
  rewrite has_testbit. unfold Bitset.word, Bitset.new.
  destruct (replicate _ _ !! _) eqn:E; cbn; [|done].
  by apply lookup_replicate in E as [-> _].
Qed.

Lemma bits_ok_new n : bits_ok n (Bitset.new n).
Proof.
  split; [apply length_replicate|]. split; [by apply Forall_replicate|].
  intros i. by rewrite has_new.
Qed.

Lemma has_setAll n b i : bits_ok n b -> Bitset.has i (Bitset.setAll n b) = bool_decide (i < n)%nat.
Proof.
  intros (Hl & _ & _). rewrite has_testbit. unfold Bitset.setAll.
  set (ones := (fun _ : N => _) <$> b).
  assert (length ones = length b) as Hones by apply length_fmap.
  assert (forall j, (j < length b)%nat -> ones !! j = Some 18446744073709551615%N) as Hget.
  { intros j Hj. unfold ones. rewrite list_lookup_fmap.
    destruct (lookup_lt_is_Some_2 b j Hj) as [? ->]. done. }
  pose proof (Nat.div_mod_eq i 64) as Di. pose proof (Nat.mod_upper_bound i 64 ltac:(lia)) as Mi.
  pose proof (Nat.div_mod_eq n 64) as Dn. pose proof (Nat.mod_upper_bound n 64 ltac:(lia)) as Mn.
  assert (forall k, (k < 64)%nat -> N.testbit 18446744073709551615 (N.of_nat k) = true) as Hall.
  { intros k Hk. change 18446744073709551615%N with (N.ones 64). apply N.ones_spec_low. lia. }
  destruct (decide (n mod 64 = 0)%nat) as [Hr|Hr].
  - assert ((n + 63) / 64 = n / 64)%nat as Ew
      by (symmetry; apply (Nat.div_unique _ 64 _ 63); lia).
    unfold Bitset.word. destruct (decide (i < n)%nat) as [Hi|Hi].
    + rewrite Hget by lia. cbn [default]. rewrite Hall by lia. by rewrite bool_decide_eq_true_2.
    + rewrite lookup_ge_None_2 by lia. cbn. by rewrite bool_decide_eq_false_2.
  - assert ((n + 63) / 64 = S (n / 64))%nat as Ew
      by (symmetry; apply (Nat.div_unique _ 64 _ (n mod 64 - 1)); lia).
    rewrite Hones, Hl, Ew. replace (S (n / 64) - 1)%nat with (n / 64)%nat by lia.
    rewrite word_insert by lia. destruct (decide (n / 64 = i / 64)%nat) as [E|E].
    + rewrite N.shiftl_1_l, <- N.pred_sub, <- N.ones_equiv.
      case_bool_decide as Hi; [apply N.ones_spec_low; lia|apply N.ones_spec_high; lia].
    + unfold Bitset.word. destruct (decide (i < n)%nat) as [Hi|Hi].
      * rewrite Hget by lia. cbn [default]. rewrite Hall by lia. by rewrite bool_decide_eq_true_2.
      * rewrite lookup_ge_None_2 by lia. cbn. by rewrite bool_decide_eq_false_2.
Qed.

Lemma bits_ok_setAll n b : bits_ok n b -> bits_ok n (Bitset.setAll n b).
Proof.
  intros Hb. pose proof Hb as (Hl & Hw & _). unfold bits_ok. split_and!.
  - unfold Bitset.setAll. case_decide; rewrite ?length_insert, length_fmap; done.
  - assert (Forall (fun w => (w < word_bound)%N) ((fun _ => 18446744073709551615%N) <$> b)) as H.
    { apply Forall_fmap, Forall_true. done. }
    unfold Bitset.setAll. case_decide as Hr; [done|]. apply Forall_insert; [done|].
    pose proof (Nat.mod_upper_bound n 64 ltac:(lia)).
    rewrite N.shiftl_1_l. assert (2 ^ N.of_nat (n mod 64) < 2 ^ 64)%N; [apply N.pow_lt_mono_r; lia|].
    change word_bound with (2 ^ 64)%N. lia.
  - intros i. rewrite has_setAll by done. apply bool_decide_eq_true_1.
Qed.
