(* ===== verification/GotthFresh.v ===== *)
(** * gotth: what the client holds is what the renderer says it holds.

    The renderer keeps hashes, not markup.  Here its state is set against the markup
    the client received: an installed hash is the hash of the client's copy, and a
    static fragment that is not marked dirty is shown as the current state renders
    it, through any sequence of transitions, sent passes and lost passes. *)
From Stdlib Require Import String NArith Lia.
From stdpp Require Import base list gmap sets strings pretty countable.
From S2P Require Import Prelude.
From S2P Require Import GotthProtocol.
From S2P Require Import GotthRender.
From S2P Require Import GotthBitset.

(** ** Registries *)

Section registry.
Context {State : Type}.
Implicit Types (fs : list (Fragment State)) (f : Fragment State).

Record registry_ok (r : Registry State) : Prop := {
  ro_nodup : NoDup (ID <$> frags r);
  ro_index : forall id i, index r !! id = Some i <->
    exists f, frags r !! i = Some f /\ ID f = id;
  ro_apart : forall p o, p ∈ frags r -> o ∈ frags r -> is_Some (Children p) ->
    in_namespace (ID p) (ID o) = true -> ID o = ID p;
}.

Lemma index_from_ok k fs idx idx' : index_from k fs idx = Ok idx' ->
  (forall id i, idx !! id = Some i -> (i < k)%nat) ->
  NoDup (ID <$> fs) /\ (forall f, f ∈ fs -> idx !! ID f = None)
  /\ forall id i, idx' !! id = Some i <->
       idx !! id = Some i \/ exists f, (k <= i)%nat /\ fs !! (i - k)%nat = Some f /\ ID f = id.
Proof.
  revert k idx. induction fs as [|f fs IH]; intros k idx; cbn [index_from].
  { intros [= <-] _. split; [constructor|]. split; [by intros f ?%elem_of_nil|].
    intros id i. split; [by left|]. intros [H|(f & _ & Hf & _)]; [done|].
    by rewrite lookup_nil in Hf. }
  intros H Hlt. apply guard_ok in H as [_ H].
  destruct (validFragmentID (ID f)) as [[]|]; [done..|].
  destruct (Render f); [|done]. destruct (idx !! ID f) eqn:Enew; [done|].
  apply IH in H as (Hnd & Hnone & Hidx).
  2: { intros id i. rewrite lookup_insert_Some. intros [[_ <-]|[_ Hi%Hlt]]; lia. }
  split; [|split].
  - rewrite fmap_cons. constructor; [|done]. intros (f' & E & Hin)%list_elem_of_fmap.
    specialize (Hnone f' Hin). rewrite <- E, lookup_insert_eq in Hnone. done.
  - intros f' [->|Hin]%elem_of_cons; [done|]. specialize (Hnone f' Hin).
    by apply lookup_insert_None in Hnone as [? _].
  - intros id i. rewrite Hidx, lookup_insert_Some. split.
    + intros [[[<- <-]|[_ H]]|(f' & Hi & Hf & E)]; [| by left|].
      * right. exists f. rewrite Nat.sub_diag. done.
      * right. exists f'. split; [lia|]. replace (i - k)%nat with (S (i - S k)) by lia. done.
    + intros [H|(f' & Hi & Hf & E)].
      * left. right. split; [|done]. intros E. subst id. by rewrite H in Enew.
      * destruct (decide (i = k)) as [->|Hk].
        { rewrite Nat.sub_diag in Hf. injection Hf as ->. left. left. done. }
        right. exists f'. split; [lia|].
        by replace (i - k)%nat with (S (i - S k)) in Hf by lia.
Qed.

Lemma overlap_None fs p o : overlap fs = None -> p ∈ fs -> o ∈ fs -> is_Some (Children p) ->
  in_namespace (ID p) (ID o) = true -> ID o = ID p.
Proof.
  unfold overlap. intros H Hp Ho [cs Hcs] Hns. destruct (decide (ID o = ID p)) as [|Hne]; [done|].
  exfalso. apply head_None in H. assert ((ID o, ID p) ∈ (@nil (string * string))) as Hin.
  { rewrite <- H. apply list_elem_of_bind. exists p. split; [|done]. rewrite Hcs.
    apply list_elem_of_fmap. exists o. split; [done|].
    apply list_elem_of_In, filter_In. split; [by apply list_elem_of_In|].
    rewrite Hns, andb_true_r. by apply negb_true_iff, bool_decide_eq_false_2. }
  by apply elem_of_nil in Hin.
Qed.

Lemma NewRegistry_ok fs r : NewRegistry fs = Ok r -> registry_ok r /\ frags r = fs.
Proof.
  unfold NewRegistry. destruct fs as [|f fs]; [done|]. intros H.
  apply bind_ok in H as (idx & Hidx & H).
  destruct (overlap (f :: fs)) as [[]|] eqn:Eo; [done|]. injection H as <-.
  apply index_from_ok in Hidx as (Hnd & _ & Hidx); [|by intros ??; rewrite lookup_empty].
  split; [|done]. split; cbn [frags index].
  - done.
  - intros id i. rewrite Hidx, lookup_empty, Nat.sub_0_r. split.
    + intros [?|(f' & _ & H)]; [done|eauto].
    + intros (f' & H). right. exists f'. split; [lia|done].
  - intros p o. by apply overlap_None.
Qed.
End registry.

(** ** One render pass *)

Section pass.
Context {State : Type} (hash : string -> N).
Implicit Types (fs : list (Fragment State)) (f : Fragment State) (v : Renderer State).

Definition extends (res res' : Result) (us : list RUpdate) (ih : list (nat * N)) : Prop :=
  Updates res' = Updates res ++ us /\ updated res' = updated res ++ ih.*1
  /\ r_hashes res' = r_hashes res ++ ih.*2.

Lemma extends_refl res res' : Updates res' = Updates res -> updated res' = updated res ->
  r_hashes res' = r_hashes res -> extends res res' [] [].
Proof. unfold extends. intros -> -> ->. by rewrite !app_nil_r. Qed.

Lemma extends_trans r1 r2 r3 us us' ih ih' : extends r1 r2 us ih -> extends r2 r3 us' ih' ->
  extends r1 r3 (us ++ us') (ih ++ ih').
Proof.
  intros (E1 & E2 & E3) (E1' & E2' & E3'). unfold extends.
  rewrite E1', E2', E3', E1, E2, E3, !fmap_app, !app_assoc. done.
Qed.

(** An update belongs to a static fragment or to the namespace of a collection. *)
Definition update_of (s : State) f (u : RUpdate) : Prop :=
  match Children f with
  | None => u_FragmentID u = ID f /\ callRender f s = inl (u_HTML u)
  | Some _ => u_FragmentID u = ID f \/ in_namespace (ID f) (u_FragmentID u) = true
  end.

(** What the fragment at index [i] adds to a pass that began with renderer [v]. *)
Record entry (i : nat) f (all : bool) (s : State) v (us : list RUpdate) (ih : list (nat * N))
  : Prop := {
  e_keys : ih = [] \/ exists h, ih = [(i, h)];
  e_updates : Forall (update_of s f) us;
  e_hash : forall h, Children f = None -> ih = [(i, h)] ->
    exists html, callRender f s = inl html /\ h = hash html
      /\ us = [mkRUpdate (ID f) OpMorph html];
  e_quiet : Children f = None -> ih = [] -> us = [];
  e_done : forall html, Children f = None -> all || Bitset.has i (dirty v) = true ->
    callRender f s = inl html ->
    ih = [(i, hash html)] \/ (all = false /\ default 0%N (hashes v !! i) = hash html);
}.

Lemma collectionChildren_namespace f project s cs : collectionChildren f project s = Ok cs ->
  Forall (fun c => in_namespace (ID f) (ID c) = true) cs.
Proof.
  unfold collectionChildren. destruct (project s) as [cs'|[]]; [|done].
  destruct (valid_children (ID f) ∅ cs') eqn:E; [|done]. intros [= <-].
  revert E. generalize (∅ : gset string). induction cs' as [|c cs' IH]; intros seen E; [constructor|].
  cbn [valid_children] in E. apply andb_true_iff in E as [E1 E2]. constructor; [|eauto].
  unfold validCollectionChild in E1. destruct (validFragmentID (ID c)); [done|].
  by repeat apply andb_true_iff in E1 as [E1 _].
Qed.

Lemma render_children_extends cs s pending previous staged changed res st ch res' f :
  render_children hash cs s pending previous staged changed res = (st, ch, res') ->
  is_Some (Children f) -> Forall (fun c => in_namespace (ID f) (ID c) = true) cs ->
  exists us, extends res res' us [] /\ Forall (update_of s f) us.
Proof.
  intros H [p Hp]. revert staged changed res H.
  induction cs as [|c cs IH]; intros staged changed res; cbn [render_children].
  { intros [= <- <- <-] _. exists []. split; [by apply extends_refl|constructor]. }
  intros H Hns. apply Forall_cons in Hns as [Hc Hns].
  destruct (negb _); [by eapply IH|].
  destruct (callRender c s) as [html|fl].
  - destruct (_ =? _)%N; apply IH in H as (us & He & Hu); try done.
    + exists us. split; [|done]. done.
    + exists (mkRUpdate (ID c) OpMorph html :: us). split.
      * destruct He as (E1 & E2 & E3). unfold extends. rewrite E1, E2, E3. cbn.
        by rewrite <- app_assoc.
      * constructor; [|done]. unfold update_of. rewrite Hp. by right.
  - apply IH in H as (us & He & Hu); [|done]. exists us. done.
Qed.

Lemma renderCollection_spec i f project all s v res v' res' :
  Children f = Some project -> renderCollection hash i f project all s v res = (v', res') ->
  reg v' = reg v /\ hashes v' = hashes v /\ dirty v' = dirty v
  /\ exists us ih, extends res res' us ih /\ entry i f all s v us ih.
Proof.
  intros Hp. unfold renderCollection.
  assert (forall us ih, (ih = [] \/ exists h, ih = [(i, h)]) -> Forall (update_of s f) us ->
            entry i f all s v us ih) as Hentry.
  { intros us ih H1 H2. split; try done; intros; congruence. }
  destruct (collectionChildren f project s) as [cs|fl] eqn:Ec.
  2: { intros [= <- <-]. split_and!; try done. exists [], [].
       split; [by apply extends_refl|apply Hentry; [by left|constructor]]. }
  apply collectionChildren_namespace in Ec.
  destruct (negb _).
  { unfold renderCollectionChildren. cbn [childDirty update].
    destruct (render_children _ _ _ _ _ _ _ _) as [[st ch] res1] eqn:Er.
    eapply render_children_extends in Er as (us & He & Hu); [|by rewrite Hp|done].
    intros [= <- <-]. split_and!; try done. exists us, [].
    split; [|apply Hentry; [by left|done]]. destruct ch; done. }
  destruct (stage_children _ _ _ _) as [staged|fl].
  2: { intros [= <- <-]. split_and!; try done. exists [], [].
       split; [by apply extends_refl|apply Hentry; [by left|constructor]]. }
  destruct (callRender f s) as [html|fl].
  2: { intros [= <- <-]. split_and!; try done. exists [], [].
       split; [by apply extends_refl|apply Hentry; [by left|constructor]]. }
  destruct (_ && (_ =? _)%N).
  - intros [= <- <-]. split_and!; try done. exists [], [].
    split; [by apply extends_refl|apply Hentry; [by left|constructor]].
  - intros [= <- <-]. split_and!; try done.
    exists [mkRUpdate (ID f) OpMorph html], [(i, hash html)].
    split; [done|]. apply Hentry; [by right; eexists|].
    constructor; [|constructor]. unfold update_of. rewrite Hp. by left.
Qed.

Lemma render_one_spec n i f all s v res v' res' :
  bits_ok n (dirty v) -> (i < n)%nat -> render_one hash i f all s v res = (v', res') ->
  reg v' = reg v /\ hashes v' = hashes v /\ bits_ok n (dirty v')
  /\ (forall j, Bitset.has j (dirty v') = negb (bool_decide (j = i)) && Bitset.has j (dirty v))
  /\ exists us ih, extends res res' us ih /\ entry i f all s v us ih.
Proof.
  intros Hb Hi. unfold render_one. destruct (negb all && negb _) eqn:Econs.
  { intros [= <- <-]. apply andb_true_iff in Econs as [Ea%negb_true_iff Ed%negb_true_iff].
    split_and!; try done.
    - intros j. case_bool_decide; [by subst|done].
    - exists [], []. split; [by apply extends_refl|]. split; try done; [by left|].
      intros html _ H _. by rewrite Ea, Ed in H. }
  set (v1 := v <| dirty ::= Bitset.clear i |>). intros H.
  assert (bits_ok n (dirty v1)) as Hb1 by by apply bits_ok_clear.
  assert (forall j, Bitset.has j (dirty v1) = negb (bool_decide (j = i)) && Bitset.has j (dirty v))
    as Hd1 by (intros j; by eapply has_clear).
  assert (reg v1 = reg v /\ hashes v1 = hashes v) as [Hr1 Hh1] by done. clearbody v1.
  destruct (Children f) as [project|] eqn:Ep.
  - eapply renderCollection_spec in H as (E1 & E2 & E3 & us & ih & He & Hen); [|done].
    rewrite E1, E2, E3. split_and!; try done. exists us, ih. split; [done|].
    destruct Hen; split; try done; congruence.
  - unfold renderFragment in H. destruct (callRender f s) as [html|fl] eqn:Er.
    + destruct (negb all && (hash html =? default 0 (hashes v1 !! i))%N) eqn:Es;
        injection H as <- <-; rewrite ?Hh1 in *.
      * split_and!; try done. exists [], []. split; [by apply extends_refl|].
        apply andb_true_iff in Es as [Ea%negb_true_iff Es%N.eqb_eq].
        split; try done; [by left|]. intros html' _ _ E. rewrite Er in E. injection E as <-. by right.
      * split_and!; try done. exists [mkRUpdate (ID f) OpMorph html], [(i, hash html)].
        split; [done|]. split.
        -- right. by eexists.
        -- constructor; [|constructor]. unfold update_of. by rewrite Ep.
        -- intros h _ [= <-]. by exists html.
        -- done.
        -- intros html' _ _ E. rewrite Er in E. injection E as <-. by left.
    + injection H as <- <-. split_and!; try done. exists [], [].
      split; [by apply extends_refl|]. split; try done; [by left|].
      intros html' _ _ E. by rewrite Er in E.
Qed.
(** What the fragments from index [k] on add to a pass. *)
Record pass (k : nat) fs (all : bool) (s : State) v (us : list RUpdate) (ih : list (nat * N))
  : Prop := {
  p_keys : forall i h, (i, h) ∈ ih -> (k <= i < k + length fs)%nat;
  p_nodup : NoDup ih.*1;
  p_updates : forall u, u ∈ us -> exists j f, fs !! j = Some f /\ update_of s f u
    /\ (Children f = None -> exists h, ((k + j)%nat, h) ∈ ih);
  p_hash : forall j f h, fs !! j = Some f -> Children f = None -> ((k + j)%nat, h) ∈ ih ->
    exists html, callRender f s = inl html /\ h = hash html
      /\ mkRUpdate (ID f) OpMorph html ∈ us;
  p_done : forall j f html, fs !! j = Some f -> Children f = None ->
    all || Bitset.has (k + j) (dirty v) = true -> callRender f s = inl html ->
    ((k + j)%nat, hash html) ∈ ih \/ (all = false /\ default 0%N (hashes v !! (k + j)%nat) = hash html);
}.

Lemma pass_cons k f fs all s v v1 us us' ih ih' :
  hashes v1 = hashes v ->
  (forall j, (k < j)%nat -> Bitset.has j (dirty v1) = Bitset.has j (dirty v)) ->
  entry k f all s v us ih -> pass (S k) fs all s v1 us' ih' ->
  pass k (f :: fs) all s v (us ++ us') (ih ++ ih').
Proof.
  intros Hh Hd He Hp.
  assert (forall i h, (i, h) ∈ ih -> i = k /\ ih = [(k, h)]) as Hkey.
  { intros i h Hin. destruct (e_keys _ _ _ _ _ _ _ He) as [->|[h' ->]].
    - by apply elem_of_nil in Hin.
    - by apply list_elem_of_singleton in Hin as [= -> ->]. }
  split.
  - cbn [length]. intros i h [Hin|Hin]%elem_of_app; [apply Hkey in Hin as [-> _]; lia|].
    apply (p_keys _ _ _ _ _ _ _ Hp) in Hin. lia.
  - rewrite fmap_app. apply NoDup_app. split_and!.
    + destruct (e_keys _ _ _ _ _ _ _ He) as [->|[h' ->]]; [constructor|apply NoDup_singleton].
    + intros i ((i' & h) & -> & Hin)%list_elem_of_fmap ((i2 & h2) & E & Hin2)%list_elem_of_fmap.
      apply Hkey in Hin as [-> _]. apply (p_keys _ _ _ _ _ _ _ Hp) in Hin2. cbn in E. lia.
    + apply (p_nodup _ _ _ _ _ _ _ Hp).
  - intros u [Hin|Hin]%elem_of_app.
    + exists O, f. split; [done|]. pose proof (e_updates _ _ _ _ _ _ _ He) as Hu.
      rewrite Forall_forall in Hu. split; [by apply Hu|]. intros Hc.
      destruct (e_keys _ _ _ _ _ _ _ He) as [Eih|[h Eih]].
      * rewrite (e_quiet _ _ _ _ _ _ _ He Hc Eih) in Hin. by apply elem_of_nil in Hin.
      * exists h. rewrite Nat.add_0_r, Eih. by left.
    + destruct (p_updates _ _ _ _ _ _ _ Hp u Hin) as (j & f' & Hf & Hu & Hk).
      exists (S j), f'. split; [done|]. split; [done|]. intros Hc.
      destruct (Hk Hc) as [h Hin']. exists h. rewrite Nat.add_succ_r. apply elem_of_app. by right.
  - intros [|j] f' h Hf Hc [Hin|Hin]%elem_of_app; cbn in Hf.
    + injection Hf as <-. rewrite Nat.add_0_r in Hin. apply Hkey in Hin as [_ Hin].
      destruct (e_hash _ _ _ _ _ _ _ He h Hc Hin) as (html & E1 & E2 & ->).
      exists html. split_and!; try done. by left.
    + apply (p_keys _ _ _ _ _ _ _ Hp) in Hin. lia.
    + apply Hkey in Hin as [Hin _]. lia.
    + rewrite Nat.add_succ_r in Hin.
      destruct (p_hash _ _ _ _ _ _ _ Hp j f' h Hf Hc Hin) as (html & E1 & E2 & Hin').
      exists html. split_and!; try done. apply elem_of_app. by right.
  - intros [|j] f' html Hf Hc Ha Hr; cbn in Hf.
    + injection Hf as <-. rewrite Nat.add_0_r in *.
      destruct (e_done _ _ _ _ _ _ _ He html Hc Ha Hr) as [->|H]; [left|by right].
      by left.
    + rewrite Nat.add_succ_r in *. rewrite <- Hd in Ha by lia.
      destruct (p_done _ _ _ _ _ _ _ Hp j f' html Hf Hc Ha Hr) as [H|H].
      * left. apply elem_of_app. by right.
      * right. by rewrite <- Hh.
Qed.

Lemma render_from_spec n k fs all s v res v' res' :
  bits_ok n (dirty v) -> (k + length fs <= n)%nat ->
  render_from hash k fs all s v res = (v', res') ->
  reg v' = reg v /\ hashes v' = hashes v /\ bits_ok n (dirty v')
  /\ (forall j, Bitset.has j (dirty v') =
        negb (bool_decide (k <= j < k + length fs)%nat) && Bitset.has j (dirty v))
  /\ exists us ih, extends res res' us ih /\ pass k fs all s v us ih.
Proof.
  revert k v res. induction fs as [|f fs IH]; intros k v res Hb Hk; cbn [render_from length] in *.
  { intros [= <- <-]. split_and!; try done.
    - intros j. rewrite bool_decide_eq_false_2; [done|lia].
    - exists [], []. split; [by apply extends_refl|]. split; cbn; try (by constructor);
        by intros; set_solver. }
  destruct (render_one hash k f all s v res) as [v1 res1] eqn:E1.
  eapply render_one_spec in E1 as (Hr1 & Hh1 & Hb1 & Hd1 & us & ih & He & Hen); [|done|lia].
  intros H. eapply IH in H as (Hr & Hh & Hb' & Hd & us' & ih' & He' & Hp); [|done|lia].
  rewrite Hr, Hh, Hr1, Hh1. split_and!; try done.
  - intros j. rewrite Hd, Hd1. destruct (Bitset.has j (dirty v)); [|by rewrite !andb_false_r].
    repeat case_bool_decide; try done; lia.
  - exists (us ++ us'), (ih ++ ih'). split; [by eapply extends_trans|].
    apply (pass_cons k f fs all s v v1); try done.
    intros j Hj. rewrite Hd1, bool_decide_eq_false_2; [done|lia].
Qed.
End pass.

(** ** Committing and discarding *)

Section commit.
Context {State : Type} (hash : string -> N).
Implicit Types (v : Renderer State) (f : Fragment State).

Lemma zip_fst_snd {A B} (l : list (A * B)) : zip l.*1 l.*2 = l.
Proof. induction l as [|[a b] l IH]; cbn; [done|by f_equal]. Qed.

Definition install (hs : list N) (ih : list (nat * N)) : list N :=
  foldl (fun hs ih => <[ih.1 := ih.2]> hs) hs ih.

Lemma install_length hs ih : length (install hs ih) = length hs.
Proof.
  revert hs. induction ih as [|[i h] ih IH]; intros hs; [done|].
  unfold install in *. cbn. by rewrite IH, length_insert.
Qed.

Lemma install_other hs ih i : (forall h, (i, h) ∉ ih) -> install hs ih !! i = hs !! i.
Proof.
  revert hs. induction ih as [|[j h] ih IH]; intros hs Hi; [done|].
  unfold install in *. cbn. rewrite IH.
  - apply list_lookup_insert_ne. intros ->. apply (Hi h). by left.
  - intros h' Hin. apply (Hi h'). by right.
Qed.

Lemma install_key hs ih i h : NoDup ih.*1 -> (i, h) ∈ ih -> (i < length hs)%nat ->
  install hs ih !! i = Some h.
Proof.
  revert hs. induction ih as [|[j h'] ih IH]; intros hs Hnd Hin Hi; [by apply elem_of_nil in Hin|].
  cbn in Hnd. apply NoDup_cons in Hnd as [Hj Hnd].
  apply elem_of_cons in Hin as [[= <- <-]|Hin].
  - change (install (<[i := h]> hs) ih !! i = Some h). rewrite install_other.
    + by apply list_lookup_insert_eq.
    + intros h' Hin. apply Hj, list_elem_of_fmap. by exists (i, h').
  - change (install (<[j := h']> hs) ih !! i = Some h). apply IH; try done.
    by rewrite length_insert.
Qed.

Lemma Commit_spec res v ih : updated res = ih.*1 -> r_hashes res = ih.*2 ->
  reg (Commit res v) = reg v /\ dirty (Commit res v) = dirty v
  /\ hashes (Commit res v) = install (hashes v) ih.
Proof.
  intros E1 E2. unfold Commit. rewrite E1, E2, zip_fst_snd.
  by destruct (r_collections res).
Qed.

Lemma mark_all_spec n l v : bits_ok n (dirty v) -> Forall (fun i => (i < n)%nat) l ->
  let v' := foldl (fun v i => markDirty i v) v l in
  reg v' = reg v /\ hashes v' = hashes v /\ bits_ok n (dirty v')
  /\ forall j, Bitset.has j (dirty v') = bool_decide (j ∈ l) || Bitset.has j (dirty v).
Proof.
  intros Hb Hl. revert v Hb. induction l as [|i l IH]; intros v Hb; [done|].
  apply Forall_cons in Hl as [Hi Hl]. cbn [foldl].
  specialize (IH Hl (markDirty i v) (bits_ok_set n _ i Hb Hi)) as (H1 & H2 & H3 & H4).
  split_and!; try done. intros j. rewrite H4. cbn [dirty markDirty update].
  rewrite (has_set n) by done. rewrite orb_assoc. f_equal.
  rewrite <- bool_decide_or. apply bool_decide_ext. rewrite elem_of_cons. tauto.
Qed.

Lemma discard_collections_spec n l v : bits_ok n (dirty v) ->
  Forall (fun c => (cr_index c < n)%nat) l ->
  let v' := foldl discard_collection v l in
  reg v' = reg v /\ hashes v' = hashes v /\ bits_ok n (dirty v')
  /\ forall j, Bitset.has j (dirty v) = true -> Bitset.has j (dirty v') = true.
Proof.
  intros Hb Hl. revert v Hb. induction l as [|c l IH]; intros v Hb; [done|].
  apply Forall_cons in Hl as [Hc Hl]. cbn [foldl].
  assert (forall ids (v : Renderer State),
    let v' := foldl (fun v id => markChild (cr_index c) id v) v ids in
    reg v' = reg v /\ hashes v' = hashes v /\ dirty v' = dirty v) as Hch.
  { induction ids as [|id ids IH']; intros w; [done|]. cbn [foldl].
    destruct (IH' (markChild (cr_index c) id w)) as (E1 & E2 & E3).
    by rewrite E1, E2, E3. }
  assert (reg (discard_collection v c) = reg v /\ hashes (discard_collection v c) = hashes v
          /\ dirty (discard_collection v c) = Bitset.set (cr_index c) (dirty v)) as (E1 & E2 & E3).
  { unfold discard_collection. destruct (whole c); [done|].
    destruct (Hch (cr_dirty c) (markDirty (cr_index c) v)) as (-> & -> & ->). done. }
  assert (bits_ok n (dirty (discard_collection v c))) as Hb'
    by (rewrite E3; by apply bits_ok_set).
  destruct (IH Hl _ Hb') as (H1 & H2 & H3 & H4). rewrite H1, H2, E1, E2.
  split_and!; try done. intros j Hj. apply H4. rewrite E3, (has_set n) by done.
  by rewrite Hj, orb_true_r.
Qed.

Lemma render_one_collections n i f all s v res v' res' : (i < n)%nat ->
  Forall (fun c => (cr_index c < n)%nat) (r_collections res) ->
  render_one hash i f all s v res = (v', res') ->
  Forall (fun c => (cr_index c < n)%nat) (r_collections res').
Proof.
  intros Hi Hc. unfold render_one. destruct (negb all && negb _); [by intros [= _ <-]|].
  set (w := v <| dirty ::= _ |>). clearbody w. destruct (Children f) as [project|].
  2: { unfold renderFragment. destruct (callRender f s); [|by intros [= _ <-]].
       destruct (negb all && _); by intros [= _ <-]. }
  unfold renderCollection. destruct (collectionChildren _ _ _) as [cs|]; [|by intros [= _ <-]].
  destruct (negb _).
  - unfold renderCollectionChildren.
    assert (forall cs pending previous staged changed r st ch r',
      render_children hash cs s pending previous staged changed r = (st, ch, r') ->
      r_collections r' = r_collections r) as Hrc.
    { clear. induction cs as [|c cs IH]; intros until r'; cbn [render_children];
        [by intros [= _ _ <-]|].
      destruct (negb _); [by apply IH|].
      destruct (callRender c s); [destruct (_ =? _)%N|]; intros H; by apply IH in H. }
    destruct (render_children _ _ _ _ _ _ _ _) as [[st ch] r] eqn:Er.
    apply Hrc in Er. destruct ch; intros [= _ <-]; rewrite <- Er in Hc; [done|].
    cbn. apply Forall_app. split; [done|]. by constructor.
  - destruct (stage_children _ _ _ _); [|by intros [= _ <-]].
    destruct (callRender f s); [|by intros [= _ <-]].
    destruct (_ && (_ =? _)%N); intros [= _ <-]; [done|].
    cbn. apply Forall_app. split; [done|]. by constructor.
Qed.

Lemma render_from_collections n k fs all s v res v' res' : (k + length fs <= n)%nat ->
  Forall (fun c => (cr_index c < n)%nat) (r_collections res) ->
  render_from hash k fs all s v res = (v', res') ->
  Forall (fun c => (cr_index c < n)%nat) (r_collections res').
Proof.
  revert k v res. induction fs as [|f fs IH]; intros k v res Hk Hc; cbn [render_from length] in *;
    [by intros [= _ <-]|].
  destruct (render_one hash k f all s v res) as [v1 res1] eqn:E. intros H.
  eapply IH; [| |exact H]; [lia|].
  eapply render_one_collections; [|exact Hc|exact E]. lia.
Qed.

Lemma Discard_spec n res v : bits_ok n (dirty v) ->
  Forall (fun i => (i < n)%nat) (updated res) ->
  Forall (fun c => (cr_index c < n)%nat) (r_collections res) ->
  reg (Discard res v) = reg v /\ hashes (Discard res v) = hashes v
  /\ bits_ok n (dirty (Discard res v))
  /\ forall j, j ∈ updated res \/ Bitset.has j (dirty v) = true ->
       Bitset.has j (dirty (Discard res v)) = true.
Proof.
  intros Hb Hu Hc. unfold Discard.
  destruct (mark_all_spec n (updated res) v Hb Hu) as (E1 & E2 & Hb1 & Hd1).
  destruct (discard_collections_spec n (r_collections res) _ Hb1 Hc) as (E3 & E4 & Hb2 & Hd2).
  rewrite E3, E4, E1, E2. split_and!; try done. intros j Hj. apply Hd2. rewrite Hd1.
  destruct Hj as [Hj|Hj]; [by rewrite bool_decide_eq_true_2|by rewrite Hj, orb_true_r].
Qed.
End commit.

(** ** Marking *)

Section mark.
Context {State : Type}.
Implicit Types (v : Renderer State) (f : Fragment State).

(** Marking only adds to the dirty set, and touches nothing the client is owed. *)
Definition marks (n : nat) v v' : Prop :=
  reg v' = reg v /\ hashes v' = hashes v /\ bits_ok n (dirty v')
  /\ forall j, Bitset.has j (dirty v) = true -> Bitset.has j (dirty v') = true.

Lemma marks_refl n v : bits_ok n (dirty v) -> marks n v v.
Proof. unfold marks. auto. Qed.

Lemma marks_trans n v1 v2 v3 : marks n v1 v2 -> marks n v2 v3 -> marks n v1 v3.
Proof.
  intros (E1 & E2 & H1 & H2) (E3 & E4 & H3 & H4). unfold marks.
  rewrite E3, E4, E1, E2. split_and!; try done. eauto.
Qed.

Lemma marks_dirty n i v v' : bits_ok n (dirty v) -> (i < n)%nat ->
  reg v' = reg v -> hashes v' = hashes v -> dirty v' = Bitset.set i (dirty v) -> marks n v v'.
Proof.
  intros Hb Hi E1 E2 E3. unfold marks. rewrite E3. split_and!; try done; [by apply bits_ok_set|].
  intros j Hj. by rewrite (has_set n), Hj, orb_true_r.
Qed.

Lemma marks_quiet n v v' : bits_ok n (dirty v) ->
  reg v' = reg v -> hashes v' = hashes v -> dirty v' = dirty v -> marks n v v'.
Proof. intros Hb E1 E2 E3. unfold marks. rewrite E3. auto. Qed.

Lemma mark_children_spec n i cs prev next v : bits_ok n (dirty v) -> (i < n)%nat ->
  marks n v (mark_children i cs prev next v).1.
Proof.
  intros Hb Hi. revert v Hb. induction cs as [|c cs IH]; intros v Hb; cbn [mark_children];
    [by apply marks_refl|].
  destruct (declares c prev next) as [changed fails].
  set (w := if changed then _ else _).
  assert (marks n v w) as Hw.
  { unfold w. destruct changed; [by eapply marks_dirty|by apply marks_refl]. }
  specialize (IH w (proj1 (proj2 (proj2 Hw)))).
  destruct (mark_children i cs prev next w) as [v' rest]. by eapply marks_trans.
Qed.

Lemma markCollection_spec n i f project prev next v : bits_ok n (dirty v) -> (i < n)%nat ->
  marks n v (markCollection i f project prev next v).1.
Proof.
  intros Hb Hi. unfold markCollection.
  destruct (collectionChildren f project next) as [cs|]; [|by apply marks_refl].
  destruct (declares f prev next) as [structural fails].
  set (w := if structural || _ then _ else _).
  assert (marks n v w) as Hw.
  { unfold w. destruct (structural || _); [by eapply marks_dirty|by apply marks_refl]. }
  pose proof (proj1 (proj2 (proj2 Hw))) as Hbw.
  destruct (Bitset.has i (parentDirty w)).
  - eapply marks_trans; [exact Hw|]. by apply marks_quiet.
  - pose proof (mark_children_spec n i cs prev next w Hbw Hi) as Hm.
    destruct (mark_children i cs prev next w). by eapply marks_trans.
Qed.

Lemma mark_from_spec n k fs prev next v : bits_ok n (dirty v) -> (k + length fs <= n)%nat ->
  marks n v (mark_from k fs prev next v).1
  /\ forall j f, fs !! j = Some f -> Children f = None -> (declares f prev next).1 = true ->
       Bitset.has (k + j) (dirty (mark_from k fs prev next v).1) = true.
Proof.
  revert k v. induction fs as [|f fs IH]; intros k v Hb Hk; cbn [mark_from length] in *.
  { split; [by apply marks_refl|]. intros j f. by rewrite lookup_nil. }
  set (one := match Children f with Some _ => _ | None => _ end).
  assert (marks n v one.1
          /\ (Children f = None -> (declares f prev next).1 = true ->
              Bitset.has k (dirty one.1) = true)) as [Hone Hself].
  { unfold one. destruct (Children f) as [project|].
    - split; [apply markCollection_spec; [done|lia]|done].
    - destruct (declares f prev next) as [[] fails]; cbn [fst].
      + split; [eapply marks_dirty; try done; lia|]. intros _ _.
        cbn [dirty markDirty update]. rewrite (has_set n) by (done || lia).
        by rewrite bool_decide_eq_true_2.
      + split; [by apply marks_refl|done]. }
  destruct one as [w fails]. cbn [fst] in *.
  destruct (IH (S k) w (proj1 (proj2 (proj2 Hone))) ltac:(lia)) as [Hrest Hall].
  destruct (mark_from (S k) fs prev next w) as [v' rest]. cbn [fst] in *.
  split; [by eapply marks_trans|].
  intros [|j] f' Hf Hc Hd; cbn in Hf.
  - injection Hf as <-. rewrite Nat.add_0_r. apply Hrest. auto.
  - rewrite Nat.add_succ_r. by apply (Hall j f').
Qed.
End mark.

(** ** The client's copy *)

Section client.
Context {State : Type} (hash : string -> N).
Implicit Types (v : Renderer State) (f : Fragment State).

(** The regions of the page by identifier, as the updates received left them. *)
Definition receive (us : list RUpdate) (page : gmap string string) : gmap string string :=
  foldl (fun page u => <[u_FragmentID u := u_HTML u]> page) page us.

(** The change declarations tell the truth: a static region whose declaration says it did
    not change renders as it did.  (The declaration of a collection is about its members.) *)
Definition truthful (fs : list (Fragment State)) : Prop :=
  forall f d prev next, f ∈ fs -> Children f = None -> Dirty f = Some d -> d prev next = Changed false ->
    callRender f prev = callRender f next.

(** What the page shows of a region that renders as [html]: that, unless the hash plays a
    trick.  The renderer compares hashes, and zero stands for a region never sent, so it
    takes [html] for what the client has when the client's copy has the same hash, or when
    the hash is zero. *)
Definition coincidence (page : gmap string string) (id html : string) : Prop :=
  hash html = 0%N \/ exists shown, page !! id = Some shown /\ shown <> html /\ hash shown = hash html.
Definition shown_as (page : gmap string string) (id html : string) : Prop :=
  page !! id = Some html \/ coincidence page id html.

Record shows v (s : State) (page : gmap string string) : Prop := {
  sh_reg : registry_ok (reg v);
  sh_len : length (hashes v) = length (frags (reg v));
  sh_bits : bits_ok (length (frags (reg v))) (dirty v);
  sh_hash : forall i f h, frags (reg v) !! i = Some f -> Children f = None ->
    hashes v !! i = Some h -> h <> 0%N -> exists html, page !! ID f = Some html /\ hash html = h;
  sh_fresh : forall i f html, frags (reg v) !! i = Some f -> Children f = None ->
    Bitset.has i (dirty v) = false -> callRender f s = inl html -> shown_as page (ID f) html;
}.

(** What the renderer suppresses is shown. *)
Lemma suppressed_shown v s page i f html : shows v s page ->
  frags (reg v) !! i = Some f -> Children f = None ->
  default 0%N (hashes v !! i) = hash html -> shown_as page (ID f) html.
Proof.
  intros Hs Hi Hc Hsame.
  destruct (decide (hash html = 0%N)) as [Hz|Hz]; [right; by left|].
  destruct (hashes v !! i) as [h|] eqn:Eh; cbn in Hsame; [subst h|congruence].
  destruct (sh_hash _ _ _ Hs i f _ Hi Hc Eh Hz) as (shown & Hpage & E).
  destruct (decide (shown = html)) as [->|Hne]; [by left|]. right. right. eauto.
Qed.

Lemma shown_as_eq page page' id html : page !! id = page' !! id ->
  shown_as page id html -> shown_as page' id html.
Proof. unfold shown_as, coincidence. by intros ->. Qed.

Lemma receive_other us page id : (forall u, u ∈ us -> u_FragmentID u <> id) ->
  receive us page !! id = page !! id.
Proof.
  revert page. induction us as [|u us IH]; intros page H; [done|]. unfold receive in *. cbn.
  rewrite IH by (intros w Hw; apply H; by right).
  apply lookup_insert_ne. apply H. by left.
Qed.

Lemma receive_all us page id html : (exists u, u ∈ us /\ u_FragmentID u = id) ->
  (forall u, u ∈ us -> u_FragmentID u = id -> u_HTML u = html) ->
  receive us page !! id = Some html.
Proof.
  induction us as [|u us IH] using rev_ind; intros (w & Hw & E) H;
    [by apply elem_of_nil in Hw|].
  unfold receive in *. rewrite foldl_app. cbn.
  destruct (decide (u_FragmentID u = id)) as [<-|Hne].
  - rewrite lookup_insert_eq. f_equal. apply H; [|done]. apply elem_of_app. right. by left.
  - rewrite lookup_insert_ne by done. apply IH.
    + apply elem_of_app in Hw as [Hw|Hw%list_elem_of_singleton]; [eauto|congruence].
    + intros w' Hw'. apply H. apply elem_of_app. by left.
Qed.

(** In a sound registry the updates of a pass that carry a static fragment's
    identifier are its own. *)
Lemma own_update r s us ih all v i f u : registry_ok r -> pass hash 0 (frags r) all s v us ih ->
  frags r !! i = Some f -> Children f = None -> u ∈ us -> u_FragmentID u = ID f ->
  callRender f s = inl (u_HTML u) /\ exists h, (i, h) ∈ ih.
Proof.
  intros Hr Hp Hf Hc Hu E.
  destruct (p_updates _ _ _ _ _ _ _ _ Hp u Hu) as (j & f' & Hf' & Hup & Hk).
  assert (ID f' = ID f) as Eid.
  { unfold update_of in Hup. destruct (Children f') as [pr|] eqn:Ec'.
    - destruct Hup as [Hup|Hup]; [congruence|]. symmetry.
      apply (ro_apart r Hr f' f); try by eapply list_elem_of_lookup_2.
      + by rewrite Ec'.
      + by rewrite <- E.
    - destruct Hup as [Hup _]. congruence. }
  assert (j = i) as ->.
  { pose proof (ro_nodup r Hr) as Hnd. eapply (NoDup_lookup _ j i (ID f) Hnd).
    - rewrite list_lookup_fmap, Hf'. cbn. by rewrite Eid.
    - by rewrite list_lookup_fmap, Hf. }
  rewrite Hf in Hf'. injection Hf' as <-. unfold update_of in Hup. rewrite Hc in Hup.
  split; [by destruct Hup|]. by apply Hk.
Qed.

Lemma shows_new r s page : registry_ok r -> shows (NewRenderer r) s page.
Proof.
  intros Hr. unfold NewRenderer, MarkAll. split; cbn.
  - done.
  - apply length_replicate.
  - apply bits_ok_setAll, bits_ok_new.
  - intros i f h _ _ Hh. by apply lookup_replicate in Hh as [-> _].
  - intros i f html Hf _ Hd. rewrite has_setAll in Hd by apply bits_ok_new.
    apply lookup_lt_Some in Hf. by apply bool_decide_eq_false in Hd.
Qed.

Lemma shows_Mark v s s' page : truthful (frags (reg v)) -> shows v s page ->
  shows (Mark s s' v).1 s' page.
Proof.
  intros Ht [Hr Hl Hb Hh Hf]. unfold Mark.
  destruct (mark_from_spec (length (frags (reg v))) 0 (frags (reg v)) s s' v Hb ltac:(lia))
    as [(E1 & E2 & Hb' & Hd) Hall]. cbn [Nat.add] in Hall.
  split; rewrite ?E1, ?E2; try done.
  intros i f html Hi Hc Hclean Hrender.
  assert (Bitset.has i (dirty v) = false) as Hclean'.
  { destruct (Bitset.has i (dirty v)) eqn:E; [|done]. by rewrite (Hd i E) in Hclean. }
  assert ((declares f s s').1 = false) as Hdec.
  { destruct (declares f s s').1 eqn:E; [|done]. by rewrite (Hall i f Hi Hc E) in Hclean. }
  apply (Hf i f html Hi Hc Hclean'). unfold declares in Hdec.
  destruct (Dirty f) as [d|] eqn:Ed; [|done]. unfold callDirty in Hdec.
  destruct (d s s') as [b|] eqn:Es; [|done]. cbn in Hdec. subst b.
  rewrite (Ht f d s s'); try done. by eapply list_elem_of_lookup_2.
Qed.

(** [Render] or [RenderAll]. *)
Definition render_pass (all : bool) (s : State) v : Renderer State * Result :=
  if all then RenderAll hash s v else RenderDirty hash s v.

Lemma render_pass_spec all s v v' res :
  bits_ok (length (frags (reg v))) (dirty v) -> render_pass all s v = (v', res) ->
  let n := length (frags (reg v)) in
  reg v' = reg v /\ hashes v' = hashes v /\ bits_ok n (dirty v')
  /\ (forall j, Bitset.has j (dirty v') = false)
  /\ Forall (fun c => (cr_index c < n)%nat) (r_collections res)
  /\ exists ih, updated res = ih.*1 /\ r_hashes res = ih.*2
       /\ pass hash 0 (frags (reg v)) all s v (Updates res) ih.
Proof.
  intros Hb H n.
  assert (render_from hash 0 (frags (reg v)) all s v noResult = (v', res)) as E
    by (unfold render_pass, RenderAll, RenderDirty in H; by destruct all).
  pose proof E as E'. eapply (render_from_collections hash n) in E'; [|done|constructor].
  eapply (render_from_spec hash n) in E as (H1 & H2 & H3 & H4 & us & ih & He & Hp); [|done|done].
  destruct He as (U1 & U2 & U3). cbn in U1, U2, U3. rewrite U1.
  split_and!; try done.
  - intros j. rewrite H4. case_bool_decide as Hj; [done|]. cbn.
    destruct (Bitset.has j (dirty v)) eqn:Ej; [|done]. destruct Hb as (_ & _ & Hb).
    apply Hb in Ej. subst n. lia.
  - by exists ih.
Qed.

Lemma shows_sent all v s v' res page : shows v s page -> render_pass all s v = (v', res) ->
  shows (Commit res v') s (receive (Updates res) page).
Proof.
  intros Hshows H. pose proof Hshows as [Hr Hl Hb Hh Hf].
  destruct (render_pass_spec all s v v' res Hb H) as (E1 & E2 & Hb' & Hd & _ & ih & U1 & U2 & Hp).
  destruct (Commit_spec res v' ih U1 U2) as (C1 & C2 & C3).
  (* What the client has of a static fragment after the pass. *)
  assert (forall i f, frags (reg v) !! i = Some f -> Children f = None ->
    (exists h html, (i, h) ∈ ih /\ h = hash html /\ callRender f s = inl html
       /\ receive (Updates res) page !! ID f = Some html)
    \/ ((forall h, (i, h) ∉ ih) /\ receive (Updates res) page !! ID f = page !! ID f)) as Hpage.
  { intros i f Hi Hc. destruct (decide (i ∈ ih.*1)) as [Hin|Hin].
    - left. apply list_elem_of_fmap in Hin as ((i' & h) & -> & Hin). cbn in *.
      destruct (p_hash _ _ _ _ _ _ _ _ Hp i' f h Hi Hc Hin) as (html & R1 & R2 & R3).
      exists h, html. split_and!; try done. apply receive_all; [by eexists|].
      intros u Hu E. destruct (own_update _ _ _ _ _ _ _ _ _ Hr Hp Hi Hc Hu E) as [R4 _].
      rewrite R1 in R4. by injection R4.
    - right. assert (forall h, (i, h) ∉ ih) as Hno.
      { intros h Hin'. apply Hin, list_elem_of_fmap. by exists (i, h). }
      split; [done|]. apply receive_other. intros u Hu E.
      destruct (own_update _ _ _ _ _ _ _ _ _ Hr Hp Hi Hc Hu E) as [_ [h Hin']]. by apply (Hno h). }
  split; rewrite ?C1, ?C2, ?C3, ?E1; try done.
  - rewrite install_length. by rewrite E2.
  - intros i f h Hi Hc Hhash Hne.
    assert (i < length (hashes v))%nat as Hlt by (rewrite Hl; by eapply lookup_lt_Some).
    destruct (Hpage i f Hi Hc) as [(h' & html & Hin & -> & _ & Hrec)|[Hno Hrec]].
    + rewrite (install_key _ _ _ _ (p_nodup _ _ _ _ _ _ _ _ Hp) Hin) in Hhash
        by by rewrite E2.
      injection Hhash as <-. eauto.
    + rewrite install_other, E2 in Hhash by done. rewrite Hrec. eauto.
  - intros i f html Hi Hc _ Hrender.
    destruct (Hpage i f Hi Hc) as [(h' & html' & Hin & _ & R1 & Hrec)|[Hno Hrec]];
      [left; congruence|]. apply (shown_as_eq page); [done|].
    destruct (all || Bitset.has i (dirty v)) eqn:Econs.
    + destruct (p_done _ _ _ _ _ _ _ _ Hp i f html Hi Hc Econs Hrender) as [Hin|[_ Hsame]];
        [by apply Hno in Hin|]. by eapply suppressed_shown.
    + apply orb_false_iff in Econs as [_ Ed]. by apply (Hf i f).
Qed.

Lemma shows_lost all v s v' res page : shows v s page -> render_pass all s v = (v', res) ->
  shows (Discard res v') s page.
Proof.
  intros Hshows H. pose proof Hshows as [Hr Hl Hb Hh Hf].
  destruct (render_pass_spec all s v v' res Hb H) as (E1 & E2 & Hb' & Hd & Hcs & ih & U1 & U2 & Hp).
  assert (Forall (fun i => (i < length (frags (reg v)))%nat) (updated res)) as Hup.
  { apply Forall_forall. rewrite U1. intros i ((i' & h) & -> & Hin)%list_elem_of_fmap.
    apply (p_keys _ _ _ _ _ _ _ _ Hp) in Hin. cbn in *. lia. }
  destruct (Discard_spec _ res v' Hb' Hup Hcs) as (D1 & D2 & D3 & D4).
  split; rewrite ?D1, ?D2, ?E1, ?E2; try done.
  intros i f html Hi Hc Hclean Hrender.
  assert (i ∉ updated res) as Hno.
  { intros Hin. rewrite D4 in Hclean; [done|by left]. }
  destruct (all || Bitset.has i (dirty v)) eqn:Econs.
  - destruct (p_done _ _ _ _ _ _ _ _ Hp i f html Hi Hc Econs Hrender) as [Hin|[_ Hsame]].
    + exfalso. apply Hno. rewrite U1. apply list_elem_of_fmap. by exists (i, hash html).
    + by eapply suppressed_shown.
  - apply orb_false_iff in Econs as [_ Ed]. by apply (Hf i f).
Qed.

(** What a session does with its renderer: a transition marks, a pass is rendered and
    then either committed, its updates having reached the client, or discarded. *)
Inductive rendering (r : Registry State) (s0 : State)
  : Renderer State -> State -> gmap string string -> Prop :=
| rendering_new : rendering r s0 (NewRenderer r) s0 ∅
| rendering_transition v s s' page : rendering r s0 v s page ->
    rendering r s0 (Mark s s' v).1 s' page
| rendering_sent all v s v' res page : rendering r s0 v s page ->
    render_pass all s v = (v', res) ->
    rendering r s0 (Commit res v') s (receive (Updates res) page)
| rendering_lost all v s v' res page : rendering r s0 v s page ->
    render_pass all s v = (v', res) ->
    rendering r s0 (Discard res v') s page.

Lemma Mark_reg v s s' : bits_ok (length (frags (reg v))) (dirty v) ->
  reg (Mark s s' v).1 = reg v.
Proof.
  intros Hb. unfold Mark.
  by destruct (mark_from_spec (length (frags (reg v))) 0 (frags (reg v)) s s' v Hb ltac:(lia))
    as [(E1 & _) _].
Qed.

Lemma rendering_shows r s0 v s page : registry_ok r -> truthful (frags r) ->
  rendering r s0 v s page -> shows v s page /\ reg v = r.
Proof.
  intros Hr Ht H. induction H as [|v s s' page H [IH <-]|all v s v' res page H [IH <-] Hp
                                 |all v s v' res page H [IH <-] Hp].
  - split; [by apply shows_new|done].
  - split; [by apply shows_Mark|]. apply Mark_reg, (sh_bits _ _ _ IH).
  - split; [by eapply shows_sent|].
    destruct (render_pass_spec all s v v' res (sh_bits _ _ _ IH) Hp)
      as (E1 & _ & _ & _ & _ & ih & U1 & U2 & _).
    by destruct (Commit_spec res v' ih U1 U2) as (-> & _).
  - split; [by eapply shows_lost|].
    pose proof (shows_lost all v s v' res page IH Hp) as [_ _ Hb _ _].
    destruct (render_pass_spec all s v v' res (sh_bits _ _ _ IH) Hp)
      as (E1 & _ & Hb' & _ & Hcs & ih & U1 & U2 & Hpass).
    assert (Forall (fun i => (i < length (frags (reg v)))%nat) (updated res)) as Hup.
    { apply Forall_forall. rewrite U1. intros i ((i' & h) & -> & Hin)%list_elem_of_fmap.
      apply (p_keys _ _ _ _ _ _ _ _ Hpass) in Hin. cbn in *. lia. }
    by destruct (Discard_spec _ res v' Hb' Hup Hcs) as (-> & _).
Qed.

(** Whatever is not marked is current. *)
Lemma shows_current v s page : shows v s page ->
  (forall i f html, frags (reg v) !! i = Some f -> Children f = None ->
     callRender f s = inl html -> Bitset.has i (dirty v) = true \/ shown_as page (ID f) html)
  /\ (Pending v = false -> forall f html, f ∈ frags (reg v) -> Children f = None ->
        callRender f s = inl html -> shown_as page (ID f) html).
Proof.
  intros Hs. split.
  - intros i f html Hi Hc Hrender. destruct (Bitset.has i (dirty v)) eqn:E; [by left|right].
    by apply (sh_fresh _ _ _ Hs i f).
  - intros Hp f html [i Hi]%list_elem_of_lookup Hc Hrender.
    apply (sh_fresh _ _ _ Hs i f); try done.
    destruct (Bitset.has i (dirty v)) eqn:E; [|done].
    assert (Pending v = true) as Hp'; [|congruence].
    apply (any_has _ _ (sh_bits _ _ _ Hs)). exists i.
    split; [by eapply lookup_lt_Some|done].
Qed.

(** The client is never left behind silently.  Whatever sequence of transitions,
    delivered passes and lost passes a session goes through, a static fragment that
    is not marked dirty is shown to the client exactly as the current state renders
    it, up to a coincidence of hashes; so when nothing is pending every static region is
    current.  A pass that did not reach the client never suppresses a later one.  (Change
    declarations are assumed to be truthful.) *)
Theorem client_is_current (fs : list (Fragment State)) (r : Registry State) (s0 s : State)
  (v : Renderer State) (page : gmap string string)
  (Hnew : NewRegistry fs = Ok r) (Htrue : truthful fs) (Hrun : rendering r s0 v s page) :
  (forall i f html, fs !! i = Some f -> Children f = None -> callRender f s = inl html ->
     Bitset.has i (dirty v) = true \/ shown_as page (ID f) html)
  /\ (Pending v = false -> forall f html, f ∈ fs -> Children f = None ->
        callRender f s = inl html -> shown_as page (ID f) html).
Proof.
  apply NewRegistry_ok in Hnew as [Hr <-].
  destruct (rendering_shows r s0 v s page Hr Htrue Hrun) as [Hs <-].
  by apply shows_current.
Qed.
End client.

(** ** A counter *)

Definition counter : Fragment N :=
  mkFragment "counter" (Some (fun s => Markup (pretty s)))
    (Some (fun prev next => Changed (negb (prev =? next)%N))) None.
Definition counter_registry : Registry N := mkRegistry [counter] {["counter" := 0%nat]}.
Definition code (s : string) : N := Npos (encode s).

Lemma client_is_current_witness :
  exists v page, rendering code counter_registry 0%N v 7%N page
    /\ Bitset.has 0 (dirty v) = false /\ page !! "counter" = Some "7".
Proof.
  set (v0 := NewRenderer counter_registry).
  destruct (render_pass code true 0%N v0) as [v1 r1] eqn:E1.
  set (v2 := (Mark 0%N 7%N (Commit r1 v1)).1).
  destruct (render_pass code false 7%N v2) as [v3 r3] eqn:E3.
  set (v4 := Discard r3 v3).
  destruct (render_pass code false 7%N v4) as [v5 r5] eqn:E5.
  assert (rendering code counter_registry 0%N (Commit r5 v5) 7%N
            (receive (Updates r5) (receive (Updates r1) ∅))) as Hrun.
  { eapply rendering_sent; [|exact E5]. eapply rendering_lost; [|exact E3].
    apply rendering_transition. eapply rendering_sent; [apply rendering_new|exact E1]. }
  exists (Commit r5 v5), (receive (Updates r5) (receive (Updates r1) ∅)). split; [done|].
  assert (Bitset.has 0 (dirty (Commit r5 v5)) = false) as Hclean.
  { injection E1 as <- <-. unfold v2 in E3. injection E3 as <- <-. unfold v4 in E5.
    injection E5 as <- <-. by vm_compute. }
  split; [done|].
  destruct (proj1 (client_is_current code [counter] counter_registry 0%N 7%N
    (Commit r5 v5) _ ltac:(by vm_compute)
    ltac:(intros f d prev next ->%list_elem_of_singleton _ [= <-] [= H%negb_false_iff%N.eqb_eq]; by subst)
    Hrun) 0%nat counter "7" eq_refl eq_refl ltac:(by vm_compute)) as [H|[H|[H|H]]];
    [by rewrite Hclean in H|exact H|done|].
  destruct H as (shown & _ & Hne & [= H]). by apply encode_inj in H.
Defined.
