(* ===== verification/GotthSession.v ===== *)
(** * gotth: the session actor of pkg/gotth/internal/session.

    One [Definition] per function of actor.go, ingress.go, resync.go and effects.go,
    over the record [Actor].  Three goroutines share it: the read pump ([Ingress]),
    the actor (mount, [step], [onAck], [onTick]) and the effects ([emitter], the end
    of [runOne]); [event] names their turns and [handle] performs one.  The clock is
    an argument of a turn, the transport a script of write outcomes, the application
    a record of functions whose panics are values, the renderer an instance of the
    class [Views].  Metrics, spans and log records other than the provenance stream
    are not modelled. *)
From Stdlib Require Import String Ascii NArith QArith Lia.
From stdpp Require Import base list gmap sets strings pretty.
From S2P Require Import Prelude.
From S2P Require Import GotthProtocol.
From S2P Require Import GotthWindow.
From S2P Require Import GotthRender.
Open Scope Z_scope.

(** ** The parts of a session *)

(** What the actor asks of its renderer. *)
Class Views (A V : Type) := {
  vMark : A -> A -> V -> V * list Failure;
  vRender : A -> V -> V * Result;
  vRenderAll : A -> V -> V * Result;
  vCommit : Result -> V -> V;
  vDiscard : Result -> V -> V;
  vPending : V -> bool;
  vKnownID : V -> string -> bool;
  vAdmitsID : V -> string -> bool;
}.

#[export] Instance Renderer_Views {A} (hash : string -> N) : Views A (Renderer A) := {
  vMark := Mark;
  vRender := RenderDirty hash;
  vRenderAll := RenderAll hash;
  vCommit := Commit;
  vDiscard := Discard;
  vPending := Pending;
  vKnownID := KnownID;
  vAdmitsID := fun v => AdmitsID (reg v);
}.

(** Values of Go's [any]: the nil interface, and what [==] can ask of two of them. *)
Class GoAny (A : Type) := {
  nil_any : A;
  is_nil : A -> bool;
  same_type : A -> A -> bool;
  equal_any : A -> A -> bool;
}.

Record Field := mkField { fd_Key : string; fd_Value : string }.

Record Event := mkEvent {
  ev_ID : N; ev_ClientRef : N; ev_SeenServerSeq : N; ev_Name : string;
  ev_FragmentID : string; ev_At : Time.t; ev_Fields : list Field; ev_Contributing : list N }.
#[export] Instance Rebuild_Event : Rebuild Event := fun e =>
  mkEvent (ev_ID e) (ev_ClientRef e) (ev_SeenServerSeq e) (ev_Name e) (ev_FragmentID e)
    (ev_At e) (ev_Fields e) (ev_Contributing e).
Definition noEvent : Event := mkEvent 0 0 0 "" "" 0 [] [].

(** [e_Run] says whether the function is there; what it does is a turn of its own. *)
Record Effect := mkEffect { e_Source : string; e_Run : bool }.

Inductive reduced (A : Type) :=
| Reduced (next : A) (effects : list Effect)
| ReducePanicked (value stack : string).
Arguments Reduced {A}.
Arguments ReducePanicked {A}.

Record App (A : Type) := mkApp {
  Init : option (A * list Effect);
  Reduce : A -> Event -> reduced A;
  Registered : string -> bool;
  StateComparable : bool;
}.
Arguments Init {A}. Arguments Reduce {A}. Arguments Registered {A}.
Arguments StateComparable {A}.

(** The answer of the application's [Authorize] hook. *)
Inductive verdict := Allow | Deny | FatalDeny.

Inductive msgKind := msgEvent | msgEffectResult | msgSynthetic | msgResync | msgTelemetry.

Record inbound := mkInbound {
  m_kind : msgKind; m_ev : Event; m_origin : CausalOrigin; m_lastAppliedSeq : N;
  m_patchID : N; m_morphMicros : N; m_applyMicros : N }.

Definition noOrigin : CausalOrigin := mkCausalOrigin 0 0 0 "" [].
Definition noSupersession : Supersession := mkSupersession 0 0.

(** A row of the provenance stream. *)
Record Provenance := mkProvenance {
  pr_EventID : N; pr_ClientRef : N; pr_TransitionID : N; pr_StateVersion : N;
  pr_PatchID : N; pr_ServerSeq : N; pr_OriginKind : Z; pr_OriginSource : string;
  pr_FragmentIDs : list string; pr_Contributing : list N; pr_Superseded : Supersession }.

Definition ResyncEventName : string := "gotth.resync".
Definition consecutiveDenialsBeforeClose : Z := 3.
Definition EffectFailedEvent : string := "gotth.effect_failed".
Definition EffectFailedSourceField : string := "source".
Definition EffectFailedErrorField : string := "error".
Definition EffectFailedRetryableField : string := "retryable".
Definition reduceFailedMessage : string := "the transition failed".
Definition renderFailedMessage : string :=
  "a region of the page could not be rendered and is stale".
Definition quote : string := String (ascii_of_N 34) EmptyString.
Definition effectSourceRefused : string :=
  "gotth-live: Effect.Source is not usable as an origin source: it must be at most "
  +:+ pretty (MaxOriginSource - len SourceEffectPrefix)%N +:+ " bytes and match "
  +:+ "^[a-z][a-z0-9_.:/-]*$, because the library namespaces it as "
  +:+ quote +:+ SourceEffectPrefix +:+ quote
  +:+ " + source onto the origin of every patch the effect causes".
Definition effectRunMissing : string :=
  "gotth-live: Effect.Run is nil: an effect that names itself and carries no behaviour is a change that never happens — set Run, or return no effect at all".

Definition uint32 (z : Z) : N := Z.to_N (z mod 4294967296).
Definition unix_epoch : Time.t := Time.unixToInternal * Time.Second.
(** [t.UnixNano()] and [time.Unix(0, ns)]. *)
Definition UnixNano (t : Time.t) : Z := i64_wrap (t - unix_epoch).
Definition FromUnixNano (ns : Z) : Time.t := unix_epoch + ns.

Section actor.
Context {A V : Type} {anyA : GoAny A} {views : Views A V}.
Context (Marshal : pb.Frame -> option string) (app : App A) (session : string) (lim : Limits)
        (dev : bool).

Record Actor := mkActor {
  state : A;
  view : V;
  win : window unit;
  serverSeq : N;
  patchID : N;
  transitionID : N;
  stateVersion : N;
  hbNonce : N;
  panics : gmap string Z;
  pendingOrig : option CausalOrigin;
  pendingIDs : list N;
  slowNotified : bool;
  coalesceNotified : bool;
  coalesceHeld : bool;
  resyncBucket : bucket;
  resyncDenied : Z;
  lastSnapshotSeq : N;
  eventSeq : N;
  eventBucket : bucket;
  eventDenied : Z;
  lastInboundNS : Z;
  lastEventNS : Z;
  closing : bool;
  closed : option CloseCode;
  mailbox : list inbound;
  acks : list N;
  running : list (string * N);
  fr : Framer;
  rows : list Provenance;
}.
#[export] Instance Rebuild_Actor : Rebuild Actor := fun a =>
  mkActor (state a) (view a) (win a) (serverSeq a) (patchID a) (transitionID a)
    (stateVersion a) (hbNonce a) (panics a) (pendingOrig a) (pendingIDs a) (slowNotified a)
    (coalesceNotified a) (coalesceHeld a) (resyncBucket a) (resyncDenied a)
    (lastSnapshotSeq a) (eventSeq a) (eventBucket a) (eventDenied a) (lastInboundNS a)
    (lastEventNS a) (closing a) (closed a) (mailbox a) (acks a) (running a) (fr a) (rows a).

Definition New (view : V) (writes : list bool) (now : Time.t) : Actor :=
  {| state := nil_any; view := view; win := newWindow (AckWindow lim);
     serverSeq := 0; patchID := 0; transitionID := 0; stateVersion := 0; hbNonce := 0;
     panics := ∅; pendingOrig := None; pendingIDs := [];
     slowNotified := false; coalesceNotified := false; coalesceHeld := false;
     resyncBucket :=
       newBucket (1 / Seconds (MinResyncInterval lim))%Q (ResyncBurst lim) now;
     resyncDenied := 0; lastSnapshotSeq := 0; eventSeq := 0;
     eventBucket := newBucket (MaxEventsPerSecond lim) (EventBurst lim) now;
     eventDenied := 0; lastInboundNS := UnixNano now; lastEventNS := UnixNano now;
     closing := false; closed := None; mailbox := []; acks := []; running := [];
     fr := mkFramer writes []; rows := [] |}.

(** ** Small operations *)

Definition CloseSession (code : CloseCode) (a : Actor) : Actor :=
  if closing a then a else a <| closing := true |> <| closed := Some code |>.

(** A message for a full mailbox is dropped. *)
Definition post (m : inbound) (a : Actor) : bool * Actor :=
  if Z.of_nat (length (mailbox a)) <? MailboxDepth lim
  then (true, a <| mailbox ::= (.++ [m]) |>) else (false, a).
Definition post_ (m : inbound) (a : Actor) : Actor := (post m a).2.

Definition emitError (code : Z) (message : string) (eventID clientRef : N) (fatal : bool)
  (a : Actor) : Actor :=
  a <| fr := (Send Marshal (fr a) (NewError session code message eventID clientRef fatal)).1 |>.

Definition devMessage (generic : string) (detail : list string) : string :=
  if negb dev then generic
  else foldl (fun b d => if decide (d = "") then b
                         else b +:+ String (ascii_of_N 10) EmptyString +:+ d) generic detail.

Definition notePanic (site : string) (a : Actor) : Actor :=
  let n := default 0 (panics a !! site) + 1 in
  let a := a <| panics ::= <[site := n]> |> in
  if PanicBudget lim <=? n then CloseSession CloseInternalError a else a.

Definition renderDetail (failures : list Failure) : list string :=
  match failures with
  | [] => []
  | f :: rest =>
      let head := "fragment " +:+ f_FragmentID f +:+ " (" +:+ Site f +:+ "): " +:+ f_Value f in
      let head := match rest with
                  | [] => head
                  | _ => head +:+ " (and " +:+ pretty (length rest)
                           +:+ " more in this pass; the log has them all)"
                  end in
      [head; Stack f]
  end.

Definition noteRenderFailures (failures : list Failure) (eventID clientRef : N) (a : Actor)
  : Actor :=
  match failures with
  | [] => a
  | _ =>
      let a := emitError pb.INTERNAL (devMessage renderFailedMessage (renderDetail failures))
                 eventID clientRef false a in
      foldl (fun a _ => notePanic "render" a) a failures
  end.

Definition provenance (o : CausalOrigin) (ev : Event) (fragments : list string)
  (patchID serverSeq : N) (sup : Supersession) (a : Actor) : Actor :=
  a <| rows ::= (.++ [mkProvenance (ev_ID ev) (ev_ClientRef ev) (transitionID a)
                        (stateVersion a) patchID serverSeq (o_Kind o) (Source o) fragments
                        (Contributing o) sup]) |>.

Definition fragmentIDs (us : list RUpdate) : list string := u_FragmentID <$> us.

Definition wireOp (op : RenderOp) : Z :=
  match op with
  | OpAppend => pb.APPEND
  | OpPrepend => pb.PREPEND
  | OpRemove => pb.REMOVE
  | _ => pb.MORPH
  end.

Definition toWireUpdates (us : list RUpdate) : list Update :=
  (fun u => mkUpdate (u_FragmentID u) (wireOp (u_Op u)) (u_HTML u)) <$> us.

Definition sameState (prev next : A) : bool :=
  if is_nil prev || is_nil next then Bool.eqb (is_nil prev) (is_nil next)
  else if negb (StateComparable app) then false
  else if negb (same_type prev next) then false
  else equal_any prev next.

(** ** Deferred provenance *)

Definition deferPatch (origin : CausalOrigin) (a : Actor) : Actor :=
  let a :=
    match pendingOrig a with
    | Some prev =>
        let a := if (EventID prev =? 0)%N then a else a <| pendingIDs ::= (.++ [EventID prev]) |> in
        a <| pendingIDs ::= (.++ Contributing prev) |>
    | None => a
    end in
  a <| pendingOrig := Some origin |>.

(** [add] of [unionReaches], over the set seen so far. *)
Fixpoint count_new (seen : gset N) (ids : list N) : N :=
  match ids with
  | [] => 0
  | id :: ids =>
      if (id =? 0)%N then count_new seen ids
      else if decide (id ∈ seen) then count_new seen ids
      else (1 + count_new ({[id]} ∪ seen) ids)%N
  end.

Definition own_id (origin : CausalOrigin) : gset N :=
  if (EventID origin =? 0)%N then ∅ else {[EventID origin]}.

Definition unionReaches (origin : CausalOrigin) (n : Z) (a : Actor) : bool :=
  let upper := Z.of_nat (length (pendingIDs a) + length (Contributing origin)) in
  let upper := match pendingOrig a with
               | Some prev => upper + (1 + Z.of_nat (length (Contributing prev)))
               | None => upper
               end in
  if upper <? n then false
  else
    let added :=
      Contributing origin ++ pendingIDs a
      ++ match pendingOrig a with
         | Some prev => EventID prev :: Contributing prev
         | None => []
         end in
    n <=? Z.of_N (count_new (own_id origin) added).

Fixpoint dedup (seen : gset N) (ids : list N) : list N :=
  match ids with
  | [] => []
  | id :: ids =>
      if (id =? 0)%N then dedup seen ids
      else if decide (id ∈ seen) then dedup seen ids
      else id :: dedup ({[id]} ∪ seen) ids
  end.

Definition unionEdges (origin : CausalOrigin) (deferred : list N) : list N :=
  dedup (own_id origin) (Contributing origin ++ deferred).

(** The origin comes back as it went in. *)
Definition takePending (origin : CausalOrigin) (a : Actor) : list N * Actor :=
  let contributing := pendingIDs a in
  let a := a <| pendingIDs := [] |> in
  match pendingOrig a with
  | Some prev =>
      let contributing :=
        if negb (EventID prev =? 0)%N && negb (EventID prev =? EventID origin)%N
        then contributing ++ [EventID prev] else contributing in
      (contributing ++ Contributing prev, a <| pendingOrig := None |>)
  | None => (contributing, a)
  end.

Definition redefer (origin : CausalOrigin) (contributing : list N) (a : Actor) : Actor :=
  let a := a <| pendingIDs ::= (.++ contributing) |> in
  let a := a <| pendingIDs ::= take (N.to_nat CoalesceFlushCeiling) |> in
  deferPatch origin a.

(** ** Emission *)

Definition patchUpdatesField : string := "gotthlive.v1.Patch.updates".

Definition renderPass (all : bool) (a : Actor) : Actor * Result :=
  if all then
    let '(v, res) := vRenderAll (state a) (view a) in (a <| view := v |>, res)
  else
    let '(v, res) := vRender (state a) (view a) in
    if (default 0 (listBounds patchUpdatesField) <? N.of_nat (length (Updates res)))%N then
      let '(v, complete) := vRenderAll (state a) (vDiscard res v) in
      (a <| view := v |>, complete <| Failed := Failed res ++ Failed complete |>)
    else (a <| view := v |>, res).

(** The counters advance only after the write. *)
Definition send (frame : pb.Frame) (causal : Causal) (a : Actor) : bool * Actor :=
  let '(fr', r) := Send Marshal (fr a) frame in
  let a := a <| fr := fr' |> in
  match r with
  | Ok _ => (true, a <| serverSeq := ServerSeq causal |> <| patchID := PatchID causal |>)
  | Err (InvalidFrameError _ _) =>
      (false, emitError pb.INTERNAL "the server could not encode an update" 0 0 false a)
  | Err WriteError =>
      (false, CloseSession (if full (win a) then CloseSlowClient else CloseNormal) a)
  end.

Definition synthesize (source : string) (now : Time.t) (a : Actor) : Actor :=
  post_ (mkInbound msgSynthetic (mkEvent 0 0 0 source "" now [] [])
           (mkCausalOrigin pb.TIMER 0 0 source []) 0 0 0 0) a.

Definition noteFull (now : Time.t) (a : Actor) : Actor :=
  a <| win := (noteFullness now (win a)).2 |>.

Definition enterCoalesce (origin : CausalOrigin) (now : Time.t) (a : Actor) : Actor :=
  let a := deferPatch origin a in
  let a := if coalesceNotified a then a else a <| coalesceNotified := true |> in
  noteFull now a.

Definition degrade (origin : CausalOrigin) (now : Time.t) (a : Actor) : Actor :=
  let a := deferPatch origin a in
  let a := if slowNotified a then a
           else synthesize SourceSlowClient now (a <| slowNotified := true |>) in
  noteFull now a.

Definition nextCausal (a : Actor) : Causal :=
  {| ServerSeq := u64_add (serverSeq a) 1; PatchID := u64_add (patchID a) 1;
     TransitionID := transitionID a; StateVersion := stateVersion a |}.

Definition pushSlot (causal : Causal) (a : Actor) : Actor :=
  a <| win ::= push (mkSlot (ServerSeq causal) (PatchID causal) tt) |>.

(** What [emitPatch] does once it has decided to emit. *)
Definition emission (origin : CausalOrigin) (ev : Event) (a : Actor) : Actor :=
  let a := a <| coalesceHeld := false |> in
  let '(contributing, a) := takePending origin a in
  let '(a, res) := renderPass false a in
  noteRenderFailures (Failed res) (ev_ID ev) (ev_ClientRef ev)
    match Updates res with
    | [] => provenance origin ev [] 0 0 noSupersession (redefer origin contributing a)
    | _ =>
        let origin := origin <| Contributing := unionEdges origin contributing |> in
        let causal := nextCausal a in
        let frame := NewPatch session causal origin (toWireUpdates (Updates res)) in
        let '(ok, a) := send frame causal a in
        if negb ok then
          redefer origin contributing (a <| view ::= vDiscard res |>)
        else
          let a := pushSlot causal (a <| view ::= vCommit res |>) in
          provenance origin ev (fragmentIDs (Updates res)) (PatchID causal)
            (ServerSeq causal) noSupersession a
    end.

Definition emitPatch (origin : CausalOrigin) (ev : Event) (forced : bool) (now : Time.t)
  (a : Actor) : Actor :=
  if unionReaches origin (CoalesceFlushAt lim) a then emission origin ev a
  else if full (win a) then
    provenance origin ev [] 0 0 noSupersession (degrade origin now a)
  else if coalescing (win a) && negb forced && negb (coalesceHeld a) then
    provenance origin ev [] 0 0 noSupersession
      (enterCoalesce origin now (a <| coalesceHeld := true |>))
  else emission origin ev a.

Definition sessionParams : SessionParams :=
  {| HeartbeatIntervalMS := uint32 (HeartbeatInterval lim ÷ Time.Millisecond);
     p_MaxInboundFrameBytes := uint32 (MaxInboundFrameBytes lim);
     p_AckWindow := uint32 (AckWindow lim) |}.

Definition emitSnapshot (origin : CausalOrigin) (sup : Supersession) (eventID : N) (a : Actor)
  : bool * Actor :=
  let '(a, res) := renderPass true a in
  let '(contributing, a) := takePending origin a in
  let origin := origin <| Contributing := unionEdges origin contributing |> in
  let causal := nextCausal a in
  let frame := NewSnapshot session causal origin sessionParams sup
                 (toWireUpdates (Updates res)) in
  let '(ok, a) := send frame causal a in
  let a :=
    if negb ok then redefer origin contributing (a <| view ::= vDiscard res |>)
    else
      let a := a <| view ::= vCommit res |> <| lastSnapshotSeq := ServerSeq causal |> in
      provenance origin (noEvent <| ev_ID := eventID |> <| ev_ClientRef := ClientRef origin |>)
        (fragmentIDs (Updates res)) (PatchID causal) (ServerSeq causal) sup
        (pushSlot causal a) in
  (ok, noteRenderFailures (Failed res) eventID (ClientRef origin) a).

(** ** Effects *)

Definition effectOrigin (source : string) : string :=
  let s := SourceEffectPrefix +:+ source in
  if ValidOriginSource s then s else SourceEffectInvalid.

Definition scheduledEdge (scheduledBy : N) : list N :=
  if (scheduledBy =? 0)%N then [] else [scheduledBy].

Definition FormatBool (b : bool) : string := if b then "true" else "false".

Definition emitFailure (source detail : string) (retryable : bool) (scheduledBy : N)
  (now : Time.t) (a : Actor) : Actor :=
  if closing a then a
  else
    post_ (mkInbound msgEffectResult
      (mkEvent 0 0 0 EffectFailedEvent "" now
         [mkField EffectFailedSourceField source; mkField EffectFailedErrorField detail;
          mkField EffectFailedRetryableField (FormatBool retryable)] [])
      (mkCausalOrigin pb.EFFECT 0 0 (effectOrigin source) (scheduledEdge scheduledBy))
      0 0 0 0) a.

(** A started effect is in [running] until it is done. *)
Definition execute (e : Effect) (scheduledBy : N) (now : Time.t) (a : Actor) : Actor :=
  if negb (ValidOriginSource (SourceEffectPrefix +:+ e_Source e)) then
    emitFailure (e_Source e) effectSourceRefused false scheduledBy now a
  else if negb (e_Run e) then
    emitFailure (e_Source e) effectRunMissing false scheduledBy now a
  else a <| running ::= (.++ [(e_Source e, scheduledBy)]) |>.

Definition runEffects (effects : list Effect) (scheduledBy : N) (now : Time.t) (a : Actor)
  : Actor :=
  foldl (fun a e => if decide (e_Source e = "" /\ e_Run e = false) then a
                    else execute e scheduledBy now a) a effects.

(** How [e.Run] returned, or what it panicked with. *)
Inductive outcome :=
| RunOk
| RunCancelled
| RunError (detail : string) (retryable : bool)
| RunPanicked (detail : string).

Definition runOne (source : string) (scheduledBy : N) (o : outcome) (now : Time.t) (a : Actor)
  : Actor :=
  match o with
  | RunOk | RunCancelled => a
  | RunError detail retryable => emitFailure source detail retryable scheduledBy now a
  | RunPanicked detail => emitFailure source detail false scheduledBy now a
  end.

Inductive emit_error :=
  SessionClosing | SessionSaturated | SetsID | SetsAt | TooManyContributing | ZeroContributing.

Definition emitter (source : string) (scheduledBy : N) (ev : Event) (now : Time.t) (a : Actor)
  : option emit_error * Actor :=
  if closing a then (Some SessionClosing, a)
  else
    let ev := ev <| ev_ID := 0%N |> <| ev_ClientRef := 0%N |> <| ev_At := now |> in
    let m := mkInbound msgEffectResult ev
               (mkCausalOrigin pb.EFFECT 0 0 (effectOrigin source)
                  (scheduledEdge scheduledBy ++ ev_Contributing ev)) 0 0 0 0 in
    let '(posted, a) := post m a in
    (if posted then None else Some SessionSaturated, a).

(** What an application holds instead of [emitter] (live/app.go). *)
Definition guardedEmitter (emit : Event -> Actor -> option emit_error * Actor) (ev : Event)
  (a : Actor) : option emit_error * Actor :=
  if negb (ev_ID ev =? 0)%N then (Some SetsID, a)
  else if negb (Time.IsZero (ev_At ev)) then (Some SetsAt, a)
  else if (MaxEventContributing <? N.of_nat (length (ev_Contributing ev)))%N
  then (Some TooManyContributing, a)
  else if existsb (N.eqb 0) (ev_Contributing ev) then (Some ZeroContributing, a)
  else emit (noEvent <| ev_Name := ev_Name ev |> <| ev_FragmentID := ev_FragmentID ev |>
               <| ev_Fields := ev_Fields ev |> <| ev_Contributing := ev_Contributing ev |>) a.

(** ** The actor's turns *)

Definition mount (now : Time.t) (a : Actor) : Actor :=
  match Init app with
  | None =>
      CloseSession CloseInternalError
        (emitError pb.INTERNAL "the session could not be established" 0 0 true a)
  | Some (s, effects) =>
      let a := a <| state := s |> <| transitionID := 1%N |> <| stateVersion := 1%N |> in
      let '(ok, a) := emitSnapshot (mkCausalOrigin pb.MOUNT 0 0 SourceMount [])
                        noSupersession 0 a in
      if negb ok then
        CloseSession CloseInternalError
          (emitError pb.INTERNAL "the session could not be established" 0 0 true a)
      else runEffects effects 0 now a
  end.

Definition rejectUnknownFragment (eventID clientRef : N) (a : Actor) : Actor :=
  emitError pb.UNKNOWN_FRAGMENT
    "the event names a fragment this session does not currently declare" eventID clientRef
    false a.

Definition transition (ev : Event) (origin : CausalOrigin) (now : Time.t) (a : Actor) : Actor :=
  if (serverSeq a <? ev_SeenServerSeq ev)%N then
    emitError pb.INVALID_FRAME
      "the event claims to have seen a patch this session has not sent: reconnect and resynchronise"
      (ev_ID ev) (ev_ClientRef ev) false a
  else if (o_Kind origin =? pb.CLIENT_EVENT) && negb (vKnownID (view a) (ev_FragmentID ev)) then
    rejectUnknownFragment (ev_ID ev) (ev_ClientRef ev) a
  else
    let prev := state a in
    let a := a <| transitionID ::= fun n => u64_add n 1 |> in
    match Reduce app prev ev with
    | ReducePanicked value stack =>
        let a := emitError pb.INTERNAL (devMessage reduceFailedMessage [value; stack])
                   (ev_ID ev) (ev_ClientRef ev) false a in
        provenance origin ev [] 0 0 noSupersession (notePanic "reduce" a)
    | Reduced next effects =>
        let changed := negb (sameState prev next) in
        let a := a <| state := next |> in
        let a := if changed then a <| stateVersion ::= fun n => u64_add n 1 |> else a in
        let '(v, failures) := vMark prev next (view a) in
        let a := emitPatch origin ev false now (a <| view := v |>) in
        noteRenderFailures failures (ev_ID ev) (ev_ClientRef ev)
          (runEffects effects (ev_ID ev) now a)
    end.

Definition resync (m : inbound) (now : Time.t) (a : Actor) : Actor :=
  let '(ok, b) := allow (resyncBucket a) now in
  let a := a <| resyncBucket := b |> in
  if negb ok then
    let a := a <| resyncDenied ::= Z.add 1 |> in
    let a := emitError pb.RATE_LIMITED
               "resync requests are rate limited: wait before requesting another"
               (ev_ID (m_ev m)) (ev_ClientRef (m_ev m)) false a in
    if consecutiveDenialsBeforeClose * ResyncBurst lim <=? resyncDenied a
    then CloseSession CloseRateLimited a else a
  else
    let a := a <| resyncDenied := 0 |> in
    let applied := m_lastAppliedSeq m in
    let applied := if (applied <? ackedSeq (win a))%N then ackedSeq (win a) else applied in
    let applied := N.max applied (lastSnapshotSeq a) in
    if (serverSeq a <=? applied)%N then
      a <| fr := (Send Marshal (fr a) (NewAck session (serverSeq a))).1 |>
    else
      let sup := mkSupersession (u64_add applied 1) (serverSeq a) in
      let origin := mkCausalOrigin pb.RESYNC (ev_ID (m_ev m)) (ev_ClientRef (m_ev m))
                      SourceResync [] in
      let a := a <| transitionID ::= fun n => u64_add n 1 |> in
      (emitSnapshot origin sup (ev_ID (m_ev m)) a).2.

(** Only metrics and spans come of it. *)
Definition telemetry (m : inbound) (a : Actor) : bool := bool_decide (is_Some (slotFor (m_patchID m) (win a))).

Definition step (m : inbound) (now : Time.t) (a : Actor) : Actor :=
  match m_kind m with
  | msgEvent | msgEffectResult | msgSynthetic => transition (m_ev m) (m_origin m) now a
  | msgResync => resync m now a
  | msgTelemetry => a
  end.

(** The emission an acknowledgement or a tick forces. *)
Definition flushPending (now : Time.t) (a : Actor) : Actor :=
  let origin := default (mkCausalOrigin pb.TIMER 0 0 SourceClientRecovered [])
                  (pendingOrig a) in
  emitPatch origin (noEvent <| ev_ID := EventID origin |> <| ev_ClientRef := ClientRef origin |>)
    true now a.

Definition onAck (seq : N) (now : Time.t) (a : Actor) : Actor :=
  match ack seq (win a) with
  | Err _ => CloseSession CloseProtocolViolation a
  | Ok w =>
      let a := noteFull now (a <| win := w |>) in
      let a := if coalescing (win a) then a
               else a <| coalesceNotified := false |> <| coalesceHeld := false |> in
      if full (win a) || negb (vPending (view a)) then a
      else
        let a := if slowNotified a
                 then synthesize SourceClientRecovered now (a <| slowNotified := false |>)
                 else a in
        flushPending now a
  end.

Definition onTick (t : Time.t) (now : Time.t) (a : Actor) : Actor :=
  let now := if Time.IsZero t then now else t in
  if HeartbeatTimeout lim <? Time.Sub now (FromUnixNano (lastInboundNS a)) then
    CloseSession CloseHeartbeatTimeout a
  else if IdleTimeout lim <? Time.Sub now (FromUnixNano (lastEventNS a)) then
    CloseSession CloseSessionEvicted a
  else
    let '(since, w) := noteFullness now (win a) in
    let a := a <| win := w |> in
    if negb (Time.IsZero since) && (SlowClientGrace lim <? Time.Sub now since) then
      CloseSession CloseSlowClient a
    else
      let a := if vPending (view a) && negb (full (win a)) then flushPending now a else a in
      let a := a <| hbNonce ::= fun n => u64_add n 1 |> in
      let '(fr', r) := Send Marshal (fr a)
        (NewHeartbeat session (hbNonce a)
           (uint32 (HeartbeatInterval lim ÷ Time.Millisecond))) in
      let a := a <| fr := fr' |> in
      match r with
      | Ok _ => a
      | Err _ => CloseSession CloseNormal a
      end.

(** ** Ingress *)

(** [v] is what the application's hook answers. *)
Definition authorize (ev : Event) (v : verdict) (a : Actor) : bool * Actor :=
  match v with
  | Allow => (true, a)
  | FatalDeny =>
      (false, CloseSession CloseUnauthorized
        (emitError pb.UNAUTHORIZED "not permitted" (ev_ID ev) (ev_ClientRef ev) true a))
  | Deny =>
      (false, emitError pb.UNAUTHORIZED "not permitted" (ev_ID ev) (ev_ClientRef ev) false a)
  end.

Definition copyFields (l : list pb.EventField) : list Field :=
  (fun f => mkField (pb.Key f) (pb.Value f)) <$> l.

Definition saturated (ev : Event) (a : Actor) : Actor :=
  emitError pb.RATE_LIMITED "the session is saturated: slow down and retry" (ev_ID ev)
    (ev_ClientRef ev) false a.

Definition ingressEvent (clientRef : N) (name fragmentID : string) (seen : N)
  (fields : list pb.EventField) (v : verdict) (now : Time.t) (a : Actor) : Actor :=
  let a := a <| eventSeq ::= fun n => u64_add n 1 |> in
  let eventID := eventSeq a in
  let '(ok, b) := allow (eventBucket a) now in
  let a := a <| eventBucket := b |> in
  if negb ok then
    let a := a <| eventDenied ::= Z.add 1 |> in
    let a := emitError pb.RATE_LIMITED "too many events: slow down and retry" eventID
               clientRef false a in
    if consecutiveDenialsBeforeClose * EventBurst lim <=? eventDenied a
    then CloseSession CloseRateLimited a else a
  else
    let a := a <| eventDenied := 0 |> in
    if negb (Registered app name) then
      emitError pb.UNKNOWN_EVENT
        "the event name is not registered by this application: declare it in Config.Events"
        eventID clientRef false a
    else if negb (vAdmitsID (view a) fragmentID) then rejectUnknownFragment eventID clientRef a
    else
      let ev := mkEvent eventID clientRef seen name fragmentID now (copyFields fields) [] in
      let '(ok, a) := authorize ev v a in
      if negb ok then a
      else
        let m := mkInbound msgEvent ev
                   (mkCausalOrigin pb.CLIENT_EVENT (ev_ID ev) (ev_ClientRef ev)
                      (SourceEventPrefix +:+ name) []) 0 0 0 0 in
        let '(posted, a) := post m a in
        if posted then a else saturated ev a.

Definition ingressResync (lastAppliedSeq : N) (v : verdict) (now : Time.t) (a : Actor) : Actor :=
  let a := a <| eventSeq ::= fun n => u64_add n 1 |> in
  let ev := mkEvent (eventSeq a) (eventSeq a) lastAppliedSeq ResyncEventName "" now [] [] in
  let '(ok, a) := authorize ev v a in
  if negb ok then a
  else
    let m := mkInbound msgResync ev
               (mkCausalOrigin pb.RESYNC (ev_ID ev) (ev_ClientRef ev) SourceResync [])
               lastAppliedSeq 0 0 0 in
    let '(posted, a) := post m a in
    if posted then a else saturated ev a.

(** A full channel drops the acknowledgement. *)
Definition ingressAck (seq : N) (a : Actor) : Actor :=
  if Z.of_nat (length (acks a)) <? AckChannelDepth lim then a <| acks ::= (.++ [seq]) |> else a.

Definition ingressTelemetry (patchID morphMicros applyMicros : N) (a : Actor) : Actor :=
  post_ (mkInbound msgTelemetry noEvent noOrigin 0 patchID morphMicros applyMicros) a.

Definition Ingress (i : IInbound) (v : verdict) (now : Time.t) (a : Actor) : Actor :=
  let a := a <| lastInboundNS := UnixNano now |> in
  match i with
  | InboundEvent _ clientRef name fragmentID seen fields =>
      ingressEvent clientRef name fragmentID seen fields v now
        (a <| lastEventNS := UnixNano now |>)
  | InboundResyncRequest _ lastAppliedSeq _ =>
      ingressResync lastAppliedSeq v now (a <| lastEventNS := UnixNano now |>)
  | InboundAck _ seq => ingressAck seq a
  | InboundClientTelemetry _ patchID morphMicros applyMicros =>
      ingressTelemetry patchID morphMicros applyMicros a
  | InboundHeartbeat _ => a
  end.

(** ** A session's life *)

(** [EvStep] and [EvAck] take what is first in the mailbox and in the acknowledgement
    channel; [EvEmit] and [EvDone] are the [k]-th running effect's. *)
Inductive event :=
| EvIngress (i : IInbound) (v : verdict)
| EvStep
| EvAck
| EvTick (t : Time.t)
| EvEmit (k : nat) (ev : Event)
| EvDone (k : nat) (o : outcome)
| EvClose (code : CloseCode).

Definition handle (e : event) (now : Time.t) (a : Actor) : Actor :=
  match e with
  | EvIngress i v => Ingress i v now a
  | EvStep =>
      match mailbox a with
      | [] => a
      | m :: ms => step m now (a <| mailbox := ms |>)
      end
  | EvAck =>
      match acks a with
      | [] => a
      | seq :: rest => onAck seq now (a <| acks := rest |>)
      end
  | EvTick t => onTick t now a
  | EvEmit k ev =>
      match running a !! k with
      | None => a
      | Some (source, scheduledBy) =>
          (guardedEmitter (fun ev a => emitter source scheduledBy ev now a) ev a).2
      end
  | EvDone k o =>
      match running a !! k with
      | None => a
      | Some (source, scheduledBy) =>
          runOne source scheduledBy o now (a <| running ::= delete k |>)
      end
  | EvClose code => CloseSession code a
  end.

(** The read pump waits for the mount. *)
Definition run (start : Time.t) (events : list (event * Time.t)) (a : Actor) : Actor :=
  foldl (fun a et => handle et.1 et.2 a) (mount start a) events.
End actor.
Arguments Actor : clear implicits.
