(* ===== verification/GotthTrace.v ===== *)
(** * gotth: what a session puts on the wire.

    A turn of the session leaves the sequenced frames alone ([quiet]) or adds exactly
    one ([advance]); the invariant [traced] is carried over a run by the two. *)
From Stdlib Require Import String NArith QArith Lia.
From stdpp Require Import base list gmap sets strings.
From S2P Require Import Prelude.
From S2P Require Import GotthProtocol.
From S2P Require Import GotthWindow.
From S2P Require Import GotthRender.
From S2P Require Import GotthSession.
Open Scope N_scope.

Create HintDb wire.

(** ** Observing frames *)

Definition valid (f : pb.Frame) : Prop := ValidateOutbound f = Ok tt.

(** The server sequence and patch identifier of a sequenced frame. *)
Definition seq_of (f : pb.Frame) : option (N * N) :=
  match pb.Payload f with
  | Some (pb.Frame_Patch p) => Some (pb.Patch_ServerSeq p, pb.Patch_PatchId p)
  | Some (pb.Frame_Snapshot s) => Some (pb.Snapshot_ServerSeq s, pb.Snapshot_PatchId s)
  | _ => None
  end.

(** The range a snapshot supersedes. *)
Definition superseded (f : pb.Frame) : option (N * N) :=
  match pb.Payload f with
  | Some (pb.Frame_Snapshot s) =>
      Some (pb.SupersededFromSeq s, pb.SupersededThroughSeq s)
  | _ => None
  end.

Definition row_of (tid sv pid seq : N) (o : pb.Origin) (us : list pb.FragmentUpdate)
  (sup : Supersession) : Provenance :=
  mkProvenance (pb.Origin_EventId o) (pb.Origin_ClientRef o) tid sv pid seq
    (pb.Origin_Kind o) (pb.Origin_Source o) (pb.Update_FragmentId <$> us)
    (pb.ContributingEventIds o) sup.

(** The provenance row that says what a frame says. *)
Definition row_of_frame (f : pb.Frame) : option Provenance :=
  match pb.Payload f with
  | Some (pb.Frame_Patch p) =>
      o ← pb.Patch_Origin p;
      Some (row_of (pb.Patch_TransitionId p) (pb.Patch_StateVersion p) (pb.Patch_PatchId p)
              (pb.Patch_ServerSeq p) o (pb.Patch_Updates p) noSupersession)
  | Some (pb.Frame_Snapshot s) =>
      o ← pb.Snapshot_Origin s;
      Some (row_of (pb.Snapshot_TransitionId s) (pb.Snapshot_StateVersion s)
              (pb.Snapshot_PatchId s) (pb.Snapshot_ServerSeq s) o (pb.Snapshot_Updates s)
              (mkSupersession (pb.SupersededFromSeq s) (pb.SupersededThroughSeq s)))
  | _ => None
  end.

Definition slot_of (f : pb.Frame) : slot unit :=
  let '(seq, pid) := default (0, 0) (seq_of f) in mkSlot seq pid tt.

Definition sequenced (f : pb.Frame) : Prop := is_Some (seq_of f).
#[export] Instance sequenced_dec f : Decision (sequenced f).
Proof. unfold sequenced. apply _. Defined.

(** A message's event and origin name the same interaction. *)
Definition coherent (m : inbound) : Prop :=
  match m_kind m with
  | msgTelemetry => True
  | _ => ev_ID (m_ev m) = EventID (m_origin m) /\ ev_ClientRef (m_ev m) = ClientRef (m_origin m)
  end.

Section trace.
Context {A V : Type} {anyA : GoAny A} {views : Views A V}.
Context (Marshal : pb.Frame -> option string) (app : App A) (session : string) (lim : Limits)
        (dev : bool).
Implicit Types (a : Actor A V).

Definition wire a : list pb.Frame := sent (fr a).
Definition frames a : list pb.Frame := filter sequenced (wire a).
Definition patch_rows a : list Provenance := filter (fun r => pr_ServerSeq r <> 0) (rows a).

(** Same window, except for what has been acknowledged. *)
Definition window_kept (w w' : window unit) : Prop :=
  slots w' = slots w /\ cap w' = cap w /\ highest w' = highest w
  /\ (acked w <= highest w -> acked w <= acked w' <= highest w).

(** The mailbox and the acknowledgement channel hold what they have room for. *)
Definition mail_ok a : Prop :=
  Forall coherent (mailbox a)
  /\ (Z.of_nat (length (mailbox a)) <= Z.max 0 (MailboxDepth lim))%Z
  /\ (Z.of_nat (length (acks a)) <= Z.max 0 (AckChannelDepth lim))%Z.

Record quiet a a' : Prop := {
  q_wire : wire a `prefix_of` wire a';
  q_valid : Forall valid (wire a) -> Forall valid (wire a');
  q_frames : frames a' = frames a;
  q_seq : serverSeq a' = serverSeq a;
  q_pid : patchID a' = patchID a;
  q_snap : lastSnapshotSeq a' = lastSnapshotSeq a;
  q_rows : patch_rows a' = patch_rows a;
  q_win : window_kept (win a) (win a');
  q_mail : mail_ok a -> mail_ok a';
}.

Record advance (f : pb.Frame) a a' : Prop := {
  v_wire : wire a `prefix_of` wire a';
  v_valid : Forall valid (wire a) -> Forall valid (wire a');
  v_frames : frames a' = frames a ++ [f];
  v_of : seq_of f = Some (serverSeq a', patchID a');
  v_seq : serverSeq a' = u64_add (serverSeq a) 1;
  v_pid : patchID a' = u64_add (patchID a) 1;
  v_snap : lastSnapshotSeq a' =
    match superseded f with Some _ => serverSeq a' | None => lastSnapshotSeq a end;
  v_range : match superseded f with
            | Some (from, through) =>
                from = 0 \/ u64_add (lastSnapshotSeq a) 1 <= from <= through
                            /\ through = serverSeq a
            | None => True
            end;
  v_rows : serverSeq a' <> 0 ->
    exists r, patch_rows a' = patch_rows a ++ [r] /\ row_of_frame f = Some r;
  v_win : exists w, window_kept (win a) w /\ window_kept (push (slot_of f) w) (win a');
  v_mail : mail_ok a -> mail_ok a';
}.

(** What one turn does. *)
Definition turned a a' : Prop := quiet a a' \/ exists f, advance f a a'.

Lemma window_kept_refl w : window_kept w w.
Proof. unfold window_kept. repeat split; lia. Qed.

Lemma window_kept_trans w1 w2 w3 : window_kept w1 w2 -> window_kept w2 w3 -> window_kept w1 w3.
Proof.
  intros (E1 & E2 & E3 & H1) (F1 & F2 & F3 & H2). rewrite E3 in *. unfold window_kept.
  rewrite F1, F2, F3. split; [done|]. split; [done|]. split; [done|]. lia.
Qed.

Lemma quiet_same a a' : wire a' = wire a -> serverSeq a' = serverSeq a ->
  patchID a' = patchID a -> lastSnapshotSeq a' = lastSnapshotSeq a -> rows a' = rows a ->
  win a' = win a -> mailbox a' = mailbox a -> acks a' = acks a -> quiet a a'.
Proof.
  intros E1 E2 E3 E4 E5 E6 E7 E8. constructor; unfold frames, patch_rows, mail_ok;
    rewrite ?E1, ?E2, ?E3, ?E4, ?E5, ?E6, ?E7, ?E8; done.
Qed.

Lemma quiet_refl a : quiet a a.
Proof. by apply quiet_same. Qed.

Lemma quiet_trans a1 a2 a3 : quiet a1 a2 -> quiet a2 a3 -> quiet a1 a3.
Proof.
  intros [] []. constructor; try congruence; [by etransitivity|auto|by eapply window_kept_trans|auto].
Qed.

Lemma quiet_advance f a1 a2 a3 : quiet a1 a2 -> advance f a2 a3 -> advance f a1 a3.
Proof.
  intros [] []. constructor; try congruence; auto.
  - by etransitivity.
  - destruct (superseded f); congruence.
  - by rewrite <- q_snap0, <- q_seq0.
  - by rewrite <- q_rows0.
  - destruct v_win0 as (w & H1 & H2). exists w. split; [by eapply window_kept_trans|done].
Qed.

Lemma advance_quiet f a1 a2 a3 : advance f a1 a2 -> quiet a2 a3 -> advance f a1 a3.
Proof.
  intros [] []. constructor; try congruence; auto.
  - by etransitivity.
  - destruct (superseded f); congruence.
  - rewrite q_seq0, q_rows0. done.
  - destruct v_win0 as (w & H1 & H2). exists w. split; [done|by eapply window_kept_trans].
Qed.

Lemma quiet_turned a1 a2 a3 : quiet a1 a2 -> turned a2 a3 -> turned a1 a3.
Proof.
  intros Hq [Ht|[f Ht]]; [left; by eapply quiet_trans|right; exists f; by eapply quiet_advance].
Qed.

Lemma turned_quiet a1 a2 a3 : turned a1 a2 -> quiet a2 a3 -> turned a1 a3.
Proof.
  intros [Ht|[f Ht]] Hq; [left; by eapply quiet_trans|right; exists f; by eapply advance_quiet].
Qed.

(** ** Quiet operations *)

Lemma Send_wire r f : let '(r', e) := Send Marshal r f in
  match e with
  | Ok _ => sent r' = sent r ++ [f] /\ valid f
  | Err _ => sent r' = sent r
  end.
Proof.
  unfold Send, Encode. destruct (ValidateOutbound f) as [[]|] eqn:Ev; [|done].
  destruct (Marshal f) as [b|]; [|done]. unfold Write. cbn.
  destruct (len b =? 0); [done|]. by destruct (writes r) as [|[] ws].
Qed.

(** Writing a frame that carries no sequence number. *)
Lemma quiet_send f a : seq_of f = None -> quiet a (a <| fr := (Send Marshal (fr a) f).1 |>).
Proof.
  intros Hf. pose proof (Send_wire (fr a) f) as Hw.
  destruct (Send Marshal (fr a) f) as [r' [n|e]]; cbn.
  - destruct Hw as [Hw Hv]. constructor; unfold frames, wire; cbn; rewrite ?Hw;
      try done; try apply window_kept_refl; [by apply prefix_app_r| |].
    + intros Hl. apply Forall_app. split; [done|by constructor].
    + rewrite filter_app, filter_cons_False, filter_nil, app_nil_r; [done|].
      unfold sequenced. rewrite Hf. by intros [].
  - apply quiet_same; done.
Qed.

Lemma quiet_emitError code msg e c fatal a :
  quiet a (emitError Marshal session code msg e c fatal a).
Proof. by apply quiet_send. Qed.

Lemma quiet_Close code a : quiet a (CloseSession code a).
Proof. unfold CloseSession. destruct (closing a); by apply quiet_same. Qed.

Lemma quiet_notePanic site a : quiet a (notePanic lim site a).
Proof.
  unfold notePanic. set (a1 := a <| panics ::= _ |>).
  assert (quiet a a1) by by apply quiet_same.
  destruct (_ <=? _)%Z; [|done]. eapply quiet_trans; [done|apply quiet_Close].
Qed.

Lemma quiet_foldl {B} (g : Actor A V -> B -> Actor A V) l a :
  (forall a x, quiet a (g a x)) -> quiet a (foldl g a l).
Proof.
  intros Hg. revert a. induction l as [|x l IH]; intros a; [apply quiet_refl|].
  cbn. eapply quiet_trans; [apply Hg|apply IH].
Qed.

Lemma quiet_failures fs e c a : quiet a (noteRenderFailures Marshal session lim dev fs e c a).
Proof.
  unfold noteRenderFailures. destruct fs as [|f fs]; [apply quiet_refl|].
  eapply quiet_trans; [apply quiet_emitError|].
  apply quiet_foldl. intros. apply quiet_notePanic.
Qed.

Lemma quiet_row o ev sup a : quiet a (provenance o ev [] 0 0 sup a).
Proof.
  constructor; cbn; try done; try apply window_kept_refl.
  unfold patch_rows. cbn. rewrite filter_app, filter_cons_False, filter_nil, app_nil_r; [done|].
  cbn. by intros [].
Qed.

Lemma quiet_post m a : coherent m -> quiet a (post lim m a).2.
Proof.
  intros Hm. unfold post. destruct (Z.ltb_spec (Z.of_nat (length (mailbox a))) (MailboxDepth lim));
    [|apply quiet_refl].
  constructor; cbn; try done; try apply window_kept_refl.
  intros (Hl & Hn & Ha). unfold mail_ok. cbn. split; [|split; [|done]].
  - apply Forall_app. split; [done|by constructor].
  - rewrite length_app. cbn [length]. lia.
Qed.

Lemma quiet_defer o a : quiet a (deferPatch o a).
Proof.
  unfold deferPatch. destruct (pendingOrig a) as [prev|]; [|by apply quiet_same].
  destruct (EventID prev =? 0); by apply quiet_same.
Qed.

Lemma quiet_noteFull now a : quiet a (noteFull now a).
Proof.
  constructor; try done. unfold noteFull, noteFullness. cbn.
  destruct (full (win a)), (Time.IsZero (fullSince (win a))); cbn;
    unfold window_kept; cbn; repeat split; try done; lia.
Qed.

Lemma quiet_synthesize source now a : quiet a (synthesize lim source now a).
Proof. by apply quiet_post. Qed.

Lemma quiet_coalesce o now a : quiet a (enterCoalesce o now a).
Proof.
  unfold enterCoalesce. eapply quiet_trans; [apply quiet_defer|].
  eapply quiet_trans; [|apply quiet_noteFull].
  destruct (coalesceNotified (deferPatch o a)); [apply quiet_refl|by apply quiet_same].
Qed.

Lemma quiet_degrade o now a : quiet a (degrade lim o now a).
Proof.
  unfold degrade. eapply quiet_trans; [apply quiet_defer|].
  eapply quiet_trans; [|apply quiet_noteFull].
  destruct (slowNotified (deferPatch o a)); [apply quiet_refl|].
  eapply quiet_trans; [|apply quiet_synthesize]. by apply quiet_same.
Qed.

Lemma quiet_redefer o ids a : quiet a (redefer o ids a).
Proof. unfold redefer. eapply quiet_trans; [|apply quiet_defer]. by apply quiet_same. Qed.

Lemma quiet_take o a : quiet a (takePending o a).2.
Proof. unfold takePending. cbn. destruct (pendingOrig a); by apply quiet_same. Qed.

Lemma quiet_render all a : quiet a (renderPass all a).1.
Proof.
  unfold renderPass. destruct all.
  { destruct (vRenderAll _ _). by apply quiet_same. }
  destruct (vRender _ _) as [v res]. destruct (_ <? _); [|by apply quiet_same].
  destruct (vRenderAll _ _). by apply quiet_same.
Qed.

Lemma quiet_emitFailure s d r by_ now a : quiet a (emitFailure lim s d r by_ now a).
Proof. unfold emitFailure. destruct (closing a); [apply quiet_refl|by apply quiet_post]. Qed.

Lemma quiet_effects es by_ now a : quiet a (runEffects lim es by_ now a).
Proof.
  apply quiet_foldl. intros b e. destruct (decide _); [apply quiet_refl|].
  unfold execute. destruct (negb (ValidOriginSource _)); [apply quiet_emitFailure|].
  destruct (negb (e_Run e)); [apply quiet_emitFailure|by apply quiet_same].
Qed.
#[local] Hint Resolve quiet_refl quiet_emitError quiet_Close quiet_notePanic quiet_failures
  quiet_row quiet_defer quiet_noteFull quiet_synthesize quiet_coalesce quiet_degrade
  quiet_redefer quiet_take quiet_render quiet_emitFailure quiet_effects : wire.

(** [a] and then something quiet. *)
Ltac quietly := first [solve [eauto with wire] | eapply quiet_trans; [|solve [eauto with wire]]].

(** ** The two writes that advance the sequence *)

Lemma send_wire f c a :
  let '(ok, a') := send Marshal session f c a in
  if ok then a' = a <| fr := fr a' |> <| serverSeq := ServerSeq c |> <| patchID := PatchID c |>
             /\ wire a' = wire a ++ [f] /\ valid f
  else seq_of f <> None -> quiet a a'.
Proof.
  unfold send. pose proof (Send_wire (fr a) f) as Hw.
  destruct (Send Marshal (fr a) f) as [r' [n|[k e|]]]; [done| |]; intros _.
  - eapply quiet_trans; [|apply quiet_emitError]. by apply quiet_same.
  - eapply quiet_trans; [|apply quiet_Close]. by apply quiet_same.
Qed.

Lemma send_advances f c a a' b r : send Marshal session f c a = (true, a') -> c = nextCausal a ->
  seq_of f = Some (ServerSeq c, PatchID c) -> row_of_frame f = Some r ->
  pr_ServerSeq r = ServerSeq c ->
  match superseded f with
  | Some (from, through) =>
      lastSnapshotSeq b = ServerSeq c
      /\ (from = 0 \/ u64_add (lastSnapshotSeq a) 1 <= from <= through /\ through = serverSeq a)
  | None => lastSnapshotSeq b = lastSnapshotSeq a
  end ->
  wire b = wire a' -> serverSeq b = serverSeq a' -> patchID b = patchID a' ->
  win b = push (mkSlot (ServerSeq c) (PatchID c) tt) (win a') -> mailbox b = mailbox a' ->
  acks b = acks a' -> rows b = rows a' ++ [r] -> advance f a b.
Proof.
  intros Es Hc Hf Hr Hrs Hsup E1 E2 E3 E4 E5 E7 E6. pose proof (send_wire f c a) as Hs.
  rewrite Es in Hs. destruct Hs as (Ea & Hw & Hv).
  assert (serverSeq a' = ServerSeq c /\ patchID a' = PatchID c /\ win a' = win a
          /\ mailbox a' = mailbox a /\ rows a' = rows a /\ acks a' = acks a)
    as (F1 & F2 & F3 & F4 & F5 & F6)
    by by rewrite Ea.
  assert (sequenced f) as Hseq by by (exists (ServerSeq c, PatchID c)).
  constructor; unfold frames, mail_ok;
    rewrite ?E1, ?E2, ?E3, ?E4, ?E5, ?E7, ?F1, ?F2, ?F3, ?F4, ?F6, ?Hw.
  - by apply prefix_app_r.
  - intros. apply Forall_app. split; [done|by constructor].
  - rewrite filter_app, filter_cons_True, filter_nil by done. done.
  - done.
  - by rewrite Hc.
  - by rewrite Hc.
  - destruct (superseded f) as [[]|]; [apply Hsup|done].
  - destruct (superseded f) as [[]|]; [apply Hsup|done].
  - intros Hne. exists r. split; [|done]. unfold patch_rows. rewrite E6, F5, filter_app.
    f_equal. rewrite filter_cons_True, filter_nil; [done|]. by rewrite Hrs.
  - exists (win a). split; [apply window_kept_refl|]. unfold slot_of. rewrite Hf.
    apply window_kept_refl.
  - done.
Qed.

Lemma wire_ids us : pb.Update_FragmentId <$> updateProtos (toWireUpdates us) = fragmentIDs us.
Proof. unfold updateProtos, toWireUpdates, fragmentIDs. by rewrite <- !list_fmap_compose. Qed.

(** The row a turn writes for an event, its origin and a frame. *)
Definition emitted_row (o : CausalOrigin) (ev : Event) (c : Causal) (us : list RUpdate)
  (sup : Supersession) : Provenance :=
  mkProvenance (ev_ID ev) (ev_ClientRef ev) (TransitionID c) (StateVersion c) (PatchID c)
    (ServerSeq c) (o_Kind o) (Source o) (fragmentIDs us) (Contributing o) sup.

Lemma patch_row c o us ev : ev_ID ev = EventID o -> ev_ClientRef ev = ClientRef o ->
  row_of_frame (NewPatch session c o (toWireUpdates us))
  = Some (emitted_row o ev c us noSupersession).
Proof. intros Hid Href. unfold emitted_row. rewrite Hid, Href, <- wire_ids. done. Qed.

Lemma snapshot_row c o p sup us ev : ev_ID ev = EventID o -> ev_ClientRef ev = ClientRef o ->
  row_of_frame (NewSnapshot session c o p sup (toWireUpdates us))
  = Some (emitted_row o ev c us sup).
Proof.
  intros Hid Href. unfold emitted_row. rewrite Hid, Href, <- wire_ids. by destruct sup.
Qed.

Lemma turned_emission o ev a : ev_ID ev = EventID o -> ev_ClientRef ev = ClientRef o ->
  turned a (emission Marshal session lim dev o ev a).
Proof.
  intros Hid Href. unfold emission.
  eapply quiet_turned; [by apply (quiet_same a (a <| coalesceHeld := false |>))|].
  generalize (a <| coalesceHeld := false |>) as a1. intros a1.
  pose proof (quiet_take o a1) as H1. destruct (takePending o a1) as [contributing a2].
  eapply quiet_turned; [exact H1|]. clear a H1.
  pose proof (quiet_render false a2) as H1. destruct (renderPass false a2) as [a3 res].
  eapply quiet_turned; [exact H1|]. clear a1 a2 H1.
  eapply turned_quiet; [|apply quiet_failures].
  destruct (Updates res) as [|u us].
  { left. eapply quiet_trans; [apply quiet_redefer|apply quiet_row]. }
  set (o' := o <| Contributing := _ |>).
  match goal with |- context [send _ _ ?f ?c _] => set (frame := f) end.
  pose proof (send_wire frame (nextCausal a3) a3) as Hs.
  destruct (send _ _ frame (nextCausal a3) a3) as [[|] a4] eqn:Es; cbn [negb].
  - destruct Hs as (E4 & _). right. exists frame.
    eapply (send_advances _ _ _ _ _ (emitted_row o' ev (nextCausal a3) (u :: us) _) Es);
      try done; [by apply patch_row|by rewrite E4..].
  - left. eapply quiet_trans; [by apply Hs|]. eapply quiet_trans; [|apply quiet_redefer].
    by apply quiet_same.
Qed.

Lemma turned_emitPatch o ev forced now a : ev_ID ev = EventID o -> ev_ClientRef ev = ClientRef o ->
  turned a (emitPatch Marshal session lim dev o ev forced now a).
Proof.
  intros Hid Href. unfold emitPatch. destruct (unionReaches _ _ _); [by apply turned_emission|].
  destruct (full (win a)).
  { left. eapply quiet_trans; [apply quiet_degrade|apply quiet_row]. }
  destruct (_ && _ && _); [|by apply turned_emission].
  left. eapply quiet_trans; [|apply quiet_row]. eapply quiet_trans; [|apply quiet_coalesce].
  by apply quiet_same.
Qed.

(** A snapshot's range is none, or starts past the last snapshot and ends at the last
    frame. *)
Definition in_order (sup : Supersession) a : Prop :=
  FromSeq sup = 0
  \/ u64_add (lastSnapshotSeq a) 1 <= FromSeq sup <= ThroughSeq sup
     /\ ThroughSeq sup = serverSeq a.

Lemma fr_render all a : fr (renderPass all a).1 = fr a.
Proof.
  unfold renderPass. destruct all; [by destruct (vRenderAll _ _)|].
  destruct (vRender _ _) as [v res]. destruct (_ <? _); [|done]. by destruct (vRenderAll _ _).
Qed.

Lemma fr_take o a : fr (takePending o a).2 = fr a.
Proof. unfold takePending. cbn. by destruct (pendingOrig a). Qed.

Lemma turned_emitSnapshot o sup a : in_order sup a ->
  let '(ok, a') := emitSnapshot Marshal session lim dev o sup (EventID o) a in
  turned a a'
  /\ (ok = true -> exists f l, advance f a a' /\ is_Some (superseded f)
                               /\ wire a' = wire a ++ f :: l).
Proof.
  intros Hsup. unfold emitSnapshot.
  pose proof (quiet_render true a) as H1. pose proof (fr_render true a) as W1.
  destruct (renderPass true a) as [a1 res].
  pose proof (quiet_take o a1) as H2. pose proof (fr_take o a1) as W2.
  destruct (takePending o a1) as [contributing a2]. cbn [fst snd] in *.
  set (o' := o <| Contributing := _ |>).
  match goal with |- context [send _ _ ?f ?c _] => set (frame := f) end.
  assert (quiet a a2) as H12 by by eapply quiet_trans.
  assert (wire a2 = wire a) as Hw0 by (unfold wire; by rewrite W2, W1).
  clear a1 H1 H2 W1 W2. pose proof (send_wire frame (nextCausal a2) a2) as Hs.
  destruct (send _ _ frame (nextCausal a2) a2) as [[|] a3] eqn:Es; cbn [negb].
  - destruct Hs as (E4 & Hw & _).
    match goal with |- context [noteRenderFailures _ _ _ _ _ _ _ ?x] => set (b := x) end.
    assert (advance frame a2 b) as Hadv.
    { set (ev := noEvent <| ev_ID := EventID o |> <| ev_ClientRef := ClientRef o' |>) in *.
      eapply (send_advances _ _ _ _ _ (emitted_row o' ev (nextCausal a2) (Updates res) sup) Es);
        try done; [apply snapshot_row; reflexivity| |by subst b; cbn; rewrite E4].
      cbn. split; [done|]. destruct H12. rewrite q_snap0, q_seq0. exact Hsup. }
    pose proof (quiet_failures (Failed res) (EventID o) (ClientRef o') b) as Hq.
    eapply quiet_advance in Hadv; [|exact H12].
    eapply advance_quiet in Hadv; [|exact Hq].
    split; [right; by exists frame|]. intros _.
    destruct (q_wire _ _ Hq) as [l Hl]. exists frame, l. split; [done|]. split; [done|].
    rewrite Hl. change (wire b) with (wire a3). rewrite Hw, Hw0. by rewrite <- app_assoc.
  - split; [|done]. left. eapply quiet_trans; [exact H12|].
    eapply quiet_trans; [by apply Hs|]. eapply quiet_trans; [|apply quiet_failures].
    eapply quiet_trans; [|apply quiet_redefer]. by apply quiet_same.
Qed.

(** ** A turn *)

Lemma turned_transition m now a : ev_ID (m_ev m) = EventID (m_origin m) ->
  ev_ClientRef (m_ev m) = ClientRef (m_origin m) ->
  turned a (transition Marshal app session lim dev (m_ev m) (m_origin m) now a).
Proof.
  intros Hid Href. unfold transition. destruct (_ <? _); [left; apply quiet_emitError|].
  destruct (_ && _); [left; apply quiet_emitError|].
  eapply quiet_turned; [by apply (quiet_same a (a <| transitionID ::= fun n => u64_add n 1 |>))|].
  generalize (a <| transitionID ::= fun n => u64_add n 1 |>) as a1. intros a1.
  destruct (Reduce app _ _) as [next effects|value stack].
  - destruct (vMark _ _ _) as [v failures].
    eapply turned_quiet; [|apply quiet_failures].
    eapply turned_quiet; [|apply quiet_effects].
    eapply quiet_turned; [|by apply turned_emitPatch].
    destruct (negb _); by apply quiet_same.
  - left. eapply quiet_trans; [apply quiet_emitError|].
    eapply quiet_trans; [apply quiet_notePanic|apply quiet_row].
Qed.

Lemma turned_resync m now a : serverSeq a <= max_uint64 ->
  turned a (resync Marshal session lim dev m now a).
Proof.
  intros Hmax. unfold resync. destruct (allow _ _) as [ok b].
  eapply quiet_turned; [by apply (quiet_same a (a <| resyncBucket := b |>))|].
  change (serverSeq a) with (serverSeq (a <| resyncBucket := b |>)) in Hmax.
  revert Hmax. generalize (a <| resyncBucket := b |>) as a1. clear a. intros a Hmax.
  destruct ok; cbn [negb].
  - set (a1 := a <| resyncDenied := 0%Z |>).
    eapply quiet_turned; [by apply (quiet_same a a1)|].
    assert (serverSeq a1 <= max_uint64) as Hmax1 by done. clearbody a1. clear Hmax a.
    set (acked_floor := if _ <? _ then _ else _). set (n := N.max _ _).
    assert (lastSnapshotSeq a1 <= n) by (subst n; lia).
    clearbody n. clear acked_floor.
    destruct (N.leb_spec (serverSeq a1) n) as [Hle|Hlt]; [left; by apply quiet_send|].
    set (a2 := a1 <| transitionID ::= fun n => u64_add n 1 |>).
    eapply quiet_turned; [by apply (quiet_same a1 a2)|].
    match goal with |- turned _ (emitSnapshot _ _ _ _ ?o ?s _ ?x).2 =>
      pose proof (turned_emitSnapshot o s x) as Hs end. cbn [EventID] in Hs.
    destruct (emitSnapshot _ _ _ _ _ _ _ _) as [ok a']. apply Hs.
    right. cbn. rewrite !u64_add_no_overflow; lia.
  - left. cbn. destruct (_ <=? _)%Z.
    + eapply quiet_trans; [|apply quiet_Close]. eapply quiet_trans; [|apply quiet_emitError].
      by apply quiet_same.
    + eapply quiet_trans; [|apply quiet_emitError]. by apply quiet_same.
Qed.

Lemma turned_step m now a : coherent m -> serverSeq a <= max_uint64 ->
  turned a (step Marshal app session lim dev m now a).
Proof.
  intros Hm Hmax. unfold coherent, step in *.
  destruct (m_kind m); try (by apply turned_transition; apply Hm); [by apply turned_resync|].
  left. apply quiet_refl.
Qed.

Lemma turned_flush now a : turned a (flushPending Marshal session lim dev now a).
Proof. by apply turned_emitPatch. Qed.

Lemma turned_onAck seq now a : turned a (onAck Marshal session lim dev seq now a).
Proof.
  unfold onAck. destruct (ack seq (win a)) as [w|e] eqn:Ew; [|left; apply quiet_Close].
  assert (quiet a (a <| win := w |>)) as Hq.
  { constructor; try done. cbn. unfold ack in Ew.
    destruct (N.ltb_spec (highest (win a)) seq) as [|Hseq]; [done|].
    destruct (N.ltb_spec seq (acked (win a))); [done|].
    injection Ew as <-. unfold window_kept. cbn. repeat split; try done; lia. }
  eapply quiet_turned; [exact Hq|]. eapply quiet_turned; [apply (quiet_noteFull now)|].
  match goal with |- context [noteFull now ?x] => generalize (noteFull now x) end. intros b.
  set (b1 := if coalescing (win b) then b else _).
  assert (quiet b b1) as Hq1 by (subst b1; destruct (coalescing (win b)); by apply quiet_same).
  eapply quiet_turned; [exact Hq1|]. clearbody b1.
  destruct (_ || _); [left; apply quiet_refl|]. eapply quiet_turned; [|apply turned_flush].
  destruct (slowNotified b1); [|apply quiet_refl].
  eapply quiet_trans; [|apply quiet_synthesize]. by apply quiet_same.
Qed.

Lemma turned_onTick t now a : turned a (onTick Marshal session lim dev t now a).
Proof.
  unfold onTick. generalize (if Time.IsZero t then now else t) as n. intros n.
  destruct (_ <? _)%Z; [left; apply quiet_Close|].
  destruct (_ <? _)%Z; [left; apply quiet_Close|].
  destruct (noteFullness n (win a)) as [since w] eqn:En.
  assert (a <| win := w |> = noteFull n a) as -> by (unfold noteFull; by rewrite En).
  eapply quiet_turned; [apply (quiet_noteFull n)|].
  generalize (noteFull n a) as b. intros b.
  destruct (_ && _); [left; apply quiet_Close|].
  set (b1 := if vPending (view b) && _ then _ else _).
  assert (turned b b1) as Ht.
  { subst b1. destruct (_ && _); [apply turned_flush|left; apply quiet_refl]. }
  eapply turned_quiet; [exact Ht|]. clearbody b1.
  set (b2 := b1 <| hbNonce ::= fun n => u64_add n 1 |>).
  eapply quiet_trans; [by apply (quiet_same b1 b2)|]. clearbody b2.
  match goal with |- context [Send _ _ ?f] => pose proof (quiet_send f b2 eq_refl) as Hq end.
  destruct (Send _ _ _) as [r' [|]]; [exact Hq|].
  eapply quiet_trans; [exact Hq|apply quiet_Close].
Qed.

Lemma quiet_authorize ev v a : quiet a (authorize Marshal session ev v a).2.
Proof.
  destruct v; cbn; [apply quiet_refl|apply quiet_emitError|].
  eapply quiet_trans; [apply quiet_emitError|apply quiet_Close].
Qed.

(** Posting a message, or saying that the session is saturated. *)
Lemma quiet_post_or m ev a : coherent m ->
  quiet a (let '(posted, a) := post lim m a in if posted then a else saturated Marshal session ev a).
Proof.
  intros Hm. pose proof (quiet_post m a Hm) as Hq. destruct (post lim m a) as [[|] a']; [done|].
  eapply quiet_trans; [exact Hq|apply quiet_emitError].
Qed.

Lemma quiet_event clientRef name frag seen fields v now a :
  quiet a (ingressEvent Marshal app session lim clientRef name frag seen fields v now a).
Proof.
  unfold ingressEvent.
  set (a1 := a <| eventSeq ::= fun n => u64_add n 1 |>).
  eapply quiet_trans; [by apply (quiet_same a a1)|]. clearbody a1. clear a.
  destruct (allow _ _) as [ok b]. set (a2 := a1 <| eventBucket := b |>).
  eapply quiet_trans; [by apply (quiet_same a1 a2)|].
  change (eventSeq a1) with (eventSeq a2). clearbody a2. clear a1.
  destruct ok; cbn [negb].
  - set (a3 := a2 <| eventDenied := 0%Z |>).
    eapply quiet_trans; [by apply (quiet_same a2 a3)|].
    change (eventSeq a2) with (eventSeq a3). clearbody a3. clear a2.
    destruct (negb _); [apply quiet_emitError|].
    destruct (negb _); [apply quiet_emitError|].
    set (ev := mkEvent _ _ _ _ _ _ _ _).
    pose proof (quiet_authorize ev v a3) as Hq.
    destruct (authorize _ _ ev v a3) as [[|] a4]; [|exact Hq].
    eapply quiet_trans; [exact Hq|]. by apply quiet_post_or.
  - set (a3 := a2 <| eventDenied ::= Z.add 1 |>).
    eapply quiet_trans; [by apply (quiet_same a2 a3)|].
    destruct (_ <=? _)%Z; [|apply quiet_emitError].
    eapply quiet_trans; [apply quiet_emitError|apply quiet_Close].
Qed.

Lemma quiet_resync n v now a : quiet a (ingressResync Marshal session lim n v now a).
Proof.
  unfold ingressResync. set (a1 := a <| eventSeq ::= fun n => u64_add n 1 |>).
  eapply quiet_trans; [by apply (quiet_same a a1)|].
  set (ev := mkEvent _ _ _ _ _ _ _ _). pose proof (quiet_authorize ev v a1) as Hq.
  destruct (authorize _ _ ev v a1) as [[|] a2]; [|exact Hq].
  eapply quiet_trans; [exact Hq|]. by apply quiet_post_or.
Qed.

Lemma quiet_Ingress i v now a : quiet a (Ingress Marshal app session lim i v now a).
Proof.
  unfold Ingress. set (a1 := a <| lastInboundNS := _ |>).
  eapply quiet_trans; [by apply (quiet_same a a1)|]. clearbody a1. clear a. rename a1 into a.
  destruct i as [? ? ? ? ? ?|? seq|?|? p mo ap|? n ?].
  - eapply quiet_trans; [|apply quiet_event]. by apply quiet_same.
  - unfold ingressAck. destruct (Z.ltb_spec (Z.of_nat (length (acks a))) (AckChannelDepth lim));
      [|apply quiet_refl].
    constructor; cbn; try done; try apply window_kept_refl.
    intros (Hl & Hn & Ha). split; [done|split; [done|]]. cbn. rewrite length_app. cbn [length]. lia.
  - apply quiet_refl.
  - by apply quiet_post.
  - eapply quiet_trans; [|apply quiet_resync]. by apply quiet_same.
Qed.

Lemma quiet_emitter source by_ ev now a : quiet a (emitter lim source by_ ev now a).2.
Proof.
  unfold emitter. destruct (closing a); [apply quiet_refl|].
  match goal with |- context [post _ ?m a] => pose proof (quiet_post m a) as Hq end.
  destruct (post _ _ a) as [posted a']. by apply Hq.
Qed.

Lemma turned_handle e now a : mail_ok a -> serverSeq a <= max_uint64 ->
  turned a (handle Marshal app session lim dev e now a).
Proof.
  intros Hm Hmax. destruct e as [i v| | |t|k ev|k o|code]; cbn.
  - left. apply quiet_Ingress.
  - destruct (mailbox a) as [|m ms] eqn:E; [left; apply quiet_refl|].
    destruct Hm as (Hm & Hn & Ha). rewrite E in Hm, Hn. apply Forall_cons in Hm as [Hm Hms].
    eapply quiet_turned; [|by apply turned_step].
    constructor; try done; try apply window_kept_refl.
    intros _. split; [done|split; [|done]]. cbn [length mailbox] in *. lia.
  - destruct (acks a) as [|seq rest] eqn:E; [left; apply quiet_refl|].
    eapply quiet_turned; [|apply turned_onAck].
    constructor; try done; try apply window_kept_refl.
    intros (Hl & Hn & Ha). rewrite E in Ha. split; [done|split; [done|]].
    cbn [length acks] in *. lia.
  - apply turned_onTick.
  - left. destruct (running a !! k) as [[source by_]|]; [|apply quiet_refl].
    unfold guardedEmitter. repeat (destruct (_ : bool); [apply quiet_refl|]).
    apply quiet_emitter.
  - left. destruct (running a !! k) as [[source by_]|]; [|apply quiet_refl].
    set (a1 := a <| running ::= delete k |>).
    eapply quiet_trans; [by apply (quiet_same a a1)|].
    destruct o; cbn; try apply quiet_refl; apply quiet_emitFailure.
  - left. apply quiet_Close.
Qed.
End trace.
