(* ===== verification/GotthDemo.v ===== *)
(** * gotth: a session of a counter, for the theorems to be tried on. *)
From Stdlib Require Import String NArith QArith.
From stdpp Require Import base list gmap strings pretty.
From S2P Require Import Prelude.
From S2P Require Import GotthProtocol.
From S2P Require Import GotthWindow.
From S2P Require Import GotthRender.
From S2P Require Import GotthFresh.
From S2P Require Import GotthSession.
Open Scope N_scope.

(** A state that is a number is never nil and compares by value. *)
#[export] Instance GoAny_N : GoAny N := {
  nil_any := 0; is_nil := fun _ => false; same_type := fun _ _ => true; equal_any := N.eqb }.

(** "inc" counts, "watch" starts an effect and everything else changes nothing. *)
Definition counter_app : App N :=
  {| Init := Some (0, []);
     Reduce := fun s ev =>
       if decide (ev_Name ev = "inc"%string) then Reduced (s + 1) []
       else if decide (ev_Name ev = "watch"%string) then Reduced s [mkEffect "watch" true]
       else if decide (ev_Name ev = "boom"%string) then ReducePanicked "boom" ""
       else Reduced s [];
     Registered := fun name => bool_decide (name ∈ ["inc"; "noop"; "watch"; "boom"]%string);
     StateComparable := true |}.

Definition demo_session : string := "0123456789abcdef".
#[export] Instance demo_views : Views N (Renderer N) := Renderer_Views code.
Definition demo_view : Renderer N := NewRenderer counter_registry.
Definition demo_marshal (f : pb.Frame) : option string := Some "frame"%string.
Definition demo_base : inboundBase :=
  mkBase (pb.mkFrame Version demo_session None) KindUnknown demo_session.

Definition demo (writes : list bool) (events : list (event * Time.t)) : Actor N (Renderer N) :=
  run demo_marshal counter_app demo_session DefaultLimits false (1000 * Time.Second)%Z events
    (New DefaultLimits demo_view writes (1000 * Time.Second)%Z).

(** A client's event, resync or acknowledgement, and the turn that takes it. *)
Definition clicks (name : string) (seen : N) (now : Time.t) : list (event * Time.t) :=
  [(EvIngress (InboundEvent demo_base 1 name "counter" seen []) Allow, now); (EvStep, now)].
Definition asks (last : N) (now : Time.t) : list (event * Time.t) :=
  [(EvIngress (InboundResyncRequest demo_base last 1) Allow, now); (EvStep, now)].
Definition acks_ (n : N) (now : Time.t) : list (event * Time.t) :=
  [(EvIngress (InboundAck demo_base n) Allow, now); (EvAck, now)].

(** A session that loses a write, skips a turn and resyncs twice from a stale cursor. *)
Definition demo_events : list (event * Time.t) :=
  let at_ n := ((1000 + n) * Time.Second)%Z in
  clicks "inc" 1 (at_ 1%Z) ++ clicks "noop" 1 (at_ 2%Z) ++ clicks "inc" 1 (at_ 3%Z)
  ++ asks 1 (at_ 4%Z) ++ clicks "boom" 1 (at_ 5%Z) ++ clicks "inc" 2 (at_ 6%Z)
  ++ asks 1 (at_ 7%Z) ++ acks_ 3 (at_ 8%Z) ++ [(EvTick (at_ 9%Z), at_ 9%Z)].

(** An effect that names sixty-four events in each of seventeen emissions none of which
    changes the page, and a click that does. *)
Definition flood : list (event * Time.t) :=
  let at_ n := ((1001 + n) * Time.Second)%Z in
  clicks "watch" 1 (at_ 1%Z)
  ++ concat ((fun k => [(EvEmit 0%nat (mkEvent 0 0 0 "noop" "" 0%Z []
                          ((fun i => N.of_nat (100 + 64 * k + i)) <$> seq 0 64)), at_ 2%Z);
                        (EvStep, at_ 2%Z)]) <$> seq 0 17)
  ++ clicks "inc" 1 (at_ 3%Z).
