(* ===== verification/GotthAudit.v ===== *)
(** * gotth: the audits a session's wire and provenance stream pass.

    [traced] is the invariant of a run of the session; the theorems read it off. *)
From Stdlib Require Import String NArith QArith Lia.
From stdpp Require Import base list gmap sets strings.
From S2P Require Import Prelude.
From S2P Require Import GotthProtocol.
From S2P Require Import GotthWindow.
From S2P Require Import GotthRender.
From S2P Require Import GotthSession.
From S2P Require Import GotthTrace.
From S2P Require Import GotthDemo.
Open Scope N_scope.

Section audit.
Context {A V : Type} {anyA : GoAny A} {views : Views A V}.
Context (Marshal : pb.Frame -> option string) (app : App A) (session : string) (lim : Limits)
        (dev : bool).
Implicit Types (a : Actor A V).

Record traced a : Prop := {
  t_valid : Forall valid (wire a);
  t_num : forall i f, frames a !! i = Some f ->
    seq_of f = Some (N.of_nat i + 1, N.of_nat i + 1);
  t_seq : serverSeq a = N.of_nat (length (frames a));
  t_pid : patchID a = serverSeq a;
  t_last : lastSnapshotSeq a <= serverSeq a;
  t_snap : forall i f, frames a !! i = Some f -> is_Some (superseded f) ->
    N.of_nat i + 1 <= lastSnapshotSeq a;
  t_range : forall i f from through, frames a !! i = Some f ->
    superseded f = Some (from, through) -> from <> 0 ->
    from <= through /\ through = N.of_nat i
    /\ forall j g, (j < i)%nat -> frames a !! j = Some g -> is_Some (superseded g) ->
       N.of_nat j + 1 < from;
  t_rows : patch_rows a = omap row_of_frame (frames a);
  t_win : retains (win a) (slot_of <$> frames a);
  t_ack : acked (win a) <= highest (win a);
  t_mail : mail_ok lim a;
}.

Lemma kept_retains w w' sent : window_kept w w' -> retains w sent -> retains w' sent.
Proof. intros (E1 & E2 & E3 & _). unfold retains. by rewrite E1, E2, E3. Qed.

Lemma kept_acked w w' : window_kept w w' -> acked w <= highest w -> acked w' <= highest w'.
Proof. intros (_ & _ & E3 & Ha) Hle. rewrite E3. by apply Ha. Qed.

Lemma traced_quiet a a' : traced a -> quiet lim a a' -> traced a'.
Proof.
  intros [] []. constructor; rewrite ?q_frames, ?q_seq, ?q_pid, ?q_snap, ?q_rows; auto.
  - by eapply kept_retains.
  - by eapply kept_acked.
Qed.

Lemma traced_advance f a a' : traced a -> serverSeq a < max_uint64 -> advance lim f a a' ->
  traced a'.
Proof.
  intros [] Hmax [].
  assert (serverSeq a' = serverSeq a + 1) as Es.
  { rewrite v_seq. apply u64_add_no_overflow. lia. }
  assert (patchID a' = serverSeq a') as Ep by congruence.
  assert (forall i g, (frames a ++ [f]) !! i = Some g ->
    frames a !! i = Some g \/ (i = length (frames a) /\ g = f)) as Hlook.
  { intros i g Hg. apply lookup_app_Some in Hg as [Hg|[Hi Hg]]; [by left|right].
    apply list_lookup_singleton_Some in Hg as [Hi' <-]. split; [lia|done]. }
  destruct v_win as (w & Hw1 & Hw2).
  pose proof (kept_retains _ _ _ Hw1 t_win0) as Hret. apply (retains_push _ _ (slot_of f)) in Hret.
  assert (highest (push (slot_of f) w) = serverSeq a') as Hhi.
  { cbn. unfold slot_of. by rewrite v_of. }
  constructor; rewrite ?v_frames; auto.
  - intros i g Hg. destruct (Hlook _ _ Hg) as [Hg'|[-> ->]]; [by apply t_num0|].
    rewrite v_of, Ep, Es, t_seq0. done.
  - rewrite Es, t_seq0, length_app. cbn. lia.
  - rewrite v_snap. destruct (superseded f); [done|]. lia.
  - intros i g Hg Hsome. rewrite v_snap. destruct (Hlook _ _ Hg) as [Hg'|[-> ->]].
    + pose proof (t_snap0 _ _ Hg' Hsome). apply lookup_lt_Some in Hg'.
      destruct (superseded f); [|done]. rewrite Es, t_seq0. lia.
    + destruct Hsome as [r ->]. rewrite Es, t_seq0. lia.
  - intros i g from through Hg Hr Hne. destruct (Hlook _ _ Hg) as [Hg'|[-> ->]].
    + destruct (t_range0 _ _ _ _ Hg' Hr Hne) as (H1 & H2 & H3). split; [done|]. split; [done|].
      intros j k Hj Hk. apply H3; [done|]. apply lookup_lt_Some in Hg'.
      rewrite lookup_app_l in Hk by lia. done.
    + rewrite Hr in v_range. destruct v_range as [->|[[H1 H2] H3]]; [done|].
      split; [done|]. split; [by rewrite H3, t_seq0|].
      intros j k Hj Hk Hs. rewrite lookup_app_l in Hk by lia.
      pose proof (t_snap0 _ _ Hk Hs). rewrite u64_add_no_overflow in H1 by lia. lia.
  - destruct (v_rows ltac:(lia)) as (r & -> & Hr). rewrite omap_app, t_rows0. cbn. by rewrite Hr.
  - rewrite fmap_app. by eapply kept_retains.
  - eapply kept_acked; [exact Hw2|]. rewrite Hhi. cbn.
    pose proof (kept_acked _ _ Hw1 t_ack0) as Ha. destruct Hw1 as (_ & _ & E3 & _).
    rewrite E3 in Ha. destruct t_win0 as (_ & _ & Hlast). rewrite Es, t_seq0.
    enough (highest (win a) <= N.of_nat (length (frames a))) by lia.
    rewrite Hlast, last_lookup, length_fmap, list_lookup_fmap.
    destruct (frames a !! pred _) as [g|] eqn:Eg; cbn; [|lia].
    unfold slot_of. rewrite (t_num0 _ _ Eg). cbn. apply lookup_lt_Some in Eg. lia.
Qed.

(** One turn keeps the invariant and advances the sequence by one at most. *)
Lemma traced_turn a a' : traced a -> serverSeq a < max_uint64 -> turned lim a a' ->
  traced a' /\ serverSeq a' <= serverSeq a + 1 /\ wire a `prefix_of` wire a'.
Proof.
  intros Ht Hmax [Hq|[f Hf]].
  - split; [by eapply traced_quiet|]. destruct Hq. split; [lia|done].
  - split; [by eapply traced_advance|]. destruct Hf. split; [|done].
    rewrite v_seq, u64_add_no_overflow; lia.
Qed.

Lemma closing_Close code a : closing (CloseSession code a) = true.
Proof. unfold CloseSession. by destruct (closing a) eqn:E. Qed.

Lemma mount_turned now a :
  let a' := mount Marshal app session lim dev now a in
  turned lim a a'
  /\ (closing a' = false -> exists f l, wire a' = wire a ++ f :: l /\ is_Some (superseded f)).
Proof.
  unfold mount. destruct (Init app) as [[s effects]|]; cbn zeta.
  2: { split; [|by rewrite closing_Close].
       left. eapply quiet_trans; [apply quiet_emitError|apply quiet_Close]. }
  set (a1 := a <| state := s |> <| transitionID := 1 |> <| stateVersion := 1 |>).
  pose proof (turned_emitSnapshot Marshal session lim dev
    (mkCausalOrigin pb.MOUNT 0 0 SourceMount []) noSupersession a1 (or_introl eq_refl)) as Hs.
  cbn [EventID] in Hs. destruct (emitSnapshot _ _ _ _ _ _ _ _) as [ok a2].
  destruct Hs as [Hs Hok].
  assert (turned lim a a2) as Ht by (eapply quiet_turned; [by apply (quiet_same lim a a1)|exact Hs]).
  destruct ok; cbn [negb].
  - split; [eapply turned_quiet; [exact Ht|apply quiet_effects]|]. intros _.
    destruct (Hok eq_refl) as (f & l & _ & Hf & Hw).
    pose proof (q_wire _ _ _ (quiet_effects lim effects 0 now a2)) as [l' ->].
    exists f, (l ++ l'). split; [|done]. rewrite Hw. change (wire a1) with (wire a).
    by rewrite <- app_assoc.
  - split; [|by rewrite closing_Close].
    eapply turned_quiet; [exact Ht|].
    eapply quiet_trans; [apply quiet_emitError|apply quiet_Close].
Qed.

Lemma traced_New (v : V) ws now : (0 <= AckWindow lim)%Z -> traced (New lim v ws now).
Proof. intros Hwin. constructor; cbn; try done. split; [done|]. cbn. lia. Qed.

Lemma traced_run events a : traced a -> serverSeq a + N.of_nat (length events) <= max_uint64 ->
  let a' := foldl (fun a et => handle Marshal app session lim dev et.1 et.2 a) a events in
  traced a' /\ wire a `prefix_of` wire a'.
Proof.
  revert a. induction events as [|[e now] es IH]; intros a Ht Hlen; [done|].
  cbn [foldl length fst snd] in *.
  destruct (traced_turn a (handle Marshal app session lim dev e now a) Ht) as (Ht' & Hs & Hw);
    [lia|apply turned_handle; [by apply t_mail|lia]|].
  destruct (IH _ Ht' ltac:(lia)) as [H1 H2]. split; [exact H1|by etransitivity].
Qed.

Lemma rows_sequenced (fs : list pb.Frame) : omap row_of_frame (filter sequenced fs) = omap row_of_frame fs.
Proof.
  induction fs as [|f fs IH]; [done|]. cbn [omap list_omap].
  destruct (decide (sequenced f)) as [Hs|Hs].
  - rewrite filter_cons_True by done. cbn [omap list_omap]. by rewrite IH.
  - rewrite filter_cons_False by done. rewrite IH.
    assert (row_of_frame f = None) as ->; [|done].
    unfold sequenced, seq_of, row_of_frame in *.
    destruct (pb.Payload f) as [[]|]; try done; exfalso; apply Hs; by eexists.
Qed.

(** A whole session. *)
Lemma traced_session (v : V) ws start events : (0 <= AckWindow lim)%Z ->
  N.of_nat (length events) < max_uint64 ->
  let a := mount Marshal app session lim dev start (New lim v ws start) in
  let a' := run Marshal app session lim dev start events (New lim v ws start) in
  traced a' /\ wire a `prefix_of` wire a'.
Proof.
  intros Hwin Hlen a a'. pose proof (traced_New v ws start Hwin) as Ht.
  destruct (mount_turned start (New lim v ws start)) as [Hm _].
  destruct (traced_turn _ _ Ht ltac:(done) Hm) as (Ht' & Hs & _).
  apply traced_run; [exact Ht'|].
  assert (serverSeq a <= 1) as H1 by exact Hs. lia.
Qed.

Section sessions.
Context (v : V) (ws : list bool) (start : Time.t) (events : list (event * Time.t)).
Context (Hwin : (0 <= AckWindow lim)%Z) (Hlen : N.of_nat (length events) < max_uint64).
Let a0 := mount Marshal app session lim dev start (New lim v ws start).
Let a := run Marshal app session lim dev start events (New lim v ws start).

(** C15: whatever a client, the transport and the effects do, every frame a session has
    written passes the outbound validation, its patches and snapshots carry the server
    sequence numbers and patch identifiers 1, 2, 3, ... without a gap or a repeat (a frame
    that was refused or whose write failed leaves no hole), and when the mount leaves the
    session open the first frame of all is its snapshot. *)
Theorem wire_is_contiguous :
  Forall valid (wire a)
  /\ (forall i f, frames a !! i = Some f -> seq_of f = Some (N.of_nat i + 1, N.of_nat i + 1))
  /\ serverSeq a = N.of_nat (length (frames a))
  /\ (closing a0 = false -> exists f, head (wire a) = Some f /\ is_Some (superseded f)).
Proof.
  destruct (traced_session v ws start events Hwin Hlen) as [[] [l Hp]].
  split; [done|]. split; [done|]. split; [done|]. intros Hc.
  destruct (mount_turned start (New lim v ws start)) as [_ Hf].
  destruct (Hf Hc) as (f & l' & Hw & Hsome). exists f. split; [|done].
  subst a. rewrite Hp, Hw. done.
Qed.

(** The ranges that resync snapshots say they supersede are ranges of frames that
    were sent, each ends at the frame before its snapshot, and two of them never overlap,
    however small the cursors the client claims. *)
Theorem resync_ranges_disjoint :
  (forall i f from through, frames a !! i = Some f -> superseded f = Some (from, through) ->
     from <> 0 -> 1 <= from <= through /\ through = N.of_nat i)
  /\ (forall i j f g from through from' through', (i < j)%nat ->
        frames a !! i = Some f -> superseded f = Some (from, through) -> from <> 0 ->
        frames a !! j = Some g -> superseded g = Some (from', through') -> from' <> 0 ->
        through < from').
Proof.
  destruct (traced_session v ws start events Hwin Hlen) as [[] _]. split.
  - intros i f from through Hf Hr Hne. destruct (t_range0 _ _ _ _ Hf Hr Hne) as (H1 & H2 & _). lia.
  - intros i j f g from through from' through' Hij Hf Hr Hne Hg Hr' Hne'.
    destruct (t_range0 _ _ _ _ Hf Hr Hne) as (_ & -> & _).
    destruct (t_range0 _ _ _ _ Hg Hr' Hne') as (_ & _ & H3).
    pose proof (H3 i f Hij Hf ltac:(by exists (from, N.of_nat i))). lia.
Qed.

(** The provenance stream accounts for the wire exactly.  The rows that name a patch
    are, in order, the rows the sequenced frames spell out: same event, client reference,
    transition, state version, patch, sequence, origin, regions, contributing events and
    superseded range. *)
Theorem provenance_matches_wire :
  filter (fun r => pr_ServerSeq r <> 0) (rows a) = omap row_of_frame (wire a).
Proof.
  destruct (traced_session v ws start events Hwin Hlen) as [[] _].
  change (patch_rows a = omap row_of_frame (wire a)). subst a. rewrite t_rows0.
  apply rows_sequenced.
Qed.

(** A session's record stays well formed: the window's highest sequence is the last
    one sent and nothing past it is acknowledged, the window retains the slots of the
    newest [AckWindow + 1] frames, the two counters agree, no snapshot lies in the future,
    and the mailbox and the acknowledgement channel stay within their depths. *)
Theorem session_well_formed :
  patchID a = serverSeq a /\ highest (win a) = serverSeq a /\ acked (win a) <= serverSeq a
  /\ lastSnapshotSeq a <= serverSeq a
  /\ slots (win a)
     = drop (length (frames a) - Z.to_nat (cap (win a) + 1)) (slot_of <$> frames a)
  /\ (Z.of_nat (length (mailbox a)) <= Z.max 0 (MailboxDepth lim))%Z
  /\ (Z.of_nat (length (acks a)) <= Z.max 0 (AckChannelDepth lim))%Z.
Proof.
  pose proof (traced_session v ws start events Hwin Hlen) as [Ht _]. revert Ht.
  change (run _ _ _ _ _ _ _ _) with a. generalize a. clear. intros b [].
  destruct t_win0 as (_ & Hsl & Hhi). destruct t_mail0 as (_ & Hm & Ha).
  assert (highest (win b) = serverSeq b) as Eh.
  { rewrite Hhi, t_seq0, last_lookup, length_fmap, list_lookup_fmap.
    destruct (frames b !! pred (length (frames b))) as [g|] eqn:Eg; cbn.
    - unfold slot_of. rewrite (t_num0 _ _ Eg). cbn. apply lookup_lt_Some in Eg. lia.
    - apply lookup_ge_None in Eg. lia. }
  rewrite length_fmap in Hsl. rewrite Eh in t_ack0. auto 10.
Qed.
End sessions.
End audit.

(** ** On the counter *)

(** The second patch's write fails. *)
Definition demo_writes : list bool := [true; false].

Lemma wire_is_contiguous_witness :
  let a := demo demo_writes demo_events in
  length (frames a) = 6%nat
  /\ (forall i f, frames a !! i = Some f -> seq_of f = Some (N.of_nat i + 1, N.of_nat i + 1)).
Proof.
  split; [by vm_compute|].
  apply (wire_is_contiguous demo_marshal counter_app demo_session DefaultLimits false demo_view
    demo_writes (1000 * Time.Second)%Z demo_events); by vm_compute.
Defined.

Lemma resync_ranges_disjoint_witness :
  let a := demo [] demo_events in
  superseded <$> frames a = [Some (0, 0); None; None; Some (2, 3); None; Some (5, 5)]
  /\ (forall i f from through, frames a !! i = Some f -> superseded f = Some (from, through) ->
        from <> 0 -> 1 <= from <= through /\ through = N.of_nat i).
Proof.
  split; [by vm_compute|].
  apply (resync_ranges_disjoint demo_marshal counter_app demo_session DefaultLimits false
    demo_view [] (1000 * Time.Second)%Z demo_events); by vm_compute.
Defined.

Lemma provenance_matches_wire_witness :
  let a := demo demo_writes demo_events in
  pr_Contributing <$> rows a = [[]; [1]; []; []; []; []; []] /\
  filter (fun r => pr_ServerSeq r <> 0) (rows a) = omap row_of_frame (wire a).
Proof.
  split; [by vm_compute|].
  apply (provenance_matches_wire demo_marshal counter_app demo_session DefaultLimits false
    demo_view demo_writes (1000 * Time.Second)%Z demo_events); by vm_compute.
Defined.

Lemma session_well_formed_witness :
  let a := demo [] demo_events in
  serverSeq a = 6 /\ highest (win a) = serverSeq a.
Proof.
  split; [by vm_compute|].
  apply (session_well_formed demo_marshal counter_app demo_session DefaultLimits false demo_view
    [] (1000 * Time.Second)%Z demo_events); by vm_compute.
Defined.
