(* ===== verification/GotthUnion.v ===== *)
(** * gotth: the contributing-event union of deferred transitions.

    The trigger and the union agree; a deferral leaves room for the next emission; what
    is owed is sent or stays owed; and past the schema's ceiling nothing is sent again. *)
From Stdlib Require Import String NArith QArith Lia.
From stdpp Require Import base list gmap sets strings.
From S2P Require Import Prelude.
From S2P Require Import GoStd.
From S2P Require Import GotthProtocol.
From S2P Require Import GotthBoundary.
From S2P Require Import GotthWindow.
From S2P Require Import GotthRender.
From S2P Require Import GotthSession.
From S2P Require Import GotthTrace.
From S2P Require Import GotthDemo.
Open Scope N_scope.

(** ** Deduplication *)

Lemma count_dedup seen ids : count_new seen ids = N.of_nat (length (dedup seen ids)).
Proof.
  revert seen. induction ids as [|id ids IH]; intros seen; [done|]. cbn [count_new dedup].
  destruct (id =? 0); [apply IH|]. destruct (decide (id ∈ seen)); [apply IH|].
  rewrite IH. cbn [length]. lia.
Qed.

Lemma elem_of_dedup seen ids x : x ∈ dedup seen ids <-> x ∈ ids /\ x <> 0 /\ x ∉ seen.
Proof.
  revert seen. induction ids as [|id ids IH]; intros seen; cbn [dedup]; [set_solver|].
  destruct (N.eqb_spec id 0) as [->|Hne].
  { rewrite IH. set_solver. }
  destruct (decide (id ∈ seen)) as [Hin|Hin].
  { rewrite IH. set_solver. }
  rewrite !elem_of_cons, IH. destruct (decide (x = id)); set_solver.
Qed.

Lemma NoDup_dedup seen ids : NoDup (dedup seen ids).
Proof.
  revert seen. induction ids as [|id ids IH]; intros seen; cbn [dedup]; [constructor|].
  destruct (id =? 0); [apply IH|]. destruct (decide (id ∈ seen)); [apply IH|].
  constructor; [|apply IH]. rewrite elem_of_dedup. set_solver.
Qed.

(** An identifier that is zero or already seen may be left out. *)
Lemma dedup_skip seen l1 id l2 : id = 0 \/ id ∈ seen ->
  dedup seen (l1 ++ id :: l2) = dedup seen (l1 ++ l2).
Proof.
  revert seen. induction l1 as [|x l1 IH]; intros seen Hid; cbn [app dedup].
  - destruct (N.eqb_spec id 0); [done|]. destruct (decide (id ∈ seen)); [done|]. naive_solver.
  - destruct (x =? 0); [by apply IH|]. destruct (decide (x ∈ seen)); [by apply IH|].
    f_equal. apply IH. set_solver.
Qed.

Lemma length_dedup_le seen ids : (length (dedup seen ids) <= length ids)%nat.
Proof.
  revert seen. induction ids as [|id ids IH]; intros seen; cbn [dedup length]; [done|].
  destruct (id =? 0); [etransitivity; [apply IH|lia]|].
  destruct (decide (id ∈ seen)); [etransitivity; [apply IH|lia]|].
  cbn [length]. apply le_n_S, IH.
Qed.

Lemma length_dedup_size seen ids :
  length (dedup seen ids) = size (list_to_set ids ∖ ({[0]} ∪ seen) : gset N).
Proof.
  rewrite <- (size_list_to_set (C := gset N) (dedup seen ids)) by apply NoDup_dedup.
  apply set_size_proper. intros x. rewrite elem_of_list_to_set, elem_of_dedup. set_solver.
Qed.

Section union.
Context {A V : Type} {anyA : GoAny A} {views : Views A V}.
Context (Marshal : pb.Frame -> option string) (app : App A) (session : string) (lim : Limits)
        (dev : bool).
Implicit Types (a : Actor A V).

(** ** What is owed *)

Definition owed_list a : list N :=
  pendingIDs a ++ match pendingOrig a with
                  | Some prev => EventID prev :: Contributing prev
                  | None => []
                  end.
(** The events waiting for a patch that names them. *)
Definition owed a : gset N := list_to_set (owed_list a) ∖ {[0]}.

(** The events an origin names. *)
Definition names (o : CausalOrigin) : gset N :=
  list_to_set (EventID o :: Contributing o) ∖ {[0]}.

(** The union an emission would build. *)
Definition union_of (o : CausalOrigin) a : list N := unionEdges o (takePending o a).1.

Lemma union_of_eq o a : union_of o a = dedup (own_id o) (Contributing o ++ owed_list a).
Proof.
  unfold union_of, unionEdges, takePending, owed_list. cbn.
  destruct (pendingOrig a) as [prev|]; cbn; [|by rewrite app_nil_r].
  destruct (N.eqb_spec (EventID prev) 0) as [E|E]; cbn.
  - rewrite (app_assoc _ (pendingIDs a) (_ :: _)), dedup_skip by (left; exact E). by rewrite !app_assoc.
  - destruct (N.eqb_spec (EventID prev) (EventID o)) as [E'|E']; cbn.
    + rewrite (app_assoc _ (pendingIDs a) (_ :: _)), dedup_skip; [by rewrite !app_assoc|].
      right. unfold own_id. destruct (N.eqb_spec (EventID o) 0); [congruence|].
      by apply elem_of_singleton.
    + by rewrite <- !app_assoc.
Qed.

(** The flush trigger counts the union the frame would carry: [unionReaches origin n]
    holds exactly when the list [unionEdges] builds from what [takePending] hands over has
    at least [n] identifiers, short cut and duplicates included. *)
Theorem unionReaches_agrees (o : CausalOrigin) (n : Z) (a : Actor A V) :
  unionReaches o n a = (n <=? Z.of_nat (length (unionEdges o (takePending o a).1)))%Z.
Proof.
  change (unionEdges o (takePending o a).1) with (union_of o a). rewrite union_of_eq.
  assert (forall upper, (length (dedup (own_id o) (Contributing o ++ owed_list a))
                         <= upper)%nat ->
    (if (Z.of_nat upper <? n)%Z then false
     else (n <=? Z.of_N (count_new (own_id o) (Contributing o ++ owed_list a)))%Z)
    = (n <=? Z.of_nat (length (dedup (own_id o) (Contributing o ++ owed_list a))))%Z) as Hgen.
  { intros upper Hu. rewrite count_dedup, nat_N_Z. destruct (Z.ltb_spec (Z.of_nat upper) n);
    [|done]. symmetry. apply Z.leb_gt. lia. }
  pose proof (length_dedup_le (own_id o) (Contributing o ++ owed_list a)) as Hl.
  unfold unionReaches, owed_list in *. rewrite !length_app in Hl.
  destruct (pendingOrig a) as [prev|]; cbn [length] in Hl.
  - rewrite <- (Hgen (length (pendingIDs a) + length (Contributing o)
                      + (1 + length (Contributing prev)))%nat) by lia.
    rewrite !Nat2Z.inj_add. done.
  - rewrite <- (Hgen (length (pendingIDs a) + length (Contributing o))%nat); [done|].
    cbn [length] in Hl. lia.
Qed.

(** ** Room for the next emission *)

(** The origin of a sequenced frame. *)
Definition origin_of (f : pb.Frame) : option pb.Origin :=
  match pb.Payload f with
  | Some (pb.Frame_Patch p) => pb.Patch_Origin p
  | Some (pb.Frame_Snapshot s) => pb.Snapshot_Origin s
  | _ => None
  end.

(** The events a frame names. *)
Definition named_by (f : pb.Frame) : gset N :=
  match origin_of f with
  | Some o => list_to_set (pb.Origin_EventId o :: pb.ContributingEventIds o) ∖ {[0]}
  | None => ∅
  end.

Lemma field_checked l f : each checkField l = Ok tt -> f ∈ l -> checkField f = Ok tt.
Proof. rewrite each_ok, Forall_forall. auto. Qed.

Lemma valid_union f o : origin_of f = Some o -> valid f ->
  N.of_nat (length (pb.ContributingEventIds o)) <= CoalesceFlushCeiling.
Proof.
  intros Ho Hv. unfold valid, ValidateOutbound in Hv.
  apply seq_ok in Hv as [_ Hv]. apply seq_ok in Hv as [Hv _].
  unfold checkFieldInvariants, origin_of in *.
  apply (checkListBound_ok "gotthlive.v1.Origin.contributing_event_ids"); [done|].
  assert (exists l, reflect_payload <$> pb.Payload f = Some l
    /\ FMessage (Some (reflect_Origin o)) ∈ l) as (l & Hl & Hin).
  { destruct (pb.Payload f) as [[]|]; try done; eexists; (split; [reflexivity|]);
      unfold reflect_payload, reflect_Patch, reflect_Snapshot; rewrite Ho; set_solver. }
  assert (checkField (FMessage (Some l)) = Ok tt) as H1.
  { eapply field_checked; [exact Hv|]. unfold reflect_Frame. rewrite Hl. set_solver. }
  pose proof (field_checked l _ H1 Hin) as H2.
  eapply (field_checked (reflect_Origin o) (FList _ _)); [exact H2|].
  unfold reflect_Origin. set_solver.
Qed.

Lemma own_named o x : x ∈ own_id o -> x = EventID o.
Proof. unfold own_id. destruct (EventID o =? 0); set_solver. Qed.

(** Owed or contributed, less the origin's own identifier. *)
Lemma elem_of_union_of o a x :
  x ∈ union_of o a <-> (x ∈ Contributing o \/ x ∈ owed_list a) /\ x <> 0 /\ x <> EventID o.
Proof.
  rewrite union_of_eq, elem_of_dedup, elem_of_app. unfold own_id.
  destruct (N.eqb_spec (EventID o) 0) as [E|E]; [rewrite E|]; set_solver.
Qed.

Lemma elem_of_owed a x : x ∈ owed a <-> x ∈ owed_list a /\ x <> 0.
Proof. unfold owed. set_solver. Qed.

Lemma elem_of_names o x : x ∈ names o <-> (x = EventID o \/ x ∈ Contributing o) /\ x <> 0.
Proof. unfold names. set_solver. Qed.

Lemma owed_list_defer o a : owed (deferPatch o a) = owed a ∪ names o.
Proof.
  apply set_eq. intros x. rewrite elem_of_union, !elem_of_owed, elem_of_names.
  unfold deferPatch, owed_list. destruct (pendingOrig a) as [prev|]; cbn; [|set_solver].
  destruct (N.eqb_spec (EventID prev) 0) as [E|E]; cbn; set_solver.
Qed.

Lemma length_union_of o a :
  (length (union_of o a) <= length (Contributing o) + size (owed a))%nat.
Proof.
  rewrite union_of_eq, length_dedup_size. etransitivity.
  - apply (subseteq_size _ (list_to_set (Contributing o) ∪ owed a)). unfold owed. set_solver.
  - rewrite size_union_alt. etransitivity; [|apply Nat.add_le_mono_l].
    + apply Nat.add_le_mono_r. etransitivity; [apply size_list_to_set_le|]. done.
    + apply subseteq_size. set_solver.
Qed.

Lemma length_union_size o a :
  length (union_of o a) = size ((list_to_set (Contributing o) ∪ owed a) ∖ ({[0]} ∪ own_id o)).
Proof.
  rewrite union_of_eq, length_dedup_size. apply set_size_proper. intros x.
  rewrite list_to_set_app. unfold owed. set_solver.
Qed.

(** Deferring an origin owes its whole union and its own event. *)
Lemma size_owed_defer o a : (size (owed (deferPatch o a)) <= S (length (union_of o a)))%nat.
Proof.
  rewrite owed_list_defer, length_union_size.
  set (U := (list_to_set (Contributing o) ∪ owed a) ∖ ({[0]} ∪ own_id o)).
  transitivity (size ({[EventID o]} ∪ U)).
  - apply subseteq_size. intros x. rewrite elem_of_union, elem_of_names, elem_of_owed.
    subst U. intros Hx. destruct (decide (x = EventID o)) as [->|Hne]; [set_solver|].
    assert (x ∉ own_id o) by (intros ?%own_named; done). set_solver.
  - rewrite size_union_alt, size_singleton. apply le_n_S, subseteq_size. set_solver.
Qed.

(** The turns that put a transition off. *)
Definition deferring (o : CausalOrigin) (forced : bool) a : bool :=
  negb (unionReaches o (CoalesceFlushAt lim) a)
  && (full (win a) || coalescing (win a) && negb forced && negb (coalesceHeld a)).

Lemma owed_same a a' : pendingIDs a' = pendingIDs a -> pendingOrig a' = pendingOrig a ->
  owed a' = owed a.
Proof. intros E1 E2. unfold owed, owed_list. by rewrite E1, E2. Qed.

Lemma owed_deferring o ev forced now a : deferring o forced a = true ->
  owed (emitPatch Marshal session lim dev o ev forced now a) = owed (deferPatch o a).
Proof.
  unfold deferring, emitPatch. destruct (unionReaches _ _ a); [done|]. cbn.
  destruct (full (win a)); cbn.
  { intros _. apply owed_same; unfold degrade, synthesize, post_, post; cbn;
      destruct (slowNotified _); try done; by destruct (_ <? _)%Z. }
  intros ->. set (a1 := a <| coalesceHeld := true |>).
  assert (owed (deferPatch o a1) = owed (deferPatch o a)) as <- by by rewrite !owed_list_defer.
  apply owed_same; unfold enterCoalesce; cbn; by destruct (coalesceNotified _).
Qed.

Lemma frames_deferring o ev forced now a : deferring o forced a = true ->
  frames (emitPatch Marshal session lim dev o ev forced now a) = frames a.
Proof.
  unfold deferring, emitPatch. destruct (unionReaches _ _ a); [done|]. cbn.
  destruct (full (win a)); cbn; [intros _|intros ->]; apply (q_frames lim);
    (eapply quiet_trans; [|apply quiet_row]); [apply quiet_degrade|].
  eapply quiet_trans; [|apply quiet_coalesce]. by apply quiet_same.
Qed.

Lemma emitPatch_emits o ev forced now a : deferring o forced a = false ->
  emitPatch Marshal session lim dev o ev forced now a = emission Marshal session lim dev o ev a.
Proof.
  unfold deferring, emitPatch. destruct (unionReaches _ _ a); [done|]. cbn.
  destruct (full (win a)); cbn; [done|]. by intros ->.
Qed.

(** C37: a deferral never makes the next patch impossible.  With a flush trigger within the
    configured maximum, after any transition the ladder puts off, the union of whatever
    origin comes next - an event and the at most 65 edges an effect's emission carries -
    fits the schema's ceiling. *)
Theorem deferral_leaves_room (o o' : CausalOrigin) (ev : Event) (forced : bool) (now : Time.t)
  (a : Actor A V)
  (Hflush : (CoalesceFlushAt lim <= Z.of_N MaxCoalesceFlushAt)%Z)
  (Hdefer : deferring o forced a = true)
  (Hedges : (length (Contributing o') <= 1 + N.to_nat MaxEventContributing)%nat) :
  let a' := emitPatch Marshal session lim dev o ev forced now a in
  N.of_nat (length (unionEdges o' (takePending o' a').1)) <= CoalesceFlushCeiling.
Proof.
  intros a'. change (unionEdges o' (takePending o' a').1) with (union_of o' a').
  pose proof (length_union_of o' a') as Hl. subst a'. rewrite owed_deferring in Hl by done.
  pose proof (size_owed_defer o a) as Hs.
  assert (unionReaches o (CoalesceFlushAt lim) a = false) as Hr.
  { unfold deferring in Hdefer. by destruct (unionReaches _ _ a). }
  rewrite unionReaches_agrees in Hr. apply Z.leb_gt in Hr. fold (union_of o a) in Hr.
  change MaxEventContributing with 64 in *. change MaxCoalesceFlushAt with 959 in *.
  change CoalesceFlushCeiling with 1024. lia.
Qed.

(** ** Nothing owed is lost *)

Definition pend a : list N * option CausalOrigin := (pendingIDs a, pendingOrig a).

Lemma pend_Close code a : pend (CloseSession code a) = pend a.
Proof. unfold CloseSession. by destruct (closing a). Qed.

Lemma pend_failures fs e c a : pend (noteRenderFailures Marshal session lim dev fs e c a) = pend a.
Proof.
  unfold noteRenderFailures. destruct fs as [|f fs]; [done|].
  set (a1 := emitError _ _ _ _ _ _ _ _). change (pend a) with (pend a1). clearbody a1.
  generalize (f :: fs). clear f fs. intros fs. revert a1.
  induction fs as [|f fs IH]; intros b; [done|]. cbn [foldl]. rewrite IH.
  unfold notePanic. destruct (_ <=? _)%Z; [by rewrite pend_Close|done].
Qed.

Lemma pend_send f c a : pend (send Marshal session f c a).2 = pend a.
Proof.
  unfold send. destruct (Send _ _ _) as [r' [n|[k e|]]]; [done..|]. cbn [snd]. by rewrite pend_Close.
Qed.

Lemma pend_render all a : pend (renderPass all a).1 = pend a.
Proof.
  unfold renderPass. destruct all; [by destruct (vRenderAll _ _)|].
  destruct (vRender _ _) as [v res]. destruct (_ <? _); [|done]. by destruct (vRenderAll _ _).
Qed.

Lemma pend_take o a : pend (takePending o a).2 = ([], None).
Proof. unfold takePending, pend. cbn. destruct (pendingOrig a) eqn:E; cbn; by rewrite ?E. Qed.

Lemma take_render o all a :
  (takePending o (renderPass all a).1).1 = (takePending o a).1.
Proof.
  pose proof (pend_render all a) as [= E1 E2].
  unfold takePending. cbn. rewrite E1, E2. by destruct (pendingOrig a).
Qed.

Lemma pend_redefer o ids a : pend a = ([], None) ->
  pend (redefer o ids a) = (take (N.to_nat CoalesceFlushCeiling) ids, Some o).
Proof. intros [= E1 E2]. unfold redefer, deferPatch, pend. cbn. by rewrite E2; cbn; rewrite E1. Qed.

(** The origin an emission puts on its frame. *)
Definition with_union (o : CausalOrigin) a : CausalOrigin :=
  o <| Contributing := union_of o a |>.

(** What was taken is all back with the origin [o'], up to the ceiling. *)
Definition put_back (o o' : CausalOrigin) a a' : Prop :=
  frames a' = frames a
  /\ pend a' = (take (N.to_nat CoalesceFlushCeiling) (takePending o a).1, Some o').
Definition put_on_wire (o : CausalOrigin) a a' : Prop :=
  exists f, frames a' = frames a ++ [f] /\ valid f
            /\ origin_of f = Some (Origin_proto (with_union o a)) /\ pend a' = ([], None).

Lemma emission_outcome o ev a :
  let a' := emission Marshal session lim dev o ev a in
  put_on_wire o a a'
  \/ put_back o (with_union o a) a a'
  \/ Updates (renderPass false a).2 = [] /\ put_back o o a a'.
Proof.
  unfold emission. cbn zeta. set (a0 := a <| coalesceHeld := false |>).
  unfold put_on_wire, put_back, with_union, union_of.
  change (frames a) with (frames a0).
  assert ((takePending o a).1 = (takePending o a0).1) as ->.
  { unfold takePending. cbn. by destruct (pendingOrig a). }
  pose proof (pend_take o a0) as Hp. pose proof (q_frames lim _ _ (quiet_take lim o a0)) as Hf.
  assert ((renderPass false (takePending o a0).2).2 = (renderPass false a).2) as Hr.
  { unfold renderPass, takePending. cbn. destruct (pendingOrig a); cbn;
      destruct (vRender _ _) as [v res]; destruct (_ <? _); try done; by destruct (vRenderAll _ _). }
  destruct (takePending o a0) as [ids a1]. cbn [fst snd] in *.
  pose proof (pend_render false a1) as Hp2.
  pose proof (q_frames lim _ _ (quiet_render lim false a1)) as Hf2.
  destruct (renderPass false a1) as [a2 res]. cbn [fst snd] in *. subst res.
  rewrite Hp in Hp2. rewrite <- Hf, <- Hf2. clear Hf Hf2 Hp a0 a1.
  set (res := (renderPass false a).2).
  set (fin := noteRenderFailures _ _ _ _ _ _ _).
  assert (forall b, frames (fin b) = frames b /\ pend (fin b) = pend b) as Hfin.
  { intros b. split; [apply (q_frames lim), quiet_failures|apply pend_failures]. }
  clearbody fin. rewrite !(proj1 (Hfin _)), !(proj2 (Hfin _)). clear Hfin fin.
  destruct (Updates res) as [|u us] eqn:Eu.
  { right; right. split; [done|]. rewrite <- pend_redefer with (a := a2) by done.
    split; [|done]. transitivity (frames (redefer o ids a2)); [|apply (q_frames lim), quiet_redefer].
    apply (q_frames lim), quiet_row. }
  match goal with |- context [send _ _ ?f ?c _] => set (frame := f) end.
  pose proof (send_wire Marshal session lim frame (nextCausal a2) a2) as Hs.
  pose proof (pend_send frame (nextCausal a2) a2) as Hps.
  destruct (send _ _ frame _ a2) as [[|] a3]; cbn [negb snd] in *.
  - left. destruct Hs as (_ & Hw & Hv). exists frame. split; [|split; [done|split; [done|]]].
    + unfold frames, wire in *. cbn. rewrite Hw, filter_app, filter_cons_True, filter_nil; [done|].
      by eexists.
    + change (pend a3 = ([], None)). by rewrite Hps.
  - right; left. specialize (Hs ltac:(done)). split.
    + etransitivity; [apply (q_frames lim), quiet_redefer|]. apply (q_frames lim _ _ Hs).
    + apply pend_redefer. change (pend a3 = ([], None)). by rewrite Hps.
Qed.

Lemma snapshot_outcome o sup id a :
  let '(ok, a') := emitSnapshot Marshal session lim dev o sup id a in
  ok = true /\ put_on_wire o a a' \/ ok = false /\ put_back o (with_union o a) a a'.
Proof.
  unfold emitSnapshot, put_on_wire, put_back, with_union, union_of.
  pose proof (q_frames lim _ _ (quiet_render lim true a)) as Hf.
  pose proof (take_render o true a) as Htk. destruct (renderPass true a) as [a1 res].
  cbn [fst] in *. rewrite <- Hf, <- Htk. clear Hf Htk a.
  pose proof (pend_take o a1) as Hp. pose proof (q_frames lim _ _ (quiet_take lim o a1)) as Hf.
  destruct (takePending o a1) as [ids a2]. cbn [fst snd] in *. rewrite <- Hf. clear Hf a1.
  match goal with |- context [send _ _ ?f ?c _] => set (frame := f) end.
  pose proof (send_wire Marshal session lim frame (nextCausal a2) a2) as Hs.
  pose proof (pend_send frame (nextCausal a2) a2) as Hps. rewrite Hp in Hps.
  set (fin := noteRenderFailures _ _ _ _ _ _ _).
  assert (forall b, frames (fin b) = frames b /\ pend (fin b) = pend b) as Hfin.
  { intros b. split; [apply (q_frames lim), quiet_failures|apply pend_failures]. }
  clearbody fin.
  destruct (send _ _ frame _ a2) as [[|] a3]; cbn [negb snd] in *;
    rewrite !(proj1 (Hfin _)), !(proj2 (Hfin _)); [left|right]; (split; [done|]).
  - destruct Hs as (_ & Hw & Hv). exists frame. split; [|split; [done|split; [done|done]]].
    unfold frames, wire in *. cbn. rewrite Hw, filter_app, filter_cons_True, filter_nil; [done|].
    by eexists.
  - specialize (Hs ltac:(done)). split.
    + etransitivity; [apply (q_frames lim), quiet_redefer|]. apply (q_frames lim _ _ Hs).
    + by apply pend_redefer.
Qed.

Lemma elem_of_taken o a x : x ∈ owed_list a -> x <> 0 ->
  x = EventID o \/ x ∈ (takePending o a).1.
Proof.
  unfold owed_list, takePending. cbn.
  destruct (pendingOrig a) as [prev|]; cbn; [|rewrite app_nil_r; by right].
  destruct (N.eqb_spec (EventID prev) 0), (N.eqb_spec (EventID prev) (EventID o)); cbn;
    rewrite ?elem_of_app, ?elem_of_cons, ?elem_of_nil; naive_solver.
Qed.

Lemma names_with_union o a : names (with_union o a) = names o ∪ owed a.
Proof.
  apply set_eq. intros x. rewrite elem_of_union, !elem_of_names, elem_of_owed. cbn.
  rewrite elem_of_union_of. destruct (decide (x = EventID o)); naive_solver.
Qed.

(** With the union in its origin nothing is lost, whatever the ceiling cut off. *)
Lemma owed_put_back_union o a a' : put_back o (with_union o a) a a' ->
  names o ∪ owed a ⊆ owed a'.
Proof.
  intros [_ [= E1 E2]]. rewrite <- names_with_union. intros x. rewrite elem_of_names, elem_of_owed.
  unfold owed_list. rewrite E2. set_solver.
Qed.

Lemma owed_put_back o a a' : put_back o o a a' ->
  names o ∪ owed a ⊆ owed a' \/ (N.to_nat CoalesceFlushCeiling <= length (pendingIDs a'))%nat.
Proof.
  intros [_ [= E1 E2]].
  destruct (decide (length (takePending o a).1 <= N.to_nat CoalesceFlushCeiling)%nat) as [Hl|Hl].
  - left. rewrite take_ge in E1 by done. intros x. rewrite elem_of_union, elem_of_names, !elem_of_owed.
    intros Hx. assert (x <> 0) by naive_solver. unfold owed_list. rewrite E1, E2.
    destruct Hx as [[Hx _]|[Hx _]]; [set_solver|].
    destruct (elem_of_taken o a x Hx) as [->|]; [done|set_solver|set_solver].
  - right. rewrite E1, length_take. lia.
Qed.

(** [o]'s event, its edges and everything owed are named by the one frame the turn sent,
    or are all owed after it, or the list of owed identifiers is full. *)
Definition accounted (o : CausalOrigin) a a' : Prop :=
  (exists f, frames a' = frames a ++ [f] /\ named_by f = names o ∪ owed a /\ owed a' = ∅)
  \/ frames a' = frames a
     /\ (names o ∪ owed a ⊆ owed a'
         \/ (N.to_nat CoalesceFlushCeiling <= length (pendingIDs a'))%nat).

Lemma wire_accounts o a a' : put_on_wire o a a' -> accounted o a a'.
Proof.
  intros (f & Hf & _ & Ho & [= E1 E2]). left. exists f. split; [done|].
  rewrite <- names_with_union. unfold named_by, owed, owed_list. by rewrite Ho, E1, E2.
Qed.

(** The provenance of a transition is never dropped on the way to the wire.  Whatever
    [emitPatch] and [emitSnapshot] do with an origin - send, put off, render nothing new, fail
    to encode or to write - either one frame leaves that names exactly the origin's event,
    its edges and every event owed before, and nothing stays owed; or all of them are owed
    to the next frame, unless 1024 identifiers are waiting already. *)
Theorem provenance_is_conserved (o : CausalOrigin) (ev : Event) (forced : bool) (now : Time.t)
  (sup : Supersession) (id : N) (a : Actor A V) :
  accounted o a (emitPatch Marshal session lim dev o ev forced now a)
  /\ accounted o a (emitSnapshot Marshal session lim dev o sup id a).2.
Proof.
  split.
  - destruct (deferring o forced a) eqn:Ed.
    { right. rewrite owed_deferring, owed_list_defer by done.
      split; [by apply frames_deferring|left; set_solver]. }
    rewrite emitPatch_emits by done.
    destruct (emission_outcome o ev a) as [H1|[H1|[_ H1]]]; [by apply wire_accounts|right..].
    + split; [apply H1|left]. by apply (owed_put_back_union o).
    + split; [apply H1|]. by apply (owed_put_back o).
  - pose proof (snapshot_outcome o sup id a) as Hs.
    destruct (emitSnapshot _ _ _ _ _ _ _ _) as [ok a'].
    destruct Hs as [[_ H1]|[_ H1]]; [by apply wire_accounts|right].
    split; [apply H1|left]. by apply (owed_put_back_union o).
Qed.

(** ** Past the ceiling *)

Lemma wedged_union o a f : (N.to_nat CoalesceFlushCeiling + 2 <= size (owed a))%nat ->
  valid f -> origin_of f = Some (Origin_proto (with_union o a)) -> False.
Proof.
  intros Hs Hv Ho. pose proof (valid_union _ _ Ho Hv) as Hl. cbn in Hl.
  assert (size (owed a) <= size (owed (deferPatch o a)))%nat as H1.
  { apply subseteq_size. rewrite owed_list_defer. set_solver. }
  pose proof (size_owed_defer o a) as H2. lia.
Qed.

(** A session that owes 1026 events is wedged.  No transition, acknowledgement, tick or
    resync can put a patch or a snapshot on its wire any more: every emission is put off, has
    nothing to render or is refused by the outbound validation, and a refusal (or a
    deferral) leaves at least as much owed. *)
Theorem wedged_session_is_silent (a : Actor A V) (o : CausalOrigin) (ev : Event)
  (forced : bool) (now : Time.t) (sup : Supersession) (id : N)
  (Howed : (N.to_nat CoalesceFlushCeiling + 2 <= size (owed a))%nat) :
  let a1 := emitPatch Marshal session lim dev o ev forced now a in
  let '(ok, a2) := emitSnapshot Marshal session lim dev o sup id a in
  frames a1 = frames a /\ (Updates (renderPass false a).2 <> [] -> owed a ⊆ owed a1)
  /\ ok = false /\ frames a2 = frames a /\ owed a ⊆ owed a2.
Proof.
  intros a1. pose proof (snapshot_outcome o sup id a) as Hs.
  destruct (emitSnapshot _ _ _ _ _ _ _ _) as [ok a2].
  assert (forall a', put_back o (with_union o a) a a' -> owed a ⊆ owed a') as Hback.
  { intros a' H'%owed_put_back_union. set_solver. }
  assert (frames a1 = frames a /\ (Updates (renderPass false a).2 <> [] -> owed a ⊆ owed a1))
    as [H1 H2].
  { subst a1. destruct (deferring o forced a) eqn:Ed.
    - split; [by apply frames_deferring|intros _].
      rewrite owed_deferring, owed_list_defer by done. set_solver.
    - rewrite emitPatch_emits by done.
      destruct (emission_outcome o ev a) as [(f & _ & Hv & Ho & _)|[H1|[Hu H1]]].
      + exfalso. by eapply wedged_union.
      + split; [apply H1|auto].
      + split; [apply H1|done]. }
  split; [done|]. split; [done|].
  destruct Hs as [[_ (f & _ & Hv & Ho & _)]|[-> H3]]; [exfalso; by eapply wedged_union|].
  split; [done|]. split; [apply H3|auto].
Qed.
End union.

(** ** On the counter *)

Definition demo_patch (o : CausalOrigin) (forced : bool) (a : Actor N (Renderer N))
  : Actor N (Renderer N) :=
  emitPatch demo_marshal demo_session DefaultLimits false o noEvent forced 0%Z a.

(** Seven clicks fill half the window, and the next transition is put off. *)
Definition busy : Actor N (Renderer N) :=
  demo [] (concat ((fun k => clicks "inc" 1 ((1001 + Z.of_nat k) * Time.Second)%Z) <$> seq 0 7)).

Lemma deferral_leaves_room_witness :
  let o := mkCausalOrigin pb.CLIENT_EVENT 8 1 "event:inc" [] in
  deferring DefaultLimits o false busy = true
  /\ N.of_nat (length (unionEdges noOrigin (takePending noOrigin (demo_patch o false busy)).1))
     <= CoalesceFlushCeiling.
Proof.
  intros o. assert (deferring DefaultLimits o false busy = true) as Hd by by vm_compute.
  split; [exact Hd|].
  apply (deferral_leaves_room demo_marshal demo_session DefaultLimits false o noOrigin noEvent
    false 0%Z busy); [by vm_compute|exact Hd|by vm_compute; lia].
Defined.

Definition flooded : Actor N (Renderer N) := demo [] flood.

Lemma wedged_session_is_silent_witness :
  (closing flooded = false /\ state flooded = 1)
  /\ (N.to_nat CoalesceFlushCeiling + 2 <= size (owed flooded))%nat
  /\ frames (demo_patch noOrigin true flooded) = frames flooded.
Proof.
  assert ((N.to_nat CoalesceFlushCeiling + 2 <= size (owed flooded))%nat) as Ho.
  { apply (bool_decide_unpack _). by vm_compute. }
  split; [by vm_compute|]. split; [exact Ho|].
  pose proof (wedged_session_is_silent demo_marshal demo_session DefaultLimits false flooded
    noOrigin noEvent true 0%Z noSupersession 0 Ho) as Hw.
  cbv zeta in Hw. revert Hw. destruct (emitSnapshot _ _ _ _ _ _ _ _) as [ok a2].
  intros [Hw _]. exact Hw.
Defined.
