(* ===== verification/GotthIngress.v ===== *)
(** * gotth: what reaches a session's mailbox.

    The one path from the wire, and the effects' path from the application. *)
From Stdlib Require Import String NArith QArith Lia.
From stdpp Require Import base list gmap sets strings.
From S2P Require Import Prelude.
From S2P Require Import GoStd.
From S2P Require Import GotthProtocol.
From S2P Require Import GotthBoundary.
From S2P Require Import GotthWindow.
From S2P Require Import GotthRender.
From S2P Require Import GotthSession.
From S2P Require Import GotthTrace.
From S2P Require Import GotthDemo.
Open Scope N_scope.

Section ingress.
Context {A V : Type} {anyA : GoAny A} {views : Views A V}.
Context (Marshal : pb.Frame -> option string) (app : App A) (session : string) (lim : Limits)
        (dev : bool).
Implicit Types (a : Actor A V).

(** ** Error frames *)

(** What the answers need of the session and of the codec: an identifier of sixteen bytes,
    and that a valid error frame whose text is ASCII encodes, to at least a byte.  Of other
    frames nothing is assumed: protobuf refuses text that is not UTF-8, and the outbound
    validation does not look. *)
Definition ascii_text (msg : string) : bool :=
  forallb (fun c => Ascii.nat_of_ascii c <? 128)%nat (String.list_ascii_of_string msg).
Record answering : Prop := {
  h_session : len session = 16;
  h_marshal code msg e c fatal :
    let f := NewError session code msg e c fatal in
    valid f -> ascii_text (truncateMessage msg) = true -> exists b, Marshal f = Some b /\ len b <> 0;
}.

(** Whether the transport takes the next write. *)
Definition delivers (r : Framer) : bool :=
  match writes r with false :: _ => false | _ => true end.

Lemma Send_valid f r : valid f -> (exists b, Marshal f = Some b /\ len b <> 0) ->
  (Send Marshal r f).1 = mkFramer (tl (writes r)) (if delivers r then sent r ++ [f] else sent r).
Proof.
  intros Hv (b & Eb & Hb). unfold Send, Encode. rewrite Hv, Eb. unfold Write, delivers. cbn.
  destruct (N.eqb_spec (len b) 0); [done|]. by destruct (writes r) as [|[] ws].
Qed.

Definition known_code (code : Z) : bool := negb (code =? 0)%Z && bool_decide (code ∈ pb.ErrorCode_values).

Lemma NewError_valid code msg e c fatal : len session = 16 -> known_code code = true ->
  ValidateError (pb.mkError code (truncateMessage msg) e c fatal) = Ok tt ->
  (e =? 0) = (c =? 0) -> valid (NewError session code msg e c fatal).
Proof.
  intros Hs Hc Hv He. unfold valid, ValidateOutbound. apply seq_ok. split.
  { unfold ValidateFrame. cbn. rewrite Hs. done. }
  apply seq_ok. split.
  - unfold checkFieldInvariants. cbn. apply andb_true_iff in Hc as [Hc1 Hc2].
    assert (checkEnumValue pb.ErrorCode_values code = Ok tt) as ->; [|done].
    apply checkEnumValue_ok. split; [by apply Z.eqb_neq, negb_true_iff|].
    by apply bool_decide_eq_true in Hc2.
  - cbn. apply seq_ok. split; [exact Hv|]. apply seq_ok. split; [|done].
    unfold validateError. cbn. by rewrite He, eqb_reflx.
Qed.

(** Whether an error frame's text and code pass, identifiers apart. *)
Definition sayable (code : Z) (msg : string) : Prop :=
  known_code code = true /\ ascii_text (truncateMessage msg) = true
  /\ forall e c fatal, ValidateError (pb.mkError code (truncateMessage msg) e c fatal) = Ok tt.

Lemma emitError_says code msg e c fatal a : answering -> sayable code msg ->
  (e =? 0) = (c =? 0) ->
  emitError Marshal session code msg e c fatal a
  = a <| fr := mkFramer (tl (writes (fr a)))
                 (if delivers (fr a) then wire a ++ [NewError session code msg e c fatal]
                  else wire a) |>.
Proof.
  intros [Hs Hm] (Hc & Ht & Hv) He. unfold emitError.
  assert (valid (NewError session code msg e c fatal)) as Hf by (by apply NewError_valid).
  by rewrite Send_valid by auto.
Qed.

(** ** Events from the wire *)

(** What stands between an event and the mailbox. *)
Definition admitted (name fragmentID : string) (v : verdict) (now : Time.t) a : bool :=
  (allow (eventBucket a) now).1
  && Registered app name && vAdmitsID (view a) fragmentID
  && (match v with Allow => true | _ => false end)
  && (Z.of_nat (length (mailbox a)) <? MailboxDepth lim)%Z.

(** The message an admitted event becomes. *)
Definition event_message (id clientRef : N) (name fragmentID : string) (seen : N)
  (fields : list pb.EventField) (now : Time.t) : inbound :=
  mkInbound msgEvent
    (mkEvent id clientRef seen name fragmentID now (copyFields fields) [])
    (mkCausalOrigin pb.CLIENT_EVENT id clientRef (SourceEventPrefix +:+ name) []) 0 0 0 0.

(** What the application can observe, and what the client has been sent in sequence. *)
Definition same_session a a' : Prop :=
  state a' = state a /\ view a' = view a /\ serverSeq a' = serverSeq a
  /\ stateVersion a' = stateVersion a /\ transitionID a' = transitionID a
  /\ pendingOrig a' = pendingOrig a /\ pendingIDs a' = pendingIDs a /\ running a' = running a.

(** Refused: nothing queued, and one error frame for the interaction handed to the
    transport, on the wire if the transport takes it. *)
Definition answered (clientRef : N) a a' : Prop :=
  eventSeq a' = eventSeq a + 1 /\ same_session a a' /\ mailbox a' = mailbox a
  /\ exists code msg fatal,
       wire a' = if delivers (fr a)
                 then wire a ++ [NewError session code msg (eventSeq a + 1) clientRef fatal]
                 else wire a.

Lemma answered_emit code msg fatal clientRef e a b : answering -> sayable code msg ->
  clientRef <> 0 -> e = eventSeq a + 1 -> eventSeq b = eventSeq a + 1 -> fr b = fr a ->
  mailbox b = mailbox a -> same_session a b ->
  answered clientRef a (emitError Marshal session code msg e clientRef fatal b).
Proof.
  intros Hh Hsay Href -> Ee Ef Em Hs. rewrite emitError_says; [|done..|].
  - unfold answered. cbn. rewrite Ee. split; [done|]. split; [exact Hs|]. split; [done|].
    exists code, msg, fatal. unfold wire. cbn. by rewrite Ef.
  - destruct (N.eqb_spec (eventSeq a + 1) 0), (N.eqb_spec clientRef 0); done || lia.
Qed.

Lemma answered_close code clientRef a b : answered clientRef a b ->
  answered clientRef a (CloseSession code b).
Proof. unfold CloseSession. by destruct (closing b). Qed.

(** C40: Default deny at the door, and every refusal is answered.  An event from the wire
    gets the session's next identifier; it occupies exactly one mailbox slot, with an origin
    that names it, when the rate limit, the registered names, the declared regions, the
    application's authorization and the mailbox's depth all let it in, and then nothing is
    written; in every other case the mailbox is untouched and exactly one error frame, which
    carries that identifier and the client's own reference, is handed to the transport, and
    is on the wire unless that write fails.  Nothing else the application or the wire can see
    changes.  Of the codec it is assumed only that a valid error frame whose text is ASCII
    encodes; the texts of these answers are. *)
Theorem event_is_queued_or_answered (base : inboundBase) (clientRef : N)
  (name fragmentID : string) (seen : N) (fields : list pb.EventField) (v : verdict)
  (now : Time.t) (a : Actor A V)
  (Hanswering : answering) (Hid : eventSeq a < max_uint64) (Href : clientRef <> 0) :
  let a' := Ingress Marshal app session lim
              (InboundEvent base clientRef name fragmentID seen fields) v now a in
  let id := eventSeq a + 1 in
  eventSeq a' = id /\ same_session a a'
  /\ if admitted name fragmentID v now a then
       mailbox a' = mailbox a ++ [event_message id clientRef name fragmentID seen fields now]
       /\ wire a' = wire a
     else
       mailbox a' = mailbox a
       /\ exists code msg fatal,
            wire a' = if delivers (fr a)
                      then wire a ++ [NewError session code msg id clientRef fatal]
                      else wire a.
Proof.
  intros a' id. subst a' id.
  enough (if admitted name fragmentID v now a then
      (let a' := Ingress Marshal app session lim
         (InboundEvent base clientRef name fragmentID seen fields) v now a in
       eventSeq a' = eventSeq a + 1 /\ same_session a a'
       /\ mailbox a' = mailbox a
            ++ [event_message (eventSeq a + 1) clientRef name fragmentID seen fields now]
       /\ wire a' = wire a)
    else answered clientRef a (Ingress Marshal app session lim
      (InboundEvent base clientRef name fragmentID seen fields) v now a)) as Hgoal.
  { unfold answered in Hgoal. destruct (admitted _ _ _ _ _); naive_solver. }
  assert (u64_add (eventSeq a) 1 = eventSeq a + 1) as Eid.
  { apply u64_add_no_overflow. lia. }
  unfold admitted, Ingress, ingressEvent.
  repeat match goal with |- context [eventBucket ?x] =>
    lazymatch x with a => fail | _ => change (eventBucket x) with (eventBucket a) end end.
  destruct (allow (eventBucket a) now) as [ok b].
  destruct ok; cbn [fst snd negb andb].
  2: { destruct (_ <=? _)%Z; [apply answered_close|]; by apply answered_emit. }
  destruct (Registered app name); cbn [negb andb]; [|by apply answered_emit].
  repeat match goal with |- context [vAdmitsID (view ?x)] =>
    lazymatch x with a => fail | _ => change (view x) with (view a) end end.
  destruct (vAdmitsID (view a) fragmentID); cbn [negb andb]; [|by apply answered_emit].
  destruct v; cbn [authorize fst snd negb andb].
  - unfold post. cbn [mailbox].
    repeat match goal with |- context [length (mailbox ?x)] =>
      lazymatch x with a => fail | _ => change (mailbox x) with (mailbox a) end end.
    destruct (_ <? _)%Z.
    + cbn. rewrite Eid. done.
    + by apply answered_emit.
  - by apply answered_emit.
  - apply answered_close. by apply answered_emit.
Qed.

(** ** Messages from effects *)

Lemma effectOrigin_valid source : ValidOriginSource (effectOrigin source) = true.
Proof.
  unfold effectOrigin. destruct (ValidOriginSource (SourceEffectPrefix +:+ source)) eqn:E;
    [exact E|by vm_compute].
Qed.

(** A message an effect may leave: server initiated, from a source a frame can carry, with
    few enough edges, every one an event. *)
Definition sendable (scheduledBy : N) (m : inbound) : Prop :=
  m_kind m = msgEffectResult /\ o_Kind (m_origin m) = pb.EFFECT
  /\ EventID (m_origin m) = 0 /\ ClientRef (m_origin m) = 0
  /\ ev_ID (m_ev m) = 0 /\ ev_ClientRef (m_ev m) = 0
  /\ ValidOriginSource (Source (m_origin m)) = true
  /\ (length (Contributing (m_origin m)) <= 1 + N.to_nat MaxEventContributing)%nat
  /\ Forall (fun id => id <> 0) (Contributing (m_origin m))
  /\ (scheduledBy <> 0 -> scheduledBy ∈ Contributing (m_origin m)).

(** At most one more message, and that one sendable. *)
Definition injects (scheduledBy : N) a a' : Prop :=
  same_session a (a' <| running := running a |>) /\ wire a' = wire a
  /\ (mailbox a' = mailbox a
      \/ exists m, mailbox a' = mailbox a ++ [m] /\ sendable scheduledBy m).

Lemma scheduledEdge_ok by_ : (length (scheduledEdge by_) <= 1)%nat
  /\ Forall (fun id => id <> 0) (scheduledEdge by_) /\ (by_ <> 0 -> by_ ∈ scheduledEdge by_).
Proof.
  unfold scheduledEdge. destruct (N.eqb_spec by_ 0); cbn.
  - split; [lia|]. split; [constructor|done].
  - split; [lia|]. split; [by repeat constructor|set_solver].
Qed.

Lemma injects_post by_ m a : sendable by_ m -> injects by_ a (post lim m a).2.
Proof.
  intros Hm. unfold post. destruct (_ <? _)%Z; [|by split; [|split; [|left]]].
  split; [done|]. split; [done|]. right. by exists m.
Qed.

Lemma injects_failure s d r by_ now a : injects by_ a (emitFailure lim s d r by_ now a).
Proof.
  unfold emitFailure. destruct (closing a); [by split; [|split; [|left]]|].
  apply injects_post. destruct (scheduledEdge_ok by_) as (H1 & H2 & H3).
  unfold sendable. cbn. pose proof (effectOrigin_valid s). split_and!; try done.
  change MaxEventContributing with 64. lia.
Qed.

(** No string or list of an application's can make a frame unsendable.  Whatever an
    effect emits, and however it ends, it adds at most one message to the mailbox; its origin
    has a source the outbound validation accepts and no client identifiers, and at most 65
    contributing events, none of them zero, among them the event that scheduled the effect.
    Nothing else of the session changes. *)
Theorem effect_messages_are_sendable (k : nat) (source : string) (scheduledBy : N) (ev : Event)
  (o : outcome) (now : Time.t) (a : Actor A V)
  (Hrun : running a !! k = Some (source, scheduledBy)) :
  injects scheduledBy a (handle Marshal app session lim dev (EvEmit k ev) now a)
  /\ injects scheduledBy a (handle Marshal app session lim dev (EvDone k o) now a).
Proof.
  cbn. rewrite Hrun. split.
  - assert (injects scheduledBy a a) as Hnone by (by split; [|split; [|left]]).
    unfold guardedEmitter. destruct (negb (ev_ID ev =? 0)); [done|].
    destruct (negb (Time.IsZero _)); [done|].
    destruct (N.ltb_spec MaxEventContributing (N.of_nat (length (ev_Contributing ev))))
      as [|Hlen]; [done|].
    destruct (existsb _ _) eqn:Ez; [done|]. unfold emitter. destruct (closing a); [done|].
    match goal with |- context [post lim ?m a] => pose proof (injects_post scheduledBy m a) as Hp end.
    destruct (post lim _ a) as [posted a']. apply Hp.
    destruct (scheduledEdge_ok scheduledBy) as (H1 & H2 & H3).
    unfold sendable. cbn. pose proof (effectOrigin_valid source). split_and!; try done.
    + rewrite length_app. lia.
    + apply Forall_app. split; [done|]. apply Forall_forall. intros x Hx ->.
      apply not_true_iff_false in Ez. apply Ez, existsb_exists. exists 0.
      split; [by apply list_elem_of_In|done].
    + intros Hne. apply elem_of_app. left. auto.
  - set (b := a <| running ::= delete k |>).
    assert (forall a', injects scheduledBy b a' -> injects scheduledBy a a') as Hb.
    { intros a' (H1 & H2 & H3). split; [|split; [exact H2|exact H3]].
      unfold same_session in *. naive_solver. }
    destruct o; cbn; try apply Hb, injects_failure; by split; [|split; [|left]].
Qed.
End ingress.

(** ** On the counter *)

Definition admitted_demo : Actor N (Renderer N) := demo [] [].

(** A codec that refuses what is not ASCII, as protobuf refuses what is not UTF-8. *)
Definition picky_marshal (f : pb.Frame) : option string :=
  match pb.Payload f with
  | Some (pb.Frame_Error e) => if ascii_text (pb.Error_Message e) then Some "frame"%string else None
  | _ => None
  end.

Lemma event_is_queued_or_answered_witness :
  let a' := Ingress picky_marshal counter_app demo_session DefaultLimits
              (InboundEvent demo_base 7 "nothing" "counter" 1 []) Allow
              (1001 * Time.Second)%Z admitted_demo in
  mailbox a' = mailbox admitted_demo
  /\ exists code msg fatal,
       wire a' = wire admitted_demo ++ [NewError demo_session code msg 1 7 fatal].
Proof.
  assert (answering picky_marshal demo_session) as Hh.
  { constructor; [by vm_compute|]. intros code msg e c fatal f _ Ht. exists "frame"%string.
    subst f. unfold picky_marshal. cbn [pb.Payload NewError pb.Error_Message]. by rewrite Ht. }
  pose proof (event_is_queued_or_answered picky_marshal counter_app demo_session DefaultLimits
    demo_base 7 "nothing" "counter" 1 [] Allow (1001 * Time.Second)%Z admitted_demo Hh
    ltac:(by vm_compute) ltac:(done)) as (_ & _ & Hc).
  exact Hc.
Defined.

Lemma effect_messages_are_sendable_witness :
  let a := demo [] (clicks "watch" 1 (1001 * Time.Second)%Z) in
  running a !! 0%nat = Some ("watch"%string, 1)
  /\ injects 1 a (handle demo_marshal counter_app demo_session DefaultLimits false
       (EvDone 0 (RunError "gone" true)) (1002 * Time.Second)%Z a).
Proof.
  intros a. assert (running a !! 0%nat = Some ("watch"%string, 1)) as Hr by by vm_compute.
  split; [exact Hr|].
  apply (effect_messages_are_sendable demo_marshal counter_app demo_session DefaultLimits false
    0 "watch" 1 noEvent (RunError "gone" true) (1002 * Time.Second)%Z a Hr).
Defined.
