(* ===== verification/GotthPage.v ===== *)
(** * gotth: the page a client builds from the wire

    The composition of the session actor ([GotthSession]), its renderer ([GotthRender])
    and the wire ([GotthTrace]): applying the frames a session wrote, in order, to an
    empty page gives the static regions that the current state renders, except those the
    renderer has marked and coincidences of the hash.  [tracks] is the invariant, a run of
    [rendering] whose page is the client's.  Collections are not covered, and a run at the
    end shows a member of one left stale. *)
From Stdlib Require Import String NArith QArith Lia.
From stdpp Require Import base list gmap sets strings pretty.
From S2P Require Import Prelude.
From S2P Require Import GotthProtocol.
From S2P Require Import GotthWindow.
From S2P Require Import GotthRender.
From S2P Require Import GotthBitset.
From S2P Require Import GotthFresh.
From S2P Require Import GotthSession.
From S2P Require Import GotthTrace.
From S2P Require Import GotthDemo.
Open Scope N_scope.

(** ** The client *)

Definition updates_of (f : pb.Frame) : list RUpdate :=
  (fun u => mkRUpdate (pb.Update_FragmentId u) OpMorph (pb.Update_Html u)) <$>
  match pb.Payload f with
  | Some (pb.Frame_Patch p) => pb.Patch_Updates p
  | Some (pb.Frame_Snapshot s) => pb.Snapshot_Updates s
  | _ => []
  end.

(** The regions a client shows after these frames. *)
Definition page_of (fs : list pb.Frame) : gmap string string :=
  foldl (fun page f => receive (updates_of f) page) ∅ fs.

Lemma receive_wire us page :
  receive ((fun u => mkRUpdate (pb.Update_FragmentId u) OpMorph (pb.Update_Html u)) <$>
             updateProtos (toWireUpdates us)) page = receive us page.
Proof. unfold receive. revert page. induction us as [|u us IH]; intros page; [done|]. apply IH. Qed.

Lemma page_snoc fs f : page_of (fs ++ [f]) = receive (updates_of f) (page_of fs).
Proof. unfold page_of. by rewrite foldl_app. Qed.

(** Frames without a sequence number change nothing on the page. *)
Lemma page_sequenced (fs : list pb.Frame) : page_of (filter sequenced fs) = page_of fs.
Proof.
  unfold page_of. generalize (∅ : gmap string string) as page.
  induction fs as [|f fs IH]; intros page; [done|].
  destruct (decide (sequenced f)) as [Hs|Hs].
  - rewrite filter_cons_True by done. cbn. apply IH.
  - rewrite filter_cons_False by done. cbn. rewrite IH. f_equal.
    unfold sequenced, seq_of, updates_of in *.
    destruct (pb.Payload f) as [[]|]; try done; exfalso; apply Hs; by eexists.
Qed.

(** ** A pass that has nothing to send *)

Section nothing.
Context {State : Type} (hash : string -> N).

(** Whoever has no update has nothing to install either. *)
Definition silent (res : Result) : Prop :=
  Updates res = [] -> updated res = [] /\ r_hashes res = [] /\ r_collections res = [].

Lemma silent_children (cs : list (Fragment State)) s pending previous staged changed res :
  silent res -> (changed <> [] -> Updates res <> []) ->
  let '(_, changed', res') := render_children hash cs s pending previous staged changed res in
  silent res' /\ (changed' <> [] -> Updates res' <> []).
Proof.
  revert staged changed res. induction cs as [|c cs IH]; intros staged changed res Hs Hc; [done|].
  cbn [render_children]. destruct (negb _); [by apply IH|].
  destruct (callRender c s) as [html|f]; [|by apply IH].
  destruct (_ =? _); [by apply IH|]. apply IH.
  - unfold silent, emit. cbn. intros E. by apply app_eq_nil in E as [_ ?].
  - unfold emit. cbn. intros _ E. by apply app_eq_nil in E as [_ ?].
Qed.

Lemma silent_emit id html res : silent (emit id html res).
Proof. unfold silent, emit. cbn. intros E. by apply app_eq_nil in E as [_ ?]. Qed.

Lemma silent_one i (f : Fragment State) all s v res : silent res ->
  silent (render_one hash i f all s v res).2.
Proof.
  intros Hs. unfold render_one. destruct (_ && _); [done|].
  destruct (Children f) as [project|].
  - unfold renderCollection. destruct (collectionChildren _ _ _) as [children|]; [|done].
    destruct (negb _).
    + unfold renderCollectionChildren.
      match goal with |- context [render_children _ _ _ ?p ?q ?st ?ch ?r] =>
        pose proof (silent_children children s p q st ch r Hs) as Hc end.
      destruct (render_children _ _ _ _ _ _ _ _) as [[staged changed] res'].
      destruct Hc as [H1 H2]; [done|]. cbn. destruct changed; [done|].
      intros E. exfalso. by apply H2.
    + destruct (stage_children _ _ _ _); [|done].
      destruct (callRender f s); [|done]. destruct (_ && _); [done|]. cbn.
      intros E. by apply app_eq_nil in E as [_ ?].
  - unfold renderFragment. destruct (callRender f s); [|done].
    destruct (_ && _); [done|]. apply silent_emit.
Qed.

Lemma silent_from i (fs : list (Fragment State)) all s v res : silent res ->
  silent (render_from hash i fs all s v res).2.
Proof.
  revert i v res. induction fs as [|f fs IH]; intros i v res Hs; [done|].
  cbn [render_from]. pose proof (silent_one i f all s v res Hs) as H1.
  destruct (render_one _ _ _ _ _ _ _) as [v' res']. by apply IH.
Qed.

Lemma silent_Commit all s (v : Renderer State) : Updates (render_pass hash all s v).2 = [] ->
  Commit (render_pass hash all s v).2 (render_pass hash all s v).1 = (render_pass hash all s v).1.
Proof.
  assert (silent (render_pass hash all s v).2) as Hs.
  { unfold render_pass, RenderAll, RenderDirty. by destruct all; apply silent_from. }
  intros E. destruct (Hs E) as (E1 & E2 & E3). unfold Commit. rewrite E1, E2, E3. cbn.
  by destruct (render_pass hash all s v).1.
Qed.
End nothing.

Section page.
Context {State : Type} {anyA : GoAny State} (hash : string -> N).
#[local] Instance page_views : Views State (Renderer State) := Renderer_Views hash.
Context (Marshal : pb.Frame -> option string) (app : App State) (session : string)
        (lim : Limits) (dev : bool) (rg : Registry State).
Implicit Types (a : Actor State (Renderer State)).

(** The client's page comes from a run of the renderer on the current state. *)
Definition tracks a : Prop :=
  exists s0, rendering hash rg s0 (view a) (state a) (page_of (frames a)).

(** ** Operations that leave the renderer and the state alone *)

Definition still a a' : Prop := (state a' = state a /\ view a' = view a) /\ quiet lim a a'.

Lemma still_refl a : still a a.
Proof. split; [done|apply quiet_refl]. Qed.

Lemma still_trans a1 a2 a3 : still a1 a2 -> still a2 a3 -> still a1 a3.
Proof. intros [[E1 F1] H1] [[E2 F2] H2]. split; [split; congruence|by eapply quiet_trans]. Qed.

Lemma still_tracks a a' : still a a' -> tracks a -> tracks a'.
Proof. intros [[E1 E2] H]. unfold tracks. by rewrite E1, E2, (q_frames _ _ _ H). Qed.

Lemma still_Error code msg e c fatal a : still a (emitError Marshal session code msg e c fatal a).
Proof. split; [done|apply quiet_emitError]. Qed.

Lemma still_Close code a : still a (CloseSession code a).
Proof. split; [unfold CloseSession; by destruct (closing a)|apply quiet_Close]. Qed.

Lemma still_notePanic site a : still a (notePanic lim site a).
Proof.
  split; [|apply quiet_notePanic]. unfold notePanic. destruct (_ <=? _)%Z; [|done].
  unfold CloseSession. by destruct (closing _).
Qed.

Lemma still_foldl {B} (g : Actor State (Renderer State) -> B -> Actor State (Renderer State)) l a :
  (forall a x, still a (g a x)) -> still a (foldl g a l).
Proof.
  intros Hg. revert a. induction l as [|x l IH]; intros a; [apply still_refl|].
  cbn. eapply still_trans; [apply Hg|apply IH].
Qed.

Lemma still_failures fs e c a : still a (noteRenderFailures Marshal session lim dev fs e c a).
Proof.
  unfold noteRenderFailures. destruct fs as [|f fs]; [apply still_refl|].
  eapply still_trans; [apply still_Error|]. apply still_foldl. intros. apply still_notePanic.
Qed.

Lemma still_row o ev sup a : still a (provenance o ev [] 0 0 sup a).
Proof. split; [done|apply quiet_row]. Qed.

Lemma still_post m a : coherent m -> still a (post lim m a).2.
Proof. split; [unfold post; by destruct (_ <? _)%Z|by apply quiet_post]. Qed.

Lemma still_defer o a : still a (deferPatch o a).
Proof.
  split; [|apply quiet_defer]. unfold deferPatch.
  destruct (pendingOrig a) as [prev|]; [|done]. by destruct (EventID prev =? 0).
Qed.

Lemma still_coalesce o now a : still a (enterCoalesce o now a).
Proof.
  split; [|apply quiet_coalesce]. unfold enterCoalesce, noteFull.
  destruct (still_defer o a) as [[<- <-] _].
  by destruct (coalesceNotified (deferPatch o a)).
Qed.

Lemma still_synthesize source now a : still a (synthesize lim source now a).
Proof. by apply still_post. Qed.

Lemma still_degrade o now a : still a (degrade lim o now a).
Proof.
  split; [|apply quiet_degrade]. unfold degrade, noteFull. destruct (still_defer o a) as [[<- <-] _].
  destruct (slowNotified (deferPatch o a)); [done|].
  exact (proj1 (still_synthesize SourceSlowClient now
    ((deferPatch o a) <| slowNotified := true |>))).
Qed.

Lemma still_redefer o ids a : still a (redefer o ids a).
Proof.
  split; [|apply quiet_redefer]. unfold redefer.
  exact (proj1 (still_defer o (a <| pendingIDs ::= (.++ ids) |>
                                 <| pendingIDs ::= take (N.to_nat CoalesceFlushCeiling) |>))).
Qed.

Lemma still_take o a : still a (takePending o a).2.
Proof. split; [unfold takePending; cbn; by destruct (pendingOrig a)|apply quiet_take]. Qed.

Lemma still_emitFailure s d b by_ now a : still a (emitFailure lim s d b by_ now a).
Proof. unfold emitFailure. destruct (closing a); [apply still_refl|by apply still_post]. Qed.

Lemma still_effects es by_ now a : still a (runEffects lim es by_ now a).
Proof.
  apply still_foldl. intros b e. destruct (decide _); [apply still_refl|].
  unfold execute. destruct (negb (ValidOriginSource _)); [apply still_emitFailure|].
  destruct (negb (e_Run e)); [apply still_emitFailure|].
  split; [done|by apply quiet_same].
Qed.

(** ** A pass, sent or lost *)

(** What a pass leaves: from a tracked actor, the renderer after rendering some [v0]. *)
Lemma pass_tracks all a : tracks a ->
  let '(a', res) := renderPass all a in
  state a' = state a /\ frames a' = frames a
  /\ exists s0 all' v0, rendering hash rg s0 v0 (state a) (page_of (frames a))
     /\ view a' = (render_pass hash all' (state a) v0).1
     /\ exists failed, res = (render_pass hash all' (state a) v0).2 <| Failed := failed |>.
Proof.
  intros [s0 Hr]. pose proof (q_frames lim _ _ (quiet_render lim all a)) as Hf.
  unfold renderPass in *. destruct all.
  - destruct (vRenderAll (state a) (view a)) as [v res] eqn:Ev. cbn [fst] in Hf.
    split; [done|split; [done|]]. exists s0, true, (view a). split; [done|].
    change (vRenderAll (state a) (view a)) with (render_pass hash true (state a) (view a)) in Ev.
    rewrite Ev. split; [done|]. exists (Failed res). by destruct res.
  - destruct (vRender (state a) (view a)) as [v res] eqn:Ev.
    change (vRender (state a) (view a)) with (render_pass hash false (state a) (view a)) in Ev.
    destruct (_ <? _).
    + destruct (vRenderAll (state a) (vDiscard res v)) as [v' res'] eqn:Ev'. cbn [fst] in Hf.
      split; [done|split; [done|]]. exists s0, true, (Discard res v).
      split; [by eapply rendering_lost|].
      change (vRenderAll (state a) (vDiscard res v))
        with (render_pass hash true (state a) (Discard res v)) in Ev'.
      rewrite Ev'. split; [done|]. by eexists.
    + split; [done|split; [done|]]. exists s0, false, (view a). split; [done|].
      rewrite Ev. split; [done|]. exists (Failed res). by destruct res.
Qed.

(** The actor after a pass, with what the client made of it. *)
Lemma tracks_lost all a a' res b : tracks a -> renderPass all a = (a', res) ->
  state b = state a' -> view b = vDiscard res (view a') -> frames b = frames a' -> tracks b.
Proof.
  intros Ht Ep Es Ev Ef. pose proof (pass_tracks all a Ht) as Hp. rewrite Ep in Hp.
  destruct Hp as (E1 & E2 & s0 & all' & v0 & Hr & Ev' & failed & ->).
  exists s0. rewrite Es, Ev, Ef, E1, E2, Ev'.
  set (p := render_pass hash all' (state a) v0).
  change (vDiscard _ p.1) with (Discard p.2 p.1).
  eapply rendering_lost; [exact Hr|apply (surjective_pairing p)].
Qed.

Lemma tracks_sent all a a' res f b : tracks a -> renderPass all a = (a', res) ->
  state b = state a' -> view b = vCommit res (view a') -> frames b = frames a' ++ [f] ->
  (forall page, receive (updates_of f) page = receive (Updates res) page) -> tracks b.
Proof.
  intros Ht Ep Es Ev Ef Hu. pose proof (pass_tracks all a Ht) as Hp. rewrite Ep in Hp.
  destruct Hp as (E1 & E2 & s0 & all' & v0 & Hr & Ev' & failed & ->).
  exists s0. rewrite Es, Ev, Ef, page_snoc, Hu, E1, E2, Ev'.
  set (p := render_pass hash all' (state a) v0).
  change (vCommit _ p.1) with (Commit p.2 p.1).
  change (Updates (_ <| Failed := _ |>)) with (Updates p.2).
  eapply rendering_sent; [exact Hr|apply (surjective_pairing p)].
Qed.

Lemma tracks_suppressed all a a' res b : tracks a -> renderPass all a = (a', res) ->
  Updates res = [] -> state b = state a' -> view b = view a' -> frames b = frames a' -> tracks b.
Proof.
  intros Ht Ep Eu Es Ev Ef. pose proof (pass_tracks all a Ht) as Hp. rewrite Ep in Hp.
  destruct Hp as (E1 & E2 & s0 & all' & v0 & Hr & Ev' & failed & ->).
  exists s0. rewrite Es, Ev, Ef, E1, E2, Ev'. cbn in Eu.
  rewrite <- (silent_Commit hash all' (state a) v0 Eu).
  pose proof (rendering_sent hash rg s0 all' v0 (state a) _ _ _ Hr (surjective_pairing _)) as H.
  rewrite Eu in H. exact H.
Qed.

Lemma send_kept f c a : seq_of f <> None ->
  let '(ok, a') := send Marshal session f c a in
  state a' = state a /\ view a' = view a
  /\ frames a' = if ok then frames a ++ [f] else frames a.
Proof.
  intros Hf. pose proof (send_wire Marshal session lim f c a) as Hs.
  unfold send in *. destruct (Send Marshal (fr a) f) as [r' [n|[k e|]]].
  - split; [done|split; [done|]]. destruct Hs as (_ & Hw & _). unfold frames, wire in *.
    rewrite Hw, filter_app, filter_cons_True, filter_nil; [done|].
    unfold sequenced. destruct (seq_of f); [by eexists|done].
  - split; [done|split; [done|]]. apply (q_frames lim _ _ (Hs Hf)).
  - split; [|split; [|apply (q_frames lim _ _ (Hs Hf))]];
      unfold CloseSession; by destruct (closing _).
Qed.

Lemma tracks_emission o ev a : tracks a -> tracks (emission Marshal session lim dev o ev a).
Proof.
  intros Ht. unfold emission. set (a0 := a <| coalesceHeld := false |>).
  change (tracks a0) in Ht. clearbody a0. clear a. rename a0 into a.
  pose proof (still_tracks _ _ (still_take o a) Ht) as Ht1.
  destruct (takePending o a) as [ids a1]. cbn [snd] in Ht1. clear a Ht.
  destruct (renderPass false a1) as [a2 res] eqn:Ep.
  eapply still_tracks; [apply still_failures|].
  destruct (Updates res) as [|u us] eqn:Eu.
  - destruct (still_trans _ _ _ (still_redefer o ids a2)
      (still_row o ev noSupersession (redefer o ids a2))) as [[E1 E2] Hq].
    eapply tracks_suppressed; [exact Ht1|exact Ep|exact Eu|exact E1|exact E2|].
    apply (q_frames _ _ _ Hq).
  - match goal with |- context [send _ _ ?f ?c _] =>
      pose proof (send_kept f c a2 ltac:(done)) as Hs; set (frame := f) in * end.
    destruct (send _ _ frame _ a2) as [ok a3]. destruct Hs as (E1 & E2 & E3).
    destruct ok; cbn [negb].
    + eapply (tracks_sent false a1 a2 res frame); [exact Ht1|exact Ep|exact E1| |exact E3|].
      * cbn. by rewrite E2.
      * intros page. rewrite Eu. apply receive_wire.
    + destruct (still_redefer (o <| Contributing := unionEdges o ids |>) ids
        (a3 <| view ::= vDiscard res |>)) as [[F1 F2] Hq].
      eapply (tracks_lost false a1 a2 res); [exact Ht1|exact Ep|by rewrite F1|rewrite F2|].
      * cbn. by rewrite E2.
      * rewrite (q_frames _ _ _ Hq). exact E3.
Qed.

Lemma tracks_emitPatch o ev forced now a : tracks a ->
  tracks (emitPatch Marshal session lim dev o ev forced now a).
Proof.
  intros Ht. unfold emitPatch. destruct (unionReaches _ _ _); [by apply tracks_emission|].
  destruct (full (win a)).
  { eapply still_tracks; [|exact Ht]. eapply still_trans; [apply still_degrade|apply still_row]. }
  destruct (_ && _ && _); [|by apply tracks_emission].
  eapply (still_tracks (a <| coalesceHeld := true |>)); [|exact Ht].
  eapply still_trans; [apply still_coalesce|apply still_row].
Qed.

Lemma tracks_emitSnapshot o sup id a : tracks a ->
  tracks (emitSnapshot Marshal session lim dev o sup id a).2.
Proof.
  intros Ht. unfold emitSnapshot. destruct (renderPass true a) as [a1 res] eqn:Ep.
  pose proof (still_take o a1) as [[T1 T2] Tq].
  destruct (takePending o a1) as [ids a2]. cbn [snd] in *. apply (q_frames lim) in Tq.
  match goal with |- context [send _ _ ?f ?c _] =>
    pose proof (send_kept f c a2 ltac:(done)) as Hs; set (frame := f) in * end.
  destruct (send _ _ frame _ a2) as [ok a3]. destruct Hs as (E1 & E2 & E3).
  cbn [snd]. eapply still_tracks; [apply still_failures|].
  destruct ok; cbn [negb].
  - eapply (tracks_sent true a a1 res frame); [exact Ht|exact Ep| | | |].
    + cbn. congruence.
    + cbn. congruence.
    + rewrite <- Tq. exact E3.
    + intros page. apply receive_wire.
  - destruct (still_redefer (o <| Contributing := unionEdges o ids |>) ids
      (a3 <| view ::= vDiscard res |>)) as [[F1 F2] Hq].
    eapply (tracks_lost true a a1 res); [exact Ht|exact Ep| | |].
    + rewrite F1. cbn. congruence.
    + rewrite F2. cbn. congruence.
    + rewrite (q_frames _ _ _ Hq). rewrite <- Tq. exact E3.
Qed.

(** ** The turns *)

Lemma tracks_transition ev o now a : tracks a ->
  tracks (transition Marshal app session lim dev ev o now a).
Proof.
  intros Ht. unfold transition. destruct (_ <? _); [exact (still_tracks _ _ (still_Error _ _ _ _ _ _) Ht)|].
  destruct (_ && _); [exact (still_tracks _ _ (still_Error _ _ _ _ _ _) Ht)|].
  destruct (Reduce app (state a) ev) as [next effects|value stack].
  - destruct (vMark (state a) next _) as [v failures] eqn:Em.
    eapply still_tracks; [apply still_failures|].
    eapply still_tracks; [apply still_effects|]. apply tracks_emitPatch.
    destruct Ht as [s0 Ht]. exists s0.
    pose proof (rendering_transition hash rg s0 (view a) (state a) next _ Ht) as H.
    assert (v = (Mark (state a) next (view a)).1) as ->.
    { destruct (negb _); cbn in Em; by rewrite Em. }
    by destruct (negb _).
  - eapply (still_tracks (a <| transitionID ::= fun n => u64_add n 1 |>)); [|exact Ht].
    eapply still_trans; [apply still_Error|]. eapply still_trans; [apply still_notePanic|].
    apply still_row.
Qed.

Lemma still_send f a : seq_of f = None -> still a (a <| fr := (Send Marshal (fr a) f).1 |>).
Proof. split; [done|by apply quiet_send]. Qed.

Lemma tracks_resync m now a : tracks a -> tracks (resync Marshal session lim dev m now a).
Proof.
  intros Ht. unfold resync. destruct (allow _ _) as [ok b].
  destruct ok; cbn [negb].
  - set (a1 := a <| resyncBucket := b |> <| resyncDenied := 0%Z |>).
    change (tracks a1) in Ht. destruct (_ <=? _).
    + by eapply still_tracks; [apply still_send|].
    + by apply tracks_emitSnapshot.
  - set (a1 := a <| resyncBucket := b |> <| resyncDenied ::= Z.add 1 |>).
    change (tracks a1) in Ht. destruct (_ <=? _)%Z.
    + eapply still_tracks; [apply still_Close|]. by eapply still_tracks; [apply still_Error|].
    + by eapply still_tracks; [apply still_Error|].
Qed.

Lemma tracks_step m now a : tracks a -> tracks (step Marshal app session lim dev m now a).
Proof.
  intros Ht. unfold step.
  destruct (m_kind m); [by apply tracks_transition..|by apply tracks_resync|done].
Qed.

Lemma tracks_onAck n now a : tracks a -> tracks (onAck Marshal session lim dev n now a).
Proof.
  intros Ht. unfold onAck. destruct (ack n (win a)) as [w|e].
  2: { by eapply still_tracks; [apply still_Close|]. }
  set (b := noteFull now (a <| win := w |>)). assert (tracks b) as Hb by exact Ht.
  clearbody b. clear Ht.
  set (b1 := if coalescing (win b) then b else _).
  assert (tracks b1) as Hb1 by (subst b1; by destruct (coalescing (win b))).
  clearbody b1. destruct (_ || _); [done|]. apply tracks_emitPatch.
  destruct (slowNotified b1); [|done].
  eapply (still_tracks (b1 <| slowNotified := false |>)); [apply still_synthesize|exact Hb1].
Qed.

Lemma tracks_onTick t now a : tracks a -> tracks (onTick Marshal session lim dev t now a).
Proof.
  intros Ht. unfold onTick. generalize (if Time.IsZero t then now else t) as n. intros n.
  destruct (_ <? _)%Z; [by eapply still_tracks; [apply still_Close|]|].
  destruct (_ <? _)%Z; [by eapply still_tracks; [apply still_Close|]|].
  destruct (noteFullness n (win a)) as [since w]. set (b := a <| win := w |>).
  assert (tracks b) as Hb by exact Ht. clearbody b. clear Ht.
  destruct (_ && _); [by eapply still_tracks; [apply still_Close|]|].
  set (b1 := if vPending (view b) && _ then _ else _).
  assert (tracks b1) as Hb1 by (subst b1; destruct (_ && _); [by apply tracks_emitPatch|done]).
  clearbody b1. set (b2 := b1 <| hbNonce ::= fun n => u64_add n 1 |>).
  assert (tracks b2) as Hb2 by exact Hb1. clearbody b2.
  match goal with |- context [Send _ _ ?f] => pose proof (still_send f b2 eq_refl) as Hq end.
  apply (still_tracks _ _ Hq) in Hb2. destruct (Send _ _ _) as [r' [|]]; [exact Hb2|].
  by eapply still_tracks; [apply still_Close|].
Qed.

Definition kept a a' : Prop := state a' = state a /\ view a' = view a.

Lemma kept_Close code a b : kept a b -> kept a (CloseSession code b).
Proof. unfold CloseSession. by destruct (closing b). Qed.

Lemma kept_post_or m ev a b : kept a b ->
  kept a (let '(posted, c) := post lim m b in if posted then c else saturated Marshal session ev c).
Proof. unfold post. by destruct (_ <? _)%Z. Qed.

Lemma kept_authorize ev v a b : kept a b -> kept a (authorize Marshal session ev v b).2.
Proof. destruct v; cbn; [done|done|]. intros. by apply kept_Close. Qed.

Lemma kept_event clientRef name frag seen fields v now a :
  kept a (ingressEvent Marshal app session lim clientRef name frag seen fields v now a).
Proof.
  unfold ingressEvent. destruct (allow _ _) as [[] b]; cbn [negb].
  - destruct (negb _); [done|]. destruct (negb _); [done|].
    match goal with |- context [authorize _ _ ?e v ?x] =>
      pose proof (kept_authorize e v a x) as Hq end.
    destruct (authorize _ _ _ v _) as [[] a4]; [|by apply Hq]. by apply kept_post_or, Hq.
  - destruct (_ <=? _)%Z; [by apply kept_Close|done].
Qed.

Lemma kept_Ingress i v now a : kept a (Ingress Marshal app session lim i v now a).
Proof.
  unfold Ingress. destruct i as [? ? ? ? ? ?|? seq|?|? p mo ap|? n ?].
  - match goal with |- kept a (ingressEvent _ _ _ _ _ _ _ _ _ _ _ ?x) =>
      exact (kept_event _ _ _ _ _ v now x) end.
  - unfold ingressAck. by destruct (_ <? _)%Z.
  - done.
  - unfold ingressTelemetry, post_, post. by destruct (_ <? _)%Z.
  - unfold ingressResync.
    match goal with |- context [authorize _ _ ?e v ?x] =>
      pose proof (kept_authorize e v a x) as Hq end.
    destruct (authorize _ _ _ v _) as [[] a4]; [|by apply Hq]. by apply kept_post_or, Hq.
Qed.

Lemma tracks_handle e now a : tracks a -> tracks (handle Marshal app session lim dev e now a).
Proof.
  intros Ht. destruct e as [i v| | |t|k ev|k o|code]; cbn.
  - eapply still_tracks; [|exact Ht]. split; [apply kept_Ingress|apply quiet_Ingress].
  - destruct (mailbox a) as [|m ms]; [done|]. by apply tracks_step.
  - destruct (acks a) as [|n rest]; [done|]. by apply tracks_onAck.
  - by apply tracks_onTick.
  - destruct (running a !! k) as [[source by_]|]; [|done].
    unfold guardedEmitter. repeat (destruct (_ : bool); [done|]).
    eapply still_tracks; [|exact Ht]. split; [|apply quiet_emitter].
    unfold emitter, post. destruct (closing a); [done|]. by destruct (_ <? _)%Z.
  - destruct (running a !! k) as [[source by_]|]; [|done].
    eapply (still_tracks (a <| running ::= delete k |>)); [|exact Ht].
    destruct o; cbn; try apply still_refl; apply still_emitFailure.
  - by eapply still_tracks; [apply still_Close|].
Qed.

Lemma tracks_mount ws now :
  tracks (mount Marshal app session lim dev now (New lim (NewRenderer rg) ws now)).
Proof.
  unfold mount. destruct (Init app) as [[s effects]|].
  - set (a := (New lim (NewRenderer rg) ws now) <| state := s |> <| transitionID := 1 |>
                <| stateVersion := 1 |>).
    assert (tracks a) as Ht by (exists s; apply rendering_new).
    pose proof (tracks_emitSnapshot (mkCausalOrigin pb.MOUNT 0 0 SourceMount []) noSupersession 0
      a Ht) as Hs. clearbody a.
    destruct (emitSnapshot _ _ _ _ _ _ _ _) as [[] b]; cbn [negb snd] in *.
    + by eapply still_tracks; [apply still_effects|].
    + eapply still_tracks; [apply still_Close|]. by eapply still_tracks; [apply still_Error|].
  - eapply still_tracks; [apply still_Close|]. eapply still_tracks; [apply still_Error|].
    exists nil_any. apply rendering_new.
Qed.

Lemma tracks_run ws start events :
  tracks (run Marshal app session lim dev start events (New lim (NewRenderer rg) ws start)).
Proof.
  unfold run. pose proof (tracks_mount ws start) as Ht. revert Ht.
  generalize (mount Marshal app session lim dev start (New lim (NewRenderer rg) ws start)).
  induction events as [|[e now] es IH]; intros a Ht; [done|]. cbn. by apply IH, tracks_handle.
Qed.

(** C5: The static page is the state.  Take any session whose regions declare their changes
    truthfully, with any events, effects, acknowledgements, refusals and failed writes, and
    apply every frame it wrote, in order, to an empty page.  Each static region (one without
    children) is then shown exactly as the session's current state renders it, unless the
    renderer has that region marked, or a hash coincides: what is shown has the hash of the
    current rendering, or that hash is zero, which stands for a region never sent.  When
    nothing is marked every static region is so.  Suppressed, oversized, refused and lost
    passes included, no static region is stale without being marked. *)
Theorem page_shows_the_state (fs : list (Fragment State)) (ws : list bool) (start : Time.t)
  (events : list (event * Time.t))
  (Hnew : NewRegistry fs = Ok rg) (Htrue : truthful fs) :
  let a := run Marshal app session lim dev start events (New lim (NewRenderer rg) ws start) in
  let page := page_of (sent (fr a)) in
  (forall i f html, fs !! i = Some f -> Children f = None -> callRender f (state a) = inl html ->
     Bitset.has i (dirty (view a)) = true \/ shown_as hash page (ID f) html)
  /\ (Pending (view a) = false -> forall f html, f ∈ fs -> Children f = None ->
        callRender f (state a) = inl html -> shown_as hash page (ID f) html).
Proof.
  intros a page. destruct (tracks_run ws start events) as [s0 Hrun]. fold a in Hrun.
  assert (page_of (frames a) = page) as E by apply page_sequenced. rewrite E in Hrun.
  clearbody a page. clear E. apply NewRegistry_ok in Hnew as [Hok <-].
  destruct (rendering_shows hash rg s0 _ _ _ Hok Htrue Hrun) as [Hs Er].
  rewrite <- Er. by apply (shows_current hash).
Qed.
End page.

(** ** On the counter *)

Lemma page_shows_the_state_witness :
  let a := demo [true; false] demo_events in
  state a = 3 /\ Pending (view a) = false
  /\ page_of (sent (fr a)) !! "counter"%string = Some "3"%string.
Proof.
  split; [by vm_compute|]. split; [by vm_compute|].
  unfold demo. change demo_views with (page_views (State := N) code).
  edestruct (page_shows_the_state code demo_marshal counter_app demo_session DefaultLimits
    false counter_registry [counter] [true; false] (1000 * Time.Second)%Z demo_events)
    as [_ H]; [by vm_compute| |].
  2: { destruct (H ltac:(by vm_compute) counter "3"%string) as [Hp|[Hz|(shown & _ & Hne & [= E])]];
       [by left|done|by vm_compute|exact Hp|done|by apply encode_inj in E]. }
  intros f d prev next ->%list_elem_of_singleton _ [= <-] [= H%negb_false_iff%N.eqb_eq]. by subst.
Defined.

(** ** Collections

    The claim stops at static regions.  A collection whose members cannot be listed at the
    new state is not marked, and what its members declared of that step is lost. *)
Definition member_label (s : N) : string :=
  if s =? 0 then "z" else if s =? 1 then "a" else "b".
Definition member : Fragment N :=
  mkFragment "list:x" (Some (fun s => Markup (member_label s)))
    (Some (fun prev next => Changed (negb (bool_decide (member_label prev = member_label next)))))
    None.
Definition roster : Fragment N :=
  mkFragment "list" (Some (fun s => Markup ("[" +:+ member_label s +:+ "]")))
    (Some (fun _ _ => Changed false))
    (Some (fun s => if s =? 2 then inr ("no members", "stack")%string else inl [member])).
Definition roster_registry : Registry N := mkRegistry [roster] {["list"%string := 0%nat]}.
Definition roster_events : list (event * Time.t) :=
  flat_map (fun n => let at_ := ((1000 + n) * Time.Second)%Z in
    [(EvIngress (InboundEvent demo_base 1 "inc" "list:x" 1 []) Allow, at_); (EvStep, at_)])
    [1; 2; 3]%Z.

(** The projection fails on the second of three events.  The member changed on that one and
    truly says that it did not change on the third: nothing is marked, and the client shows
    what the member was two states ago. *)
Theorem failed_projection_leaves_a_member_stale :
  let a := run demo_marshal counter_app demo_session DefaultLimits false
    (1000 * Time.Second)%Z roster_events
    (New DefaultLimits (NewRenderer roster_registry) [] (1000 * Time.Second)%Z) in
  NewRegistry [roster] = Ok roster_registry /\ truthful [roster; member]
  /\ state a = 3 /\ Pending (view a) = false
  /\ collectionChildren roster (fun s => if s =? 2 then inr ("no members", "stack")%string
       else inl [member]) (state a) = Ok [member]
  /\ callRender member (state a) = inl "b"%string
  /\ page_of (sent (fr a)) !! "list:x"%string = Some "a"%string.
Proof.
  split; [by vm_compute|]. split; [|by vm_compute].
  intros f d prev next [->|[->|[]%elem_of_nil]%elem_of_cons]%elem_of_cons; [done|].
  intros _ [= <-] [= H%negb_false_iff%bool_decide_eq_true]. cbn. by rewrite H.
Qed.
