(* ===== verification/GotthLive.v ===== *)
(** * gotth: the configuration of an application (pkg/gotth/live/config.go, app.go)

    Which configurations [New] accepts, and what that makes of the limits a session runs
    under.  The text of an error is left out: an error is the field that it names. *)
From Stdlib Require Import Ascii QArith.
From S2P Require Import Prelude.
From S2P Require Import GoStd.
From S2P Require Import GotthProtocol.
From S2P Require Import GotthWindow.
From S2P Require Import GotthSession.

Open Scope Z_scope.

(** ** Limits *)

(** [live.Limits]: the limits of a session and the two of the process. *)
Record live_Limits := mkLive {
  session_limits : Limits;
  MaxSessionsPerIdentity : Z;
  MaxSessions : Z;
}.

Definition live_DefaultLimits : live_Limits :=
  {| session_limits := DefaultLimits; MaxSessionsPerIdentity := 20; MaxSessions := 0 |}.

Definition internal (l : live_Limits) : Limits := Normalize (session_limits l).

(** The table of [validate], each field with its sign. *)
Definition negative_fields (l : live_Limits) : list (string * bool) :=
  let s := session_limits l in
  [("MaxInboundFrameBytes", MaxInboundFrameBytes s <? 0);
   ("MaxEventsPerSecond", negb (Qle_bool 0 (MaxEventsPerSecond s)));
   ("EventBurst", EventBurst s <? 0);
   ("MailboxDepth", MailboxDepth s <? 0);
   ("AckChannelDepth", AckChannelDepth s <? 0);
   ("AckWindow", AckWindow s <? 0);
   ("CoalesceFlushAt", CoalesceFlushAt s <? 0);
   ("MinResyncInterval", MinResyncInterval s <? 0);
   ("ResyncBurst", ResyncBurst s <? 0);
   ("WriteDeadline", WriteDeadline s <? 0);
   ("SlowClientGrace", SlowClientGrace s <? 0);
   ("HeartbeatInterval", HeartbeatInterval s <? 0);
   ("HeartbeatTimeout", HeartbeatTimeout s <? 0);
   ("IdleTimeout", IdleTimeout s <? 0);
   ("EffectDrainTimeout", EffectDrainTimeout s <? 0);
   ("MaxSessionsPerIdentity", MaxSessionsPerIdentity l <? 0);
   ("MaxSessions", MaxSessions l <? 0);
   ("PanicBudget", PanicBudget s <? 0)].

Record snapshotParam := mkParam { field : string; set : bool; wire : Z; rng : SessionParamRange }.

Definition snapshotParams (l : live_Limits) : list snapshotParam :=
  let s := session_limits l in
  [{| field := "HeartbeatInterval"; set := negb (HeartbeatInterval s =? 0);
      wire := HeartbeatInterval s ÷ Time.Millisecond; rng := HeartbeatIntervalMSRange |};
   {| field := "MaxInboundFrameBytes"; set := negb (MaxInboundFrameBytes s =? 0);
      wire := MaxInboundFrameBytes s; rng := MaxInboundFrameBytesRange |};
   {| field := "AckWindow"; set := negb (AckWindow s =? 0);
      wire := AckWindow s; rng := AckWindowRange |}].

Definition heartbeatTimeoutIntervals : Z := 2.

Definition validateHeartbeatPair (l : live_Limits) : result string unit :=
  let s := session_limits l in
  let d := DefaultLimits in
  let interval := if HeartbeatInterval s =? 0 then HeartbeatInterval d else HeartbeatInterval s in
  let timeout := if HeartbeatTimeout s =? 0 then HeartbeatTimeout d else HeartbeatTimeout s in
  let required := i64_wrap (heartbeatTimeoutIntervals * interval) in
  guard! required <=? timeout else "Limits.HeartbeatTimeout" in Ok tt.

Definition validate_limits (l : live_Limits) : result string unit :=
  match find snd (negative_fields l) with
  | Some (name, _) => Err ("Limits." +:+ name)
  | None =>
      guard! CoalesceFlushAt (session_limits l) <=? Z.of_N MaxCoalesceFlushAt
        else "Limits.CoalesceFlushAt" in
      match find (fun p => set p && negb (Contains (rng p) (wire p))) (snapshotParams l) with
      | Some p => Err ("Limits." +:+ field p)
      | None => validateHeartbeatPair l
      end
  end.

(** ** The configuration *)

(** What [validate] reads of a [Config]: which hooks are set, and the values. *)
Record Config := mkConfig {
  Reduce : bool;
  Fragments : nat;
  Events : list string;
  Origins : list string;
  Authenticate : bool;
  Authorize : bool;
  CSRF : bool;
  ConfigLimits : live_Limits;
  DevBuildID : string;
}.

Definition maxDevBuildID : nat := 128.

Definition control_byte (c : ascii) : bool :=
  ((N_of_ascii c <? 32) || (N_of_ascii c =? 127))%N.

Definition validateDevBuildID (id : string) : result string unit :=
  if bool_decide (id = "") then Ok tt
  else
    guard! (String.length id <=? maxDevBuildID)%nat else "DevBuildID" in
    guard! negb (existsb control_byte (String.list_ascii_of_string id)) else "DevBuildID" in
    guard! bool_decide (TrimSpace id = id) else "DevBuildID" in Ok tt.

Definition event_ok (name : string) : bool :=
  negb (bool_decide (name = "")) && ValidOriginSource (SourceEventPrefix +:+ name).

Definition validate (cfg : Config) : result string unit :=
  guard! Reduce cfg else "Reduce" in
  guard! negb (Fragments cfg =? 0)%nat else "Fragments" in
  guard! negb (bool_decide (Events cfg = [])) else "Events" in
  guard! negb (bool_decide (Origins cfg = [])) else "Origins" in
  guard! Authenticate cfg else "Authenticate" in
  guard! Authorize cfg else "Authorize" in
  guard! CSRF cfg else "CSRF" in
  guard! forallb event_ok (Events cfg) else "Events" in
  let! _ := validateDevBuildID (DevBuildID cfg) in
  validate_limits (ConfigLimits cfg).

(** The limits of the process that [New] hands to the transport. *)
Definition orDefault (v fallback : Z) : Z := if v =? 0 then fallback else v.
Definition process_limits (cfg : Config) : Z * Z :=
  (MaxSessions (ConfigLimits cfg),
   orDefault (MaxSessionsPerIdentity (ConfigLimits cfg))
     (MaxSessionsPerIdentity live_DefaultLimits)).

(** ** What is accepted works *)

Lemma first_negative l : find snd l = None <-> Forall (fun fb : string * bool => fb.2 = false) l.
Proof.
  induction l as [|[f b] l IH]; cbn; [done|]. rewrite Forall_cons. cbn. destruct b; naive_solver.
Qed.

(** Limits a session can run under: what the mount snapshot announces is in range, a flush
    fits the next frame, no capacity is negative, and the timeout leaves two heartbeats. *)
Record workable (lim : Limits) : Prop := {
  w_heartbeat : 1000 <= HeartbeatInterval lim ÷ Time.Millisecond <= 300000;
  w_frame : 1024 <= MaxInboundFrameBytes lim <= 1048576;
  w_window : 1 <= AckWindow lim <= 256;
  w_flush : 1 <= CoalesceFlushAt lim <= Z.of_N MaxCoalesceFlushAt;
  w_timeout : 2 * HeartbeatInterval lim <= HeartbeatTimeout lim;
  w_mailbox : 1 <= MailboxDepth lim /\ 1 <= AckChannelDepth lim;
  w_bursts : 1 <= EventBurst lim /\ 1 <= ResyncBurst lim /\ 1 <= PanicBudget lim;
  w_times : 1 <= MinResyncInterval lim /\ 1 <= WriteDeadline lim /\ 1 <= SlowClientGrace lim
            /\ 1 <= IdleTimeout lim /\ 1 <= EffectDrainTimeout lim;
  w_rate : (0 < MaxEventsPerSecond lim)%Q;
}.

Lemma or_default_ge v d : 1 <= d -> (1 <= or_default v d <-> 0 <= v).
Proof. unfold or_default. destruct (Z.eqb_spec v 0); lia. Qed.

Lemma rate_positive q : (0 < (if Qeq_bool q 0 then 50 else q))%Q <-> Qle_bool 0 q = true.
Proof.
  destruct (Qeq_bool q 0) eqn:E.
  - apply Qeq_bool_eq in E. rewrite Qle_bool_iff, E. split; [intros _; apply Qle_refl|done].
  - apply Qeq_bool_neq in E. rewrite Qle_bool_iff. split; [apply Qlt_le_weak|].
    intros H. apply Qle_lteq in H as [H|H]; [done|]. by rewrite <-H in E.
Qed.

Lemma millisecond_bounds z n m : 1 <= n -> n <= z ÷ Time.Millisecond <= m ->
  n * 1000000 <= z < (m + 1) * 1000000.
Proof.
  intros Hn H. assert (0 <= z).
  { destruct (Z.le_gt_cases 0 z); [done|].
    assert (z ÷ Time.Millisecond <= 0); [|lia].
    rewrite <-(Z.opp_involutive z), Z.quot_opp_l by done.
    pose proof (Z.quot_pos (- z) Time.Millisecond). unfold Time.Millisecond in *. lia. }
  rewrite Z.quot_div_nonneg in H by (unfold Time.Millisecond; lia).
  unfold Time.Millisecond in H. pose proof (Z.div_mod z 1000000). pose proof (Z.mod_pos_bound z 1000000).
  lia.
Qed.

Lemma contains_default r v d ok :
  Contains r d = true -> (negb (v =? 0) && negb (Contains r ok) = false
    <-> Contains r (if v =? 0 then d else ok) = true).
Proof. intros Hd. destruct (v =? 0); cbn; [by rewrite Hd|]. by destruct (Contains r ok). Qed.

Lemma params_ok l : find (fun p => set p && negb (Contains (rng p) (wire p))) (snapshotParams l) = None
  <-> 1000 <= HeartbeatInterval (internal l) ÷ Time.Millisecond <= 300000
      /\ 1024 <= MaxInboundFrameBytes (internal l) <= 1048576
      /\ 1 <= AckWindow (internal l) <= 256.
Proof.
  unfold snapshotParams. cbn [find set wire rng].
  set (s := session_limits l).
  pose proof (contains_default HeartbeatIntervalMSRange (HeartbeatInterval s)
                (HeartbeatInterval DefaultLimits ÷ Time.Millisecond)
                (HeartbeatInterval s ÷ Time.Millisecond) eq_refl) as H1.
  pose proof (contains_default MaxInboundFrameBytesRange (MaxInboundFrameBytes s)
                (MaxInboundFrameBytes DefaultLimits) (MaxInboundFrameBytes s) eq_refl) as H2.
  pose proof (contains_default AckWindowRange (AckWindow s) (AckWindow DefaultLimits)
                (AckWindow s) eq_refl) as H3.
  unfold Contains in *. rewrite !andb_true_iff, !Z.leb_le in H1, H2, H3.
  unfold internal, Normalize, or_default. cbn [HeartbeatInterval MaxInboundFrameBytes AckWindow].
  fold s.
  assert ((if HeartbeatInterval s =? 0 then HeartbeatInterval DefaultLimits else HeartbeatInterval s)
            ÷ Time.Millisecond
          = if HeartbeatInterval s =? 0 then HeartbeatInterval DefaultLimits ÷ Time.Millisecond
            else HeartbeatInterval s ÷ Time.Millisecond) as -> by by destruct (_ =? 0).
  cbn [Min Max HeartbeatIntervalMSRange MaxInboundFrameBytesRange AckWindowRange Z.of_N] in *.
  repeat case_match; naive_solver.
Qed.

Lemma negatives_ok l : find snd (negative_fields l) = None
  <-> let s := session_limits l in
      (0 <= MaxInboundFrameBytes s /\ Qle_bool 0 (MaxEventsPerSecond s) = true
       /\ 0 <= EventBurst s /\ 0 <= MailboxDepth s /\ 0 <= AckChannelDepth s)
      /\ (0 <= AckWindow s /\ 0 <= CoalesceFlushAt s /\ 0 <= MinResyncInterval s
          /\ 0 <= ResyncBurst s /\ 0 <= WriteDeadline s)
      /\ (0 <= SlowClientGrace s /\ 0 <= HeartbeatInterval s /\ 0 <= HeartbeatTimeout s
          /\ 0 <= IdleTimeout s /\ 0 <= EffectDrainTimeout s)
      /\ (0 <= MaxSessionsPerIdentity l /\ 0 <= MaxSessions l /\ 0 <= PanicBudget s).
Proof.
  rewrite first_negative. unfold negative_fields. cbn zeta.
  rewrite !Forall_cons, Forall_nil. cbn [snd]. rewrite !Z.ltb_ge, negb_false_iff. tauto.
Qed.

(** The pair of heartbeat limits, when the interval is in range. *)
Lemma pair_ok l : HeartbeatInterval (internal l) <= 301000000000 ->
  0 <= HeartbeatInterval (internal l) ->
  (validateHeartbeatPair l = Ok tt
   <-> 2 * HeartbeatInterval (internal l) <= HeartbeatTimeout (internal l)).
Proof.
  unfold validateHeartbeatPair, internal, Normalize, or_default, heartbeatTimeoutIntervals.
  cbn [HeartbeatInterval HeartbeatTimeout]. intros H1 H2.
  set (i := if HeartbeatInterval (session_limits l) =? 0 then _ else _) in *.
  set (t := if HeartbeatTimeout (session_limits l) =? 0 then _ else _). clearbody i t.
  rewrite i64_wrap_id by (unfold min_int64, max_int64; lia).
  by destruct (Z.leb_spec (2 * i) t); split; (done || lia).
Qed.

(** Limits that are accepted can be run.  [New] accepts the limits of a configuration
    exactly when the limits that its sessions then run under, defaults filled in, are
    workable: the three that the mount snapshot announces pass the refinements of that frame,
    the coalescing window flushes before its provenance outgrows a frame, every capacity,
    burst, rate and time is positive, and the timeout of a session is at least two of its
    heartbeats; and when the limits of the process are not negative. *)
Theorem accepted_limits_are_workable (l : live_Limits) :
  validate_limits l = Ok tt
  <-> workable (internal l) /\ 0 <= MaxSessionsPerIdentity l /\ 0 <= MaxSessions l.
Proof.
  unfold validate_limits. set (s := session_limits l). pose proof (params_ok l) as Hp.
  pose proof (negatives_ok l) as Hn. cbn zeta in Hn. fold s in Hn.
  assert (CoalesceFlushAt s <= Z.of_N MaxCoalesceFlushAt
          <-> or_default (CoalesceFlushAt s) 512 <= Z.of_N MaxCoalesceFlushAt) as Hflush.
  { unfold or_default. change (Z.of_N MaxCoalesceFlushAt) with 959.
    destruct (Z.eqb_spec (CoalesceFlushAt s) 0); lia. }
  split.
  - destruct (find snd _) as [[name b]|]; [done|]. destruct (proj1 Hn eq_refl) as (N1 & N2 & N3 & N4).
    intros [Hc%Z.leb_le H]%guard_ok.
    destruct (find _ (snapshotParams l)); [done|]. destruct (proj1 Hp eq_refl) as (P1 & P2 & P3).
    pose proof (millisecond_bounds _ 1000 300000 ltac:(done) P1) as B.
    apply pair_ok in H; [|lia..].
    split; [|tauto]. split; try done; cbn; rewrite ?or_default_ge, ?rate_positive by done; tauto.
  - intros ([W1 W2 W3 W4 W5 W6 W7 W8 W9] & I1 & I2).
    pose proof (millisecond_bounds _ 1000 300000 ltac:(done) W1) as B.
    cbn in W4, W6, W7, W8, W9. fold s in W4, W6, W7, W8, W9.
    repeat rewrite or_default_ge in W4 by done. repeat rewrite or_default_ge in W6 by done.
    repeat rewrite or_default_ge in W7 by done. repeat rewrite or_default_ge in W8 by done.
    rewrite rate_positive in W9.
    assert (0 <= MaxInboundFrameBytes s /\ 0 <= AckWindow s /\ 0 <= HeartbeatInterval s
            /\ 0 <= HeartbeatTimeout s) as Hsigns.
    { revert W2 W3 W5 B. unfold internal, Normalize, or_default.
      cbn [MaxInboundFrameBytes AckWindow HeartbeatInterval HeartbeatTimeout]. fold s.
      repeat case_match; lia. }
    rewrite (proj2 Hn) by tauto. rewrite (proj2 (Z.leb_le _ _)) by tauto.
    rewrite (proj2 Hp) by done. by apply pair_ok; [lia..|].
Qed.
