(* ===== verification/GotthRegistry.v ===== *)
(** * gotth: the transport's registry of sessions (pkg/gotth/internal/wsx/handler.go, conn.go)

    The checks an upgrade passes in [ServeHTTP], and the registry that upgrades, sessions and
    [Close] share under one mutex, as a machine whose steps are the critical sections: an
    upgrade is admitted, then fails, or registers, or loses to [Close]; a session ends by
    leaving the registry and then gives up its identity's slot.  Steps of any number of
    upgrades interleave.  Sockets, identifiers and the sessions themselves are events. *)
From Stdlib Require Import Ascii.
From S2P Require Import Prelude.
From S2P Require Import GoStd.
From S2P Require Import GotthProtocol.

Open Scope Z_scope.

(** ** ServeHTTP *)

Definition AnyOrigin : string := "*".
(** [protocol.Subprotocol] *)
Definition Subprotocol : string := "gotth-live.v1".

Section serve.
(** [strings.EqualFold], and the request: its [Origin], the values of its
    [Sec-WebSocket-Protocol] headers, and what the hooks say of it. *)
Context (EqualFold : string -> string -> bool).

Record request := mkHttpRequest {
  Origin : string;
  Protocols : list string;
  Authenticated : option string;   (* the subject *)
  CSRFPassed : bool;
}.

Definition originAllowed (Origins : list string) (r : request) : bool :=
  existsb (fun allowed =>
    bool_decide (allowed = AnyOrigin)
    || negb (bool_decide (Origin r = "")) && EqualFold (Origin r) allowed) Origins.

Definition offersSubprotocol (r : request) : bool :=
  existsb (fun h => existsb (fun token => bool_decide (TrimSpace token = Subprotocol))
                      (Split "," h)) (Protocols r).

(** ** The registry *)

(** A session is named by the number of its upgrade. *)
Record registry := mkRegistry {
  sessions : gmap string nat;
  perID : gmap string Z;
  draining : bool;
  pending : Z;
}.
#[local] Instance Rebuild_registry : Rebuild registry := fun r =>
  mkRegistry (sessions r) (perID r) (draining r) (pending r).

Record Options := mkOptions {
  AllowedOrigins : list string;
  MaxSessions : Z;
  MaxSessionsPerIdentity : Z;
}.

Definition NewHandler : registry :=
  {| sessions := ∅; perID := ∅; draining := false; pending := 0 |}.

Definition held (r : registry) (subject : string) : Z := default 0 (perID r !! subject).

Definition admit_ (o : Options) (subject : string) (r : registry) : result string registry :=
  guard! negb (draining r) else "draining" in
  guard! negb ((0 <? MaxSessions o)
               && (MaxSessions o <=? Z.of_nat (size (sessions r)) + pending r))
    else "session limit" in
  guard! negb ((0 <? MaxSessionsPerIdentity o)
               && (MaxSessionsPerIdentity o <=? held r subject)) else "identity limit" in
  Ok (r <| perID ::= <[subject := held r subject + 1]> |> <| pending ::= fun n => n + 1 |>).

Definition dropIdentity (subject : string) (r : registry) : registry :=
  if held r subject <=? 1 then r <| perID ::= delete subject |>
  else r <| perID ::= <[subject := held r subject - 1]> |>.

Definition releaseAdmission (subject : string) (r : registry) : registry :=
  dropIdentity subject (r <| pending ::= fun n => n - 1 |>).

Definition release (subject : string) (r : registry) : registry := dropIdentity subject r.

Definition register (id : string) (k : nat) (r : registry) : result string registry :=
  guard! negb (draining r) else "lost the race with Handler.Close" in
  Ok (r <| pending ::= fun n => n - 1 |> <| sessions ::= <[id := k]> |>).

Definition deregister (id : string) (r : registry) : registry :=
  r <| sessions ::= delete id |>.

(** The first half of [Close]: the flag and the sessions that are closed and waited for. *)
Definition Close_begin (r : registry) : registry * list nat :=
  (r <| draining := true |>, (map_to_list (sessions r)).*2).

Definition Sessions (r : registry) : Z := Z.of_nat (size (sessions r)).

(** What [ServeHTTP] answers before the upgrade, or the registry with the admission. *)
Definition ServeHTTP_checks (o : Options) (req : request) (r : registry)
  : result Z (string * registry) :=
  guard! originAllowed (AllowedOrigins o) req else 403 in
  match Authenticated req with
  | None => Err 401
  | Some subject =>
      guard! CSRFPassed req else 403 in
      guard! offersSubprotocol req else 426 in
      match admit_ o subject r with
      | Ok r => Ok (subject, r)
      | Err _ => Err 503
      end
  end.

(** ** Upgrades at once *)

(** Where the goroutine of an upgrade stands. *)
Inductive stage :=
| Reserved (subject : string)            (* before [mintID], [Accept] and [register] *)
| Refused (subject : string)             (* [register] has refused it *)
| Serving (subject id : string)
| Ended (subject : string).              (* [done] is closed, [release] is still to run *)

Record machine := mkMachine {
  reg : registry;
  stages : gmap nat stage;
  closers : list (list nat);             (* what each [Close] waits for *)
}.
#[local] Instance Rebuild_machine : Rebuild machine := fun m =>
  mkMachine (reg m) (stages m) (closers m).

Definition start : machine := {| reg := NewHandler; stages := ∅; closers := [] |}.

Inductive event :=
| EUpgrade (k : nat) (req : request)
| EFail (k : nat)                        (* no identifier, or [Accept] fails *)
| ERegister (k : nat) (id : string)
| EGiveUp (k : nat)
| EEnd (k : nat)                         (* the teardown of [serve] *)
| ERelease (k : nat)
| EClose.

Definition step (o : Options) (m : machine) (e : event) : machine :=
  match e with
  | EUpgrade k req =>
      match stages m !! k with
      | Some _ => m
      | None =>
          match ServeHTTP_checks o req (reg m) with
          | Err _ => m
          | Ok (subject, r) => m <| reg := r |> <| stages ::= <[k := Reserved subject]> |>
          end
      end
  | EFail k =>
      match stages m !! k with
      | Some (Reserved subject) =>
          m <| reg ::= releaseAdmission subject |> <| stages ::= delete k |>
      | _ => m
      end
  | ERegister k id =>
      match stages m !! k with
      | Some (Reserved subject) =>
          match register id k (reg m) with
          | Ok r => m <| reg := r |> <| stages ::= <[k := Serving subject id]> |>
          | Err _ => m <| stages ::= <[k := Refused subject]> |>
          end
      | _ => m
      end
  | EGiveUp k =>
      match stages m !! k with
      | Some (Refused subject) =>
          m <| reg ::= releaseAdmission subject |> <| stages ::= delete k |>
      | _ => m
      end
  | EEnd k =>
      match stages m !! k with
      | Some (Serving subject id) =>
          m <| reg ::= deregister id |> <| stages ::= <[k := Ended subject]> |>
      | _ => m
      end
  | ERelease k =>
      match stages m !! k with
      | Some (Ended subject) => m <| reg ::= release subject |> <| stages ::= delete k |>
      | _ => m
      end
  | EClose =>
      let '(r, live) := Close_begin (reg m) in
      m <| reg := r |> <| closers ::= (.++ [live]) |>
  end.

(** [Close] has waited for what it found. *)
Definition closed (m : machine) (live : list nat) : bool :=
  forallb (fun k => match stages m !! k with Some (Serving _ _) => false | _ => true end) live.

(** The identifiers that are minted are new: sixteen random bytes. *)
Definition minted (m : machine) (e : event) : Prop :=
  match e with
  | ERegister k id => sessions (reg m) !! id = None
  | _ => True
  end.

Inductive reachable (o : Options) : machine -> Prop :=
| reach_start : reachable o start
| reach_step m e : reachable o m -> minted m e -> reachable o (step o m e).

(** ** Counting upgrades *)

Definition count (P : stage -> bool) (m : gmap nat stage) : Z :=
  Z.of_nat (size (base.filter (fun kv => P kv.2 = true) m)).

Definition waiting (st : stage) : bool :=
  match st with Reserved _ | Refused _ => true | _ => false end.
Definition serving (st : stage) : bool := match st with Serving _ _ => true | _ => false end.
Definition subject_of (st : stage) : string :=
  match st with Reserved s | Refused s | Serving s _ | Ended s => s end.
Definition of_subject (s : string) (st : stage) : bool := bool_decide (subject_of st = s).

Definition one_if (b : bool) : Z := if b then 1 else 0.

Lemma count_insert P m k st : m !! k = None ->
  count P (<[k := st]> m) = one_if (P st) + count P m.
Proof.
  intros H. unfold count, one_if. destruct (P st) eqn:E.
  - rewrite map_filter_insert_True by done. rewrite map_size_insert_None; [lia|].
    apply map_lookup_filter_None. by left.
  - rewrite map_filter_insert_False by (cbn; congruence). by rewrite delete_id.
Qed.

Lemma count_delete P m k st : m !! k = Some st ->
  count P (delete k m) = count P m - one_if (P st).
Proof.
  intros H. rewrite <-(insert_delete_id m k st H) at 2.
  rewrite count_insert by apply lookup_delete_eq. lia.
Qed.

Lemma count_update P m k st st' : m !! k = Some st ->
  count P (<[k := st']> m) = count P m - one_if (P st) + one_if (P st').
Proof.
  intros H. rewrite <-insert_delete_eq, count_insert by apply lookup_delete_eq.
  rewrite (count_delete P m k st H). lia.
Qed.

Lemma count_empty P : count P ∅ = 0.
Proof. done. Qed.

Lemma count_nonneg P m : 0 <= count P m.
Proof. unfold count. lia. Qed.

Lemma count_some P m k st : m !! k = Some st -> P st = true -> 1 <= count P m.
Proof.
  intros H HP. pose proof (count_delete P m k st H) as E. pose proof (count_nonneg P (delete k m)).
  rewrite HP in E. cbn in E. lia.
Qed.

Lemma count_subject s m k st st' : m !! k = Some st -> subject_of st' = subject_of st ->
  count (of_subject s) (<[k := st']> m) = count (of_subject s) m.
Proof. intros H E. rewrite (count_update _ m k st st' H). unfold of_subject. rewrite E. lia. Qed.

(** ** The invariant *)

Record inv (o : Options) (m : machine) : Prop := {
  i_pending : pending (reg m) = count waiting (stages m);
  i_size : Z.of_nat (size (sessions (reg m))) = count serving (stages m);
  i_held s : held (reg m) s = count (of_subject s) (stages m);
  i_positive s n : perID (reg m) !! s = Some n -> 1 <= n;
  i_sessions id k :
    sessions (reg m) !! id = Some k <-> exists s, stages m !! k = Some (Serving s id);
  i_max : 0 < MaxSessions o -> count serving (stages m) + count waiting (stages m) <= MaxSessions o;
  i_max_identity s : 0 < MaxSessionsPerIdentity o ->
    count (of_subject s) (stages m) <= MaxSessionsPerIdentity o;
  i_closing : draining (reg m) = false -> closers m = [];
  i_closers : Forall (fun live => forall k s id,
    stages m !! k = Some (Serving s id) -> k ∈ live) (closers m);
}.

Lemma held_insert s n r s' :
  held (r <| perID ::= <[s := n]> |>) s' = if bool_decide (s = s') then n else held r s'.
Proof.
  unfold held. cbn. case_bool_decide as H; [subst; by rewrite lookup_insert_eq|].
  by rewrite lookup_insert_ne.
Qed.

Lemma held_drop s r s' : 1 <= held r s ->
  held (dropIdentity s r) s' = held r s' - one_if (bool_decide (s = s')).
Proof.
  intros H. unfold dropIdentity. destruct (Z.leb_spec (held r s) 1).
  - unfold held in *. cbn. case_bool_decide as Hs; cbn.
    + subst. rewrite lookup_delete_eq. cbn. lia.
    + rewrite lookup_delete_ne by done. lia.
  - rewrite held_insert. case_bool_decide; cbn; [subst|]; lia.
Qed.

Lemma positive_drop s r : (forall s n, perID r !! s = Some n -> 1 <= n) ->
  forall s' n, perID (dropIdentity s r) !! s' = Some n -> 1 <= n.
Proof.
  intros H s' n. unfold dropIdentity. destruct (Z.leb_spec (held r s) 1); cbn.
  - intros [_ ?]%lookup_delete_Some. by eapply H.
  - intros [[_ <-]|[_ ?]]%lookup_insert_Some; [lia|by eapply H].
Qed.

Lemma drop_keeps s r : sessions (dropIdentity s r) = sessions r
  /\ draining (dropIdentity s r) = draining r /\ pending (dropIdentity s r) = pending r.
Proof. unfold dropIdentity. by destruct (_ <=? _). Qed.

(** An upgrade that leaves: its identity's slot, and its place in [pending] if it waited. *)
Lemma leave_inv o m k st : inv o m -> stages m !! k = Some st -> serving st = false ->
  forall n, n = pending (reg m) - one_if (waiting st) ->
  inv o (m <| reg := dropIdentity (subject_of st) ((reg m) <| pending := n |>) |>
           <| stages ::= delete k |>).
Proof.
  intros I H Hs n ->.
  assert (1 <= held (reg m) (subject_of st)) as Hheld.
  { rewrite (i_held o m I). apply (count_some _ _ k st H). unfold of_subject.
    by rewrite bool_decide_eq_true. }
  set (r0 := (reg m) <| pending := pending (reg m) - one_if (waiting st) |>).
  assert (forall s, held r0 s = held (reg m) s) as H0 by done.
  assert (perID r0 = perID (reg m) /\ sessions r0 = sessions (reg m)
          /\ draining r0 = draining (reg m)
          /\ pending r0 = pending (reg m) - one_if (waiting st)) as (F0 & F1 & F2 & F3) by done.
  clearbody r0. destruct (drop_keeps (subject_of st) r0) as (E1 & E2 & E3).
  rewrite <-H0 in Hheld. pose proof (fun s => held_drop (subject_of st) r0 s Hheld) as Hd.
  pose proof (positive_drop (subject_of st) r0) as Hp. rewrite F0 in Hp.
  set (r' := dropIdentity (subject_of st) r0) in *. clearbody r'.
  split; cbn; rewrite ?E1, ?E2, ?E3, ?F1, ?F2, ?F3.
  - by rewrite (count_delete _ _ k st H), (i_pending o m I).
  - rewrite (count_delete _ _ k st H), (i_size o m I), Hs. cbn. lia.
  - intros s. by rewrite Hd, (count_delete _ _ k st H), H0, (i_held o m I).
  - apply Hp, (i_positive o m I).
  - intros id j. rewrite (i_sessions o m I). split; intros [s Hj]; exists s.
    + rewrite lookup_delete_ne; [done|]. intros <-. rewrite H in Hj. by injection Hj as ->.
    + by apply lookup_delete_Some in Hj as [_ ?].
  - intros HM. pose proof (i_max o m I HM). rewrite !(count_delete _ _ k st H).
    unfold one_if. repeat case_match; lia.
  - intros s HM. pose proof (i_max_identity o m I s HM). rewrite (count_delete _ _ k st H).
    unfold one_if. case_match; lia.
  - apply (i_closing o m I).
  - eapply Forall_impl; [apply (i_closers o m I)|]. intros live Hl j s id Hj.
    apply lookup_delete_Some in Hj as [_ Hj]. by eapply Hl.
Qed.

Lemma inv_start o : inv o start.
Proof.
  split; cbn; rewrite ?count_empty; try done; try lia.
  - intros id k. by split; [|intros [s ?]].
  - intros s H. rewrite count_empty. lia.
Qed.

Lemma upgrade_inv o m k req : inv o m -> inv o (step o m (EUpgrade k req)).
Proof.
  intros I. cbn. destruct (stages m !! k) as [st|] eqn:Hk; [done|].
  unfold ServeHTTP_checks. destruct (originAllowed _ _); [|done].
  destruct (Authenticated req) as [s|]; [|done].
  destruct (CSRFPassed req); [|done]. destruct (offersSubprotocol req); [|done].
  unfold admit_. destruct (draining (reg m)) eqn:Hd; [done|].
  destruct (_ && _) eqn:HM; [done|]. destruct ((0 <? MaxSessionsPerIdentity o) && _) eqn:HI; [done|].
  pose proof (i_pending o m I) as Ep. pose proof (i_size o m I) as Es.
  rewrite Ep, Es in HM. rewrite (i_held o m I) in HI.
  cbn. split; cbn.
  - rewrite count_insert by done. cbn. lia.
  - rewrite count_insert by done. cbn. lia.
  - intros s'. change (held ((reg m) <| perID ::= <[s := held (reg m) s + 1]> |>) s' = count (of_subject s') (<[k := Reserved s]> (stages m))).
    rewrite held_insert, count_insert, !(i_held o m I) by done.
    unfold of_subject at 3. cbn. case_bool_decide; cbn; [subst|]; lia.
  - intros s' n [[_ <-]|[_ ?]]%lookup_insert_Some; [|by eapply (i_positive o m I)].
    rewrite (i_held o m I). pose proof (count_nonneg (of_subject s) (stages m)). lia.
  - intros id j. rewrite (i_sessions o m I). split; intros [s' Hj]; exists s'.
    + rewrite lookup_insert_ne; [done|]. by intros <-; rewrite Hk in Hj.
    + by apply lookup_insert_Some in Hj as [[_ ?]|[_ ?]].
  - intros H. rewrite !count_insert by done. cbn. lia.
  - intros s' H. rewrite count_insert by done. pose proof (i_max_identity o m I s' H).
    unfold of_subject at 1. cbn. case_bool_decide as Hs; cbn; [subst; lia|lia].
  - apply (i_closing o m I).
  - rewrite (i_closing o m I Hd). constructor.
Qed.

Lemma register_inv o m k id : inv o m -> sessions (reg m) !! id = None ->
  inv o (step o m (ERegister k id)).
Proof.
  intros I Hid. cbn. destruct (stages m !! k) as [[s| | |]|] eqn:Hk; try done.
  unfold register. destruct (draining (reg m)) eqn:Hd; cbn.
  - destruct I. split; cbn; try done;
      try (intros; rewrite ?(count_update _ _ k _ _ Hk); cbn; try done; lia).
    + intros s'. by rewrite (count_subject _ _ k _ _ Hk), i_held0.
    + intros id' j. rewrite i_sessions0. split; intros [s' Hj]; exists s'.
      * rewrite lookup_insert_ne; [done|]. by intros <-; rewrite Hk in Hj.
      * by apply lookup_insert_Some in Hj as [[_ ?]|[_ ?]].
    + intros s' H. rewrite (count_subject _ _ k _ _ Hk) by done. by apply i_max_identity0.
    + eapply Forall_impl; [done|]. intros live Hl j s' id' [[_ ?]|[_ ?]]%lookup_insert_Some; [done|].
      by eapply Hl.
  - pose proof (i_closing o m I Hd) as Hc. destruct I. split; cbn; try done;
      try (intros; rewrite ?(count_update _ _ k _ _ Hk); cbn; try done; lia).
    + rewrite (count_update _ _ k _ _ Hk), map_size_insert_None by done. cbn. lia.
    + intros s'. by rewrite (count_subject _ _ k _ _ Hk), <-i_held0.
    + intros id' j. rewrite lookup_insert_Some, i_sessions0. split.
      * intros [[<- <-]|[Hne [s' Hj]]]; [exists s; by rewrite lookup_insert_eq|].
        exists s'. rewrite lookup_insert_ne; [done|]. by intros <-; rewrite Hk in Hj.
      * intros [s' [[<- [= _ <-]]|[Hne Hj]]%lookup_insert_Some]; [by left|]. right. split; [|by eexists].
        intros <-. assert (sessions (reg m) !! id = Some j) by (apply i_sessions0; by eexists).
        congruence.
    + intros s' H. rewrite (count_subject _ _ k _ _ Hk) by done. by apply i_max_identity0.
    + rewrite Hc. constructor.
Qed.

Lemma end_inv o m k : inv o m -> inv o (step o m (EEnd k)).
Proof.
  intros I. cbn. destruct (stages m !! k) as [[| |s id|]|] eqn:Hk; try done.
  assert (sessions (reg m) !! id = Some k) as Hid by (apply (i_sessions o m I); by eexists).
  destruct I. split; cbn; try done.
  - rewrite (count_update _ _ k _ _ Hk). cbn. lia.
  - rewrite (count_update _ _ k _ _ Hk), map_size_delete_Some by by eexists. cbn.
    pose proof (count_some serving _ k _ Hk eq_refl). lia.
  - intros s'. by rewrite (count_subject _ _ k _ _ Hk), <-i_held0.
  - intros id' j. rewrite lookup_delete_Some, i_sessions0. split.
    + intros [Hne [s' Hj]]. exists s'. rewrite lookup_insert_ne; [done|].
      intros <-. rewrite Hk in Hj. by injection Hj as -> ->.
    + intros [s' [[_ ?]|[Hne Hj]]%lookup_insert_Some]; [done|]. split; [|by eexists].
      intros <-. assert (sessions (reg m) !! id = Some j) by (apply i_sessions0; by eexists).
      congruence.
  - intros H. rewrite !(count_update _ _ k _ _ Hk). pose proof (i_max0 H). cbn. lia.
  - intros s' H. rewrite (count_subject _ _ k _ _ Hk) by done. by apply i_max_identity0.
  - eapply Forall_impl; [done|]. intros live Hl j s' id' [[_ ?]|[_ ?]]%lookup_insert_Some; [done|].
    by eapply Hl.
Qed.

Lemma close_inv o m : inv o m -> inv o (step o m EClose).
Proof.
  intros []. split; cbn; try done.
  apply Forall_app_2; [done|]. apply Forall_singleton. intros k s id Hk.
  apply list_elem_of_fmap. exists (id, k). split; [done|].
  apply elem_of_map_to_list, i_sessions0. by eexists.
Qed.

Lemma event_inv o m e : inv o m -> minted m e -> inv o (step o m e).
Proof.
  intros I Hm. destruct e as [k req|k|k id|k|k|k|].
  - by apply upgrade_inv.
  - cbn. destruct (stages m !! k) as [[s| | |]|] eqn:Hk; try done.
    exact (leave_inv o m k (Reserved s) I Hk eq_refl _ eq_refl).
  - by apply register_inv.
  - cbn. destruct (stages m !! k) as [[|s| |]|] eqn:Hk; try done.
    exact (leave_inv o m k (Refused s) I Hk eq_refl _ eq_refl).
  - by apply end_inv.
  - cbn. destruct (stages m !! k) as [[| | |s]|] eqn:Hk; try done.
    pose proof (leave_inv o m k (Ended s) I Hk eq_refl _ eq_refl) as H. cbn in H.
    rewrite Z.sub_0_r in H. by destruct m as [[]].
  - by apply close_inv.
Qed.

Lemma registry_inv o m : reachable o m -> inv o m.
Proof. induction 1; [apply inv_start|by apply event_inv]. Qed.
(** ** After Close *)

Definition shut (m : machine) : Prop :=
  draining (reg m) = true /\ sessions (reg m) = ∅
  /\ forall k s id, stages m !! k <> Some (Serving s id).

Lemma not_served (m : gmap nat stage) k st : serving st = false ->
  (forall j s id, m !! j <> Some (Serving s id)) ->
  forall j s id, <[k := st]> m !! j <> Some (Serving s id).
Proof. intros Hs H j s id [[_ ->]|[_ ?]]%lookup_insert_Some; [done|by eapply H]. Qed.

Lemma not_served_delete (m : gmap nat stage) k :
  (forall j s id, m !! j <> Some (Serving s id)) ->
  forall j s id, delete k m !! j <> Some (Serving s id).
Proof. intros H j s id [_ ?]%lookup_delete_Some. by eapply H. Qed.

Lemma shut_drop (m : machine) s r k : shut m -> draining r = true -> sessions r = ∅ ->
  shut (m <| reg := dropIdentity s r |> <| stages ::= delete k |>).
Proof.
  intros (_ & _ & Hn) Hd He. destruct (drop_keeps s r) as (E1 & E2 & _).
  split_and!; cbn; [by rewrite E2|by rewrite E1|by apply not_served_delete].
Qed.

Lemma shut_step o m e : shut m -> shut (step o m e).
Proof.
  intros H. pose proof H as (Hd & He & Hn). destruct e as [k req|k|k id|k|k|k|]; cbn.
  - destruct (stages m !! k); [done|]. unfold ServeHTTP_checks, admit_. rewrite Hd. cbn.
    destruct (originAllowed _ _); [|done]. destruct (Authenticated req); [|done].
    destruct (CSRFPassed req); [|done]. by destruct (offersSubprotocol req).
  - destruct (stages m !! k) as [[s| | |]|]; try done.
    by apply (shut_drop m s ((reg m) <| pending ::= fun n => n - 1 |>) k).
  - destruct (stages m !! k) as [[s| | |]|]; try done. unfold register. rewrite Hd.
    split_and!; [done..|by apply not_served].
  - destruct (stages m !! k) as [[|s| |]|]; try done.
    by apply (shut_drop m s ((reg m) <| pending ::= fun n => n - 1 |>) k).
  - destruct (stages m !! k) as [[| |s id|]|] eqn:Hk; try done. by apply Hn in Hk.
  - destruct (stages m !! k) as [[| | |s]|]; try done.
    by apply (shut_drop m s (reg m) k).
  - by split_and!.
Qed.

Lemma shut_run o es : forall m, shut m -> shut (foldl (step o) m es).
Proof. induction es as [|e es IH]; [done|]. intros m H. by apply IH, shut_step. Qed.

Lemma closed_shut o m live : inv o m -> live ∈ closers m -> closed m live = true -> shut m.
Proof.
  intros I Hl Hc.
  assert (forall k s id, stages m !! k <> Some (Serving s id)) as Hn.
  { intros k s id Hk. pose proof (i_closers o m I) as HF. rewrite Forall_forall in HF.
    specialize (HF live Hl k s id Hk). unfold closed in Hc. rewrite forallb_forall in Hc.
    specialize (Hc k). rewrite Hk in Hc. by apply diff_false_true, Hc, list_elem_of_In. }
  split_and!; [|apply map_eq; intros id; rewrite lookup_empty|done].
  - destruct (draining (reg m)) eqn:Hd; [done|]. rewrite (i_closing o m I Hd) in Hl.
    by apply elem_of_nil in Hl.
  - destruct (sessions (reg m) !! id) as [k|] eqn:E; [|done].
    apply (i_sessions o m I) in E as [s E]. by apply Hn in E.
Qed.

Lemma no_upgrade_no_slot o m : inv o m -> stages m = ∅ ->
  sessions (reg m) = ∅ /\ perID (reg m) = ∅ /\ pending (reg m) = 0.
Proof.
  intros I H. split_and!.
  - apply map_eq. intros id. rewrite lookup_empty.
    destruct (sessions (reg m) !! id) as [k|] eqn:E; [|done].
    apply (i_sessions o m I) in E as [s E]. by rewrite H in E.
  - apply map_eq. intros s. rewrite lookup_empty.
    destruct (perID (reg m) !! s) as [n|] eqn:E; [|done].
    pose proof (i_positive o m I s n E). pose proof (i_held o m I s) as Hh.
    unfold held in Hh. rewrite E, H, count_empty in Hh. cbn in Hh. lia.
  - by rewrite (i_pending o m I), H, count_empty.
Qed.

(** Whether a subject has a slot, in terms of the upgrades that are under way. *)
Definition room (o : Options) (s : string) (m : machine) : Prop :=
  (0 < MaxSessions o -> count serving (stages m) + count waiting (stages m) < MaxSessions o)
  /\ (0 < MaxSessionsPerIdentity o ->
      count (of_subject s) (stages m) < MaxSessionsPerIdentity o).

Lemma admit_room o s m : inv o m ->
  (exists r, admit_ o s (reg m) = Ok r) <-> draining (reg m) = false /\ room o s m.
Proof.
  intros I. unfold admit_, room. rewrite (i_pending o m I), (i_size o m I), (i_held o m I).
  destruct (draining (reg m)); cbn; [split; [by intros [? ?]|by intros [? ?]]|].
  destruct (Z.ltb_spec 0 (MaxSessions o)); cbn;
    [destruct (Z.leb_spec (MaxSessions o) (count serving (stages m) + count waiting (stages m)))|];
    cbn; try (split; [by intros [? ?]|intros (_ & ? & _); lia]);
    (destruct (Z.ltb_spec 0 (MaxSessionsPerIdentity o)); cbn;
      [destruct (Z.leb_spec (MaxSessionsPerIdentity o) (count (of_subject s) (stages m)))|];
      cbn; (split; [intros [? ?]; first [done|split_and!; [done|lia|lia]]
                   |intros (_ & _ & ?); first [by eexists|lia]])).
Qed.

(** C26: No slot of the transport leaks and none is given twice: however the upgrades, the
    failures between admission and registration, the ends of sessions and the drain interleave,
    the registry's size is the number of sessions that are served, the reservations are the
    upgrades that wait, a subject's count is the number of its connections under way; the two
    limits hold for served and waiting connections together; a subject is admitted exactly when
    the handler is not draining and both limits leave room; and when nothing is under way the
    handler holds nothing. *)
Theorem slots_are_accounted o m : reachable o m ->
  Sessions (reg m) = count serving (stages m)
  /\ pending (reg m) = count waiting (stages m)
  /\ (forall s, held (reg m) s = count (of_subject s) (stages m))
  /\ (0 < MaxSessions o -> Sessions (reg m) + pending (reg m) <= MaxSessions o)
  /\ (forall s, 0 < MaxSessionsPerIdentity o -> held (reg m) s <= MaxSessionsPerIdentity o)
  /\ (forall s, (exists r, admit_ o s (reg m) = Ok r) <-> draining (reg m) = false /\ room o s m)
  /\ (stages m = ∅ -> sessions (reg m) = ∅ /\ perID (reg m) = ∅ /\ pending (reg m) = 0).
Proof.
  intros I%registry_inv. unfold Sessions.
  rewrite (i_size o m I), (i_pending o m I).
  split_and!; [done|done|apply (i_held o m I)|apply (i_max o m I)|..].
  - intros s. rewrite (i_held o m I). apply (i_max_identity o m I).
  - intros s. by apply admit_room.
  - intros H. pose proof (no_upgrade_no_slot o m I H). by rewrite <-(i_pending o m I).
Qed.

(** C25: A drain that reports success is complete: once every session that a [Close] found has
    ended, no session is served at all and the registry is empty, also those of upgrades that
    were admitted before the drain began, and no later event of any kind brings one back. *)
Theorem drained_is_drained o m live es :
  reachable o m -> live ∈ closers m -> closed m live = true ->
  let m' := foldl (step o) m es in
  Sessions (reg m') = 0 /\ draining (reg m') = true
  /\ forall k s id, stages m' !! k <> Some (Serving s id).
Proof.
  intros I%registry_inv Hl Hc. pose proof (closed_shut o m live I Hl Hc) as H. intros m'.
  destruct (shut_run o es m H) as (Hd & He & Hn). fold m' in Hd, He, Hn.
  unfold Sessions. by rewrite He.
Qed.
End serve.

(** ** A run *)

Module Demo.
Definition o : Options :=
  {| AllowedOrigins := ["https://app.test"]; MaxSessions := 2; MaxSessionsPerIdentity := 1 |}.
Definition ask (subject : string) : request :=
  {| Origin := "https://app.test"; Protocols := ["other, gotth-live.v1"];
     Authenticated := Some subject; CSRFPassed := true |}.
Definition fold (a b : string) : bool := bool_decide (a = b).

(** Two sessions, a second connection of one subject and a third session that are refused;
    the drain begins while an upgrade waits, which then may not register. *)
Definition trace : list event :=
  [EUpgrade 0 (ask "ann"); EUpgrade 1 (ask "ann"); ERegister 0 "a"; EUpgrade 2 (ask "bob");
   EUpgrade 3 (ask "cyn"); EClose; ERegister 2 "b"; EEnd 0; EGiveUp 2].
Definition run (es : list event) : machine := foldl (step fold o) start es.

Lemma reached n : (n <= 9)%nat -> reachable fold o (run (take n trace)).
Proof.
  intros H. do 10 (destruct n as [|n]; [repeat first [apply reach_start | apply reach_step; [|done]]|]).
  lia.
Qed.

Example refusals :
  map (fun k => (run (take 5 trace)).(stages) !! k) [0%nat; 1%nat; 2%nat; 3%nat]
  = [Some (Serving "ann" "a"); None; Some (Reserved "bob"); None].
Proof. vm_compute. reflexivity. Qed.

Lemma slots_are_accounted_witness :
  let m := run (take 5 trace) in
  Sessions (reg m) + pending (reg m) = 2 /\ Sessions (reg m) + pending (reg m) <= MaxSessions o.
Proof.
  split; [vm_compute; reflexivity|].
  destruct (slots_are_accounted fold o (run (take 5 trace)) (reached 5 ltac:(lia)))
    as (_ & _ & _ & H & _).
  apply H. vm_compute. reflexivity.
Defined.

Lemma drained_is_drained_witness :
  Sessions (reg (foldl (step fold o) (run trace)
                   [ERelease 0; EUpgrade 7 (ask "ann"); ERegister 7 "z"])) = 0.
Proof.
  apply (drained_is_drained fold o (run trace) [0%nat]).
  - exact (reached 9 ltac:(lia)).
  - replace (closers (run trace)) with [[0%nat]] by (vm_compute; reflexivity).
    by apply list_elem_of_singleton.
  - vm_compute. reflexivity.
Defined.
End Demo.
